(* ===== verification/_CoqProject ===== *)
-Q . S2P
Prelude.v
GoStrings.v
Ber.v
Oid.v
TypedValue.v
Request.v
Response.v
OidOrder.v
OidPrefix.v
Walk.v
IfState.v
CounterHold.v
Hierarchy.v
IfCounters.v
SetReq.v
Server.v
Octets.v
V3Msg.v
Usm.v
V3Server.v
V3Session.v
V3Bulk.v
Topology.v
Lldp.v
LldpCache.v
Agent.v
Trap.v
TrapFast.v
TrapCatalog.v
TrapOverlay.v
TrapV3.v
FlowWire.v
FlowTemplates.v
FlowCollect.v
FlowV5.v
FlowSflow.v
FlowAvc.v
FlowCache.v
Scenario.v
FlowTick.v
FlowExport.v
Nbar2.v
