(* ===== verification/Prelude.v ===== *)
(** * nl6: a verification development of the simulator's SNMP agent

    nl6 simulates network devices: each device answers SNMP, keeps interface
    state, counts octets, is cabled to others and sends traps.  This development
    models the SNMP agent of a device, the state it serves and the traps it sends,
    from the Go sources under src/go/nl6, and proves what makes them correct.

    ** The parts and how they interact

    A datagram arrives at [handleSingleRequest] (snmp_server.go).  A classifier
    sends it to the v1/v2c dispatcher or to the v3 one.  Both read the request with
    total readers over untrusted octets, look the names up in the device's view,
    and assemble a response under the datagram budget.  The view merges the
    resource file, sysName and sysLocation, cycling metrics, interface counters and
    LLDP rows; GET looks one name up, GETNEXT and GETBULK walk it in OID order.  A
    SET goes through admission and validation to the interface state engine, whose
    events drive the counter hold; the counters are read through the hold and
    rolled up along the interface hierarchy.  The LLDP rows are computed from the
    link graph and kept as a snapshot per generation.  Traps come from a catalog of
    templates: the scheduler draws an entry by weight, a state transition selects
    entries by role, the entry is rendered and one of three encoders writes it.

    ** Files

    - [Prelude]: octets, widths and wrap-around, the result monad [res] ([Ok],
      [Panic], [Diverge]) with its weakest precondition [wp], sorting, shared
      lemmas and tactics.
    - [GoStrings]: the parts of strings and strconv the agent uses.
    - [Ber], [Oid], [TypedValue] (snmp_encoding.go, snmp_handlers.go, snmpv3.go):
      lengths, integers, object identifiers and typed values on the wire.
    - [Request], [Response] (snmp_response.go, snmp_server.go, snmp_handlers.go,
      datagram_budget.go): the v1/v2c readers and the response builder.
    - [OidOrder], [OidPrefix], [Walk] (snmp_handlers.go, tun.go, resources.go):
      the comparators, the resource indexes, GET and the GETNEXT step.
    - [IfState] (interface_state.go): the packed state words, the mutators with
      their cascades, the compare-and-swap loops as a step relation, the fan-out.
    - [CounterHold] (if_counter_hold.go, if_counter_rollup.go): the hold ledger,
      its sequence lock as a step relation, shares and sums.
    - [Hierarchy] (interface_hierarchy.go): parents and members from names and
      ifStackTable.
    - [IfCounters] (if_counters.go): the counter columns and their walk; it
      discharges the interface [IfCounterLaws] that [Walk] is proved against.
    - [SetReq] (snmp_set.go): SET validation, application and admission.
    - [Server] (snmp_server.go, snmp_handlers.go): dispatch of v1/v2c, GETNEXT with
      the Counter64 skip budget, GETBULK.
    - [Octets]: what the encoders write is octets, and where the values a device
      serves come from.
    - [V3Msg] (snmpv3.go, snmp.go, snmpv3_crypto.go): the readers and encoders of a
      v3 message and its scoped PDU.
    - [Usm] (snmpv3_usm.go, snmpv3_crypto.go, snmp_response.go): keys, digests, the
      time window and privacy, over the class [Crypto] with the laws [CryptoLaws].
    - [V3Server] (snmp.go, snmpv3.go, snmpv3_crypto.go, snmpv3_usm.go): the v3
      dispatcher, Reports, GETBULK and SET, and the dispatch of any version.
    - [V3Session], [V3Bulk]: a manager's exchange; the v3 GETBULK compared with the
      v2c one, and the search for the prefix that fits.
    - [Topology], [Lldp], [LldpCache] (topology.go, lldp_table.go): the link graph,
      the rows computed from it, and their snapshot under interleaving.
    - [Agent]: engine, hold, SET and GET of one device together.
    - [Trap] (trap_v2c.go, trap_v1.go): the readable encoders of the two community
      versions behind the interface [TrapEncoder], and inform acknowledgements.
    - [TrapFast] (trap_encode_fast.go, trap_precompute.go): the in-place encoder
      with its back-patched headers and the octets computed at load.
    - [TrapCatalog] (trap_catalog.go): templates, the loader, overrides, weights and
      the draw, overlays, the size check; entries live in a heap, because catalogs
      share them.
    - [TrapOverlay]: the catalogs the loader can reach, as a transition system.
    - [TrapV3] (trap_v3.go, snmpv3_usm.go): the v3 originator, with an engine of its
      own per device.

    ** What the theorems show

    - Any datagram of any version is served without a panic and within its loops,
      only admitted writes change state, and every reply is made of octets
      ([V3Server], on top of the readers' [wp] lemmas).
    - The codecs: requests, object identifiers, integers and scoped PDUs read back
      as they were written; the response builder answers all, tooBig or the longest
      prefix that fits ([Ber] to [Response], [V3Msg], [V3Bulk]).
    - The walk: a GETNEXT is the successor in the merged view, a walk ends and
      misses nothing, GETBULK columns are independent, the two comparators agree
      ([OidOrder], [Walk], [Server], [V3Bulk]).
    - The v3 security model: what verifies, that opening undoes sealing, that the
      key cache cannot be observed, and that a manager with the keys gets the
      device's answer back ([Usm], [V3Session]).
    - The state engine: events are exactly what an observer sees change, the
      lock-free mutators are linearizable, a SET applies all or nothing and is read
      back ([IfState], [SetReq], [Agent]).
    - The counters: they stand still while an interface is down, never go back
      under any interleaving, and add up along a hierarchy of bounded depth
      ([CounterHold], [Hierarchy], [IfCounters], [Agent]).
    - The fabric: no port has two cables, batches are atomic, GET and walk of the
      LLDP rows agree, the two ends of a cable describe each other, and snapshots
      are never stale ([Topology], [Lldp], [LldpCache]).
    - The traps: the two v2c encoders are the same function on every entry the
      loader accepts, a v3 trap opens to that same notification, acknowledgements
      are matched to informs, the draw follows the weights, overlays replace by
      name, and nothing over the datagram budget is fired ([Trap] to [TrapV3]).

    ** Bounds and fuel

    Loops over a datagram take its length as fuel, the skip loop of a v1 GETNEXT
    takes its budget, bisections the logarithm of what they halve, walks the number
    of served names, and recursion over the hierarchy three levels; in each case a
    theorem shows the fuel suffices, so [Diverge] is never the answer.  Integers
    that can leave their width are wrapped where the code wraps them.

    ** Parameters

    The Go cryptography ([Crypto]), the floating-point dials of the counters
    ([Dials], [PacketDials]) and the metric values are parameters with named laws;
    each has a concrete instance on which the theorems are run.  Clock readings and
    random salts are arguments.

    ** Not modelled

    Sockets, goroutine pools and log lines; the metric cyclers and the dials
    themselves (floating point); the other exporters and services beside the SNMP
    agent (syslog, flows, gNMI, NETCONF, scenarios, DNS), except where a file above
    says otherwise; of the traps, the JSON decoding and directory scan of catalogs,
    the sockets and retry timers of the exporter and the timing of the scheduler;
    the web API, configuration files and namespaces, which are glue over the
    operations modelled here; flag parsing, which depends on Unicode tables. *)

From Stdlib Require Export ZArith Lia ZifyBool Bool Sorted.
From Stdlib Require String Ascii.
Export String.StringSyntax.
From stdpp Require Export base list numbers.

#[global] Open Scope Z_scope.
#[export] Set Keyed Unification.

(** ** Go values

    A Go [string] and a Go [[]byte] are both modelled as the list of their
    octets, each octet a [Z]; [bytes_ok] states that the octets are in range.
    A conversion [string(b)] or [[]byte(s)] is then the identity, as it is on
    the bytes in Go.  [int] is a 64-bit two's complement integer kept in [Z];
    where an operation can leave the 64-bit range the wrap is written out. *)
Abbreviation bytes := (list Z).

Definition is_byte (b : Z) : Prop := 0 <= b < 256.
Definition bytes_ok (l : bytes) : Prop := Forall is_byte l.

(** Decided by computation, for concrete datagrams. *)
Definition bytes_okb (l : bytes) : bool := forallb (fun b => (0 <=? b) && (b <? 256)) l.
Lemma bytes_okb_ok l : bytes_okb l = true -> bytes_ok l.
Proof.
  unfold bytes_okb. rewrite forallb_forall. intros H. apply List.Forall_forall. intros b Hb.
  apply H in Hb. unfold is_byte. lia.
Qed.

(** [len(l)] *)
Definition len {A} (l : list A) : Z := Z.of_nat (length l).

(** Width conversions: [byte(x)], [uint32(x)], [uint64(x)], [int64(x)] and
    [int(x)], [int8(x)], [int32(x)]. *)
Definition u8 (x : Z) : Z := x mod 2 ^ 8.
Definition u32 (x : Z) : Z := x mod 2 ^ 32.
Definition u64 (x : Z) : Z := x mod 2 ^ 64.
Definition s8 (x : Z) : Z := (x + 2 ^ 7) mod 2 ^ 8 - 2 ^ 7.
Definition s32 (x : Z) : Z := (x + 2 ^ 31) mod 2 ^ 32 - 2 ^ 31.
Definition s64 (x : Z) : Z := (x + 2 ^ 63) mod 2 ^ 64 - 2 ^ 63.

Definition MaxInt32 : Z := 2 ^ 31 - 1.
Definition MaxInt64 : Z := 2 ^ 63 - 1.
Definition MinInt64 : Z := - 2 ^ 63.
Definition int64_range (x : Z) : Prop := MinInt64 <= x <= MaxInt64.

(** A string literal of the source, as its octets. *)
Fixpoint str (s : String.string) : bytes :=
  match s with
  | String.EmptyString => []
  | String.String c s' => Z.of_N (Ascii.N_of_ascii c) :: str s'
  end.
Arguments str s%_string_scope.
#[global] Open Scope string_scope.
#[global] Open Scope list_scope.
#[global] Open Scope Z_scope.

(** [a == b] on strings. *)
Definition beq (a b : bytes) : bool := bool_decide (a = b).

(** ** Control: a computation returns, panics, or runs out of fuel

    The serve path has no [recover()], so an out-of-range index or slice takes
    the whole simulator down: it is a value of the model, and the safety
    theorems show it is never reached.  [Diverge] is the value of a loop whose
    fuel ran out; a theorem that the result is [Ok] therefore also states that
    the fuel is enough. *)
Inductive res (A : Type) : Type :=
| Ok (a : A)
| Panic
| Diverge.
Arguments Ok {A} a.
Arguments Panic {A}.
Arguments Diverge {A}.

Definition res_bind {A B} (m : res A) (k : A -> res B) : res B :=
  match m with
  | Ok a => k a
  | Panic => Panic
  | Diverge => Diverge
  end.

Declare Scope go_scope.
Delimit Scope go_scope with go.
Notation "'let!' x ':=' c 'in' k" := (res_bind c (fun x => k))
  (at level 10, x pattern, c at level 100, k at level 200,
   format "'[v' 'let!'  x  ':='  c  'in' '/' k ']'") : go_scope.
#[global] Open Scope go_scope.

(** [l[i]]: panics outside [0 <= i < len(l)]. *)
Definition index {A} (l : list A) (i : Z) : res A :=
  if (i <? 0) then Panic
  else match l !! Z.to_nat i with Some x => Ok x | None => Panic end.

(** [l[a:b]].  Go lets [b] reach the capacity of the slice; the model refuses
    anything past the length, so a proof that it does not panic also shows that
    no octet beyond the datagram is ever read out of a recycled buffer. *)
Definition slice {A} (l : list A) (a b : Z) : res (list A) :=
  if (a <? 0) || (b <? a) || (len l <? b) then Panic
  else Ok (take (Z.to_nat (b - a)) (drop (Z.to_nat a) l)).

(** [pos < len(data) && data[pos] == tag], evaluated left to right: the
    negation of the guard [pos >= len(data) || data[pos] != tag] the readers
    open every field with. *)
Definition tag_at (data : bytes) (pos tag : Z) : res bool :=
  if len data <=? pos then Ok false
  else let! b := index data pos in Ok (b =? tag).

(** ** A weakest precondition for [res]

    [wp m P]: [m] returns, and its value satisfies [P].  [P] is never consulted
    on [Panic] or [Diverge], so [wp] is total correctness. *)
Definition wp {A} (m : res A) (P : A -> Prop) : Prop :=
  match m with Ok a => P a | _ => False end.

(** [m] neither panics nor diverges. *)
Definition safe {A} (m : res A) : Prop := wp m (fun _ => True).

Lemma wp_bind {A B} (m : res A) (k : A -> res B) P :
  wp m (fun a => wp (k a) P) -> wp (res_bind m k) P.
Proof. by destruct m. Qed.

Lemma wp_mono {A} (m : res A) (P Q : A -> Prop) :
  wp m P -> (forall a, P a -> Q a) -> wp m Q.
Proof. destruct m; simpl; auto. Qed.

Lemma wp_safe {A} (m : res A) (P : A -> Prop) : wp m P -> safe m.
Proof. intros H. by eapply wp_mono. Qed.

Lemma wp_Ok {A} (m : res A) P : wp m P -> exists a, m = Ok a /\ P a.
Proof. destruct m; simpl; [eauto | done | done]. Qed.

Lemma wp_Ok_pair {A B} (m : res (A * B)) (P : A -> B -> Prop) :
  wp m (fun '(a, b) => P a b) -> exists a b, m = Ok (a, b) /\ P a b.
Proof. destruct m as [[a b]| |]; simpl; [eauto|done|done]. Qed.

Lemma res_bind_Ok {A B} (m : res A) (k : A -> res B) b :
  res_bind m k = Ok b -> exists a, m = Ok a /\ k a = Ok b.
Proof. destruct m; simpl; [eauto|done|done]. Qed.

Lemma safe_Ok {A} (m : res A) : safe m <-> exists a, m = Ok a.
Proof. unfold safe. destruct m; simpl; split; [eauto|done|done| |done|]; intros [? ?]; done. Qed.

Lemma wp_conj {A} (m : res A) (P Q : A -> Prop) :
  wp m P -> wp m Q -> wp m (fun a => P a /\ Q a).
Proof. destruct m; simpl; auto. Qed.

(** ** Lengths and reads *)

Lemma len_nil {A} : len (@nil A) = 0.
Proof. done. Qed.
Lemma len_cons {A} (x : A) l : len (x :: l) = 1 + len l.
Proof. unfold len. simpl. lia. Qed.
Lemma len_app {A} (l k : list A) : len (l ++ k) = len l + len k.
Proof. unfold len. rewrite length_app. lia. Qed.
Lemma len_nonneg {A} (l : list A) : 0 <= len l.
Proof. unfold len. lia. Qed.
Lemma len_take {A} (l : list A) n : len (take n l) = Z.min (Z.of_nat n) (len l).
Proof. unfold len. rewrite length_take. lia. Qed.
Lemma len_drop {A} (l : list A) n : len (drop n l) = Z.max 0 (len l - Z.of_nat n).
Proof. unfold len. rewrite length_drop. lia. Qed.
Lemma len_map {A B} (f : A -> B) l : len (map f l) = len l.
Proof. unfold len. by rewrite List.length_map. Qed.
Lemma len_rev {A} (l : list A) : len (rev l) = len l.
Proof. unfold len. by rewrite List.length_rev. Qed.
Lemma len_0_nil {A} (l : list A) : len l = 0 -> l = [].
Proof. destruct l; [done|]. rewrite len_cons. pose proof (len_nonneg l). lia. Qed.

Create HintDb go.
#[warnings="-implicit-create-rewrite-hint-db"]
#[export] Hint Rewrite @len_nil @len_cons @len_app @len_take @len_drop @len_map @len_rev : len.
#[export] Hint Resolve len_nonneg : go.

Lemma index_spec {A} (l : list A) i x :
  0 <= i -> index l i = Ok x <-> l !! Z.to_nat i = Some x.
Proof.
  intros Hi. unfold index. destruct (i <? 0) eqn:E; [lia|].
  destruct (l !! Z.to_nat i); naive_solver.
Qed.

Lemma wp_index {A} (l : list A) i (P : A -> Prop) :
  0 <= i < len l -> (forall x, l !! Z.to_nat i = Some x -> P x) -> wp (index l i) P.
Proof.
  unfold len. intros Hi HP. unfold index. destruct (i <? 0) eqn:E; [lia|].
  destruct (l !! Z.to_nat i) eqn:E'; [by apply HP|].
  apply lookup_ge_None in E'. lia.
Qed.

Lemma wp_tag_at data pos tag (P : bool -> Prop) :
  0 <= pos ->
  (forall b, (b = true -> pos < len data /\ data !! Z.to_nat pos = Some tag) ->
     P b) ->
  wp (tag_at data pos tag) P.
Proof.
  intros Hp HP. unfold tag_at. destruct (len data <=? pos) eqn:E.
  { apply HP. done. }
  apply wp_bind, wp_index; [lia|]. intros x Hx. apply HP.
  intros Hb. split; [lia|]. assert (x = tag) by lia. by subst.
Qed.

Lemma wp_slice {A} (l : list A) a b (P : list A -> Prop) :
  0 <= a <= b -> b <= len l ->
  (P (take (Z.to_nat (b - a)) (drop (Z.to_nat a) l))) -> wp (slice l a b) P.
Proof.
  intros. unfold slice.
  destruct ((a <? 0) || (b <? a) || (len l <? b)) eqn:E; [exfalso; lia|done].
Qed.

(** Reading past a prefix. *)
Lemma index_app_r {A} (l k : list A) i :
  0 <= i -> index (l ++ k) (len l + i) = index k i.
Proof.
  intros Hi. unfold index, len.
  destruct (Z.of_nat (length l) + i <? 0) eqn:E1; [lia|].
  destruct (i <? 0) eqn:E2; [lia|].
  rewrite lookup_app_r by lia.
  by replace (Z.to_nat _ - length l)%nat with (Z.to_nat i) by lia.
Qed.

Lemma index_app_here {A} (l k : list A) x : index (l ++ x :: k) (len l) = Ok x.
Proof. rewrite <- (Z.add_0_r (len l)). by rewrite index_app_r. Qed.

Lemma slice_app_here {A} (l m k : list A) :
  slice (l ++ m ++ k) (len l) (len l + len m) = Ok m.
Proof.
  unfold slice. rewrite !len_app.
  pose proof (len_nonneg l). pose proof (len_nonneg m). pose proof (len_nonneg k).
  destruct ((len l <? 0) || _ || _) eqn:E; [lia|].
  f_equal. unfold len. rewrite Nat2Z.id, drop_app_length.
  replace (Z.to_nat _) with (length m) by lia.
  by rewrite take_app_length.
Qed.

Lemma tag_at_app_here l k x tag : tag_at (l ++ x :: k) (len l) tag = Ok (x =? tag).
Proof.
  unfold tag_at. rewrite len_app, len_cons.
  pose proof (len_nonneg k). destruct (len l + (1 + len k) <=? len l) eqn:E; [lia|].
  by rewrite index_app_here.
Qed.

Lemma len_def {A} (l : list A) : len l = Z.of_nat (length l).
Proof. done. Qed.

Lemma lookup_map {A B} (f : A -> B) (l : list A) i : map f l !! i = f <$> l !! i.
Proof. revert i. induction l as [|x l IH]; intros [|i]; simpl; done || apply IH. Qed.

(** ** Tactics *)

(** Boolean comparisons of the code, as propositions. *)
Ltac zbool :=
  repeat match goal with
  | H : (_ && _) = true |- _ => apply andb_true_iff in H; destruct H
  | H : (_ || _) = false |- _ => apply orb_false_iff in H; destruct H
  | H : negb _ = true |- _ => apply negb_true_iff in H
  | H : negb _ = false |- _ => apply negb_false_iff in H
  | H : (_ <? _) = true |- _ => apply Z.ltb_lt in H
  | H : (_ <? _) = false |- _ => apply Z.ltb_ge in H
  | H : (_ <=? _) = true |- _ => apply Z.leb_le in H
  | H : (_ <=? _) = false |- _ => apply Z.leb_gt in H
  | H : (_ =? _) = true |- _ => apply Z.eqb_eq in H
  | H : (_ =? _) = false |- _ => apply Z.eqb_neq in H
  | H : bool_decide _ = true |- _ => apply bool_decide_eq_true_1 in H
  | H : bool_decide _ = false |- _ => apply bool_decide_eq_false_1 in H
  end.

(** Discharge an arithmetic side condition, lengths normalised. *)
Ltac zl := zbool; autorewrite with len in *; lia.

(** Case on the first [if] of the goal. *)
Ltac case_if :=
  match goal with
  | |- context [if ?b then _ else _] =>
      lazymatch b with
      | context [if _ then _ else _] => fail
      | _ => let E := fresh "E" in destruct b eqn:E; zbool
      end
  end.

(** One step of a [wp] proof: follow the code. *)
Ltac wp_step :=
  lazymatch goal with
  | |- wp (res_bind _ _) _ => apply wp_bind
  | |- wp (Ok _) _ => simpl
  | |- wp (if ?b then _ else _) _ => let E := fresh "E" in destruct b eqn:E; zbool; try discriminate
  | |- wp (let '(_, _) := ?p in _) _ => destruct p
  | |- wp (index _ _) _ => apply wp_index; [try zl | intros ? ?]
  | |- wp (tag_at _ _ _) _ =>
      apply wp_tag_at; [try zl | let b := fresh "b" in intros b; destruct b; intros ?Htag;
        [destruct (Htag eq_refl) as [? ?]; clear Htag | clear Htag]]
  | |- wp (slice _ _ _) _ => apply wp_slice; [try zl | try zl |]
  end.

(** ** Sorting *)

(** [sort.Slice] by a comparator: one sorted permutation.  Go's sort is not
    stable, so only what holds of every sorted permutation is relied on. *)
Fixpoint insert_by {A} (cmp : A -> A -> Z) (x : A) (l : list A) : list A :=
  match l with
  | [] => [x]
  | y :: l' => if cmp y x <? 0 then y :: insert_by cmp x l' else x :: l
  end.
Definition sort_by {A} (cmp : A -> A -> Z) (l : list A) : list A := foldr (insert_by cmp) [] l.

Lemma insert_by_perm {A} cmp (x : A) l : Permutation (x :: l) (insert_by cmp x l).
Proof.
  induction l as [|y l IH]; cbn [insert_by]; [done|]. case_if; [|done].
  etrans; [apply perm_swap|]. by constructor.
Qed.

Lemma sort_by_perm {A} (cmp : A -> A -> Z) l : Permutation l (sort_by cmp l).
Proof.
  induction l as [|x l IH]; [done|]. cbn [sort_by foldr]. etrans; [|apply insert_by_perm]. by constructor.
Qed.

(** What a sort by a strict order gives, when no two elements are equivalent. *)
Lemma sort_by_sorted {A} (cmp : A -> A -> Z) (l : list A) :
  (forall a b c, cmp a b < 0 -> cmp b c < 0 -> cmp a c < 0) ->
  NoDup l -> (forall a b, a ∈ l -> b ∈ l -> a <> b -> ~ cmp a b < 0 -> cmp b a < 0) ->
  StronglySorted (fun a b => cmp a b < 0) (sort_by cmp l).
Proof.
  intros Htrans. induction 1 as [|x l Hx Hnd IH]; intros Htot; [constructor|]. cbn [sort_by foldr]. fold (sort_by cmp l).
  assert (Hin : forall y, y ∈ sort_by cmp l -> y ∈ l) by (intros y; by rewrite <- sort_by_perm).
  specialize (IH ltac:(intros a b Ha Hb; apply Htot; by right)). revert IH Hin. generalize (sort_by cmp l). intros s Hs Hin.
  induction Hs as [|y s Hs IH Hy]; cbn [insert_by]; [repeat constructor|].
  destruct (cmp y x <? 0) eqn:E; zbool.
  - constructor; [apply IH; intros z Hz; apply Hin; by right|]. rewrite List.Forall_forall in *. intros z Hz.
    eapply Permutation_in in Hz; [|symmetry; apply insert_by_perm]. destruct Hz as [<-|Hz]; [done|by apply Hy].
  - assert (Hlt : cmp x y < 0).
    { apply Htot; [right; apply Hin; left|left|intros ->; apply Hx, Hin; left|lia]. }
    constructor; [by constructor|]. constructor; [done|]. rewrite List.Forall_forall in *. intros z Hz. eapply Htrans; [exact Hlt|by apply Hy].
Qed.

(** ** Bits *)

Lemma lor_shiftl_add a b k :
  0 <= k -> 0 <= b < 2 ^ k -> Z.lor (Z.shiftl a k) b = a * 2 ^ k + b.
Proof.
  intros Hk Hb. rewrite <- Z.shiftl_mul_pow2 by done.
  assert (Hl : Z.land (Z.shiftl a k) b = 0).
  { apply Z.bits_inj'. intros i Hi. rewrite Z.land_spec, Z.bits_0.
    destruct (Z.lt_ge_cases i k).
    - by rewrite Z.shiftl_spec_low.
    - assert (Hb' : Z.testbit b i = false); [|by rewrite Hb', andb_false_r].
      destruct (Z.eq_dec b 0) as [->|]; [apply Z.bits_0|].
      apply Z.bits_above_log2; [lia|].
      apply Z.log2_lt_pow2; [lia|].
      apply Z.lt_le_trans with (2 ^ k); [lia|apply Z.pow_le_mono_r; lia]. }
  by rewrite <- Z.lxor_lor, <- Z.add_nocarry_lxor by done.
Qed.

(** An invariant of a loop over a slice. *)
Lemma fold_left_inv {A B} (P : A -> Prop) (f : A -> B -> A) l a :
  P a -> (forall a x, x ∈ l -> P a -> P (f a x)) -> P (fold_left f l a).
Proof.
  revert a. induction l as [|x l IH]; intros a Ha Hf; [done|]. cbn [fold_left]. apply IH.
  - apply Hf; [left|done].
  - intros a' y Hy. apply Hf. by right.
Qed.
