(* ===== verification/GoStrings.v ===== *)
(** * The parts of Go's [strings] and [strconv] the agent uses

    Executable definitions over octet lists, with the facts the codecs rest on:
    splitting a joined list gives the list back, and a formatted number parses
    to itself.  These are the language's library, not code of the repository. *)

From S2P Require Import Prelude.

Definition dot : Z := 46.
Definition minus : Z := 45.
Definition plus : Z := 43.

(** [strings.HasPrefix], [strings.TrimPrefix]. *)
Definition HasPrefix (s p : bytes) : bool := beq (take (length p) s) p.
Definition TrimPrefix (s p : bytes) : bytes :=
  if HasPrefix s p then drop (length p) s else s.

(** [strings.Split(s, ".")]: never the empty list; [Split ""] is [[""]]. *)
Fixpoint Split (sep : Z) (s : bytes) : list bytes :=
  match s with
  | [] => [[]]
  | c :: s' =>
      if c =? sep then [] :: Split sep s'
      else match Split sep s' with
           | h :: t => (c :: h) :: t
           | [] => [[c]]
           end
  end.

(** [strings.Join(parts, ".")]. *)
Fixpoint Join (sep : Z) (parts : list bytes) : bytes :=
  match parts with
  | [] => []
  | [p] => p
  | p :: ps => p ++ sep :: Join sep ps
  end.

(** [strings.IndexByte], [strings.LastIndexByte]: -1 when the octet is absent. *)
Fixpoint IndexByte (s : bytes) (c : Z) : Z :=
  match s with
  | [] => -1
  | x :: s' => if x =? c then 0 else let i := IndexByte s' c in if i <? 0 then -1 else i + 1
  end.
Definition LastIndexByte (s : bytes) (c : Z) : Z :=
  let i := IndexByte (rev s) c in if i <? 0 then -1 else len s - 1 - i.

(** [strings.Cut(s, sep)] for a one-octet separator. *)
Definition Cut (s : bytes) (sep : Z) : bytes * bytes * bool :=
  let i := IndexByte s sep in
  if i <? 0 then (s, [], false) else (take (Z.to_nat i) s, drop (Z.to_nat (i + 1)) s, true).
(** [strings.CutPrefix]. *)
Definition CutPrefix (s p : bytes) : bytes * bool :=
  if HasPrefix s p then (drop (length p) s, true) else (s, false).

Definition is_digit (c : Z) : bool := (48 <=? c) && (c <=? 57).

(** [strconv]: a syntax error yields 0, a range error yields the nearest
    representable value, and both set [err]. *)
Inductive numErr := ErrSyntax | ErrRange.

Fixpoint parse_digits (max n : Z) (s : bytes) : Z * option numErr :=
  match s with
  | [] => (n, None)
  | c :: s' =>
      if is_digit c then
        let n' := n * 10 + (c - 48) in
        if max <? n' then (max, Some ErrRange) else parse_digits max n' s'
      else (0, Some ErrSyntax)
  end.

(** [strconv.ParseUint(s, 10, bits)]. *)
Definition ParseUint (s : bytes) (bits : Z) : Z * option numErr :=
  match s with
  | [] => (0, Some ErrSyntax)
  | _ => parse_digits (2 ^ bits - 1) 0 s
  end.

(** [strconv.ParseInt(s, 10, bits)]. *)
Definition ParseInt (s : bytes) (bits : Z) : Z * option numErr :=
  match s with
  | [] => (0, Some ErrSyntax)
  | c :: s' =>
      let neg := c =? minus in
      let body := if neg || (c =? plus) then s' else s in
      let cutoff := 2 ^ (bits - 1) in
      match ParseUint body bits with
      | (_, Some ErrSyntax) => (0, Some ErrSyntax)
      | (un, _) =>
          if negb neg && (cutoff <=? un) then (cutoff - 1, Some ErrRange)
          else if neg && (cutoff <? un) then (- cutoff, Some ErrRange)
          else (if neg then - un else un, None)
      end
  end.

(** [strconv.Atoi]: the value and whether [err == nil]. *)
Definition Atoi (s : bytes) : Z * bool :=
  match ParseInt s 64 with
  | (v, None) => (v, true)
  | (v, Some _) => (v, false)
  end.

(** [strconv.FormatUint(v, 10)] and [strconv.Itoa].  A 64-bit value has at most
    twenty digits. *)
Fixpoint dec_loop (fuel : nat) (v : Z) (acc : bytes) : bytes :=
  match fuel with
  | O => acc
  | S fuel' =>
      let acc' := (48 + v mod 10) :: acc in
      if v / 10 =? 0 then acc' else dec_loop fuel' (v / 10) acc'
  end.
Definition FormatUint (v : Z) : bytes := dec_loop 20 v [].
Definition Itoa (v : Z) : bytes :=
  if v <? 0 then minus :: FormatUint (- v) else FormatUint v.

(** ** Splitting and joining *)

Lemma Split_nonempty sep s : Split sep s <> [].
Proof. destruct s as [|c s]; simpl; [done|]. destruct (c =? sep); [done|]. by destruct (Split sep s). Qed.

Lemma Split_no_sep sep p : ~ In sep p -> Split sep p = [p].
Proof.
  induction p as [|c p IH]; simpl; intros H; [done|].
  destruct (c =? sep) eqn:E; [apply Z.eqb_eq in E; naive_solver|].
  rewrite IH; naive_solver.
Qed.

Lemma Split_app sep p s : ~ In sep p -> Split sep (p ++ sep :: s) = p :: Split sep s.
Proof.
  induction p as [|c p IH]; simpl; intros H.
  { by rewrite Z.eqb_refl. }
  destruct (c =? sep) eqn:E; [apply Z.eqb_eq in E; naive_solver|].
  rewrite IH; naive_solver.
Qed.

Lemma Split_Join sep parts :
  parts <> [] -> Forall (fun p => ~ In sep p) parts -> Split sep (Join sep parts) = parts.
Proof.
  induction parts as [|p ps IH]; [done|]. intros _ Hall.
  inversion Hall as [|? ? Hp Hps]; subst.
  destruct ps as [|q ps].
  { simpl. by apply Split_no_sep. }
  change (Join sep (p :: q :: ps)) with (p ++ sep :: Join sep (q :: ps)).
  rewrite Split_app by done. by rewrite IH.
Qed.

Lemma TrimPrefix_here p s : TrimPrefix (p ++ s) p = s.
Proof.
  unfold TrimPrefix, HasPrefix, beq. rewrite take_app_length, bool_decide_true by done.
  apply drop_app_length.
Qed.

Lemma HasPrefix_true s p : HasPrefix s p = true <-> exists r, s = p ++ r.
Proof.
  unfold HasPrefix, beq. rewrite bool_decide_eq_true. split.
  - intros H. exists (drop (length p) s). rewrite <- H at 1. by rewrite take_drop.
  - intros [r ->]. apply take_app_length.
Qed.

(** ** Numbers *)

Lemma is_digit_range c : is_digit c = true <-> 48 <= c <= 57.
Proof. unfold is_digit. lia. Qed.

Lemma dec_loop_spec fuel v acc :
  0 <= v < 10 ^ Z.of_nat fuel -> (0 < fuel)%nat ->
  exists ds, dec_loop fuel v acc = ds ++ acc /\ ds <> [] /\
    Forall (fun c => is_digit c = true) ds /\
    forall max n rest, 0 <= n -> n * 10 ^ len ds + v <= max ->
      parse_digits max n (ds ++ rest) = parse_digits max (n * 10 ^ len ds + v) rest.
Proof.
  revert v acc. induction fuel as [|fuel IH]; intros v acc Hv Hf; [lia|].
  cbn [dec_loop].
  assert (Hd : is_digit (48 + v mod 10) = true).
  { apply is_digit_range. pose proof (Z.mod_pos_bound v 10). lia. }
  pose proof (Z.div_mod v 10) as Hdm. pose proof (Z.mod_pos_bound v 10) as Hm.
  destruct (v / 10 =? 0) eqn:E.
  - exists [48 + v mod 10]. split_and!; [done|done|by constructor|].
    intros max n rest Hn Hmax. rewrite len_cons, len_nil in *. cbn [app parse_digits].
    rewrite Hd. replace (48 + v mod 10 - 48) with (v mod 10) by lia.
    replace (n * 10 ^ (1 + 0) + v) with (n * 10 + v mod 10) in * by lia.
    destruct (max <? _) eqn:E'; [lia|done].
  - assert (Hq : 0 < v / 10) by (pose proof (Z.div_pos v 10); lia).
    rewrite Nat2Z.inj_succ, Z.pow_succ_r in Hv by lia.
    assert (v / 10 < 10 ^ Z.of_nat fuel) by (apply Z.div_lt_upper_bound; lia).
    assert (0 < fuel)%nat by (destruct fuel; [simpl in *; lia|lia]).
    destruct (IH (v / 10) ((48 + v mod 10) :: acc)) as (ds & -> & Hne & Hds & Hp); [lia|done|].
    exists (ds ++ [48 + v mod 10]). split_and!.
    + by rewrite <- app_assoc.
    + by destruct ds.
    + apply Forall_app; split; [done|by constructor].
    + intros max n rest Hn Hmax. rewrite len_app, len_cons, len_nil in *.
      pose proof (len_nonneg ds). rewrite Z.pow_add_r in * by lia.
      assert (0 <= n * 10 ^ len ds) by (apply Z.mul_nonneg_nonneg; [lia|apply Z.pow_nonneg; lia]).
      rewrite <- app_assoc, Hp by lia. cbn [app parse_digits]. rewrite Hd.
      replace ((n * 10 ^ len ds + v / 10) * 10 + (48 + v mod 10 - 48))
        with (n * (10 ^ len ds * 10 ^ (1 + 0)) + v) by lia.
      destruct (max <? _) eqn:E'; [lia|done].
Qed.

Lemma FormatUint_spec v :
  0 <= v < 2 ^ 64 ->
  FormatUint v <> [] /\ Forall (fun c => is_digit c = true) (FormatUint v) /\
  forall max, v <= max -> parse_digits max 0 (FormatUint v) = (v, None).
Proof.
  intros Hv. unfold FormatUint.
  destruct (dec_loop_spec 20 v []) as (ds & Heq & Hne & Hds & Hp); [lia|lia|].
  rewrite app_nil_r in Heq. rewrite Heq. split_and!; [done|done|].
  intros max Hmax. specialize (Hp max 0 []). rewrite app_nil_r in Hp.
  rewrite Hp by lia. simpl. f_equal; lia.
Qed.

(** A formatted number parses to itself, at any width that holds it. *)
Lemma ParseUint_FormatUint v bits :
  0 <= v < 2 ^ 64 -> v < 2 ^ bits -> ParseUint (FormatUint v) bits = (v, None).
Proof.
  intros Hv Hb. destruct (FormatUint_spec v Hv) as (Hne & _ & Hp).
  unfold ParseUint. destruct (FormatUint v) eqn:E; [done|]. apply Hp. lia.
Qed.

Lemma Atoi_FormatUint v : 0 <= v <= MaxInt64 -> Atoi (FormatUint v) = (v, true).
Proof.
  unfold MaxInt64. intros Hv. destruct (FormatUint_spec v) as (Hne & Hd & Hp); [lia|].
  unfold Atoi, ParseInt. destruct (FormatUint v) as [|c s] eqn:E; [done|].
  inversion Hd as [|? ? Hc _]; subst. apply is_digit_range in Hc.
  replace (c =? minus) with false by (unfold minus; lia).
  replace (c =? plus) with false by (unfold plus; lia). cbn [orb andb negb].
  unfold ParseUint. rewrite Hp by lia.
  destruct (2 ^ (64 - 1) <=? v) eqn:E'; [lia|done].
Qed.

Lemma Atoi_range s : int64_range (fst (Atoi s)).
Proof.
  unfold Atoi, ParseInt, int64_range, MinInt64, MaxInt64.
  destruct s as [|c s]; [simpl; lia|].
  destruct (ParseUint _ 64) as [un e] eqn:E.
  assert (Hun : 0 <= un <= 2 ^ 64 - 1).
  { revert E. generalize (if (c =? minus) || (c =? plus) then s else c :: s).
    intros [|c' s']; [naive_solver lia|]. unfold ParseUint.
    assert (Hgen : forall l n, 0 <= n <= 2 ^ 64 - 1 ->
      0 <= fst (parse_digits (2 ^ 64 - 1) n l) <= 2 ^ 64 - 1).
    { induction l as [|x l IH]; intros n Hn; cbn [parse_digits fst]; [done|].
      unfold is_digit. repeat case_if; cbn [fst]; try lia. apply IH. lia. }
    intros Ed. specialize (Hgen (c' :: s') 0). rewrite Ed in Hgen. simpl in Hgen. lia. }
  destruct e as [[|]|]; repeat case_if; simpl; lia.
Qed.

Lemma FormatUint_no_dot v : 0 <= v < 2 ^ 64 -> ~ In dot (FormatUint v).
Proof.
  intros Hv Hin. destruct (FormatUint_spec v Hv) as (_ & Hd & _).
  rewrite List.Forall_forall in Hd. apply Hd in Hin. by vm_compute in Hin.
Qed.

Lemma FormatUint_nonempty v : 0 <= v < 2 ^ 64 -> FormatUint v <> [].
Proof. intros Hv. by destruct (FormatUint_spec v Hv). Qed.

Lemma IndexByte_none s c : ~ In c s -> IndexByte s c = -1.
Proof.
  induction s as [|x s IH]; intros H; cbn [IndexByte]; [done|]. case_if; zbool; [subst; exfalso; apply H; by left|].
  rewrite IH; [done|]. intros Hin. apply H. by right.
Qed.
Lemma IndexByte_app p s c : ~ In c p -> IndexByte (p ++ c :: s) c = len p.
Proof.
  induction p as [|x p IH]; intros H; cbn [IndexByte app]; [by rewrite Z.eqb_refl|]. case_if; zbool; [subst; exfalso; apply H; by left|].
  rewrite IH by (intros Hin; apply H; by right). rewrite len_cons. pose proof (len_nonneg p). case_if; lia.
Qed.

Lemma parse_digits_dot max s : forall n, In dot s ->
  snd (parse_digits max n s) = Some ErrSyntax \/ parse_digits max n s = (max, Some ErrRange).
Proof.
  induction s as [|c s IH]; intros n H; [done|]. cbn [parse_digits]. case_if; [|by left]. case_if; [by right|]. apply IH.
  destruct H as [->|H]; [done|exact H].
Qed.
(** A dot does not occur in a number. *)
Lemma Atoi_dot s : In dot s -> snd (Atoi s) = false.
Proof.
  intros H. unfold Atoi, ParseInt. destruct s as [|c s]; [done|].
  set (body := if (c =? minus) || (c =? plus) then s else c :: s).
  assert (Hb : In dot body).
  { unfold body. case_if; [|done]. destruct H as [->|H]; [done|exact H]. }
  assert (Hp : snd (ParseUint body 64) = Some ErrSyntax \/ ParseUint body 64 = (2 ^ 64 - 1, Some ErrRange)).
  { destruct body; [done|]. by apply parse_digits_dot. }
  destruct Hp as [Hp | ->].
  - destruct (ParseUint body 64) as [un e]. cbn in Hp. by subst e.
  - by destruct (c =? minus).
Qed.
