(* ===== verification/Ber.v ===== *)
(** * BER lengths, integers and strings (snmp_encoding.go, snmp_handlers.go,
    snmpv3.go)

    The tag-length-value layer every message is built from and read with.
    Readers take the datagram and a cursor and return the new cursor, exactly
    as in the source; they run in [res], so an out-of-range read is visible. *)

From S2P Require Import Prelude.

(** ** Constants (constants.go) *)
Definition ASN1_SEQUENCE : Z := 0x30.
Definition ASN1_INTEGER : Z := 0x02.
Definition ASN1_OCTET_STRING : Z := 0x04.
Definition ASN1_NULL : Z := 0x05.
Definition ASN1_OBJECT_ID : Z := 0x06.
Definition ASN1_OID : Z := 0x06.
Definition ASN1_GET_REQUEST : Z := 0xA0.
Definition ASN1_GET_NEXT : Z := 0xA1.
Definition ASN1_SET_REQUEST : Z := 0xA3.
Definition ASN1_GET_BULK : Z := 0xA5.
Definition SNMP_GET_RESPONSE : Z := 0xa2.
Definition ASN1_IPADDRESS : Z := 0x40.
Definition ASN1_COUNTER32 : Z := 0x41.
Definition ASN1_GAUGE32 : Z := 0x42.
Definition ASN1_TIMETICKS : Z := 0x43.
Definition ASN1_COUNTER64 : Z := 0x46.

(** ** Lengths *)

(** The accumulation loop of [parseLength], [lengthBytes] iterations. *)
Fixpoint length_loop (n : nat) (data : bytes) (pos acc : Z) : res (Z * Z) :=
  match n with
  | O => Ok (acc, pos)
  | S n' =>
      let! b := index data pos in
      length_loop n' data (pos + 1) (u32 (Z.lor (Z.shiftl acc 8) b))
  end.

Definition parseLength (data : bytes) (pos : Z) : res (Z * Z) :=
  if len data <=? pos then Ok (-1, pos) else
  let! first := index data pos in
  let pos := pos + 1 in
  if first <? 0x80 then Ok (first, pos) else
  let lengthBytes := Z.land first 0x7F in
  if (lengthBytes =? 0) || (4 <? lengthBytes) || (len data <? pos + lengthBytes)
  then Ok (-1, pos) else
  let! (acc, pos) := length_loop (Z.to_nat lengthBytes) data pos 0 in
  if MaxInt32 <? acc then Ok (-1, pos) else Ok (acc, pos).

(** The big-endian loop [for temp > 0 { bytes = append([]byte{byte(temp &
    0xff)}, bytes...); temp >>= 8 }] of [encodeLength] and [encodeInteger].
    Eight iterations are enough for a 64-bit [int]. *)
Fixpoint be_loop (fuel : nat) (temp : Z) (acc : bytes) : bytes :=
  match fuel with
  | O => acc
  | S fuel' =>
      if 0 <? temp then be_loop fuel' (Z.shiftr temp 8) (u8 (Z.land temp 0xff) :: acc)
      else acc
  end.

Definition encodeLength (length : Z) : bytes :=
  if length <? 0x80 then [u8 length] else
  let bs := be_loop 8 length [] in
  u8 (Z.lor 0x80 (len bs)) :: bs.

(** A tag, the length of the contents, the contents: the shape every encoder
    below ends with. *)
Definition tlv (tag : Z) (contents : bytes) : bytes :=
  tag :: encodeLength (len contents) ++ contents.

(** ** Integers and strings *)

(** The content octets [encodeInteger] computes. *)
Definition integerBody (value : Z) : bytes :=
  if value =? 0 then [0x00]
  else if 0 <? value then
    let bs := be_loop 8 value [] in
    match bs with
    | b0 :: _ => if negb (Z.land b0 0x80 =? 0) then 0x00 :: bs else bs
    | [] => bs
    end
  else
    let temp := u64 value in
    let bs :=
      if -128 <=? value then [u8 temp]
      else if -32768 <=? value then [u8 (Z.shiftr temp 8); u8 temp]
      else if -8388608 <=? value then
        [u8 (Z.shiftr temp 16); u8 (Z.shiftr temp 8); u8 temp]
      else [u8 (Z.shiftr temp 24); u8 (Z.shiftr temp 16); u8 (Z.shiftr temp 8); u8 temp] in
    match bs with
    | b0 :: _ => if Z.land b0 0x80 =? 0 then 0xFF :: bs else bs
    | [] => bs
    end.

Definition encodeInteger (value : Z) : bytes :=
  [ASN1_INTEGER] ++ encodeLength (len (integerBody value)) ++ integerBody value.

Definition encodeOctetString (value : bytes) : bytes :=
  [ASN1_OCTET_STRING] ++ encodeLength (len value) ++ value.

Definition encodeSequence (contents : bytes) : bytes :=
  [ASN1_SEQUENCE] ++ encodeLength (len contents) ++ contents.

Definition encodeNull : bytes := [ASN1_NULL; 0x00].

(** [for start < last && b[start] == 0 { start++ }], then [b[start:]]. *)
Fixpoint strip_zeros (keep : nat) (b : bytes) : bytes :=
  match keep, b with
  | S keep', x :: b' => if x =? 0 then strip_zeros keep' b' else b
  | _, _ => b
  end.

Definition encodeUnsigned32 (tag value : Z) : bytes :=
  let b := [u8 (Z.shiftr value 24); u8 (Z.shiftr value 16); u8 (Z.shiftr value 8); u8 value] in
  let body := strip_zeros 3 b in
  [tag] ++ encodeLength (len body) ++ body.

(** [for i := 7; i >= 0; i-- { b[i] = byte(value & 0xff); value >>= 8 }]. *)
Fixpoint fill_be (n : nat) (value : Z) (acc : bytes) : bytes :=
  match n with
  | O => acc
  | S n' => fill_be n' (Z.shiftr value 8) (u8 (Z.land value 0xff) :: acc)
  end.

Definition encodeCounter64 (value : Z) : bytes :=
  let body := strip_zeros 7 (fill_be 8 value []) in
  [ASN1_COUNTER64] ++ encodeLength (len body) ++ body.

(** The padding loop of [parseBERInt]. *)
Fixpoint skip_pad (fuel : nat) (data : bytes) (start end_ : Z) : res Z :=
  match fuel with
  | O => Diverge
  | S fuel' =>
      if start <? end_ - 1 then
        let! b := index data start in
        if b =? 0x00 then
          let! b' := index data (start + 1) in
          if Z.land b' 0x80 =? 0 then skip_pad fuel' data (start + 1) end_ else Ok start
        else Ok start
      else Ok start
  end.

(** [for i := start + 1; i < end; i++ { v = v<<8 | int64(data[i]) }]. *)
Fixpoint int_loop (n : nat) (data : bytes) (i v : Z) : res Z :=
  match n with
  | O => Ok v
  | S n' =>
      let! b := index data i in
      int_loop n' data (i + 1) (s64 (Z.lor (Z.shiftl v 8) b))
  end.

Definition parseBERInt (data : bytes) (pos length : Z) : res (Z * bool) :=
  if (length <=? 0) || (len data <? pos + length) then Ok (0, false) else
  let end_ := pos + length in
  let! start := skip_pad (Z.to_nat length) data pos end_ in
  if 8 <? end_ - start then Ok (0, false) else
  let! b := index data start in
  let! v := int_loop (Z.to_nat (end_ - (start + 1))) data (start + 1) (s8 b) in
  Ok (v, true).

(** [parseInteger] and [parseOctetString] of snmpv3.go; [None] is the error
    return, with the cursor the source leaves behind. *)
Fixpoint uint_loop (n : nat) (data : bytes) (pos value : Z) : res (Z * Z) :=
  match n with
  | O => Ok (value, pos)
  | S n' =>
      let! b := index data pos in
      uint_loop n' data (pos + 1) (s64 (Z.lor (Z.shiftl value 8) b))
  end.

Definition parseInteger (data : bytes) (pos : Z) : res (option Z * Z) :=
  let! t := tag_at data pos ASN1_INTEGER in
  if negb t then Ok (None, pos) else
  let pos := pos + 1 in
  let! (length, newPos) := parseLength data pos in
  if (length =? -1) || (len data <? newPos + length) then Ok (None, pos) else
  let! (value, pos) := uint_loop (Z.to_nat length) data newPos 0 in
  Ok (Some value, pos).

Definition parseOctetString (data : bytes) (pos : Z) : res (option bytes * Z) :=
  let! t := tag_at data pos ASN1_OCTET_STRING in
  if negb t then Ok (None, pos) else
  let pos := pos + 1 in
  let! (length, newPos) := parseLength data pos in
  if (length =? -1) || (len data <? newPos + length) then Ok (None, pos) else
  let! value := slice data newPos (newPos + length) in
  Ok (Some value, newPos + length).

(** Octets of a literal list are in range. *)
Ltac solve_bytes :=
  unfold bytes_ok;
  repeat first [apply List.Forall_nil | apply List.Forall_cons; [first [by auto with go | unfold is_byte; lia]|]];
  try done.

(** ** Bit arithmetic *)

Lemma u8_land x : u8 (Z.land x 0xff) = x mod 256.
Proof.
  unfold u8. change 0xff with (Z.ones 8). rewrite Z.land_ones by lia.
  by rewrite Z.mod_mod by lia.
Qed.

Lemma land_0x7f x : Z.land x 0x7F = x mod 128.
Proof. change 0x7F with (Z.ones 7). by rewrite Z.land_ones by lia. Qed.

(** The sign bit of an octet. *)
Lemma land_0x80 b : is_byte b -> (Z.land b 0x80 =? 0) = (b <? 128).
Proof.
  unfold is_byte. intros Hb.
  assert (Z.land b 0x80 = if b <? 128 then 0 else 128) as ->.
  { assert (Hall : forallb (fun n => Z.land (Z.of_nat n) 0x80 =?
      (if Z.of_nat n <? 128 then 0 else 128)) (seq 0 256) = true) by (vm_compute; reflexivity).
    rewrite forallb_forall in Hall. specialize (Hall (Z.to_nat b)).
    rewrite Z2Nat.id in Hall by lia. apply Z.eqb_eq, Hall. apply in_seq. lia. }
  by destruct (b <? 128).
Qed.

(** ** Big-endian values *)

Definition be_val (acc : Z) (l : bytes) : Z := fold_left (fun a b => a * 256 + b) l acc.

Lemma be_val_nil acc : be_val acc [] = acc.
Proof. done. Qed.
Lemma be_val_cons acc b l : be_val acc (b :: l) = be_val (acc * 256 + b) l.
Proof. done. Qed.
Lemma be_val_app acc l k : be_val acc (l ++ k) = be_val (be_val acc l) k.
Proof. apply fold_left_app. Qed.

Lemma be_val_split acc l : be_val acc l = acc * 256 ^ len l + be_val 0 l.
Proof.
  revert acc. induction l as [|b l IH]; intros acc.
  { rewrite len_nil, !be_val_nil. lia. }
  rewrite !be_val_cons, (IH (acc * 256 + b)), (IH (0 * 256 + b)), len_cons.
  pose proof (len_nonneg l). rewrite Z.pow_add_r by lia. lia.
Qed.

Lemma be_val_bound l : bytes_ok l -> 0 <= be_val 0 l < 256 ^ len l.
Proof.
  induction l as [|b l IH] using rev_ind; intros Hok; [rewrite len_nil, be_val_nil; lia|].
  apply Forall_app in Hok as [Hl Hb]. inversion Hb as [|? ? Hb' _]; subst.
  unfold is_byte in Hb'. specialize (IH Hl).
  rewrite be_val_app, be_val_cons, be_val_nil, len_app, len_cons, len_nil.
  pose proof (len_nonneg l). rewrite Z.pow_add_r by lia. lia.
Qed.

Lemma be_loop_spec fuel temp acc :
  0 <= temp < 256 ^ Z.of_nat fuel ->
  exists ds, be_loop fuel temp acc = ds ++ acc /\ bytes_ok ds /\ be_val 0 ds = temp /\
    len ds <= Z.of_nat fuel /\ (temp = 0 -> ds = []) /\
    (0 < temp -> 0 < hd 0 ds /\ 256 ^ (len ds - 1) <= temp).
Proof.
  revert temp acc. induction fuel as [|fuel IH]; intros temp acc Ht.
  { exists []. rewrite len_nil, be_val_nil. simpl in Ht. split_and!; [done|constructor|try done; lia..]. }
  cbn [be_loop]. destruct (0 <? temp) eqn:E; zbool; cycle 1.
  { exists []. rewrite len_nil, be_val_nil. split_and!; [done|constructor|try done; lia..]. }
  rewrite u8_land, Z.shiftr_div_pow2 by lia. change (2 ^ 8) with 256.
  rewrite Nat2Z.inj_succ, Z.pow_succ_r in Ht by lia.
  pose proof (Z.div_mod temp 256) as Hdm. pose proof (Z.mod_pos_bound temp 256) as Hm.
  assert (Hq : 0 <= temp / 256) by (apply Z.div_pos; lia).
  assert (temp / 256 < 256 ^ Z.of_nat fuel) by (apply Z.div_lt_upper_bound; lia).
  destruct (IH (temp / 256) (temp mod 256 :: acc)) as (ds & -> & Hok & Hv & Hl & Hz & Hh); [lia|].
  exists (ds ++ [temp mod 256]). rewrite len_app, len_cons, len_nil. split_and!.
  - by rewrite <- app_assoc.
  - apply Forall_app; split; [done|]. constructor; [unfold is_byte; lia|constructor].
  - rewrite be_val_app, be_val_cons, be_val_nil, Hv. lia.
  - lia.
  - lia.
  - intros _. destruct (Z.eq_dec (temp / 256) 0) as [E0|].
    + rewrite (Hz E0), len_nil. simpl. lia.
    + destruct (Hh ltac:(lia)) as [? Hpow]. destruct ds as [|d ds]; [simpl in *; lia|].
      pose proof (len_nonneg ds). rewrite len_cons in *. split; [done|].
      replace (1 + len ds + (1 + 0) - 1) with (1 + (1 + len ds - 1)) by lia.
      rewrite Z.pow_add_r by lia. lia.
Qed.

(** ** Lengths: bounds and round trip *)

Lemma u32_small x : 0 <= x < 2 ^ 32 -> u32 x = x.
Proof. apply Z.mod_small. Qed.
Lemma u8_small x : is_byte x -> u8 x = x.
Proof. apply Z.mod_small. Qed.
Lemma s64_small x : int64_range x -> s64 x = x.
Proof. unfold int64_range, MinInt64, MaxInt64, s64. intros. rewrite Z.mod_small; lia. Qed.

Lemma length_loop_wp n data pos acc (P : Z * Z -> Prop) :
  0 <= pos -> pos + Z.of_nat n <= len data -> 0 <= acc ->
  (forall acc', 0 <= acc' -> P (acc', pos + Z.of_nat n)) -> wp (length_loop n data pos acc) P.
Proof.
  revert pos acc. induction n as [|n IH]; intros pos acc Hp Hl Ha HP; cbn [length_loop].
  { simpl. rewrite <- (Z.add_0_r pos). by apply HP. }
  wp_step. wp_step. apply IH; [lia|lia|unfold u32; apply Z.mod_pos_bound; lia|].
  intros acc' Ha'. replace (pos + 1 + Z.of_nat n) with (pos + Z.of_nat (S n)) by lia. by apply HP.
Qed.

(** Every read of a length: it never panics, the value is [-1] or a length a
    32-bit [int] holds, and the cursor stays inside the datagram. *)
Lemma parseLength_wp data pos (P : Z * Z -> Prop) :
  bytes_ok data -> 0 <= pos ->
  (forall n p, -1 <= n <= MaxInt32 -> pos <= p <= Z.max pos (len data) ->
     (0 <= n -> pos < p <= len data) -> P (n, p)) ->
  wp (parseLength data pos) P.
Proof.
  intros Hok Hp HP. unfold parseLength, MaxInt32 in *.
  wp_step; [simpl; apply HP; lia|]. wp_step. wp_step.
  assert (is_byte x) by (eapply Forall_lookup_1; eauto). unfold is_byte in *.
  wp_step; [simpl; apply HP; lia|]. wp_step; [simpl; apply HP; lia|].
  rewrite land_0x7f in *. pose proof (Z.mod_pos_bound x 128).
  wp_step. apply length_loop_wp; [lia|lia|lia|]. intros acc Hacc.
  wp_step; simpl; apply HP; lia.
Qed.

Lemma length_loop_app l : forall pre rest acc,
  bytes_ok l -> 0 <= acc -> be_val acc l < 2 ^ 32 ->
  length_loop (length l) (pre ++ l ++ rest) (len pre) acc = Ok (be_val acc l, len pre + len l).
Proof.
  induction l as [|b l IH]; intros pre rest acc Hok Ha Hv; cbn [length_loop length].
  { rewrite len_nil. by rewrite Z.add_0_r. }
  inversion Hok as [|? ? Hb Hl]; subst. unfold is_byte in Hb.
  cbn [app]. rewrite index_app_here. cbn [res_bind].
  rewrite lor_shiftl_add by lia. change (2 ^ 8) with 256.
  change (be_val acc (b :: l)) with (be_val (acc * 256 + b) l) in *.
  pose proof (be_val_bound l Hl). pose proof Hv as Hv'. rewrite be_val_split in Hv'.
  pose proof (len_nonneg l). assert (1 <= 256 ^ len l) by (apply Z.pow_le_mono_r with (b := 0); lia).
  rewrite u32_small by nia.
  rewrite (cons_middle b pre (l ++ rest)), app_assoc.
  replace (len pre + 1) with (len (pre ++ [b])) by (autorewrite with len; lia).
  rewrite IH by (done || lia).
  rewrite len_cons, len_app, len_cons, len_nil. do 2 f_equal. lia.
Qed.

Lemma encodeLength_short n : 0 <= n < 128 -> encodeLength n = [n].
Proof.
  intros. unfold encodeLength. destruct (n <? 0x80) eqn:E; [|lia].
  by rewrite u8_small by (unfold is_byte; lia).
Qed.

(** The long form of a length a 32-bit [int] holds: one to four octets. *)
Lemma encodeLength_long n :
  128 <= n < 2 ^ 32 ->
  exists ds, encodeLength n = (128 + len ds) :: ds /\ bytes_ok ds /\ be_val 0 ds = n /\
    1 <= len ds <= 4 /\ 256 ^ (len ds - 1) <= n.
Proof.
  intros Hn. unfold encodeLength. destruct (n <? 0x80) eqn:E; [lia|].
  destruct (be_loop_spec 8 n []) as (ds & Heq & Hok & Hv & Hl & _ & Hh); [lia|].
  rewrite app_nil_r in Heq. rewrite Heq. destruct (Hh ltac:(lia)) as [Hhd Hpow].
  assert (1 <= len ds). { destruct ds; [cbn [hd] in Hhd; lia|]. rewrite len_cons. pose proof (len_nonneg ds). lia. }
  assert (len ds <= 4).
  { destruct (Z.le_gt_cases (len ds) 4); [done|].
    assert (256 ^ 4 <= 256 ^ (len ds - 1)) by (apply Z.pow_le_mono_r; lia). lia. }
  exists ds. split; [|split_and!; (done || lia)].
  f_equal. assert (Hlor : forallb (fun k => u8 (Z.lor 128 (Z.of_nat k)) =? 128 + Z.of_nat k) (seq 0 5) = true)
    by (vm_compute; reflexivity).
  rewrite forallb_forall in Hlor. specialize (Hlor (Z.to_nat (len ds))).
  rewrite Z2Nat.id in Hlor by lia. apply Z.eqb_eq, Hlor, in_seq. lia.
Qed.

Lemma encodeLength_bytes_ok n : 0 <= n < 2 ^ 32 -> bytes_ok (encodeLength n).
Proof.
  intros Hn. destruct (Z.lt_ge_cases n 128).
  - rewrite encodeLength_short by lia. repeat constructor; lia.
  - destruct (encodeLength_long n) as (ds & -> & Hok & _ & Hl & _); [lia|].
    constructor; [unfold is_byte; lia|done].
Qed.

(** A length written by [encodeLength] is read back by [parseLength], wherever
    it sits and whatever follows it. *)
Lemma parseLength_encodeLength pre n rest :
  0 <= n <= MaxInt32 ->
  parseLength (pre ++ encodeLength n ++ rest) (len pre) = Ok (n, len pre + len (encodeLength n)).
Proof.
  unfold MaxInt32. intros Hn. pose proof (len_nonneg pre). pose proof (len_nonneg rest).
  destruct (Z.lt_ge_cases n 128).
  - rewrite encodeLength_short by lia. unfold parseLength. autorewrite with len.
    case_if; [lia|]. cbn [app]. rewrite index_app_here. cbn [res_bind]. case_if; [|lia].
    do 2 f_equal; lia.
  - destruct (encodeLength_long n) as (ds & -> & Hok & Hv & Hl & Hpow); [lia|].
    unfold parseLength. autorewrite with len. case_if; [lia|].
    cbn [app]. rewrite index_app_here. cbn [res_bind]. case_if; [lia|].
    rewrite land_0x7f. replace ((128 + len ds) mod 128) with (len ds)
      by (rewrite <- Z.add_mod_idemp_l, Z.mod_same, Z.add_0_l, Z.mod_small by lia; lia).
    case_if; [lia|].
    replace (Z.to_nat (len ds)) with (length ds) by (rewrite len_def; lia).
    rewrite (cons_middle _ pre (ds ++ rest)), app_assoc.
    replace (len pre + 1) with (len (pre ++ [128 + len ds])) by (autorewrite with len; lia).
    rewrite length_loop_app by (done || lia). cbn [res_bind]. rewrite Hv.
    unfold MaxInt32. case_if; [lia|]. autorewrite with len. do 2 f_equal; lia.
Qed.

(** ** Integers: safety and round trip *)

Lemma skip_pad_wp fuel data start end_ (P : Z -> Prop) :
  0 <= start < end_ -> end_ <= len data -> end_ - start <= Z.of_nat fuel ->
  (forall s, start <= s < end_ -> P s) -> wp (skip_pad fuel data start end_) P.
Proof.
  revert start. induction fuel as [|fuel IH]; intros start Hs He Hf HP; [lia|].
  cbn [skip_pad]. repeat wp_step; try (simpl; apply HP; lia).
  apply IH; [lia..|]. intros s Hs'. apply HP. lia.
Qed.

Lemma int_loop_wp n data i v (P : Z -> Prop) :
  0 <= i -> i + Z.of_nat n <= len data -> int64_range v ->
  (forall v', int64_range v' -> P v') -> wp (int_loop n data i v) P.
Proof.
  revert i v. induction n as [|n IH]; intros i v Hi Hl Hv HP; cbn [int_loop]; [by apply HP|].
  wp_step. wp_step. apply IH; [lia|lia| |done].
  unfold s64, int64_range, MinInt64, MaxInt64.
  pose proof (Z.mod_pos_bound (Z.lor (Z.shiftl v 8) x + 2 ^ 63) (2 ^ 64)). lia.
Qed.

(** Reading an INTEGER never panics, whatever length was declared for it, and
    yields a 64-bit value. *)
Lemma parseBERInt_wp data pos length (P : Z * bool -> Prop) :
  0 <= pos -> (forall v ok, int64_range v -> P (v, ok)) -> wp (parseBERInt data pos length) P.
Proof.
  intros Hp HP. unfold parseBERInt.
  assert (H0 : int64_range 0) by (unfold int64_range, MinInt64, MaxInt64; lia).
  wp_step; [by apply HP|]. wp_step. apply skip_pad_wp; [lia..|]. intros s Hs.
  wp_step; [by apply HP|]. wp_step. wp_step. wp_step. apply int_loop_wp; [lia|lia| |].
  { unfold s8, int64_range, MinInt64, MaxInt64. pose proof (Z.mod_pos_bound (x + 2 ^ 7) (2 ^ 8)). lia. }
  intros v Hv. by apply HP.
Qed.

Lemma uint_loop_wp n data pos v (P : Z * Z -> Prop) :
  0 <= pos -> pos + Z.of_nat n <= len data ->
  (forall v', P (v', pos + Z.of_nat n)) -> wp (uint_loop n data pos v) P.
Proof.
  revert pos v. induction n as [|n IH]; intros pos v Hi Hl HP; cbn [uint_loop].
  { simpl. rewrite <- (Z.add_0_r pos). apply HP. }
  wp_step. wp_step. apply IH; [lia|lia|]. intros v'.
  replace (pos + 1 + Z.of_nat n) with (pos + Z.of_nat (S n)) by lia. apply HP.
Qed.

(** Extend the step tactic with the field readers. *)
Ltac wp_ber :=
  first
  [ wp_step
  | lazymatch goal with
    | |- wp (parseLength _ _) _ =>
        apply parseLength_wp; [done | try zl | let n := fresh "n" in let p := fresh "p" in
          let H := fresh "Hn" in intros n p ? ? H]
    | |- wp (parseBERInt _ _ _) _ => apply parseBERInt_wp; [try zl | intros ? ? ?]
    end ].

Lemma parseInteger_wp data pos (P : option Z * Z -> Prop) :
  bytes_ok data -> 0 <= pos ->
  (forall p, pos <= p -> P (None, p)) ->
  (forall v p, pos < p <= len data -> P (Some v, p)) ->
  wp (parseInteger data pos) P.
Proof.
  intros Hok Hp HN HS. unfold parseInteger. repeat wp_ber; try (simpl; apply HN; lia).
  apply uint_loop_wp; [lia..|]. intros v. apply HS. lia.
Qed.

Lemma parseOctetString_wp data pos (P : option bytes * Z -> Prop) :
  bytes_ok data -> 0 <= pos ->
  (forall p, pos <= p -> P (None, p)) ->
  (forall v p, pos < p <= len data -> len v <= len data -> bytes_ok v -> P (Some v, p)) ->
  wp (parseOctetString data pos) P.
Proof.
  intros Hok Hp HN HS. unfold parseOctetString. repeat wp_ber; try (simpl; apply HN; lia).
  simpl. apply HS; [lia| |].
  - rewrite len_take, len_drop. lia.
  - by apply Forall_take, Forall_drop.
Qed.

Lemma int_loop_app l : forall pre rest v,
  bytes_ok l -> len l <= 7 -> - 2 ^ (63 - 8 * len l) <= v < 2 ^ (63 - 8 * len l) ->
  int_loop (length l) (pre ++ l ++ rest) (len pre) v = Ok (be_val v l).
Proof.
  induction l as [|b l IH]; intros pre rest v Hok Hl Hv; cbn [int_loop length]; [done|].
  inversion Hok as [|? ? Hb Hl']; subst. unfold is_byte in Hb. rewrite len_cons in *.
  pose proof (len_nonneg l).
  cbn [app]. rewrite index_app_here. cbn [res_bind].
  rewrite lor_shiftl_add by lia. change (2 ^ 8) with 256. rewrite be_val_cons.
  assert (Hpow : 2 ^ (63 - 8 * len l) = 256 * 2 ^ (63 - 8 * (1 + len l))).
  { change 256 with (2 ^ 8). rewrite <- Z.pow_add_r by lia. f_equal. lia. }
  assert (2 ^ (63 - 8 * len l) <= 2 ^ 63) by (apply Z.pow_le_mono_r; lia).
  rewrite s64_small by (unfold int64_range, MinInt64, MaxInt64; lia).
  rewrite (cons_middle b pre (l ++ rest)), app_assoc.
  replace (len pre + 1) with (len (pre ++ [b])) by (autorewrite with len; lia).
  apply IH; (done || lia).
Qed.

Lemma skip_pad_none fuel pre b0 l rest :
  bytes_ok (b0 :: l) -> (l = [] \/ b0 <> 0 \/ 128 <= hd 0 l) ->
  skip_pad (S fuel) (pre ++ (b0 :: l) ++ rest) (len pre) (len pre + (1 + len l)) = Ok (len pre).
Proof.
  intros Hok Hc. cbn [skip_pad]. case_if; [|done]. cbn [app]. rewrite index_app_here. cbn [res_bind].
  case_if; [|done]. destruct l as [|b1 l]; [rewrite len_nil in *; lia|].
  destruct Hc as [?|[?|Hc]]; [done|done|]. cbn [hd] in Hc.
  rewrite (cons_middle b0 pre), app_assoc.
  replace (len pre + 1) with (len (pre ++ [b0])) by (autorewrite with len; lia).
  cbn [app]. rewrite index_app_here. cbn [res_bind].
  inversion Hok as [|? ? _ Hok']; subst. inversion Hok' as [|? ? Hb1 _]; subst.
  rewrite land_0x80 by done. case_if; [lia|done].
Qed.

(** A minimal two's complement content of at most eight octets is read as its
    value. *)
Lemma parseBERInt_body pre b0 l rest :
  bytes_ok (b0 :: l) -> len l <= 7 -> (l = [] \/ b0 <> 0 \/ 128 <= hd 0 l) ->
  parseBERInt (pre ++ (b0 :: l) ++ rest) (len pre) (1 + len l) = Ok (be_val (s8 b0) l, true).
Proof.
  intros Hok Hl Hc. pose proof (len_nonneg l). pose proof (len_nonneg rest).
  unfold parseBERInt. case_if.
  { exfalso. autorewrite with len in *. lia. }
  replace (Z.to_nat (1 + len l)) with (S (length l)) by (rewrite len_def; lia).
  rewrite skip_pad_none by done. cbn [res_bind]. case_if; [lia|].
  cbn [app]. rewrite index_app_here. cbn [res_bind].
  replace (Z.to_nat (len pre + (1 + len l) - (len pre + 1))) with (length l) by (rewrite !len_def; lia).
  rewrite (cons_middle b0 pre), app_assoc.
  replace (len pre + 1) with (len (pre ++ [b0])) by (autorewrite with len; lia).
  inversion Hok as [|? ? Hb0 Hok']; subst. unfold is_byte in Hb0.
  assert (- 2 ^ 7 <= s8 b0 < 2 ^ 7) by (unfold s8; pose proof (Z.mod_pos_bound (b0 + 2 ^ 7) (2 ^ 8)); lia).
  assert (2 ^ 7 <= 2 ^ (63 - 8 * len l)) by (apply Z.pow_le_mono_r; lia).
  by rewrite int_loop_app by (done || lia).
Qed.

Lemma s8_cases b : is_byte b -> s8 b = if b <? 128 then b else b - 256.
Proof.
  unfold is_byte, s8. intros Hb. change (2 ^ 7) with 128. change (2 ^ 8) with 256.
  case_if; [rewrite Z.mod_small; lia|].
  replace (b + 128) with (b - 128 + 1 * 256) by lia. rewrite Z.mod_add, Z.mod_small; lia.
Qed.

Lemma u8_shiftr_u64 v k : 0 <= k <= 56 -> u8 (Z.shiftr (u64 v) k) = (v / 2 ^ k) mod 256.
Proof.
  intros Hk. unfold u8, u64. change 256 with (2 ^ 8). rewrite <- Z.shiftr_div_pow2 by lia.
  apply Z.bits_inj'. intros i Hi. destruct (Z.lt_ge_cases i 8).
  - by rewrite !Z.mod_pow2_bits_low, !Z.shiftr_spec, Z.mod_pow2_bits_low by lia.
  - by rewrite !Z.mod_pow2_bits_high by lia.
Qed.

Lemma u8_u64 v : u8 (u64 v) = v mod 256.
Proof.
  rewrite <- (Z.shiftr_0_r (u64 v)), u8_shiftr_u64 by lia. by rewrite Z.pow_0_r, Z.div_1_r.
Qed.

Lemma mod256_byte x : is_byte (x mod 256).
Proof. unfold is_byte. pose proof (Z.mod_pos_bound x 256). lia. Qed.
#[export] Hint Resolve mod256_byte : go.

(** What [encodeInteger] emits: a minimal content that means the value, for
    every value down to [-2^32]. *)
Lemma integerBody_spec v :
  - 2 ^ 32 <= v <= MaxInt64 ->
  exists b0 l, integerBody v = b0 :: l /\ bytes_ok (b0 :: l) /\ len l <= 7 /\
    (l = [] \/ b0 <> 0 \/ 128 <= hd 0 l) /\ be_val (s8 b0) l = v.
Proof.
  unfold MaxInt64. intros Hv. unfold integerBody. case_if.
  { exists 0, []. subst. split_and!; [done|by repeat constructor|by rewrite len_nil|by left|done]. }
  case_if.
  - destruct (be_loop_spec 8 v []) as (ds & Heq & Hok & Hval & Hlen & _ & Hh); [lia|].
    rewrite app_nil_r in Heq. rewrite Heq. destruct (Hh ltac:(lia)) as [Hhd Hpow].
    destruct ds as [|d ds]; [cbn [hd] in Hhd; lia|]. cbn [hd] in Hhd.
    inversion_clear Hok as [|? ? Hd Hds]. pose proof Hd as Hd'. unfold is_byte in Hd'.
    rewrite be_val_cons, be_val_split in Hval.
    pose proof (be_val_bound ds Hds). pose proof (len_nonneg ds). rewrite len_cons in Hlen.
    rewrite land_0x80 by done. case_if.
    + exists 0, (d :: ds).
      assert (len ds <= 6).
      { destruct (Z.le_gt_cases (len ds) 6); [done|]. assert (len ds = 7) as Hl7 by lia.
        rewrite Hl7 in *. lia. }
      split_and!; [done| |rewrite len_cons; lia|right; right; simpl; lia|].
      * constructor; [unfold is_byte; lia|by constructor].
      * change (s8 0) with 0. rewrite be_val_cons, be_val_split. lia.
    + exists d, ds. split_and!; [done|by constructor|lia|right; left; lia|].
      rewrite s8_cases by done. case_if; [|lia]. rewrite be_val_split. lia.
  - rewrite !u8_shiftr_u64, u8_u64 by lia.
    pose proof (Z.div_mod v 256). pose proof (Z.div_mod v (2 ^ 16)).
    pose proof (Z.div_mod v (2 ^ 24)).
    destruct (-128 <=? v) eqn:E2; [|destruct (-32768 <=? v) eqn:E3;
      [|destruct (-8388608 <=? v) eqn:E4]]; zbool; rewrite land_0x80 by auto with go;
      case_if; try (exfalso; Z.div_mod_to_equations; lia);
      (eexists _, _; split; [done|]); rewrite ?len_cons, ?len_nil;
      (split; [solve_bytes|]);
      (split; [lia|]); rewrite ?be_val_cons, be_val_nil, s8_cases by (auto with go; unfold is_byte; lia);
      cbn [hd]; (split; [Z.div_mod_to_equations; lia|]);
      try case_if; Z.div_mod_to_equations; lia.
Qed.

(** ** Fixed-width unsigned values *)

Lemma fill_be_spec n : forall v acc, 0 <= v ->
  exists ds, fill_be n v acc = ds ++ acc /\ bytes_ok ds /\ len ds = Z.of_nat n /\
    be_val 0 ds = v mod 256 ^ Z.of_nat n.
Proof.
  induction n as [|n IH]; intros v acc Hv; cbn [fill_be].
  { exists []. rewrite len_nil, be_val_nil, Z.mod_1_r. split_and!; (done || constructor). }
  rewrite u8_land, Z.shiftr_div_pow2 by lia. change (2 ^ 8) with 256.
  destruct (IH (v / 256) (v mod 256 :: acc)) as (ds & -> & Hok & Hl & Hval); [by apply Z.div_pos|].
  exists (ds ++ [v mod 256]). split_and!.
  - by rewrite <- app_assoc.
  - apply Forall_app; split; [done|]. solve_bytes.
  - rewrite len_app, len_cons, len_nil. lia.
  - rewrite be_val_app, be_val_cons, be_val_nil, Hval, Nat2Z.inj_succ, Z.pow_succ_r by lia.
    rewrite Z.rem_mul_r by (try apply Z.pow_pos_nonneg; lia). lia.
Qed.

Lemma strip_zeros_spec keep : forall b, bytes_ok b -> len b = 1 + Z.of_nat keep ->
  exists b0 l, strip_zeros keep b = b0 :: l /\ bytes_ok (b0 :: l) /\ len l <= Z.of_nat keep /\
    be_val 0 (b0 :: l) = be_val 0 b /\ (l = [] \/ b0 <> 0).
Proof.
  induction keep as [|keep IH]; intros b Hok Hl;
    (destruct b as [|x b]; [rewrite len_nil in Hl; lia|]); rewrite len_cons in Hl; cbn [strip_zeros].
  { exists x, b. assert (b = []) as -> by (apply len_0_nil; lia). rewrite len_nil. naive_solver lia. }
  case_if.
  - subst x. inversion_clear Hok as [|? ? _ Hb].
    destruct (IH b Hb) as (b0 & l & -> & ? & ? & Hv & ?); [lia|].
    exists b0, l. split_and!; (done || lia || by rewrite Hv, be_val_cons).
  - exists x, b. split_and!; (done || lia || by right).
Qed.

Definition unsigned32Bytes (value : Z) : bytes :=
  [u8 (Z.shiftr value 24); u8 (Z.shiftr value 16); u8 (Z.shiftr value 8); u8 value].

Lemma unsigned32Bytes_fill v : unsigned32Bytes v = fill_be 4 v [].
Proof.
  unfold unsigned32Bytes. cbn [fill_be]. rewrite !u8_land, !Z.shiftr_shiftr by lia. done.
Qed.

Lemma encodeUnsigned32_body tag v :
  0 <= v < 2 ^ 32 ->
  exists b0 l, encodeUnsigned32 tag v = tag :: (1 + len l) :: b0 :: l /\
    bytes_ok (b0 :: l) /\ len l <= 3 /\ be_val 0 (b0 :: l) = v /\ (l = [] \/ b0 <> 0).
Proof.
  intros Hv. unfold encodeUnsigned32. fold (unsigned32Bytes v). rewrite unsigned32Bytes_fill.
  destruct (fill_be_spec 4 v []) as (ds & -> & Hok & Hl & Hval); [lia|]. rewrite app_nil_r.
  destruct (strip_zeros_spec 3 ds Hok) as (b0 & l & -> & Hok' & Hl' & Hval' & Hc); [lia|].
  exists b0, l. pose proof (len_nonneg l). rewrite len_cons, encodeLength_short by lia.
  split_and!; (done || lia || idtac). rewrite Hval', Hval. apply Z.mod_small. lia.
Qed.

Lemma encodeCounter64_body v :
  0 <= v < 2 ^ 64 ->
  exists b0 l, encodeCounter64 v = ASN1_COUNTER64 :: (1 + len l) :: b0 :: l /\
    bytes_ok (b0 :: l) /\ len l <= 7 /\ be_val 0 (b0 :: l) = v /\ (l = [] \/ b0 <> 0).
Proof.
  intros Hv. unfold encodeCounter64.
  destruct (fill_be_spec 8 v []) as (ds & -> & Hok & Hl & Hval); [lia|]. rewrite app_nil_r.
  destruct (strip_zeros_spec 7 ds Hok) as (b0 & l & -> & Hok' & Hl' & Hval' & Hc); [lia|].
  exists b0, l. pose proof (len_nonneg l). rewrite len_cons, encodeLength_short by lia.
  split_and!; (done || lia || idtac). rewrite Hval', Hval. apply Z.mod_small. lia.
Qed.

(** ** What the encoders promise to a reader *)

(** Reading back a TLV whose contents fit a 32-bit length: the length reader
    stops at the contents. *)
Lemma parseLength_tlv pre tag body rest :
  len body <= MaxInt32 ->
  parseLength (pre ++ (tag :: encodeLength (len body) ++ body) ++ rest) (len pre + 1) =
    Ok (len body, len pre + 1 + len (encodeLength (len body))).
Proof.
  intros Hl. pose proof (len_nonneg body).
  replace (pre ++ (tag :: encodeLength (len body) ++ body) ++ rest)
    with ((pre ++ [tag]) ++ encodeLength (len body) ++ (body ++ rest))
    by (simpl; by rewrite <- !app_assoc).
  replace (len pre + 1) with (len (pre ++ [tag])) by (autorewrite with len; lia).
  by rewrite parseLength_encodeLength by lia.
Qed.

(** [parseLength] then [parseBERInt] on a short TLV. *)
Lemma read_short_int pre tag b0 l rest :
  bytes_ok (b0 :: l) -> len l <= 7 -> (l = [] \/ b0 <> 0 \/ 128 <= hd 0 l) ->
  let data := pre ++ (tag :: (1 + len l) :: b0 :: l) ++ rest in
  parseLength data (len pre + 1) = Ok (1 + len l, len pre + 2) /\
  parseBERInt data (len pre + 2) (1 + len l) = Ok (be_val (s8 b0) l, true).
Proof.
  intros Hok Hl Hc data. pose proof (len_nonneg l). subst data. split.
  - replace (tag :: (1 + len l) :: b0 :: l) with (tag :: encodeLength (len (b0 :: l)) ++ (b0 :: l))
      by (by rewrite len_cons, encodeLength_short by lia).
    rewrite parseLength_tlv by (rewrite len_cons; unfold MaxInt32; lia).
    rewrite len_cons, encodeLength_short, len_cons, len_nil by lia. f_equal. f_equal. lia.
  - replace (pre ++ (tag :: (1 + len l) :: b0 :: l) ++ rest)
      with ((pre ++ [tag; 1 + len l]) ++ (b0 :: l) ++ rest) by (by rewrite <- app_assoc).
    replace (len pre + 2) with (len (pre ++ [tag; 1 + len l])) by (autorewrite with len; lia).
    by apply parseBERInt_body.
Qed.

(** The value a signed reader takes from octets an unsigned encoder wrote. *)
Lemma be_val_s8 b0 l :
  is_byte b0 ->
  be_val (s8 b0) l = be_val 0 (b0 :: l) - (if b0 <? 128 then 0 else 256 ^ (1 + len l)).
Proof.
  intros Hb. rewrite s8_cases by done. pose proof (len_nonneg l).
  rewrite be_val_cons, be_val_split, (be_val_split (0 * 256 + b0)).
  rewrite Z.pow_add_r by lia. case_if; lia.
Qed.

Lemma lead_octet b0 l :
  bytes_ok (b0 :: l) -> (b0 <? 128) = (2 * be_val 0 (b0 :: l) <? 256 ^ (1 + len l)).
Proof.
  intros Hok. inversion_clear Hok as [|? ? Hb Hl]. unfold is_byte in Hb.
  pose proof (be_val_bound l Hl). pose proof (len_nonneg l).
  rewrite be_val_cons, be_val_split, Z.pow_add_r by lia.
  destruct (b0 <? 128) eqn:E; zbool; symmetry; [apply Z.ltb_lt|apply Z.ltb_ge]; nia.
Qed.

(** ** Octets in place

    [holds_at data pos x]: the octets [x] sit at offset [pos] of [data].  The
    reader lemmas below are stated on it, so a proof about a nested message
    descends through the encoding the way the reader's cursor does. *)
Definition holds_at (data : bytes) (pos : Z) (x : bytes) : Prop :=
  exists pre rest, data = pre ++ x ++ rest /\ pos = len pre.

(** The size of the tag and length octets before [n] octets of contents. *)
Definition hlen (n : Z) : Z := 1 + len (encodeLength n).

Lemma holds_at_self x : holds_at x 0 x.
Proof. exists [], []. by rewrite app_nil_r. Qed.

Lemma holds_at_app data pos x y :
  holds_at data pos (x ++ y) -> holds_at data pos x /\ holds_at data (pos + len x) y.
Proof.
  intros (pre & rest & -> & ->). split.
  - exists pre, (y ++ rest). by rewrite <- !app_assoc.
  - exists (pre ++ x), rest. rewrite len_app. by rewrite <- !app_assoc.
Qed.

Lemma holds_at_bounds data pos x : holds_at data pos x -> 0 <= pos /\ pos + len x <= len data.
Proof.
  intros (pre & rest & -> & ->). rewrite !len_app.
  pose proof (len_nonneg pre). pose proof (len_nonneg rest). lia.
Qed.

Lemma holds_at_slice data pos x : holds_at data pos x -> slice data pos (pos + len x) = Ok x.
Proof. intros (pre & rest & -> & ->). apply slice_app_here. Qed.

Lemma holds_at_index data pos b x : holds_at data pos (b :: x) -> index data pos = Ok b.
Proof. intros (pre & rest & -> & ->). apply index_app_here. Qed.

Lemma holds_at_tag data pos b x : holds_at data pos (b :: x) -> forall tag, tag_at data pos tag = Ok (b =? tag).
Proof. intros (pre & rest & -> & ->) tag. apply tag_at_app_here. Qed.

Lemma holds_at_length data pos tag body :
  holds_at data pos (tlv tag body) -> len body <= MaxInt32 ->
  parseLength data (pos + 1) = Ok (len body, pos + hlen (len body)).
Proof.
  intros (pre & rest & -> & ->) Hl. unfold tlv, hlen. rewrite parseLength_tlv by done.
  do 2 f_equal. lia.
Qed.

Lemma holds_at_body data pos tag body :
  holds_at data pos (tlv tag body) -> holds_at data (pos + hlen (len body)) body.
Proof.
  unfold tlv. change (tag :: encodeLength (len body) ++ body)
    with ((tag :: encodeLength (len body)) ++ body). intros H.
  apply holds_at_app in H as [_ H]. rewrite len_cons in H. exact H.
Qed.

Lemma len_tlv tag body : len (tlv tag body) = hlen (len body) + len body.
Proof. unfold tlv, hlen. autorewrite with len. lia. Qed.

Lemma hlen_pos n : 2 <= hlen n.
Proof.
  unfold hlen, encodeLength. destruct (n <? 0x80); autorewrite with len; [lia|].
  pose proof (len_nonneg (be_loop 8 n [])). lia.
Qed.

Lemma len_tlv_pos tag body : 2 <= len (tlv tag body).
Proof. rewrite len_tlv. pose proof (hlen_pos (len body)). pose proof (len_nonneg body). lia. Qed.

Lemma encodeInteger_tlv v : encodeInteger v = tlv ASN1_INTEGER (integerBody v).
Proof. done. Qed.
Lemma encodeOctetString_tlv v : encodeOctetString v = tlv ASN1_OCTET_STRING v.
Proof. done. Qed.
Lemma encodeSequence_tlv v : encodeSequence v = tlv ASN1_SEQUENCE v.
Proof. done. Qed.

Lemma integerBody_len v : - 2 ^ 32 <= v <= MaxInt64 -> 1 <= len (integerBody v) <= 8.
Proof.
  intros Hv. destruct (integerBody_spec v Hv) as (b0 & l & -> & _ & Hl & _).
  rewrite len_cons. pose proof (len_nonneg l). lia.
Qed.

Lemma holds_at_int data pos v :
  - 2 ^ 32 <= v <= MaxInt64 -> holds_at data pos (integerBody v) ->
  parseBERInt data pos (len (integerBody v)) = Ok (v, true).
Proof.
  intros Hv (pre & rest & -> & ->).
  destruct (integerBody_spec v Hv) as (b0 & l & Hb & Hok & Hl & Hc & Hval).
  rewrite Hb, len_cons. rewrite parseBERInt_body by done. by rewrite Hval.
Qed.

(** ** Theorems *)

(** Every length a 32-bit int holds round-trips: [parseLength], pointed at
    the octets [encodeLength] wrote anywhere in a datagram, returns the length
    and leaves the cursor just past them. *)
Theorem length_roundtrip pre rest n :
  0 <= n <= MaxInt32 ->
  parseLength (pre ++ encodeLength n ++ rest) (len pre) = Ok (n, len pre + len (encodeLength n)).
Proof. apply parseLength_encodeLength. Qed.

Lemma length_roundtrip_witness :
  parseLength ([0x30] ++ encodeLength 70000 ++ [1; 2]) 1 = Ok (70000, 5).
Proof. apply (length_roundtrip [0x30] [1; 2] 70000). unfold MaxInt32. lia. Defined.

(** [parseLength] on arbitrary octets never panics; it answers -1 or a
    length of at most 2^31 - 1, and an accepted length leaves the cursor strictly
    advanced and inside the datagram. *)
Theorem parseLength_bounds data pos :
  bytes_ok data -> 0 <= pos ->
  exists n p, parseLength data pos = Ok (n, p) /\ -1 <= n <= MaxInt32 /\ pos <= p /\
    (n <> -1 -> pos < p <= len data).
Proof.
  intros Hok Hp. destruct (wp_Ok (parseLength data pos) (fun '(n, p) => -1 <= n <= MaxInt32 /\
    pos <= p /\ (n <> -1 -> pos < p <= len data))) as ([n p] & Heq & H).
  - apply parseLength_wp; [done..|]. intros n p ? ? ?. split_and!; lia.
  - by exists n, p.
Qed.

Lemma parseLength_bounds_witness :
  exists n p, parseLength [0x84; 0xff; 0xff; 0xff; 0xff] 0 = Ok (n, p) /\ -1 <= n <= MaxInt32 /\
    0 <= p /\ (n <> -1 -> 0 < p <= 5).
Proof. apply (parseLength_bounds [0x84; 0xff; 0xff; 0xff; 0xff] 0); [solve_bytes|lia]. Defined.

(** An INTEGER from -2^32 up to 2^63 - 1 round-trips through
    [encodeInteger], [parseLength] and [parseBERInt], wherever it sits in the
    datagram, and the reader consumes exactly what was written. *)
Theorem encodeInteger_roundtrip pre rest v :
  - 2 ^ 32 <= v <= MaxInt64 ->
  let data := pre ++ encodeInteger v ++ rest in
  exists n p, parseLength data (len pre + 1) = Ok (n, p) /\
    parseBERInt data p n = Ok (v, true) /\ p + n = len pre + len (encodeInteger v).
Proof.
  intros Hv data. destruct (integerBody_spec v Hv) as (b0 & l & Hb & Hok & Hl & Hc & Hval).
  pose proof (len_nonneg l).
  assert (He : encodeInteger v = ASN1_INTEGER :: (1 + len l) :: b0 :: l).
  { unfold encodeInteger. by rewrite Hb, len_cons, encodeLength_short by lia. }
  destruct (read_short_int pre ASN1_INTEGER b0 l rest Hok Hl Hc) as [H1 H2].
  subst data. rewrite He. exists (1 + len l), (len pre + 2).
  rewrite H1, H2, Hval. split_and!; [done|done|]. autorewrite with len. lia.
Qed.

Lemma encodeInteger_roundtrip_witness :
  exists n p, parseLength ([] ++ encodeInteger (-129) ++ [7]) (0 + 1) = Ok (n, p) /\
    parseBERInt ([] ++ encodeInteger (-129) ++ [7]) p n = Ok (-129, true) /\
    p + n = 0 + len (encodeInteger (-129)).
Proof. apply (encodeInteger_roundtrip [] [7] (-129)). unfold MaxInt64. lia. Defined.

(** Below -2^32 the encoder keeps only the low 32 bits: the value a reader
    gets back is congruent to the original modulo 2^32 and is never the
    original. *)
Theorem encodeInteger_truncates pre rest v :
  MinInt64 <= v < - 2 ^ 32 ->
  let data := pre ++ encodeInteger v ++ rest in
  exists n p, parseLength data (len pre + 1) = Ok (n, p) /\
    parseBERInt data p n = Ok (v mod 2 ^ 32 - 2 ^ 32, true) /\ v mod 2 ^ 32 - 2 ^ 32 <> v.
Proof.
  intros Hv data. unfold MinInt64 in Hv.
  assert (Hlo : exists l, bytes_ok l /\ len l = 4 /\ be_val 0 l = v mod 2 ^ 32 /\
    integerBody v = if Z.land (hd 0 l) 0x80 =? 0 then 0xFF :: l else l).
  { exists [(v / 2 ^ 24) mod 256; (v / 2 ^ 16) mod 256; (v / 2 ^ 8) mod 256; v mod 256].
    split_and!; [solve_bytes|done| |].
    - rewrite !be_val_cons, be_val_nil.
      change (2 ^ 32) with (256 * 16777216). rewrite Z.rem_mul_r by lia.
      change 16777216 with (256 * 65536). rewrite Z.rem_mul_r, Z.div_div by lia.
      change (2 ^ 8) with 256. change (2 ^ 16) with (256 * 256). change (2 ^ 24) with (256 * 256 * 256).
      change 65536 with (256 * 256). rewrite Z.rem_mul_r, !Z.div_div by lia. lia.
    - unfold integerBody. cbn [hd]. cbv zeta.
      replace (v =? 0) with false by lia. replace (0 <? v) with false by lia.
      replace (-128 <=? v) with false by lia. replace (-32768 <=? v) with false by lia.
      replace (-8388608 <=? v) with false by lia.
      by rewrite !u8_shiftr_u64, u8_u64 by lia. }
  destruct Hlo as (l & Hok & Hl4 & Hval & Hbody).
  destruct l as [|b0 l]; [rewrite len_nil in Hl4; lia|]. rewrite len_cons in Hl4.
  inversion Hok as [|? ? Hb0 Hl]; subst. cbn [hd] in Hbody. rewrite land_0x80 in Hbody by done.
  assert (Hb : exists c0 k, integerBody v = c0 :: k /\ bytes_ok (c0 :: k) /\ len k <= 7 /\ c0 <> 0 /\
    be_val (s8 c0) k = v mod 2 ^ 32 - 2 ^ 32).
  { rewrite Hbody. destruct (b0 <? 128) eqn:E; zbool.
    - exists 0xFF, (b0 :: l). split_and!; [done|solve_bytes|rewrite len_cons; lia|lia|].
      rewrite be_val_split, Hval, len_cons. replace (1 + len l) with 4 by lia. change (s8 0xFF) with (-1). lia.
    - exists b0, l. split_and!; [done|done|lia|lia|].
      rewrite be_val_s8, Hval by done. case_if; [lia|]. by replace (1 + len l) with 4 by lia. }
  destruct Hb as (c0 & k & Hib & Hcok & Hk & Hc0 & Hcv). pose proof (len_nonneg k).
  assert (He : encodeInteger v = ASN1_INTEGER :: (1 + len k) :: c0 :: k).
  { unfold encodeInteger. by rewrite Hib, len_cons, encodeLength_short by lia. }
  destruct (read_short_int pre ASN1_INTEGER c0 k rest Hcok Hk) as [H1 H2]; [auto|].
  subst data. rewrite He. exists (1 + len k), (len pre + 2).
  rewrite H1, H2, Hcv. split_and!; [done|done|]. pose proof (Z.mod_pos_bound v (2 ^ 32)). lia.
Qed.

Lemma encodeInteger_truncates_witness :
  exists n p, parseLength ([] ++ encodeInteger (-4294967297) ++ []) (0 + 1) = Ok (n, p) /\
    parseBERInt ([] ++ encodeInteger (-4294967297) ++ []) p n = Ok (-1, true) /\ -1 <> -4294967297.
Proof. apply (encodeInteger_truncates [] [] (-4294967297)). unfold MinInt64. lia. Defined.

(** Counter32, Gauge32 and TimeTicks values of 32 bits: the content is the
    shortest big-endian form of the value, and a BER reader gets the value back
    exactly when its top bit is clear.  Otherwise ([encodeUnsigned32] writes no
    0x00 pad) it reads the value minus 256^n. *)
Theorem encodeUnsigned32_reading pre rest tag v :
  0 <= v < 2 ^ 32 ->
  let data := pre ++ encodeUnsigned32 tag v ++ rest in
  exists n, 1 <= n <= 4 /\ v < 256 ^ n /\ (1 < n -> 256 ^ (n - 1) <= v) /\
    parseLength data (len pre + 1) = Ok (n, len pre + 2) /\
    parseBERInt data (len pre + 2) n = Ok (if 2 * v <? 256 ^ n then v else v - 256 ^ n, true).
Proof.
  intros Hv data. destruct (encodeUnsigned32_body tag v Hv) as (b0 & l & He & Hok & Hl & Hval & Hc).
  pose proof (len_nonneg l). pose proof (be_val_bound _ Hok) as Hbd. rewrite Hval, len_cons in Hbd.
  destruct (Forall_cons_1 _ _ _ Hok) as [Hb0 Hlok]. pose proof (be_val_bound l Hlok).
  destruct (read_short_int pre tag b0 l rest Hok) as [H1 H2]; [lia|tauto|].
  subst data. exists (1 + len l).
  rewrite He, H1, H2, be_val_s8, (lead_octet b0 l), Hval by done. split_and!; [lia|lia|lia| |done|by case_if; do 2 f_equal; lia].
  intros Hn. replace (1 + len l - 1) with (len l) by lia.
  destruct Hc as [->|Hc]; [rewrite len_nil in Hn; lia|]. unfold is_byte in Hb0.
  rewrite be_val_cons, be_val_split in Hval. nia.
Qed.

Lemma encodeUnsigned32_reading_witness :
  exists n, 1 <= n <= 4 /\ 128 < 256 ^ n /\ (1 < n -> 256 ^ (n - 1) <= 128) /\
    parseLength ([] ++ encodeUnsigned32 ASN1_COUNTER32 128 ++ []) (0 + 1) = Ok (n, 0 + 2) /\
    parseBERInt ([] ++ encodeUnsigned32 ASN1_COUNTER32 128 ++ []) (0 + 2) n =
      Ok (if 2 * 128 <? 256 ^ n then 128 else 128 - 256 ^ n, true).
Proof. apply (encodeUnsigned32_reading [] [] ASN1_COUNTER32 128). lia. Defined.
