(* ===== verification/Oid.v ===== *)
(** * OBJECT IDENTIFIERs on the wire (snmp_encoding.go)

    [encodeOID] and [decodeOID], their sub-identifier varints, and the two round
    trips between them: every OID the encoder can represent decodes to its own
    dotted form, and every octet string the decoder accepts is the encoding of
    what it decodes to, so an OID has exactly one accepted wire form. *)

From S2P Require Import Prelude GoStrings Ber.

Definition maxOIDSubIdentifier : Z := 0xFFFFFFFF.
Definition maxOIDBodyBytes : Z := 0xFFFF.

Definition legalOIDArcPair (first second : Z) : bool :=
  if (first <? 0) || (second <? 0) || (2 <? first) then false
  else if (first <? 2) && (39 <? second) then false
  else u64 (u64 40 * u64 first + u64 second) <=? maxOIDSubIdentifier.

(** [for temp > 0 { chunks = append(chunks, byte(temp&0x7f)); temp >>= 7 }];
    ten chunks hold any [int]. *)
Fixpoint chunk_loop (fuel : nat) (temp : Z) (chunks : bytes) : bytes :=
  match fuel with
  | O => chunks
  | S fuel' =>
      if 0 <? temp then chunk_loop fuel' (Z.shiftr temp 7) (chunks ++ [u8 (Z.land temp 0x7f)])
      else chunks
  end.

Definition encodeOIDComponent (value : Z) : bytes :=
  if value <? 0x80 then [u8 value] else
  match chunk_loop 10 value [] with
  | [] => []
  | c0 :: cs => map (fun c => Z.lor c 0x80) (rev cs) ++ [c0]
  end.

(** The degenerate encoding of anything the encoder cannot represent. *)
Definition degenerateOID : bytes := [ASN1_OID; 0x00].

(** The loop over [parts[2:]]; [None] is the degenerate return. *)
Fixpoint encode_components (parts : list bytes) : option bytes :=
  match parts with
  | [] => Some []
  | p :: ps =>
      let '(val, ok) := Atoi p in
      if negb ok || (val <? 0) || (maxOIDSubIdentifier <? val) then None
      else match encode_components ps with
           | Some tail => Some (encodeOIDComponent val ++ tail)
           | None => None
           end
  end.

Definition encodeOID (oid : bytes) : bytes :=
  let oid := TrimPrefix oid (str ".") in
  match Split dot oid with
  | p0 :: p1 :: rest =>
      let '(first, ok1) := Atoi p0 in
      let '(second, ok2) := Atoi p1 in
      if negb ok1 || negb ok2 || negb (legalOIDArcPair first second) then degenerateOID else
      match encode_components rest with
      | None => degenerateOID
      | Some tail =>
          let encoded := encodeOIDComponent (40 * first + second) ++ tail in
          if maxOIDBodyBytes <? len encoded then degenerateOID
          else [ASN1_OID] ++ encodeLength (len encoded) ++ encoded
      end
  | _ => degenerateOID
  end.

Definition encodeVarBind (oid value : bytes) : bytes := encodeSequence (encodeOID oid ++ value).

Definition encodableAsOID (v : bytes) : bool :=
  negb (beq (encodeOID v) degenerateOID).

(** The inner loop of [decodeOID]: one sub-identifier.  [None] is the [return
    ""] of an out-of-range or unterminated one. *)
Fixpoint read_subid (l : bytes) (value : Z) : option (Z * bytes) :=
  match l with
  | [] => None
  | b :: l' =>
      if Z.shiftr maxOIDSubIdentifier 7 <? value then None else
      let value := u64 (Z.lor (Z.shiftl value 7) (Z.land b 0x7F)) in
      if Z.land b 0x80 =? 0 then Some (value, l') else read_subid l' value
  end.

(** The outer loop; every iteration consumes at least one octet. *)
Fixpoint read_subids (fuel : nat) (l : bytes) : option (list Z) :=
  match fuel with
  | O => match l with [] => Some [] | _ => None end
  | S fuel' =>
      match l with
      | [] => Some []
      | b :: _ =>
          if b =? 0x80 then None else
          match read_subid l 0 with
          | None => None
          | Some (value, l') =>
              match read_subids fuel' l' with
              | Some vs => Some (value :: vs)
              | None => None
              end
          end
      end
  end.

Definition decodeOID (oidBytes : bytes) : bytes :=
  if len oidBytes =? 0 then [] else
  match read_subids (length oidBytes) oidBytes with
  | Some (s0 :: rest) =>
      let first := if 2 <? s0 / 40 then 2 else s0 / 40 in
      let second := s0 - 40 * first in
      str "." ++ Join dot (FormatUint first :: FormatUint second :: map FormatUint rest)
  | _ => []
  end.

(** ** The numeric reading of an OID *)

(** The dotted form of a list of arcs, and the arcs X.690 can represent. *)
Definition dotted (arcs : list Z) : bytes := str "." ++ Join dot (map FormatUint arcs).

Definition subid_ok (v : Z) : Prop := 0 <= v <= maxOIDSubIdentifier.

Lemma FormatUint_inj a b : subid_ok a -> subid_ok b -> FormatUint a = FormatUint b -> a = b.
Proof.
  unfold subid_ok, maxOIDSubIdentifier. intros Ha Hb H. assert (Hs : Atoi (FormatUint a) = Atoi (FormatUint b)) by (by rewrite H).
  rewrite !Atoi_FormatUint in Hs by (unfold MaxInt64; lia). by simplify_eq.
Qed.

Definition pair_ok (a b : Z) : Prop :=
  0 <= a <= 2 /\ 0 <= b /\ (a < 2 -> b <= 39) /\ 40 * a + b <= maxOIDSubIdentifier.

Definition arcs_ok (arcs : list Z) : Prop :=
  match arcs with
  | a :: b :: rest => pair_ok a b /\ Forall subid_ok rest
  | _ => False
  end.

Definition subids (arcs : list Z) : list Z :=
  match arcs with
  | a :: b :: rest => (40 * a + b) :: rest
  | _ => []
  end.

(** The content octets of the encoding of a list of arcs. *)
Definition oidBody (arcs : list Z) : bytes := concat (map encodeOIDComponent (subids arcs)).

Lemma legalOIDArcPair_spec a b :
  int64_range b ->
  legalOIDArcPair a b = true <-> pair_ok a b.
Proof.
  unfold pair_ok, int64_range, MinInt64, MaxInt64, legalOIDArcPair, maxOIDSubIdentifier, u64. intros Hb.
  destruct ((a <? 0) || (b <? 0) || (2 <? a)) eqn:E; [split; [done|lia]|]. zbool.
  destruct ((a <? 2) && (39 <? b)) eqn:E'; [split; [done|lia]|].
  rewrite (Z.mod_small 40), (Z.mod_small a), (Z.mod_small b), Z.mod_small by lia. lia.
Qed.

(** ** Varints *)

(** The continuation octets of a value: base 128, most significant first. *)
Fixpoint varint_hi (fuel : nat) (v : Z) : bytes :=
  match fuel with
  | O => []
  | S fuel' => if v =? 0 then [] else varint_hi fuel' (v / 128) ++ [v mod 128 + 128]
  end.

Lemma varint_hi_fuel n : forall m v, 0 <= v < 128 ^ Z.of_nat n -> v < 128 ^ Z.of_nat m ->
  varint_hi n v = varint_hi m v.
Proof.
  induction n as [|n IH]; intros m v Hn Hm.
  { assert (v = 0) as -> by (simpl in Hn; lia). by destruct m. }
  destruct m as [|m]; [assert (v = 0) as -> by (simpl in Hm; lia); done|].
  rewrite Nat2Z.inj_succ, Z.pow_succ_r in * by lia.
  cbn [varint_hi]. case_if; [done|]. f_equal. apply IH.
  - split; [apply Z.div_pos; lia|apply Z.div_lt_upper_bound; lia].
  - apply Z.div_lt_upper_bound; lia.
Qed.

Lemma varint_hi_step v :
  0 < v < 2 ^ 63 -> varint_hi 10 v = varint_hi 10 (v / 128) ++ [v mod 128 + 128].
Proof.
  intros Hv. assert (v / 128 < 2 ^ 63) by (apply Z.div_lt_upper_bound; lia).
  assert (0 <= v / 128) by (apply Z.div_pos; lia).
  rewrite (varint_hi_fuel 10 11) at 1 by lia.
  cbn [varint_hi]. case_if; [lia|done].
Qed.

Lemma lor_0x80 c : 0 <= c < 128 -> Z.lor c 0x80 = c + 128.
Proof.
  intros Hc. rewrite Z.lor_comm. change 0x80 with (Z.shiftl 1 7) at 1.
  rewrite lor_shiftl_add by lia. lia.
Qed.

Lemma u8_land7 x : u8 (Z.land x 0x7f) = x mod 128.
Proof. rewrite land_0x7f, u8_small; [done|]. unfold is_byte. pose proof (Z.mod_pos_bound x 128). lia. Qed.

Lemma chunk_loop_hi fuel : forall v chunks, 0 <= v ->
  exists cs, chunk_loop fuel v chunks = chunks ++ cs /\
    map (fun c => Z.lor c 0x80) (rev cs) = varint_hi fuel v.
Proof.
  induction fuel as [|fuel IH]; intros v chunks Hv; cbn [chunk_loop varint_hi].
  { exists []. by rewrite app_nil_r. }
  destruct (0 <? v) eqn:E; zbool; cycle 1.
  { exists []. rewrite app_nil_r. case_if; [done|lia]. }
  rewrite u8_land7, Z.shiftr_div_pow2 by lia. change (2 ^ 7) with 128.
  destruct (IH (v / 128) (chunks ++ [v mod 128])) as (cs & -> & Hcs); [by apply Z.div_pos|].
  exists (v mod 128 :: cs). case_if; [lia|]. split; [by rewrite <- app_assoc|].
  cbn [rev]. rewrite map_app, Hcs. cbn [map]. pose proof (Z.mod_pos_bound v 128).
  by rewrite lor_0x80 by lia.
Qed.

(** [encodeOIDComponent] is the base-128 form with continuation bits. *)
Lemma encodeOIDComponent_hi v :
  0 <= v < 2 ^ 63 -> encodeOIDComponent v = varint_hi 10 (v / 128) ++ [v mod 128].
Proof.
  intros Hv. unfold encodeOIDComponent. case_if.
  { rewrite Z.div_small, Z.mod_small, u8_small by (unfold is_byte; lia). done. }
  change (chunk_loop 10 v []) with
    (if 0 <? v then chunk_loop 9 (Z.shiftr v 7) [u8 (Z.land v 0x7f)] else []).
  destruct (0 <? v) eqn:E0; [|lia]. rewrite u8_land7, Z.shiftr_div_pow2 by lia.
  change (2 ^ 7) with 128. assert (0 <= v / 128) by (apply Z.div_pos; lia).
  destruct (chunk_loop_hi 9 (v / 128) [v mod 128]) as (cs & -> & Hcs); [lia|].
  assert (v / 128 < 2 ^ 56) by (apply Z.div_lt_upper_bound; lia).
  cbn [app]. by rewrite Hcs, (varint_hi_fuel 9 10) by lia.
Qed.

Lemma varint_hi_len n v : len (varint_hi n v) <= Z.of_nat n.
Proof.
  revert v. induction n as [|n IH]; intros v; cbn [varint_hi]; [rewrite len_nil; lia|].
  case_if; [rewrite len_nil; lia|]. rewrite len_app, len_cons, len_nil. specialize (IH (v / 128)). lia.
Qed.

Lemma encodeOIDComponent_len v : 0 <= v < 2 ^ 63 -> len (encodeOIDComponent v) <= 11.
Proof.
  intros Hv. rewrite encodeOIDComponent_hi, len_app, len_cons, len_nil by done.
  pose proof (varint_hi_len 10 (v / 128)). lia.
Qed.

Lemma read_subid_step b l acc :
  0 <= acc <= 33554431 -> is_byte b ->
  read_subid (b :: l) acc =
    let v := acc * 128 + b mod 128 in if b <? 128 then Some (v, l) else read_subid l v.
Proof.
  intros Ha Hb. cbn [read_subid].
  change (Z.shiftr maxOIDSubIdentifier 7) with 33554431.
  destruct (33554431 <? acc) eqn:E; [lia|]. rewrite land_0x80, land_0x7f by done.
  pose proof (Z.mod_pos_bound b 128). rewrite lor_shiftl_add by lia. change (2 ^ 7) with 128.
  unfold u64. rewrite Z.mod_small by lia. done.
Qed.

Lemma read_subid_range l : forall acc v l', 0 <= acc -> bytes_ok l ->
  read_subid l acc = Some (v, l') -> subid_ok v /\ bytes_ok l' /\ len l' < len l.
Proof.
  induction l as [|b l IH]; intros acc v l' Ha Hok Hr; [done|].
  inversion_clear Hok as [|? ? Hb Hl].
  destruct (Z.le_gt_cases acc 33554431) as [Hle|Hgt]; cycle 1.
  { cbn [read_subid] in Hr. change (Z.shiftr maxOIDSubIdentifier 7) with 33554431 in Hr.
    destruct (33554431 <? acc) eqn:E; [done|lia]. }
  rewrite read_subid_step in Hr by done. cbn zeta in Hr. pose proof (Z.mod_pos_bound b 128).
  rewrite len_cons. destruct (b <? 128).
  - simplify_eq. unfold subid_ok, maxOIDSubIdentifier. split_and!; (done || lia).
  - apply IH in Hr as (? & ? & ?); [|lia|done]. split_and!; (done || lia).
Qed.

Lemma read_subid_hi v l :
  0 <= v <= 33554431 -> read_subid (varint_hi 10 v ++ l) 0 = read_subid l v.
Proof.
  assert (Hgen : forall fuel v l, 0 <= v < 128 ^ Z.of_nat fuel -> v <= 33554431 ->
    read_subid (varint_hi fuel v ++ l) 0 = read_subid l v).
  { clear. induction fuel as [|fuel IH]; intros v l Hv Hmax; cbn [varint_hi].
    { assert (v = 0) as -> by (simpl in Hv; lia). done. }
    case_if; [by subst|]. rewrite <- app_assoc.
    rewrite Nat2Z.inj_succ, Z.pow_succ_r in Hv by lia.
    pose proof (Z.mod_pos_bound v 128). assert (0 <= v / 128) by (apply Z.div_pos; lia).
    assert (v / 128 <= v) by (apply Z.div_le_upper_bound; lia).
    assert (v / 128 < 128 ^ Z.of_nat fuel) by (apply Z.div_lt_upper_bound; lia).
    rewrite IH by lia. cbn [app].
    rewrite read_subid_step by (unfold is_byte; lia). cbn zeta.
    case_if; [lia|]. f_equal.
    rewrite Z.add_mod, Z.mod_same, Z.add_0_r, !Z.mod_mod by lia. pose proof (Z.div_mod v 128). lia. }
  intros Hv. apply Hgen; lia.
Qed.

(** Writing then reading a sub-identifier. *)
Lemma read_subid_encode v rest :
  subid_ok v -> read_subid (encodeOIDComponent v ++ rest) 0 = Some (v, rest).
Proof.
  unfold subid_ok, maxOIDSubIdentifier. intros Hv.
  assert (0 <= v / 128) by (apply Z.div_pos; lia).
  assert (v / 128 < 33554432) by (apply Z.div_lt_upper_bound; lia).
  rewrite encodeOIDComponent_hi by lia. rewrite <- app_assoc, read_subid_hi by lia.
  pose proof (Z.mod_pos_bound v 128). cbn [app].
  rewrite read_subid_step by (unfold is_byte; lia). cbn zeta.
  case_if; [|lia]. rewrite Z.mod_mod by lia. pose proof (Z.div_mod v 128). do 2 f_equal. lia.
Qed.

Lemma encodeOIDComponent_ok v :
  subid_ok v -> bytes_ok (encodeOIDComponent v) /\ 0 < len (encodeOIDComponent v) /\
    hd 0 (encodeOIDComponent v) <> 0x80.
Proof.
  unfold subid_ok, maxOIDSubIdentifier. intros Hv. rewrite encodeOIDComponent_hi by lia.
  assert (Hhi : forall fuel v, bytes_ok (varint_hi fuel v)).
  { clear. induction fuel as [|fuel IH]; intros v; cbn [varint_hi]; [constructor|].
    case_if; [constructor|]. apply Forall_app; split; [apply IH|].
    pose proof (Z.mod_pos_bound v 128). solve_bytes. }
  assert (Hhd : forall fuel v d, 0 < v < 128 ^ Z.of_nat fuel -> 128 < hd d (varint_hi fuel v)).
  { clear. induction fuel as [|fuel IH]; intros v d Hv; [simpl in Hv; lia|]. cbn [varint_hi].
    case_if; [lia|]. rewrite Nat2Z.inj_succ, Z.pow_succ_r in Hv by lia.
    pose proof (Z.mod_pos_bound v 128). pose proof (Z.div_mod v 128).
    destruct (Z.eq_dec (v / 128) 0) as [E0|].
    - rewrite E0. assert (varint_hi fuel 0 = []) as -> by (by destruct fuel). simpl. lia.
    - assert (0 <= v / 128) by (apply Z.div_pos; lia).
      specialize (IH (v / 128) d). destruct (varint_hi fuel (v / 128)) as [|x xs] eqn:Ehi; simpl in *.
      + exfalso. destruct fuel as [|fuel]; [simpl in Hv; lia|]. cbn [varint_hi] in Ehi.
        revert Ehi. case_if; [lia|]. intros Ehi. by apply app_eq_nil in Ehi as [_ ?].
      + apply IH. split; [lia|]. apply Z.div_lt_upper_bound; lia. }
  pose proof (Z.mod_pos_bound v 128). split_and!.
  - apply Forall_app; split; [apply Hhi|]. solve_bytes.
  - autorewrite with len. pose proof (len_nonneg (varint_hi 10 (v / 128))). lia.
  - destruct (varint_hi 10 (v / 128)) as [|x xs] eqn:Ehi; simpl; [lia|].
    assert (0 <= v / 128) by (apply Z.div_pos; lia).
    assert (v / 128 < 2 ^ 32) by (apply Z.div_lt_upper_bound; lia).
    destruct (Z.eq_dec (v / 128) 0) as [E0|]; [rewrite E0 in Ehi; done|].
    specialize (Hhd 10%nat (v / 128) 0). rewrite Ehi in Hhd. simpl in Hhd. lia.
Qed.

(** A sub-identifier the decoder reads is one the encoder writes. *)
Lemma read_subid_canonical l : forall acc v l',
  bytes_ok l -> 0 <= acc -> (acc = 0 -> hd 0 l <> 0x80) ->
  read_subid l acc = Some (v, l') -> varint_hi 10 acc ++ l = encodeOIDComponent v ++ l'.
Proof.
  induction l as [|b l IH]; intros acc v l' Hok Ha Hhd Hr; [done|].
  inversion_clear Hok as [|? ? Hb Hl]. pose proof Hb as Hb'. unfold is_byte in Hb'. cbn [hd] in Hhd.
  destruct (Z.le_gt_cases acc 33554431) as [Hle|Hgt]; cycle 1.
  { cbn [read_subid] in Hr. change (Z.shiftr maxOIDSubIdentifier 7) with 33554431 in Hr.
    destruct (33554431 <? acc) eqn:E; [done|lia]. }
  rewrite read_subid_step in Hr by done. cbn zeta in Hr.
  pose proof (Z.mod_pos_bound b 128). pose proof (Z.div_mod b 128).
  assert (Hdiv : (acc * 128 + b mod 128) / 128 = acc).
  { rewrite Z.div_add_l, Z.div_small by lia. lia. }
  assert (Hmod : (acc * 128 + b mod 128) mod 128 = b mod 128).
  { rewrite Z.add_comm, Z.mod_add, Z.mod_mod by lia. done. }
  destruct (b <? 128) eqn:E; zbool.
  - simplify_eq. rewrite encodeOIDComponent_hi by lia.
    rewrite Hdiv, Hmod, Z.mod_small, <- app_assoc by lia. done.
  - assert (b mod 128 = b - 128).
    { replace b with (b - 128 + 1 * 128) at 1 by lia. rewrite Z.mod_add, Z.mod_small; lia. }
    assert (Hpos : 0 < acc * 128 + b mod 128).
    { destruct (Z.eq_dec acc 0); [specialize (Hhd ltac:(done))|]; lia. }
    apply IH in Hr; [|done|lia|lia]. rewrite <- Hr, (varint_hi_step (acc * 128 + b mod 128)) by lia.
    rewrite Hdiv, Hmod, <- app_assoc. do 2 f_equal. cbn [app]. f_equal. lia.
Qed.

(** ** Whole OIDs *)

Lemma read_subids_encode vs : forall fuel,
  Forall subid_ok vs -> len (concat (map encodeOIDComponent vs)) <= Z.of_nat fuel ->
  read_subids fuel (concat (map encodeOIDComponent vs)) = Some vs.
Proof.
  induction vs as [|v vs IH]; intros fuel Hok Hf; cbn [map concat].
  { by destruct fuel. }
  inversion_clear Hok as [|? ? Hv Hvs].
  destruct (encodeOIDComponent_ok v Hv) as (_ & Hlen & Hhd).
  cbn [map concat] in Hf. rewrite len_app in Hf.
  pose proof (len_nonneg (concat (map encodeOIDComponent vs))).
  destruct fuel as [|fuel]; [lia|]. cbn [read_subids].
  destruct (encodeOIDComponent v ++ concat (map encodeOIDComponent vs)) as [|b t] eqn:E.
  { apply (f_equal len) in E. autorewrite with len in E. lia. }
  assert (hd 0 (encodeOIDComponent v) = b).
  { destruct (encodeOIDComponent v) as [|b' t']; [rewrite len_nil in Hlen; lia|]. by simplify_eq/=. }
  destruct (b =? 0x80) eqn:Eb; [lia|]. rewrite <- E, read_subid_encode by done.
  by rewrite IH by (done || lia).
Qed.

Lemma read_subids_canonical fuel : forall l vs,
  bytes_ok l -> read_subids fuel l = Some vs ->
  l = concat (map encodeOIDComponent vs) /\ Forall subid_ok vs.
Proof.
  induction fuel as [|fuel IH]; intros l vs Hok Hr; cbn [read_subids] in Hr.
  { destruct l; [|done]. by simplify_eq. }
  destruct l as [|b l]; [by simplify_eq|].
  destruct (b =? 0x80) eqn:Eb; [done|].
  destruct (read_subid (b :: l) 0) as [[v l']|] eqn:Er; [|done].
  destruct (read_subids fuel l') as [vs'|] eqn:Er'; [|done]. simplify_eq.
  destruct (read_subid_range _ 0 _ _ ltac:(lia) Hok Er) as (Hv & Hl' & _).
  apply read_subid_canonical in Er; [|done|lia|cbn [hd]; lia]. cbn [varint_hi app] in Er.
  destruct (IH _ _ Hl' Er') as [-> Hvs]. cbn [map concat]. split; [done|by constructor].
Qed.

Lemma oidBody_nonempty arcs : arcs_ok arcs -> Forall subid_ok (subids arcs) -> 0 < len (oidBody arcs).
Proof.
  unfold arcs_ok, oidBody. destruct arcs as [|a [|b rest]]; [done|done|]. intros _ Hs.
  inversion_clear Hs as [|? ? Hv _]. cbn [subids map concat]. rewrite len_app.
  destruct (encodeOIDComponent_ok _ Hv) as (_ & ? & _).
  pose proof (len_nonneg (concat (map encodeOIDComponent rest))). lia.
Qed.

Lemma subids_ok arcs : arcs_ok arcs -> Forall subid_ok (subids arcs).
Proof.
  unfold arcs_ok. destruct arcs as [|a [|b rest]]; [done|done|]. intros [Hl Hr]. cbn [subids].
  constructor; [|done]. unfold pair_ok, subid_ok in *. lia.
Qed.

Lemma decodeOID_oidBody arcs : arcs_ok arcs -> decodeOID (oidBody arcs) = dotted arcs.
Proof.
  intros Hok. pose proof (subids_ok arcs Hok) as Hs. pose proof (oidBody_nonempty arcs Hok Hs).
  unfold decodeOID. case_if; [lia|]. unfold oidBody.
  rewrite read_subids_encode by (done || rewrite len_def; lia).
  unfold arcs_ok, pair_ok in Hok. destruct arcs as [|a [|b rest]]; [done|done|].
  cbn [subids]. destruct Hok as [(Ha & Hb & Hlt & Hmax) _].
  assert (Hq : (if 2 <? (40 * a + b) / 40 then 2 else (40 * a + b) / 40) = a).
  { replace (40 * a + b) with (b + a * 40) by lia. rewrite Z.div_add by lia.
    assert (0 <= b / 40) by (apply Z.div_pos; lia).
    destruct (Z.lt_ge_cases a 2); [rewrite Z.div_small by lia|]; case_if; lia. }
  rewrite Hq. replace (40 * a + b - 40 * a) with b by lia. done.
Qed.

(** What the decoder accepts. *)
Lemma decodeOID_accepts l :
  bytes_ok l -> decodeOID l <> [] ->
  exists arcs, arcs_ok arcs /\ decodeOID l = dotted arcs /\ l = oidBody arcs.
Proof.
  intros Hok. unfold decodeOID. case_if; [done|].
  destruct (read_subids (length l) l) as [[|s0 rest]|] eqn:Er; [done| |done]. intros _.
  destruct (read_subids_canonical _ _ _ Hok Er) as [Hl Hs].
  inversion_clear Hs as [|? ? Hs0 Hrest]. unfold subid_ok in Hs0.
  set (first := if 2 <? s0 / 40 then 2 else s0 / 40).
  exists (first :: (s0 - 40 * first) :: rest).
  pose proof (Z.div_mod s0 40). pose proof (Z.mod_pos_bound s0 40).
  assert (0 <= s0 / 40) by (apply Z.div_pos; lia).
  assert (Hf : 0 <= first <= 2 /\ first <= s0 / 40 /\ (first < 2 -> first = s0 / 40))
    by (unfold first; case_if; lia).
  split_and!; [|done|].
  - unfold arcs_ok, pair_ok. split; [|done]. lia.
  - unfold oidBody. cbn [subids]. by replace (40 * first + (s0 - 40 * first)) with s0 by lia.
Qed.

(** The arcs a string names, when every component is an [int]. *)
Definition namedArcs (oid : bytes) : list (Z * bool) :=
  map Atoi (Split dot (TrimPrefix oid (str "."))).

Lemma encode_components_spec ps :
  encode_components ps =
    if forallb (fun '(v, ok) => ok && (0 <=? v) && (v <=? maxOIDSubIdentifier)) (map Atoi ps)
    then Some (concat (map encodeOIDComponent (map fst (map Atoi ps)))) else None.
Proof.
  induction ps as [|p ps IH]; [done|]. cbn [encode_components map forallb].
  destruct (Atoi p) as [v ok]. rewrite IH.
  destruct (negb ok || (v <? 0) || (maxOIDSubIdentifier <? v)) eqn:E.
  - replace (ok && (0 <=? v) && (v <=? maxOIDSubIdentifier)) with false by (destruct ok; simpl in *; lia). done.
  - replace (ok && (0 <=? v) && (v <=? maxOIDSubIdentifier)) with true by (destruct ok; simpl in *; lia).
    cbn [andb]. by case_match.
Qed.

(** [encodeOID] either takes the degenerate path or encodes exactly the arcs
    its argument names. *)
Lemma encodeOID_cases oid :
  encodeOID oid = degenerateOID \/
  (Forall (fun p => snd p = true) (namedArcs oid) /\ arcs_ok (map fst (namedArcs oid)) /\
   len (oidBody (map fst (namedArcs oid))) <= maxOIDBodyBytes /\
   encodeOID oid = tlv ASN1_OID (oidBody (map fst (namedArcs oid)))).
Proof.
  unfold encodeOID, namedArcs.
  destruct (Split dot (TrimPrefix oid (str "."))) as [|p0 [|p1 rest]]; [by left|by left|].
  cbn [map]. pose proof (Atoi_range p1) as Hr.
  destruct (Atoi p0) as [first ok1]. destruct (Atoi p1) as [second ok2]. cbn [fst snd] in *.
  destruct (negb ok1 || negb ok2 || negb (legalOIDArcPair first second)) eqn:E1; [by left|].
  assert (ok1 = true /\ ok2 = true /\ legalOIDArcPair first second = true) as (-> & -> & Hlegal)
    by (destruct ok1, ok2, (legalOIDArcPair first second); done).
  apply (legalOIDArcPair_spec first second Hr) in Hlegal.
  rewrite encode_components_spec. destruct (forallb _ _) eqn:E2; [|by left].
  destruct (maxOIDBodyBytes <? _) eqn:E3; [by left|]. zbool. right.
  rewrite forallb_forall in E2. split_and!.
  - repeat (constructor; [done|]). apply List.Forall_forall. intros [v ok] Hin.
    apply E2 in Hin. simpl in *. by zbool.
  - unfold arcs_ok. split; [done|]. apply List.Forall_forall. intros v Hin.
    apply in_map_iff in Hin as ([v' ok] & <- & Hin). apply E2 in Hin. unfold subid_ok. simpl in *. lia.
  - unfold oidBody. cbn [subids map concat]. done.
  - done.
Qed.

Lemma TrimPrefix_dotted arcs : TrimPrefix (dotted arcs) (str ".") = Join dot (map FormatUint arcs).
Proof. unfold dotted. apply TrimPrefix_here. Qed.

Lemma arcs_ok_range arcs : arcs_ok arcs -> Forall (fun v => 0 <= v <= maxOIDSubIdentifier) arcs.
Proof.
  unfold arcs_ok, pair_ok, subid_ok. destruct arcs as [|a [|b rest]]; [done|done|]. intros [H1 H2].
  unfold maxOIDSubIdentifier in *. constructor; [lia|]. constructor; [lia|]. done.
Qed.

Lemma namedArcs_dotted arcs : arcs_ok arcs -> namedArcs (dotted arcs) = map (fun v => (v, true)) arcs.
Proof.
  intros Hok. pose proof (arcs_ok_range arcs Hok) as Hr. unfold maxOIDSubIdentifier in Hr.
  unfold namedArcs. rewrite TrimPrefix_dotted, Split_Join.
  - rewrite map_map. apply map_ext_in. intros v Hin. rewrite List.Forall_forall in Hr.
    apply Hr in Hin. apply Atoi_FormatUint. unfold MaxInt64. lia.
  - by destruct arcs.
  - apply List.Forall_forall. intros p Hin. apply in_map_iff in Hin as (v & <- & Hin).
    rewrite List.Forall_forall in Hr. apply Hr in Hin. apply FormatUint_no_dot. lia.
Qed.

(** The encoding of a dotted OID of representable arcs. *)
Lemma encodeOID_dotted arcs :
  arcs_ok arcs -> len (oidBody arcs) <= maxOIDBodyBytes ->
  encodeOID (dotted arcs) = tlv ASN1_OID (oidBody arcs).
Proof.
  intros Hok Hl. pose proof (namedArcs_dotted arcs Hok) as Hn. revert Hn.
  unfold encodeOID, namedArcs. unfold arcs_ok in Hok. destruct arcs as [|a [|b rest]]; [done|done|].
  destruct Hok as [Hp Hr].
  destruct (Split dot (TrimPrefix (dotted (a :: b :: rest)) (str "."))) as [|p0 [|p1 ps]]; [done|done|].
  cbn [map]. intros Hn. injection Hn as Hp0 Hp1 Hps. rewrite Hp0, Hp1. cbn [negb orb].
  assert (Hb : int64_range b).
  { unfold pair_ok, int64_range, maxOIDSubIdentifier, MinInt64, MaxInt64 in *. lia. }
  rewrite (proj2 (legalOIDArcPair_spec a b Hb) Hp). cbn [negb].
  rewrite encode_components_spec, Hps.
  replace (map fst (map (fun v => (v, true)) rest)) with rest by (rewrite map_map; symmetry; apply map_id).
  replace (forallb _ _) with true; cycle 1.
  { symmetry. apply forallb_forall. intros [v ok] Hin. apply in_map_iff in Hin as (v' & [= <- <-] & Hin).
    rewrite List.Forall_forall in Hr. apply Hr in Hin. unfold subid_ok in Hin. simpl. lia. }
  unfold oidBody in Hl. cbn [subids map concat] in Hl. case_if; [lia|]. done.
Qed.

Lemma dotted_nonempty arcs : dotted arcs <> [].
Proof. done. Qed.

(** ** Theorems *)

(** An OID of representable arcs survives the wire: [encodeOID] writes one
    TLV whose length [parseLength] reads, and [decodeOID] of its contents is the
    dotted OID again. *)
Theorem oid_encode_decode pre rest arcs :
  arcs_ok arcs -> len (oidBody arcs) <= maxOIDBodyBytes ->
  let data := pre ++ encodeOID (dotted arcs) ++ rest in
  exists n p body, parseLength data (len pre + 1) = Ok (n, p) /\
    slice data p (p + n) = Ok body /\ decodeOID body = dotted arcs /\
    p + n = len pre + len (encodeOID (dotted arcs)).
Proof.
  intros Hok Hl data. subst data. rewrite encodeOID_dotted by done. unfold tlv.
  assert (Hb : bytes_ok (oidBody arcs)).
  { unfold oidBody. pose proof (subids_ok arcs Hok) as Hs.
    induction Hs as [|v vs Hv _ IH]; [constructor|]. cbn [map concat]. apply Forall_app; split; [|done].
    by apply encodeOIDComponent_ok. }
  set (body := oidBody arcs) in *.
  exists (len body), (len pre + 1 + len (encodeLength (len body))), body. split_and!.
  - apply parseLength_tlv. unfold maxOIDBodyBytes, MaxInt32 in *. lia.
  - replace (pre ++ (ASN1_OID :: encodeLength (len body) ++ body) ++ rest)
      with ((pre ++ ASN1_OID :: encodeLength (len body)) ++ body ++ rest)
      by (rewrite <- !app_assoc; simpl; by rewrite <- !app_assoc).
    replace (len pre + 1 + len (encodeLength (len body)))
      with (len (pre ++ ASN1_OID :: encodeLength (len body))) by (autorewrite with len; lia).
    apply slice_app_here.
  - by apply decodeOID_oidBody.
  - autorewrite with len. lia.
Qed.

Lemma oid_encode_decode_witness :
  let data := [5] ++ encodeOID (dotted [1; 3; 6; 1; 4; 1; 4294967295]) ++ [] in
  exists n p body, parseLength data (1 + 1) = Ok (n, p) /\
    slice data p (p + n) = Ok body /\ decodeOID body = dotted [1; 3; 6; 1; 4; 1; 4294967295] /\
    p + n = 1 + len (encodeOID (dotted [1; 3; 6; 1; 4; 1; 4294967295])).
Proof.
  apply (oid_encode_decode [5] [] [1; 3; 6; 1; 4; 1; 4294967295]).
  - unfold arcs_ok, pair_ok, subid_ok, maxOIDSubIdentifier. split; [lia|].
    repeat (constructor; [lia|]). constructor.
  - vm_compute. discriminate.
Defined.

(** The decoder is canonical: octets it accepts are, octet for octet, the
    contents [encodeOID] writes for the dotted OID it answers, so no two wire
    forms name one OID and none is dropped or altered. *)
Theorem oid_decode_encode l :
  bytes_ok l -> len l <= maxOIDBodyBytes -> decodeOID l <> [] ->
  encodeOID (decodeOID l) = tlv ASN1_OID l.
Proof.
  intros Hok Hl Hd. destruct (decodeOID_accepts l Hok Hd) as (arcs & Ha & -> & Hb).
  rewrite Hb in *. by apply encodeOID_dotted.
Qed.

Lemma oid_decode_encode_witness :
  encodeOID (decodeOID [0x2b; 6; 1; 0x8f; 0x65]) = tlv ASN1_OID [0x2b; 6; 1; 0x8f; 0x65].
Proof.
  apply (oid_decode_encode [0x2b; 6; 1; 0x8f; 0x65]); [solve_bytes|vm_compute; discriminate..].
Defined.

(** The encoder never fabricates an OID: unless it answers the degenerate
    [06 00], every component of the string parsed as a number in range and the
    octets decode to exactly those numbers. *)
Theorem oid_no_fabrication v :
  encodableAsOID v = true ->
  exists arcs, namedArcs v = map (fun a => (a, true)) arcs /\ arcs_ok arcs /\
    encodeOID v = tlv ASN1_OID (oidBody arcs) /\ decodeOID (oidBody arcs) = dotted arcs.
Proof.
  unfold encodableAsOID, beq. intros He. zbool.
  destruct (encodeOID_cases v) as [|(Hall & Hok & _ & Henc)]; [done|].
  exists (map fst (namedArcs v)). split_and!; [|done|done|by apply decodeOID_oidBody].
  clear -Hall. induction Hall as [|[a b] l Hb _ IH]; [done|]. simpl in *. subst. by f_equal.
Qed.

Lemma oid_no_fabrication_witness :
  exists arcs, namedArcs (str "1.3.6.1.2.1.1.5.0") = map (fun a => (a, true)) arcs /\ arcs_ok arcs /\
    encodeOID (str "1.3.6.1.2.1.1.5.0") = tlv ASN1_OID (oidBody arcs) /\
    decodeOID (oidBody arcs) = dotted arcs.
Proof. apply (oid_no_fabrication (str "1.3.6.1.2.1.1.5.0")). reflexivity. Defined.
