(* ===== verification/TypedValue.v ===== *)
(** * SNMP application types (snmp_encoding.go)

    Which ASN.1 tag a value is encoded under: the type table, its boundary-aware
    prefix match, and [encodeTypedValue].  The theorems show that the order of the
    table's rows is irrelevant, and that whatever the value, the encoder emits
    exactly one TLV, under the declared tag or under the documented fallback. *)

From S2P Require Import Prelude GoStrings Ber Oid.

(** ** The parts of net.ParseIP the encoder uses

    [netip.ParseAddr] with the IPv4 and IPv6 grammars, and [IP.To4]. *)

(** [parseIPv4Fields]: the loop, with [prev_dot] for [i == 0 || s[i-1] == '.'].
    [None] is an error. *)
Fixpoint ipv4_fields (s : bytes) (prev_dot : bool) (val digLen : Z) (fields : bytes) : option bytes :=
  match s with
  | [] => if len fields <? 3 then None else Some (fields ++ [u8 val])
  | c :: s' =>
      if is_digit c then
        if (digLen =? 1) && (val =? 0) then None else
        let val := val * 10 + (c - 48) in
        if 255 <? val then None else ipv4_fields s' false val (digLen + 1) fields
      else if c =? dot then
        if prev_dot || beq s' [] then None else
        if len fields =? 3 then None else
        ipv4_fields s' true 0 0 (fields ++ [u8 val])
      else None
  end.
Definition parseIPv4 (s : bytes) : option bytes := ipv4_fields s true 0 0 [].

Definition hex_digit (c : Z) : option Z :=
  if is_digit c then Some (c - 48)
  else if (97 <=? c) && (c <=? 102) then Some (c - 87)
  else if (65 <=? c) && (c <=? 70) then Some (c - 55)
  else None.

(** One group of hex digits: value, digit count, rest; [None] past four. *)
Fixpoint hex_group (s : bytes) (acc off : Z) : option (Z * Z * bytes) :=
  match s with
  | [] => Some (acc, off, [])
  | c :: s' =>
      match hex_digit c with
      | None => Some (acc, off, s)
      | Some d => if 3 <? off then None else hex_group s' (acc * 16 + d) (off + 1)
      end
  end.

Definition colon : Z := 58.

(** The loop of [parseIPv6] over at most eight groups, with the final ellipsis
    expansion; [ip] is what has been parsed, [ell] the ellipsis position. *)
Definition ipv6_finish (ip : bytes) (ell : option nat) (s : bytes) : option bytes :=
  if negb (beq s []) then None else
  match ell with
  | Some e => if len ip <? 16
              then Some (take e ip ++ repeat 0 (16 - length ip) ++ drop e ip) else None
  | None => if len ip <? 16 then None else Some ip
  end.

Fixpoint ipv6_loop (fuel : nat) (s : bytes) (ip : bytes) (ell : option nat) : option bytes :=
  match fuel with
  | O => ipv6_finish ip ell s
  | S fuel' =>
      match hex_group s 0 0 with
      | None => None
      | Some (acc, off, rest) =>
          if off =? 0 then None else
          match rest with
          | 46 :: _ =>
              if match ell with None => negb (len ip =? 12) | Some _ => false end then None else
              if 16 <? len ip + 4 then None else
              match parseIPv4 s with
              | None => None
              | Some v4 => ipv6_finish (ip ++ v4) ell []
              end
          | _ =>
              let ip := ip ++ [u8 (Z.shiftr acc 8); u8 acc] in
              match rest with
              | [] => ipv6_finish ip ell []
              | 58 :: [] => None
              | 58 :: (58 :: rest') =>
                  match ell with
                  | Some _ => None
                  | None =>
                      match rest' with
                      | [] => ipv6_finish ip (Some (length ip)) []
                      | _ => ipv6_loop fuel' rest' ip (Some (length ip))
                      end
                  end
              | 58 :: rest' => ipv6_loop fuel' rest' ip ell
              | _ => None
              end
          end
      end
  end.

(** An address with a zone is refused by [net.ParseIP], an empty zone by the
    parser, so any [%] is a failure. *)
Definition parseIPv6 (s : bytes) : option bytes :=
  if existsb (fun c => c =? 37) s then None else
  match s with
  | 58 :: 58 :: [] => Some (repeat 0 16)
  | 58 :: 58 :: s' => ipv6_loop 8 s' [] (Some 0%nat)
  | _ => ipv6_loop 8 s [] None
  end.

(** [netip.ParseAddr]: the first of [.], [:], [%] decides the family. *)
Fixpoint addr_family (s : bytes) : option Z :=
  match s with
  | [] => None
  | c :: s' => if (c =? dot) || (c =? colon) || (c =? 37) then Some c else addr_family s'
  end.

(** [net.ParseIP(s).To4()]. *)
Definition ParseIP_To4 (s : bytes) : option bytes :=
  match addr_family s with
  | Some 46 => parseIPv4 s
  | Some 58 =>
      match parseIPv6 s with
      | Some ip => if beq (take 12 ip) (repeat 0 10 ++ [0xff; 0xff]) then Some (drop 12 ip) else None
      | None => None
      end
  | _ => None
  end.

Definition encodeIPAddress (ipStr : bytes) : bytes :=
  match ParseIP_To4 ipStr with
  | Some ip4 => [ASN1_IPADDRESS; 0x04] ++ ip4
  | None => encodeOctetString ipStr
  end.

(** ** The type table *)

Record oidTypeEntry := mkEntry { prefix : bytes; tag : Z }.

Definition oidTypeTable : list oidTypeEntry := [
  mkEntry (str ".1.3.6.1.2.1.1.2") ASN1_OBJECT_ID;
  mkEntry (str ".1.3.6.1.2.1.1.3") ASN1_TIMETICKS;
  mkEntry (str ".1.3.6.1.2.1.47.1.1.1.1.3") ASN1_OBJECT_ID;
  mkEntry (str ".1.3.6.1.2.1.2.2.1.5") ASN1_GAUGE32;
  mkEntry (str ".1.3.6.1.2.1.2.2.1.9") ASN1_TIMETICKS;
  mkEntry (str ".1.3.6.1.2.1.2.2.1.10") ASN1_COUNTER32;
  mkEntry (str ".1.3.6.1.2.1.2.2.1.11") ASN1_COUNTER32;
  mkEntry (str ".1.3.6.1.2.1.2.2.1.12") ASN1_COUNTER32;
  mkEntry (str ".1.3.6.1.2.1.2.2.1.13") ASN1_COUNTER32;
  mkEntry (str ".1.3.6.1.2.1.2.2.1.14") ASN1_COUNTER32;
  mkEntry (str ".1.3.6.1.2.1.2.2.1.15") ASN1_COUNTER32;
  mkEntry (str ".1.3.6.1.2.1.2.2.1.16") ASN1_COUNTER32;
  mkEntry (str ".1.3.6.1.2.1.2.2.1.17") ASN1_COUNTER32;
  mkEntry (str ".1.3.6.1.2.1.2.2.1.18") ASN1_COUNTER32;
  mkEntry (str ".1.3.6.1.2.1.2.2.1.19") ASN1_COUNTER32;
  mkEntry (str ".1.3.6.1.2.1.2.2.1.20") ASN1_COUNTER32;
  mkEntry (str ".1.3.6.1.2.1.2.2.1.21") ASN1_GAUGE32;
  mkEntry (str ".1.3.6.1.2.1.31.1.1.1.2") ASN1_COUNTER32;
  mkEntry (str ".1.3.6.1.2.1.31.1.1.1.3") ASN1_COUNTER32;
  mkEntry (str ".1.3.6.1.2.1.31.1.1.1.4") ASN1_COUNTER32;
  mkEntry (str ".1.3.6.1.2.1.31.1.1.1.5") ASN1_COUNTER32;
  mkEntry (str ".1.3.6.1.2.1.31.1.1.1.6") ASN1_COUNTER64;
  mkEntry (str ".1.3.6.1.2.1.31.1.1.1.7") ASN1_COUNTER64;
  mkEntry (str ".1.3.6.1.2.1.31.1.1.1.8") ASN1_COUNTER64;
  mkEntry (str ".1.3.6.1.2.1.31.1.1.1.9") ASN1_COUNTER64;
  mkEntry (str ".1.3.6.1.2.1.31.1.1.1.10") ASN1_COUNTER64;
  mkEntry (str ".1.3.6.1.2.1.31.1.1.1.11") ASN1_COUNTER64;
  mkEntry (str ".1.3.6.1.2.1.31.1.1.1.12") ASN1_COUNTER64;
  mkEntry (str ".1.3.6.1.2.1.31.1.1.1.13") ASN1_COUNTER64;
  mkEntry (str ".1.3.6.1.2.1.31.1.1.1.15") ASN1_GAUGE32;
  mkEntry (str ".1.3.6.1.2.1.31.1.1.1.19") ASN1_TIMETICKS;
  mkEntry (str ".1.3.6.1.2.1.4.31.1.1.4") ASN1_COUNTER64;
  mkEntry (str ".1.3.6.1.2.1.4.31.1.1.6") ASN1_COUNTER64;
  mkEntry (str ".1.3.6.1.2.1.4.31.1.1.13") ASN1_COUNTER64;
  mkEntry (str ".1.3.6.1.2.1.4.31.1.1.19") ASN1_COUNTER64;
  mkEntry (str ".1.3.6.1.2.1.4.31.1.1.21") ASN1_COUNTER64;
  mkEntry (str ".1.3.6.1.2.1.4.31.1.1.24") ASN1_COUNTER64;
  mkEntry (str ".1.3.6.1.2.1.4.31.1.1.31") ASN1_COUNTER64;
  mkEntry (str ".1.3.6.1.2.1.4.31.1.1.33") ASN1_COUNTER64;
  mkEntry (str ".1.3.6.1.2.1.4.31.1.1.35") ASN1_COUNTER64;
  mkEntry (str ".1.3.6.1.2.1.4.31.1.1.37") ASN1_COUNTER64;
  mkEntry (str ".1.3.6.1.2.1.4.31.1.1.39") ASN1_COUNTER64;
  mkEntry (str ".1.3.6.1.2.1.4.31.1.1.41") ASN1_COUNTER64;
  mkEntry (str ".1.3.6.1.2.1.4.31.1.1.43") ASN1_COUNTER64;
  mkEntry (str ".1.3.6.1.2.1.4.31.1.1.45") ASN1_COUNTER64;
  mkEntry (str ".1.3.6.1.2.1.4.31.3.1.4") ASN1_COUNTER64;
  mkEntry (str ".1.3.6.1.2.1.4.31.3.1.6") ASN1_COUNTER64;
  mkEntry (str ".1.3.6.1.2.1.4.31.3.1.13") ASN1_COUNTER64;
  mkEntry (str ".1.3.6.1.2.1.4.31.3.1.19") ASN1_COUNTER64;
  mkEntry (str ".1.3.6.1.2.1.4.31.3.1.21") ASN1_COUNTER64;
  mkEntry (str ".1.3.6.1.2.1.4.31.3.1.24") ASN1_COUNTER64;
  mkEntry (str ".1.3.6.1.2.1.4.31.3.1.31") ASN1_COUNTER64;
  mkEntry (str ".1.3.6.1.2.1.4.31.3.1.33") ASN1_COUNTER64;
  mkEntry (str ".1.3.6.1.2.1.4.31.3.1.35") ASN1_COUNTER64;
  mkEntry (str ".1.3.6.1.2.1.4.31.3.1.37") ASN1_COUNTER64;
  mkEntry (str ".1.3.6.1.2.1.4.31.3.1.39") ASN1_COUNTER64;
  mkEntry (str ".1.3.6.1.2.1.4.31.3.1.41") ASN1_COUNTER64;
  mkEntry (str ".1.3.6.1.2.1.4.31.3.1.43") ASN1_COUNTER64;
  mkEntry (str ".1.3.6.1.2.1.4.31.3.1.45") ASN1_COUNTER64;
  mkEntry (str ".1.3.6.1.2.1.10.7.11.1.1") ASN1_COUNTER64;
  mkEntry (str ".1.3.6.1.2.1.10.7.11.1.2") ASN1_COUNTER64;
  mkEntry (str ".1.3.6.1.2.1.10.7.11.1.3") ASN1_COUNTER64;
  mkEntry (str ".1.3.6.1.2.1.10.7.11.1.4") ASN1_COUNTER64;
  mkEntry (str ".1.3.6.1.2.1.10.7.11.1.5") ASN1_COUNTER64;
  mkEntry (str ".1.3.6.1.2.1.10.7.11.1.6") ASN1_COUNTER64;
  mkEntry (str ".1.3.6.1.2.1.4.20.1.1") ASN1_IPADDRESS;
  mkEntry (str ".1.3.6.1.2.1.4.20.1.3") ASN1_IPADDRESS;
  mkEntry (str ".1.3.6.1.2.1.4.21.1.1") ASN1_IPADDRESS;
  mkEntry (str ".1.3.6.1.2.1.4.21.1.7") ASN1_IPADDRESS;
  mkEntry (str ".1.3.6.1.2.1.4.21.1.11") ASN1_IPADDRESS;
  mkEntry (str ".1.3.6.1.2.1.4.22.1.3") ASN1_IPADDRESS;
  mkEntry (str ".1.3.6.1.2.1.31.1.1.1.18") ASN1_OCTET_STRING;
  mkEntry (str ".1.3.6.1.6.3.15.1.1") ASN1_COUNTER32;
  mkEntry (str ".1.3.6.1.4.1.9.2.1.8") ASN1_GAUGE32;
  mkEntry (str ".1.0.8802.1.1.2.1.3.2") ASN1_OCTET_STRING;
  mkEntry (str ".1.0.8802.1.1.2.1.3.3") ASN1_OCTET_STRING;
  mkEntry (str ".1.0.8802.1.1.2.1.3.4") ASN1_OCTET_STRING;
  mkEntry (str ".1.0.8802.1.1.2.1.3.7.1.3") ASN1_OCTET_STRING;
  mkEntry (str ".1.0.8802.1.1.2.1.3.7.1.4") ASN1_OCTET_STRING;
  mkEntry (str ".1.0.8802.1.1.2.1.4.1.1.5") ASN1_OCTET_STRING;
  mkEntry (str ".1.0.8802.1.1.2.1.4.1.1.7") ASN1_OCTET_STRING;
  mkEntry (str ".1.0.8802.1.1.2.1.4.1.1.8") ASN1_OCTET_STRING;
  mkEntry (str ".1.0.8802.1.1.2.1.4.1.1.9") ASN1_OCTET_STRING;
  mkEntry (str ".1.0.8802.1.1.2.1.4.1.1.10") ASN1_OCTET_STRING].

(** [len(oid) >= len(p) && oid[:len(p)] == p && (len(oid) == len(p) ||
    oid[len(p)] == '.')]. *)
Definition entryMatches (e : oidTypeEntry) (oid : bytes) : bool :=
  (len (prefix e) <=? len oid) && beq (take (length (prefix e)) oid) (prefix e) &&
  ((len oid =? len (prefix e)) ||
   match oid !! length (prefix e) with Some c => c =? dot | None => false end).

Fixpoint typeTagIn (table : list oidTypeEntry) (oid : bytes) : Z :=
  match table with
  | [] => 0
  | e :: table' => if entryMatches e oid then tag e else typeTagIn table' oid
  end.

Definition snmpTypeTag (oid : bytes) : Z := typeTagIn oidTypeTable oid.

(** ** Typed values *)

Definition valueNoSuchObject : bytes := str "noSuchObject".
Definition valueEndOfMibView : bytes := str "endOfMibView".
Definition isSNMPExceptionValue (v : bytes) : bool :=
  beq v valueNoSuchObject || beq v valueEndOfMibView.

Definition encodeTypedValueAtTag (oid value : bytes) (tag : Z) : bytes :=
  if tag =? ASN1_OCTET_STRING then encodeOctetString value
  else if tag =? ASN1_OBJECT_ID then encodeOID value
  else if tag =? ASN1_IPADDRESS then encodeIPAddress value
  else if (tag =? ASN1_COUNTER32) || (tag =? ASN1_GAUGE32) || (tag =? ASN1_TIMETICKS) then
    match ParseUint value 32 with
    | (u, None) => encodeUnsigned32 tag (u32 u)
    | _ =>
        match ParseInt value 32 with
        | (i, None) => encodeUnsigned32 tag (u32 (s32 i))
        | _ => encodeOctetString value
        end
    end
  else if tag =? ASN1_COUNTER64 then
    match ParseUint value 64 with
    | (u, None) => encodeCounter64 u
    | _ => encodeOctetString value
    end
  else
    match Atoi value with
    | (i, true) => encodeInteger i
    | _ => encodeOctetString value
    end.

Definition encodeTypedValue (oid value : bytes) : bytes :=
  if beq value valueEndOfMibView then [0x82; 0x00]
  else if beq value valueNoSuchObject then [0x80; 0x00]
  else encodeTypedValueAtTag oid value (snmpTypeTag oid).

(** ** The table's rows do not shadow one another *)

Lemma entryMatches_spec e oid :
  entryMatches e oid = true <-> exists r, oid = prefix e ++ r /\ (r = [] \/ hd_error r = Some dot).
Proof.
  unfold entryMatches, beq. split.
  - intros H. zbool. rewrite <- (take_drop (length (prefix e)) oid). exists (drop (length (prefix e)) oid).
    split; [congruence|]. destruct (drop (length (prefix e)) oid) as [|c r] eqn:Ed; [by left|right].
    simpl. assert (Hc : oid !! length (prefix e) = Some c).
    { rewrite <- (Nat.add_0_r (length (prefix e))), <- lookup_drop, Ed. done. }
    rewrite Hc in *. match goal with H : _ || _ = true |- _ => apply orb_true_iff in H as [H|H] end; zbool; [|congruence].
    apply lookup_lt_Some in Hc. unfold len in *. lia.
  - intros (r & -> & Hr). rewrite len_app, take_app_length, bool_decide_true by done.
    pose proof (len_nonneg r). apply andb_true_iff; split; [apply andb_true_iff; split; [lia|done]|].
    destruct Hr as [->|Hr]; [rewrite len_nil; lia|]. destruct r as [|c r]; [done|]. simpl in Hr.
    simplify_eq. rewrite lookup_app_r, Nat.sub_diag by lia. simpl. lia.
Qed.

(** Two rows that match one OID: the shorter prefix matches the longer one. *)
Lemma entryMatches_nested e1 e2 oid :
  entryMatches e1 oid = true -> entryMatches e2 oid = true ->
  (length (prefix e1) <= length (prefix e2))%nat -> entryMatches e1 (prefix e2) = true.
Proof.
  rewrite !entryMatches_spec. intros (r1 & -> & H1) (r2 & Heq & H2) Hle.
  apply app_eq_inv in Heq as [(k & Hp & Hr)|(k & Hp & Hr)].
  - rewrite Hp, length_app in Hle. assert (k = []) as -> by (destruct k; [done|simpl in Hle; lia]).
    rewrite app_nil_r in Hp. exists []. rewrite app_nil_r. auto.
  - exists k. split; [done|]. destruct k as [|c k]; [by left|right].
    rewrite Hr in H1. destruct H1 as [|H1]; [done|]. exact H1.
Qed.

(** Any row that matches decides the tag, whatever its place. *)
Lemma typeTagIn_unambiguous table oid e :
  (forall e1 e2, In e1 table -> In e2 table -> entryMatches e1 oid = true ->
     entryMatches e2 oid = true -> tag e1 = tag e2) ->
  In e table -> entryMatches e oid = true -> typeTagIn table oid = tag e.
Proof.
  induction table as [|e' table IH]; intros Hun Hin Hm; [done|]. cbn [typeTagIn].
  destruct (entryMatches e' oid) eqn:E; [apply Hun; simpl; auto|].
  destruct Hin as [->|Hin]; [congruence|]. apply IH; try done. intros; apply Hun; simpl; auto.
Qed.

Lemma typeTagIn_none table oid :
  (forall e, In e table -> entryMatches e oid = false) -> typeTagIn table oid = 0.
Proof.
  induction table as [|e table IH]; intros H; [done|]. cbn [typeTagIn].
  rewrite H by (simpl; auto). apply IH. intros; apply H; simpl; auto.
Qed.

Lemma oidTypeTable_nested :
  forallb (fun e1 => forallb (fun e2 => negb (entryMatches e1 (prefix e2)) || (tag e1 =? tag e2))
    oidTypeTable) oidTypeTable = true.
Proof. vm_compute. reflexivity. Qed.

Lemma oidTypeTable_unambiguous oid e1 e2 :
  In e1 oidTypeTable -> In e2 oidTypeTable -> entryMatches e1 oid = true ->
  entryMatches e2 oid = true -> tag e1 = tag e2.
Proof.
  intros H1 H2 M1 M2. pose proof oidTypeTable_nested as Hn. rewrite forallb_forall in Hn.
  assert (Hsym : forall a b, In a oidTypeTable -> In b oidTypeTable -> entryMatches a (prefix b) = true -> tag a = tag b).
  { intros a b Ha Hb Hm. specialize (Hn a Ha). rewrite forallb_forall in Hn. specialize (Hn b Hb).
    rewrite Hm in Hn. simpl in Hn. lia. }
  destruct (Nat.le_ge_cases (length (prefix e1)) (length (prefix e2))).
  - apply Hsym; try done. by eapply entryMatches_nested.
  - symmetry. apply Hsym; try done. by eapply entryMatches_nested.
Qed.

(** ** Shape of an encoded value *)

Lemma ipv4_fields_len s : forall pd val dl fields ip,
  len fields <= 3 -> ipv4_fields s pd val dl fields = Some ip -> len ip = 4.
Proof.
  induction s as [|c s IH]; intros pd val dl fields ip Hf; cbn [ipv4_fields].
  - case_if; [done|]. intros [= <-]. autorewrite with len. lia.
  - repeat case_if; try done; intros Hr; eapply IH in Hr; try done. autorewrite with len. lia.
Qed.

Lemma parseIPv4_len s ip : parseIPv4 s = Some ip -> len ip = 4.
Proof. apply ipv4_fields_len. rewrite len_nil. lia. Qed.

Lemma ipv6_finish_len ip ell s r : len ip <= 16 -> ipv6_finish ip ell s = Some r -> len r = 16.
Proof.
  unfold ipv6_finish. intros Hl. case_if; [done|]. destruct ell as [e|]; case_if; intros [= <-]; try lia.
  assert (Hrep : forall n, len (repeat 0 n) = Z.of_nat n) by (intros n; unfold len; by rewrite repeat_length).
  rewrite !len_app, Hrep, len_take, len_drop. unfold len in *. lia.
Qed.

Lemma ipv6_loop_len fuel : forall s ip ell r,
  len ip + 2 * Z.of_nat fuel = 16 -> ipv6_loop fuel s ip ell = Some r -> len r = 16.
Proof.
  induction fuel as [|fuel IH]; intros s ip ell r Hl; cbn [ipv6_loop].
  { apply ipv6_finish_len. lia. }
  destruct (hex_group s 0 0) as [[[acc off] rest]|]; [|done]. case_if; [done|].
  assert (Hnext : len (ip ++ [u8 (Z.shiftr acc 8); u8 acc]) + 2 * Z.of_nat fuel = 16)
    by (autorewrite with len; lia).
  assert (Hfin : forall e t, ipv6_finish (ip ++ [u8 (Z.shiftr acc 8); u8 acc]) e t = Some r -> len r = 16)
    by (intros e t; apply ipv6_finish_len; lia).
  assert (Hv4 : forall v4 e, (16 <? len ip + 4) = false -> parseIPv4 s = Some v4 ->
    ipv6_finish (ip ++ v4) e [] = Some r -> len r = 16).
  { intros v4 e H16 H4 Hf. apply parseIPv4_len in H4. eapply ipv6_finish_len; [|exact Hf].
    rewrite len_app. lia. }
  repeat case_match; try done; eauto.
Qed.

Lemma parseIPv6_len s r : parseIPv6 s = Some r -> len r = 16.
Proof.
  unfold parseIPv6. case_if; [done|].
  assert (Hl : forall s' e, ipv6_loop 8 s' [] e = Some r -> len r = 16)
    by (intros s' e; apply ipv6_loop_len; rewrite len_nil; lia).
  repeat case_match; eauto. by intros [= <-].
Qed.

Lemma ParseIP_To4_len s ip : ParseIP_To4 s = Some ip -> len ip = 4.
Proof.
  unfold ParseIP_To4. destruct (addr_family s) as [c|]; [|done].
  destruct (parseIPv6 s) as [r|] eqn:E6.
  - apply parseIPv6_len in E6. repeat case_match; try done; try apply parseIPv4_len.
    intros [= <-]. rewrite len_drop. lia.
  - repeat case_match; try done; apply parseIPv4_len.
Qed.

Definition declaredTags : list Z :=
  [ASN1_OCTET_STRING; ASN1_OBJECT_ID; ASN1_IPADDRESS; ASN1_COUNTER32; ASN1_GAUGE32; ASN1_TIMETICKS;
   ASN1_COUNTER64].

Lemma oidTypeTable_tags :
  forallb (fun e => existsb (Z.eqb (tag e)) declaredTags) oidTypeTable = true.
Proof. vm_compute. reflexivity. Qed.

Lemma snmpTypeTag_cases oid : snmpTypeTag oid = 0 \/ In (snmpTypeTag oid) declaredTags.
Proof.
  unfold snmpTypeTag. pose proof oidTypeTable_tags as H. induction oidTypeTable as [|e t IH]; [by left|].
  cbn [typeTagIn]. cbn [forallb] in H. apply andb_true_iff in H as [He Ht].
  case_if; [right|by apply IH]. apply existsb_exists in He as (x & Hx & Hex). apply Z.eqb_eq in Hex. congruence.
Qed.

Lemma encodeUnsigned32_tlv t v :
  0 <= v < 2 ^ 32 -> exists body, encodeUnsigned32 t v = tlv t body /\ be_val 0 body = v.
Proof.
  intros Hv. destruct (encodeUnsigned32_body t v Hv) as (b0 & l & -> & _ & Hl & Hval & _).
  exists (b0 :: l). split; [|done]. unfold tlv. pose proof (len_nonneg l).
  by rewrite len_cons, encodeLength_short by lia.
Qed.

Lemma encodeCounter64_tlv v :
  0 <= v < 2 ^ 64 -> exists body, encodeCounter64 v = tlv ASN1_COUNTER64 body /\ be_val 0 body = v.
Proof.
  intros Hv. destruct (encodeCounter64_body v Hv) as (b0 & l & -> & _ & Hl & Hval & _).
  exists (b0 :: l). split; [|done]. unfold tlv. pose proof (len_nonneg l).
  by rewrite len_cons, encodeLength_short by lia.
Qed.

Lemma encodeOID_tlv v : exists body, encodeOID v = tlv ASN1_OID body.
Proof. destruct (encodeOID_cases v) as [->|(_ & _ & _ & ->)]; [by exists []|by eexists]. Qed.

Lemma encodeIPAddress_tlv v :
  (exists body, encodeIPAddress v = tlv ASN1_IPADDRESS body) \/
  encodeIPAddress v = tlv ASN1_OCTET_STRING v.
Proof.
  unfold encodeIPAddress. destruct (ParseIP_To4 v) as [ip|] eqn:E; [left|by right].
  apply ParseIP_To4_len in E. exists ip. unfold tlv. by rewrite E, encodeLength_short.
Qed.

Lemma parse_digits_range max l : forall n v e, 0 <= n <= max ->
  parse_digits max n l = (v, e) -> 0 <= v <= max.
Proof.
  induction l as [|c l IH]; intros n v e Hn; cbn [parse_digits]; [intros [= <- <-]; done|].
  unfold is_digit. repeat case_if; try (intros [= <- <-]; lia). intros Hr. eapply IH, Hr. lia.
Qed.

Lemma ParseUint_range s bits v e : 0 <= bits -> ParseUint s bits = (v, e) -> 0 <= v < 2 ^ bits.
Proof.
  intros Hb. assert (0 < 2 ^ bits) by (apply Z.pow_pos_nonneg; lia).
  destruct s; [intros [= <- <-]; lia|]. unfold ParseUint. intros H'. apply parse_digits_range in H'; lia.
Qed.

(** The type of the value [encodeTypedValueAtTag] writes under a declared tag. *)
Lemma encodeTypedValueAtTag_tlv oid value t :
  t = 0 \/ In t declaredTags ->
  exists t' body, encodeTypedValueAtTag oid value t = tlv t' body /\
    (t' = t \/ (t' = ASN1_OCTET_STRING /\ body = value) \/ (t = 0 /\ t' = ASN1_INTEGER)).
Proof.
  intros Ht. unfold encodeTypedValueAtTag.
  assert (Hs : exists t' body, encodeOctetString value = tlv t' body /\
    (t' = t \/ (t' = ASN1_OCTET_STRING /\ body = value) \/ (t = 0 /\ t' = ASN1_INTEGER)))
    by (exists ASN1_OCTET_STRING, value; auto).
  assert (Hu : forall u, exists t' body, encodeUnsigned32 t (u32 u) = tlv t' body /\
    (t' = t \/ (t' = ASN1_OCTET_STRING /\ body = value) \/ (t = 0 /\ t' = ASN1_INTEGER))).
  { intros u. destruct (encodeUnsigned32_tlv t (u32 u)) as (body & -> & _); [|by eauto].
    unfold u32. pose proof (Z.mod_pos_bound u (2 ^ 32)). lia. }
  case_if; [done|]. case_if.
  { subst. destruct (encodeOID_tlv value) as [body ->]. by eauto. }
  case_if.
  { subst. destruct (encodeIPAddress_tlv value) as [[body ->]| ->]; eauto 10. }
  case_if. { destruct (ParseUint value 32) as [u [e|]]; [|done]. by destruct (ParseInt value 32) as [i [e'|]]. }
  case_if.
  { destruct (ParseUint value 64) as [u [e|]] eqn:Eu; [done|]. apply ParseUint_range in Eu; [|lia].
    destruct (encodeCounter64_tlv u Eu) as (body & -> & _). subst. eauto. }
  assert (t = 0) as ->.
  { destruct Ht as [|Ht]; [done|]. unfold declaredTags in Ht. cbn [In] in Ht.
    unfold ASN1_OBJECT_ID in *. intuition lia. }
  destruct (Atoi value) as [i [|]]; [|done]. rewrite encodeInteger_tlv. eauto 10.
Qed.

Lemma encodeTypedValue_tlv oid value : exists t body, encodeTypedValue oid value = tlv t body.
Proof.
  unfold encodeTypedValue. case_if; [by exists 0x82, []|]. case_if; [by exists 0x80, []|].
  destruct (encodeTypedValueAtTag_tlv oid value _ (snmpTypeTag_cases oid)) as (t & body & -> & _). eauto.
Qed.

(** ** Theorems *)

(** The order of the rows of [oidTypeTable] is irrelevant: every permutation
    of the table gives every OID the same type, because no two rows that can match
    one OID disagree. *)
Theorem oidTypeTable_order_irrelevant table oid :
  Permutation oidTypeTable table -> typeTagIn table oid = snmpTypeTag oid.
Proof.
  intros Hp. unfold snmpTypeTag. pose proof (oidTypeTable_unambiguous oid) as Hun.
  destruct (existsb (fun e => entryMatches e oid) oidTypeTable) eqn:E.
  - apply existsb_exists in E as (e & He & Hm). rewrite (typeTagIn_unambiguous oidTypeTable _ e) by done.
    apply typeTagIn_unambiguous; [|by apply (Permutation_in _ Hp)|done].
    intros e1 e2 H1 H2. symmetry in Hp.
    apply Hun; by apply (Permutation_in _ Hp).
  - assert (Hno : forall e, In e oidTypeTable -> entryMatches e oid = false).
    { intros e He. destruct (entryMatches e oid) eqn:Em; [|done].
      assert (Hx : existsb (fun e => entryMatches e oid) oidTypeTable = true) by (apply existsb_exists; eauto).
      congruence. }
    rewrite !typeTagIn_none; [done|done|]. intros e He. apply Hno. symmetry in Hp. by apply (Permutation_in _ Hp).
Qed.

Lemma oidTypeTable_order_irrelevant_witness :
  typeTagIn (rev oidTypeTable) (str ".1.3.6.1.2.1.31.1.1.1.10.7") =
    snmpTypeTag (str ".1.3.6.1.2.1.31.1.1.1.10.7").
Proof.
  apply (oidTypeTable_order_irrelevant (rev oidTypeTable)). apply Permutation_rev.
Defined.

(** Every value is encoded as exactly one TLV: an exception sentinel as the
    empty context tag of RFC 3416, anything else under the tag the table declares
    for the OID, or as an OCTET STRING holding the value verbatim, or (only where
    no type is declared) as an INTEGER. *)
Theorem typed_value_shape oid value :
  exists t body, encodeTypedValue oid value = tlv t body /\
    if isSNMPExceptionValue value then (t = 0x80 \/ t = 0x82) /\ body = []
    else t = snmpTypeTag oid \/ (t = ASN1_OCTET_STRING /\ body = value) \/
         (snmpTypeTag oid = 0 /\ t = ASN1_INTEGER).
Proof.
  unfold encodeTypedValue, isSNMPExceptionValue.
  destruct (beq value valueEndOfMibView) eqn:E1.
  { exists 0x82, []. rewrite orb_true_r. auto. }
  destruct (beq value valueNoSuchObject) eqn:E2.
  { exists 0x80, []. cbn [orb]. auto. }
  cbn [orb]. apply encodeTypedValueAtTag_tlv, snmpTypeTag_cases.
Qed.

(** A number survives typing: the decimal string of an unsigned value that
    the declared type can hold is encoded under that type with contents whose
    value is the number; with no declared type it is the INTEGER of the number. *)
Theorem typed_value_number oid n :
  0 <= n < 2 ^ 64 ->
  let t := snmpTypeTag oid in
  (In t [ASN1_COUNTER32; ASN1_GAUGE32; ASN1_TIMETICKS] -> n < 2 ^ 32 ->
     exists body, encodeTypedValue oid (FormatUint n) = tlv t body /\ be_val 0 body = n) /\
  (t = ASN1_COUNTER64 ->
     exists body, encodeTypedValue oid (FormatUint n) = tlv t body /\ be_val 0 body = n) /\
  (t = 0 -> n <= MaxInt64 -> encodeTypedValue oid (FormatUint n) = encodeInteger n).
Proof.
  intros Hn t.
  assert (Hno : isSNMPExceptionValue (FormatUint n) = false).
  { destruct (FormatUint_spec n Hn) as (_ & Hd & _). unfold isSNMPExceptionValue, beq.
    rewrite !bool_decide_false; [done|..]; intros Heq; rewrite Heq in Hd; by inversion_clear Hd. }
  assert (He : encodeTypedValue oid (FormatUint n) = encodeTypedValueAtTag oid (FormatUint n) t).
  { unfold isSNMPExceptionValue in Hno. apply orb_false_iff in Hno as [H1 H2].
    unfold encodeTypedValue. by rewrite H1, H2. }
  rewrite He. clearbody t. unfold encodeTypedValueAtTag. split_and!.
  - intros Ht Hlt. rewrite ParseUint_FormatUint by lia.
    assert (Hb : ((t =? ASN1_COUNTER32) || (t =? ASN1_GAUGE32) || (t =? ASN1_TIMETICKS)) = true)
      by (cbn [In] in Ht; lia). rewrite Hb.
    do 3 (case_if; [subst; cbn [In] in Ht; exfalso; unfold ASN1_OCTET_STRING, ASN1_OBJECT_ID, ASN1_IPADDRESS, ASN1_COUNTER32, ASN1_GAUGE32, ASN1_TIMETICKS in Ht; lia|]).
    rewrite u32_small by lia. apply encodeUnsigned32_tlv. lia.
  - intros ->. cbn. rewrite ParseUint_FormatUint by lia. apply encodeCounter64_tlv. lia.
  - intros -> Hmax. cbn. by rewrite Atoi_FormatUint by lia.
Qed.

Lemma typed_value_number_witness :
  let t := snmpTypeTag (str ".1.3.6.1.2.1.31.1.1.1.6.1") in
  (In t [ASN1_COUNTER32; ASN1_GAUGE32; ASN1_TIMETICKS] -> 5000000000 < 2 ^ 32 ->
     exists body, encodeTypedValue (str ".1.3.6.1.2.1.31.1.1.1.6.1") (FormatUint 5000000000) = tlv t body /\
       be_val 0 body = 5000000000) /\
  (t = ASN1_COUNTER64 ->
     exists body, encodeTypedValue (str ".1.3.6.1.2.1.31.1.1.1.6.1") (FormatUint 5000000000) = tlv t body /\
       be_val 0 body = 5000000000) /\
  (t = 0 -> 5000000000 <= MaxInt64 ->
     encodeTypedValue (str ".1.3.6.1.2.1.31.1.1.1.6.1") (FormatUint 5000000000) = encodeInteger 5000000000).
Proof. apply (typed_value_number (str ".1.3.6.1.2.1.31.1.1.1.6.1") 5000000000). lia. Defined.
