(* ===== verification/Request.v ===== *)
(** * Reading a v1/v2c datagram (snmp_response.go, snmp_server.go,
    snmp_handlers.go)

    Four readers walk the same untrusted octets: [parseIncomingRequest] (the
    lenient one, which always answers), [getPDUType] (the tag the dispatcher
    branches on), [requestVarBindListPos] with the two variable-binding walkers
    (strict), and [parseGetBulkParams].  The theorems show that none of them can
    panic or loop on any datagram, that they agree with one another about where
    the PDU is and what it names, and that on a well-formed request they return
    exactly what the manager encoded. *)

From S2P Require Import Prelude GoStrings Ber Oid.

Definition snmpVersion1 : Z := 0.
Definition snmpVersion2c : Z := 1.

Definition servedPDUTag (tag : Z) : bool :=
  (tag =? ASN1_GET_REQUEST) || (tag =? ASN1_GET_NEXT) || (tag =? ASN1_GET_BULK) ||
  (tag =? ASN1_SET_REQUEST).

Record SNMPRequest := {
  Community : bytes;
  RequestID : Z;
  OID : bytes;
  Version : Z;
  CommunityParsed : bool;
}.

Definition defaultRequest : SNMPRequest :=
  {| Community := str "public"; RequestID := 123; OID := str ".1.3.6.1.2.1.1.1.0";
     Version := snmpVersion2c; CommunityParsed := false |}.

Definition set_Version (v : Z) (r : SNMPRequest) : SNMPRequest :=
  {| Community := Community r; RequestID := RequestID r; OID := OID r; Version := v;
     CommunityParsed := CommunityParsed r |}.
Definition set_Community (c : bytes) (r : SNMPRequest) : SNMPRequest :=
  {| Community := c; RequestID := RequestID r; OID := OID r; Version := Version r;
     CommunityParsed := true |}.
Definition set_RequestID (v : Z) (r : SNMPRequest) : SNMPRequest :=
  {| Community := Community r; RequestID := v; OID := OID r; Version := Version r;
     CommunityParsed := CommunityParsed r |}.
Definition set_OID (o : bytes) (r : SNMPRequest) : SNMPRequest :=
  {| Community := Community r; RequestID := RequestID r; OID := o; Version := Version r;
     CommunityParsed := CommunityParsed r |}.

Definition skipLength (data : bytes) : res Z :=
  if len data =? 0 then Ok 0 else
  let! b := index data 0 in
  if b <? 0x80 then Ok 1 else Ok (1 + Z.land b 0x7f).

(** ** parseIncomingRequest, block by block *)

(** An INTEGER field read at its declared width: the version and request-id
    blocks, which differ in the field they set. *)
Definition incoming_int (set : Z -> SNMPRequest -> SNMPRequest)
    (data : bytes) (pos : Z) (req : SNMPRequest) : res (SNMPRequest * Z) :=
  let! t := tag_at data pos ASN1_INTEGER in
  if t then
    let! (n, newPos) := parseLength data (pos + 1) in
    let! (v, ok) := parseBERInt data newPos n in
    Ok (if ok then set v req else req, if 0 <? n then newPos + n else newPos)
  else Ok (req, pos).

Definition incoming_community (data : bytes) (pos : Z) (req : SNMPRequest)
    : res (SNMPRequest * Z) :=
  let! t := tag_at data pos ASN1_OCTET_STRING in
  if t then
    let! (communityLen, newPos) := parseLength data (pos + 1) in
    if (0 <=? communityLen) && (newPos + communityLen <=? len data) then
      let! c := slice data newPos (newPos + communityLen) in
      Ok (set_Community c req, newPos + communityLen)
    else Ok (req, newPos)
  else Ok (req, pos).

(** error-status and error-index: [n] iterations of the skip loop. *)
Fixpoint incoming_skip (n : nat) (data : bytes) (pos : Z) : res Z :=
  match n with
  | O => Ok pos
  | S n' =>
      let! t := tag_at data pos ASN1_INTEGER in
      if t then
        let! (fieldLen, newPos) := parseLength data (pos + 1) in
        incoming_skip n' data (if 0 <=? fieldLen then newPos + fieldLen else pos + 1)
      else incoming_skip n' data pos
  end.

Definition incoming_varbinds (data : bytes) (pos : Z) (req : SNMPRequest) : res SNMPRequest :=
  let! t := tag_at data pos ASN1_SEQUENCE in
  if negb t then Ok req else
  let pos := pos + 1 in
  let! rest := slice data pos (len data) in
  let! n := skipLength rest in
  let pos := pos + n in
  let! t := tag_at data pos ASN1_SEQUENCE in
  if negb t then Ok req else
  let pos := pos + 1 in
  let! rest := slice data pos (len data) in
  let! n := skipLength rest in
  let pos := pos + n in
  let! t := tag_at data pos ASN1_OID in
  if negb t then Ok req else
  let! (oidLen, pos) := parseLength data (pos + 1) in
  if (0 <? oidLen) && (pos + oidLen <=? len data) then
    let! oidBytes := slice data pos (pos + oidLen) in
    let oid := decodeOID oidBytes in
    Ok (if beq oid [] then req else set_OID oid req)
  else Ok req.

Definition incoming_pdu (data : bytes) (pos : Z) (req : SNMPRequest) : res SNMPRequest :=
  if len data <=? pos then Ok req else
  let! tag := index data pos in
  if negb (servedPDUTag tag) then Ok req else
  let! (pduLen, newPos) := parseLength data (pos + 1) in
  if pduLen <? 0 then Ok req else
  let! (req, pos) := incoming_int set_RequestID data newPos req in
  let! pos := incoming_skip 2 data pos in
  incoming_varbinds data pos req.

(** The envelope up to the PDU tag: [None] is one of the three early returns. *)
Definition incoming_start (data : bytes) : res (option Z) :=
  if len data <? 10 then Ok None else
  let! b := index data 0 in
  if negb (b =? ASN1_SEQUENCE) then Ok None else
  let! (outerLen, newPos) := parseLength data 1 in
  if outerLen <? 0 then Ok None else Ok (Some newPos).

Definition parseIncomingRequest (data : bytes) : res SNMPRequest :=
  let req := defaultRequest in
  let! start := incoming_start data in
  match start with
  | None => Ok req
  | Some pos =>
      let! (req, pos) := incoming_int set_Version data pos req in
      let! (req, pos) := incoming_community data pos req in
      incoming_pdu data pos req
  end.

(** ** getPDUType *)

Definition getPDUType (data : bytes) : res Z :=
  if len data <? 10 then Ok ASN1_GET_REQUEST else
  let! b := index data 0 in
  if negb (b =? ASN1_SEQUENCE) then Ok ASN1_GET_REQUEST else
  let! (outerLen, newPos) := parseLength data 1 in
  if outerLen <? 0 then Ok ASN1_GET_REQUEST else
  let pos := newPos in
  let! t := tag_at data pos ASN1_INTEGER in
  let! pos :=
    (if t then
       let! (versionLen, newPos) := parseLength data (pos + 1) in
       Ok (if 0 <? versionLen then newPos + versionLen else newPos)
     else Ok pos) in
  let! t := tag_at data pos ASN1_OCTET_STRING in
  let! pos :=
    (if t then
       let! (communityLen, newPos) := parseLength data (pos + 1) in
       Ok (if (0 <=? communityLen) && (newPos + communityLen <=? len data)
           then newPos + communityLen else newPos)
     else Ok pos) in
  if pos <? len data then index data pos else Ok ASN1_GET_REQUEST.

(** ** The strict readers *)

(** One field of the envelope: its tag, a readable length, the contents
    skipped.  [None] is the [return 0, 0, false]. *)
Definition skip_field (data : bytes) (pos tag : Z) : res (option Z) :=
  let! t := tag_at data pos tag in
  if negb t then Ok None else
  let! (n, newPos) := parseLength data (pos + 1) in
  if n <? 0 then Ok None else Ok (Some (newPos + n)).

Fixpoint skip_ints (n : nat) (data : bytes) (pos : Z) : res (option Z) :=
  match n with
  | O => Ok (Some pos)
  | S n' =>
      let! r := skip_field data pos ASN1_INTEGER in
      match r with None => Ok None | Some pos => skip_ints n' data pos end
  end.

(** The list position and the PDU's declared end, or [None]. *)
Definition requestVarBindListPos (data : bytes) : res (option (Z * Z)) :=
  let! t := tag_at data 0 ASN1_SEQUENCE in
  if negb t then Ok None else
  let! (outerLen, pos) := parseLength data 1 in
  if outerLen <? 0 then Ok None else
  let! r := skip_field data pos ASN1_INTEGER in
  match r with None => Ok None | Some pos =>
  let! r := skip_field data pos ASN1_OCTET_STRING in
  match r with None => Ok None | Some pos =>
  if len data <=? pos then Ok None else
  let! (pduLen, newPos) := parseLength data (pos + 1) in
  if pduLen <? 0 then Ok None else
  let pduEnd := newPos + pduLen in
  let! r := skip_ints 3 data newPos in
  match r with None => Ok None | Some pos => Ok (Some (pos, pduEnd)) end
  end end.

Record snmpVarBind := { vb_name : bytes; vb_tag : Z; vb_content : bytes }.

(** One iteration of the loop of [parseVarBinds]: the binding and the offset of
    the next; [None] is [return nil, nil, false]. *)
Definition varbind_at (data : bytes) (pos end_ : Z) : res (option (snmpVarBind * Z)) :=
  let! b := index data pos in
  if negb (b =? ASN1_SEQUENCE) then Ok None else
  let! (vbLen, pos) := parseLength data (pos + 1) in
  if vbLen <? 0 then Ok None else
  if end_ - pos <? vbLen then Ok None else
  let nextVarBind := pos + vbLen in
  if nextVarBind <=? pos then Ok None else
  let! b := index data pos in
  if negb (b =? ASN1_OID) then Ok None else
  let! (oidLen, newPos) := parseLength data (pos + 1) in
  if (oidLen <? 0) || (nextVarBind - newPos <? oidLen) then Ok None else
  let! oidBytes := slice data newPos (newPos + oidLen) in
  let oid := decodeOID oidBytes in
  if beq oid [] then Ok None else
  let pos := newPos + oidLen in
  if nextVarBind <=? pos then Ok None else
  let! tag := index data pos in
  let! (valLen, newPos) := parseLength data (pos + 1) in
  if (valLen <? 0) || (nextVarBind - newPos <? valLen) || negb (newPos + valLen =? nextVarBind)
  then Ok None else
  let! content := slice data newPos nextVarBind in
  Ok (Some ({| vb_name := oid; vb_tag := tag; vb_content := content |}, nextVarBind)).

Fixpoint varbinds_loop (fuel : nat) (data : bytes) (pos end_ : Z) (binds : list snmpVarBind)
    : res (option (list snmpVarBind)) :=
  match fuel with
  | O => if pos <? end_ then Diverge else Ok (Some binds)
  | S fuel' =>
      if pos <? end_ then
        let! r := varbind_at data pos end_ in
        match r with
        | None => Ok None
        | Some (vb, next) => varbinds_loop fuel' data next end_ (binds ++ [vb])
        end
      else Ok (Some binds)
  end.

(** What a walk of a variable-bindings list answers: no list header was
    reached, the list is malformed, or its bindings. *)
Inductive listVerdict (A : Type) :=
| ListAbsent
| ListMalformed
| ListParsed (a : A).
Arguments ListAbsent {A}.
Arguments ListMalformed {A}.
Arguments ListParsed {A} a.

(** [(nil, nil, true)] is [ListAbsent], [(nil, nil, false)] [ListMalformed]. *)
Definition parseVarBinds (data : bytes) (pos : Z) : res (listVerdict (list snmpVarBind * bytes)) :=
  let! t := tag_at data pos ASN1_SEQUENCE in
  if negb t then Ok ListAbsent else
  let! (vbListLen, pos) := parseLength data (pos + 1) in
  if vbListLen <? 0 then Ok ListAbsent else
  if len data - pos <? vbListLen then Ok ListMalformed else
  let end_ := pos + vbListLen in
  let! contents := slice data pos end_ in
  let! r := varbinds_loop (Z.to_nat vbListLen) data pos end_ [] in
  match r with
  | None => Ok ListMalformed
  | Some binds => Ok (ListParsed (binds, contents))
  end.

(** One iteration of the loop of [parseVarBindNames], which keeps only names. *)
Definition varbind_name_at (data : bytes) (pos end_ : Z) : res (option (bytes * Z)) :=
  let! b := index data pos in
  if negb (b =? ASN1_SEQUENCE) then Ok None else
  let! (vbLen, pos) := parseLength data (pos + 1) in
  if vbLen <? 0 then Ok None else
  let nextVarBind := pos + vbLen in
  if end_ <? nextVarBind then Ok None else
  if nextVarBind <=? pos then Ok None else
  let! b := index data pos in
  if negb (b =? ASN1_OID) then Ok None else
  let! (oidLen, newPos) := parseLength data (pos + 1) in
  if (oidLen <? 0) || (nextVarBind <? newPos + oidLen) then Ok None else
  let! oidBytes := slice data newPos (newPos + oidLen) in
  let oid := decodeOID oidBytes in
  if beq oid [] then Ok None else
  let pos := newPos + oidLen in
  if nextVarBind <=? pos then Ok None else
  let! (valLen, newPos) := parseLength data (pos + 1) in
  if (valLen <? 0) || negb (newPos + valLen =? nextVarBind) then Ok None else
  Ok (Some (oid, nextVarBind)).

Fixpoint names_loop (fuel : nat) (data : bytes) (pos end_ : Z) (oids : list bytes)
    : res (list bytes * bool) :=
  match fuel with
  | O => if pos <? end_ then Diverge else Ok (oids, true)
  | S fuel' =>
      if pos <? end_ then
        let! r := varbind_name_at data pos end_ in
        match r with
        | None => Ok ([], false)
        | Some (oid, next) => names_loop fuel' data next end_ (oids ++ [oid])
        end
      else Ok (oids, true)
  end.

Definition parseVarBindNames (data : bytes) (pos : Z) : res (list bytes * bool) :=
  let! t := tag_at data pos ASN1_SEQUENCE in
  if negb t then Ok ([], true) else
  let! (vbListLen, pos) := parseLength data (pos + 1) in
  if vbListLen <? 0 then Ok ([], true) else
  let end_ := pos + vbListLen in
  if len data <? end_ then Ok ([], false) else
  names_loop (Z.to_nat vbListLen) data pos end_ [].

Definition parseAllOIDsFromRequest (data : bytes) : res (list bytes * bool) :=
  let! r := requestVarBindListPos data in
  match r with
  | None => Ok ([], true)
  | Some (pos, _) => parseVarBindNames data pos
  end.

(** ** parseGetBulkParams *)

(** [if v, ok := parseBERInt(data, pos, n); ok && v >= 0 { x = v }]. *)
Definition nonneg_param (data : bytes) (pos n default : Z) : res Z :=
  let! (v, ok) := parseBERInt data pos n in
  Ok (if ok && (0 <=? v) then v else default).

(** The non-repeaters and max-repetitions fields, from the cursor after the
    request-id of the PDU that bounds [data]. *)
Definition bulk_params_tail (data : bytes) (pos : Z) : res (Z * Z) :=
  let nonRepeaters := 0 in
  let maxRepetitions := 10 in
  let! t := tag_at data pos ASN1_INTEGER in
  if negb t then Ok (nonRepeaters, maxRepetitions) else
  let! (nonRepLen, pos) := parseLength data (pos + 1) in
  if nonRepLen <? 0 then Ok (nonRepeaters, maxRepetitions) else
  let! nonRepeaters := nonneg_param data pos nonRepLen nonRepeaters in
  let pos := pos + nonRepLen in
  let! t := tag_at data pos ASN1_INTEGER in
  if negb t then Ok (nonRepeaters, maxRepetitions) else
  let! (maxRepLen, pos) := parseLength data (pos + 1) in
  if maxRepLen <? 0 then Ok (nonRepeaters, maxRepetitions) else
  let! maxRepetitions := nonneg_param data pos maxRepLen maxRepetitions in
  Ok (nonRepeaters, maxRepetitions).

Definition parseGetBulkParams (data : bytes) : res (Z * Z) :=
  let defaults := (0, 10) in
  let! t := tag_at data 0 ASN1_SEQUENCE in
  if negb t then Ok defaults else
  let! (outerLen, newPos) := parseLength data 1 in
  if (outerLen <? 0) || (len data <? newPos + outerLen) then Ok defaults else
  let pos := newPos in
  let! data := slice data 0 (newPos + outerLen) in
  let! r := skip_field data pos ASN1_INTEGER in
  match r with None => Ok defaults | Some pos =>
  let! r := skip_field data pos ASN1_OCTET_STRING in
  match r with None => Ok defaults | Some pos =>
  let! t := tag_at data pos ASN1_GET_BULK in
  if negb t then Ok defaults else
  let! (pduLen, newPos) := parseLength data (pos + 1) in
  if (pduLen <? 0) || (len data <? newPos + pduLen) then Ok defaults else
  let pos := newPos in
  let! data := slice data 0 (newPos + pduLen) in
  let! r := skip_field data pos ASN1_INTEGER in
  match r with None => Ok defaults | Some pos => bulk_params_tail data pos end
  end end.

(** ** No reader panics or loops *)

Lemma bytes_ok_slice data a b s : bytes_ok data -> slice data a b = Ok s -> bytes_ok s.
Proof. unfold slice. intros Hok. case_if; [done|]. intros [= <-]. by apply Forall_take, Forall_drop. Qed.

Lemma bytes_ok_lookup data i x : bytes_ok data -> data !! i = Some x -> is_byte x.
Proof. intros Hok Hx. by eapply Forall_lookup_1. Qed.

Lemma wp_slice_ok data a b (P : bytes -> Prop) :
  bytes_ok data -> 0 <= a <= b -> b <= len data ->
  (forall s, bytes_ok s -> len s = b - a -> slice data a b = Ok s -> P s) -> wp (slice data a b) P.
Proof.
  intros Hok Ha Hb HP. unfold slice in *. case_if; [lia|]. simpl.
  apply HP; [by apply Forall_take, Forall_drop|rewrite len_take, len_drop; lia|done].
Qed.

Lemma skipLength_wp data (P : Z -> Prop) :
  bytes_ok data -> (forall n, 0 <= n <= 128 -> P n) -> wp (skipLength data) P.
Proof.
  intros Hok HP. unfold skipLength. pose proof (len_nonneg data). wp_step; [simpl; apply HP; lia|]. wp_step. wp_step.
  match goal with Hl : data !! _ = Some x |- _ => pose proof (bytes_ok_lookup _ _ _ Hok Hl) as Hx end.
  unfold is_byte in Hx.
  wp_step; simpl; apply HP; [lia|]. rewrite land_0x7f. pose proof (Z.mod_pos_bound x 128). lia.
Qed.

Lemma incoming_int_wp set data pos req (P : SNMPRequest * Z -> Prop) :
  bytes_ok data -> 0 <= pos -> (forall r p, 0 <= p -> P (r, p)) ->
  wp (incoming_int set data pos req) P.
Proof.
  intros Hok Hp HP. unfold incoming_int. repeat wp_ber; simpl; apply HP; [|lia].
  case_if; lia.
Qed.

Lemma incoming_community_wp data pos req (P : SNMPRequest * Z -> Prop) :
  bytes_ok data -> 0 <= pos -> (forall r p, 0 <= p -> P (r, p)) ->
  wp (incoming_community data pos req) P.
Proof.
  intros Hok Hp HP. unfold incoming_community. repeat wp_ber; simpl; apply HP; lia.
Qed.

Lemma incoming_skip_wp n data pos (P : Z -> Prop) :
  bytes_ok data -> 0 <= pos -> (forall p, 0 <= p -> P p) -> wp (incoming_skip n data pos) P.
Proof.
  intros Hok. revert pos. induction n as [|n IH]; intros pos Hp HP; cbn [incoming_skip].
  { by apply HP. }
  repeat wp_ber; apply IH; try done. case_if; lia.
Qed.

Lemma incoming_varbinds_safe data pos req :
  bytes_ok data -> 0 <= pos -> safe (incoming_varbinds data pos req).
Proof.
  intros Hok Hp. unfold incoming_varbinds, safe.
  repeat first [ done
    | match goal with
      | |- wp (slice _ _ _) _ => apply wp_slice_ok; [done|zl|zl|intros ? ? ? ?]
      | |- wp (skipLength _) _ => apply skipLength_wp; [done|intros ? ?]
      end
    | wp_ber ].
Qed.

Lemma incoming_pdu_safe data pos req :
  bytes_ok data -> 0 <= pos -> safe (incoming_pdu data pos req).
Proof.
  intros Hok Hp. unfold incoming_pdu, safe. repeat wp_ber; try done.
  apply incoming_int_wp; [done|lia|]. intros r p0 ?. wp_step.
  apply incoming_skip_wp; [done|lia|]. intros p1 ?. by apply incoming_varbinds_safe.
Qed.

Lemma incoming_start_wp data (P : option Z -> Prop) :
  bytes_ok data -> P None -> (forall p, 0 <= p -> P (Some p)) -> wp (incoming_start data) P.
Proof. intros Hok HN HS. unfold incoming_start. repeat wp_ber; try done. simpl. apply HS. lia. Qed.

Lemma skip_field_wp data pos tag (P : option Z -> Prop) :
  bytes_ok data -> 0 <= pos -> P None -> (forall p, pos < p -> P (Some p)) ->
  wp (skip_field data pos tag) P.
Proof. intros Hok Hp HN HS. unfold skip_field. repeat wp_ber; try done. simpl. apply HS. lia. Qed.

Lemma skip_ints_wp n data pos (P : option Z -> Prop) :
  bytes_ok data -> 0 <= pos -> P None -> (forall p, pos <= p -> P (Some p)) ->
  wp (skip_ints n data pos) P.
Proof.
  intros Hok. revert pos. induction n as [|n IH]; intros pos Hp HN HS; cbn [skip_ints].
  { apply HS. lia. }
  wp_step. apply skip_field_wp; [done|done|done|]. intros p Hpp.
  apply IH; [lia|done|]. intros p' ?. apply HS. lia.
Qed.

Lemma requestVarBindListPos_wp data (P : option (Z * Z) -> Prop) :
  bytes_ok data -> P None -> (forall p e, 0 <= p -> 0 <= e -> P (Some (p, e))) ->
  wp (requestVarBindListPos data) P.
Proof.
  intros Hok HN HS. unfold requestVarBindListPos. repeat wp_ber; try done.
  apply skip_field_wp; [done|lia|done|]. intros p1 ?.
  wp_step. apply skip_field_wp; [done|lia|done|]. intros p2 ?.
  repeat wp_ber; try done. apply skip_ints_wp; [done|lia|done|]. intros p3 ?. apply HS; lia.
Qed.

(** A binding the walk accepts lies inside the list and advances it. *)
Lemma varbind_at_wp data pos end_ (P : option (snmpVarBind * Z) -> Prop) :
  bytes_ok data -> 0 <= pos < end_ -> end_ <= len data ->
  P None -> (forall vb next, pos < next <= end_ -> P (Some (vb, next))) ->
  wp (varbind_at data pos end_) P.
Proof.
  intros Hok Hp He HN HS. unfold varbind_at. repeat wp_ber; try done; try lia.
  simpl. apply HS. lia.
Qed.

Lemma varbinds_loop_safe fuel data pos end_ binds :
  bytes_ok data -> 0 <= pos -> end_ <= len data -> end_ - pos <= Z.of_nat fuel ->
  safe (varbinds_loop fuel data pos end_ binds).
Proof.
  intros Hok. revert pos binds. induction fuel as [|fuel IH]; intros pos binds Hp He Hf;
    cbn [varbinds_loop]; unfold safe; wp_step; try done; [lia|].
  wp_step. apply varbind_at_wp; [done|lia|done|done|]. intros vb next ?. apply IH; lia.
Qed.

Lemma parseVarBinds_safe data pos : bytes_ok data -> 0 <= pos -> safe (parseVarBinds data pos).
Proof.
  intros Hok Hp. unfold parseVarBinds, safe. repeat wp_ber; try done; try lia.
  eapply wp_mono; [apply varbinds_loop_safe; [done|lia..]|]. by intros [?|] _.
Qed.

Lemma nonneg_param_wp data pos n d (P : Z -> Prop) :
  0 <= pos -> 0 <= d <= MaxInt64 -> (forall v, 0 <= v <= MaxInt64 -> P v) -> wp (nonneg_param data pos n d) P.
Proof.
  unfold nonneg_param, int64_range. intros Hp Hd HP. wp_step. wp_ber. simpl. apply HP.
  unfold int64_range in *. case_if; lia.
Qed.

Lemma bulk_params_tail_wp data pos (P : Z * Z -> Prop) :
  bytes_ok data -> 0 <= pos ->
  (forall a b, 0 <= a <= MaxInt64 -> 0 <= b <= MaxInt64 -> P (a, b)) -> wp (bulk_params_tail data pos) P.
Proof.
  intros Hok Hp HP. assert (0 <= 0 <= MaxInt64) by (unfold MaxInt64; lia).
  assert (0 <= 10 <= MaxInt64) by (unfold MaxInt64; lia).
  unfold bulk_params_tail.
  repeat first [ by (simpl; apply HP; auto)
    | match goal with |- wp (nonneg_param _ _ _ _) _ => apply nonneg_param_wp; [lia|done|intros ? ?] end
    | wp_ber ].
Qed.

Lemma parseGetBulkParams_wp data (P : Z * Z -> Prop) :
  bytes_ok data ->
  (forall a b, 0 <= a <= MaxInt64 -> 0 <= b <= MaxInt64 -> P (a, b)) -> wp (parseGetBulkParams data) P.
Proof.
  intros Hok HP. assert (Hd : P (0, 10)) by (apply HP; unfold MaxInt64; lia).
  unfold parseGetBulkParams.
  repeat first [ exact Hd
    | match goal with
      | |- wp (slice _ _ _) _ => apply wp_slice_ok; [done|lia|lia|intros ? ? ? ?]
      | |- wp (skip_field _ _ _) _ => apply skip_field_wp; [done|lia|exact Hd|intros ? ?]
      | |- wp (bulk_params_tail _ _) _ => by apply bulk_params_tail_wp; [done|lia|]
      end
    | wp_ber ].
Qed.

(** ** The two variable-binding walkers are one walker *)

Definition name_only (r : option (snmpVarBind * Z)) : option (bytes * Z) :=
  match r with Some (vb, next) => Some (vb_name vb, next) | None => None end.

Lemma varbind_name_at_spec data pos end_ :
  bytes_ok data -> 0 <= pos < end_ -> end_ <= len data ->
  varbind_name_at data pos end_ = (let! r := varbind_at data pos end_ in Ok (name_only r)).
Proof.
  intros Hok Hp He. unfold varbind_name_at, varbind_at.
  destruct (index data pos) as [b| |]; cbn [res_bind]; [|done..].
  destruct (negb (b =? ASN1_SEQUENCE)); [done|].
  destruct (wp_Ok (parseLength data (pos + 1)) (fun '(n, p) => pos < p)) as ([vbLen p1] & -> & Hp1);
    [apply parseLength_wp; [done|lia|intros; lia]|]. cbn [res_bind].
  destruct (vbLen <? 0) eqn:E1; [done|].
  replace (end_ - p1 <? vbLen) with (end_ <? p1 + vbLen) by lia.
  destruct (end_ <? p1 + vbLen) eqn:E2; [done|].
  destruct (p1 + vbLen <=? p1) eqn:E3; [done|].
  destruct (index data p1) as [b'| |]; cbn [res_bind]; [|done..].
  destruct (negb (b' =? ASN1_OID)); [done|].
  destruct (wp_Ok (parseLength data (p1 + 1)) (fun '(n, p) => p1 < p)) as ([oidLen p2] & -> & Hp2);
    [apply parseLength_wp; [done|lia|intros; lia]|]. cbn [res_bind].
  replace (p1 + vbLen - p2 <? oidLen) with (p1 + vbLen <? p2 + oidLen) by lia.
  destruct ((oidLen <? 0) || (p1 + vbLen <? p2 + oidLen)) eqn:E4; [done|].
  destruct (slice data p2 (p2 + oidLen)) as [ob| |]; cbn [res_bind]; [|done..].
  destruct (beq (decodeOID ob) []); [done|].
  destruct (p1 + vbLen <=? p2 + oidLen) eqn:E5; [done|].
  destruct (wp_Ok (index data (p2 + oidLen)) (fun _ => True)) as (tag & -> & _);
    [apply wp_index; [lia|done]|]. cbn [res_bind].
  destruct (wp_Ok (parseLength data (p2 + oidLen + 1)) (fun '(n, p) => p2 < p))
    as ([valLen p3] & -> & Hp3); [apply parseLength_wp; [done|lia|intros; lia]|]. cbn [res_bind].
  replace ((valLen <? 0) || (p1 + vbLen - p3 <? valLen) || negb (p3 + valLen =? p1 + vbLen))
    with ((valLen <? 0) || negb (p3 + valLen =? p1 + vbLen)) by lia.
  destruct ((valLen <? 0) || negb (p3 + valLen =? p1 + vbLen)) eqn:E6; [done|].
  destruct (wp_Ok (slice data p3 (p1 + vbLen)) (fun _ => True)) as (c & -> & _);
    [apply wp_slice; [lia|lia|done]|]. done.
Qed.

Lemma names_loop_spec fuel data pos end_ binds :
  bytes_ok data -> 0 <= pos -> end_ <= len data ->
  names_loop fuel data pos end_ (map vb_name binds) =
    (let! r := varbinds_loop fuel data pos end_ binds in
     match r with None => Ok ([], false) | Some bs => Ok (map vb_name bs, true) end).
Proof.
  intros Hok. revert pos binds. induction fuel as [|fuel IH]; intros pos binds Hp He;
    cbn [names_loop varbinds_loop]; destruct (pos <? end_) eqn:E; try done.
  rewrite varbind_name_at_spec by (done || lia).
  destruct (wp_Ok (varbind_at data pos end_) (fun r => forall vb next, r = Some (vb, next) -> pos < next))
    as (r & -> & Hr).
  { apply varbind_at_wp; [done|lia|done|done|]. intros vb next ? ? ? [= <- <-]. lia. }
  cbn [res_bind]. destruct r as [[vb next]|]; [|done]. cbn [name_only].
  specialize (Hr vb next eq_refl). rewrite <- IH by lia. by rewrite map_app.
Qed.

(** ** Reading what a manager encodes *)

(** A v1/v2c message: the PDU's three INTEGERs and its variable bindings. *)
Definition requestPDU (tag id a b : Z) (binds : bytes) : bytes :=
  tlv tag (encodeInteger id ++ encodeInteger a ++ encodeInteger b ++ encodeSequence binds).
Definition requestMessage (version : Z) (community pdu : bytes) : bytes :=
  encodeSequence (encodeInteger version ++ encodeOctetString community ++ pdu).

(** A binding as the manager means it: arcs, value tag, value contents. *)
Definition bindOf (vb : list Z * Z * bytes) : bytes :=
  let '(arcs, tag, content) := vb in encodeVarBind (dotted arcs) (tlv tag content).
Definition bindsOf (vbs : list (list Z * Z * bytes)) : bytes := concat (map bindOf vbs).
Definition vbOf (vb : list Z * Z * bytes) : snmpVarBind :=
  let '(arcs, tag, content) := vb in {| vb_name := dotted arcs; vb_tag := tag; vb_content := content |}.

Definition arcs_fit (arcs : list Z) : Prop := arcs_ok arcs /\ len (oidBody arcs) <= maxOIDBodyBytes.
Definition wire_int (v : Z) : Prop := - 2 ^ 32 <= v <= MaxInt64.

Lemma incoming_int_at set data pos req v :
  wire_int v -> holds_at data pos (encodeInteger v) ->
  incoming_int set data pos req = Ok (set v req, pos + len (encodeInteger v)).
Proof.
  intros Hv H. rewrite encodeInteger_tlv in *. pose proof (integerBody_len v Hv). unfold incoming_int.
  rewrite (holds_at_tag _ _ _ _ H). cbn [res_bind]. change (ASN1_INTEGER =? ASN1_INTEGER) with true. cbv iota.
  rewrite (holds_at_length _ _ _ _ H) by (unfold MaxInt32; lia). cbn [res_bind].
  rewrite holds_at_int by (done || by apply holds_at_body in H). cbn [res_bind].
  rewrite len_tlv. case_if; [|lia]. do 2 f_equal. lia.
Qed.

Lemma incoming_community_at data pos req c :
  len c <= MaxInt32 -> holds_at data pos (encodeOctetString c) ->
  incoming_community data pos req = Ok (set_Community c req, pos + len (encodeOctetString c)).
Proof.
  intros Hc H. rewrite encodeOctetString_tlv in *. unfold incoming_community.
  rewrite (holds_at_tag _ _ _ _ H). cbn [res_bind].
  change (ASN1_OCTET_STRING =? ASN1_OCTET_STRING) with true. cbv iota.
  rewrite (holds_at_length _ _ _ _ H) by done. cbn [res_bind].
  pose proof (holds_at_body _ _ _ _ H) as Hb. pose proof (holds_at_bounds _ _ _ Hb) as Hbd.
  pose proof (len_nonneg c). case_if; [|lia].
  rewrite (holds_at_slice _ _ _ Hb). cbn [res_bind]. rewrite len_tlv. do 2 f_equal. lia.
Qed.

Lemma skip_field_at data pos tag body :
  len body <= MaxInt32 -> holds_at data pos (tlv tag body) ->
  skip_field data pos tag = Ok (Some (pos + len (tlv tag body))).
Proof.
  intros Hb H. unfold skip_field. rewrite (holds_at_tag _ _ _ _ H), Z.eqb_refl. cbn [res_bind negb].
  rewrite (holds_at_length _ _ _ _ H) by done. cbn [res_bind]. pose proof (len_nonneg body).
  case_if; [lia|]. rewrite len_tlv. do 2 f_equal. lia.
Qed.

Lemma integerBody_MaxInt32 v : wire_int v -> len (integerBody v) <= MaxInt32.
Proof. intros Hv. pose proof (integerBody_len v Hv). unfold MaxInt32. lia. Qed.

Lemma incoming_skip_at data pos a b rest :
  wire_int a -> wire_int b -> holds_at data pos (encodeInteger a ++ encodeInteger b ++ rest) ->
  incoming_skip 2 data pos = Ok (pos + len (encodeInteger a) + len (encodeInteger b)).
Proof.
  intros Ha Hb H. apply holds_at_app in H as [H1 H]. apply holds_at_app in H as [H2 _].
  rewrite !encodeInteger_tlv in *. cbn [incoming_skip].
  rewrite (holds_at_tag _ _ _ _ H1), (holds_at_length _ _ _ _ H1) by by apply integerBody_MaxInt32.
  rewrite Z.eqb_refl. cbn [res_bind]. pose proof (len_nonneg (integerBody a)). case_if; [|lia].
  rewrite len_tlv in *. rewrite <- Z.add_assoc.
  rewrite (holds_at_tag _ _ _ _ H2), (holds_at_length _ _ _ _ H2) by by apply integerBody_MaxInt32.
  rewrite Z.eqb_refl. cbn [res_bind]. pose proof (len_nonneg (integerBody b)). case_if; [|lia].
  rewrite len_tlv. f_equal. lia.
Qed.

Lemma skipLength_slice data pos tag body :
  len body <= MaxInt32 -> holds_at data pos (tlv tag body) ->
  (let! rest := slice data (pos + 1) (len data) in skipLength rest) = Ok (hlen (len body) - 1).
Proof.
  intros Hl (pre & rest & -> & ->). pose proof (len_nonneg body). unfold tlv.
  pose proof (slice_app_here (pre ++ [tag]) (encodeLength (len body) ++ body ++ rest) []) as Hs.
  rewrite app_nil_r, <- len_app in Hs.
  replace (pre ++ (tag :: encodeLength (len body) ++ body) ++ rest)
    with ((pre ++ [tag]) ++ (encodeLength (len body) ++ body ++ rest))
    by (simpl; rewrite <- !app_assoc; done).
  replace (len pre + 1) with (len (pre ++ [tag])) by (autorewrite with len; lia).
  rewrite Hs. clear Hs. cbn [res_bind]. unfold hlen, skipLength, MaxInt32 in *.
  destruct (Z.lt_ge_cases (len body) 128) as [Hs|Hs].
  - rewrite encodeLength_short by lia. cbn [app]. autorewrite with len.
    pose proof (len_nonneg rest). case_if; [lia|].
    change (index (len body :: body ++ rest) 0) with (Ok (len body)). cbn [res_bind].
    case_if; [|lia]. f_equal.
  - destruct (encodeLength_long (len body)) as (ds & -> & _ & _ & Hd & _); [lia|]. cbn [app].
    autorewrite with len. pose proof (len_nonneg rest). case_if; [lia|].
    change (index (128 + len ds :: ds ++ body ++ rest) 0) with (Ok (128 + len ds)). cbn [res_bind].
    case_if; [lia|]. rewrite land_0x7f. f_equal.
    replace (128 + len ds) with (len ds + 1 * 128) by lia. rewrite Z.mod_add, Z.mod_small; lia.
Qed.

Lemma holds_at_fits data pos tag body :
  len data <= MaxInt32 -> holds_at data pos (tlv tag body) -> len body <= MaxInt32.
Proof.
  intros Hd H. apply holds_at_bounds in H. rewrite len_tlv in H. pose proof (hlen_pos (len body)). lia.
Qed.

Lemma bindOf_tlv arcs tag content :
  arcs_fit arcs ->
  bindOf (arcs, tag, content) = tlv ASN1_SEQUENCE (tlv ASN1_OID (oidBody arcs) ++ tlv tag content).
Proof. intros [? ?]. unfold bindOf, encodeVarBind. by rewrite encodeOID_dotted, encodeSequence_tlv. Qed.

Lemma beq_dotted arcs : beq (dotted arcs) [] = false.
Proof. unfold beq. by rewrite bool_decide_false. Qed.

Lemma oidBody_pos arcs : arcs_ok arcs -> 0 < len (oidBody arcs).
Proof. intros H. apply oidBody_nonempty; [done|by apply subids_ok]. Qed.

(** The first name, as the lenient reader finds it. *)
Lemma incoming_varbinds_at data pos req arcs tag content rest :
  len data <= MaxInt32 -> arcs_fit arcs ->
  holds_at data pos (encodeSequence (bindOf (arcs, tag, content) ++ rest)) ->
  incoming_varbinds data pos req = Ok (set_OID (dotted arcs) req).
Proof.
  intros Hd Hfit H. rewrite bindOf_tlv, encodeSequence_tlv in H by done.
  pose proof (holds_at_body _ _ _ _ H) as H1. apply holds_at_app in H1 as [H1 _].
  pose proof (holds_at_body _ _ _ _ H1) as H2. apply holds_at_app in H2 as [H2 _].
  pose proof (holds_at_body _ _ _ _ H2) as H3.
  pose proof (skipLength_slice _ _ _ _ (holds_at_fits _ _ _ _ Hd H) H) as S1.
  pose proof (skipLength_slice _ _ _ _ (holds_at_fits _ _ _ _ Hd H1) H1) as S2.
  unfold incoming_varbinds. rewrite (holds_at_tag _ _ _ _ H), Z.eqb_refl. cbn [res_bind negb].
  destruct (slice data (pos + 1) (len data)) as [r1| |]; [|done..]. cbn [res_bind] in S1 |- *.
  rewrite S1. cbn [res_bind]. rewrite <- Z.add_assoc, Zplus_minus.
  rewrite (holds_at_tag _ _ _ _ H1), Z.eqb_refl. cbn [res_bind negb].
  destruct (slice data _ (len data)) as [r2| |]; [|done..]. cbn [res_bind] in S2 |- *.
  rewrite S2. cbn [res_bind].
  match goal with |- context [?a + ?b + 1 + (?c - 1)] => replace (a + b + 1 + (c - 1)) with (a + b + c) by lia end.
  rewrite (holds_at_tag _ _ _ _ H2), Z.eqb_refl. cbn [res_bind negb].
  rewrite (holds_at_length _ _ _ _ H2) by (by eapply holds_at_fits). cbn [res_bind].
  pose proof (holds_at_bounds _ _ _ H3). destruct Hfit as [Hok ?]. pose proof (oidBody_pos arcs Hok).
  case_if; [|lia]. rewrite (holds_at_slice _ _ _ H3). cbn [res_bind].
  by rewrite decodeOID_oidBody, beq_dotted.
Qed.

(** One binding, as the strict walker reads it. *)
Lemma varbind_at_at data pos end_ arcs tag content :
  len data <= MaxInt32 -> arcs_fit arcs ->
  holds_at data pos (bindOf (arcs, tag, content)) ->
  pos + len (bindOf (arcs, tag, content)) <= end_ ->
  varbind_at data pos end_ =
    Ok (Some (vbOf (arcs, tag, content), pos + len (bindOf (arcs, tag, content)))).
Proof.
  intros Hd Hfit H He. rewrite bindOf_tlv in * by done.
  pose proof (holds_at_body _ _ _ _ H) as H1. apply holds_at_app in H1 as [H1 H2].
  pose proof (holds_at_body _ _ _ _ H1) as H3. pose proof (holds_at_body _ _ _ _ H2) as H4.
  pose proof (holds_at_fits _ _ _ _ Hd H) as F. pose proof (holds_at_fits _ _ _ _ Hd H1) as F1.
  pose proof (holds_at_fits _ _ _ _ Hd H2) as F2.
  pose proof (hlen_pos (len (oidBody arcs))). pose proof (hlen_pos (len content)).
  pose proof (len_nonneg (oidBody arcs)). pose proof (len_nonneg content).
  unfold varbind_at. rewrite (holds_at_index _ _ _ _ H). cbn [res_bind]. rewrite Z.eqb_refl. cbn [negb].
  rewrite (holds_at_length _ _ _ _ H F). cbn [res_bind]. rewrite len_tlv in *.
  rewrite (len_app (tlv _ _)) in *. rewrite !len_tlv in *.
  set (h := hlen (hlen (len (oidBody arcs)) + len (oidBody arcs) + (hlen (len content) + len content))) in *.
  do 3 (case_if; [lia|]).
  rewrite (holds_at_index _ _ _ _ H1). cbn [res_bind]. rewrite Z.eqb_refl. cbn [negb].
  rewrite (holds_at_length _ _ _ _ H1 F1). cbn [res_bind]. case_if; [lia|].
  rewrite (holds_at_slice _ _ _ H3). cbn [res_bind]. destruct Hfit as [Hok _].
  rewrite decodeOID_oidBody, beq_dotted by done. case_if; [lia|].
  rewrite Z.add_assoc in H2, H4. rewrite (holds_at_index _ _ _ _ H2). cbn [res_bind].
  rewrite (holds_at_length _ _ _ _ H2 F2). cbn [res_bind]. case_if; [lia|].
  match goal with |- context [slice data ?a ?b] => replace b with (a + len content) by lia end.
  rewrite (holds_at_slice _ _ _ H4). cbn [res_bind]. unfold vbOf. do 3 f_equal. lia.
Qed.

Lemma bindOf_pos vb : 0 < len (bindOf vb).
Proof.
  destruct vb as [[arcs tag] content]. unfold bindOf, encodeVarBind. rewrite encodeSequence_tlv, len_tlv.
  match goal with |- context [hlen ?n] => pose proof (hlen_pos n) end.
  pose proof (len_nonneg (encodeOID (dotted arcs) ++ tlv tag content)). lia.
Qed.

Lemma varbinds_loop_at vbs : forall fuel data pos binds,
  len data <= MaxInt32 -> Forall (fun vb => arcs_fit (fst (fst vb))) vbs ->
  holds_at data pos (bindsOf vbs) -> len (bindsOf vbs) <= Z.of_nat fuel ->
  varbinds_loop fuel data pos (pos + len (bindsOf vbs)) binds = Ok (Some (binds ++ map vbOf vbs)).
Proof.
  induction vbs as [|vb vbs IH]; intros fuel data pos binds Hd Hfit H Hf.
  { change (bindsOf []) with (@nil Z). cbn [map]. rewrite app_nil_r, len_nil.
    destruct fuel; cbn [varbinds_loop]; (case_if; [lia|done]). }
  inversion_clear Hfit as [|? ? Hv Hvs].
  change (bindsOf (vb :: vbs)) with (bindOf vb ++ bindsOf vbs) in *. rewrite len_app in *.
  pose proof (bindOf_pos vb). pose proof (len_nonneg (bindsOf vbs)).
  apply holds_at_app in H as [Hb Hbs]. destruct fuel as [|fuel]; [lia|]. cbn [varbinds_loop].
  case_if; [|lia]. destruct vb as [[arcs tag] content].
  rewrite (varbind_at_at _ _ _ arcs tag content) by (done || lia). cbn [res_bind].
  replace (pos + (len (bindOf (arcs, tag, content)) + len (bindsOf vbs)))
    with (pos + len (bindOf (arcs, tag, content)) + len (bindsOf vbs)) by lia.
  rewrite IH by (done || lia). by rewrite <- app_assoc.
Qed.

(** A list of bindings, with its contents, as the SET parser reads it. *)
Lemma parseVarBinds_at data pos vbs :
  len data <= MaxInt32 -> Forall (fun vb => arcs_fit (fst (fst vb))) vbs ->
  holds_at data pos (encodeSequence (bindsOf vbs)) ->
  parseVarBinds data pos = Ok (ListParsed (map vbOf vbs, bindsOf vbs)).
Proof.
  intros Hd Hfit H. rewrite encodeSequence_tlv in H.
  pose proof (holds_at_body _ _ _ _ H) as H1. pose proof (holds_at_bounds _ _ _ H1).
  pose proof (len_nonneg (bindsOf vbs)).
  unfold parseVarBinds. rewrite (holds_at_tag _ _ _ _ H), Z.eqb_refl. cbn [res_bind negb].
  rewrite (holds_at_length _ _ _ _ H) by (by eapply holds_at_fits). cbn [res_bind].
  do 2 (case_if; [lia|]). rewrite (holds_at_slice _ _ _ H1). cbn [res_bind].
  by rewrite varbinds_loop_at by (done || lia).
Qed.

Lemma parseVarBindNames_spec data pos :
  bytes_ok data -> 0 <= pos ->
  parseVarBindNames data pos =
    (let! v := parseVarBinds data pos in
     match v with
     | ListAbsent => Ok ([], true)
     | ListMalformed => Ok ([], false)
     | ListParsed (binds, _) => Ok (map vb_name binds, true)
     end).
Proof.
  intros Hok Hp. unfold parseVarBindNames, parseVarBinds.
  destruct (wp_Ok (tag_at data pos ASN1_SEQUENCE) (fun _ => True)) as (t & -> & _);
    [apply wp_tag_at; [done|auto]|]. cbn [res_bind]. destruct (negb t); [done|].
  destruct (wp_Ok (parseLength data (pos + 1)) (fun '(n, p) => pos < p)) as ([n p] & -> & Hn);
    [apply parseLength_wp; [done|lia|intros; lia]|]. cbn [res_bind].
  destruct (n <? 0) eqn:E1; [done|].
  replace (len data - p <? n) with (len data <? p + n) by lia.
  destruct (len data <? p + n) eqn:E2; [done|].
  destruct (wp_Ok (slice data p (p + n)) (fun _ => True)) as (c & -> & _);
    [apply wp_slice; [lia|lia|done]|]. cbn [res_bind].
  change (@nil bytes) with (map vb_name []). rewrite names_loop_spec by (done || lia).
  destruct (varbinds_loop (Z.to_nat n) data p (p + n) []) as [[bs|]| |]; done.
Qed.

(** The layout of a well-formed message. *)
Section layout.
  Context (version : Z) (community : bytes) (tag id a b : Z) (vbs : list (list Z * Z * bytes)).
Let pduBody := encodeInteger id ++ encodeInteger a ++ encodeInteger b ++ encodeSequence (bindsOf vbs).
Let pdu := requestPDU tag id a b (bindsOf vbs).
Let body := encodeInteger version ++ encodeOctetString community ++ pdu.
Let data := requestMessage version community pdu.
  Hypothesis Hlen : len data <= MaxInt32.
  Hypothesis Hversion : wire_int version.
  Hypothesis Hid : wire_int id.
  Hypothesis Ha : wire_int a.
  Hypothesis Hb : wire_int b.
  Hypothesis Hvbs : Forall (fun vb => arcs_fit (fst (fst vb))) vbs.

Let p0 := hlen (len body).
Let p1 := p0 + len (encodeInteger version).
Let p2 := p1 + len (encodeOctetString community).
Let p3 := p2 + hlen (len pduBody).
Let p4 := p3 + len (encodeInteger id).
Let p5 := p4 + len (encodeInteger a).
Let p6 := p5 + len (encodeInteger b).

Lemma at_data : holds_at data 0 (tlv ASN1_SEQUENCE body).
Proof. apply holds_at_self. Qed.
Lemma at_version : holds_at data p0 (encodeInteger version).
Proof. pose proof (holds_at_body _ _ _ _ at_data) as H. by apply holds_at_app in H as [H _]. Qed.
Lemma at_community : holds_at data p1 (encodeOctetString community).
Proof.
  pose proof (holds_at_body _ _ _ _ at_data) as H. apply holds_at_app in H as [_ H].
  by apply holds_at_app in H as [H _].
Qed.
Lemma at_pdu : holds_at data p2 (tlv tag pduBody).
Proof.
  pose proof (holds_at_body _ _ _ _ at_data) as H. apply holds_at_app in H as [_ H].
  by apply holds_at_app in H as [_ H].
Qed.
Lemma at_id : holds_at data p3 (encodeInteger id).
Proof. pose proof (holds_at_body _ _ _ _ at_pdu) as H. by apply holds_at_app in H as [H _]. Qed.
Lemma at_ab : holds_at data p4 (encodeInteger a ++ encodeInteger b ++ encodeSequence (bindsOf vbs)).
Proof. pose proof (holds_at_body _ _ _ _ at_pdu) as H. by apply holds_at_app in H as [_ H]. Qed.
Lemma at_binds : holds_at data p6 (encodeSequence (bindsOf vbs)).
Proof.
  pose proof at_ab as H. apply holds_at_app in H as [_ H]. by apply holds_at_app in H as [_ H].
Qed.

Lemma data_len : 10 <= len data.
Proof.
  pose proof (holds_at_bounds _ _ _ at_binds) as H. generalize dependent (len data). intros n _ H.
  rewrite encodeSequence_tlv, len_tlv in H.
  unfold p6, p5, p4, p3, p2, p1, p0 in H. rewrite !encodeInteger_tlv, encodeOctetString_tlv, !len_tlv in H.
  pose proof (len_nonneg community). pose proof (len_nonneg (bindsOf vbs)).
  pose proof (integerBody_len _ Hversion). pose proof (integerBody_len _ Hid).
  repeat match goal with H : context [hlen ?n] |- _ =>
    lazymatch goal with _ : 2 <= hlen n |- _ => fail | _ => pose proof (hlen_pos n) end end.
  pose proof (integerBody_len _ Ha). pose proof (integerBody_len _ Hb). lia.
Qed.

Lemma incoming_start_at : incoming_start data = Ok (Some p0).
Proof.
  unfold incoming_start. pose proof data_len. case_if; [lia|].
  rewrite (holds_at_index _ _ _ _ at_data). cbn [res_bind]. rewrite Z.eqb_refl. cbn [negb].
  change 1 with (0 + 1). rewrite (holds_at_length _ _ _ _ at_data) by (by eapply holds_at_fits, at_data).
  cbn [res_bind]. pose proof (len_nonneg body). case_if; [lia|]. done.
Qed.

Lemma at_community_len : len community <= MaxInt32.
Proof. eapply holds_at_fits; [done|apply at_community]. Qed.
Lemma at_pdu_len : len pduBody <= MaxInt32.
Proof. eapply holds_at_fits; [done|apply at_pdu]. Qed.

Lemma parseIncomingRequest_at arcs t c rest :
  vbs = (arcs, t, c) :: rest -> servedPDUTag tag = true ->
  parseIncomingRequest data =
    Ok {| Community := community; RequestID := id; OID := dotted arcs; Version := version;
          CommunityParsed := true |}.
Proof.
  intros Hne Htag. unfold parseIncomingRequest. rewrite incoming_start_at. cbn [res_bind].
  rewrite (incoming_int_at _ _ _ _ version Hversion at_version). cbn [res_bind]. fold p1.
  rewrite (incoming_community_at _ _ _ community at_community_len at_community). cbn [res_bind]. fold p2.
  unfold incoming_pdu. pose proof (holds_at_bounds _ _ _ at_pdu) as Hbd. rewrite len_tlv in Hbd.
  pose proof (hlen_pos (len pduBody)). pose proof (len_nonneg pduBody). case_if; [lia|].
  rewrite (holds_at_index _ _ _ _ at_pdu). cbn [res_bind]. rewrite Htag. cbn [negb].
  rewrite (holds_at_length _ _ _ _ at_pdu at_pdu_len). cbn [res_bind]. case_if; [lia|].
  fold p3. rewrite (incoming_int_at _ _ _ _ id Hid at_id). cbn [res_bind].
  rewrite (incoming_skip_at _ _ a b _ Ha Hb at_ab). cbn [res_bind].
  pose proof at_binds as Hbs. unfold p6, p5, p4 in Hbs. rewrite Hne in Hbs, Hvbs.
  inversion_clear Hvbs as [|? ? Hfit _]. by rewrite (incoming_varbinds_at _ _ _ _ _ _ _ Hlen Hfit Hbs).
Qed.

Lemma requestVarBindListPos_at : requestVarBindListPos data = Ok (Some (p6, p3 + len pduBody)).
Proof.
  unfold requestVarBindListPos. rewrite (holds_at_tag _ _ _ _ at_data), Z.eqb_refl. cbn [res_bind negb].
  change 1 with (0 + 1). rewrite (holds_at_length _ _ _ _ at_data) by (by eapply holds_at_fits, at_data).
  cbn [res_bind]. pose proof (len_nonneg body). case_if; [lia|]. cbn [Z.add]. fold p0.
  rewrite (skip_field_at _ _ _ (integerBody version) (integerBody_MaxInt32 _ Hversion) at_version).
  cbn [res_bind]. rewrite <- encodeInteger_tlv. fold p1.
  rewrite (skip_field_at _ _ _ community at_community_len at_community). cbn [res_bind].
  rewrite <- encodeOctetString_tlv. fold p2.
  pose proof (holds_at_bounds _ _ _ at_pdu) as Hbd. rewrite len_tlv in Hbd.
  pose proof (hlen_pos (len pduBody)). pose proof (len_nonneg pduBody). case_if; [lia|].
  rewrite (holds_at_length _ _ _ _ at_pdu at_pdu_len). cbn [res_bind]. case_if; [lia|]. fold p3.
  cbn [skip_ints]. pose proof at_ab as Hab. apply holds_at_app in Hab as [Hia Hab].
  apply holds_at_app in Hab as [Hib _].
  rewrite (skip_field_at _ _ _ (integerBody id) (integerBody_MaxInt32 _ Hid) at_id). cbn [res_bind].
  rewrite <- encodeInteger_tlv. fold p4.
  rewrite (skip_field_at _ _ _ (integerBody a) (integerBody_MaxInt32 _ Ha) Hia). cbn [res_bind].
  rewrite <- encodeInteger_tlv. fold p5.
  rewrite (skip_field_at _ _ _ (integerBody b) (integerBody_MaxInt32 _ Hb) Hib). cbn [res_bind].
  by rewrite <- encodeInteger_tlv.
Qed.
End layout.

(** ** The readers agree about where the PDU is *)

(** The offset and the fields [parseIncomingRequest] has read when it looks for
    its PDU tag. *)
Definition incoming_envelope (data : bytes) : res (option (SNMPRequest * Z)) :=
  let! start := incoming_start data in
  match start with
  | None => Ok None
  | Some pos =>
      let! (req, pos) := incoming_int set_Version data pos defaultRequest in
      let! rp := incoming_community data pos req in
      Ok (Some rp)
  end.

Definition tag_or_default (data : bytes) (pos : Z) : res Z :=
  if pos <? len data then index data pos else Ok ASN1_GET_REQUEST.

Lemma parseIncomingRequest_envelope data :
  parseIncomingRequest data =
    (let! e := incoming_envelope data in
     match e with None => Ok defaultRequest | Some (req, pos) => incoming_pdu data pos req end).
Proof.
  unfold parseIncomingRequest, incoming_envelope.
  destruct (incoming_start data) as [[pos|]| |]; cbn [res_bind]; try done.
  destruct (incoming_int _ data pos _) as [[req p]| |]; cbn [res_bind]; try done.
  by destruct (incoming_community data p req) as [[? ?]| |].
Qed.

Lemma getPDUType_envelope data :
  bytes_ok data ->
  getPDUType data =
    (let! e := incoming_envelope data in
     match e with None => Ok ASN1_GET_REQUEST | Some (_, pos) => tag_or_default data pos end).
Proof.
  intros Hok. unfold getPDUType, incoming_envelope, incoming_start. case_if; [done|].
  destruct (index data 0) as [b0| |]; cbn [res_bind]; [|done..]. destruct (negb (b0 =? _)); [done|].
  destruct (wp_Ok (parseLength data 1) (fun '(n, p) => 0 <= p)) as ([n p] & -> & Hp);
    [apply parseLength_wp; [done|lia|intros; lia]|]. cbn [res_bind]. destruct (n <? 0) eqn:E1; [done|].
  cbn [res_bind]. unfold incoming_int.
  destruct (wp_Ok (tag_at data p ASN1_INTEGER) (fun _ => True)) as (t & -> & _);
    [apply wp_tag_at; [done|auto]|]. cbn [res_bind].
  assert (Hcomm : forall q r, 0 <= q ->
    (let! t := tag_at data q ASN1_OCTET_STRING in
     let! pos := (if t then
         let! (communityLen, newPos) := parseLength data (q + 1) in
         Ok (if (0 <=? communityLen) && (newPos + communityLen <=? len data)
             then newPos + communityLen else newPos)
       else Ok q) in
     tag_or_default data pos) =
    (let! rp := incoming_community data q r in
     let! e := Ok (Some rp) in
     match e with None => Ok ASN1_GET_REQUEST | Some (_, pos) => tag_or_default data pos end)).
  { intros q r Hq. unfold incoming_community.
    destruct (tag_at data q ASN1_OCTET_STRING) as [t'| |]; cbn [res_bind]; [|done..]. destruct t'; [|done].
    destruct (wp_Ok (parseLength data (q + 1)) (fun '(n, p) => 0 <= p)) as ([n' p'] & -> & Hp');
      [apply parseLength_wp; [done|lia|intros; lia]|]. cbn [res_bind].
    destruct ((0 <=? n') && (p' + n' <=? len data)) eqn:E2; [|done]. zbool.
    destruct (wp_Ok (slice data p' (p' + n')) (fun _ => True)) as (c & -> & _);
      [apply wp_slice; [lia|lia|done]|]. done. }
  destruct t; cbn [res_bind].
  - destruct (wp_Ok (parseLength data (p + 1)) (fun '(n, p) => 0 <= p)) as ([vl vp] & -> & Hvp);
      [apply parseLength_wp; [done|lia|intros; lia]|]. cbn [res_bind].
    destruct (wp_Ok (parseBERInt data vp vl) (fun _ => True)) as ([v ok] & -> & _);
      [by apply parseBERInt_wp|]. cbn [res_bind].
    specialize (Hcomm (if 0 <? vl then vp + vl else vp) (if ok then set_Version v defaultRequest else defaultRequest)).
    unfold tag_or_default in Hcomm. cbn [res_bind] in Hcomm. rewrite Hcomm by (case_if; lia).
    by destruct (incoming_community _ _ _) as [[? ?]| |].
  - specialize (Hcomm p defaultRequest Hp). unfold tag_or_default in Hcomm. rewrite Hcomm.
    by destruct (incoming_community _ _ _) as [[? ?]| |].
Qed.

(** [incoming_pdu] leaves the request alone unless the tag is a served one. *)
Lemma incoming_pdu_unserved data pos req tag :
  tag_or_default data pos = Ok tag -> servedPDUTag tag = false -> incoming_pdu data pos req = Ok req.
Proof.
  unfold tag_or_default, incoming_pdu. intros Ht Hs. destruct (pos <? len data) eqn:E.
  - case_if; [lia|]. rewrite Ht. cbn [res_bind]. by rewrite Hs.
  - case_if; [done|lia].
Qed.

Lemma incoming_envelope_fields data req pos :
  incoming_envelope data = Ok (Some (req, pos)) ->
  RequestID req = RequestID defaultRequest /\ OID req = OID defaultRequest.
Proof.
  unfold incoming_envelope. destruct (incoming_start data) as [[start|]| |]; cbn [res_bind]; try done.
  assert (Hi : forall r p, incoming_int set_Version data start defaultRequest = Ok (r, p) ->
    RequestID r = RequestID defaultRequest /\ OID r = OID defaultRequest).
  { intros r p. unfold incoming_int. destruct (tag_at _ _ _) as [[|]| |]; cbn [res_bind]; [|naive_solver|done..].
    destruct (parseLength _ _) as [[? ?]| |]; cbn [res_bind]; [|done..].
    destruct (parseBERInt _ _ _) as [[? ok]| |]; cbn [res_bind]; [|done..]. intros [= <- _]. by destruct ok. }
  destruct (incoming_int _ _ _ _) as [[r p]| |]; cbn [res_bind]; try done. specialize (Hi r p eq_refl).
  unfold incoming_community. destruct (tag_at _ _ _) as [[|]| |]; cbn [res_bind];
    [|by intros [= <- _]|done..].
  destruct (parseLength _ _) as [[? ?]| |]; cbn [res_bind]; [|done..]. case_if; [|by intros [= <- _]].
  destruct (slice _ _ _) as [c| |]; cbn [res_bind]; [|done..]. by intros [= <- _].
Qed.

Lemma wp_parseVarBindNames data pos (P : list bytes * bool -> Prop) :
  bytes_ok data -> 0 <= pos -> (forall l ok, (ok = false -> l = []) -> P (l, ok)) ->
  wp (parseVarBindNames data pos) P.
Proof.
  intros Hok Hp HP. rewrite parseVarBindNames_spec by done. wp_step.
  eapply wp_mono; [by apply parseVarBinds_safe|]. intros [| |[bs c]] _; simpl; by apply HP.
Qed.

Lemma parseAllOIDsFromRequest_wp data (P : list bytes * bool -> Prop) :
  bytes_ok data -> (forall l ok, (ok = false -> l = []) -> P (l, ok)) -> wp (parseAllOIDsFromRequest data) P.
Proof.
  intros Hok HP. unfold parseAllOIDsFromRequest. wp_step.
  apply requestVarBindListPos_wp; [done|by apply HP|]. intros p e Hp _. by apply wp_parseVarBindNames.
Qed.

Lemma parseIncomingRequest_safe data : bytes_ok data -> safe (parseIncomingRequest data).
Proof.
  intros Hok. unfold safe, parseIncomingRequest. wp_step. apply incoming_start_wp; [done..|].
  intros p Hp. wp_step. apply incoming_int_wp; [done..|]. intros r p' Hp'. wp_step.
  apply incoming_community_wp; [done..|]. intros r' p'' Hp''. by apply incoming_pdu_safe.
Qed.

Lemma getPDUType_safe data : bytes_ok data -> safe (getPDUType data).
Proof.
  intros Hok. unfold safe. rewrite getPDUType_envelope by done. unfold incoming_envelope.
  wp_step. wp_step. apply incoming_start_wp; [done..|].
  intros p Hp. wp_step. apply incoming_int_wp; [done..|]. intros r p' Hp'. wp_step.
  apply incoming_community_wp; [done..|]. intros r' p'' Hp''. simpl. unfold tag_or_default.
  wp_step; [|done]. by apply wp_index; [lia|].
Qed.

Lemma parseGetBulkParams_at version community id a b vbs :
  let data := requestMessage version community (requestPDU ASN1_GET_BULK id a b (bindsOf vbs)) in
  len data <= MaxInt32 -> wire_int version -> wire_int id -> wire_int a -> wire_int b -> 0 <= a -> 0 <= b ->
  parseGetBulkParams data = Ok (a, b).
Proof.
  intros data Hlen Hv Hid Ha Hb Ha0 Hb0.
  set (pduBody := encodeInteger id ++ encodeInteger a ++ encodeInteger b ++ encodeSequence (bindsOf vbs)).
  set (body := encodeInteger version ++ encodeOctetString community ++ tlv ASN1_GET_BULK pduBody).
  assert (Hslice : forall p, 0 <= p -> p = len data -> slice data 0 p = Ok data).
  { intros p Hp ->. unfold slice. case_if; [lia|]. rewrite drop_0, take_ge by (unfold len; lia). done. }
  assert (Hd : holds_at data 0 (tlv ASN1_SEQUENCE body)) by apply holds_at_self.
  assert (Hlend : len data = hlen (len body) + len body) by apply len_tlv.
  clearbody data. pose proof (hlen_pos (len body)) as Hh.
  pose proof (holds_at_body _ _ _ _ Hd) as H. apply holds_at_app in H as [H0 H].
  apply holds_at_app in H as [H1 H2]. pose proof (holds_at_body _ _ _ _ H2) as H3.
  apply holds_at_app in H3 as [H3 H4]. apply holds_at_app in H4 as [H4 H5]. apply holds_at_app in H5 as [H5 _].
  unfold parseGetBulkParams. rewrite (holds_at_tag _ _ _ _ Hd), Z.eqb_refl. cbn [res_bind negb].
  change (parseLength data 1) with (parseLength data (0 + 1)). rewrite (holds_at_length _ _ _ _ Hd) by (by eapply holds_at_fits, Hd).
  cbn [res_bind]. pose proof (len_nonneg body). case_if; [lia|]. rewrite Hslice by lia. cbn [res_bind].
  rewrite (skip_field_at _ _ _ (integerBody version) (integerBody_MaxInt32 _ Hv) H0). cbn [res_bind].
  rewrite <- encodeInteger_tlv.
  rewrite (skip_field_at _ _ _ community) by (try (eapply holds_at_fits, H1; done); exact H1).
  cbn [res_bind]. rewrite <- encodeOctetString_tlv.
  rewrite (holds_at_tag _ _ _ _ H2), Z.eqb_refl. cbn [res_bind negb].
  rewrite (holds_at_length _ _ _ _ H2) by (by eapply holds_at_fits, H2). cbn [res_bind].
  pose proof (holds_at_bounds _ _ _ H2) as Hb2. rewrite len_tlv in Hb2. pose proof (len_nonneg pduBody). pose proof (hlen_pos (len pduBody)).
  assert (Hend : hlen (len body) + len body = 0 + hlen (len body) + len (encodeInteger version) +
    len (encodeOctetString community) + hlen (len pduBody) + len pduBody).
  { assert (Hbl : len body = len (encodeInteger version) + (len (encodeOctetString community) +
      len (tlv ASN1_GET_BULK pduBody))) by (unfold body; by rewrite !len_app).
    rewrite (len_tlv _ pduBody) in Hbl. lia. }
  case_if; [lia|]. rewrite Hslice by lia. cbn [res_bind].
  rewrite (skip_field_at _ _ _ (integerBody id) (integerBody_MaxInt32 _ Hid) H3). cbn [res_bind].
  rewrite <- encodeInteger_tlv. unfold bulk_params_tail, nonneg_param.
  rewrite (holds_at_tag _ _ _ _ H4). cbn [res_bind]. change (negb (ASN1_INTEGER =? ASN1_INTEGER)) with false. cbv iota.
  rewrite (holds_at_length _ _ _ _ H4) by by apply integerBody_MaxInt32. cbn [res_bind].
  pose proof (len_nonneg (integerBody a)). pose proof (len_nonneg (integerBody b)). case_if; [lia|].
  rewrite holds_at_int by (done || by eapply holds_at_body, H4). cbn [res_bind].
  rewrite <- (Z.add_assoc _ (hlen (len (integerBody a)))), <- (len_tlv ASN1_INTEGER), <- encodeInteger_tlv.
  rewrite (holds_at_tag _ _ _ _ H5). cbn [res_bind]. change (negb (ASN1_INTEGER =? ASN1_INTEGER)) with false. cbv iota.
  rewrite (holds_at_length _ _ _ _ H5) by by apply integerBody_MaxInt32. cbn [res_bind]. case_if; [lia|].
  rewrite holds_at_int by (done || by eapply holds_at_body, H5). cbn [res_bind andb].
  do 2 (case_if; [|lia]). done.
Qed.

(** The octets of a sample GETBULK: two names, non-repeaters 1,
    max-repetitions 300, a padded community. *)
Definition sample_binds : list (list Z * Z * bytes) :=
  [([1; 3; 6; 1; 2; 1; 1; 3; 0], ASN1_NULL, []); ([1; 3; 6; 1; 2; 1; 2; 2; 1; 10], ASN1_NULL, [])].
Definition sample_bulk : bytes :=
  requestMessage 1 (str "public") (requestPDU ASN1_GET_BULK 70000 1 300 (bindsOf sample_binds)).

Lemma sample_bulk_ok : bytes_ok sample_bulk.
Proof. apply bytes_okb_ok. vm_compute. reflexivity. Qed.

(** ** Theorems *)

(** No datagram can take the agent down in its parsers: on arbitrary octets
    every v1/v2c reader (the lenient request parser, the PDU classifier, the
    strict name walker, the SET binding walker at any offset, the GETBULK
    parameter reader) returns, with no out-of-range read and with its loops
    finished. *)
Theorem request_parsers_safe data pos :
  bytes_ok data -> 0 <= pos ->
  safe (parseIncomingRequest data) /\ safe (getPDUType data) /\ safe (parseAllOIDsFromRequest data) /\
  safe (parseVarBinds data pos) /\ safe (parseGetBulkParams data).
Proof.
  intros Hok Hp. split_and!; [by apply parseIncomingRequest_safe|by apply getPDUType_safe| | |].
  - by apply parseAllOIDsFromRequest_wp.
  - by apply parseVarBinds_safe.
  - by apply parseGetBulkParams_wp.
Qed.

Lemma request_parsers_safe_witness :
  let data := [0x30; 0x84; 0xff; 0xff; 0xff; 0xff; 2; 1; 1; 4; 0x80; 0xa1] in
  safe (parseIncomingRequest data) /\ safe (getPDUType data) /\ safe (parseAllOIDsFromRequest data) /\
  safe (parseVarBinds data 6) /\ safe (parseGetBulkParams data).
Proof.
  apply (request_parsers_safe [0x30; 0x84; 0xff; 0xff; 0xff; 0xff; 2; 1; 1; 4; 0x80; 0xa1] 6);
    [solve_bytes|lia].
Defined.

(** The classifier and the request parser read one envelope: the tag
    [getPDUType] dispatches on is the octet at the very offset where
    [parseIncomingRequest] looks for its PDU, and when that tag is not a served
    one the request keeps the default request-id and name. *)
Theorem getPDUType_agrees data :
  bytes_ok data ->
  exists tag req, getPDUType data = Ok tag /\ parseIncomingRequest data = Ok req /\
    (forall r pos, incoming_envelope data = Ok (Some (r, pos)) ->
       tag_or_default data pos = Ok tag /\ incoming_pdu data pos r = Ok req) /\
    (servedPDUTag tag = false -> RequestID req = 123 /\ OID req = str ".1.3.6.1.2.1.1.1.0").
Proof.
  intros Hok. destruct (proj1 (safe_Ok _) (getPDUType_safe data Hok)) as [tag Ht].
  destruct (proj1 (safe_Ok _) (parseIncomingRequest_safe data Hok)) as [req Hr].
  exists tag, req. split_and!; [done|done| |].
  - intros r pos He. rewrite getPDUType_envelope, He in Ht by done.
    by rewrite parseIncomingRequest_envelope, He in Hr.
  - intros Hs. rewrite getPDUType_envelope in Ht by done. rewrite parseIncomingRequest_envelope in Hr.
    destruct (incoming_envelope data) as [[[r pos]|]| |] eqn:E; cbn [res_bind] in *; try done.
    + rewrite (incoming_pdu_unserved _ _ _ _ Ht Hs) in Hr. simplify_eq.
      by apply incoming_envelope_fields in E.
    + by simplify_eq.
Qed.

Lemma getPDUType_agrees_witness :
  exists tag req, getPDUType sample_bulk = Ok tag /\ parseIncomingRequest sample_bulk = Ok req /\
    (forall r pos, incoming_envelope sample_bulk = Ok (Some (r, pos)) ->
       tag_or_default sample_bulk pos = Ok tag /\ incoming_pdu sample_bulk pos r = Ok req) /\
    (servedPDUTag tag = false -> RequestID req = 123 /\ OID req = str ".1.3.6.1.2.1.1.1.0").
Proof. apply (getPDUType_agrees sample_bulk). apply sample_bulk_ok. Defined.

(** The GET-family name walker and the SET binding walker are the same
    walker: at any offset of any datagram they give the same verdict, and the
    names of the bindings the second returns are the names the first returns. *)
Theorem parseVarBindNames_agrees data pos :
  bytes_ok data -> 0 <= pos ->
  exists v, parseVarBinds data pos = Ok v /\
    parseVarBindNames data pos = Ok (match v with
      | ListAbsent => ([], true)
      | ListMalformed => ([], false)
      | ListParsed (binds, _) => (map vb_name binds, true)
      end).
Proof.
  intros Hok Hp. destruct (proj1 (safe_Ok _) (parseVarBinds_safe data pos Hok Hp)) as [v Hv].
  exists v. split; [done|]. rewrite parseVarBindNames_spec, Hv by done. by destruct v as [| |[? ?]].
Qed.

Lemma parseVarBindNames_agrees_witness :
  exists v, parseVarBinds sample_bulk 24 = Ok v /\
    parseVarBindNames sample_bulk 24 = Ok (match v with
      | ListAbsent => ([], true)
      | ListMalformed => ([], false)
      | ListParsed (binds, _) => (map vb_name binds, true)
      end).
Proof. apply (parseVarBindNames_agrees sample_bulk 24); [apply sample_bulk_ok|lia]. Defined.


Lemma sample_binds_fit : Forall (fun vb => arcs_fit (fst (fst vb))) sample_binds.
Proof.
  repeat (apply List.Forall_cons; [split; [split; [unfold pair_ok, maxOIDSubIdentifier; lia|]|vm_compute; discriminate]|]).
  - repeat (apply List.Forall_cons; [unfold subid_ok, maxOIDSubIdentifier; lia|]). constructor.
  - repeat (apply List.Forall_cons; [unfold subid_ok, maxOIDSubIdentifier; lia|]). constructor.
  - constructor.
Qed.


(** GETBULK parameters: on any datagram the reader answers two non-negative
    64-bit values (so the list split never sees a negative index), and on a
    well-formed GETBULK they are the manager's non-repeaters and
    max-repetitions. *)
Theorem getbulk_params data :
  bytes_ok data ->
  exists nr mr, parseGetBulkParams data = Ok (nr, mr) /\ 0 <= nr <= MaxInt64 /\ 0 <= mr <= MaxInt64 /\
    forall version community id a b vbs,
      data = requestMessage version community (requestPDU ASN1_GET_BULK id a b (bindsOf vbs)) ->
      len data <= MaxInt32 -> wire_int version -> wire_int id -> 0 <= a <= MaxInt64 -> 0 <= b <= MaxInt64 ->
      nr = a /\ mr = b.
Proof.
  intros Hok. destruct (wp_Ok (parseGetBulkParams data) (fun '(a, b) => 0 <= a <= MaxInt64 /\ 0 <= b <= MaxInt64))
    as ([nr mr] & Heq & Hnr & Hmr); [by apply parseGetBulkParams_wp|].
  exists nr, mr. do 3 (split; [done|]). intros version community id a b vbs -> Hl Hv Hid Ha Hb.
  rewrite parseGetBulkParams_at in Heq by (try done; unfold wire_int; lia). by simplify_eq.
Qed.

Lemma getbulk_params_witness :
  exists nr mr, parseGetBulkParams sample_bulk = Ok (nr, mr) /\ 0 <= nr <= MaxInt64 /\ 0 <= mr <= MaxInt64 /\
    forall version community id a b vbs,
      sample_bulk = requestMessage version community (requestPDU ASN1_GET_BULK id a b (bindsOf vbs)) ->
      len sample_bulk <= MaxInt32 -> wire_int version -> wire_int id ->
      0 <= a <= MaxInt64 -> 0 <= b <= MaxInt64 -> nr = a /\ mr = b.
Proof. apply (getbulk_params sample_bulk). apply sample_bulk_ok. Defined.
