(* ===== verification/Response.v ===== *)
(** * Building a v1/v2c response (snmp_response.go, datagram_budget.go)

    The response encoder GET, GETNEXT, GETBULK and SET share: exact sizing
    against the datagram budget, the overflow rules of RFC 3416, the SNMPv1
    diversions of RFC 3584, and the message framing.  [maxSNMPResponseSize], a
    package variable set once at startup from [-datagram-mtu], is an argument. *)

From S2P Require Import Prelude GoStrings Ber Oid TypedValue Request.

(** ** The datagram budget *)

Definition defaultLinkMTU : Z := 1500.
Definition minLinkMTU : Z := 576.
Definition udpHeaderBytes : Z := 8.
Definition ipv4HeaderBytes : Z := 20.
Definition ipv6HeaderBytes : Z := 40.

(** The package variables [recomputeDatagramBudgets] refreshes. *)
Record budgets := {
  linkMTU : Z;
  maxFlowPayloadIPv4 : Z;
  maxFlowPayloadIPv6 : Z;
  flowBufSize : Z;
  maxTrapPDU : Z;
  maxSNMPResponse : Z;
}.

Definition recomputeDatagramBudgets (mtu : Z) : budgets :=
  {| linkMTU := mtu;
     maxFlowPayloadIPv4 := mtu - ipv4HeaderBytes - udpHeaderBytes;
     maxFlowPayloadIPv6 := mtu - ipv6HeaderBytes - udpHeaderBytes;
     flowBufSize := mtu;
     maxTrapPDU := mtu - ipv4HeaderBytes - udpHeaderBytes;
     maxSNMPResponse := mtu - ipv4HeaderBytes - udpHeaderBytes |}.

(** [None] is the error return, which leaves every variable as it was. *)
Definition SetLinkMTU (mtu : Z) (b : budgets) : option budgets :=
  if (mtu <? minLinkMTU) || (65535 <? mtu) then None else Some (recomputeDatagramBudgets mtu).

(** ** Error status *)

Definition snmpErrNoError : Z := 0.
Definition snmpErrTooBig : Z := 1.
Definition snmpErrNoSuchName : Z := 2.
Definition snmpErrBadValue : Z := 3.
Definition snmpErrReadOnly : Z := 4.
Definition snmpErrGenErr : Z := 5.
Definition snmpErrNoAccess : Z := 6.
Definition snmpErrWrongType : Z := 7.
Definition snmpErrWrongLength : Z := 8.
Definition snmpErrWrongEncoding : Z := 9.
Definition snmpErrWrongValue : Z := 10.
Definition snmpErrNoCreation : Z := 11.
Definition snmpErrInconsistentValue : Z := 12.
Definition snmpErrResourceUnavailable : Z := 13.
Definition snmpErrCommitFailed : Z := 14.
Definition snmpErrUndoFailed : Z := 15.
Definition snmpErrAuthorizationError : Z := 16.
Definition snmpErrNotWritable : Z := 17.
Definition snmpErrInconsistentName : Z := 18.

Definition v1SetErrorStatus (v2 : Z) : Z :=
  if (v2 =? snmpErrNoAccess) || (v2 =? snmpErrNotWritable) || (v2 =? snmpErrNoCreation) ||
     (v2 =? snmpErrInconsistentName) || (v2 =? snmpErrAuthorizationError) then snmpErrNoSuchName
  else if (v2 =? snmpErrWrongType) || (v2 =? snmpErrWrongLength) || (v2 =? snmpErrWrongEncoding) ||
     (v2 =? snmpErrWrongValue) || (v2 =? snmpErrInconsistentValue) then snmpErrBadValue
  else if (v2 =? snmpErrResourceUnavailable) || (v2 =? snmpErrCommitFailed) ||
     (v2 =? snmpErrUndoFailed) then snmpErrGenErr
  else v2.

(** ** Framing *)

Definition encodeGetResponseAt (req : SNMPRequest) (varBindList : bytes) (errStatus errIndex : Z) : bytes :=
  let varBindSequence := [ASN1_SEQUENCE] ++ encodeLength (len varBindList) ++ varBindList in
  let pduContents := encodeInteger (RequestID req) ++ encodeInteger errStatus ++
                     encodeInteger errIndex ++ varBindSequence in
  let pdu := [SNMP_GET_RESPONSE] ++ encodeLength (len pduContents) ++ pduContents in
  encodeSequence (encodeInteger (Version req) ++ encodeOctetString (Community req) ++ pdu).

Definition encodeGetResponse (req : SNMPRequest) (varBindList : bytes) (errStatus : Z) : bytes :=
  encodeGetResponseAt req varBindList errStatus 0.

Definition createSNMPResponse (oid value requestData : bytes) : res bytes :=
  let! req := parseIncomingRequest requestData in
  if (Version req =? snmpVersion1) && isSNMPExceptionValue value then
    Ok (encodeGetResponseAt req (encodeVarBind oid encodeNull) snmpErrNoSuchName 1)
  else
  let varBind := encodeSequence (encodeOID oid ++ encodeTypedValue oid value) in
  let varBindList := encodeSequence varBind in
  let pduContents := encodeInteger (RequestID req) ++ encodeInteger 0 ++ encodeInteger 0 ++ varBindList in
  let pdu := [SNMP_GET_RESPONSE] ++ encodeLength (len pduContents) ++ pduContents in
  Ok (encodeSequence (encodeInteger (Version req) ++ encodeOctetString (Community req) ++ pdu)).

Definition createSetResponse (requestData echoed : bytes) (errStatus errIndex : Z) : res bytes :=
  let! req := parseIncomingRequest requestData in
  let errStatus := if Version req =? snmpVersion1 then v1SetErrorStatus errStatus else errStatus in
  let errIndex := if errStatus =? snmpErrNoError then 0 else errIndex in
  Ok (encodeGetResponseAt req echoed errStatus errIndex).

(** ** Sizing *)

Definition lenBytesFor (n : Z) : Z := if n <? 128 then 1 else if n <? 256 then 2 else 3.

Definition snmpMessageSizeFor (msgPrefix pduPrefix varBindLen : Z) : Z :=
  let vbSeq := 1 + lenBytesFor varBindLen + varBindLen in
  let pduContents := pduPrefix + vbSeq in
  let pdu := 1 + lenBytesFor pduContents + pduContents in
  let msgContents := msgPrefix + pdu in
  1 + lenBytesFor msgContents + msgContents.

(** ** The rules a PDU type selects *)

Inductive snmpOverflowRule := overflowRuleUnset | overflowTruncate | overflowTooBig.
Inductive v1DiversionRule :=
| v1DivertUnset
| v1DivertNothing
| v1DivertSentinel
| v1DivertSentinelAndCounter64.
#[export] Instance overflow_eq_dec : EqDecision snmpOverflowRule.
Proof. solve_decision. Defined.
#[export] Instance v1Diversion_eq_dec : EqDecision v1DiversionRule.
Proof. solve_decision. Defined.

(** [echoNames]: [None] is Go's nil. *)
Record varbindResponseRules := {
  overflow : snmpOverflowRule;
  v1Diversion : v1DiversionRule;
  echoNames : option (list bytes);
}.

Definition resolveDefaults (r : varbindResponseRules) : varbindResponseRules * bool :=
  let o_unset := bool_decide (overflow r = overflowRuleUnset) in
  let d_unset := bool_decide (v1Diversion r = v1DivertUnset) in
  ({| overflow := if o_unset then overflowTooBig else overflow r;
      v1Diversion := if d_unset then v1DivertSentinelAndCounter64 else v1Diversion r;
      echoNames := echoNames r |}, o_unset || d_unset).

(** ** createVarbindResponse *)

(** [isSNMPExceptionValue(responses[i])], or a Counter64-typed name under the
    GET rule. *)
Definition offends (rule : v1DiversionRule) (oid response : bytes) : bool :=
  isSNMPExceptionValue response ||
  (bool_decide (rule = v1DivertSentinelAndCounter64) && (snmpTypeTag oid =? ASN1_COUNTER64)).

(** The 1-based position of the first offending binding. *)
Fixpoint first_offence (rule : v1DiversionRule) (i : Z) (binds : list (bytes * bytes)) : option Z :=
  match binds with
  | [] => None
  | (oid, response) :: binds' =>
      if offends rule oid response then Some (i + 1) else first_offence rule (i + 1) binds'
  end.

Definition echoNull (names : list bytes) : bytes := concat (map (fun o => encodeVarBind o encodeNull) names).

Definition varBindingOf (oid response : bytes) : bytes :=
  let contents := encodeOID oid ++ encodeTypedValue oid response in
  [ASN1_SEQUENCE] ++ encodeLength (len contents) ++ contents.

Section responses.
  Variable maxSNMPResponseSize : Z.

(** The sizing loop: the list built and whether it broke off. *)
Fixpoint fit_loop (msgPrefix pduPrefix : Z) (rule : snmpOverflowRule)
    (binds : list (bytes * bytes)) (varBindList : bytes) : bytes * bool :=
  match binds with
  | [] => (varBindList, false)
  | (oid, response) :: binds' =>
      let varBinding := varBindingOf oid response in
      if maxSNMPResponseSize <? snmpMessageSizeFor msgPrefix pduPrefix (len varBindList + len varBinding)
      then (if (len varBindList =? 0) && bool_decide (rule = overflowTruncate)
            then varBindList ++ varBinding else varBindList, true)
      else fit_loop msgPrefix pduPrefix rule binds' (varBindList ++ varBinding)
  end.

Definition msgPrefixOf (req : SNMPRequest) : Z :=
  len (encodeInteger (Version req)) + len (encodeOctetString (Community req)).
Definition pduPrefixOf (req : SNMPRequest) : Z :=
  len (encodeInteger (RequestID req)) + len (encodeInteger 0) + len (encodeInteger 0).

(** The v1 diversion: [None] when no binding offends. *)
Definition v1_divert (req : SNMPRequest) (rules : varbindResponseRules) (oids responses : list bytes)
    : option bytes :=
  if (Version req =? snmpVersion1) && negb (bool_decide (v1Diversion rules = v1DivertNothing)) then
    let names := match echoNames rules with None => oids | Some l => l end in
    let names := if len names =? len oids then names else [] in
    match first_offence (v1Diversion rules) 0 (zip oids responses) with
    | Some i => Some (encodeGetResponseAt req (echoNull names) snmpErrNoSuchName i)
    | None => None
    end
  else None.

Definition createVarbindResponse (oids responses : list bytes) (requestData : bytes)
    (rules : varbindResponseRules) : res bytes :=
  if negb (len oids =? len responses) then
    createSNMPResponse (str ".1.3.6.1.2.1.1.1.0") (str "No data") requestData
  else
  let! req := parseIncomingRequest requestData in
  let '(rules, _) := resolveDefaults rules in
  match v1_divert req rules oids responses with
  | Some msg => Ok msg
  | None =>
      let '(varBindList, truncated) :=
        fit_loop (msgPrefixOf req) (pduPrefixOf req) (overflow rules) (zip oids responses) [] in
      if truncated && bool_decide (overflow rules = overflowTooBig)
      then Ok (encodeGetResponse req [] snmpErrTooBig)
      else Ok (encodeGetResponse req varBindList snmpErrNoError)
  end.

Definition createGetBulkResponse (oids responses : list bytes) (requestData : bytes) : res bytes :=
  createVarbindResponse oids responses requestData
    {| overflow := overflowTruncate; v1Diversion := v1DivertNothing; echoNames := None |}.

Definition createGetResponse (oids responses : list bytes) (requestData : bytes) : res bytes :=
  createVarbindResponse oids responses requestData
    {| overflow := overflowTooBig; v1Diversion := v1DivertSentinelAndCounter64; echoNames := None |}.

Definition createGetNextResponse (names oids responses : list bytes) (requestData : bytes) : res bytes :=
  createVarbindResponse oids responses requestData
    {| overflow := overflowTooBig; v1Diversion := v1DivertSentinel; echoNames := Some names |}.

Definition createTooBigResponse (requestData : bytes) : res bytes :=
  let! req := parseIncomingRequest requestData in
  Ok (encodeGetResponse req [] snmpErrTooBig).

End responses.

(** ** Sizes *)

Lemma encodeGetResponseAt_message req vbl st ix :
  encodeGetResponseAt req vbl st ix =
    requestMessage (Version req) (Community req)
      (requestPDU SNMP_GET_RESPONSE (RequestID req) st ix vbl).
Proof. done. Qed.

#[local] Opaque encodeSequence encodeOctetString encodeInteger.

Lemma lenBytesFor_le n : 0 <= n < 2 ^ 32 -> lenBytesFor n <= len (encodeLength n).
Proof.
  intros Hn. unfold lenBytesFor. destruct (Z.lt_ge_cases n 128) as [Hs|Hs].
  { rewrite encodeLength_short by lia. case_if; [done|lia]. }
  destruct (encodeLength_long n) as (ds & -> & Hok & Hv & Hd & _); [lia|]. rewrite len_cons.
  pose proof (be_val_bound ds Hok) as Hb. rewrite Hv in Hb. do 2 (case_if; [lia|]).
  assert (len ds <> 1) by (intros E1; rewrite E1 in Hb; lia). lia.
Qed.

Lemma lenBytesFor_exact n : 0 <= n < 65536 -> len (encodeLength n) = lenBytesFor n.
Proof.
  intros Hn. pose proof (lenBytesFor_le n). unfold lenBytesFor in *.
  destruct (Z.lt_ge_cases n 128) as [Hs|Hs].
  { rewrite encodeLength_short by lia. case_if; [done|lia]. }
  destruct (encodeLength_long n) as (ds & Heq & Hok & Hv & Hd & Hmin); [lia|].
  rewrite Heq, len_cons in *. case_if; [lia|].
  assert (len ds < 3).
  { destruct (Z.lt_ge_cases (len ds) 3); [done|]. assert (256 ^ 2 <= 256 ^ (len ds - 1)) by (apply Z.pow_le_mono_r; lia). lia. }
  case_if; [|lia]. destruct (Z.eq_dec (len ds) 2) as [E2|]; [|lia]. rewrite E2 in Hmin. lia.
Qed.

Lemma lenBytesFor_mono a b : a <= b -> lenBytesFor a <= lenBytesFor b.
Proof. unfold lenBytesFor. intros. repeat case_if; lia. Qed.
Lemma lenBytesFor_pos n : 1 <= lenBytesFor n <= 3.
Proof. unfold lenBytesFor. repeat case_if; lia. Qed.

Lemma snmpMessageSizeFor_mono m p a b : a <= b -> snmpMessageSizeFor m p a <= snmpMessageSizeFor m p b.
Proof.
  intros Hab. unfold snmpMessageSizeFor. cbv zeta.
  pose proof (lenBytesFor_mono a b Hab) as H1.
  pose proof (lenBytesFor_mono (p + (1 + lenBytesFor a + a)) (p + (1 + lenBytesFor b + b)) ltac:(lia)) as H2.
  match goal with |- 1 + lenBytesFor ?x + _ <= 1 + lenBytesFor ?y + _ =>
    pose proof (lenBytesFor_mono x y ltac:(lia)) end. lia.
Qed.

(** The prefixes of an error response carry the actual status and index. *)
Definition pduPrefixAt (req : SNMPRequest) (st ix : Z) : Z :=
  len (encodeInteger (RequestID req)) + len (encodeInteger st) + len (encodeInteger ix).

Lemma response_len req vbl st ix :
  let vbSeq := hlen (len vbl) + len vbl in
  let pduContents := pduPrefixAt req st ix + vbSeq in
  let pdu := hlen pduContents + pduContents in
  let msgContents := msgPrefixOf req + pdu in
  len (encodeGetResponseAt req vbl st ix) = hlen msgContents + msgContents.
Proof.
  intros vbSeq pduContents pdu msgContents. rewrite encodeGetResponseAt_message.
  unfold requestMessage, requestPDU.
  set (pc := encodeInteger (RequestID req) ++ encodeInteger st ++ encodeInteger ix ++ encodeSequence vbl).
  assert (Hpc : len pc = pduContents).
  { unfold pc. rewrite !len_app, encodeSequence_tlv, len_tlv. unfold pduContents, vbSeq, pduPrefixAt. lia. }
  set (mc := encodeInteger (Version req) ++ encodeOctetString (Community req) ++ tlv SNMP_GET_RESPONSE pc).
  assert (Hmc : len mc = msgContents).
  { unfold mc. rewrite !len_app, len_tlv, Hpc. unfold msgContents, pdu, msgPrefixOf. lia. }
  rewrite encodeSequence_tlv, len_tlv. by rewrite Hmc.
Qed.

Lemma prefixes_nonneg req st ix : 0 <= msgPrefixOf req /\ 0 <= pduPrefixAt req st ix.
Proof.
  unfold msgPrefixOf, pduPrefixAt.
  repeat match goal with |- context [len (?f ?x)] =>
    lazymatch goal with _ : 0 <= len (f x) |- _ => fail | _ => pose proof (len_nonneg (f x)) end end.
  split; lia.
Qed.

(** The sizing function is exact below 64 KiB. *)
Lemma response_size req vbl st ix :
  let size := snmpMessageSizeFor (msgPrefixOf req) (pduPrefixAt req st ix) (len vbl) in
  size < 65536 -> len (encodeGetResponseAt req vbl st ix) = size.
Proof.
  intros size Hs. destruct (prefixes_nonneg req st ix) as [Hm Hp]. pose proof (len_nonneg vbl) as Hv.
  pose proof (response_len req vbl st ix) as Hl. cbv zeta in Hl. rewrite Hl. clear Hl.
  revert Hs. subst size. unfold snmpMessageSizeFor. cbv zeta.
  generalize dependent (msgPrefixOf req). generalize dependent (pduPrefixAt req st ix).
  generalize dependent (len vbl). intros v Hv p Hp m Hm Hs. unfold hlen.
  pose proof (lenBytesFor_pos v). 
  pose proof (lenBytesFor_pos (p + (1 + lenBytesFor v + v))).
  pose proof (lenBytesFor_pos (m + (1 + lenBytesFor (p + (1 + lenBytesFor v + v)) + (p + (1 + lenBytesFor v + v))))).
  rewrite (lenBytesFor_exact v) by lia.
  rewrite (lenBytesFor_exact (p + _)) by lia. rewrite lenBytesFor_exact by lia. lia.
Qed.

(** ** The sizing loop *)

Definition encodeBinds (binds : list (bytes * bytes)) : bytes :=
  concat (map (fun '(o, r) => varBindingOf o r) binds).

Lemma encodeBinds_app a b : encodeBinds (a ++ b) = encodeBinds a ++ encodeBinds b.
Proof. unfold encodeBinds. by rewrite map_app, concat_app. Qed.
Lemma encodeBinds_cons o r b : encodeBinds ((o, r) :: b) = varBindingOf o r ++ encodeBinds b.
Proof. done. Qed.

Lemma varBindingOf_tlv o r : varBindingOf o r = tlv ASN1_SEQUENCE (encodeOID o ++ encodeTypedValue o r).
Proof. done. Qed.
Lemma varBindingOf_pos o r : 2 <= len (varBindingOf o r).
Proof. rewrite varBindingOf_tlv. apply len_tlv_pos. Qed.

#[local] Opaque varBindingOf.

Section fit.
  Context (M mp pp : Z) (rule : snmpOverflowRule).
Let size (l : bytes) := snmpMessageSizeFor mp pp (len l).

(** Either every binding went in and the message fits, or the loop stopped at
    the first binding that would not fit. *)
Lemma fit_loop_spec binds : forall acc,
  (acc <> [] -> size acc <= M) ->
  (fit_loop M mp pp rule binds acc = (acc ++ encodeBinds binds, false) /\
   (acc ++ encodeBinds binds <> [] -> size (acc ++ encodeBinds binds) <= M)) \/
  (exists fit o r rest, binds = fit ++ (o, r) :: rest /\
   M < size (acc ++ encodeBinds (fit ++ [(o, r)])) /\
   (acc ++ encodeBinds fit <> [] -> size (acc ++ encodeBinds fit) <= M) /\
   fit_loop M mp pp rule binds acc =
     (if (len (acc ++ encodeBinds fit) =? 0) && bool_decide (rule = overflowTruncate)
      then acc ++ encodeBinds (fit ++ [(o, r)]) else acc ++ encodeBinds fit, true)).
Proof.
  induction binds as [|[o r] binds IH]; intros acc Hacc.
  { left. cbn [fit_loop encodeBinds map concat]. unfold encodeBinds. simpl. by rewrite app_nil_r. }
  cbn [fit_loop]. rewrite <- len_app. fold (size (acc ++ varBindingOf o r)).
  destruct (M <? size (acc ++ varBindingOf o r)) eqn:E; zbool.
  - right. exists [], o, r, binds. cbn [app]. unfold encodeBinds. cbn [map concat].
    rewrite !app_nil_r. split_and!; [done|lia|done|done].
  - destruct (IH (acc ++ varBindingOf o r)) as [[-> Hf]|(fit & o' & r' & rest & -> & Hgt & Hle & ->)]; [done| |].
    + left. rewrite encodeBinds_cons, app_assoc. done.
    + right. exists ((o, r) :: fit), o', r', rest. cbn [app]. rewrite !encodeBinds_cons, !app_assoc. done.
Qed.
End fit.

(** Under the GET and GETNEXT rules: all bindings, or tooBig. *)
Lemma fit_loop_all_or_nothing M mp pp binds :
  binds <> [] ->
  fit_loop M mp pp overflowTooBig binds [] =
    if snmpMessageSizeFor mp pp (len (encodeBinds binds)) <=? M
    then (encodeBinds binds, false) else (fst (fit_loop M mp pp overflowTooBig binds []), true).
Proof.
  intros Hne. destruct binds as [|[o r] binds]; [done|].
  pose proof (varBindingOf_pos o r) as Hpos.
  destruct (fit_loop_spec M mp pp overflowTooBig ((o, r) :: binds) []) as [[Hf Hle]|H]; [done| |].
  - rewrite Hf. cbn [app fst] in *.
    assert (encodeBinds ((o, r) :: binds) <> []).
    { rewrite encodeBinds_cons. destruct (varBindingOf o r); [rewrite len_nil in Hpos; lia|done]. }
    specialize (Hle ltac:(done)). case_if; [done|lia].
  - destruct H as (fit & o' & r' & rest & Hb & Hgt & _ & Hf). rewrite Hf. cbn [fst app] in *.
    assert (len (encodeBinds (fit ++ [(o', r')])) <= len (encodeBinds ((o, r) :: binds))).
    { replace ((o, r) :: binds) with ((fit ++ [(o', r')]) ++ rest) by (rewrite Hb; by rewrite <- app_assoc).
      rewrite (encodeBinds_app _ rest), (len_app (encodeBinds _)).
      pose proof (len_nonneg (encodeBinds rest)). lia. }
    pose proof (snmpMessageSizeFor_mono mp pp _ _ H).
    match goal with |- context [?a <=? M] => replace (a <=? M) with false by lia end. done.
Qed.

(** ** The v1 diversion *)

Lemma first_offence_spec rule binds : forall i,
  match first_offence rule i binds with
  | Some k => exists pre o r post, binds = pre ++ (o, r) :: post /\ k = i + len pre + 1 /\
      offends rule o r = true /\ Forall (fun '(o, r) => offends rule o r = false) pre
  | None => Forall (fun '(o, r) => offends rule o r = false) binds
  end.
Proof.
  induction binds as [|[o r] binds IH]; intros i; cbn [first_offence]; [constructor|].
  destruct (offends rule o r) eqn:E.
  - exists [], o, r, binds. rewrite len_nil. split_and!; [done|lia|done|constructor].
  - specialize (IH (i + 1)). destruct (first_offence rule (i + 1) binds) as [k|].
    + destruct IH as (pre & o' & r' & post & -> & -> & Ho & Hf).
      exists ((o, r) :: pre), o', r', post. rewrite len_cons. split_and!; [done|lia|done|].
      by constructor.
    + by constructor.
Qed.

(** The bindings of a response, read back by the strict walker. *)
Lemma varBindingOf_bindOf arcs r :
  arcs_fit arcs -> exists t c, varBindingOf (dotted arcs) r = bindOf (arcs, t, c) /\
    encodeTypedValue (dotted arcs) r = tlv t c.
Proof.
  intros Hfit. destruct (encodeTypedValue_tlv (dotted arcs) r) as (t & c & Hv).
  exists t, c. split; [|done]. rewrite varBindingOf_tlv, bindOf_tlv, Hv by done.
  destruct Hfit. by rewrite encodeOID_dotted.
Qed.

Lemma encodeBinds_bindsOf l :
  Forall (fun '(arcs, _) => arcs_fit arcs) l ->
  exists vbs, encodeBinds (map (fun '(arcs, r) => (dotted arcs, r)) l) = bindsOf vbs /\
    Forall (fun vb => arcs_fit (fst (fst vb))) vbs /\
    Forall2 (fun '(arcs, r) vb => vb_name (vbOf vb) = dotted arcs /\
      tlv (vb_tag (vbOf vb)) (vb_content (vbOf vb)) = encodeTypedValue (dotted arcs) r) l vbs.
Proof.
  induction 1 as [|[arcs r] l Hfit _ (vbs & Heq & Hf & Hall)].
  { exists []. split_and!; [done|constructor..]. }
  destruct (varBindingOf_bindOf arcs r Hfit) as (t & c & Hb & Hv). exists ((arcs, t, c) :: vbs). split_and!.
  - cbn [map]. rewrite encodeBinds_cons, Hb, Heq. done.
  - by constructor.
  - constructor; [|done]. by rewrite Hv.
Qed.

Lemma createSNMPResponse_safe oid value data : bytes_ok data -> safe (createSNMPResponse oid value data).
Proof.
  intros Hok. unfold createSNMPResponse, safe. wp_step. eapply wp_mono; [by apply parseIncomingRequest_safe|].
  intros req _. by repeat wp_step.
Qed.

Lemma createVarbindResponse_safe M oids responses data rules :
  bytes_ok data -> safe (createVarbindResponse M oids responses data rules).
Proof.
  intros Hok. unfold createVarbindResponse, safe. wp_step; [by apply createSNMPResponse_safe|].
  wp_step. eapply wp_mono; [by apply parseIncomingRequest_safe|]. intros req _.
  destruct (resolveDefaults rules) as [rs ?]. destruct (v1_divert _ _ _ _); [done|].
  destruct (fit_loop _ _ _ _ _ _). by wp_step.
Qed.

Lemma resolveDefaults_set r :
  overflow r <> overflowRuleUnset -> v1Diversion r <> v1DivertUnset -> resolveDefaults r = (r, false).
Proof.
  intros Ho Hd. unfold resolveDefaults. rewrite !bool_decide_false by done. by destruct r.
Qed.

Lemma v1_divert_v2c req rules oids responses :
  Version req <> snmpVersion1 -> v1_divert req rules oids responses = None.
Proof. intros Hv. unfold v1_divert. by replace (Version req =? snmpVersion1) with false by lia. Qed.

(** The GET and GETNEXT builders once no binding diverts. *)
Lemma createVarbindResponse_all_or_toobig M oids responses data rules req :
  parseIncomingRequest data = Ok req -> len oids = len responses -> zip oids responses <> [] ->
  overflow rules = overflowTooBig -> v1Diversion rules <> v1DivertUnset ->
  v1_divert req rules oids responses = None ->
  createVarbindResponse M oids responses data rules =
    Ok (if snmpMessageSizeFor (msgPrefixOf req) (pduPrefixOf req)
             (len (encodeBinds (zip oids responses))) <=? M
        then encodeGetResponse req (encodeBinds (zip oids responses)) snmpErrNoError
        else encodeGetResponse req [] snmpErrTooBig).
Proof.
  intros Hp Hl Hne Ho Hd Hdiv. unfold createVarbindResponse.
  rewrite (proj2 (Z.eqb_eq _ _) Hl). cbn [negb]. rewrite Hp. cbn [res_bind].
  rewrite resolveDefaults_set by congruence. rewrite Hdiv, Ho.
  rewrite fit_loop_all_or_nothing by done. rewrite bool_decide_true by done.
  by destruct (_ <=? M).
Qed.

(** ** Theorems *)

Definition sample_get : bytes :=
  requestMessage 0 (str "public") (requestPDU ASN1_GET_REQUEST 7 0 0 (bindsOf sample_binds)).
Definition sample_req (version : Z) : SNMPRequest :=
  {| Community := str "public"; RequestID := 7; OID := str ".1.3.6.1.2.1.1.3.0";
     Version := version; CommunityParsed := true |}.

(** The O(1) sizing function is exact: below 64 KiB [snmpMessageSizeFor]
    is, octet for octet, the length of the message [encodeGetResponse] then
    assembles. *)
Theorem snmpMessageSizeFor_exact req vbl :
  let size := snmpMessageSizeFor (msgPrefixOf req) (pduPrefixOf req) (len vbl) in
  size < 65536 -> len (encodeGetResponse req vbl snmpErrNoError) = size.
Proof. apply (response_size req vbl snmpErrNoError 0). Qed.

Lemma snmpMessageSizeFor_exact_witness :
  len (encodeGetResponse (sample_req 1) (repeat 5 300) snmpErrNoError) =
    snmpMessageSizeFor (msgPrefixOf (sample_req 1)) (pduPrefixOf (sample_req 1)) (len (repeat 5 300)).
Proof. apply (snmpMessageSizeFor_exact (sample_req 1) (repeat 5 300)). vm_compute. reflexivity. Defined.

(** A GET or GETNEXT that no v1 rule diverts is answered whole or not at
    all: with every binding in request order when the message fits the budget,
    and otherwise with tooBig and an empty list; a full answer never exceeds the
    budget. *)
Theorem get_all_or_toobig M names oids responses data req :
  M < 65536 -> parseIncomingRequest data = Ok req -> len oids = len responses ->
  zip oids responses <> [] -> Version req <> snmpVersion1 ->
  let full := encodeGetResponse req (encodeBinds (zip oids responses)) snmpErrNoError in
  let size := snmpMessageSizeFor (msgPrefixOf req) (pduPrefixOf req) (len (encodeBinds (zip oids responses))) in
  let answer := if size <=? M then full else encodeGetResponse req [] snmpErrTooBig in
  createGetResponse M oids responses data = Ok answer /\
  createGetNextResponse M names oids responses data = Ok answer /\
  (size <= M -> len full <= M).
Proof.
  intros HM Hp Hl Hne Hv full size answer. split_and!.
  - by apply createVarbindResponse_all_or_toobig; [..|apply v1_divert_v2c].
  - by apply createVarbindResponse_all_or_toobig; [..|apply v1_divert_v2c].
  - intros Hs. unfold full, encodeGetResponse. rewrite (response_size req _ snmpErrNoError 0); [exact Hs|].
    exact (Z.le_lt_trans _ _ _ Hs HM).
Qed.

Lemma get_all_or_toobig_witness :
  let oids := [str ".1.3.6.1.2.1.1.3.0"; str ".1.3.6.1.2.1.2.2.1.10"] in
  let data := requestMessage 1 (str "public") (requestPDU ASN1_GET_REQUEST 7 0 0 (bindsOf sample_binds)) in
  let full := encodeGetResponse (sample_req 1) (encodeBinds (zip oids [str "12"; str "x"])) snmpErrNoError in
  let size := snmpMessageSizeFor (msgPrefixOf (sample_req 1)) (pduPrefixOf (sample_req 1))
    (len (encodeBinds (zip oids [str "12"; str "x"]))) in
  let answer := if size <=? 1472 then full else encodeGetResponse (sample_req 1) [] snmpErrTooBig in
  createGetResponse 1472 oids [str "12"; str "x"] data = Ok answer /\
  createGetNextResponse 1472 oids oids [str "12"; str "x"] data = Ok answer /\
  (size <= 1472 -> len full <= 1472).
Proof.
  apply (get_all_or_toobig 1472); [lia|reflexivity|reflexivity|done|done].
Defined.

(** A GETBULK response carries a prefix of the walked bindings: as many as
    fit, always at least one, never more than the budget unless a single first
    binding alone exceeds it, and the prefix is maximal. *)
Theorem getbulk_longest_prefix M oids responses data req :
  M < 65536 -> parseIncomingRequest data = Ok req -> len oids = len responses ->
  let binds := zip oids responses in
  let size l := snmpMessageSizeFor (msgPrefixOf req) (pduPrefixOf req) (len (encodeBinds l)) in
  exists fit rest, binds = fit ++ rest /\
    createGetBulkResponse M oids responses data = Ok (encodeGetResponse req (encodeBinds fit) snmpErrNoError) /\
    (binds <> [] -> fit <> []) /\
    (fit <> [] -> len fit = 1 \/ len (encodeGetResponse req (encodeBinds fit) snmpErrNoError) <= M) /\
    (forall b rest', rest = b :: rest' -> M < size (fit ++ [b]) \/ (len fit = 1 /\ M < size fit)).
Proof.
  intros HM Hp Hl binds size. unfold createGetBulkResponse, createVarbindResponse.
  rewrite (proj2 (Z.eqb_eq _ _) Hl). cbn [negb]. rewrite Hp. cbn [res_bind].
  rewrite resolveDefaults_set by done. unfold v1_divert. cbn [v1Diversion overflow].
  rewrite (bool_decide_true (v1DivertNothing = _)) by done. rewrite andb_false_r. fold binds.
  rewrite (bool_decide_false (overflowTruncate = overflowTooBig)) by done.
  assert (Hlen : forall l, size l <= M -> len (encodeGetResponse req (encodeBinds l) snmpErrNoError) <= M).
  { intros l Hs. unfold encodeGetResponse. rewrite (response_size req _ snmpErrNoError 0); [exact Hs|].
    exact (Z.le_lt_trans _ _ _ Hs HM). }
  assert (Hne : forall o r l, encodeBinds ((o, r) :: l) <> []).
  { intros o r l H. apply (f_equal len) in H. rewrite encodeBinds_cons, len_app, len_nil in H.
    pose proof (varBindingOf_pos o r). pose proof (len_nonneg (encodeBinds l)). lia. }
  destruct (fit_loop_spec M (msgPrefixOf req) (pduPrefixOf req) overflowTruncate binds [])
    as [[-> Hle]|(fit & o & r & rest & Hb & Hgt & Hle & ->)]; [done| |]; cbn [app] in *; rewrite andb_false_r.
  - exists binds, []. rewrite app_nil_r. split_and!; try done.
    intros Hn. right. apply Hlen, Hle. destruct binds as [|[o r] l]; [done|]. apply Hne.
  - destruct fit as [|[o0 r0] fit].
    + exists [(o, r)], rest. split_and!; [done|done|done|by left|]. intros b rest' _. right. done.
    + exists ((o0, r0) :: fit), ((o, r) :: rest). rewrite Hb. split_and!; [done| |done| |].
      * match goal with |- context [len ?x =? 0] => replace (len x =? 0) with false; [done|] end.
        symmetry. apply Z.eqb_neq. intros H. apply len_0_nil in H. by apply Hne in H.
      * intros _. right. apply Hlen, Hle, Hne.
      * intros b rest' [= <- <-]. by left.
Qed.

Lemma getbulk_longest_prefix_witness :
  let oids := [str ".1.3.6.1.2.1.1.3.0"; str ".1.3.6.1.2.1.2.2.1.10"] in
  let binds := zip oids [str "12"; str "x"] in
  let size l := snmpMessageSizeFor (msgPrefixOf (sample_req 0)) (pduPrefixOf (sample_req 0)) (len (encodeBinds l)) in
  exists fit rest, binds = fit ++ rest /\
    createGetBulkResponse 60 oids [str "12"; str "x"] sample_get =
      Ok (encodeGetResponse (sample_req 0) (encodeBinds fit) snmpErrNoError) /\
    (binds <> [] -> fit <> []) /\
    (fit <> [] -> len fit = 1 \/ len (encodeGetResponse (sample_req 0) (encodeBinds fit) snmpErrNoError) <= 60) /\
    (forall b rest', rest = b :: rest' -> 60 < size (fit ++ [b]) \/ (len fit = 1 /\ 60 < size fit)).
Proof.
  apply (getbulk_longest_prefix 60 [str ".1.3.6.1.2.1.1.3.0"; str ".1.3.6.1.2.1.2.2.1.10"]
    [str "12"; str "x"] sample_get (sample_req 0)); [lia|reflexivity|reflexivity].
Defined.

(** SNMPv1 has neither exceptions nor Counter64.  A v1 GET or GETNEXT in
    which a binding offends is answered noSuchName, with the 1-based position of
    the FIRST offender and the names the manager sent; otherwise the answer is
    the ordinary one and none of its bindings offends.  A Counter64-typed name
    offends on GET only. *)
Theorem v1_diversion M names oids responses data req :
  parseIncomingRequest data = Ok req -> Version req = snmpVersion1 ->
  len oids = len responses -> len names = len oids -> zip oids responses <> [] ->
  forall (get : bool),
  let rule := if get then v1DivertSentinelAndCounter64 else v1DivertSentinel in
  let answer := if get then createGetResponse M oids responses data
                else createGetNextResponse M names oids responses data in
  (exists pre o r post, zip oids responses = pre ++ (o, r) :: post /\ offends rule o r = true /\
     Forall (fun '(o, r) => offends rule o r = false) pre /\
     answer = Ok (encodeGetResponseAt req (echoNull (if get then oids else names))
                    snmpErrNoSuchName (len pre + 1))) \/
  (Forall (fun '(o, r) => offends rule o r = false) (zip oids responses) /\
   answer = Ok (if snmpMessageSizeFor (msgPrefixOf req) (pduPrefixOf req)
                     (len (encodeBinds (zip oids responses))) <=? M
                then encodeGetResponse req (encodeBinds (zip oids responses)) snmpErrNoError
                else encodeGetResponse req [] snmpErrTooBig)).
Proof.
  intros Hp Hv Hl Hn Hne get rule answer.
  assert (Hgen : forall rules, overflow rules = overflowTooBig -> v1Diversion rules = rule ->
    rule <> v1DivertUnset -> rule <> v1DivertNothing ->
    let names := match echoNames rules with None => oids | Some l => l end in len names = len oids ->
    answer = createVarbindResponse M oids responses data rules ->
    (exists pre o r post, zip oids responses = pre ++ (o, r) :: post /\ offends rule o r = true /\
       Forall (fun '(o, r) => offends rule o r = false) pre /\
       answer = Ok (encodeGetResponseAt req (echoNull names) snmpErrNoSuchName (len pre + 1))) \/
    (Forall (fun '(o, r) => offends rule o r = false) (zip oids responses) /\
     answer = Ok (if snmpMessageSizeFor (msgPrefixOf req) (pduPrefixOf req)
                       (len (encodeBinds (zip oids responses))) <=? M
                  then encodeGetResponse req (encodeBinds (zip oids responses)) snmpErrNoError
                  else encodeGetResponse req [] snmpErrTooBig))).
  { intros rules Ho Hd Hu Hnn ns Hns ->.
    pose proof (first_offence_spec rule (zip oids responses) 0) as Hf.
    assert (Hdiv : v1_divert req rules oids responses =
      match first_offence rule 0 (zip oids responses) with
      | Some i => Some (encodeGetResponseAt req (echoNull ns) snmpErrNoSuchName i) | None => None end).
    { unfold v1_divert. rewrite Hv, Hd, bool_decide_false by done. cbn [andb negb Z.eqb snmpVersion1].
      fold ns. rewrite (proj2 (Z.eqb_eq _ _) Hns). done. }
    destruct (first_offence rule 0 (zip oids responses)) as [k|].
    - left. destruct Hf as (pre & o & r & post & Hz & -> & Hoff & Hpre). exists pre, o, r, post.
      split_and!; try done. unfold createVarbindResponse. rewrite (proj2 (Z.eqb_eq _ _) Hl). cbn [negb].
      rewrite Hp. cbn [res_bind]. rewrite resolveDefaults_set by congruence. rewrite Hdiv. done.
    - right. split; [done|]. apply createVarbindResponse_all_or_toobig; congruence. }
  destruct get.
  - apply (Hgen {| overflow := overflowTooBig; v1Diversion := v1DivertSentinelAndCounter64; echoNames := None |});
      done.
  - apply (Hgen {| overflow := overflowTooBig; v1Diversion := v1DivertSentinel; echoNames := Some names |});
      done.
Qed.

Lemma v1_diversion_witness :
  let oids := [str ".1.3.6.1.2.1.1.3.0"; str ".1.3.6.1.2.1.31.1.1.1.6.1"] in
  let responses := [str "12"; str "99"] in
  let answer := createGetResponse 1472 oids responses sample_get in
  (exists pre o r post, zip oids responses = pre ++ (o, r) :: post /\
     offends v1DivertSentinelAndCounter64 o r = true /\
     Forall (fun '(o, r) => offends v1DivertSentinelAndCounter64 o r = false) pre /\
     answer = Ok (encodeGetResponseAt (sample_req 0) (echoNull oids) snmpErrNoSuchName (len pre + 1))) \/
  (Forall (fun '(o, r) => offends v1DivertSentinelAndCounter64 o r = false) (zip oids responses) /\
   answer = Ok (if snmpMessageSizeFor (msgPrefixOf (sample_req 0)) (pduPrefixOf (sample_req 0))
                     (len (encodeBinds (zip oids responses))) <=? 1472
                then encodeGetResponse (sample_req 0) (encodeBinds (zip oids responses)) snmpErrNoError
                else encodeGetResponse (sample_req 0) [] snmpErrTooBig)).
Proof.
  apply (v1_diversion 1472 [str ".1.3"; str ".1.3"] [str ".1.3.6.1.2.1.1.3.0"; str ".1.3.6.1.2.1.31.1.1.1.6.1"]
    [str "12"; str "99"] sample_get (sample_req 0) eq_refl eq_refl eq_refl eq_refl ltac:(done) true).
Defined.

(** A success response is what a manager can read: the strict walker finds
    its variable-bindings list where the PDU ends, and gets back every binding
    in order, under its own name and with the value TLV [encodeTypedValue]
    wrote. *)
Theorem response_readable req l :
  wire_int (Version req) -> wire_int (RequestID req) -> Forall (fun '(arcs, _) => arcs_fit arcs) l ->
  let msg := encodeGetResponse req (encodeBinds (map (fun '(arcs, r) => (dotted arcs, r)) l)) snmpErrNoError in
  len msg <= MaxInt32 ->
  exists pos pduEnd binds contents, requestVarBindListPos msg = Ok (Some (pos, pduEnd)) /\
    parseVarBinds msg pos = Ok (ListParsed (binds, contents)) /\
    Forall2 (fun '(arcs, r) vb => vb_name vb = dotted arcs /\
      tlv (vb_tag vb) (vb_content vb) = encodeTypedValue (dotted arcs) r) l binds.
Proof.
  intros Hv Hid Hfit msg Hlen. destruct (encodeBinds_bindsOf l Hfit) as (vbs & Hb & Hvbs & Hall).
  assert (H0 : wire_int 0) by (unfold wire_int, MaxInt64; lia).
  revert Hlen. subst msg. rewrite Hb. unfold encodeGetResponse. rewrite encodeGetResponseAt_message. intros Hlen.
  do 2 eexists. exists (map vbOf vbs), (bindsOf vbs). split_and!.
  - apply requestVarBindListPos_at; done.
  - apply parseVarBinds_at; [done|done|]. apply at_binds.
  - clear -Hall. induction Hall as [|[arcs r] vb l vbs H _ IH]; constructor; done.
Qed.

Lemma response_readable_witness :
  let l := [([1; 3; 6; 1; 2; 1; 1; 3; 0], str "12"); ([1; 3; 6; 1; 2; 1; 2; 2; 1; 10], str "x")] in
  let msg := encodeGetResponse (sample_req 1) (encodeBinds (map (fun '(arcs, r) => (dotted arcs, r)) l)) 0 in
  exists pos pduEnd binds contents, requestVarBindListPos msg = Ok (Some (pos, pduEnd)) /\
    parseVarBinds msg pos = Ok (ListParsed (binds, contents)) /\
    Forall2 (fun '(arcs, r) vb => vb_name vb = dotted arcs /\
      tlv (vb_tag vb) (vb_content vb) = encodeTypedValue (dotted arcs) r) l binds.
Proof.
  apply (response_readable (sample_req 1)).
  - unfold wire_int, MaxInt64. simpl. lia.
  - unfold wire_int, MaxInt64. simpl. lia.
  - pose proof sample_binds_fit as H. unfold sample_binds in H.
    inversion_clear H as [|? ? H1 H']. inversion_clear H' as [|? ? H2 _].
    apply List.Forall_cons; [exact H1|]. apply List.Forall_cons; [exact H2|]. apply List.Forall_nil.
  - vm_compute. discriminate.
Defined.
