(* ===== verification/OidOrder.v ===== *)
(** * The order of OIDs (snmp_handlers.go, tun.go)

    A walk is only as good as its comparator.  [compareOIDs] is the
    allocation-free one the serve path uses, [compareOIDsLexicographically] the
    one the resource indexes are sorted with.  Both are shown to be the
    lexicographic order on arcs for every OID an agent can emit, hence equal to
    each other there and a strict total order. *)

From S2P Require Import Prelude GoStrings Ber Oid.

(** ** compareOIDs *)

(** [s[i:]] stands for the pair of [s] and [i]. *)
Record oidCursor := { c_rest : bytes; c_done : bool }.

Definition newOIDCursor (oid : bytes) : oidCursor :=
  let oid := match oid with
             | c :: oid' => if c =? dot then oid' else oid
             | [] => oid
             end in
  {| c_rest := oid; c_done := beq oid [] |}.

(** The inner loop of [next]: value, whether every character was a digit,
    whether any was read, and what is left (from the dot on). *)
Fixpoint segment_loop (s : bytes) (val : Z) (numeric moved : bool) : Z * bool * bool * bytes :=
  match s with
  | [] => (val, numeric, moved, [])
  | ch :: s' =>
      if ch =? dot then (val, numeric, moved, s)
      else if is_digit ch then segment_loop s' (s64 (val * 10 + (ch - 48))) numeric true
      else segment_loop s' val false true
  end.

Definition next (c : oidCursor) : Z * bool * oidCursor :=
  if c_done c then (0, false, c) else
  let '(val, numeric, moved, rest) := segment_loop (c_rest c) 0 true false in
  let val := if negb numeric || negb moved then 0 else val in
  match rest with
  | _ :: rest' => (val, true, {| c_rest := rest'; c_done := false |})
  | [] => (val, true, {| c_rest := []; c_done := true |})
  end.

(** One iteration per segment of the longer OID; the fuel is shown to be enough
    by [compareOIDs_segs]. *)
Fixpoint compare_loop (fuel : nat) (c1 c2 : oidCursor) : Z :=
  match fuel with
  | O => 0
  | S fuel' =>
      let '(v1, ok1, c1) := next c1 in
      let '(v2, ok2, c2) := next c2 in
      if negb ok1 && negb ok2 then 0
      else if negb (v1 =? v2) then (if v1 <? v2 then -1 else 1)
      else if negb (Bool.eqb ok1 ok2) then (if negb ok1 then -1 else 1)
      else compare_loop fuel' c1 c2
  end.

Definition compareOIDs (oid1 oid2 : bytes) : Z :=
  compare_loop (S (length oid1 + length oid2 + 1)) (newOIDCursor oid1) (newOIDCursor oid2).

(** ** compareOIDsLexicographically *)

Definition oidParts (oid : bytes) : list bytes :=
  let s := TrimPrefix oid (str ".") in
  if beq s [] then [] else Split dot s.

(** The loop over [i < maxLen]: a missing part is the zero value. *)
Fixpoint parts_loop (n : nat) (parts1 parts2 : list bytes) : option Z :=
  match n with
  | O => None
  | S n' =>
      let val1 := match parts1 with p :: _ => fst (Atoi p) | [] => 0 end in
      let val2 := match parts2 with p :: _ => fst (Atoi p) | [] => 0 end in
      if val1 <? val2 then Some (-1) else if val2 <? val1 then Some 1
      else parts_loop n' (tail parts1) (tail parts2)
  end.

Definition compareOIDsLexicographically (oid1 oid2 : bytes) : Z :=
  let parts1 := oidParts oid1 in
  let parts2 := oidParts oid2 in
  match parts_loop (Nat.max (length parts1) (length parts2)) parts1 parts2 with
  | Some r => r
  | None => if len parts1 <? len parts2 then -1 else if len parts2 <? len parts1 then 1 else 0
  end.

(** ** The lexicographic order on arcs *)

Fixpoint lex (a b : list Z) : Z :=
  match a, b with
  | [], [] => 0
  | [], _ :: _ => -1
  | _ :: _, [] => 1
  | x :: a', y :: b' => if x <? y then -1 else if y <? x then 1 else lex a' b'
  end.

Lemma lex_refl a : lex a a = 0.
Proof. induction a as [|x a IH]; simpl; [done|]. by rewrite Z.ltb_irrefl. Qed.

Lemma lex_range a b : lex a b = -1 \/ lex a b = 0 \/ lex a b = 1.
Proof. revert b. induction a as [|x a IH]; intros [|y b]; simpl; auto. repeat case_if; auto. Qed.

Lemma lex_antisym a b : lex b a = - lex a b.
Proof.
  revert b. induction a as [|x a IH]; intros [|y b]; simpl; try done. repeat case_if; try lia. apply IH.
Qed.

Lemma lex_eq a b : lex a b = 0 <-> a = b.
Proof.
  split; [|intros ->; apply lex_refl]. revert b. induction a as [|x a IH]; intros [|y b]; simpl; try done.
  repeat case_if; try done. intros H. f_equal; [lia|by apply IH].
Qed.

Lemma lex_trans a b c : lex a b < 0 -> lex b c < 0 -> lex a c < 0.
Proof.
  revert b c. induction a as [|x a IH]; intros [|y b] [|z c]; simpl; try lia.
  repeat case_if; try lia. by apply IH.
Qed.

Lemma lex_le_trans a b c : lex a b <= 0 -> lex b c <= 0 -> lex a c <= 0.
Proof.
  intros H1 H2. destruct (lex_range a b) as [E|[E|E]], (lex_range b c) as [F|[F|F]]; try lia.
  - pose proof (lex_trans a b c). lia.
  - apply lex_eq in F as ->. lia.
  - apply lex_eq in E as ->. lia.
  - apply lex_eq in E as ->. lia.
Qed.

(** ** Both comparators, segment by segment *)

(** The values [next] yields, part by part. *)
Definition segValue (p : bytes) : Z :=
  let '(val, numeric, moved, _) := segment_loop p 0 true false in
  if negb numeric || negb moved then 0 else val.

Definition segs (oid : bytes) : list Z := map segValue (oidParts oid).

Lemma segment_loop_stop p r : forall val numeric moved,
  ~ In dot p -> (r = [] \/ hd_error r = Some dot) ->
  segment_loop (p ++ r) val numeric moved =
    let '(v, n, m, _) := segment_loop p val numeric moved in (v, n, m, r).
Proof.
  induction p as [|c p IH]; intros val numeric moved Hp Hr; cbn [app segment_loop].
  { destruct r as [|c r]; [done|]. destruct Hr as [|Hr]; [done|]. simpl in Hr. simplify_eq.
    cbn [segment_loop]. by rewrite Z.eqb_refl. }
  destruct (c =? dot) eqn:E; [apply Z.eqb_eq in E; exfalso; apply Hp; left; lia|].
  case_if; (apply IH; [intros ?; apply Hp; by right|done]).
Qed.

(** A cursor at [rest] yields the values of the parts of [rest]. *)
Definition cursor_parts (c : oidCursor) : list bytes := if c_done c then [] else Split dot (c_rest c).

Lemma Split_cons_cases s :
  (exists p r, s = p ++ dot :: r /\ ~ In dot p /\ Split dot s = p :: Split dot r) \/
  (~ In dot s /\ Split dot s = [s]).
Proof.
  destruct (in_dec Z.eq_dec dot s) as [Hin|Hn].
  - left. induction s as [|c s IH]; [done|]. destruct (Z.eq_dec c dot) as [->|Hc].
    + exists [], s. split_and!; [done|intros []|]. simpl. done.
    + destruct Hin as [?|Hin]; [done|]. destruct (IH Hin) as (p & r & -> & Hp & Hs).
      exists (c :: p), r. split_and!; [done|intros [?|?]; congruence|].
      change (c :: p ++ dot :: r) with ((c :: p) ++ dot :: r).
      apply Split_app. intros [?|?]; congruence.
  - right. split; [done|by apply Split_no_sep].
Qed.

Lemma next_spec c :
  match cursor_parts c with
  | [] => next c = (0, false, c)
  | p :: ps => exists c', next c = (segValue p, true, c') /\ cursor_parts c' = ps
  end.
Proof.
  destruct c as [rest done]. unfold cursor_parts. cbn [c_done c_rest]. destruct done; [done|].
  destruct (Split_cons_cases rest) as [(p & r & -> & Hp & Hs)|[Hn Hs]]; rewrite Hs.
  - unfold next. cbn [c_done c_rest]. rewrite segment_loop_stop by (simpl; auto).
    unfold segValue. destruct (segment_loop p 0 true false) as [[[v n] m] ?].
    eexists. split; [reflexivity|done].
  - unfold next. cbn [c_done c_rest]. rewrite <- (app_nil_r rest), segment_loop_stop, app_nil_r by auto.
    unfold segValue. destruct (segment_loop rest 0 true false) as [[[v n] m] ?].
    eexists. split; [reflexivity|done].
Qed.

Lemma compare_loop_spec fuel : forall c1 c2,
  (length (cursor_parts c1) < fuel)%nat -> (length (cursor_parts c2) < fuel)%nat ->
  Forall (fun p => 0 <= segValue p) (cursor_parts c1) ->
  Forall (fun p => 0 <= segValue p) (cursor_parts c2) ->
  compare_loop fuel c1 c2 = lex (map segValue (cursor_parts c1)) (map segValue (cursor_parts c2)).
Proof.
  induction fuel as [|fuel IH]; intros c1 c2 Hl1 Hl2 Hn1 Hn2; [lia|]. cbn [compare_loop].
  pose proof (next_spec c1) as H1. pose proof (next_spec c2) as H2.
  destruct (cursor_parts c1) as [|p1 ps1], (cursor_parts c2) as [|p2 ps2]; cbn [length map lex] in *.
  - rewrite H1, H2. done.
  - destruct H2 as (c2' & H2 & _). rewrite H1, H2. cbn [negb andb Bool.eqb].
    inversion_clear Hn2 as [|? ? Hp _]. case_if; [|done]. case_if; [done|lia].
  - destruct H1 as (c1' & H1 & _). rewrite H1, H2. cbn [negb andb Bool.eqb].
    inversion_clear Hn1 as [|? ? Hp _]. case_if; [|done]. case_if; [lia|done].
  - destruct H1 as (c1' & H1 & E1). destruct H2 as (c2' & H2 & E2). rewrite H1, H2. cbn [negb andb Bool.eqb].
    inversion_clear Hn1 as [|? ? _ Hn1']. inversion_clear Hn2 as [|? ? _ Hn2'].
    rewrite IH by (rewrite ?E1, ?E2; (done || lia)). rewrite E1, E2.
    destruct (segValue p1 =? segValue p2) eqn:E; zbool; cbn [negb].
    + do 2 (case_if; [lia|]). done.
    + case_if; [done|]. case_if; [done|lia].
Qed.

Lemma length_Split s : (length (Split dot s) <= S (length s))%nat.
Proof.
  induction s as [|c s IH]; simpl; [lia|]. destruct (c =? dot); simpl; [lia|].
  destruct (Split dot s) as [|h t]; simpl in *; lia.
Qed.

Lemma TrimPrefix_dot c oid : TrimPrefix (c :: oid) (str ".") = if c =? dot then oid else c :: oid.
Proof.
  unfold TrimPrefix, HasPrefix, beq. change (length (str ".")) with 1%nat. cbn [take drop].
  destruct (c =? dot) eqn:E; zbool.
  - subst. by rewrite bool_decide_true.
  - rewrite bool_decide_false; [done|]. by intros [= ->].
Qed.

Lemma newOIDCursor_parts oid : cursor_parts (newOIDCursor oid) = oidParts oid.
Proof.
  unfold newOIDCursor, cursor_parts, oidParts. cbn [c_done c_rest]. destruct oid as [|c oid]; [done|].
  by rewrite TrimPrefix_dot.
Qed.

Lemma length_oidParts oid : (length (oidParts oid) <= S (length oid))%nat.
Proof.
  unfold oidParts. case_if; [simpl; lia|]. etrans; [apply length_Split|].
  unfold TrimPrefix. case_if; [rewrite length_drop|]; lia.
Qed.

(** [compareOIDs] is the lexicographic order on the values of the segments, as
    soon as no segment wrapped. *)
Lemma compareOIDs_segs oid1 oid2 :
  Forall (fun v => 0 <= v) (segs oid1) -> Forall (fun v => 0 <= v) (segs oid2) ->
  compareOIDs oid1 oid2 = lex (segs oid1) (segs oid2).
Proof.
  intros H1 H2. unfold compareOIDs, segs in *. rewrite <- !newOIDCursor_parts in *.
  apply (proj1 (List.Forall_map segValue (fun v => 0 <= v) _)) in H1, H2.
  apply compare_loop_spec; try done; rewrite newOIDCursor_parts;
    pose proof (length_oidParts oid1); pose proof (length_oidParts oid2); lia.
Qed.

Lemma parts_loop_spec l1 : forall l2,
  Forall (fun p => 0 <= fst (Atoi p)) l1 -> Forall (fun p => 0 <= fst (Atoi p)) l2 ->
  match parts_loop (Nat.max (length l1) (length l2)) l1 l2 with
  | Some r => r
  | None => if len l1 <? len l2 then -1 else if len l2 <? len l1 then 1 else 0
  end = lex (map (fun p => fst (Atoi p)) l1) (map (fun p => fst (Atoi p)) l2).
Proof.
  assert (Hz1 : forall l, Forall (fun p => 0 <= fst (Atoi p)) l -> forall n, (0 < n)%nat -> l <> [] ->
    (length l <= n)%nat -> match parts_loop n [] l with Some r => r | None => -1 end = -1).
  { induction l as [|p l IH]; intros Hl n Hn Hne Hle; [done|]. inversion_clear Hl as [|? ? Hp Hl'].
    destruct n as [|n]; [lia|]. cbn [parts_loop tail]. case_if; [done|]. case_if; [lia|].
    destruct l as [|q l]; [destruct n; [done|]|apply IH; try done; simpl in *; lia].
    clear. induction n as [|n IH]; [done|]. exact IH. }
  assert (Hz2 : forall l, Forall (fun p => 0 <= fst (Atoi p)) l -> forall n, (0 < n)%nat -> l <> [] ->
    (length l <= n)%nat -> match parts_loop n l [] with Some r => r | None => 1 end = 1).
  { induction l as [|p l IH]; intros Hl n Hn Hne Hle; [done|]. inversion_clear Hl as [|? ? Hp Hl'].
    destruct n as [|n]; [lia|]. cbn [parts_loop tail]. case_if; [lia|]. case_if; [done|].
    destruct l as [|q l]; [destruct n; [done|]|apply IH; try done; simpl in *; lia].
    clear. induction n as [|n IH]; [done|]. exact IH. }
  induction l1 as [|p1 l1 IH]; intros [|p2 l2] H1 H2; cbn [map lex].
  - done.
  - rewrite <- (Hz1 (p2 :: l2) H2 (Nat.max (length (@nil bytes)) (length (p2 :: l2)))) by (done || simpl; lia).
    case_match; [done|]. rewrite len_nil, len_cons. pose proof (len_nonneg l2). case_if; [done|lia].
  - rewrite <- (Hz2 (p1 :: l1) H1 (Nat.max (length (p1 :: l1)) (length (@nil bytes)))) by (done || simpl; lia).
    case_match; [done|]. rewrite len_nil, len_cons. pose proof (len_nonneg l1). case_if; [lia|]. case_if; [done|lia].
  - inversion_clear H1 as [|? ? _ H1']. inversion_clear H2 as [|? ? _ H2'].
    cbn [length Nat.max parts_loop tail]. case_if; [done|]. case_if; [done|].
    rewrite <- IH by done. rewrite !len_cons. case_match; [done|].
    replace (1 + len l1 <? 1 + len l2) with (len l1 <? len l2) by lia.
    by replace (1 + len l2 <? 1 + len l1) with (len l2 <? len l1) by lia.
Qed.

(** ** Segments both comparators read alike *)

Lemma segment_loop_digits l : forall n v numeric moved,
  0 <= n -> parse_digits MaxInt64 n l = (v, None) ->
  segment_loop l n numeric moved = (v, numeric, moved || negb (beq l []), []).
Proof.
  induction l as [|c l IH]; intros n v numeric moved Hn; cbn [parse_digits segment_loop].
  { intros [= ->]. by rewrite orb_false_r. }
  destruct (is_digit c) eqn:Ed; [|done]. apply is_digit_range in Ed.
  destruct (MaxInt64 <? n * 10 + (c - 48)) eqn:E; [done|]. zbool. unfold MaxInt64 in E.
  replace (c =? dot) with false by (unfold dot; lia). intros Hp.
  rewrite s64_small by (unfold int64_range, MinInt64, MaxInt64; lia).
  rewrite (IH _ v) by (done || lia). rewrite orb_true_l.
  unfold beq. by rewrite (bool_decide_false (c :: l = [])), orb_true_r by done.
Qed.

Lemma segment_loop_not_numeric l : forall n moved,
  ~ In dot l -> (exists c, In c l /\ is_digit c = false) ->
  exists v, segment_loop l n true moved = (v, false, true, []).
Proof.
  assert (Hf : forall l n, ~ In dot l -> exists v, segment_loop l n false true = (v, false, true, [])).
  { induction l0 as [|c l0 IH]; intros n Hn; cbn [segment_loop]; [eauto|].
    destruct (c =? dot) eqn:E; [apply Z.eqb_eq in E; exfalso; apply Hn; left; lia|].
    case_if; apply IH; intros ?; apply Hn; by right. }
  induction l as [|c l IH]; intros n moved Hn (x & Hin & Hx); [done|]. cbn [segment_loop].
  destruct (c =? dot) eqn:E; [apply Z.eqb_eq in E; exfalso; apply Hn; left; lia|].
  destruct (is_digit c) eqn:Ed.
  - destruct Hin as [->|Hin]; [congruence|]. apply IH; [intros ?; apply Hn; by right|eauto].
  - apply Hf. intros ?. apply Hn. by right.
Qed.

Lemma parse_digits_short max l : forall n,
  0 <= n -> (n + 1) * 10 ^ len l <= max + 1 ->
  (exists v, parse_digits max n l = (v, None) /\ 0 <= v <= max) \/
  (parse_digits max n l = (0, Some ErrSyntax) /\ exists c, In c l /\ is_digit c = false).
Proof.
  induction l as [|c l IH]; intros n Hn Hb; cbn [parse_digits].
  { left. exists n. rewrite len_nil in Hb. split; [done|]. lia. }
  rewrite len_cons in Hb. pose proof (len_nonneg l). rewrite Z.pow_add_r in Hb by lia.
  assert (1 <= 10 ^ len l) by (pose proof (Z.pow_pos_nonneg 10 (len l)); lia).
  destruct (is_digit c) eqn:Ed; [|right; split; [done|exists c; split; [by left|done]]].
  apply is_digit_range in Ed.
  destruct (max <? n * 10 + (c - 48)) eqn:E; [zbool; nia|].
  destruct (IH (n * 10 + (c - 48))) as [(v & -> & Hv)|[-> (x & Hx & Hd)]]; [lia|nia| |].
  - left. eauto.
  - right. split; [done|]. exists x. split; [by right|done].
Qed.

(** A segment of at most eighteen characters that carries no sign. *)
Definition plain_segment (p : bytes) : Prop :=
  len p <= 18 /\ ~ In dot p /\ ~ In minus p /\ ~ In plus p.

Lemma plain_segment_value p :
  plain_segment p -> segValue p = fst (Atoi p) /\ 0 <= segValue p.
Proof.
  intros (Hl & Hd & Hm & Hp). unfold segValue, Atoi, ParseInt.
  destruct p as [|c p]; [by vm_compute|].
  replace (c =? minus) with false by (symmetry; apply Z.eqb_neq; intros ->; apply Hm; by left).
  replace (c =? plus) with false by (symmetry; apply Z.eqb_neq; intros ->; apply Hp; by left).
  cbn [orb negb andb]. unfold ParseUint.
  assert (H10 : 10 ^ len (c :: p) <= 10 ^ 18) by (apply Z.pow_le_mono_r; lia).
  destruct (parse_digits_short MaxInt64 (c :: p) 0) as [(v & Hv & Hr)|[He Hx]];
    [lia|unfold MaxInt64; lia| |].
  - destruct (parse_digits_short (2 ^ 64 - 1) (c :: p) 0) as [(v' & Hv' & Hr')|[He' (x & Hin & Hx)]]; [lia|lia| |].
    + assert (Hmono : forall l n v m m', m <= m' -> parse_digits m n l = (v, None) -> parse_digits m' n l = (v, None)).
      { clear. induction l as [|c l IH]; intros n v m m' Hm; cbn [parse_digits]; [done|].
        destruct (is_digit c); [|done]. destruct (m <? _) eqn:E; [done|]. zbool.
        destruct (m' <? _) eqn:E'; [lia|]. by apply IH. }
      assert (Hv2 : parse_digits (2 ^ 64 - 1) 0 (c :: p) = (v, None))
        by (eapply Hmono; [|exact Hv]; unfold MaxInt64; lia). rewrite Hv2.
      rewrite (segment_loop_digits _ _ v) by (done || lia). unfold beq. rewrite bool_decide_false by done.
      cbn [orb negb]. unfold MaxInt64 in Hr. change (2 ^ (64 - 1)) with (2 ^ 63). case_if; [lia|]. simpl. lia.
    + exfalso. clear -Hv Hin Hx. revert Hv. generalize 0. induction (c :: p) as [|d l IH]; intros n; [done|].
      cbn [parse_digits]. destruct Hin as [->|Hin]; [by rewrite Hx|].
      destruct (is_digit d); [|done]. destruct (_ <? _); [done|]. by apply IH.
  - assert (Hs : parse_digits (2 ^ 64 - 1) 0 (c :: p) = (0, Some ErrSyntax)).
    { destruct (parse_digits_short (2 ^ 64 - 1) (c :: p) 0) as [(v' & Hv' & _)|[He' _]]; [lia|lia| |done].
      exfalso. destruct Hx as (x & Hin & Hx). clear -Hv' Hin Hx. revert Hv'. generalize 0.
      induction (c :: p) as [|d l IH]; intros n; [done|].
      cbn [parse_digits]. destruct Hin as [->|Hin]; [by rewrite Hx|].
      destruct (is_digit d); [|done]. destruct (_ <? _); [done|]. by apply IH. }
    rewrite Hs. destruct (segment_loop_not_numeric (c :: p) 0 false Hd Hx) as [v ->]. done.
Qed.

Lemma segValue_FormatUint v : 0 <= v <= MaxInt64 -> segValue (FormatUint v) = v.
Proof.
  intros Hv. unfold MaxInt64 in Hv. destruct (FormatUint_spec v) as (Hne & _ & Hp); [lia|].
  unfold segValue. rewrite (segment_loop_digits _ _ v) by (try apply Hp; unfold MaxInt64; lia).
  unfold beq. rewrite bool_decide_false by done. done.
Qed.

(** The arcs of a canonical OID. *)
Definition canonical (arcs : list Z) : Prop := arcs <> [] /\ Forall subid_ok arcs.

Lemma oidParts_dotted arcs : canonical arcs -> oidParts (dotted arcs) = map FormatUint arcs.
Proof.
  intros [Hne Hr]. unfold oidParts. rewrite TrimPrefix_dotted.
  assert (Hf : Forall (fun p => ~ In dot p) (map FormatUint arcs)).
  { apply List.Forall_map. eapply List.Forall_impl; [|exact Hr]. unfold subid_ok, maxOIDSubIdentifier.
    intros v Hv. apply FormatUint_no_dot. lia. }
  rewrite Split_Join by (done || by destruct arcs).
  unfold beq. rewrite bool_decide_false; [done|]. destruct arcs as [|a arcs]; [done|].
  inversion_clear Hr as [|? ? Ha _]. unfold subid_ok, maxOIDSubIdentifier in Ha.
  pose proof (FormatUint_nonempty a ltac:(lia)). cbn [map Join].
  destruct (map FormatUint arcs); [done|]. by destruct (FormatUint a).
Qed.

Lemma segs_dotted arcs : canonical arcs -> segs (dotted arcs) = arcs.
Proof.
  intros Hc. unfold segs. rewrite oidParts_dotted by done. destruct Hc as [_ Hr].
  rewrite map_map. rewrite <- (map_id arcs) at 2. apply map_ext_in. intros v Hin.
  rewrite List.Forall_forall in Hr. apply Hr in Hin. unfold subid_ok, maxOIDSubIdentifier in Hin.
  apply segValue_FormatUint. unfold MaxInt64. lia.
Qed.

(** The comparator on canonical OIDs. *)
Lemma compareOIDs_dotted a b :
  canonical a -> canonical b -> compareOIDs (dotted a) (dotted b) = lex a b.
Proof.
  intros Ha Hb. rewrite compareOIDs_segs; rewrite ?segs_dotted by done; [done|..].
  - destruct Ha as [_ Ha]. eapply List.Forall_impl; [|exact Ha]. unfold subid_ok. lia.
  - destruct Hb as [_ Hb]. eapply List.Forall_impl; [|exact Hb]. unfold subid_ok. lia.
Qed.

Lemma compareOIDs_plain oid1 oid2 :
  Forall plain_segment (oidParts oid1) -> Forall plain_segment (oidParts oid2) ->
  compareOIDs oid1 oid2 = lex (segs oid1) (segs oid2) /\
  compareOIDsLexicographically oid1 oid2 = lex (segs oid1) (segs oid2).
Proof.
  intros H1 H2.
  assert (Hs : forall l, Forall plain_segment l -> map segValue l = map (fun p => fst (Atoi p)) l /\
    Forall (fun p => 0 <= segValue p) l /\ Forall (fun p => 0 <= fst (Atoi p)) l).
  { induction 1 as [|p l Hp _ (E & F & G)]; [split_and!; [done|constructor..]|].
    destruct (plain_segment_value p Hp) as [Ev Hv]. split_and!.
    - cbn [map]. by rewrite Ev, E.
    - by constructor.
    - constructor; [by rewrite <- Ev|done]. }
  destruct (Hs _ H1) as (E1 & F1 & G1). destruct (Hs _ H2) as (E2 & F2 & G2). split.
  - apply compareOIDs_segs; unfold segs; by apply List.Forall_map.
  - unfold compareOIDsLexicographically, segs. rewrite E1, E2. by apply parts_loop_spec.
Qed.

Lemma plain_FormatUint v : subid_ok v -> plain_segment (FormatUint v).
Proof.
  unfold subid_ok, maxOIDSubIdentifier. intros Hv. destruct (FormatUint_spec v) as (_ & Hd & _); [lia|].
  rewrite List.Forall_forall in Hd. split_and!.
  - unfold FormatUint.
    assert (Hgen : forall f v acc, (0 < f)%nat -> 0 <= v < 10 ^ Z.of_nat f -> forall g, len (dec_loop (f + g) v acc) <= Z.of_nat f + len acc).
    { clear. induction f as [|f IH]; intros v acc Hf Hv g; [lia|]. cbn [Nat.add dec_loop].
      case_if; [rewrite len_cons; lia|]. rewrite Nat2Z.inj_succ, Z.pow_succ_r in Hv by lia.
      assert (v / 10 < 10 ^ Z.of_nat f) by (apply Z.div_lt_upper_bound; lia).
      assert (0 <= v / 10) by (apply Z.div_pos; lia).
      destruct f as [|f]; [simpl in *; lia|].
      etrans; [apply (IH (v / 10)); lia|]. rewrite len_cons. lia. }
    etrans; [apply (Hgen 10%nat v [] ltac:(lia) ltac:(lia) 10%nat)|]. rewrite len_nil. lia.
  - intros Hin. apply Hd in Hin. by vm_compute in Hin.
  - intros Hin. apply Hd in Hin. by vm_compute in Hin.
  - intros Hin. apply Hd in Hin. by vm_compute in Hin.
Qed.

Lemma compareOIDsLexicographically_dotted a b :
  canonical a -> canonical b -> compareOIDsLexicographically (dotted a) (dotted b) = lex a b.
Proof.
  intros Ha Hb.
  assert (Hpl : forall c, canonical c -> Forall plain_segment (oidParts (dotted c))).
  { intros c Hc. rewrite oidParts_dotted by done. apply List.Forall_map. destruct Hc as [_ Hr].
    eapply List.Forall_impl; [|exact Hr]. apply plain_FormatUint. }
  destruct (compareOIDs_plain (dotted a) (dotted b)) as [_ ->]; [by apply Hpl..|].
  by rewrite !segs_dotted.
Qed.

Lemma dotted_inj a b : canonical a -> canonical b -> dotted a = dotted b -> a = b.
Proof. intros Ha Hb H. by rewrite <- (segs_dotted a), <- (segs_dotted b), H. Qed.

(** ** Theorems *)



(** A signed segment separates the two comparators: the allocation-free one
    reads it as a non-numeric segment of value 0, [strconv.Atoi] as a number. *)
Theorem compareOIDs_signed_segment :
  compareOIDs (str ".1.+5") (str ".1.0") = 0 /\
  compareOIDsLexicographically (str ".1.+5") (str ".1.0") = 1 /\
  compareOIDs (str ".1.-5") (str ".1.0") = 0 /\
  compareOIDsLexicographically (str ".1.-5") (str ".1.0") = -1.
Proof. vm_compute. done. Qed.

(** On the OIDs an agent serves (dotted decimal arcs of 32 bits) the
    comparator is a strict total order: it answers -1, 0 or 1, is antisymmetric
    and transitive, and answers 0 only for the same string. *)
Theorem compareOIDs_total_order a b c :
  canonical a -> canonical b -> canonical c ->
  let A := dotted a in let B := dotted b in let C := dotted c in
  (compareOIDs A B = -1 \/ compareOIDs A B = 0 \/ compareOIDs A B = 1) /\
  compareOIDs B A = - compareOIDs A B /\
  (compareOIDs A B = 0 <-> A = B) /\
  (compareOIDs A B < 0 -> compareOIDs B C < 0 -> compareOIDs A C < 0).
Proof.
  intros Ha Hb Hc A B C. unfold A, B, C. rewrite !compareOIDs_dotted by done. split_and!.
  - apply lex_range.
  - apply lex_antisym.
  - rewrite lex_eq. split; [by intros ->|by apply dotted_inj].
  - apply lex_trans.
Qed.

Lemma canonical_dec arcs :
  forallb (fun v => (0 <=? v) && (v <=? maxOIDSubIdentifier)) arcs && negb (beq arcs []) = true -> canonical arcs.
Proof.
  intros H. apply andb_true_iff in H as [H Hne]. split.
  - intros ->. done.
  - apply List.Forall_forall. rewrite forallb_forall in H. intros v Hv. apply H in Hv. unfold subid_ok. lia.
Qed.

Lemma compareOIDs_total_order_witness :
  let A := dotted [1; 3; 6] in let B := dotted [1; 3; 6; 1] in let C := dotted [1; 3; 10] in
  (compareOIDs A B = -1 \/ compareOIDs A B = 0 \/ compareOIDs A B = 1) /\
  compareOIDs B A = - compareOIDs A B /\
  (compareOIDs A B = 0 <-> A = B) /\
  (compareOIDs A B < 0 -> compareOIDs B C < 0 -> compareOIDs A C < 0).
Proof.
  apply (compareOIDs_total_order [1; 3; 6] [1; 3; 6; 1] [1; 3; 10]); apply canonical_dec; reflexivity.
Defined.
