(* ===== verification/OidPrefix.v ===== *)
(** * Prefixes of dotted OIDs

    The agent recognises the subtree an OID belongs to by a string prefix ending
    in a dot, and reads the arcs after it one decimal segment at a time.  The
    lemmas here turn both into facts on lists of arcs: a string prefix is a prefix
    of arcs, and the segments after it are the remaining arcs. *)

From S2P Require Import Prelude GoStrings Oid OidOrder.

(** Arcs as they continue an OID: each with its dot. *)
Definition tails (arcs : list Z) : bytes := concat (map (fun a => dot :: FormatUint a) arcs).

Lemma tails_cons a arcs : tails (a :: arcs) = dot :: FormatUint a ++ tails arcs.
Proof. done. Qed.
Lemma tails_app a b : tails (a ++ b) = tails a ++ tails b.
Proof. unfold tails. by rewrite map_app, concat_app. Qed.

Lemma dotted_tails arcs : arcs <> [] -> dotted arcs = tails arcs.
Proof.
  destruct arcs as [|a arcs]; [done|]. intros _. unfold dotted. change (str ".") with [dot]. cbn [app]. rewrite tails_cons. f_equal.
  revert a. induction arcs as [|b arcs IH]; intros a; [cbn; by rewrite app_nil_r|].
  change (Join dot (map FormatUint (a :: b :: arcs))) with (FormatUint a ++ dot :: Join dot (map FormatUint (b :: arcs))).
  by rewrite tails_cons, IH.
Qed.

(** A string prefix that stands for a subtree. *)
Definition subtree (arcs : list Z) : bytes := tails arcs ++ [dot].

Lemma arc_u64 a : subid_ok a -> 0 <= a < 2 ^ 64.
Proof. unfold subid_ok, maxOIDSubIdentifier. lia. Qed.
Lemma arc_int64 a : subid_ok a -> 0 <= a <= MaxInt64.
Proof. unfold subid_ok, maxOIDSubIdentifier, MaxInt64. lia. Qed.
Lemma arc_Itoa a : subid_ok a -> Itoa a = FormatUint a.
Proof. intros [H _]. unfold Itoa. by replace (a <? 0) with false by lia. Qed.

(** A segment ends where the next dot is. *)
Lemma segment_split p q s s' :
  ~ In dot p -> ~ In dot q -> p ++ s = q ++ dot :: s' -> (s = [] \/ exists r, s = dot :: r) -> p = q /\ s = dot :: s'.
Proof.
  revert q. induction p as [|x p IH]; intros [|y q] Hp Hq E Hs; cbn [app] in *.
  - done.
  - exfalso. destruct Hs as [->|[r ->]]; [done|]. injection E as <- _. apply Hq. by left.
  - injection E as -> _. exfalso. apply Hp. by left.
  - injection E as -> E. destruct (IH q) as [-> H]; [intros H; apply Hp; by right|intros H; apply Hq; by right|done|done|done].
Qed.

Lemma tails_start arcs : tails arcs = [] \/ exists r, tails arcs = dot :: r.
Proof. destruct arcs; [by left|right; by eexists]. Qed.

Lemma tails_prefix t : forall arcs r, Forall subid_ok t -> Forall subid_ok arcs -> tails arcs = subtree t ++ r ->
  exists c rest, arcs = t ++ c :: rest /\ r = FormatUint c ++ tails rest.
Proof.
  unfold subtree. induction t as [|x t IH]; intros arcs r Ht Ha E.
  - destruct arcs as [|c rest]; [done|]. rewrite tails_cons in E. cbn in E. injection E as E. exists c, rest. by rewrite E.
  - apply Forall_cons_1 in Ht as [Hx Ht]. destruct arcs as [|y arcs]; [done|]. apply Forall_cons_1 in Ha as [Hy Ha].
    rewrite !tails_cons in E. cbn [app] in E. injection E as E. rewrite <- !app_assoc in E.
    assert (Hd : exists r', tails t ++ [dot] ++ r = dot :: r').
    { destruct (tails_start t) as [->|[r' ->]]; [by eexists|by eexists]. }
    destruct Hd as [r' Hd]. rewrite Hd in E.
    destruct (segment_split _ _ _ _ (FormatUint_no_dot y (arc_u64 y Hy)) (FormatUint_no_dot x (arc_u64 x Hx)) E (tails_start arcs)) as [E1 E2].
    apply FormatUint_inj in E1 as ->; [|done|done]. rewrite <- Hd in E2.
    destruct (IH arcs r Ht Ha) as (c & rest & -> & ->); [by rewrite <- app_assoc|]. by exists c, rest.
Qed.

Lemma subtree_tails t c rest : tails (t ++ c :: rest) = subtree t ++ FormatUint c ++ tails rest.
Proof. unfold subtree. by rewrite tails_app, tails_cons, <- app_assoc. Qed.

(** [HasPrefix] on an OID is the prefix of its arcs. *)
Lemma HasPrefix_subtree t arcs : Forall subid_ok t -> canonical arcs ->
  HasPrefix (dotted arcs) (subtree t) = true <-> exists c rest, arcs = t ++ c :: rest.
Proof.
  intros Ht [Hne Ha]. rewrite HasPrefix_true, dotted_tails by done. split.
  - intros [r Hr]. destruct (tails_prefix t arcs r Ht Ha Hr) as (c & rest & -> & _). by exists c, rest.
  - intros (c & rest & ->). exists (FormatUint c ++ tails rest). apply subtree_tails.
Qed.

Lemma drop_subtree t c rest : canonical (t ++ c :: rest) ->
  drop (length (subtree t)) (dotted (t ++ c :: rest)) = FormatUint c ++ tails rest.
Proof. intros [Hne _]. rewrite dotted_tails by done. rewrite subtree_tails. apply drop_app_length. Qed.

(** Reading a segment. *)
Lemma IndexByte_segment c rest : subid_ok c ->
  IndexByte (FormatUint c ++ tails rest) dot = match rest with [] => -1 | _ => len (FormatUint c) end.
Proof.
  intros Hc. destruct rest as [|i rest].
  - cbn. rewrite app_nil_r. apply IndexByte_none, FormatUint_no_dot, arc_u64, Hc.
  - rewrite tails_cons. apply IndexByte_app, FormatUint_no_dot, arc_u64, Hc.
Qed.
Lemma segment_len c : subid_ok c -> 0 < len (FormatUint c).
Proof.
  intros Hc. pose proof (len_nonneg (FormatUint c)). destruct (decide (len (FormatUint c) = 0)) as [E|]; [|lia].
  apply len_0_nil in E. by apply FormatUint_nonempty in E; [|apply arc_u64].
Qed.
Lemma take_segment c s : take (Z.to_nat (len (FormatUint c))) (FormatUint c ++ s) = FormatUint c.
Proof. unfold len. rewrite Nat2Z.id. apply take_app_length. Qed.
Lemma drop_segment c s x : drop (Z.to_nat (len (FormatUint c) + 1)) (FormatUint c ++ x :: s) = s.
Proof.
  unfold len. replace (Z.to_nat (Z.of_nat (length (FormatUint c)) + 1)) with (length (FormatUint c) + 1)%nat by lia.
  by rewrite <- drop_drop, drop_app_length.
Qed.
