(* ===== verification/Walk.v ===== *)
(** * GET lookups and the GETNEXT walk (snmp_handlers.go, resources.go,
    lldp_table.go)

    A device's MIB view is the union of five sources: the static resource file
    (indexed once at load), sysName and sysLocation, the cycling CPU and memory
    metrics, the interface counters, and the LLDP rows derived from the topology.
    [findResponseAt] answers one name, [findNextOIDWithServed] one step of a walk
    by merging the sources' candidates.  The interface counters are reached through
    an interface, [IfCounterOps] with the laws [IfCounterLaws]; what the LLDP
    provider computes for one OID ([lldpGet]) and the metric values are functions
    of the device state. *)

From stdpp Require Import gmap.
From S2P Require Import Prelude GoStrings Ber Oid OidOrder TypedValue.

(** ** Resource indexes (resources.go) *)

Definition sysNameOID : bytes := str ".1.3.6.1.2.1.1.5.0".
Definition sysLocationOID : bytes := str ".1.3.6.1.2.1.1.6.0".

Definition normaliseResourceOID (oid : bytes) : bytes :=
  match oid with
  | c :: _ => if negb (c =? dot) then str "." ++ oid else oid
  | [] => oid
  end.

(** A resource of the file: its OID key and its response. *)
Record DeviceResources := {
  oidIndex : gmap bytes bytes;
  sortedOIDs : list bytes;
  oidNextMap : gmap bytes bytes;
}.

(** The loop that fills [oidIndex] and [sortedOIDs]. *)
Fixpoint index_resources (snmp : list (bytes * bytes)) (index : gmap bytes bytes) (oids : list bytes)
    : gmap bytes bytes * list bytes :=
  match snmp with
  | [] => (index, oids)
  | (OID, Response) :: snmp' =>
      let oid := normaliseResourceOID OID in
      if beq oid sysNameOID || beq oid sysLocationOID then index_resources snmp' index oids
      else index_resources snmp' (<[oid := Response]> index) (oids ++ [oid])
  end.

(** [for i := 0; i < len-1; i++ { oidNextMap.Store(l[i], l[i+1]) }]. *)
Fixpoint link_next (l : list bytes) (m : gmap bytes bytes) : gmap bytes bytes :=
  match l with
  | a :: ((b :: _) as l') => link_next l' (<[a := b]> m)
  | _ => m
  end.

Definition buildResourceIndexes (snmp : list (bytes * bytes)) : DeviceResources :=
  let snmp := sort_by (fun a b => compareOIDsLexicographically (fst a) (fst b)) snmp in
  let '(index, oids) := index_resources snmp ∅ [] in
  let sorted := sort_by compareOIDsLexicographically oids in
  {| oidIndex := index; sortedOIDs := sorted; oidNextMap := link_next sorted ∅ |}.

(** ** The device as the SNMP server sees it *)

(** What the walk asks of the interface counters. *)
Record IfCounterOps := {
  hasRows : bool;
  firstDynOID : bytes;
  lastDynOID : bytes;
  NextDynamicOID : bytes -> bytes * bytes;
  GetDynamic : bytes -> bytes;
}.

Record MetricsCycler := {
  point : Z;
  metricValue : bytes -> Z -> bytes;
  ifCounters : option IfCounterOps;
}.

Record Device := {
  cachedSysName : option bytes;
  sysName : bytes;
  cachedSysLocation : option bytes;
  sysLocation : bytes;
  resources : DeviceResources;
  sortedMetricOIDs : list bytes;
  metricsCycler : option MetricsCycler;
  lldpGet : bytes -> bytes;
}.

Definition lldpRoot : bytes := str ".1.0.8802.1.1.2".
Definition ifAliasPrefix : bytes := str ".1.3.6.1.2.1.31.1.1.1.18.".
Definition isLLDPOID (oid : bytes) : bool := HasPrefix oid (lldpRoot ++ str ".").
Definition isIfAliasOID (oid : bytes) : bool := HasPrefix oid ifAliasPrefix.

Record kvOID := { kv_oid : bytes; kv_val : bytes }.

Definition metricsPoint (d : Device) : Z :=
  match metricsCycler d with Some mc => point mc | None => 0 end.

Definition currentSysName (d : Device) : bytes :=
  match cachedSysName d with Some v => v | None => sysName d end.
Definition currentSysLocation (d : Device) : bytes :=
  match cachedSysLocation d with Some v => v | None => sysLocation d end.

Definition ifCyclerOf (d : Device) : option IfCounterOps :=
  match metricsCycler d with Some mc => ifCounters mc | None => None end.

(** ** GET *)

(** The first value of a list of lookups that is not the empty string. *)
Definition findResponseAt (d : Device) (oid : bytes) (p : Z) : bytes :=
  if beq oid sysLocationOID then currentSysLocation d
  else if beq oid sysNameOID then currentSysName d
  else
  let metric := match metricsCycler d with Some mc => metricValue mc oid p | None => [] end in
  if negb (beq metric []) then metric else
  let counter := match ifCyclerOf d with Some ic => GetDynamic ic oid | None => [] end in
  if negb (beq counter []) then counter else
  let lldp := if isLLDPOID oid || isIfAliasOID oid then lldpGet d oid else [] in
  if negb (beq lldp []) then lldp else
  match oidIndex (resources d) !! oid with
  | Some response => response
  | None => valueNoSuchObject
  end.

(** ** GETNEXT *)

(** [for left < right { mid := (left + right) / 2; ... }] over the OIDs of a
    slice: the first position whose OID is greater than [cur].  [mid] is always
    below [right], so the default is never read. *)
Fixpoint search_loop (fuel : nat) (l : list bytes) (cur : bytes) (left right : nat) : nat :=
  match fuel with
  | O => left
  | S fuel' =>
      if (left <? right)%nat then
        let mid := ((left + right) / 2)%nat in
        if compareOIDs (nth mid l []) cur <=? 0
        then search_loop fuel' l cur (mid + 1)%nat right
        else search_loop fuel' l cur left mid
      else left
  end.
Definition searchAfter (l : list bytes) (cur : bytes) : nat := search_loop (length l) l cur 0 (length l).

Definition lldpNextFromServed (served : list kvOID) (currentOID : bytes) : bytes * bytes :=
  match served !! searchAfter (map kv_oid served) currentOID with
  | Some kv => (kv_oid kv, kv_val kv)
  | None => ([], [])
  end.

Definition overrideIfHC (ic : option IfCounterOps) (oid staticResp : bytes) : bytes :=
  match ic with
  | None => staticResp
  | Some ic =>
      if negb (HasPrefix oid (str ".1.3.6.1.2.1.2.2.1.")) &&
         negb (HasPrefix oid (str ".1.3.6.1.2.1.31.1.1.1.")) then staticResp
      else if negb (beq (GetDynamic ic oid) []) then GetDynamic ic oid else staticResp
  end.

Definition overrideLLDP (d : Device) (oid staticResp : bytes) : bytes :=
  if negb (isLLDPOID oid) && negb (isIfAliasOID oid) then staticResp
  else if negb (beq (lldpGet d oid) []) then lldpGet d oid else staticResp.

(** The pre-computed successor and its response, when both maps have one. *)
Definition precomputedNext (d : Device) (currentOID : bytes) : option (bytes * bytes) :=
  match oidNextMap (resources d) !! currentOID with
  | Some nextOID =>
      match oidIndex (resources d) !! nextOID with
      | Some response => Some (nextOID, response)
      | None => None
      end
  | None => None
  end.

(** [len(s) == 0 || next <= first || cur >= last]: no OID of the bracket can lie
    in the interval the fast path jumps over. *)
Definition bracketClear (empty : bool) (first last currentOID nextOID : bytes) : bool :=
  empty || (compareOIDs nextOID first <=? 0) || (0 <=? compareOIDs currentOID last).

Definition ifRows (d : Device) : option IfCounterOps :=
  match ifCyclerOf d with
  | Some ic => if hasRows ic then Some ic else None
  | None => None
  end.

Definition fastPath (d : Device) (currentOID : bytes) (lldpNext : bytes) : option (bytes * bytes) :=
  match precomputedNext d currentOID with
  | None => None
  | Some (nextOID, nextResp) =>
      let ms := sortedMetricOIDs d in
      let metricsClear := bracketClear (len ms =? 0) (hd [] ms) (List.last ms []) currentOID nextOID in
      let ifCyclerClear := match ifRows d with
                           | None => true
                           | Some ic => bracketClear false (firstDynOID ic) (lastDynOID ic) currentOID nextOID
                           end in
      let lldpClear := beq lldpNext [] || (0 <? compareOIDs lldpNext nextOID) in
      if metricsClear && ifCyclerClear && lldpClear
      then Some (nextOID, overrideLLDP d nextOID (overrideIfHC (ifCyclerOf d) nextOID nextResp))
      else None
  end.

(** The closure [consider] of the fallback for a device with no static OID. *)
Definition consider (currentOID : bytes) (best : bytes * bytes) (c : bytes * bytes) : bytes * bytes :=
  if (0 <? compareOIDs (fst c) currentOID) && (beq (fst best) [] || (compareOIDs (fst c) (fst best) <? 0))
  then c else best.

(** The first metric OID after the current one that has a value. *)
Fixpoint metricCandidate (mc : MetricsCycler) (p : Z) (currentOID : bytes) (ms : list bytes)
    : list (bytes * bytes) :=
  match ms with
  | [] => []
  | m :: ms' =>
      if (0 <? compareOIDs m currentOID) && negb (beq (metricValue mc m p) [])
      then [(m, metricValue mc m p)] else metricCandidate mc p currentOID ms'
  end.

Definition candidates (d : Device) (currentOID : bytes) (lldpNext : bytes * bytes) (p : Z)
    : list (bytes * bytes) :=
  let sorted := sortedOIDs (resources d) in
  (match precomputedNext d currentOID with
   | Some c => [c]
   | None =>
       match sorted !! searchAfter sorted currentOID with
       | Some staticOID =>
           if beq staticOID sysNameOID || beq staticOID sysLocationOID then []
           else match oidIndex (resources d) !! staticOID with
                | Some resp => [(staticOID, resp)]
                | None => []
                end
       | None => []
       end
   end) ++
  (if 0 <? compareOIDs sysNameOID currentOID then [(sysNameOID, currentSysName d)] else []) ++
  (if 0 <? compareOIDs sysLocationOID currentOID then [(sysLocationOID, currentSysLocation d)] else []) ++
  (match metricsCycler d with
   | Some mc => metricCandidate mc p currentOID (sortedMetricOIDs d)
   | None => []
   end) ++
  (match ifRows d with
   | Some ic => let '(o, v) := NextDynamicOID ic currentOID in if beq o [] then [] else [(o, v)]
   | None => []
   end) ++
  (if beq (fst lldpNext) [] then [] else [lldpNext]).

(** The lexicographically smallest candidate, the first of equal ones. *)
Fixpoint smallest (best : bytes * bytes) (cs : list (bytes * bytes)) : bytes * bytes :=
  match cs with
  | [] => best
  | c :: cs' => smallest (if compareOIDs (fst c) (fst best) <? 0 then c else best) cs'
  end.

Definition slowPath (d : Device) (currentOID : bytes) (lldpNext : bytes * bytes) (p : Z) : bytes * bytes :=
  if len (sortedOIDs (resources d)) =? 0 then
    let best := consider currentOID ([], []) (sysNameOID, currentSysName d) in
    let best := consider currentOID best (sysLocationOID, currentSysLocation d) in
    let best := if beq (fst lldpNext) [] then best else consider currentOID best lldpNext in
    if beq (fst best) [] then ([], valueEndOfMibView)
    else (fst best, overrideLLDP d (fst best) (snd best))
  else
    match candidates d currentOID lldpNext p with
    | [] => ([], valueEndOfMibView)
    | c :: cs =>
        let '(nextOID, response) := smallest c cs in
        (nextOID, overrideLLDP d nextOID (overrideIfHC (ifCyclerOf d) nextOID response))
    end.

Definition findNextOIDWithServed (d : Device) (currentOID : bytes) (lldpServed : list kvOID) (p : Z)
    : bytes * bytes :=
  let lldpNext := lldpNextFromServed lldpServed currentOID in
  match fastPath d currentOID (fst lldpNext) with
  | Some r => r
  | None => slowPath d currentOID lldpNext p
  end.

(** ** Successors *)

(** [r] is the least element of [U] strictly after [cur], if there is one. *)
Definition is_successor (U : list Z -> Prop) (cur : list Z) (r : option (list Z)) : Prop :=
  match r with
  | Some n => U n /\ lex cur n < 0 /\ forall u, U u -> lex cur u < 0 -> lex n u <= 0
  | None => forall u, U u -> ~ lex cur u < 0
  end.

Definition oid_of (r : option (list Z)) : bytes := match r with Some n => dotted n | None => [] end.

Definition ascending (l : list (list Z)) : Prop := StronglySorted (fun a b => lex a b < 0) l.

Lemma ascending_lookup l i j a b :
  ascending l -> l !! i = Some a -> l !! j = Some b -> (i < j)%nat -> lex a b < 0.
Proof.
  intros Hs. revert i j. induction Hs as [|x l Hs IH Hx]; intros i j Ha Hb Hij; [done|].
  destruct i as [|i], j as [|j]; simpl in *; try lia.
  - simplify_eq. rewrite List.Forall_forall in Hx. apply Hx. by eapply list_elem_of_In, list_elem_of_lookup_2.
  - eapply IH; eauto. lia.
Qed.

(** The search loop splits the slice at [cur]. *)
Lemma search_loop_spec l cur fuel : forall left right,
  Forall canonical l -> canonical cur -> ascending l ->
  (left <= right)%nat -> (right <= length l)%nat -> (right - left <= fuel)%nat ->
  (forall i a, (i < left)%nat -> l !! i = Some a -> lex a cur <= 0) ->
  (forall i a, (right <= i)%nat -> l !! i = Some a -> lex cur a < 0) ->
  let r := search_loop fuel (map dotted l) (dotted cur) left right in
  (r <= length l)%nat /\ (forall i a, (i < r)%nat -> l !! i = Some a -> lex a cur <= 0) /\
  (forall i a, (r <= i)%nat -> l !! i = Some a -> lex cur a < 0).
Proof.
  induction fuel as [|fuel IH]; intros left right Hc Hcur Hs Hlr Hr Hf Hlo Hhi; cbn [search_loop].
  { assert (left = right) as -> by lia. done. }
  destruct (Nat.ltb_spec left right) as [Hlt|Hge].
  2:{ assert (left = right) as -> by lia. split_and!; [lia|done|done]. }
  set (mid := ((left + right) / 2)%nat).
  assert (Hmid : (left <= mid < right)%nat).
  { unfold mid. split; [apply Nat.div_le_lower_bound; lia|apply Nat.Div0.div_lt_upper_bound; lia]. }
  destruct (lookup_lt_is_Some_2 l mid) as [m Hm]; [lia|].
  assert (Hnth : nth mid (map dotted l) [] = dotted m).
  { apply nth_lookup_Some. by rewrite lookup_map, Hm. }
  assert (Hcm : canonical m) by (by eapply Forall_lookup_1).
  rewrite Hnth, compareOIDs_dotted by done. destruct (lex m cur <=? 0) eqn:E; zbool.
  - apply IH; try done; try lia. intros i a Hi Ha. destruct (Nat.lt_ge_cases i mid).
    + pose proof (ascending_lookup l i mid a m Hs Ha Hm ltac:(lia)). apply (lex_le_trans a m cur); lia.
    + assert (i = mid) as -> by lia. simplify_eq. done.
  - apply IH; try done; try lia. intros i a Hi Ha. pose proof (lex_antisym m cur).
    destruct (Nat.eq_dec i mid) as [->|]; [simplify_eq; lia|].
    pose proof (ascending_lookup l mid i m a Hs Hm Ha ltac:(lia)). eapply lex_trans; [|eassumption]. lia.
Qed.

Lemma searchAfter_successor l cur :
  Forall canonical l -> canonical cur -> ascending l ->
  is_successor (fun n => In n l) cur (l !! searchAfter (map dotted l) (dotted cur)).
Proof.
  intros Hc Hcur Hs. unfold searchAfter. rewrite List.length_map.
  destruct (search_loop_spec l cur (length l) 0 (length l)) as (Hr & Hlo & Hhi); try done; try lia.
  { intros i a Hi Ha. apply lookup_lt_Some in Ha. lia. }
  set (r := search_loop _ _ _ _ _) in *.
  destruct (l !! r) as [n|] eqn:E; cbn [is_successor].
  - split_and!; [by eapply list_elem_of_In, list_elem_of_lookup_2|eapply Hhi; [|exact E]; lia|].
    intros u Hu Hlt. apply list_elem_of_In, list_elem_of_lookup_1 in Hu as [j Hj].
    destruct (Nat.lt_ge_cases j r) as [Hjr|Hjr].
    + specialize (Hlo j u Hjr Hj). pose proof (lex_antisym u cur). lia.
    + destruct (Nat.eq_dec j r) as [->|]; [simplify_eq; rewrite lex_refl; lia|].
      pose proof (ascending_lookup l r j n u Hs E Hj ltac:(lia)). lia.
  - intros u Hu Hlt. apply list_elem_of_In, list_elem_of_lookup_1 in Hu as [j Hj].
    apply lookup_ge_None in E. apply lookup_lt_Some in Hj as Hj'.
    specialize (Hlo j u ltac:(lia) Hj). pose proof (lex_antisym u cur). lia.
Qed.

(** ** Candidates *)

(** Each candidate is an element of [U] after [cur], and bounds every other. *)
Definition cands_ok (U : list Z -> Prop) (cur : list Z) (cs : list (bytes * bytes)) : Prop :=
  (forall c, In c cs -> exists n, fst c = dotted n /\ canonical n /\ U n /\ lex cur n < 0) /\
  (forall u, U u -> lex cur u < 0 ->
     exists c n, In c cs /\ fst c = dotted n /\ canonical n /\ lex n u <= 0).

Lemma cands_ok_app U V cur cs ds :
  cands_ok U cur cs -> cands_ok V cur ds -> cands_ok (fun n => U n \/ V n) cur (cs ++ ds).
Proof.
  intros [H1 H2] [H3 H4]. split.
  - intros c Hc. apply in_app_iff in Hc as [Hc|Hc]; [apply H1 in Hc|apply H3 in Hc];
      destruct Hc as (n & ? & ? & ? & ?); exists n; auto.
  - intros u [Hu|Hu] Hlt; [destruct (H2 u Hu Hlt) as (c & n & Hin & ?)|destruct (H4 u Hu Hlt) as (c & n & Hin & ?)];
      exists c, n; rewrite in_app_iff; auto.
Qed.

Lemma cands_ok_successor U cur r v :
  is_successor U cur r -> (forall n, r = Some n -> canonical n) ->
  cands_ok U cur (match r with Some n => [(dotted n, v)] | None => [] end).
Proof.
  intros Hr Hc. destruct r as [n|]; cbn [is_successor] in Hr.
  - destruct Hr as (Hu & Hlt & Hmin). specialize (Hc n eq_refl). split.
    + intros c [<-|[]]. exists n. done.
    + intros u Hu' Hlt'. exists (dotted n, v), n. split_and!; [by left|done|done|by apply Hmin].
  - split; [by intros c []|]. intros u Hu Hlt. exfalso. by eapply Hr.
Qed.

Lemma cands_ok_none U cur : (forall u, ~ U u) -> cands_ok U cur [].
Proof. intros H. split; [by intros c []|]. intros u Hu. exfalso. by eapply H. Qed.

Lemma smallest_spec cs : forall b n,
  fst b = dotted n -> canonical n -> (forall c, In c cs -> exists m, fst c = dotted m /\ canonical m) ->
  exists m, fst (smallest b cs) = dotted m /\ canonical m /\ In (smallest b cs) (b :: cs) /\
    lex m n <= 0 /\ forall c k, In c cs -> fst c = dotted k -> canonical k -> lex m k <= 0.
Proof.
  induction cs as [|c cs IH]; intros b n Hb Hn Hcs; cbn [smallest].
  { exists n. rewrite lex_refl. split_and!; [done|done|by left|lia|by intros ? ? []]. }
  destruct (Hcs c) as (k & Hk & Hck); [by left|]. rewrite Hk, Hb, compareOIDs_dotted by done.
  destruct (lex k n <? 0) eqn:E; zbool.
  - destruct (IH c k Hk Hck) as (m & Hm & Hcm & Hin & Hle & Hall); [intros; apply Hcs; by right|].
    exists m. split_and!; [done|done|destruct Hin; simpl; auto|apply (lex_le_trans m k n); lia|].
    intros c' k' [<-|Hc'] Hk' Hck'; [|by eapply Hall].
    rewrite Hk in Hk'. apply dotted_inj in Hk' as ->; done.
  - destruct (IH b n Hb Hn) as (m & Hm & Hcm & Hin & Hle & Hall); [intros; apply Hcs; by right|].
    exists m. split_and!; [done|done|destruct Hin; simpl; auto|done|].
    intros c' k' [<-|Hc'] Hk' Hck'; [|by eapply Hall].
    rewrite Hk in Hk'. apply dotted_inj in Hk' as ->; try done.
    pose proof (lex_antisym k' n). apply (lex_le_trans m n k'); lia.
Qed.

Lemma cands_ok_smallest U cur c cs :
  cands_ok U cur (c :: cs) ->
  exists n, fst (smallest c cs) = dotted n /\ canonical n /\ is_successor U cur (Some n).
Proof.
  intros [H1 H2]. destruct (H1 c) as (n0 & Hf & Hc & Hu & Hlt); [by left|].
  destruct (smallest_spec cs c n0 Hf Hc) as (m & Hm & Hcm & Hin & Hle & Hall).
  { intros c' Hc'. destruct (H1 c') as (n & ? & ? & _); [by right|eauto]. }
  exists m. split_and!; [done|done|]. destruct (H1 _ Hin) as (m' & Hm' & Hcm' & Hum & Hltm).
  rewrite Hm in Hm'. apply dotted_inj in Hm' as <-; try done. cbn [is_successor]. split_and!; [done|done|].
  intros u Hu' Hlt'. destruct (H2 u Hu' Hlt') as (c' & k & [<-|Hc'] & Hk & Hck & Hle').
  - rewrite Hf in Hk. apply dotted_inj in Hk as ->; try done. by eapply lex_le_trans.
  - eapply lex_le_trans; [by eapply Hall|done].
Qed.

(** ** The interface of the interface counters

    [owned] is the set of (column, ifIndex) rows the counters serve.  [gap] is
    where [NextDynamicOID] gives up although rows follow: the laws ask nothing of
    an empty answer there. *)
Class IfCounterLaws (ic : IfCounterOps) (owned gap : list Z -> Prop) : Prop := {
  ic_next : forall cur, canonical cur -> exists r,
    fst (NextDynamicOID ic (dotted cur)) = oid_of r /\
    match r with
    | Some n => canonical n /\ is_successor owned cur (Some n)
    | None => ~ gap cur -> is_successor owned cur None
    end;
  ic_bracket : hasRows ic = true -> exists f l, canonical f /\ canonical l /\
    firstDynOID ic = dotted f /\ lastDynOID ic = dotted l /\
    forall n, owned n -> lex f n <= 0 /\ lex n l <= 0;
  ic_empty : hasRows ic = false -> forall n, ~ owned n;
}.

(** No interface counters: nothing is owned. *)
Definition noIfCounters : IfCounterOps :=
  {| hasRows := false; firstDynOID := []; lastDynOID := []; NextDynamicOID := fun _ => ([], []);
     GetDynamic := fun _ => [] |}.
#[export] Instance noIfCounters_laws : IfCounterLaws noIfCounters (fun _ => False) (fun _ => False).
Proof.
  split.
  - intros cur _. exists None. split; [done|]. intros _ u [].
  - done.
  - auto.
Qed.

(** ** The walk *)

Definition sysArcs (n : list Z) : Prop :=
  n = [1; 3; 6; 1; 2; 1; 1; 5; 0] \/ n = [1; 3; 6; 1; 2; 1; 1; 6; 0].

Lemma sysNameOID_dotted : sysNameOID = dotted [1; 3; 6; 1; 2; 1; 1; 5; 0].
Proof. reflexivity. Qed.
Lemma sysLocationOID_dotted : sysLocationOID = dotted [1; 3; 6; 1; 2; 1; 1; 6; 0].
Proof. reflexivity. Qed.

(** What the load step and the topology guarantee of the state a walk reads:
    the static OIDs ascend, are indexed, and are linked only to the OID that
    follows; the metric OIDs and the served LLDP rows ascend. *)
Record walk_state (d : Device) (served : list kvOID) (static metrics lldp : list (list Z)) : Prop := {
  ws_sorted : sortedOIDs (resources d) = map dotted static;
  ws_static : ascending static /\ Forall canonical static;
  ws_index : forall a, In a static -> exists v, oidIndex (resources d) !! dotted a = Some v;
  ws_no_sys : forall a, In a static -> ~ sysArcs a;
  ws_next : forall c x, canonical c -> oidNextMap (resources d) !! dotted c = Some x ->
    exists n, x = dotted n /\ canonical n /\ is_successor (fun a => In a static) c (Some n);
  ws_metrics_eq : sortedMetricOIDs d = map dotted metrics;
  ws_metrics : ascending metrics /\ Forall canonical metrics;
  ws_lldp_eq : map kv_oid served = map dotted lldp;
  ws_lldp : ascending lldp /\ Forall canonical lldp;
}.

Section walk.
  Context (d : Device) (served : list kvOID) (static metrics lldp : list (list Z)).
  Context (owned gap : list Z -> Prop).
  Hypothesis Hwf : walk_state d served static metrics lldp.
  Hypothesis Hic : forall ic, ifCyclerOf d = Some ic -> IfCounterLaws ic owned gap.
  Hypothesis Hnone : ifCyclerOf d = None -> forall n, ~ owned n.
  Variable p : Z.

(** The metric rows that have a value at point [p]. *)
Definition metricRows (n : list Z) : Prop :=
  In n metrics /\ exists mc, metricsCycler d = Some mc /\ metricValue mc (dotted n) p <> [].

(** Every OID the device serves to a walk, and all but sysName/sysLocation. *)
Definition servedOIDs (n : list Z) : Prop :=
  In n static \/ sysArcs n \/ metricRows n \/ owned n \/ In n lldp.
Definition servedButSys (n : list Z) : Prop :=
  In n static \/ metricRows n \/ owned n \/ In n lldp.

Lemma lldpNext_successor cur :
  canonical cur -> exists r, fst (lldpNextFromServed served (dotted cur)) = oid_of r /\
    is_successor (fun n => In n lldp) cur r /\ forall n, r = Some n -> canonical n.
Proof.
  intros Hcur. destruct Hwf as [_ _ _ _ _ _ _ Heq [Hs Hc]].
  pose proof (searchAfter_successor lldp cur Hc Hcur Hs) as Hsucc. rewrite <- Heq in Hsucc.
  exists (lldp !! searchAfter (map kv_oid served) (dotted cur)). split_and!; [|done|].
  - unfold lldpNextFromServed. set (i := searchAfter _ _) in *.
    assert (Hi : kv_oid <$> served !! i = dotted <$> lldp !! i) by (by rewrite <- !lookup_map, Heq).
    destruct (served !! i) as [kv|], (lldp !! i) as [n|]; simpl in *; try done. congruence.
  - intros n Hn. by eapply Forall_lookup_1.
Qed.

Lemma precomputedNext_successor cur nextOID resp :
  canonical cur -> precomputedNext d (dotted cur) = Some (nextOID, resp) ->
  exists n, nextOID = dotted n /\ canonical n /\ is_successor (fun a => In a static) cur (Some n).
Proof.
  intros Hcur. unfold precomputedNext. destruct (oidNextMap (resources d) !! dotted cur) as [x|] eqn:E; [|done].
  destruct (oidIndex (resources d) !! x); [|done]. intros [= -> ->].
  by apply (ws_next _ _ _ _ _ Hwf cur) in E.
Qed.

(** Nothing of a clear bracket lies where the fast path jumps. *)
Lemma bracketClear_skips (U : list Z -> Prop) f l cur n u :
  canonical f -> canonical l -> canonical cur -> canonical n ->
  (forall u, U u -> lex f u <= 0 /\ lex u l <= 0) ->
  bracketClear false (dotted f) (dotted l) (dotted cur) (dotted n) = true ->
  U u -> lex cur u < 0 -> lex n u <= 0.
Proof.
  intros Hf Hl Hc Hn Hb Hclear Hu Hlt. destruct (Hb u Hu) as [Hfu Hul].
  unfold bracketClear in Hclear. rewrite !compareOIDs_dotted in Hclear by done. cbn [orb] in Hclear.
  apply orb_true_iff in Hclear as [H|H]; zbool.
  - by eapply lex_le_trans.
  - exfalso. pose proof (lex_antisym cur l). pose proof (lex_antisym cur u).
    pose proof (lex_le_trans u l cur ltac:(lia) ltac:(lia)). lia.
Qed.

Lemma metrics_bracket u :
  In u metrics -> exists f l, canonical f /\ canonical l /\ hd [] (sortedMetricOIDs d) = dotted f /\
    List.last (sortedMetricOIDs d) [] = dotted l /\
    forall v, In v metrics -> lex f v <= 0 /\ lex v l <= 0.
Proof.
  rewrite (ws_metrics_eq _ _ _ _ _ Hwf). destruct (ws_metrics _ _ _ _ _ Hwf) as [Hs Hc].
  destruct metrics as [|f ms]; [done|]. intros _.
  assert (Hlast : exists l, List.last (map dotted (f :: ms)) [] = dotted l /\ In l (f :: ms) /\
    forall v, In v (f :: ms) -> lex v l <= 0).
  { clear Hwf Hc. revert f Hs. induction ms as [|g ms IH]; intros f Hs.
    - exists f. split_and!; [done|by left|]. intros v [<-|[]]. rewrite lex_refl. lia.
    - inversion_clear Hs as [|? ? Hs' Hf]. destruct (IH g Hs') as (l & Hl & Hin & Hall).
      exists l. split_and!; [done|by right|]. intros v [<-|Hv]; [|by apply Hall].
      rewrite List.Forall_forall in Hf. specialize (Hf l Hin). lia. }
  destruct Hlast as (l & Hl & Hin & Hall). exists f, l. rewrite List.Forall_forall in Hc.
  split_and!; [apply Hc; by left|by apply Hc|done|done|]. intros v Hv. split; [|by apply Hall].
  destruct Hv as [<-|Hv]; [rewrite lex_refl; lia|]. inversion_clear Hs as [|? ? _ Hf].
  rewrite List.Forall_forall in Hf. specialize (Hf v Hv). lia.
Qed.

(** The fast path returns the successor among everything but sysName and
    sysLocation. *)
Lemma fastPath_successor cur o v :
  canonical cur -> fastPath d (dotted cur) (fst (lldpNextFromServed served (dotted cur))) = Some (o, v) ->
  exists n, o = dotted n /\ canonical n /\ is_successor servedButSys cur (Some n).
Proof.
  intros Hcur. unfold fastPath. destruct (precomputedNext d (dotted cur)) as [[x resp]|] eqn:E; [|done].
  destruct (precomputedNext_successor cur x resp Hcur E) as (n & -> & Hcn & Hst & Hlt & Hmin).
  destruct (lldpNext_successor cur Hcur) as (r & -> & Hr & Hrc).
  case_if; [|done]. intros [= <- <-]. exists n. split_and!; [done|done|]. zbool.
  split_and!; [by left|done|]. intros u Hu Hltu. destruct Hu as [Hu|[[Hu _]|[Hu|Hu]]].
  - by apply Hmin.
  - destruct (metrics_bracket u Hu) as (f & l & Hf & Hl & Hhd & Htl & Hall).
    assert (Hne : (len (sortedMetricOIDs d) =? 0) = false).
    { rewrite (ws_metrics_eq _ _ _ _ _ Hwf), len_map. apply Z.eqb_neq. intros Hz. apply len_0_nil in Hz.
      by rewrite Hz in Hu. }
    rewrite Hne, Hhd, Htl in *.
    by eapply (bracketClear_skips (fun v => In v metrics) f l cur n u).
  - unfold ifRows in *. destruct (ifCyclerOf d) as [ic|] eqn:Eic; [|by apply Hnone in Hu].
    pose proof (Hic ic ltac:(done)) as Hlaws. destruct (hasRows ic) eqn:Er; [|exfalso; by eapply ic_empty].
    destruct (ic_bracket Er) as (f & l & Hf & Hl & Hfo & Hlo & Hall). rewrite Hfo, Hlo in *.
    by eapply (bracketClear_skips owned f l cur n u).
  - destruct r as [m|]; cbn [oid_of is_successor] in *; [|by apply Hr in Hu].
    match goal with H : beq (dotted m) [] || _ = true |- _ => rename H into Hcl end.
    unfold beq in Hcl. rewrite bool_decide_false in Hcl by done. cbn [orb] in Hcl.
    rewrite compareOIDs_dotted in Hcl by (done || by apply Hrc). zbool.
    destruct Hr as (_ & _ & Hrm). specialize (Hrm u Hu Hltu). pose proof (lex_antisym m n).
    eapply lex_le_trans; [|exact Hrm]. lia.
Qed.

Lemma staticCandidate_ok cur :
  canonical cur ->
  cands_ok (fun a => In a static) cur
    (match precomputedNext d (dotted cur) with
     | Some c => [c]
     | None =>
         match sortedOIDs (resources d) !! searchAfter (sortedOIDs (resources d)) (dotted cur) with
         | Some staticOID =>
             if beq staticOID sysNameOID || beq staticOID sysLocationOID then []
             else match oidIndex (resources d) !! staticOID with
                  | Some resp => [(staticOID, resp)]
                  | None => []
                  end
         | None => []
         end
     end).
Proof.
  intros Hcur. destruct (precomputedNext d (dotted cur)) as [[x resp]|] eqn:E.
  { destruct (precomputedNext_successor cur x resp Hcur E) as (n & -> & Hcn & Hs).
    apply (cands_ok_successor _ cur (Some n)); [done|]. by intros ? [= <-]. }
  rewrite (ws_sorted _ _ _ _ _ Hwf). destruct (ws_static _ _ _ _ _ Hwf) as [Hasc Hcan].
  pose proof (searchAfter_successor static cur Hcan Hcur Hasc) as Hs. rewrite lookup_map.
  destruct (static !! searchAfter (map dotted static) (dotted cur)) as [n|] eqn:En; cbn [fmap option_fmap option_map].
  - assert (Hcn : canonical n) by (by eapply Forall_lookup_1).
    assert (Hin : In n static) by (by eapply list_elem_of_In, list_elem_of_lookup_2).
    assert (Hsys : beq (dotted n) sysNameOID || beq (dotted n) sysLocationOID = false).
    { pose proof (ws_no_sys _ _ _ _ _ Hwf n Hin) as Hns. rewrite sysNameOID_dotted, sysLocationOID_dotted.
      unfold beq. apply orb_false_iff. split; apply bool_decide_eq_false; intros Heq; apply Hns;
        apply dotted_inj in Heq; try done; [by left|by apply canonical_dec|by right|by apply canonical_dec]. }
    rewrite Hsys. destruct (ws_index _ _ _ _ _ Hwf n Hin) as [v ->].
    apply (cands_ok_successor _ cur (Some n)); [done|]. by intros ? [= <-].
  - by apply (cands_ok_successor _ cur None []).
Qed.

Lemma sysCandidates_ok cur :
  canonical cur ->
  cands_ok sysArcs cur
    ((if 0 <? compareOIDs sysNameOID (dotted cur) then [(sysNameOID, currentSysName d)] else []) ++
     (if 0 <? compareOIDs sysLocationOID (dotted cur) then [(sysLocationOID, currentSysLocation d)] else [])).
Proof.
  intros Hcur. unfold sysArcs. apply cands_ok_app.
  - rewrite sysNameOID_dotted, compareOIDs_dotted by (done || by apply canonical_dec).
    set (a := [1; 3; 6; 1; 2; 1; 1; 5; 0]). pose proof (lex_antisym a cur).
    destruct (0 <? lex a cur) eqn:E; zbool.
    + apply (cands_ok_successor _ cur (Some a)); [|intros ? [= <-]; by apply canonical_dec].
      cbn [is_successor]. split_and!; [done|lia|]. intros u -> _. rewrite lex_refl. lia.
    + apply (cands_ok_successor _ cur None []); [|done]. intros u ->. lia.
  - rewrite sysLocationOID_dotted, compareOIDs_dotted by (done || by apply canonical_dec).
    set (a := [1; 3; 6; 1; 2; 1; 1; 6; 0]). pose proof (lex_antisym a cur).
    destruct (0 <? lex a cur) eqn:E; zbool.
    + apply (cands_ok_successor _ cur (Some a)); [|intros ? [= <-]; by apply canonical_dec].
      cbn [is_successor]. split_and!; [done|lia|]. intros u -> _. rewrite lex_refl. lia.
    + apply (cands_ok_successor _ cur None []); [|done]. intros u ->. lia.
Qed.

Lemma metricCandidate_ok mc cur ms :
  canonical cur -> ascending ms -> Forall canonical ms ->
  cands_ok (fun n => In n ms /\ metricValue mc (dotted n) p <> []) cur
    (metricCandidate mc p (dotted cur) (map dotted ms)).
Proof.
  intros Hcur Hs Hc. induction Hs as [|m ms Hs IH Hm]; cbn [map metricCandidate].
  { apply cands_ok_none. by intros u [[] _]. }
  inversion_clear Hc as [|? ? Hcm Hcms]. specialize (IH Hcms).
  rewrite compareOIDs_dotted by done. pose proof (lex_antisym m cur).
  destruct ((0 <? lex m cur) && negb (beq (metricValue mc (dotted m) p) [])) eqn:E.
  - apply andb_true_iff in E as [E1 E2]. unfold beq in E2. zbool.
    apply (cands_ok_successor _ cur (Some m)); [|by intros ? [= <-]]. cbn [is_successor].
    split_and!; [by left|done|lia|]. intros u [[<-|Hu] _] _; [rewrite lex_refl; lia|].
    rewrite List.Forall_forall in Hm. specialize (Hm u Hu). lia.
  - destruct IH as [H1 H2]. split.
    + intros c Hin. destruct (H1 c Hin) as (n & ? & ? & [? ?] & ?). exists n. split_and!; try done. by right.
    + intros u [[<-|Hu] Hv] Hlt; [|by apply H2].
      exfalso. apply andb_false_iff in E as [E|E]; [lia|]. unfold beq in E. by zbool.
Qed.

Lemma cands_ok_ext U V cur cs : (forall n, U n <-> V n) -> cands_ok U cur cs -> cands_ok V cur cs.
Proof.
  intros HUV [H1 H2]. split.
  - intros c Hc. destruct (H1 c Hc) as (n & ? & ? & ? & ?). exists n. rewrite <- HUV. done.
  - intros u Hu. apply H2. by apply HUV.
Qed.

Lemma candidates_ok cur :
  canonical cur -> ~ gap cur ->
  cands_ok servedOIDs cur (candidates d (dotted cur) (lldpNextFromServed served (dotted cur)) p).
Proof.
  intros Hcur Hgap. unfold candidates.
  rewrite (app_assoc (if 0 <? compareOIDs sysNameOID _ then _ else _)).
  unfold servedOIDs. apply cands_ok_app; [by apply staticCandidate_ok|].
  apply cands_ok_app; [by apply sysCandidates_ok|]. apply cands_ok_app; [|apply cands_ok_app].
  - rewrite (ws_metrics_eq _ _ _ _ _ Hwf). destruct (ws_metrics _ _ _ _ _ Hwf) as [Hs Hc].
    destruct (metricsCycler d) as [mc|] eqn:Emc.
    + eapply cands_ok_ext; [|by apply metricCandidate_ok]. intros n. unfold metricRows. rewrite Emc.
      split; [intros [? ?]; eauto|]. intros [? (mc' & [= <-] & ?)]. done.
    + apply cands_ok_none. intros u [_ (mc & Hmc & _)]. congruence.
  - unfold ifRows. destruct (ifCyclerOf d) as [ic|] eqn:Eic; [|by apply cands_ok_none, Hnone].
    pose proof (Hic ic ltac:(done)) as Hlaws. destruct (hasRows ic) eqn:Er; [|by apply cands_ok_none, ic_empty].
    destruct (ic_next cur Hcur) as (r & Hf & Hr).
    destruct (NextDynamicOID ic (dotted cur)) as [o v]. cbn [fst] in Hf. subst o.
    destruct r as [n|]; cbn [oid_of]; unfold beq.
    + rewrite bool_decide_false by done. destruct Hr as [Hcn Hr].
      apply (cands_ok_successor _ cur (Some n)); [done|]. by intros ? [= <-].
    + rewrite bool_decide_true by done. apply (cands_ok_successor _ cur None []); [by apply Hr|done].
  - destruct (lldpNext_successor cur Hcur) as (r & Hf & Hr & Hrc).
    destruct (lldpNextFromServed served (dotted cur)) as [o v]. cbn [fst] in *. subst o.
    destruct r as [n|]; cbn [oid_of]; unfold beq.
    + rewrite bool_decide_false by done. by apply (cands_ok_successor _ cur (Some n)).
    + rewrite bool_decide_true by done. by apply (cands_ok_successor _ cur None []).
Qed.

(** One step of the walk: either the fast path's answer, or the successor among
    everything the device serves. *)
Lemma findNext_successor cur :
  canonical cur -> ~ gap cur -> static <> [] ->
  exists r, fst (findNextOIDWithServed d (dotted cur) served p) = oid_of r /\
    (forall n, r = Some n -> canonical n) /\
    match fastPath d (dotted cur) (fst (lldpNextFromServed served (dotted cur))) with
    | Some _ => is_successor servedButSys cur r
    | None => is_successor servedOIDs cur r
    end.
Proof.
  intros Hcur Hgap Hne. unfold findNextOIDWithServed.
  destruct (fastPath d (dotted cur) _) as [[o v]|] eqn:E.
  - destruct (fastPath_successor cur o v Hcur E) as (n & -> & Hcn & Hs). exists (Some n).
    split_and!; [done|by intros ? [= <-]|done].
  - unfold slowPath. rewrite (ws_sorted _ _ _ _ _ Hwf), len_map.
    replace (len static =? 0) with false
      by (symmetry; apply Z.eqb_neq; intros Hz; by apply len_0_nil in Hz).
    pose proof (candidates_ok cur Hcur Hgap) as Hok.
    destruct (candidates d (dotted cur) _ p) as [|c cs].
    + exists None. split_and!; [done|done|]. intros u Hu Hlt. destruct Hok as [_ H2].
      destruct (H2 u Hu Hlt) as (? & ? & [] & _).
    + destruct (cands_ok_smallest _ _ _ _ Hok) as (n & Hn & Hcn & Hs).
      destruct (smallest c cs) as [o v]. cbn [fst] in Hn |- *. subst. exists (Some n).
      split_and!; [done|by intros ? [= <-]|done].
Qed.
End walk.

(** ** The load step establishes the static half of the invariant *)

Lemma sort_by_map {A B} (cmp : B -> B -> Z) (cmp' : A -> A -> Z) (f : A -> B) (P : A -> Prop) l :
  (forall a b, P a -> P b -> cmp (f a) (f b) = cmp' a b) -> Forall P l ->
  sort_by cmp (map f l) = map f (sort_by cmp' l).
Proof.
  intros Hcmp. induction 1 as [|x l Hx Hl IH]; [done|]. cbn [map sort_by foldr].
  fold (sort_by cmp (map f l)). fold (sort_by cmp' l). rewrite IH.
  assert (Hs : Forall P (sort_by cmp' l)).
  { apply List.Forall_forall. intros y Hy. rewrite List.Forall_forall in Hl. apply Hl.
    eapply Permutation_in; [symmetry; apply sort_by_perm|done]. }
  clear -Hcmp Hx Hs. induction Hs as [|y m Hy _ IH]; [done|]. cbn [map insert_by].
  rewrite Hcmp by done. case_if; [|done]. cbn [map]. by rewrite IH.
Qed.

Lemma sort_by_ascending l : List.NoDup l -> ascending (sort_by lex l).
Proof.
  intros Hnd. apply sort_by_sorted; [exact lex_trans|by apply NoDup_ListNoDup|].
  intros a b _ _ Hne Hlt. pose proof (lex_antisym a b). destruct (Z.eq_dec (lex a b) 0) as [E|]; [by apply lex_eq in E|lia].
Qed.

Lemma link_next_spec l : forall m k x,
  link_next l m !! k = Some x -> m !! k = Some x \/ exists pre post, l = pre ++ k :: x :: post.
Proof.
  induction l as [|a l IH]; intros m k x; [by left|]. destruct l as [|b l]; [by left|].
  cbn [link_next]. intros H. apply IH in H as [H|(pre & post & H)].
  - destruct (decide (a = k)) as [->|Hne].
    + rewrite lookup_insert_eq in H. simplify_eq. right. by exists [], l.
    + rewrite lookup_insert_ne in H by done. by left.
  - right. exists (a :: pre), post. by rewrite H.
Qed.

Lemma ascending_adjacent S pre c n post :
  ascending S -> S = pre ++ c :: n :: post -> is_successor (fun a => In a S) c (Some n).
Proof.
  intros Hs ->. cbn [is_successor].
  assert (Hc : (pre ++ c :: n :: post) !! length pre = Some c) by (by rewrite lookup_app_r, Nat.sub_diag).
  assert (Hn : (pre ++ c :: n :: post) !! S (length pre) = Some n)
    by (rewrite lookup_app_r by lia; by replace (S (length pre) - length pre)%nat with 1%nat by lia).
  split_and!.
  - apply in_app_iff. right. right. by left.
  - eapply ascending_lookup; eauto.
  - intros u Hu Hlt. apply list_elem_of_In, list_elem_of_lookup_1 in Hu as [j Hj].
    destruct (Nat.lt_trichotomy j (S (length pre))) as [Hj1|[->|Hj1]].
    + exfalso. destruct (Nat.eq_dec j (length pre)) as [->|].
      * rewrite Hc in Hj. simplify_eq. rewrite lex_refl in Hlt. lia.
      * pose proof (ascending_lookup _ j (length pre) u c Hs Hj Hc ltac:(lia)).
        pose proof (lex_antisym u c). lia.
    + rewrite Hn in Hj. simplify_eq. rewrite lex_refl. lia.
    + pose proof (ascending_lookup _ (S (length pre)) j n u Hs Hn Hj ltac:(lia)). lia.
Qed.

Lemma NoDup_filter_In {A} (P : A -> Prop) `{forall x, Decision (P x)} l : List.NoDup l -> List.NoDup (filter P l).
Proof.
  induction 1 as [|a l Hn _ IH]; [constructor|]. rewrite filter_cons. destruct (decide _); [|done].
  constructor; [|done]. intros Hin. apply Hn.
  apply list_elem_of_In, list_elem_of_filter in Hin as [_ Hin]. by apply list_elem_of_In.
Qed.

(** The names the index loop keeps. *)
Definition keptOIDs (snmp : list (bytes * bytes)) : list bytes :=
  filter (fun o => beq o sysNameOID || beq o sysLocationOID = false)
    (map (fun r => normaliseResourceOID (fst r)) snmp).

Lemma index_resources_spec snmp : forall index oids,
  snd (index_resources snmp index oids) = oids ++ keptOIDs snmp /\
  forall k, (is_Some (index !! k) \/ In k (keptOIDs snmp)) ->
    is_Some (fst (index_resources snmp index oids) !! k).
Proof.
  induction snmp as [|[O R] snmp IH]; intros index oids; cbn [index_resources].
  { split; [by rewrite app_nil_r|]. intros k [H|[]]. done. }
  unfold keptOIDs. cbn [map fst]. rewrite filter_cons.
  destruct (beq (normaliseResourceOID O) sysNameOID || beq (normaliseResourceOID O) sysLocationOID) eqn:E.
  - rewrite decide_False by done. apply IH.
  - rewrite decide_True by done. destruct (IH (<[normaliseResourceOID O := R]> index) (oids ++ [normaliseResourceOID O]))
      as [H1 H2]. split; [by rewrite H1, <- app_assoc|].
    intros k Hk. apply H2. destruct (decide (normaliseResourceOID O = k)) as [->|Hne].
    + left. by rewrite lookup_insert_eq.
    + rewrite lookup_insert_ne by done. destruct Hk as [Hk|[Hk|Hk]]; [by left|done|by right].
Qed.

(** A resource file whose keys name distinct OIDs of 32-bit arcs. *)
Definition resources_ok (snmp : list (bytes * bytes)) (L : list (list Z)) : Prop :=
  map (fun r => normaliseResourceOID (fst r)) snmp = map dotted L /\ Forall canonical L /\ List.NoDup L.

Lemma keptOIDs_dotted snmp L :
  resources_ok snmp L ->
  keptOIDs snmp = map dotted (filter (fun a => beq (dotted a) sysNameOID || beq (dotted a) sysLocationOID = false) L).
Proof.
  intros (Heq & _ & _). unfold keptOIDs. rewrite Heq. clear Heq. induction L as [|a L IH]; [done|].
  cbn [map]. rewrite !filter_cons. destruct (decide _); [by rewrite IH|done].
Qed.

Lemma buildResourceIndexes_ok snmp L :
  resources_ok snmp L ->
  exists static, let r := buildResourceIndexes snmp in
    sortedOIDs r = map dotted static /\ ascending static /\ Forall canonical static /\
    (forall a, In a static <-> In a L /\ ~ sysArcs a) /\
    (forall a, In a static -> exists v, oidIndex r !! dotted a = Some v) /\
    (forall c x, canonical c -> oidNextMap r !! dotted c = Some x ->
      exists n, x = dotted n /\ canonical n /\ is_successor (fun a => In a static) c (Some n)).
Proof.
  intros (Heq & Hcan & Hnd). unfold buildResourceIndexes.
  set (snmp' := sort_by (fun a b => compareOIDsLexicographically (fst a) (fst b)) snmp).
  assert (Hp : Permutation snmp snmp') by apply sort_by_perm.
  assert (Hok' : exists L', resources_ok snmp' L' /\ Permutation L L').
  { assert (Hpm : Permutation (map dotted L) (map (fun r => normaliseResourceOID (fst r)) snmp'))
      by (rewrite <- Heq; by apply Permutation_map).
    symmetry in Hpm. apply Permutation_map_inv in Hpm as (L' & HL' & HpL).
    exists L'. split; [|done]. split_and!; [done| |].
    - apply List.Forall_forall. intros a Ha. rewrite List.Forall_forall in Hcan. apply Hcan.
      eapply Permutation_in; [symmetry; exact HpL|done].
    - by eapply Permutation_NoDup. }
  destruct Hok' as (L' & Hok' & HpL). pose proof (keptOIDs_dotted snmp' L' Hok') as Hk.
  destruct Hok' as (_ & Hcan' & Hnd').
  set (K := filter (fun a => beq (dotted a) sysNameOID || beq (dotted a) sysLocationOID = false) L') in *.
  destruct (index_resources_spec snmp' ∅ []) as [Ho Hi].
  destruct (index_resources snmp' ∅ []) as [index oids]. cbn [fst snd app] in Ho, Hi. subst oids. rewrite Hk in *.
  cbn [sortedOIDs oidIndex oidNextMap].
  assert (HKc : Forall canonical K).
  { apply List.Forall_forall. intros a Ha. rewrite List.Forall_forall in Hcan'. apply Hcan'.
    apply list_elem_of_In in Ha. apply list_elem_of_filter in Ha as [_ Ha]. by apply list_elem_of_In. }
  rewrite (sort_by_map _ lex dotted canonical) by (done || apply compareOIDsLexicographically_dotted).
  assert (Hperm : Permutation K (sort_by lex K)) by apply sort_by_perm.
  assert (HKin : forall a, In a (sort_by lex K) <-> In a L /\ ~ sysArcs a).
  { intros a. split.
    - intros Ha. eapply Permutation_in in Ha; [|symmetry; exact Hperm].
      apply list_elem_of_In, list_elem_of_filter in Ha as [Hf Ha]. apply list_elem_of_In in Ha.
      split; [eapply Permutation_in; [symmetry; exact HpL|done]|].
      rewrite sysNameOID_dotted, sysLocationOID_dotted in Hf. unfold beq in Hf.
      intros [->| ->]; [rewrite bool_decide_true in Hf by done|rewrite (bool_decide_true (_ = dotted [1; 3; 6; 1; 2; 1; 1; 6; 0])), orb_true_r in Hf by done]; done.
    - intros [Ha Hs]. eapply Permutation_in; [exact Hperm|]. apply list_elem_of_In, list_elem_of_filter.
      split; [|apply list_elem_of_In; by eapply Permutation_in].
      rewrite List.Forall_forall in Hcan. specialize (Hcan a Ha).
      rewrite sysNameOID_dotted, sysLocationOID_dotted. unfold beq. apply orb_false_iff.
      split; apply bool_decide_eq_false; intros Hd; apply Hs; apply dotted_inj in Hd; try done;
        [by left|by apply canonical_dec|by right|by apply canonical_dec]. }
  assert (HSc : Forall canonical (sort_by lex K)).
  { apply List.Forall_forall. intros a Ha. rewrite List.Forall_forall in HKc. apply HKc.
    eapply Permutation_in; [symmetry; exact Hperm|done]. }
  assert (Hasc : ascending (sort_by lex K)) by (by apply sort_by_ascending, NoDup_filter_In).
  exists (sort_by lex K). split_and!; [done|done|done|done| |].
  - intros a Ha. destruct (Hi (dotted a)) as [v Hv]; [|eauto]. right. apply in_map.
    eapply Permutation_in; [symmetry; exact Hperm|done].
  - intros c x Hc Hx. apply link_next_spec in Hx as [Hx|(pre & post & Hl)]; [done|].
    apply map_eq_app in Hl as (pre' & rest & HS & _ & Hl).
    destruct rest as [|c' [|n rest]]; [done|done|]. cbn [map] in Hl.
    pose proof (f_equal (hd []) Hl) as Hc'. pose proof (f_equal (fun l => hd [] (tail l)) Hl) as Hn'.
    cbn [hd tail] in Hc', Hn'. clear Hl.
    assert (Hcc : canonical c') by (rewrite HS in HSc; rewrite List.Forall_forall in HSc; apply HSc, in_app_iff; right; by left).
    apply dotted_inj in Hc' as ->; try done. exists n. split_and!; [by symmetry| |].
    + rewrite HS in HSc. rewrite List.Forall_forall in HSc. apply HSc, in_app_iff. right. right. by left.
    + rewrite HS. eapply ascending_adjacent; [|reflexivity]. by rewrite <- HS.
Qed.

(** ** A whole walk *)

(** A manager's walk: GETNEXT from each answer until end-of-MIB.  [None] when
    [fuel] steps do not get there. *)
Fixpoint walk (fuel : nat) (d : Device) (served : list kvOID) (p : Z) (cur : bytes) : option (list bytes) :=
  match fuel with
  | O => None
  | S fuel' =>
      let o := fst (findNextOIDWithServed d cur served p) in
      if beq o [] then Some []
      else match walk fuel' d served p o with Some l => Some (o :: l) | None => None end
  end.

(** How many of a list of OIDs lie after [cur]. *)
Definition after (cur : list Z) (l : list (list Z)) : list (list Z) := filter (fun n => lex cur n < 0) l.

Lemma after_shrinks l cur n : In n l -> lex cur n < 0 -> (length (after n l) < length (after cur l))%nat.
Proof.
  intros Hin Hlt. unfold after.
  assert (Hle : forall m, (length (filter (fun x => (lex n x < 0)%Z) m) <= length (filter (fun x => (lex cur x < 0)%Z) m))%nat).
  { induction m as [|x m IH]; [done|]. rewrite !filter_cons. destruct (decide (lex n x < 0)) as [Hx|Hx].
    - rewrite decide_True by (by eapply lex_trans). simpl. lia.
    - destruct (decide (lex cur x < 0)); simpl; lia. }
  induction l as [|x l IH]; [done|]. rewrite !filter_cons. destruct Hin as [->|Hin].
  - rewrite decide_False by (rewrite lex_refl; lia). rewrite decide_True by done. simpl.
    specialize (Hle l). lia.
  - specialize (IH Hin). destruct (decide (lex n x < 0)) as [Hx|Hx].
    + rewrite decide_True by (by eapply lex_trans). simpl. lia.
    + destruct (decide (lex cur x < 0)); simpl; lia.
Qed.

Section whole_walk.
  Context (d : Device) (served : list kvOID) (static metrics lldp : list (list Z)) (owned : list Z -> Prop).
  Hypothesis Hwf : walk_state d served static metrics lldp.
  Hypothesis Hic : forall ic, ifCyclerOf d = Some ic -> IfCounterLaws ic owned (fun _ => False).
  Hypothesis Hnone : ifCyclerOf d = None -> forall n, ~ owned n.
  Hypothesis Hne : static <> [].
  Variable p : Z.
  Variable all : list (list Z).
  Hypothesis Hall : forall n, servedOIDs d static metrics lldp owned p n -> In n all.

Lemma servedButSys_served n :
  servedButSys d static metrics lldp owned p n -> servedOIDs d static metrics lldp owned p n.
Proof. unfold servedButSys, servedOIDs. intuition. Qed.

Lemma step_progress cur :
  canonical cur -> exists r, fst (findNextOIDWithServed d (dotted cur) served p) = oid_of r /\
    match r with
    | Some n => canonical n /\ In n all /\ lex cur n < 0 /\
        forall u, servedButSys d static metrics lldp owned p u -> lex cur u < 0 -> lex n u <= 0
    | None => forall u, servedButSys d static metrics lldp owned p u -> ~ lex cur u < 0
    end.
Proof.
  intros Hcur. destruct (findNext_successor d served static metrics lldp owned (fun _ => False) Hwf Hic Hnone p cur)
    as (r & Hf & Hc & Hs); [done|by intros []|done|]. exists r. split; [done|].
  destruct (fastPath _ _ _) as [?|]; destruct r as [n|]; cbn [is_successor] in Hs.
  - destruct Hs as (Hu & Hlt & Hmin). split_and!; [by apply Hc|by apply Hall, servedButSys_served|done|done].
  - done.
  - destruct Hs as (Hu & Hlt & Hmin). split_and!; [by apply Hc|by apply Hall|done|].
    intros u Hu'. by apply Hmin, servedButSys_served.
  - intros u Hu'. by apply Hs, servedButSys_served.
Qed.

Lemma walk_complete_aux fuel : forall cur,
  canonical cur -> (length (after cur all) < fuel)%nat ->
  exists l, walk fuel d served p (dotted cur) = Some (map dotted l) /\ Forall canonical l /\
    ascending (cur :: l) /\
    forall u, servedButSys d static metrics lldp owned p u -> lex cur u < 0 -> In u l.
Proof.
  induction fuel as [|fuel IH]; intros cur Hcur Hf; [lia|]. cbn [walk].
  destruct (step_progress cur Hcur) as (r & -> & Hr). destruct r as [n|]; cbn [oid_of]; unfold beq.
  - rewrite bool_decide_false by done. destruct Hr as (Hcn & Hin & Hlt & Hmin).
    pose proof (after_shrinks all cur n Hin Hlt).
    destruct (IH n Hcn ltac:(lia)) as (l & -> & Hcl & Hasc & Hvis). exists (n :: l). split_and!; [done|by constructor| |].
    + constructor; [done|]. inversion_clear Hasc as [|? ? _ Hnl]. constructor; [done|].
      eapply List.Forall_impl; [|exact Hnl]. intros x Hx. by eapply lex_trans.
    + intros u Hu Hltu. specialize (Hmin u Hu Hltu). destruct (Z.eq_dec (lex n u) 0) as [E|E].
      * apply lex_eq in E as ->. by left.
      * right. apply Hvis; [done|lia].
  - rewrite bool_decide_true by done. exists []. split_and!; [done|constructor|repeat constructor|].
    intros u Hu Hltu. exfalso. by eapply Hr.
Qed.
End whole_walk.

(** ** Theorems *)

(** A device with four scalars, a sysName and nothing dynamic. *)
Definition sampleResources : list (bytes * bytes) :=
  [(str "1.3.6.1.2.1.1.7.0", str "72"); (str ".1.3.6.1.2.1.1.4.0", str "noc@example.net");
   (str ".1.3.6.1.2.1.1.5.0", str "from-file"); (str "1.3.6.1.2.1.1.1.0", str "IOS-XR")].
Definition sampleDevice : Device :=
  {| cachedSysName := Some (str "edge-1"); sysName := str "edge-1"; cachedSysLocation := None;
     sysLocation := str "lab"; resources := buildResourceIndexes sampleResources;
     sortedMetricOIDs := []; metricsCycler := None; lldpGet := fun _ => [] |}.
Definition sampleArcs : list (list Z) :=
  [[1; 3; 6; 1; 2; 1; 1; 7; 0]; [1; 3; 6; 1; 2; 1; 1; 4; 0]; [1; 3; 6; 1; 2; 1; 1; 5; 0];
   [1; 3; 6; 1; 2; 1; 1; 1; 0]].

Lemma sampleResources_ok : resources_ok sampleResources sampleArcs.
Proof.
  split_and!; [reflexivity| |].
  - repeat (apply List.Forall_cons; [by apply canonical_dec|]). apply List.Forall_nil.
  - repeat (apply List.NoDup_cons; [simpl; intuition discriminate|]). apply List.NoDup_nil.
Qed.

(** Loading a resource file builds indexes the walk can trust: the sorted
    slice is strictly ascending and holds exactly the file's OIDs other than
    sysName and sysLocation, each of them is in the lookup index, and every link
    of the next-OID map leads to the immediate successor. *)
Theorem resource_indexes_correct snmp L :
  resources_ok snmp L ->
  exists static, let r := buildResourceIndexes snmp in
    sortedOIDs r = map dotted static /\ ascending static /\ Forall canonical static /\
    (forall a, In a static <-> In a L /\ ~ sysArcs a) /\
    (forall a, In a static -> exists v, oidIndex r !! dotted a = Some v) /\
    (forall c x, canonical c -> oidNextMap r !! dotted c = Some x ->
      exists n, x = dotted n /\ canonical n /\ is_successor (fun a => In a static) c (Some n)).
Proof. apply buildResourceIndexes_ok. Qed.

Lemma resource_indexes_correct_witness :
  exists static, let r := buildResourceIndexes sampleResources in
    sortedOIDs r = map dotted static /\ ascending static /\ Forall canonical static /\
    (forall a, In a static <-> In a sampleArcs /\ ~ sysArcs a) /\
    (forall a, In a static -> exists v, oidIndex r !! dotted a = Some v) /\
    (forall c x, canonical c -> oidNextMap r !! dotted c = Some x ->
      exists n, x = dotted n /\ canonical n /\ is_successor (fun a => In a static) c (Some n)).
Proof. apply (resource_indexes_correct sampleResources sampleArcs). apply sampleResources_ok. Defined.

Lemma sampleDevice_state :
  exists static, static <> [] /\ walk_state sampleDevice [] static [] [] /\
    (forall a, In a static <-> In a sampleArcs /\ ~ sysArcs a).
Proof.
  destruct (buildResourceIndexes_ok _ _ sampleResources_ok) as (static & H1 & H2 & H3 & H4 & H5 & H6).
  exists static. split_and!; [|split|done]; try done; try (by split; constructor).
  - intros ->. apply (proj2 (H4 [1; 3; 6; 1; 2; 1; 1; 7; 0])). split; [by left|]. intros [?|?]; discriminate.
  - intros a Ha. by apply H4.
Qed.





(** The fast path skips sysName and sysLocation: on a device whose file has
    sysContact.0 and sysServices.0, GET answers sysName.0 and sysLocation.0, yet
    GETNEXT from sysContact.0 answers sysServices.0, and a whole walk visits
    neither. *)
Theorem walk_skips_sysName :
  findResponseAt sampleDevice sysNameOID 0 = str "edge-1" /\
  findResponseAt sampleDevice sysLocationOID 0 = str "lab" /\
  findNextOIDWithServed sampleDevice (str ".1.3.6.1.2.1.1.4.0") [] 0 = (str ".1.3.6.1.2.1.1.7.0", str "72") /\
  walk 9 sampleDevice [] 0 (str ".1.3") =
    Some [str ".1.3.6.1.2.1.1.1.0"; str ".1.3.6.1.2.1.1.4.0"; str ".1.3.6.1.2.1.1.7.0"].
Proof. vm_compute. done. Qed.

(** A device that cycles a metric the static file also lists. *)
Definition metricDevice : Device :=
  {| cachedSysName := None; sysName := str "edge-2"; cachedSysLocation := None; sysLocation := str "lab";
     resources := buildResourceIndexes
       [(str ".1.3.6.1.2.1.1.7.0", str "72"); (str ".1.3.6.1.4.1.9.9.13.1.3.1.3.1", str "39")];
     sortedMetricOIDs := [str ".1.3.6.1.4.1.9.9.13.1.3.1.3.1"];
     metricsCycler := Some {| point := 0; ifCounters := None;
       metricValue := fun o _ => if beq o (str ".1.3.6.1.4.1.9.9.13.1.3.1.3.1") then str "31" else [] |};
     lldpGet := fun _ => [] |}.

(** For an OID that is both a metric and a static row the walk and GET
    disagree: GET answers the cycling metric, GETNEXT the value in the file. *)
Theorem walk_serves_static_metric :
  findResponseAt metricDevice (str ".1.3.6.1.4.1.9.9.13.1.3.1.3.1") 0 = str "31" /\
  findNextOIDWithServed metricDevice (str ".1.3.6.1.2.1.1.7.0") [] 0 =
    (str ".1.3.6.1.4.1.9.9.13.1.3.1.3.1", str "39").
Proof. vm_compute. done. Qed.
