(* ===== verification/IfState.v ===== *)
(** * The interface state engine (interface_state.go)

    Per interface one 64-bit word packs the link state, the admin-status and the
    time of the last operational transition.  The oper-status every protocol
    reports is not stored: it is derived from the word and, for a subinterface,
    from its parent's word.  The file models the packing, the readers, the two
    mutators with the cascade to subinterfaces and the fan-out of events, and
    proves that the events describe exactly what an observer sees change.  The
    last section interleaves mutators of one interface step by step, as the
    lock-free compare-and-swap loop allows. *)

From stdpp Require Import gmap.
From S2P Require Import Prelude.

(** ** Enumerations *)

Definition OperUp : Z := 1.
Definition OperDown : Z := 2.
Definition OperTesting : Z := 3.
Definition OperUnknown : Z := 4.
Definition OperLowerLayerDn : Z := 7.
Definition AdminUp : Z := 1.
Definition AdminDown : Z := 2.
Definition AdminTesting : Z := 3.

Definition LastChangeRewindSentinel : Z := 2 ^ 64 - 1.
Definition LeafOperStatus : Z := 1.
Definition LeafAdminStatus : Z := 2.

(** [At] is the clock reading in Unix nanoseconds. *)
Record StateChange := {
  IfIndex : Z;
  Oper : Z;
  PrevOper : Z;
  Admin : Z;
  Link : Z;
  ev_LastChangeNs : Z;
  Changed : Z;
  At : Z;
}.

(** ** The packed word *)

Definition linkStateMask : Z := 2 ^ 3 - 1.
Definition adminStatusMask : Z := 2 ^ 3 - 1.
Definition lastChangeMask : Z := 2 ^ 58 - 1.
Definition adminStatusShift : Z := 3.
Definition lastChangeShift : Z := 6.

Definition wallRelNs (nowWallNs bootWallNs : Z) : Z :=
  if nowWallNs <? bootWallNs then lastChangeMask
  else Z.land (u64 (nowWallNs - bootWallNs)) lastChangeMask.

Definition lastChangeAbs (bootTimeUnixNs relNs : Z) : Z :=
  if relNs =? lastChangeMask then LastChangeRewindSentinel else u64 (bootTimeUnixNs + relNs).

Definition packState (link admin lastChangeNs : Z) : Z :=
  Z.lor (Z.lor (Z.land link linkStateMask)
               (Z.shiftl (Z.land admin adminStatusMask) adminStatusShift))
        (u64 (Z.shiftl (Z.land lastChangeNs lastChangeMask) lastChangeShift)).

Definition unpackState (w : Z) : Z * Z * Z :=
  (u8 (Z.land w linkStateMask),
   u8 (Z.land (Z.shiftr w adminStatusShift) adminStatusMask),
   Z.land (Z.shiftr w lastChangeShift) lastChangeMask).

Definition normaliseSlot (link admin : Z) : Z * Z :=
  (if link =? 0 then OperUnknown else link, if admin =? 0 then AdminUp else admin).

(** ** Derivation *)

Definition deriveOper (admin link : Z) : Z :=
  if admin =? AdminDown then OperDown
  else if admin =? AdminTesting then OperTesting
  else link.

Definition deriveChildOper (admin link parentOper : Z) : Z :=
  let oper := deriveOper admin link in
  if (oper =? OperUp) && negb (parentOper =? OperUp) then OperLowerLayerDn else oper.

(** ** The engine

    [parent] and [children] are [None] on a device without subinterfaces (Go's
    nil).  A parent of 0 means top-level.  [topologyGen] is the generation counter
    of the global topology, [None] when the simulator has none: the mutators bump
    it so that cached LLDP tables are rebuilt. *)
Record InterfaceState := {
  slots : list Z;
  maxIfIndex : Z;
  bootTimeUnixNs : Z;
  parent : option (list Z);
  children : option (list (list Z));
  loopback : option (list bool);
  stacked : option (list bool);
  topologyGen : option Z;
}.

Definition with_slots (s : InterfaceState) (l : list Z) : InterfaceState :=
  {| slots := l; maxIfIndex := maxIfIndex s; bootTimeUnixNs := bootTimeUnixNs s;
     parent := parent s; children := children s; loopback := loopback s; stacked := stacked s;
     topologyGen := topologyGen s |}.

(** [bumpGen] adds one to a uint64. *)
Definition invalidateLLDPServedCache (s : InterfaceState) : InterfaceState :=
  {| slots := slots s; maxIfIndex := maxIfIndex s; bootTimeUnixNs := bootTimeUnixNs s;
     parent := parent s; children := children s; loopback := loopback s; stacked := stacked s;
     topologyGen := (fun g => u64 (g + 1)) <$> topologyGen s |}.

(** [make([]T, n)]. *)
Definition zeros {A} (n : Z) (z : A) : list A := replicate (Z.to_nat n) z.

(** [clock] is the reading of [now()] at construction; a size below one panics. *)
Definition newInterfaceStateWithClock (maxIfIndex clock : Z) (gen : option Z) : res InterfaceState :=
  if maxIfIndex <? 1 then Panic
  else Ok {| slots := zeros maxIfIndex 0; maxIfIndex := maxIfIndex; bootTimeUnixNs := u64 clock;
             parent := None; children := None; loopback := None; stacked := None; topologyGen := gen |}.

(** [l[i]] for an index the code has checked against the table's length: every
    table of an engine has [maxIfIndex] entries ([engine_ok]), so the default is
    never read ([word_lookup], [parents_lookup]). *)
Definition at_slot {A} (l : list A) (slot : Z) (z : A) : A := nth (Z.to_nat slot) l z.

Definition load (s : InterfaceState) (slot : Z) : Z := at_slot (slots s) slot 0.
Definition store (s : InterfaceState) (slot w : Z) : InterfaceState :=
  with_slots s (<[Z.to_nat slot := w]> (slots s)).

Definition slot_in (s : InterfaceState) (slot : Z) : bool := (0 <=? slot) && (slot <? maxIfIndex s).

Definition Seed (s : InterfaceState) (ifIndex link admin : Z) : InterfaceState :=
  let slot := ifIndex - 1 in
  if negb (slot_in s slot) then s
  else if (link <? OperUp) || (OperLowerLayerDn <? link) then s
  else if (admin <? AdminUp) || (AdminTesting <? admin) then s
  else store s slot (packState link admin 0).

(** The keys of a Go map, sorted. *)
Definition sorted_keys {A} (m : gmap Z A) : list Z := sort_by (fun a b => a - b) (map fst (map_to_list m)).

(** The loop of [setParents] over the sorted children. *)
Fixpoint link_family (kids : list Z) (parents : gmap Z Z) (max : Z)
    (par : list Z) (chl : list (list Z)) : list Z * list (list Z) :=
  match kids with
  | [] => (par, chl)
  | c :: kids' =>
      let p := default 0 (parents !! c) in
      if (c <? 1) || (max <? c) || (p <? 1) || (max <? p)
      then link_family kids' parents max par chl
      else link_family kids' parents max (<[Z.to_nat (c - 1) := p]> par)
             (<[Z.to_nat (p - 1) := at_slot chl (p - 1) [] ++ [c]]> chl)
  end.

Definition setParents (s : InterfaceState) (parents : gmap Z Z) : InterfaceState :=
  if bool_decide (parents = ∅) then s else
  let '(par, chl) := link_family (sorted_keys parents) parents (maxIfIndex s)
                       (zeros (maxIfIndex s) 0) (zeros (maxIfIndex s) []) in
  {| slots := slots s; maxIfIndex := maxIfIndex s; bootTimeUnixNs := bootTimeUnixNs s;
     parent := Some par; children := Some chl; loopback := loopback s; stacked := stacked s;
     topologyGen := topologyGen s |}.

Definition Parent (s : InterfaceState) (ifIndex : Z) : Z :=
  match parent s with
  | None => 0
  | Some par => if (ifIndex <? 1) || (maxIfIndex s <? ifIndex) then 0 else at_slot par (ifIndex - 1) 0
  end.

(** The map keys that are in range, marked in a table. *)
Definition mark (max : Z) (set : gset Z) : list bool :=
  foldr (fun idx t => if (1 <=? idx) && (idx <=? max) then <[Z.to_nat (idx - 1) := true]> t else t)
    (zeros max false) (elements set).

Definition setLoopbacks (s : InterfaceState) (set : gset Z) : InterfaceState :=
  if bool_decide (set = ∅) then s else
  {| slots := slots s; maxIfIndex := maxIfIndex s; bootTimeUnixNs := bootTimeUnixNs s;
     parent := parent s; children := children s;
     loopback := Some (mark (maxIfIndex s) set); stacked := stacked s; topologyGen := topologyGen s |}.

Definition setStacked (s : InterfaceState) (set : gset Z) : InterfaceState :=
  if bool_decide (set = ∅) then s else
  {| slots := slots s; maxIfIndex := maxIfIndex s; bootTimeUnixNs := bootTimeUnixNs s;
     parent := parent s; children := children s;
     loopback := loopback s; stacked := Some (mark (maxIfIndex s) set);
     topologyGen := topologyGen s |}.

Definition NamedSubinterface (s : InterfaceState) (ifIndex : Z) : bool :=
  if Parent s ifIndex =? 0 then false
  else match stacked s with None => true | Some t => negb (at_slot t (ifIndex - 1) false) end.

Definition Linkless (s : InterfaceState) (ifIndex : Z) : bool :=
  if negb (Parent s ifIndex =? 0) then true
  else match loopback s with
       | None => false
       | Some t => (1 <=? ifIndex) && (ifIndex <=? maxIfIndex s) && at_slot t (ifIndex - 1) false
       end.

(** A word's link and admin with the defaults of an unseeded slot, and its raw
    last change. *)
Definition readSlot (w : Z) : Z * Z * Z :=
  let '(link, admin, rel) := unpackState w in
  let '(link, admin) := normaliseSlot link admin in
  (link, admin, rel).

Definition parentSlot (s : InterfaceState) (slot : Z) : Z :=
  match parent s with None => 0 | Some par => at_slot par slot 0 end.

Definition parentOper (s : InterfaceState) (slot : Z) : Z :=
  let p := parentSlot s slot in
  if p =? 0 then OperUp else
  let '(link, admin, _) := readSlot (load s (p - 1)) in
  deriveOper admin link.

Record StateSnapshot := {
  snap_Oper : Z;
  snap_Link : Z;
  snap_Admin : Z;
  snap_LastChangeNs : Z;
  Found : bool;
}.

Definition Snapshot (s : InterfaceState) (ifIndex : Z) : StateSnapshot :=
  let slot := ifIndex - 1 in
  if negb (slot_in s slot) then
    {| snap_Oper := 0; snap_Link := 0; snap_Admin := 0; snap_LastChangeNs := 0; Found := false |}
  else
  let '(link, admin, rel) := readSlot (load s slot) in
  {| snap_Oper := deriveChildOper admin link (parentOper s slot);
     snap_Link := link; snap_Admin := admin;
     snap_LastChangeNs := if rel =? lastChangeMask then LastChangeRewindSentinel
                          else u64 (bootTimeUnixNs s + rel);
     Found := true |}.

Definition LinkState (s : InterfaceState) (ifIndex : Z) : Z :=
  let slot := ifIndex - 1 in
  if negb (slot_in s slot) then OperUnknown else
  let '(link, _, _) := unpackState (load s slot) in
  if link =? 0 then OperUnknown else link.

Definition OperStatus (s : InterfaceState) (ifIndex : Z) : Z :=
  let slot := ifIndex - 1 in
  if negb (slot_in s slot) then OperUnknown else
  let '(link, admin, _) := readSlot (load s slot) in
  deriveChildOper admin link (parentOper s slot).

Definition AdminStatus (s : InterfaceState) (ifIndex : Z) : Z :=
  let slot := ifIndex - 1 in
  if negb (slot_in s slot) then AdminUp else
  let '(_, admin, _) := unpackState (load s slot) in
  if admin =? 0 then AdminUp else admin.

Definition LastChangeNs (s : InterfaceState) (ifIndex : Z) : Z :=
  let slot := ifIndex - 1 in
  if negb (slot_in s slot) then 0 else
  let '(_, _, rel) := unpackState (load s slot) in
  if rel =? lastChangeMask then LastChangeRewindSentinel else u64 (bootTimeUnixNs s + rel).

(** ** Mutators

    The body of a compare-and-swap loop is a function of the word it loaded, the
    parent's oper-status and the clock: either the call returns without storing,
    or it attempts to store a word.  Under [familyMu], or alone, the swap
    succeeds the first time; [Interleaving] below runs several loops at once. *)
Inductive LinkMutation := LinkUnchanged | LinkMovedMasked | LinkMovedVisible.

Inductive linkAttempt :=
| LinkStop
| LinkStoreMasked (w : Z)
| LinkStoreVisible (w : Z) (wasOper nowOper relNs : Z) (evt : StateChange).

Definition linkBody (boot ifIndex pOper cur newLink now : Z) : linkAttempt :=
  let '(curLink, curAdmin, curRel) := readSlot cur in
  if curLink =? newLink then LinkStop else
  let wasOper := deriveChildOper curAdmin curLink pOper in
  let nowOper := deriveChildOper curAdmin newLink pOper in
  if wasOper =? nowOper then LinkStoreMasked (packState newLink curAdmin curRel)
  else
    let relNs := wallRelNs (u64 now) boot in
    LinkStoreVisible (packState newLink curAdmin relNs) wasOper nowOper relNs
      {| IfIndex := ifIndex; Oper := nowOper; PrevOper := wasOper; Admin := curAdmin; Link := newLink;
         ev_LastChangeNs := lastChangeAbs boot relNs; Changed := LeafOperStatus; At := now |}.

Inductive adminAttempt :=
| AdminStop
| AdminStore (w : Z) (wasOper nowOper relNs : Z) (evts : list StateChange).

Definition adminBody (boot ifIndex pOper cur newVal now : Z) : adminAttempt :=
  let '(curLink, curAdmin, curRel) := readSlot cur in
  if curAdmin =? newVal then AdminStop else
  let wasOper := deriveChildOper curAdmin curLink pOper in
  let nowOper := deriveChildOper newVal curLink pOper in
  let operMoved := negb (wasOper =? nowOper) in
  let relNs := if operMoved then wallRelNs (u64 now) boot else curRel in
  let evt (leaf : Z) :=
    {| IfIndex := ifIndex; Oper := nowOper; PrevOper := wasOper; Admin := newVal; Link := curLink;
       ev_LastChangeNs := lastChangeAbs boot relNs; Changed := leaf; At := now |} in
  AdminStore (packState curLink newVal relNs) wasOper nowOper relNs
    ([evt LeafAdminStatus] ++ (if operMoved then [evt LeafOperStatus] else [])).

(** The walk over a parent's children. *)
Fixpoint cascade_loop (s : InterfaceState) (cs : list Z) (wasParent nowParent at_ relNs : Z)
    : InterfaceState * list StateChange :=
  match cs with
  | [] => (s, [])
  | c :: cs' =>
      let '(link, admin, _) := readSlot (load s (c - 1)) in
      let was := deriveChildOper admin link wasParent in
      let now := deriveChildOper admin link nowParent in
      if was =? now then cascade_loop s cs' wasParent nowParent at_ relNs
      else
        let '(s', out) := cascade_loop (store s (c - 1) (packState link admin relNs))
                            cs' wasParent nowParent at_ relNs in
        (s', {| IfIndex := c; Oper := now; PrevOper := was; Admin := admin; Link := link;
                ev_LastChangeNs := lastChangeAbs (bootTimeUnixNs s) relNs;
                Changed := LeafOperStatus; At := at_ |} :: out)
  end.

Definition childrenAt (s : InterfaceState) (slot : Z) : list Z :=
  match children s with None => [] | Some chl => at_slot chl slot [] end.

Definition cascadeChildren (s : InterfaceState) (slot wasParent nowParent at_ relNs : Z)
    : InterfaceState * list StateChange :=
  cascade_loop s (childrenAt s slot) wasParent nowParent at_ relNs.

Definition SetLinkState (s : InterfaceState) (ifIndex newLink now : Z)
    : InterfaceState * LinkMutation * list StateChange :=
  let slot := ifIndex - 1 in
  if negb (slot_in s slot) then (s, LinkUnchanged, [])
  else if (newLink <? OperUp) || (OperLowerLayerDn <? newLink) then (s, LinkUnchanged, [])
  else
  match linkBody (bootTimeUnixNs s) ifIndex (parentOper s slot) (load s slot) newLink now with
  | LinkStop => (s, LinkUnchanged, [])
  | LinkStoreMasked w => (store s slot w, LinkMovedMasked, [])
  | LinkStoreVisible w wasOper nowOper relNs evt =>
      let '(s', evts) := cascadeChildren (invalidateLLDPServedCache (store s slot w))
                          slot wasOper nowOper now relNs in
      (s', LinkMovedVisible, evt :: evts)
  end.

Definition setAdminLeaf (s : InterfaceState) (ifIndex newVal now : Z)
    : InterfaceState * list StateChange :=
  let slot := ifIndex - 1 in
  if negb (slot_in s slot) then (s, [])
  else if (newVal <? AdminUp) || (AdminTesting <? newVal) then (s, [])
  else
  match adminBody (bootTimeUnixNs s) ifIndex (parentOper s slot) (load s slot) newVal now with
  | AdminStop => (s, [])
  | AdminStore w wasOper nowOper relNs evts =>
      let s' := store s slot w in
      if wasOper =? nowOper then (s', evts)
      else
        let '(s'', evts') := cascadeChildren (invalidateLLDPServedCache s') slot wasOper nowOper now relNs in
        (s'', evts ++ evts')
  end.

Definition ApplyAdminStatus (s : InterfaceState) (ifIndex target now : Z)
    : InterfaceState * list StateChange := setAdminLeaf s ifIndex target now.

(** ** Packing and unpacking *)

Lemma land_ones_mod x k : 0 <= k -> Z.land x (2 ^ k - 1) = x mod 2 ^ k.
Proof. intros Hk. rewrite <- Z.land_ones by done. by rewrite Z.ones_equiv. Qed.

Lemma packState_sum l a r :
  0 <= l < 8 -> 0 <= a < 8 -> 0 <= r <= lastChangeMask -> packState l a r = r * 64 + (a * 8 + l).
Proof.
  unfold lastChangeMask. intros Hl Ha Hr. unfold packState, linkStateMask, adminStatusMask, lastChangeMask.
  rewrite !land_ones_mod by lia. rewrite !Z.mod_small by lia.
  rewrite (Z.lor_comm l), (lor_shiftl_add a l) by (unfold adminStatusShift; lia).
  unfold u64. rewrite Z.mod_small by (rewrite Z.shiftl_mul_pow2; unfold lastChangeShift; lia).
  rewrite Z.lor_comm. unfold adminStatusShift, lastChangeShift. rewrite lor_shiftl_add by lia. lia.
Qed.

Lemma unpackState_sum w :
  0 <= w < 2 ^ 64 ->
  unpackState w = (w mod 8, (w / 8) mod 8, w / 64).
Proof.
  intros Hw. unfold unpackState, linkStateMask, adminStatusMask, lastChangeMask, adminStatusShift, lastChangeShift.
  rewrite !land_ones_mod, !Z.shiftr_div_pow2 by lia. unfold u8.
  change (2 ^ 3) with 8. change (2 ^ 6) with 64.
  rewrite !(Z.mod_small (_ mod 8)) by (pose proof (Z.mod_pos_bound w 8); pose proof (Z.mod_pos_bound (w / 8) 8); lia).
  rewrite (Z.mod_small (w / 64)); [done|]. split; [apply Z.div_pos; lia|]. apply Z.div_lt_upper_bound; lia.
Qed.

Lemma packState_range l a r :
  0 <= l < 8 -> 0 <= a < 8 -> 0 <= r <= lastChangeMask -> 0 <= packState l a r < 2 ^ 64.
Proof. intros Hl Ha Hr. rewrite packState_sum by done. unfold lastChangeMask in Hr. lia. Qed.

Lemma unpack_pack l a r :
  0 <= l < 8 -> 0 <= a < 8 -> 0 <= r <= lastChangeMask -> unpackState (packState l a r) = (l, a, r).
Proof.
  intros Hl Ha Hr. rewrite unpackState_sum by by apply packState_range.
  rewrite packState_sum by done. unfold lastChangeMask in Hr.
  repeat f_equal; Z.to_euclidean_division_equations; lia.
Qed.

(** What the readers make of a word: in range, and never the unseeded zero. *)
Definition reading_ok (v : Z * Z * Z) : Prop :=
  let '(l, a, r) := v in 1 <= l < 8 /\ 1 <= a < 8 /\ 0 <= r <= lastChangeMask.

Lemma readSlot_ok w : 0 <= w < 2 ^ 64 -> reading_ok (readSlot w).
Proof.
  intros Hw. unfold readSlot. rewrite unpackState_sum by done. unfold normaliseSlot, OperUnknown, AdminUp.
  simpl. unfold lastChangeMask.
  pose proof (Z.mod_pos_bound w 8). pose proof (Z.mod_pos_bound (w / 8) 8).
  destruct (w mod 8 =? 0) eqn:E1, ((w / 8) mod 8 =? 0) eqn:E2; zbool;
    split_and!; try lia; Z.to_euclidean_division_equations; lia.
Qed.

Lemma readSlot_pack l a r : reading_ok (l, a, r) -> readSlot (packState l a r) = (l, a, r).
Proof.
  intros (Hl & Ha & Hr). unfold readSlot. rewrite unpack_pack by lia. unfold normaliseSlot.
  destruct (l =? 0) eqn:?, (a =? 0) eqn:?; zbool; done || lia.
Qed.

Lemma wallRelNs_range now boot : 0 <= wallRelNs now boot <= lastChangeMask.
Proof.
  unfold wallRelNs. case_if; [unfold lastChangeMask; lia|].
  unfold lastChangeMask. rewrite land_ones_mod by lia. pose proof (Z.mod_pos_bound (u64 (now - boot)) (2 ^ 58)). lia.
Qed.

(** ** The invariant of an engine *)

Record engine_ok (s : InterfaceState) : Prop := {
  ok_len : len (slots s) = maxIfIndex s;
  ok_words : Forall (fun w => 0 <= w < 2 ^ 64) (slots s);
  ok_boot : 0 <= bootTimeUnixNs s < 2 ^ 64;
  ok_tables : match parent s, children s with
              | None, None => True
              | Some par, Some chl => len par = maxIfIndex s /\ len chl = maxIfIndex s
              | _, _ => False
              end;
  ok_parent : forall slot, slot_in s slot = true -> parentSlot s slot <> 0 ->
    slot_in s (parentSlot s slot - 1) = true /\ parentSlot s (parentSlot s slot - 1) = 0;
  ok_children : forall slot, slot_in s slot = true ->
    NoDup (childrenAt s slot) /\
    forall c, c ∈ childrenAt s slot <-> slot_in s (c - 1) = true /\ parentSlot s (c - 1) = slot + 1;
}.

Lemma slot_in_spec s slot : slot_in s slot = true <-> 0 <= slot < maxIfIndex s.
Proof. unfold slot_in. lia. Qed.

(** A checked index is inside the table. *)
Lemma word_lookup s slot :
  engine_ok s -> slot_in s slot = true -> slots s !! Z.to_nat slot = Some (load s slot).
Proof.
  intros H Hs. apply slot_in_spec in Hs. pose proof (ok_len s H) as Hl. unfold load, at_slot.
  destruct (lookup_lt_is_Some_2 (slots s) (Z.to_nat slot)) as [w Hw]; [unfold len in Hl; lia|].
  rewrite Hw. f_equal. symmetry. apply nth_lookup_Some, Hw.
Qed.

Lemma load_range s slot : engine_ok s -> slot_in s slot = true -> 0 <= load s slot < 2 ^ 64.
Proof.
  intros H Hs. pose proof (ok_words s H) as Hw. eapply Forall_lookup_1 in Hw; [exact Hw|].
  by apply word_lookup.
Qed.

Lemma parents_lookup s slot par :
  engine_ok s -> parent s = Some par -> slot_in s slot = true ->
  par !! Z.to_nat slot = Some (parentSlot s slot).
Proof.
  intros H Hp Hs. apply slot_in_spec in Hs. pose proof (ok_tables s H) as Ht. rewrite Hp in Ht.
  destruct (children s) as [chl|]; [|done]. destruct Ht as [Ht _]. unfold parentSlot, at_slot. rewrite Hp.
  destruct (lookup_lt_is_Some_2 par (Z.to_nat slot)) as [w Hw]; [unfold len in Ht; lia|].
  rewrite Hw. f_equal. symmetry. apply nth_lookup_Some, Hw.
Qed.

(** Two engines that differ at most in their words and the LLDP generation. *)
Definition same_frame (s s' : InterfaceState) : Prop :=
  maxIfIndex s' = maxIfIndex s /\ bootTimeUnixNs s' = bootTimeUnixNs s /\
  parent s' = parent s /\ children s' = children s /\ len (slots s') = len (slots s).

Lemma same_frame_ok s s' :
  same_frame s s' -> engine_ok s -> Forall (fun w => 0 <= w < 2 ^ 64) (slots s') -> engine_ok s'.
Proof.
  intros (Hm & Hb & Hp & Hc & Hl) [H1 _ H2 H3 H4 H5] Hw.
  assert (Hin : forall x, slot_in s' x = slot_in s x) by (intros; unfold slot_in; by rewrite Hm).
  assert (Hpar : forall x, parentSlot s' x = parentSlot s x) by (intros; unfold parentSlot; by rewrite Hp).
  constructor.
  - congruence.
  - done.
  - by rewrite Hb.
  - by rewrite Hp, Hc, Hm.
  - intros slot. rewrite Hpar, !Hin, Hpar. apply H4.
  - intros slot. unfold childrenAt. rewrite Hc, Hin. intros Hs. destruct (H5 slot Hs) as [Hn Hcs].
    split; [done|]. intros c. rewrite Hin, Hpar. apply Hcs.
Qed.

Lemma store_frame s slot w : same_frame s (store s slot w).
Proof. unfold same_frame, store, with_slots, len. simpl. by rewrite length_insert. Qed.

Lemma same_frame_trans s1 s2 s3 : same_frame s1 s2 -> same_frame s2 s3 -> same_frame s1 s3.
Proof. unfold same_frame. intros (?&?&?&?&?) (?&?&?&?&?). split_and!; congruence. Qed.

Lemma load_store s slot w j :
  engine_ok s -> slot_in s slot = true -> slot_in s j = true ->
  load (store s slot w) j = if j =? slot then w else load s j.
Proof.
  intros H Hs Hj. apply slot_in_spec in Hs, Hj. pose proof (ok_len s H) as Hl. unfold len in Hl.
  unfold load, at_slot, store, with_slots. simpl. destruct (j =? slot) eqn:E; zbool.
  - subst. apply nth_lookup_Some, list_lookup_insert_eq. lia.
  - rewrite !nth_lookup, list_lookup_insert_ne by lia. done.
Qed.

Lemma store_ok s slot w : engine_ok s -> 0 <= w < 2 ^ 64 -> engine_ok (store s slot w).
Proof.
  intros H Hw. eapply same_frame_ok; [apply store_frame|done|]. simpl.
  apply Forall_insert; [apply ok_words, H|done].
Qed.

Lemma invalidate_ok s : engine_ok s -> engine_ok (invalidateLLDPServedCache s).
Proof. intros [H1 H2 H3 H4 H5 H6]. by constructor. Qed.

(** ** Readers *)

(** The four leaves an observer reads, from one slot's reading. *)
Definition operAt (s : InterfaceState) (slot : Z) : Z :=
  let '(link, admin, _) := readSlot (load s slot) in deriveChildOper admin link (parentOper s slot).

Lemma readers s slot l a r :
  slot_in s slot = true -> readSlot (load s slot) = (l, a, r) ->
  LinkState s (slot + 1) = l /\ AdminStatus s (slot + 1) = a /\
  LastChangeNs s (slot + 1) = lastChangeAbs (bootTimeUnixNs s) r /\ OperStatus s (slot + 1) = operAt s slot.
Proof.
  intros Hs Hr. unfold LinkState, AdminStatus, LastChangeNs, OperStatus, operAt, lastChangeAbs.
  rewrite Z.add_simpl_r, Hs. cbn [negb]. rewrite Hr. revert Hr. unfold readSlot.
  destruct (unpackState (load s slot)) as [[l0 a0] r0]. unfold normaliseSlot. intros Hr. by injection Hr as <- <- <-.
Qed.

(** [Snapshot] is the tuple of the four single readers. *)
Lemma Snapshot_readers s ifIndex :
  slot_in s (ifIndex - 1) = true ->
  Snapshot s ifIndex =
    {| snap_Oper := OperStatus s ifIndex; snap_Link := LinkState s ifIndex;
       snap_Admin := AdminStatus s ifIndex; snap_LastChangeNs := LastChangeNs s ifIndex; Found := true |}.
Proof.
  intros Hs. destruct (readSlot (load s (ifIndex - 1))) as [[l a] r] eqn:Hr.
  destruct (readers s (ifIndex - 1) l a r Hs Hr) as (H1 & H2 & H3 & H4).
  rewrite Z.sub_add in *. rewrite H1, H2, H3. unfold Snapshot, OperStatus. by rewrite Hs, Hr.
Qed.

(** ** The cascade *)

Section cascade.
  Variables (wasParent nowParent at_ relNs : Z).
  Hypothesis Hrel : 0 <= relNs <= lastChangeMask.

Definition childWas (s : InterfaceState) (c : Z) : Z :=
  let '(link, admin, _) := readSlot (load s (c - 1)) in deriveChildOper admin link wasParent.
Definition childNow (s : InterfaceState) (c : Z) : Z :=
  let '(link, admin, _) := readSlot (load s (c - 1)) in deriveChildOper admin link nowParent.
Definition childMoves (s : InterfaceState) (c : Z) : bool := negb (childWas s c =? childNow s c).

Definition childWord (s : InterfaceState) (c : Z) : Z :=
  let '(link, admin, _) := readSlot (load s (c - 1)) in packState link admin relNs.
Definition childEvent (s : InterfaceState) (c : Z) : StateChange :=
  let '(link, admin, _) := readSlot (load s (c - 1)) in
  {| IfIndex := c; Oper := childNow s c; PrevOper := childWas s c; Admin := admin; Link := link;
     ev_LastChangeNs := lastChangeAbs (bootTimeUnixNs s) relNs; Changed := LeafOperStatus; At := at_ |}.

Lemma cascade_loop_cons s c cs :
  cascade_loop s (c :: cs) wasParent nowParent at_ relNs =
  if childMoves s c then
    let '(s', out) := cascade_loop (store s (c - 1) (childWord s c)) cs wasParent nowParent at_ relNs in
    (s', childEvent s c :: out)
  else cascade_loop s cs wasParent nowParent at_ relNs.
Proof.
  cbn [cascade_loop]. unfold childMoves, childWord, childEvent, childWas, childNow.
  destruct (readSlot (load s (c - 1))) as [[l a] r]. by destruct (_ =? _).
Qed.

Lemma childWord_range s c : engine_ok s -> slot_in s (c - 1) = true -> 0 <= childWord s c < 2 ^ 64.
Proof.
  intros H Hc. unfold childWord. pose proof (readSlot_ok _ (load_range s (c - 1) H Hc)) as Hr.
  destruct (readSlot (load s (c - 1))) as [[l a] r]. destruct Hr as (?&?&?). apply packState_range; lia.
Qed.

(** What a child reads is settled by its own word. *)
Lemma child_same s s' c :
  load s' (c - 1) = load s (c - 1) -> bootTimeUnixNs s' = bootTimeUnixNs s ->
  childMoves s' c = childMoves s c /\ childWord s' c = childWord s c /\ childEvent s' c = childEvent s c.
Proof.
  intros Hl Hb. unfold childMoves, childWord, childEvent, childWas, childNow. by rewrite Hl, Hb.
Qed.

Lemma cascade_loop_spec s cs s' out :
  engine_ok s -> NoDup cs -> Forall (fun c => slot_in s (c - 1) = true) cs ->
  cascade_loop s cs wasParent nowParent at_ relNs = (s', out) ->
  same_frame s s' /\ engine_ok s' /\ topologyGen s' = topologyGen s /\
  out = map (childEvent s) (filter (childMoves s) cs) /\
  forall j, slot_in s j = true ->
    load s' j = if bool_decide ((j + 1) ∈ cs) && childMoves s (j + 1) then childWord s (j + 1) else load s j.
Proof.
  revert s s' out. induction cs as [|c cs IH]; intros s s' out Hok Hnd Hin Hc.
  { by injection Hc as <- <-. }
  inversion_clear Hnd as [|? ? Hnc Hnd0]. rename Hnd0 into Hnd. apply Forall_cons_1 in Hin as [Hc1 Hin].
  rewrite cascade_loop_cons in Hc. destruct (childMoves s c) eqn:Em.
  - set (s1 := store s (c - 1) (childWord s c)) in *.
    destruct (cascade_loop s1 cs wasParent nowParent at_ relNs) as [s2 out2] eqn:E2. injection Hc as <- <-.
    assert (Hf : same_frame s s1) by apply store_frame.
    assert (Hin1 : forall j, slot_in s1 j = slot_in s j) by done.
    destruct (IH s1 s2 out2) as (Hf2 & Hok2 & Hg2 & Hout & Hload); [by apply store_ok, childWord_range|done|done|done|].
    assert (Hsame : forall d, slot_in s (d - 1) = true -> d <> c -> load s1 (d - 1) = load s (d - 1)).
    { intros d Hd Hne. unfold s1. rewrite load_store by done. destruct (d - 1 =? c - 1) eqn:E; zbool; [lia|done]. }
    split_and!; [by eapply same_frame_trans|done|done| |].
    + rewrite Hout. rewrite filter_cons. rewrite decide_True by (by rewrite Em). cbn [map]. f_equal.
      assert (Hall : Forall (fun d => slot_in s (d - 1) = true /\ d <> c) cs).
      { apply List.Forall_forall. intros d Hd. split; [by eapply List.Forall_forall in Hin|].
        intros ->. by apply Hnc, list_elem_of_In. }
      clear -Hall Hsame. induction Hall as [|d ds [Hd1 Hd2] _ IHd]; [done|].
      rewrite !filter_cons. destruct (child_same s s1 d (Hsame d Hd1 Hd2) eq_refl) as (Hm & _ & He).
      rewrite Hm. case_decide; [|done]. cbn [map]. by rewrite He, IHd.
    + intros j Hj. rewrite Hload by done. destruct (decide (j + 1 = c)) as [Hjc|Hne]; [rewrite Hjc|].
      * rewrite (bool_decide_eq_false_2 (c ∈ cs)) by done. rewrite bool_decide_eq_true_2 by apply list_elem_of_here.
        rewrite Em. cbn [andb]. unfold s1. rewrite load_store by done.
        replace (j =? c - 1) with true by lia. done.
      * assert (Hj1 : load s1 j = load s j).
        { replace j with ((j + 1) - 1) by lia. apply Hsame; [by rewrite Z.add_simpl_r|done]. }
        destruct (child_same s s1 (j + 1)) as (Hm & Hw & _); [by rewrite Z.add_simpl_r|done|].
        rewrite Hm, Hw, Hj1. rewrite (bool_decide_ext (j + 1 ∈ cs) (j + 1 ∈ c :: cs)); [done|].
        rewrite elem_of_cons. tauto.
  - destruct (IH s s' out) as (Hf2 & Hok2 & Hg2 & Hout & Hload); [done..|].
    split_and!; try done.
    + rewrite Hout, filter_cons. rewrite decide_False; [done|]. rewrite Em. by intros [].
    + intros j Hj. rewrite Hload by done. destruct (decide (j + 1 = c)) as [Hjc|Hne]; [rewrite Hjc|].
      * rewrite Em, !andb_false_r. done.
      * rewrite (bool_decide_ext (j + 1 ∈ cs) (j + 1 ∈ c :: cs)); [done|].
        rewrite elem_of_cons. tauto.
Qed.

End cascade.

(** ** One committed move

    What both mutators do once they decide to store: the slot's word is
    replaced, and when the derived oper-status moved, the cached LLDP tables are
    invalidated and the children walked. *)
Definition commit (s : InterfaceState) (slot l a rel at_ : Z) : InterfaceState * list StateChange :=
  let was := operAt s slot in
  let now := deriveChildOper a l (parentOper s slot) in
  let s1 := store s slot (packState l a rel) in
  if was =? now then (s1, [])
  else cascadeChildren (invalidateLLDPServedCache s1) slot was now at_ rel.

(** The oper event of an interface, as an observer of both states would write it. *)
Definition operEvent (s s' : InterfaceState) (at_ ifIndex : Z) : StateChange :=
  {| IfIndex := ifIndex; Oper := OperStatus s' ifIndex; PrevOper := OperStatus s ifIndex;
     Admin := AdminStatus s' ifIndex; Link := LinkState s' ifIndex;
     ev_LastChangeNs := LastChangeNs s' ifIndex; Changed := LeafOperStatus; At := at_ |}.

Lemma parentOper_read s slot p l a r :
  parentSlot s slot = p -> p <> 0 -> readSlot (load s (p - 1)) = (l, a, r) -> parentOper s slot = deriveOper a l.
Proof. intros Hp H0 Hr. unfold parentOper. rewrite Hp. destruct (p =? 0) eqn:E; zbool; [done|]. by rewrite Hr. Qed.

Lemma parentOper_top s slot : parentSlot s slot = 0 -> parentOper s slot = OperUp.
Proof. intros Hp. unfold parentOper. by rewrite Hp. Qed.

Lemma deriveChildOper_up admin link : deriveChildOper admin link OperUp = deriveOper admin link.
Proof. unfold deriveChildOper. by rewrite andb_false_r. Qed.

Section commit.
  Variables (s : InterfaceState) (slot l a rel at_ : Z).
  Hypothesis Hok : engine_ok s.
  Hypothesis Hs : slot_in s slot = true.
  Hypothesis Hv : reading_ok (l, a, rel).

Let was := operAt s slot.
Let now := deriveChildOper a l (parentOper s slot).
Let s1 := store s slot (packState l a rel).
Let moved (j : Z) : bool :=
  bool_decide ((j + 1) ∈ childrenAt s slot) && childMoves was now s (j + 1).

Lemma not_own_parent : parentSlot s slot <> slot + 1.
Proof.
  intros Hp. destruct (ok_parent s Hok slot Hs) as [_ H]; [apply slot_in_spec in Hs; lia|].
  rewrite Hp, Z.add_simpl_r in H. apply slot_in_spec in Hs. lia.
Qed.

Lemma packed_ok : 0 <= packState l a rel < 2 ^ 64.
Proof. destruct Hv as (?&?&?). apply packState_range; lia. Qed.

(** A child's word and oper-status before the move, read in the stored state. *)
Lemma child_before c :
  c ∈ childrenAt s slot -> load s1 (c - 1) = load s (c - 1) /\ c - 1 <> slot.
Proof.
  intros Hc. destruct (ok_children s Hok slot Hs) as [_ Hcs]. apply Hcs in Hc as [Hci Hcp].
  assert (Hne : c - 1 <> slot) by (intros He; rewrite He in Hcp; by apply not_own_parent in Hcp).
  split; [|done]. unfold s1. rewrite load_store by done. by destruct (c - 1 =? slot) eqn:E; zbool.
Qed.

Lemma commit_words s' out :
  commit s slot l a rel at_ = (s', out) ->
  same_frame s s' /\ engine_ok s' /\
  topologyGen s' = (if was =? now then topologyGen s else (fun g => u64 (g + 1)) <$> topologyGen s) /\
  out = (if was =? now then []
         else map (childEvent was now at_ rel s) (filter (childMoves was now s) (childrenAt s slot))) /\
  forall j, slot_in s j = true ->
    load s' j = if j =? slot then packState l a rel
                else if negb (was =? now) && moved j then childWord rel s (j + 1) else load s j.
Proof.
  unfold commit. fold was now. pose proof packed_ok as Hp. destruct (was =? now) eqn:E; intros Hc.
  { injection Hc as <- <-. split_and!; [apply store_frame|by apply store_ok|done|done|].
    intros j Hj. by apply load_store. }
  destruct (ok_children s Hok slot Hs) as [Hnd Hcs].
  set (s2 := invalidateLLDPServedCache s1).
  assert (Hok2 : engine_ok s2) by (by apply invalidate_ok, store_ok).
  assert (Hch : forall c, c ∈ childrenAt s slot -> childMoves was now s2 c = childMoves was now s c /\
            childWord rel s2 c = childWord rel s c /\ childEvent was now at_ rel s2 c = childEvent was now at_ rel s c).
  { intros c Hc'. apply child_same; [by apply child_before|done]. }
  unfold cascadeChildren in Hc. destruct (cascade_loop_spec was now at_ rel ltac:(apply Hv) _ _ _ _ Hok2 Hnd
    ltac:(apply List.Forall_forall; intros c Hc'; by apply Hcs, list_elem_of_In) Hc) as (Hf & Hok' & Hg & Hout & Hload).
  split_and!; [apply (same_frame_trans s s2 s'); [apply (store_frame s slot (packState l a rel))|done]|done|by rewrite Hg| |].
  - rewrite Hout. assert (Hall : Forall (fun c => c ∈ childrenAt s slot) (childrenAt s slot)).
    { apply List.Forall_forall. intros c Hc'. by apply list_elem_of_In. }
    change (childrenAt s2 slot) with (childrenAt s slot).
    revert Hall. generalize (childrenAt s slot) at 2 3 4. intros cs Hall.
    induction Hall as [|c cs Hc' _ IH]; [done|]. destruct (Hch c Hc') as (Hm & _ & He).
    rewrite !filter_cons, Hm. case_decide; cbn [map]; [|done]. by rewrite He, IH.
  - intros j Hj. rewrite Hload by done. change (childrenAt s2 slot) with (childrenAt s slot).
    cbn [negb andb]. unfold moved. change (load s2 j) with (load s1 j). unfold s1; rewrite load_store by done; fold s1.
    destruct (decide ((j + 1) ∈ childrenAt s slot)) as [Hin|Hin].
    + rewrite (bool_decide_eq_true_2 _ Hin). destruct (Hch _ Hin) as (-> & -> & _).
      apply child_before in Hin as [_ Hne]. rewrite Z.add_simpl_r in Hne.
      cbn [andb]. by destruct (j =? slot) eqn:Ej; zbool.
    + rewrite (bool_decide_eq_false_2 _ Hin). done.
Qed.

(** Readings after the move: the slot's own, and everyone else's link and admin. *)
Lemma commit_readings s' out j lj aj rj :
  commit s slot l a rel at_ = (s', out) -> slot_in s j = true -> readSlot (load s j) = (lj, aj, rj) ->
  readSlot (load s' j) =
    if j =? slot then (l, a, rel) else (lj, aj, if negb (was =? now) && moved j then rel else rj).
Proof.
  intros Hc Hj Hr. destruct (commit_words s' out Hc) as (_ & _ & _ & _ & Hload). rewrite Hload by done.
  destruct (j =? slot) eqn:E; [by apply readSlot_pack|].
  destruct (negb (was =? now) && moved j); [|done].
  unfold childWord. rewrite Z.add_simpl_r, Hr. apply readSlot_pack.
  pose proof (readSlot_ok _ (load_range s j Hok Hj)) as Hrk. rewrite Hr in Hrk. destruct Hrk as (?&?&?), Hv as (?&?&?).
  done.
Qed.

(** The slot's parent is not touched, and a child of the slot sees the new value. *)
Lemma commit_parentOper s' out j :
  commit s slot l a rel at_ = (s', out) -> slot_in s j = true ->
  parentOper s' j = if parentSlot s j =? slot + 1 then now else parentOper s j.
Proof.
  intros Hc Hj. destruct (commit_words s' out Hc) as (Hf & _ & _ & _ & _).
  assert (Hps : forall k, parentSlot s' k = parentSlot s k).
  { intros k. unfold parentSlot. destruct Hf as (_ & _ & -> & _). done. }
  destruct (decide (parentSlot s j = 0)) as [H0|H0].
  { rewrite !parentOper_top by (by rewrite ?Hps). destruct (parentSlot s j =? slot + 1) eqn:E; zbool; [|done].
    apply slot_in_spec in Hs. lia. }
  destruct (ok_parent s Hok j Hj H0) as [Hpi Hp0].
  destruct (readSlot (load s (parentSlot s j - 1))) as [[lp ap] rp] eqn:Hrp.
  pose proof (commit_readings _ _ _ _ _ _ Hc Hpi Hrp) as Hr'.
  destruct (parentSlot s j =? slot + 1) eqn:E; zbool.
  - rewrite E, Z.add_simpl_r, Z.eqb_refl in Hr'. rewrite E, Z.add_simpl_r in Hp0.
    rewrite (parentOper_read s' j (slot + 1) l a rel) by (rewrite ?Hps, ?Z.add_simpl_r; (done || lia)).
    unfold now. rewrite parentOper_top by done. by rewrite deriveChildOper_up.
  - replace (parentSlot s j - 1 =? slot) with false in Hr' by lia.
    rewrite (parentOper_read s' j _ _ _ _ (Hps j) H0 Hr'). by rewrite (parentOper_read s j _ _ _ _ eq_refl H0 Hrp).
Qed.

(** The derived oper-status of every interface after the move. *)
Lemma commit_operAt s' out j :
  commit s slot l a rel at_ = (s', out) -> slot_in s j = true ->
  operAt s' j = if j =? slot then now
                else if bool_decide ((j + 1) ∈ childrenAt s slot) then childNow now s (j + 1) else operAt s j.
Proof.
  intros Hc Hj. destruct (readSlot (load s j)) as [[lj aj] rj] eqn:Hr.
  pose proof (commit_readings _ _ _ _ _ _ Hc Hj Hr) as Hr'. unfold operAt. rewrite Hr', Hr.
  rewrite (commit_parentOper s' out j Hc Hj). destruct (ok_children s Hok slot Hs) as [_ Hcs].
  destruct (j =? slot) eqn:E; zbool.
  - subst j. replace (parentSlot s slot =? slot + 1) with false; [done|]. pose proof not_own_parent. lia.
  - destruct (decide ((j + 1) ∈ childrenAt s slot)) as [Hin|Hin].
    + rewrite (bool_decide_eq_true_2 _ Hin). apply Hcs in Hin as [_ Hp]. rewrite Z.add_simpl_r in Hp.
      rewrite Hp, Z.eqb_refl. unfold childNow. by rewrite Z.add_simpl_r, Hr.
    + rewrite (bool_decide_eq_false_2 _ Hin). destruct (parentSlot s j =? slot + 1) eqn:E2; zbool; [|done].
      exfalso. apply Hin, Hcs. by rewrite Z.add_simpl_r.
Qed.

(** Before the move, a child derives from the slot's current oper-status. *)
Lemma child_operAt c : c ∈ childrenAt s slot -> operAt s (c - 1) = childWas was s c.
Proof.
  intros Hc. destruct (ok_children s Hok slot Hs) as [_ Hcs]. apply Hcs in Hc as [Hci Hcp].
  unfold operAt, childWas. destruct (readSlot (load s (c - 1))) as [[lc ac] rc]. f_equal.
  destruct (readSlot (load s slot)) as [[l0 a0] r0] eqn:Hr.
  assert (Hne : slot + 1 <> 0) by (apply slot_in_spec in Hs; lia).
  rewrite (parentOper_read s (c - 1) (slot + 1) l0 a0 r0 Hcp Hne) by (by rewrite Z.add_simpl_r).
  destruct (ok_parent s Hok (c - 1) Hci) as [_ Htop]; [lia|]. rewrite Hcp, Z.add_simpl_r in Htop.
  unfold was, operAt. by rewrite Hr, parentOper_top, deriveChildOper_up.
Qed.

Lemma commit_moved s' out j :
  commit s slot l a rel at_ = (s', out) -> slot_in s j = true -> j <> slot ->
  negb (was =? now) && moved j = negb (operAt s j =? operAt s' j).
Proof.
  intros Hc Hj Hne. rewrite (commit_operAt s' out j Hc Hj). replace (j =? slot) with false by lia. unfold moved.
  destruct (decide ((j + 1) ∈ childrenAt s slot)) as [Hin|Hin].
  - rewrite (bool_decide_eq_true_2 _ Hin). pose proof (child_operAt _ Hin) as Hw. rewrite Z.add_simpl_r in Hw.
    rewrite Hw. cbn [andb]. unfold childMoves. destruct (was =? now) eqn:E; [|done]. zbool. rewrite E.
    unfold childWas, childNow. destruct (readSlot _) as [[? ?] ?]. by rewrite Z.eqb_refl.
  - rewrite (bool_decide_eq_false_2 _ Hin). cbn [andb]. by rewrite andb_false_r, Z.eqb_refl.
Qed.

(** The cascade's event for a child is what an observer would write. *)
Lemma childEvent_observed s' out c :
  commit s slot l a rel at_ = (s', out) -> c ∈ childrenAt s slot -> was <> now ->
  childMoves was now s c = true -> childEvent was now at_ rel s c = operEvent s s' at_ c.
Proof.
  intros Hc. destruct (commit_words s' out Hc) as (Hf & Hok' & _ & Hout & _).
  destruct (ok_children s Hok slot Hs) as [Hnd Hcs].
  intros Hin Hwn Hm. destruct (child_before c Hin) as [_ Hne]. pose proof (child_operAt c Hin) as Hw.
  pose proof Hin as [Hci _]%Hcs. destruct (readSlot (load s (c - 1))) as [[lc ac] rc] eqn:Hr.
  pose proof (commit_readings _ _ _ _ _ _ Hc Hci Hr) as Hr'. replace (c - 1 =? slot) with false in Hr' by lia.
  assert (Hmv : negb (was =? now) && moved (c - 1) = true).
  { unfold moved. rewrite Z.sub_add, (bool_decide_eq_true_2 _ Hin), Hm. by replace (was =? now) with false by lia. }
  rewrite Hmv in Hr'. assert (Hci' : slot_in s' (c - 1) = true).
  { unfold slot_in. destruct Hf as (-> & _). exact Hci. }
  destruct (readers s (c - 1) _ _ _ Hci Hr) as (_ & _ & _ & Ho).
  destruct (readers s' (c - 1) _ _ _ Hci' Hr') as (HL & HA & HC & Ho'). rewrite Z.sub_add in *.
  pose proof (commit_operAt s' out (c - 1) Hc Hci) as Hop. replace (c - 1 =? slot) with false in Hop by lia.
  rewrite Z.sub_add, (bool_decide_eq_true_2 _ Hin) in Hop.
  unfold childEvent, operEvent. rewrite Hr, HL, HA, HC, Ho, Ho', Hop, Hw. destruct Hf as (_ & -> & _). done.
Qed.

Lemma commit_events s' out :
  commit s slot l a rel at_ = (s', out) ->
  NoDup (map IfIndex out) /\
  forall e, e ∈ out <-> exists j, slot_in s j = true /\ j <> slot /\ operAt s j <> operAt s' j /\
                          e = operEvent s s' at_ (j + 1).
Proof.
  intros Hc. destruct (commit_words s' out Hc) as (Hf & Hok' & _ & Hout & _).
  destruct (ok_children s Hok slot Hs) as [Hnd Hcs].
  pose proof (fun c => childEvent_observed s' out c Hc) as Hev.
  destruct (was =? now) eqn:E; zbool.
  { subst out. split; [constructor|]. intros e. rewrite elem_of_nil. split; [done|]. intros (j & Hj & Hne & Hmv & _).
    pose proof (commit_moved s' [] j Hc Hj Hne) as Hm. replace (was =? now) with true in Hm by lia. simpl in Hm. lia. }
  split.
  { rewrite Hout, map_map. erewrite (List.map_ext _ (fun c => c)); [rewrite List.map_id; by apply list.NoDup_filter|].
    intros c. unfold childEvent. by destruct (readSlot _) as [[? ?] ?]. }
  intros e. rewrite Hout, list_elem_of_In, in_map_iff.
  split.
  - intros (c & <- & Hin). apply list_elem_of_In, list_elem_of_filter in Hin as [Hm Hin]. apply Is_true_true_1 in Hm.
    pose proof Hin as [Hci _]%Hcs. destruct (child_before c Hin) as [_ Hne].
    exists (c - 1). split_and!; [done|done| |rewrite Z.sub_add; by apply Hev].
    pose proof (commit_moved s' out (c - 1) Hc Hci Hne) as Hmv. unfold moved in Hmv.
    rewrite Z.sub_add, (bool_decide_eq_true_2 _ Hin), Hm in Hmv. replace (was =? now) with false in Hmv by lia.
    simpl in Hmv. lia.
  - intros (j & Hj & Hne & Hmv & ->). pose proof (commit_moved s' out j Hc Hj Hne) as Hm.
    replace (operAt s j =? operAt s' j) with false in Hm by lia. unfold moved in Hm. simpl in Hm.
    apply andb_true_iff in Hm as [_ [Hin Hm]%andb_true_iff]. apply bool_decide_eq_true_1 in Hin.
    exists (j + 1). split; [by apply Hev|]. apply list_elem_of_In, list_elem_of_filter. split; [by apply Is_true_true_2|done].
Qed.

End commit.

(** ** The mutators as committed moves *)

Lemma SetLinkState_commit s slot newLink now l0 a0 r0 :
  slot_in s slot = true -> OperUp <= newLink <= OperLowerLayerDn -> readSlot (load s slot) = (l0, a0, r0) ->
  SetLinkState s (slot + 1) newLink now =
    if l0 =? newLink then (s, LinkUnchanged, []) else
    let nowOper := deriveChildOper a0 newLink (parentOper s slot) in
    if operAt s slot =? nowOper then (fst (commit s slot newLink a0 r0 now), LinkMovedMasked, [])
    else
      let relNs := wallRelNs (u64 now) (bootTimeUnixNs s) in
      let '(s', out) := commit s slot newLink a0 relNs now in
      (s', LinkMovedVisible,
       {| IfIndex := slot + 1; Oper := nowOper; PrevOper := operAt s slot; Admin := a0; Link := newLink;
          ev_LastChangeNs := lastChangeAbs (bootTimeUnixNs s) relNs; Changed := LeafOperStatus; At := now |} :: out).
Proof.
  intros Hs Hn Hr. unfold SetLinkState, linkBody, commit. rewrite Z.add_simpl_r, Hs. cbn [negb].
  replace ((newLink <? OperUp) || (OperLowerLayerDn <? newLink)) with false by lia.
  unfold operAt. rewrite Hr. destruct (l0 =? newLink); [done|]. by destruct (_ =? deriveChildOper _ newLink _).
Qed.

Lemma setAdminLeaf_commit s slot newVal now l0 a0 r0 :
  slot_in s slot = true -> AdminUp <= newVal <= AdminTesting -> readSlot (load s slot) = (l0, a0, r0) ->
  setAdminLeaf s (slot + 1) newVal now =
    if a0 =? newVal then (s, []) else
    let nowOper := deriveChildOper newVal l0 (parentOper s slot) in
    let relNs := if operAt s slot =? nowOper then r0 else wallRelNs (u64 now) (bootTimeUnixNs s) in
    let evt leaf :=
      {| IfIndex := slot + 1; Oper := nowOper; PrevOper := operAt s slot; Admin := newVal; Link := l0;
         ev_LastChangeNs := lastChangeAbs (bootTimeUnixNs s) relNs; Changed := leaf; At := now |} in
    let '(s', out) := commit s slot l0 newVal relNs now in
    (s', evt LeafAdminStatus :: (if operAt s slot =? nowOper then [] else [evt LeafOperStatus]) ++ out).
Proof.
  intros Hs Hn Hr. unfold setAdminLeaf, adminBody, commit. rewrite Z.add_simpl_r, Hs. cbn [negb].
  replace ((newVal <? AdminUp) || (AdminTesting <? newVal)) with false by lia.
  unfold operAt. rewrite Hr. destruct (a0 =? newVal); [done|].
  destruct (_ =? deriveChildOper newVal _ _); [done|]. cbn [negb]. by destruct (cascadeChildren _ _ _ _ _ _).
Qed.

(** ** Events describe what observers see *)

Definition in_range (s : InterfaceState) (ifIndex : Z) : Prop := 1 <= ifIndex <= maxIfIndex s.

(** Every leaf value an event carries is what the readers return after the
    mutation (before it, for [PrevOper]); there is an oper event for exactly the
    interfaces whose oper-status moved, one each; [LastChangeNs] stays put
    everywhere else; and the LLDP generation moves exactly when an oper-status did. *)
Record faithful_events (s s' : InterfaceState) (evts : list StateChange) : Prop := {
  fe_values : forall e, e ∈ evts ->
    in_range s (IfIndex e) /\ PrevOper e = OperStatus s (IfIndex e) /\ Oper e = OperStatus s' (IfIndex e) /\
    Admin e = AdminStatus s' (IfIndex e) /\ Link e = LinkState s' (IfIndex e) /\
    ev_LastChangeNs e = LastChangeNs s' (IfIndex e);
  fe_complete : forall i, in_range s i ->
    OperStatus s' i <> OperStatus s i <-> exists e, e ∈ evts /\ IfIndex e = i /\ Changed e = LeafOperStatus;
  fe_once : NoDup (map IfIndex (filter (fun e => Changed e = LeafOperStatus) evts));
  fe_lastChange : forall i, in_range s i -> OperStatus s' i = OperStatus s i -> LastChangeNs s' i = LastChangeNs s i;
  fe_lldp : topologyGen s' =
    (if bool_decide (Exists (fun e => Changed e = LeafOperStatus) evts)
     then (fun g => u64 (g + 1)) <$> topologyGen s else topologyGen s);
}.

(** The physical link and the admin-status of every interface but [i]. *)
Definition others_kept (s s' : InterfaceState) (i : Z) : Prop :=
  forall j, in_range s j -> j <> i -> LinkState s' j = LinkState s j /\ AdminStatus s' j = AdminStatus s j.

Lemma in_range_slot s i : in_range s i <-> slot_in s (i - 1) = true.
Proof. unfold in_range. rewrite slot_in_spec. lia. Qed.

(** The event of the admin leaf. *)
Definition adminEvent (s s' : InterfaceState) (at_ ifIndex : Z) : StateChange :=
  {| IfIndex := ifIndex; Oper := OperStatus s' ifIndex; PrevOper := OperStatus s ifIndex;
     Admin := AdminStatus s' ifIndex; Link := LinkState s' ifIndex;
     ev_LastChangeNs := LastChangeNs s' ifIndex; Changed := LeafAdminStatus; At := at_ |}.

Section observed.
  Variables (s : InterfaceState) (slot l a rel at_ : Z) (s' : InterfaceState) (out : list StateChange).
  Hypothesis Hok : engine_ok s.
  Hypothesis Hs : slot_in s slot = true.
  Hypothesis Hv : reading_ok (l, a, rel).
  Hypothesis Hc : commit s slot l a rel at_ = (s', out).

Lemma obs_slot_in j : slot_in s' j = slot_in s j.
Proof. unfold slot_in. by destruct (commit_words _ _ _ _ _ _ Hok Hs Hv _ _ Hc) as ((-> & _) & _). Qed.

Lemma obs_own :
  LinkState s' (slot + 1) = l /\ AdminStatus s' (slot + 1) = a /\
  LastChangeNs s' (slot + 1) = lastChangeAbs (bootTimeUnixNs s) rel.
Proof.
  destruct (readSlot (load s slot)) as [[l0 a0] r0] eqn:Hr.
  pose proof (commit_readings _ _ _ _ _ _ Hok Hs Hv _ _ _ _ _ _ Hc Hs Hr) as Hr'. rewrite Z.eqb_refl in Hr'.
  destruct (readers s' slot l a rel) as (-> & -> & -> & _); [by rewrite obs_slot_in|done|].
  by destruct (commit_words _ _ _ _ _ _ Hok Hs Hv _ _ Hc) as ((_ & -> & _) & _).
Qed.

Lemma obs_oper j :
  slot_in s j = true -> OperStatus s (j + 1) = operAt s j /\ OperStatus s' (j + 1) = operAt s' j.
Proof. intros Hj. unfold OperStatus. by rewrite Z.add_simpl_r, obs_slot_in, Hj. Qed.

Lemma obs_others j :
  slot_in s j = true -> j <> slot ->
  LinkState s' (j + 1) = LinkState s (j + 1) /\ AdminStatus s' (j + 1) = AdminStatus s (j + 1) /\
  (operAt s j = operAt s' j -> LastChangeNs s' (j + 1) = LastChangeNs s (j + 1)).
Proof.
  intros Hj Hne. destruct (readSlot (load s j)) as [[lj aj] rj] eqn:Hr.
  pose proof (commit_readings _ _ _ _ _ _ Hok Hs Hv _ _ _ _ _ _ Hc Hj Hr) as Hr'.
  rewrite (commit_moved _ _ _ _ _ _ Hok Hs Hv _ _ _ Hc Hj Hne) in Hr'. replace (j =? slot) with false in Hr' by lia.
  destruct (readers s j _ _ _ Hj Hr) as (-> & -> & -> & _).
  destruct (readers s' j _ _ _ ltac:(by rewrite obs_slot_in) Hr') as (-> & -> & -> & _).
  split_and!; [done|done|]. intros ->. rewrite Z.eqb_refl. cbn [negb].
  by destruct (commit_words _ _ _ _ _ _ Hok Hs Hv _ _ Hc) as ((_ & -> & _) & _).
Qed.

(** The move's own events, then the cascade's. *)
Definition moveEvents (admin : bool) : list StateChange :=
  (if admin then [adminEvent s s' at_ (slot + 1)] else []) ++
  (if operAt s slot =? operAt s' slot then [] else [operEvent s s' at_ (slot + 1)]) ++ out.

Lemma moveEvents_spec admin e :
  e ∈ moveEvents admin <->
    (admin = true /\ e = adminEvent s s' at_ (slot + 1)) \/
    exists j, slot_in s j = true /\ operAt s j <> operAt s' j /\ e = operEvent s s' at_ (j + 1).
Proof.
  destruct (commit_events _ _ _ _ _ _ Hok Hs Hv _ _ Hc) as [_ Hev].
  unfold moveEvents. rewrite !elem_of_app, Hev. split.
  - intros [H|[H|(j & ? & ? & ? & ?)]].
    + destruct admin; [|by apply elem_of_nil in H]. apply list_elem_of_singleton in H. by left.
    + destruct (_ =? _) eqn:E; [by apply elem_of_nil in H|]. zbool. apply list_elem_of_singleton in H. right. by exists slot.
    + right. by exists j.
  - intros [[-> ->]|(j & Hj & Hm & ->)]; [left; by apply list_elem_of_singleton|]. right.
    destruct (decide (j = slot)) as [->|Hne]; [left|right; by exists j].
    replace (operAt s slot =? operAt s' slot) with false by lia. by apply list_elem_of_singleton.
Qed.

Lemma moveEvents_once admin :
  NoDup (map IfIndex (filter (fun e => Changed e = LeafOperStatus) (moveEvents admin))).
Proof.
  destruct (commit_events _ _ _ _ _ _ Hok Hs Hv _ _ Hc) as [Hnd Hev].
  assert (Hout : filter (fun e => Changed e = LeafOperStatus) out = out).
  { clear Hnd. assert (H : forall e, e ∈ out -> Changed e = LeafOperStatus) by (intros e (j & _ & _ & _ & ->)%Hev; done).
    clear Hev. revert H. generalize out. intros o. induction o as [|e o IH]; intros H; [done|].
    rewrite filter_cons, decide_True by (apply H, list_elem_of_here). f_equal. apply IH. intros x Hx. by apply H, list_elem_of_further. }
  unfold moveEvents. rewrite !list.filter_app, Hout.
  replace (filter _ (if admin then _ else _)) with (@nil StateChange) by (by destruct admin). cbn [app].
  destruct (operAt s slot =? operAt s' slot); [done|].
  change (NoDup (slot + 1 :: map IfIndex out)). constructor; [|done].
  rewrite list_elem_of_In, in_map_iff. intros (e & He & Hin). apply list_elem_of_In, Hev in Hin as (j & _ & Hne & _ & ->).
  cbn in He. lia.
Qed.

Lemma move_faithful admin :
  (operAt s slot = operAt s' slot -> LastChangeNs s' (slot + 1) = LastChangeNs s (slot + 1)) ->
  faithful_events s s' (moveEvents admin).
Proof.
  intros Hkeep. destruct (commit_words _ _ _ _ _ _ Hok Hs Hv _ _ Hc) as (_ & _ & Hg & _ & _).
  assert (Hnow : operAt s' slot = deriveChildOper a l (parentOper s slot)).
  { rewrite (commit_operAt _ _ _ _ _ _ Hok Hs Hv _ _ _ Hc Hs). by rewrite Z.eqb_refl. }
  constructor.
  - intros e [[_ ->]|(j & Hj & _ & ->)]%moveEvents_spec; cbn.
    + split_and!; try done; apply in_range_slot; by rewrite Z.add_simpl_r.
    + split_and!; try done; apply in_range_slot; by rewrite Z.add_simpl_r.
  - intros i Hi. apply in_range_slot in Hi. destruct (obs_oper _ Hi) as [Ho Ho']. rewrite Z.sub_add in *. split.
    + intros Hm. exists (operEvent s s' at_ i). split_and!; try done. apply moveEvents_spec. right.
      exists (i - 1). rewrite Z.sub_add. split_and!; congruence.
    + intros (e & [[_ ->]|(j & Hj & Hm & ->)]%moveEvents_spec & Hie & Hch); [done|]. cbn in Hie.
      replace (i - 1) with j in * by lia. congruence.
  - apply moveEvents_once.
  - intros i Hi He. apply in_range_slot in Hi. destruct (obs_oper _ Hi) as [Ho Ho'].
    destruct (decide (i - 1 = slot)) as [Hsl|Hne].
    + assert (i = slot + 1) as -> by lia. apply Hkeep. rewrite Z.add_simpl_r in Ho, Ho'. congruence.
    + destruct (obs_others _ Hi Hne) as (_ & _ & Hl). rewrite Z.sub_add in *. apply Hl. congruence.
  - rewrite Hg, <- Hnow. destruct (operAt s slot =? operAt s' slot) eqn:E; zbool.
    + rewrite bool_decide_eq_false_2; [done|]. rewrite List.Exists_exists.
      intros (e & He & Hch). apply list_elem_of_In, moveEvents_spec in He as [[_ ->]|(j & Hj & Hm & _)]; [done|].
      destruct (commit_events _ _ _ _ _ _ Hok Hs Hv _ _ Hc) as [_ Hev].
      destruct (decide (j = slot)) as [->|Hne]; [done|].
      pose proof (commit_moved _ _ _ _ _ _ Hok Hs Hv _ _ _ Hc Hj Hne) as Hmv. rewrite <- Hnow in Hmv.
      replace (operAt s slot =? operAt s' slot) with true in Hmv by lia. simpl in Hmv. lia.
    + rewrite bool_decide_eq_true_2; [done|]. apply List.Exists_exists. exists (operEvent s s' at_ (slot + 1)).
      split; [|done]. apply list_elem_of_In, moveEvents_spec. right. by exists slot.
Qed.

Lemma move_others : others_kept s s' (slot + 1).
Proof.
  intros j Hj Hne. apply in_range_slot in Hj. destruct (obs_others (j - 1) Hj) as (? & ? & _); [lia|].
  by rewrite Z.sub_add in *.
Qed.

End observed.

(** ** Construction *)

Lemma at_slot_insert {A} (l : list A) i x z j :
  0 <= i < len l -> 0 <= j ->
  at_slot (<[Z.to_nat i := x]> l) j z = if j =? i then x else at_slot l j z.
Proof.
  unfold len, at_slot. intros Hi Hj. rewrite !nth_lookup. destruct (j =? i) eqn:E; zbool.
  - subst. by rewrite list_lookup_insert_eq by lia.
  - by rewrite list_lookup_insert_ne by lia.
Qed.

Lemma at_slot_zeros {A} n (z : A) j : at_slot (zeros n z) j z = z.
Proof. unfold at_slot, zeros. rewrite nth_lookup. destruct (_ !! _) eqn:E; [|done]. by apply lookup_replicate in E as [-> _]. Qed.

Lemma len_insert {A} (l : list A) i x : len (<[i := x]> l) = len l.
Proof. unfold len. by rewrite length_insert. Qed.

Lemma len_zeros {A} n (z : A) : 0 <= n -> len (zeros n z) = n.
Proof. intros. unfold len, zeros. rewrite length_replicate. lia. Qed.

Section family.
  Variables (parents : gmap Z Z) (max : Z).

Definition parentIn (c : Z) : Z := default 0 (parents !! c).
Definition validKid (c : Z) : bool :=
  negb ((c <? 1) || (max <? c) || (parentIn c <? 1) || (max <? parentIn c)).

Lemma link_family_spec kids par chl par' chl' :
  len par = max -> len chl = max -> link_family kids parents max par chl = (par', chl') ->
  len par' = max /\ len chl' = max /\
  (forall j, 0 <= j < max ->
    at_slot par' j 0 = if bool_decide ((j + 1) ∈ kids) && validKid (j + 1) then parentIn (j + 1) else at_slot par j 0) /\
  (forall j, 0 <= j < max ->
    at_slot chl' j [] = at_slot chl j [] ++ filter (fun c => validKid c && (parentIn c =? j + 1)) kids).
Proof.
  revert par chl. induction kids as [|c kids IH]; intros par chl Hp Hch Hl.
  { injection Hl as <- <-. split_and!; try done. intros j Hj. by rewrite app_nil_r. }
  cbn [link_family] in Hl. fold (parentIn c) in Hl.
  destruct ((c <? 1) || (max <? c) || (parentIn c <? 1) || (max <? parentIn c)) eqn:E.
  - destruct (IH par chl Hp Hch Hl) as (H1 & H2 & H3 & H4). assert (Hv : validKid c = false) by (unfold validKid; by rewrite E).
    split_and!; try done.
    + intros j Hj. rewrite H3 by done. destruct (decide (j + 1 = c)) as [->|Hne]; [by rewrite Hv, !andb_false_r|].
      rewrite (bool_decide_ext (j + 1 ∈ kids) (j + 1 ∈ c :: kids)); [done|]. rewrite elem_of_cons. tauto.
    + intros j Hj. rewrite H4 by done. rewrite filter_cons, Hv. done.
  - assert (Hv : validKid c = true) by (unfold validKid; by rewrite E).
    destruct (IH _ _ (eq_trans (len_insert _ _ _) Hp) (eq_trans (len_insert _ _ _) Hch) Hl) as (H1 & H2 & H3 & H4).
    split_and!; try done.
    + intros j Hj. rewrite H3 by done. rewrite at_slot_insert by lia.
      destruct (decide (j + 1 = c)) as [Hjc|Hne].
      * rewrite Hjc, Hv, (bool_decide_eq_true_2 (c ∈ c :: kids)) by apply list_elem_of_here.
        replace (j =? c - 1) with true by lia. by destruct (bool_decide _).
      * replace (j =? c - 1) with false by lia.
        rewrite (bool_decide_ext (j + 1 ∈ kids) (j + 1 ∈ c :: kids)); [done|]. rewrite elem_of_cons. tauto.
    + intros j Hj. rewrite H4 by done. rewrite at_slot_insert by lia. rewrite filter_cons, Hv. cbn [andb].
      destruct (decide (parentIn c = j + 1)) as [Hj1|Hj1].
      * replace (j =? parentIn c - 1) with true by lia. replace (parentIn c =? j + 1) with true by lia. cbn.
        replace (parentIn c - 1) with j by lia. by rewrite <- app_assoc.
      * replace (j =? parentIn c - 1) with false by lia. by replace (parentIn c =? j + 1) with false by lia.
Qed.

End family.

(** The parent of an interface is not itself a subinterface: what
    [subinterfaceParents] hands [setParents] is one level deep. *)
Definition one_level (parents : gmap Z Z) : Prop :=
  forall c p, parents !! c = Some p -> parents !! p = None.

Lemma sorted_keys_spec {A} (m : gmap Z A) : NoDup (sorted_keys m) /\ forall c, c ∈ sorted_keys m <-> is_Some (m !! c).
Proof.
  unfold sorted_keys. split.
  - rewrite <- sort_by_perm. apply NoDup_fst_map_to_list.
  - intros c. rewrite <- sort_by_perm. rewrite list_elem_of_fmap. split.
    + intros ([k v] & -> & H%elem_of_map_to_list). by exists v.
    + intros [v Hv]. exists (c, v). split; [done|]. by apply elem_of_map_to_list.
Qed.

Lemma setParents_ok s parents :
  engine_ok s -> parent s = None -> one_level parents -> engine_ok (setParents s parents).
Proof.
  intros Hok Hnone Hone. unfold setParents. case_bool_decide; [done|].
  assert (Hm : 0 <= maxIfIndex s) by (rewrite <- (ok_len s Hok); apply len_nonneg).
  destruct (link_family _ _ _ _ _) as [par chl] eqn:Hl.
  destruct (link_family_spec parents (maxIfIndex s) _ _ _ _ _ (len_zeros _ _ Hm) (len_zeros _ _ Hm) Hl) as (H1 & H2 & H3 & H4).
  destruct (sorted_keys_spec parents) as [Hnd Hkeys].
  assert (Hpar : forall j, 0 <= j < maxIfIndex s ->
            at_slot par j 0 = if validKid parents (maxIfIndex s) (j + 1) then parentIn parents (j + 1) else 0).
  { intros j Hj. rewrite H3, at_slot_zeros by done. destruct (validKid _ _ (j + 1)) eqn:Hv; [|by rewrite andb_false_r].
    rewrite andb_true_r, bool_decide_eq_true_2; [done|]. apply Hkeys.
    unfold validKid, parentIn in Hv. destruct (parents !! (j + 1)); [by eexists|]. simpl in Hv. lia. }
  assert (Htop : forall c p, parents !! c = Some p -> validKid parents (maxIfIndex s) p = false).
  { intros c p Hc. unfold validKid, parentIn. rewrite (Hone c p Hc). simpl. lia. }
  assert (Hsome : forall c, validKid parents (maxIfIndex s) c = true -> parents !! c = Some (parentIn parents c)).
  { intros c Hv. unfold validKid, parentIn in *. destruct (parents !! c); [done|]. simpl in Hv. lia. }
  constructor; cbn [slots maxIfIndex parent children].
  - apply Hok.
  - apply Hok.
  - apply Hok.
  - done.
  - unfold parentSlot; cbn. intros slot Hs%slot_in_spec. cbn in Hs. rewrite Hpar by done.
    destruct (validKid _ _ (slot + 1)) eqn:Hv; [|done]. intros _. pose proof (Hsome _ Hv) as Hp.
    unfold validKid in Hv. assert (Hr : 0 <= parentIn parents (slot + 1) - 1 < maxIfIndex s) by lia.
    split; [apply slot_in_spec; cbn; lia|]. rewrite Hpar by done. rewrite Z.sub_add. by rewrite (Htop _ _ Hp).
  - unfold childrenAt; cbn. intros slot Hs%slot_in_spec. cbn in Hs. rewrite H4, at_slot_zeros by done. cbn [app].
    split; [by apply list.NoDup_filter|]. intros c. rewrite list_elem_of_filter, Hkeys. unfold parentSlot; cbn.
    rewrite slot_in_spec. cbn. split.
    + intros [[Hv Hp]%andb_prop_elim _]. apply Is_true_true in Hv, Hp.
      assert (Hr : 0 <= c - 1 < maxIfIndex s) by (unfold validKid in Hv; lia).
      split; [done|]. rewrite Hpar by done. rewrite Z.sub_add, Hv. lia.
    + intros [Hr Hp]. rewrite Hpar, Z.sub_add in Hp by done. destruct (validKid _ _ c) eqn:Hv; [|lia].
      split; [|rewrite (Hsome _ Hv); by eexists]. apply andb_prop_intro. split; [done|]. apply Is_true_true. lia.
Qed.

(** ** Both mutators, observed *)

Lemma faithful_refl s : faithful_events s s [].
Proof.
  constructor; try done.
  - intros e He. by apply elem_of_nil in He.
  - intros i _. split; [done|]. intros (e & He & _). by apply elem_of_nil in He.
  - constructor.
Qed.

Lemma SetLinkState_observed s i newLink now s' m evts :
  engine_ok s -> in_range s i -> OperUp <= newLink <= OperLowerLayerDn ->
  SetLinkState s i newLink now = (s', m, evts) ->
  engine_ok s' /\ faithful_events s s' evts /\ others_kept s s' i /\
  LinkState s' i = newLink /\ AdminStatus s' i = AdminStatus s i /\
  m = (if LinkState s i =? newLink then LinkUnchanged
       else if OperStatus s' i =? OperStatus s i then LinkMovedMasked else LinkMovedVisible).
Proof.
  intros Hok Hi Hn Hset. apply in_range_slot in Hi. destruct (readSlot (load s (i - 1))) as [[l0 a0] r0] eqn:Hr.
  pose proof (readSlot_ok _ (load_range s _ Hok Hi)) as Hrk. rewrite Hr in Hrk. destruct Hrk as (Hl0 & Ha0 & Hr0).
  destruct (readers s (i - 1) _ _ _ Hi Hr) as (HL & HA & HC & HO).
  pose proof (SetLinkState_commit s (i - 1) newLink now _ _ _ Hi Hn Hr) as Hsc.
  rewrite Z.sub_add in *. rewrite Hset in Hsc. rewrite HL, HA.
  destruct (l0 =? newLink) eqn:El; zbool.
  { injection Hsc as -> -> ->. split_and!; [done|apply faithful_refl|done|lia|done|done]. }
  set (nowOper := deriveChildOper a0 newLink (parentOper s (i - 1))) in *. cbv zeta in Hsc.
  set (rel := if operAt s (i - 1) =? nowOper then r0 else wallRelNs (u64 now) (bootTimeUnixNs s)).
  assert (Hv : reading_ok (newLink, a0, rel)).
  { unfold OperUp, OperLowerLayerDn in Hn. pose proof (wallRelNs_range (u64 now) (bootTimeUnixNs s)).
    unfold rel. split_and!; try lia; destruct (_ =? _); lia. }
  destruct (commit s (i - 1) newLink a0 rel now) as [s2 out] eqn:Hc.
  destruct (obs_own _ _ _ _ _ _ _ _ Hok Hi Hv Hc) as (HL' & HA' & HC').
  destruct (obs_oper _ _ _ _ _ _ _ _ Hok Hi Hv Hc _ Hi) as (_ & HO').
  pose proof (commit_operAt _ _ _ _ _ _ Hok Hi Hv _ _ _ Hc Hi) as Hnow. rewrite Z.eqb_refl in Hnow. fold nowOper in Hnow.
  pose proof (move_others _ _ _ _ _ _ _ _ Hok Hi Hv Hc) as Hoth.
  pose proof (move_faithful _ _ _ _ _ _ _ _ Hok Hi Hv Hc false) as Hfe. unfold moveEvents in Hfe.
  destruct (commit_words _ _ _ _ _ _ Hok Hi Hv _ _ Hc) as (_ & Hok2 & _ & Hout & _). fold nowOper in Hout.
  rewrite Hnow in Hfe. rewrite Z.sub_add in *. subst rel.
  destruct (operAt s (i - 1) =? nowOper) eqn:Eo; zbool.
  - rewrite Hc in Hsc. cbn [fst] in Hsc. injection Hsc as -> -> ->. subst out. rewrite HO', Hnow, HO.
    split_and!; [done| |done|done|done|by replace (nowOper =? operAt s (i - 1)) with true by lia].
    apply Hfe. intros _. by rewrite HC', HC.
  - rewrite Hc in Hsc. injection Hsc as -> -> ->.
    split_and!; [done| |done|done|done|by replace (OperStatus s2 i =? OperStatus s i) with false by lia].
    replace ({| IfIndex := i |}) with (operEvent s s2 now i)
      by (unfold operEvent; rewrite HL', HA', HC', HO, HO', Hnow; reflexivity).
    apply Hfe. lia.
Qed.

Lemma setAdminLeaf_observed s i newVal now s' evts :
  engine_ok s -> in_range s i -> AdminUp <= newVal <= AdminTesting ->
  setAdminLeaf s i newVal now = (s', evts) ->
  engine_ok s' /\ faithful_events s s' evts /\ others_kept s s' i /\
  LinkState s' i = LinkState s i /\ AdminStatus s' i = newVal /\
  (evts = [] <-> AdminStatus s i = newVal) /\
  (AdminStatus s i <> newVal -> exists e evts', evts = e :: evts' /\ IfIndex e = i /\ Changed e = LeafAdminStatus).
Proof.
  intros Hok Hi Hn Hset. apply in_range_slot in Hi. destruct (readSlot (load s (i - 1))) as [[l0 a0] r0] eqn:Hr.
  pose proof (readSlot_ok _ (load_range s _ Hok Hi)) as Hrk. rewrite Hr in Hrk. destruct Hrk as (Hl0 & Ha0 & Hr0).
  destruct (readers s (i - 1) _ _ _ Hi Hr) as (HL & HA & HC & HO).
  pose proof (setAdminLeaf_commit s (i - 1) newVal now _ _ _ Hi Hn Hr) as Hsc.
  rewrite Z.sub_add in *. rewrite Hset in Hsc. rewrite HL, HA.
  destruct (a0 =? newVal) eqn:El; zbool.
  { injection Hsc as -> ->. split_and!; [done|apply faithful_refl|done|done|lia|done|done]. }
  set (nowOper := deriveChildOper newVal l0 (parentOper s (i - 1))) in *. cbv zeta in Hsc.
  set (rel := if operAt s (i - 1) =? nowOper then r0 else wallRelNs (u64 now) (bootTimeUnixNs s)) in *.
  assert (Hv : reading_ok (l0, newVal, rel)).
  { unfold AdminUp, AdminTesting in Hn. pose proof (wallRelNs_range (u64 now) (bootTimeUnixNs s)).
    unfold rel. split_and!; try lia; destruct (_ =? _); lia. }
  destruct (commit s (i - 1) l0 newVal rel now) as [s2 out] eqn:Hc. injection Hsc as -> Hevts.
  destruct (obs_own _ _ _ _ _ _ _ _ Hok Hi Hv Hc) as (HL' & HA' & HC').
  destruct (obs_oper _ _ _ _ _ _ _ _ Hok Hi Hv Hc _ Hi) as (_ & HO').
  pose proof (commit_operAt _ _ _ _ _ _ Hok Hi Hv _ _ _ Hc Hi) as Hnow. rewrite Z.eqb_refl in Hnow. fold nowOper in Hnow.
  pose proof (move_others _ _ _ _ _ _ _ _ Hok Hi Hv Hc) as Hoth.
  pose proof (move_faithful _ _ _ _ _ _ _ _ Hok Hi Hv Hc true) as Hfe. unfold moveEvents in Hfe.
  destruct (commit_words _ _ _ _ _ _ Hok Hi Hv _ _ Hc) as (_ & Hok2 & _ & _ & _).
  rewrite Hnow in Hfe. rewrite Z.sub_add in *.
  assert (Hev : evts = [adminEvent s s2 now i] ++ (if operAt s (i - 1) =? nowOper then [] else [operEvent s s2 now i]) ++ out).
  { rewrite Hevts. unfold adminEvent, operEvent. rewrite HL', HA', HC', HO, HO', Hnow. done. }
  split_and!; [done| |done|done|done| |].
  - rewrite Hev. apply Hfe. intros He. rewrite HC', HC. unfold rel. by replace (operAt s (i - 1) =? nowOper) with true by lia.
  - rewrite Hev. done.
  - intros _. rewrite Hev. by eexists _, _.
Qed.

(** ** Engines the simulator can build and drive *)

Inductive reachable_engine : InterfaceState -> Prop :=
| re_new max clock gen s :
    newInterfaceStateWithClock max clock gen = Ok s -> reachable_engine s
| re_setParents s parents :
    reachable_engine s -> parent s = None -> one_level parents -> reachable_engine (setParents s parents)
| re_setLoopbacks s set : reachable_engine s -> reachable_engine (setLoopbacks s set)
| re_setStacked s set : reachable_engine s -> reachable_engine (setStacked s set)
| re_Seed s i link admin : reachable_engine s -> reachable_engine (Seed s i link admin)
| re_SetLinkState s i newLink now s' m evts :
    reachable_engine s -> SetLinkState s i newLink now = (s', m, evts) -> reachable_engine s'
| re_ApplyAdminStatus s i target now s' evts :
    reachable_engine s -> ApplyAdminStatus s i target now = (s', evts) -> reachable_engine s'.

Lemma new_ok max clock gen s : newInterfaceStateWithClock max clock gen = Ok s -> engine_ok s.
Proof.
  unfold newInterfaceStateWithClock. case_if; [done|]. intros H. injection H as <-.
  constructor; cbn [slots maxIfIndex parent children].
  - rewrite len_zeros; lia.
  - apply Forall_replicate. lia.
  - cbn. unfold u64. apply Z.mod_pos_bound. lia.
  - done.
  - intros slot _ H. done.
  - intros slot Hs. unfold childrenAt; cbn. split; [constructor|]. intros c. rewrite elem_of_nil.
    split; [done|]. intros [_ H]. unfold parentSlot in H; cbn in H. apply slot_in_spec in Hs. lia.
Qed.

Lemma Seed_ok s i link admin : engine_ok s -> engine_ok (Seed s i link admin).
Proof.
  intros H. unfold Seed. repeat (case_if; [done|]). apply store_ok; [done|].
  unfold OperUp, OperLowerLayerDn, AdminUp, AdminTesting in *. apply packState_range; unfold lastChangeMask; lia.
Qed.

Lemma reachable_engine_ok s : reachable_engine s -> engine_ok s.
Proof.
  induction 1 as [max clock gen s Hn|s parents _ IH Hnone Hone|s set _ IH|s set _ IH|s i link admin _ IH
    |s i nl now s' m evts _ IH Hs|s i t now s' evts _ IH Hs].
  - by eapply new_ok.
  - by apply setParents_ok.
  - unfold setLoopbacks. case_bool_decide; [done|]. destruct IH. by constructor.
  - unfold setStacked. case_bool_decide; [done|]. destruct IH. by constructor.
  - by apply Seed_ok.
  - destruct (decide (in_range s i)) as [Hi|Hi]; [destruct (decide (OperUp <= nl <= OperLowerLayerDn)) as [Hn|Hn]|].
    + by destruct (SetLinkState_observed _ _ _ _ _ _ _ IH Hi Hn Hs).
    + unfold SetLinkState in Hs. replace ((nl <? OperUp) || (OperLowerLayerDn <? nl)) with true in Hs by lia.
      destruct (negb _); by injection Hs as <- _ _.
    + unfold SetLinkState in Hs. rewrite in_range_slot in Hi. apply not_true_iff_false in Hi. rewrite Hi in Hs.
      by injection Hs as <- _ _.
  - unfold ApplyAdminStatus in Hs.
    destruct (decide (in_range s i)) as [Hi|Hi]; [destruct (decide (AdminUp <= t <= AdminTesting)) as [Hn|Hn]|].
    + by destruct (setAdminLeaf_observed _ _ _ _ _ _ IH Hi Hn Hs).
    + unfold setAdminLeaf in Hs. replace ((t <? AdminUp) || (AdminTesting <? t)) with true in Hs by lia.
      destruct (negb _); by injection Hs as <- _.
    + unfold setAdminLeaf in Hs. rewrite in_range_slot in Hi. apply not_true_iff_false in Hi. rewrite Hi in Hs.
      by injection Hs as <- _.
Qed.

(** A device with a port, two subinterfaces of it and a loopback, all up. *)
Definition sampleFamily : gmap Z Z := {[ 2 := 1; 3 := 1 ]}.
Definition newSample : InterfaceState :=
  match newInterfaceStateWithClock 4 1000 (Some 7) with
  | Ok s => s
  | _ => {| slots := []; maxIfIndex := 0; bootTimeUnixNs := 0; parent := None; children := None;
            loopback := None; stacked := None; topologyGen := None |}
  end.
Definition sampleEngine : InterfaceState :=
  Seed (Seed (Seed (Seed (setParents newSample sampleFamily) 1 1 1) 2 1 1) 3 2 1) 4 1 1.

Lemma sampleFamily_one_level : one_level sampleFamily.
Proof.
  unfold one_level, sampleFamily. intros c p H.
  apply lookup_insert_Some in H as [[<- <-]|[_ H]]; [done|].
  apply lookup_singleton_Some in H as [<- <-]. done.
Qed.

Lemma sampleEngine_reachable : reachable_engine sampleEngine.
Proof.
  unfold sampleEngine. do 4 apply re_Seed. apply re_setParents; [|done|apply sampleFamily_one_level].
  by eapply (re_new 4 1000 (Some 7)).
Qed.

(** C24: moving an interface's link.  Whatever family the interface belongs to,
    [SetLinkState] stores the link and nothing else of it, leaves every other
    interface's link and admin-status alone, answers [LinkUnchanged],
    [LinkMovedMasked] or [LinkMovedVisible] according to whether the link was at
    the target and whether the derived oper-status moved, and returns exactly
    the oper events an observer comparing the readers before and after would
    write: one for each interface whose oper-status moved (subinterfaces
    included), with the values read afterwards; last-change is stamped on those
    interfaces alone, and the LLDP tables are invalidated exactly when there is
    such an interface. *)
Theorem link_move_observed s i newLink now :
  reachable_engine s -> in_range s i -> OperUp <= newLink <= OperLowerLayerDn ->
  let '(s', m, evts) := SetLinkState s i newLink now in
  faithful_events s s' evts /\ others_kept s s' i /\
  LinkState s' i = newLink /\ AdminStatus s' i = AdminStatus s i /\
  m = (if LinkState s i =? newLink then LinkUnchanged
       else if OperStatus s' i =? OperStatus s i then LinkMovedMasked else LinkMovedVisible).
Proof.
  intros Hre Hi Hn. destruct (SetLinkState s i newLink now) as [[s' m] evts] eqn:E.
  by destruct (SetLinkState_observed _ _ _ _ _ _ _ (reachable_engine_ok s Hre) Hi Hn E) as (_ & ?).
Qed.

Lemma link_move_observed_witness :
  let '(s', m, evts) := SetLinkState sampleEngine 1 OperDown 5000 in
  m = LinkMovedVisible /\ OperStatus s' 2 = OperLowerLayerDn /\
  map IfIndex evts = [1; 2] /\ faithful_events sampleEngine s' evts.
Proof.
  pose proof (link_move_observed sampleEngine 1 OperDown 5000 sampleEngine_reachable) as H.
  destruct (SetLinkState sampleEngine 1 OperDown 5000) as [[s' m] evts] eqn:E.
  assert (E' := E). vm_compute in E'. injection E' as Hs Hm He.
  split_and!; [by rewrite <- Hm|by rewrite <- Hs|by rewrite <- He|].
  apply H; [unfold in_range; vm_compute; split; discriminate|vm_compute; split; discriminate].
Defined.

(** C25: moving an interface's admin-status.  [ApplyAdminStatus] writes the admin
    leaf and keeps the link of that interface and both of every other; it
    returns no event exactly when the admin-status was already at the target,
    otherwise the admin event first, followed by the oper events of exactly the
    interfaces whose derived oper-status moved with it. *)
Theorem admin_move_observed s i target now :
  reachable_engine s -> in_range s i -> AdminUp <= target <= AdminTesting ->
  let '(s', evts) := ApplyAdminStatus s i target now in
  faithful_events s s' evts /\ others_kept s s' i /\
  LinkState s' i = LinkState s i /\ AdminStatus s' i = target /\
  (evts = [] <-> AdminStatus s i = target) /\
  (AdminStatus s i <> target -> exists e evts', evts = e :: evts' /\ IfIndex e = i /\ Changed e = LeafAdminStatus).
Proof.
  intros Hre Hi Hn. destruct (ApplyAdminStatus s i target now) as [s' evts] eqn:E.
  by destruct (setAdminLeaf_observed _ _ _ _ _ _ (reachable_engine_ok s Hre) Hi Hn E) as (_ & ?).
Qed.

Lemma admin_move_observed_witness :
  let '(s', evts) := ApplyAdminStatus sampleEngine 1 AdminDown 5000 in
  map (fun e => (IfIndex e, Changed e)) evts = [(1, LeafAdminStatus); (1, LeafOperStatus); (2, LeafOperStatus)] /\
  faithful_events sampleEngine s' evts.
Proof.
  pose proof (admin_move_observed sampleEngine 1 AdminDown 5000 sampleEngine_reachable) as H.
  destruct (ApplyAdminStatus sampleEngine 1 AdminDown 5000) as [s' evts] eqn:E.
  assert (E' := E). vm_compute in E'. injection E' as Hs He. split; [by rewrite <- He|].
  apply H; [unfold in_range; vm_compute; split; discriminate|vm_compute; split; discriminate].
Defined.

(** ** Shut, flap, unshut *)

(** The observable oper-status is a function of the stored leaves alone. *)
Lemma OperStatus_leaves s j :
  engine_ok s -> in_range s j ->
  OperStatus s j =
    deriveChildOper (AdminStatus s j) (LinkState s j)
      (let p := parentSlot s (j - 1) in
       if p =? 0 then OperUp else deriveOper (AdminStatus s p) (LinkState s p)).
Proof.
  intros Hok Hj. apply in_range_slot in Hj. destruct (readSlot (load s (j - 1))) as [[l a] r] eqn:Hr.
  destruct (readers s (j - 1) _ _ _ Hj Hr) as (HL & HA & _ & HO). rewrite Z.sub_add in *. rewrite HO, HL, HA.
  unfold operAt. rewrite Hr. f_equal. unfold parentOper. cbv zeta. destruct (parentSlot s (j - 1) =? 0) eqn:E; [done|].
  zbool. destruct (ok_parent s Hok _ Hj E) as [Hp _]. destruct (readSlot (load s (parentSlot s (j - 1) - 1))) as [[lp ap] rp] eqn:Hrp.
  destruct (readers s _ _ _ _ Hp Hrp) as (HLp & HAp & _ & _). rewrite Z.sub_add in *. by rewrite HLp, HAp.
Qed.

Lemma OperStatus_same s t :
  engine_ok s -> engine_ok t -> parent t = parent s -> maxIfIndex t = maxIfIndex s ->
  (forall j, in_range s j -> LinkState t j = LinkState s j /\ AdminStatus t j = AdminStatus s j) ->
  forall j, in_range s j -> OperStatus t j = OperStatus s j.
Proof.
  intros Hs Ht Hp Hm Hsame j Hj. assert (Hj' : in_range t j) by (unfold in_range in *; lia).
  rewrite (OperStatus_leaves s j Hs Hj), (OperStatus_leaves t j Ht Hj').
  destruct (Hsame j Hj) as [-> ->]. f_equal. unfold parentSlot. rewrite Hp. fold (parentSlot s (j - 1)). cbv zeta.
  destruct (parentSlot s (j - 1) =? 0) eqn:E; [done|]. zbool.
  destruct (ok_parent s Hs (j - 1)) as [Hpi _]; [by apply in_range_slot|done|].
  destruct (Hsame (parentSlot s (j - 1))) as [-> ->]; [by apply in_range_slot|done].
Qed.

Lemma cascade_frame s cs w n t r : same_frame s (fst (cascade_loop s cs w n t r)).
Proof.
  revert s. induction cs as [|c cs IH]; intros s; [done|]. cbn [cascade_loop].
  destruct (readSlot _) as [[l a] ?]. case_if; [apply IH|].
  specialize (IH (store s (c - 1) (packState l a r))). destruct (cascade_loop _ cs w n t r) as [s' out]. cbn [fst] in *.
  eapply same_frame_trans; [apply store_frame|exact IH].
Qed.

Lemma SetLinkState_frame s i nl now s' m evts :
  SetLinkState s i nl now = (s', m, evts) -> same_frame s s' /\ (m <> LinkMovedVisible -> evts = []).
Proof.
  unfold SetLinkState. case_if; [by intros [= <- <- <-]|]. case_if; [by intros [= <- <- <-]|].
  destruct (linkBody _ _ _ _ _ _) as [|w|w ? ? ? ?]; [by intros [= <- <- <-]| |].
  { intros [= <- <- <-]. split; [apply store_frame|done]. }
  pose proof (cascade_frame (invalidateLLDPServedCache (store s (i - 1) w)) (childrenAt s (i - 1)) wasOper nowOper now relNs) as Hf.
  unfold cascadeChildren. change (childrenAt _ (i - 1)) with (childrenAt s (i - 1)).
  destruct (cascade_loop _ _ _ _ _ _) as [s2 out]. intros [= <- <- <-]. split; [|done].
  eapply same_frame_trans; [|exact Hf]. apply (store_frame s).
Qed.

Lemma setAdminLeaf_frame s i v now s' evts : setAdminLeaf s i v now = (s', evts) -> same_frame s s'.
Proof.
  unfold setAdminLeaf. case_if; [by intros [= <- <-]|]. case_if; [by intros [= <- <-]|].
  destruct (adminBody _ _ _ _ _ _) as [|w ? ? ? ?]; [by intros [= <- <-]|].
  case_if; [intros [= <- <-]; apply store_frame|].
  pose proof (cascade_frame (invalidateLLDPServedCache (store s (i - 1) w)) (childrenAt s (i - 1)) wasOper nowOper now relNs) as Hf.
  unfold cascadeChildren. change (childrenAt _ (i - 1)) with (childrenAt s (i - 1)).
  destruct (cascade_loop _ _ _ _ _ _) as [s2 out]. intros [= <- <-].
  eapply same_frame_trans; [|exact Hf]. apply (store_frame s).
Qed.

(** Shutting a port, moving its cable while it is shut, and unshutting it.
    The move made under admin-down is silent (no event, no visible outcome), it
    is not lost, and after the unshut every interface reads exactly what it would
    read had the cable been moved on the running port: an admin bounce neither
    repairs nor damages a link. *)
Theorem admin_bounce_keeps_link s i newLink n1 n2 n3 n0 :
  reachable_engine s -> in_range s i -> OperUp <= newLink <= OperLowerLayerDn -> AdminStatus s i = AdminUp ->
  let '(s1, _) := ApplyAdminStatus s i AdminDown n1 in
  let '(s2, m, evts) := SetLinkState s1 i newLink n2 in
  let '(s3, _) := ApplyAdminStatus s2 i AdminUp n3 in
  let '(t, _, _) := SetLinkState s i newLink n0 in
  m <> LinkMovedVisible /\ evts = [] /\
  forall j, in_range s j ->
    LinkState s3 j = LinkState t j /\ AdminStatus s3 j = AdminStatus t j /\ OperStatus s3 j = OperStatus t j.
Proof.
  intros Hre Hi Hn Hup. pose proof (reachable_engine_ok s Hre) as Hok.
  destruct (ApplyAdminStatus s i AdminDown n1) as [s1 e1] eqn:E1.
  destruct (setAdminLeaf_observed _ _ AdminDown _ _ _ Hok Hi ltac:(unfold AdminUp, AdminDown, AdminTesting; lia) E1) as (Hok1 & _ & Ho1 & HL1 & HA1 & _).
  pose proof (setAdminLeaf_frame _ _ _ _ _ _ E1) as Hf1.
  assert (Hr1 : forall j, in_range s1 j <-> in_range s j) by (intros; unfold in_range; by destruct Hf1 as (-> & _)).
  destruct (SetLinkState s1 i newLink n2) as [[s2 m] evts] eqn:E2.
  destruct (SetLinkState_observed _ _ _ _ _ _ _ Hok1 ltac:(by apply Hr1) Hn E2) as (Hok2 & _ & Ho2 & HL2 & HA2 & Hm).
  destruct (SetLinkState_frame _ _ _ _ _ _ _ E2) as [Hf2 Hev].
  assert (Hr2 : forall j, in_range s2 j <-> in_range s j) by (intros j; rewrite <- Hr1; unfold in_range; by destruct Hf2 as (-> & _)).
  destruct (ApplyAdminStatus s2 i AdminUp n3) as [s3 e3] eqn:E3.
  destruct (setAdminLeaf_observed _ _ AdminUp _ _ _ Hok2 ltac:(by apply Hr2)
    ltac:(unfold AdminUp, AdminTesting; lia) E3) as (Hok3 & _ & Ho3 & HL3 & HA3 & _).
  pose proof (setAdminLeaf_frame _ _ _ _ _ _ E3) as Hf3.
  destruct (SetLinkState s i newLink n0) as [[t mt] et] eqn:Et.
  destruct (SetLinkState_observed _ _ _ _ _ _ _ Hok Hi Hn Et) as (Hokt & _ & Hot & HLt & HAt & _).
  destruct (SetLinkState_frame _ _ _ _ _ _ _ Et) as [Hft _].
  assert (Hmask : m <> LinkMovedVisible).
  { rewrite Hm. case_if; [done|]. rewrite (OperStatus_leaves s2 i) by (done || by apply Hr2).
    rewrite (OperStatus_leaves s1 i) by (done || by apply Hr1). rewrite HA2, HA1. done. }
  assert (Hsame : forall j, in_range t j -> LinkState s3 j = LinkState t j /\ AdminStatus s3 j = AdminStatus t j).
  { intros j Hj. assert (Hjs : in_range s j) by (unfold in_range in *; by destruct Hft as (<- & _)).
    destruct (decide (j = i)) as [->|Hne]; [split; congruence|].
    destruct (Ho1 j Hjs Hne), (Ho2 j ltac:(by apply Hr1) Hne), (Ho3 j ltac:(by apply Hr2) Hne), (Hot j Hjs Hne).
    split; congruence. }
  assert (Hrt : forall j, in_range t j <-> in_range s j) by (intros j; unfold in_range; by destruct Hft as (-> & _)).
  split_and!; [done|by apply Hev|]. intros j Hj%Hrt. destruct (Hsame j Hj). split_and!; [done|done|].
  apply (OperStatus_same t s3); try done; destruct Hf1 as (?&_&?&_), Hf2 as (?&_&?&_), Hf3 as (?&_&?&_), Hft as (?&_&?&_); congruence.
Qed.

Lemma admin_bounce_keeps_link_witness :
  let '(s1, _) := ApplyAdminStatus sampleEngine 1 AdminDown 2000 in
  let '(s2, _, evts) := SetLinkState s1 1 OperDown 3000 in
  let '(s3, _) := ApplyAdminStatus s2 1 AdminUp 4000 in
  evts = [] /\ OperStatus s3 1 = OperDown.
Proof.
  pose proof (admin_bounce_keeps_link sampleEngine 1 OperDown 2000 3000 4000 5000 sampleEngine_reachable) as H.
  destruct (ApplyAdminStatus sampleEngine 1 AdminDown 2000) as [s1 e1] eqn:E1. vm_compute in E1. injection E1 as <- _.
  destruct (SetLinkState _ 1 OperDown 3000) as [[s2 m] e2] eqn:E2. assert (E2' := E2). vm_compute in E2'. injection E2' as <- _ He.
  destruct (ApplyAdminStatus _ 1 AdminUp 4000) as [s3 e3] eqn:E3. assert (E3' := E3). vm_compute in E3'. injection E3' as <- _.
  destruct (SetLinkState sampleEngine 1 OperDown 5000) as [[t mt] et] eqn:Et. vm_compute in Et. injection Et as <- _ _.
  destruct H as (_ & He2 & Hj); [unfold in_range; vm_compute; split; discriminate|vm_compute; split; discriminate|done|].
  split; [exact He2|]. destruct (Hj 1) as (_ & _ & Ho); [unfold in_range; vm_compute; split; discriminate|].
  etransitivity; [exact Ho|]. reflexivity.
Defined.

(** ** Interleaved mutators

    An interface outside any family is mutated without a lock.  Several
    goroutines run the compare-and-swap loops of [SetLinkState] and
    [setAdminLeaf] on its word; a step of the system is one access to the shared
    word or clock.  [log] records the calls in the order they take effect: a
    storing call at its successful swap, a call that finds the leaf at its
    target at its load. *)
Inductive call := CallLink (newLink : Z) | CallAdmin (newVal : Z).
Inductive answer := AnsLink (m : LinkMutation) (evts : list StateChange) | AnsAdmin (evts : list StateChange).

Inductive goroutine :=
| Calling (c : call)
| Loaded (c : call) (cur : Z)
| Sampled (c : call) (cur now : Z)
| Returned (c : call) (a : answer).

Record logEntry := { le_thread : nat; le_call : call; le_now : Z; le_answer : answer }.

Record system := {
  word : Z;
  clock : Z;
  routines : list goroutine;
  log : list logEntry;
}.

Section interleaving.
  Variables (boot ifIndex : Z).

(** One pass through the loop body: the word to swap in, if any, and the answer. *)
Definition attempt (c : call) (cur now : Z) : option Z * answer :=
  match c with
  | CallLink newLink =>
      match linkBody boot ifIndex OperUp cur newLink now with
      | LinkStop => (None, AnsLink LinkUnchanged [])
      | LinkStoreMasked w => (Some w, AnsLink LinkMovedMasked [])
      | LinkStoreVisible w _ _ _ evt => (Some w, AnsLink LinkMovedVisible [evt])
      end
  | CallAdmin newVal =>
      match adminBody boot ifIndex OperUp cur newVal now with
      | AdminStop => (None, AnsAdmin [])
      | AdminStore w _ _ _ evts => (Some w, AnsAdmin evts)
      end
  end.

Inductive step : system -> system -> Prop :=
| step_tick S t :
    clock S <= t ->
    step S {| word := word S; clock := t; routines := routines S; log := log S |}
| step_load_return S i c a :
    routines S !! i = Some (Calling c) -> attempt c (word S) (clock S) = (None, a) ->
    step S {| word := word S; clock := clock S; routines := <[i := Returned c a]> (routines S);
              log := log S ++ [{| le_thread := i; le_call := c; le_now := clock S; le_answer := a |}] |}
| step_load S i c w a :
    routines S !! i = Some (Calling c) -> attempt c (word S) (clock S) = (Some w, a) ->
    step S {| word := word S; clock := clock S; routines := <[i := Loaded c (word S)]> (routines S); log := log S |}
| step_sample S i c cur :
    routines S !! i = Some (Loaded c cur) ->
    step S {| word := word S; clock := clock S; routines := <[i := Sampled c cur (clock S)]> (routines S); log := log S |}
| step_swap S i c cur now w a :
    routines S !! i = Some (Sampled c cur now) -> attempt c cur now = (Some w, a) -> word S = cur ->
    step S {| word := w; clock := clock S; routines := <[i := Returned c a]> (routines S);
              log := log S ++ [{| le_thread := i; le_call := c; le_now := now; le_answer := a |}] |}
| step_retry S i c cur now :
    routines S !! i = Some (Sampled c cur now) -> word S <> cur ->
    step S {| word := word S; clock := clock S; routines := <[i := Calling c]> (routines S); log := log S |}.

Definition valid_call (c : call) : Prop :=
  match c with
  | CallLink newLink => OperUp <= newLink <= OperLowerLayerDn
  | CallAdmin newVal => AdminUp <= newVal <= AdminTesting
  end.

Inductive run (S0 : system) : system -> Prop :=
| run_refl : run S0 S0
| run_step S S' : run S0 S -> step S S' -> run S0 S'.

End interleaving.

(** The same call on the sequential engine. *)
Definition applyCall (s : InterfaceState) (ifIndex : Z) (c : call) (now : Z) : InterfaceState * answer :=
  match c with
  | CallLink newLink => let '(s', m, evts) := SetLinkState s ifIndex newLink now in (s', AnsLink m evts)
  | CallAdmin newVal => let '(s', evts) := ApplyAdminStatus s ifIndex newVal now in (s', AnsAdmin evts)
  end.

(** A sequential history: each logged call, run on the engine the previous ones
    left, gives the answer logged. *)
Inductive replays (ifIndex : Z) (s : InterfaceState) : list logEntry -> InterfaceState -> Prop :=
| replays_nil : replays ifIndex s [] s
| replays_snoc h s1 e s2 :
    replays ifIndex s h s1 -> applyCall s1 ifIndex (le_call e) (le_now e) = (s2, le_answer e) ->
    replays ifIndex s (h ++ [e]) s2.

(** An interface outside any family. *)
Definition standalone (s : InterfaceState) (slot : Z) : Prop :=
  slot_in s slot = true /\ parentSlot s slot = 0 /\ childrenAt s slot = [].

Lemma standalone_frame s s' slot : same_frame s s' -> standalone s slot -> standalone s' slot.
Proof.
  intros (Hm & _ & Hp & Hc & _) (H1 & H2 & H3). unfold standalone, slot_in, parentSlot, childrenAt in *.
  by rewrite Hm, Hp, Hc.
Qed.

Lemma cascade_standalone s slot w n t r : standalone s slot -> cascadeChildren s slot w n t r = (s, []).
Proof. intros (_ & _ & Hc). unfold cascadeChildren. by rewrite Hc. Qed.

(** On such an interface one pass of the loop is one call of the sequential engine. *)
Lemma applyCall_attempt s slot c now o a :
  engine_ok s -> standalone s slot -> valid_call c ->
  attempt (bootTimeUnixNs s) (slot + 1) c (load s slot) now = (o, a) ->
  exists s', applyCall s (slot + 1) c now = (s', a) /\ load s' slot = default (load s slot) o /\
    engine_ok s' /\ standalone s' slot /\ bootTimeUnixNs s' = bootTimeUnixNs s.
Proof.
  intros Hok Hst Hv Ha. pose proof Hst as (Hs & Hp & Hch).
  assert (Hir : in_range s (slot + 1)) by (apply in_range_slot; by rewrite Z.add_simpl_r).
  assert (Hfix : forall w, load (store s slot w) slot = w) by (intros w; rewrite load_store, Z.eqb_refl by done; done).
  destruct c as [nl|nv]; cbn [attempt applyCall valid_call] in *.
  - destruct (SetLinkState s (slot + 1) nl now) as [[s' m] evts] eqn:E.
    destruct (SetLinkState_observed _ _ _ _ _ _ _ Hok Hir Hv E) as (Hok' & _).
    destruct (SetLinkState_frame _ _ _ _ _ _ _ E) as [Hf _].
    exists s'. assert (Hsel : AnsLink m evts = a /\ load s' slot = default (load s slot) o).
    { unfold SetLinkState in E. rewrite Z.add_simpl_r, Hs, (parentOper_top s slot Hp) in E. cbn [negb] in E.
      replace ((nl <? OperUp) || (OperLowerLayerDn <? nl)) with false in E by lia.
      destruct (linkBody _ _ _ _ _ _) as [|w|w ? ? ? e]; injection Ha as <- <-.
      - by injection E as <- <- <-.
      - injection E as <- <- <-. split; [done|]. apply Hfix.
      - rewrite cascade_standalone in E by done. injection E as <- <- <-. split; [done|]. apply Hfix. }
    destruct Hsel as [<- Hl]. split_and!; [done|done|done|by eapply standalone_frame|]. by destruct Hf as (_ & -> & _).
  - unfold ApplyAdminStatus. destruct (setAdminLeaf s (slot + 1) nv now) as [s' evts] eqn:E.
    destruct (setAdminLeaf_observed _ _ _ _ _ _ Hok Hir Hv E) as (Hok' & _).
    pose proof (setAdminLeaf_frame _ _ _ _ _ _ E) as Hf.
    exists s'. assert (Hsel : AnsAdmin evts = a /\ load s' slot = default (load s slot) o).
    { unfold setAdminLeaf in E. rewrite Z.add_simpl_r, Hs, (parentOper_top s slot Hp) in E. cbn [negb] in E.
      replace ((nv <? AdminUp) || (AdminTesting <? nv)) with false in E by lia.
      destruct (adminBody _ _ _ _ _ _) as [|w was nw ? es]; injection Ha as <- <-.
      - by injection E as <- <-.
      - destruct (was =? nw).
        + injection E as <- <-. split; [done|]. apply Hfix.
        + rewrite cascade_standalone in E by done. injection E as <- <-. rewrite app_nil_r. split; [done|]. apply Hfix. }
    destruct Hsel as [<- Hl]. split_and!; [done|done|done|by eapply standalone_frame|]. by destruct Hf as (_ & -> & _).
Qed.

Section linearizable.
  Variables (s0 : InterfaceState) (slot : Z).
  Hypothesis Hok0 : engine_ok s0.
  Hypothesis Hst0 : standalone s0 slot.

Definition call_of (g : goroutine) : call :=
  match g with Calling c | Loaded c _ | Sampled c _ _ | Returned c _ => c end.
Definition returned (g : goroutine) : bool := match g with Returned _ _ => true | _ => false end.

(** The bookkeeping of the log, for any log and any routines. *)
Record log_ok (calls : list call) (rs : list goroutine) (h : list logEntry) : Prop := {
  lo_calls : map call_of rs = calls;
  lo_log : forall e, e ∈ h -> rs !! le_thread e = Some (Returned (le_call e) (le_answer e));
  lo_done : forall i c a, rs !! i = Some (Returned c a) ->
    exists now, {| le_thread := i; le_call := c; le_now := now; le_answer := a |} ∈ h;
  lo_once : NoDup (map le_thread h);
}.

Lemma map_insert_same {A B} (f : A -> B) (l : list A) i x y :
  l !! i = Some x -> f y = f x -> map f (<[i := y]> l) = map f l.
Proof.
  revert i. induction l as [|z l IH]; intros [|i] Hl Hf; [done..| |]; cbn in *.
  - injection Hl as ->. by rewrite Hf.
  - f_equal. by apply IH.
Qed.

Lemma log_ok_update calls rs h i g g' :
  log_ok calls rs h -> rs !! i = Some g -> returned g = false -> returned g' = false -> call_of g' = call_of g ->
  log_ok calls (<[i := g']> rs) h.
Proof.
  intros [H1 H2 H3 H4] Hi Hg Hg' Hc. constructor; [|..|done].
  - by rewrite (map_insert_same call_of rs i g g' Hi Hc).
  - intros e He. pose proof (H2 e He) as Hr. destruct (decide (i = le_thread e)) as [->|Hne].
    + rewrite Hi in Hr. by injection Hr as ->.
    + by rewrite list_lookup_insert_ne.
  - intros j c a Hj. destruct (decide (i = j)) as [->|Hne].
    + rewrite list_lookup_insert_eq in Hj by (by eapply lookup_lt_Some). by injection Hj as ->.
    + rewrite list_lookup_insert_ne in Hj by done. by apply H3.
Qed.

Lemma log_ok_return calls rs h i g c a now :
  log_ok calls rs h -> rs !! i = Some g -> returned g = false -> call_of g = c ->
  log_ok calls (<[i := Returned c a]> rs)
    (h ++ [{| le_thread := i; le_call := c; le_now := now; le_answer := a |}]).
Proof.
  intros [H1 H2 H3 H4] Hi Hg Hc. assert (Hlt : (i < length rs)%nat) by (by eapply lookup_lt_Some). constructor.
  - by rewrite (map_insert_same call_of rs i g _ Hi).
  - intros e [He|He%list_elem_of_singleton]%elem_of_app.
    + pose proof (H2 e He) as Hr. destruct (decide (i = le_thread e)) as [->|Hne]; [rewrite Hi in Hr; by injection Hr as ->|].
      by rewrite list_lookup_insert_ne.
    + subst e. cbn. by rewrite list_lookup_insert_eq.
  - intros j c' a' Hj. destruct (decide (i = j)) as [->|Hne].
    + rewrite list_lookup_insert_eq in Hj by done. injection Hj as <- <-. exists now.
      apply elem_of_app. right. by apply list_elem_of_singleton.
    + rewrite list_lookup_insert_ne in Hj by done. destruct (H3 j c' a' Hj) as [n Hn]. exists n. apply elem_of_app. by left.
  - rewrite List.map_app. apply list.NoDup_app. split_and!; [done| |apply NoDup_singleton].
    intros x Hx Hx'%list_elem_of_singleton. cbn in Hx'. subst x. apply list_elem_of_In, in_map_iff in Hx as (e & <- & He).
    apply list_elem_of_In in He. pose proof (H2 e He) as Hr. rewrite Hi in Hr. by injection Hr as ->.
Qed.

Lemma log_ok_valid calls rs h i g :
  log_ok calls rs h -> Forall valid_call calls -> rs !! i = Some g -> valid_call (call_of g).
Proof.
  intros [<- _ _ _] Hv Hi. eapply Forall_lookup_1; [exact Hv|]. rewrite lookup_map, Hi. reflexivity.
Qed.

(** The linearisation: the log replays on the sequential engine to the current word. *)
Lemma run_linearizes calls w0 t0 S :
  Forall valid_call calls -> load s0 slot = w0 ->
  run (bootTimeUnixNs s0) (slot + 1) {| word := w0; clock := t0; routines := map Calling calls; log := [] |} S ->
  log_ok calls (routines S) (log S) /\
  exists s, replays (slot + 1) s0 (log S) s /\ load s slot = word S /\
    engine_ok s /\ standalone s slot /\ bootTimeUnixNs s = bootTimeUnixNs s0.
Proof.
  intros Hv Hw. induction 1 as [|S S' _ [Hlog IH] Hstep].
  - split; [constructor|exists s0; split_and!; (done || constructor)].
    + cbn. rewrite map_map. apply List.map_id.
    + intros e He. by apply elem_of_nil in He.
    + intros i c a Hi. cbn in Hi. rewrite lookup_map in Hi. destruct (calls !! i); done.
    + constructor.
  - destruct IH as (s & Hrep & Hl & Hok & Hst & Hb).
    assert (Hcall : forall i g now o a, routines S !! i = Some g -> returned g = false ->
      attempt (bootTimeUnixNs s0) (slot + 1) (call_of g) (word S) now = (o, a) ->
      log_ok calls (<[i := Returned (call_of g) a]> (routines S))
        (log S ++ [{| le_thread := i; le_call := call_of g; le_now := now; le_answer := a |}]) /\
      exists s', replays (slot + 1) s0 (log S ++ [{| le_thread := i; le_call := call_of g; le_now := now; le_answer := a |}]) s' /\
        load s' slot = default (word S) o /\ engine_ok s' /\ standalone s' slot /\ bootTimeUnixNs s' = bootTimeUnixNs s0).
    { intros i g now o a Hi Hg Ha. rewrite <- Hl, <- Hb in Ha.
      destruct (applyCall_attempt s slot _ now o a Hok Hst (log_ok_valid _ _ _ _ _ Hlog Hv Hi) Ha) as (s' & Hap & Hl' & Hok' & Hst' & Hb').
      split; [by eapply log_ok_return|]. exists s'. split_and!; try done; [|congruence|congruence].
      by apply replays_snoc with s. }
    inversion Hstep as [S1 t Ht|S1 i c a Hi Ha|S1 i c w a Hi Ha|S1 i c cur Hi|S1 i c cur now w a Hi Ha Hcur|S1 i c cur now Hi Hcur]; subst; cbn.
    + split; [done|]. by exists s.
    + destruct (Hcall i (Calling c) _ _ _ Hi ltac:(done) Ha) as [Hlo (s' & Hs')]. split; [done|]. by exists s'.
    + split; [by eapply log_ok_update|]. by exists s.
    + split; [by eapply log_ok_update|]. by exists s.
    + destruct (Hcall i (Sampled c (word S) now) _ _ _ Hi ltac:(done) Ha) as [Hlo (s' & Hs')]. split; [done|]. by exists s'.
    + split; [by eapply log_ok_update|]. by exists s.
Qed.

End linearizable.

(** The stored last change, relative to the boot time. *)
Definition relOf (w : Z) : Z := snd (unpackState w).

Section monotone.
  Variables (boot ifIndex limit : Z).
  Hypothesis Hboot : 0 <= boot.
  Hypothesis Hlimit : limit <= boot + lastChangeMask /\ limit <= 2 ^ 64.

Lemma readSlot_rel w l a r : readSlot w = (l, a, r) -> relOf w = r.
Proof. unfold readSlot, relOf. destruct (unpackState w) as [[? ?] ?]. cbn. by intros [= _ _ <-]. Qed.

Lemma relOf_pack l a r : reading_ok (l, a, r) -> relOf (packState l a r) = r.
Proof. intros (?&?&?). unfold relOf. by rewrite unpack_pack by lia. Qed.

Lemma wallRelNs_exact now : boot <= now < limit -> wallRelNs (u64 now) boot = now - boot.
Proof.
  intros Hn. unfold wallRelNs, u64, lastChangeMask in *. rewrite (Z.mod_small now) by lia.
  replace (now <? boot) with false by lia. rewrite land_ones_mod by lia.
  rewrite (Z.mod_small (now - boot)) by lia. apply Z.mod_small. lia.
Qed.

(** A stored word keeps the last change or stamps the sampled time. *)
Lemma attempt_rel c cur now w a :
  0 <= cur < 2 ^ 64 -> valid_call c -> boot <= now < limit ->
  attempt boot ifIndex c cur now = (Some w, a) ->
  0 <= w < 2 ^ 64 /\ (relOf w = relOf cur \/ relOf w = now - boot).
Proof.
  intros Hcur Hv Hn Ha. pose proof (readSlot_ok cur Hcur) as Hr. destruct (readSlot cur) as [[l0 a0] r0] eqn:E.
  destruct Hr as (Hl0 & Ha0 & Hr0). pose proof (readSlot_rel _ _ _ _ E) as Hrel. rewrite Hrel.
  assert (Hrr : 0 <= now - boot <= lastChangeMask) by lia.
  assert (Hpack : forall l a r, reading_ok (l, a, r) -> r = r0 \/ r = now - boot ->
            0 <= packState l a r < 2 ^ 64 /\ (relOf (packState l a r) = r0 \/ relOf (packState l a r) = now - boot)).
  { intros l a' r Hok Hr. rewrite relOf_pack by done. destruct Hok as (?&?&?). split; [apply packState_range; lia|done]. }
  destruct c as [nl|nv]; cbn [attempt valid_call] in *.
  - unfold OperUp, OperLowerLayerDn in Hv. unfold linkBody in Ha. rewrite E in Ha. destruct (l0 =? nl); [done|].
    destruct (_ =? _); injection Ha as <- _; apply Hpack; (split_and!; lia) || (by left) || idtac.
    + rewrite wallRelNs_exact by done. split_and!; lia.
    + right. by apply wallRelNs_exact.
  - unfold AdminUp, AdminTesting in Hv. unfold adminBody in Ha. rewrite E in Ha. destruct (a0 =? nv); [done|].
    destruct (_ =? _); injection Ha as <- _; apply Hpack; (split_and!; lia) || (by left) || idtac.
    + cbn [negb]. rewrite wallRelNs_exact by done. split_and!; lia.
    + right. by apply wallRelNs_exact.
Qed.

Record time_inv (S : system) : Prop := {
  ti_clock : boot <= clock S;
  ti_word : 0 <= word S < 2 ^ 64 /\ relOf (word S) <= clock S - boot;
  ti_loaded : forall i c cur, routines S !! i = Some (Loaded c cur) ->
    valid_call c /\ 0 <= cur < 2 ^ 64 /\ relOf cur <= clock S - boot;
  ti_sampled : forall i c cur now, routines S !! i = Some (Sampled c cur now) ->
    valid_call c /\ 0 <= cur < 2 ^ 64 /\ boot <= now <= clock S /\ relOf cur <= now - boot;
  ti_calling : forall i c, routines S !! i = Some (Calling c) -> valid_call c;
}.

(** Replacing one routine keeps what is known of the others. *)
Lemma routine_cases (rs : list goroutine) i g g0 j h :
  rs !! i = Some g0 -> <[i := g]> rs !! j = Some h -> h = g \/ rs !! j = Some h.
Proof.
  intros Hi Hj. destruct (decide (i = j)) as [->|Hne].
  - rewrite list_lookup_insert_eq in Hj by (by eapply lookup_lt_Some). left. by injection Hj.
  - rewrite list_lookup_insert_ne in Hj by done. by right.
Qed.

(** A field of [time_inv] after routine [i] was replaced: the other routines by
    the hypotheses, the new one left to prove unless it is of another kind. *)
Ltac keep_others Hi :=
  intros; match goal with
  | H : <[_ := _]> _ !! _ = Some _ |- _ =>
      apply (routine_cases _ _ _ _ _ _ Hi) in H as [H|H];
      [first [discriminate H | injection H; intros; subst] | eauto]
  end.

Lemma time_inv_step S S' :
  time_inv S -> step boot ifIndex S S' -> clock S' < limit ->
  time_inv S' /\ relOf (word S) <= relOf (word S').
Proof.
  intros [H1 [H2 H2'] H3 H4 H5] Hstep Hlim.
  inversion Hstep as [S1 t Ht|S1 i c a Hi Ha|S1 i c w a Hi Ha|S1 i c cur Hi|S1 i c cur now w a Hi Ha Hcur|S1 i c cur now Hi Hcur];
    subst; cbn [word clock routines] in *.
  - split; [|lia]. constructor; cbn [word clock routines]; [lia|lia| | |done].
    + intros i c cur Hi. destruct (H3 _ _ _ Hi) as (?&?&?). split_and!; (done || lia).
    + intros i c cur now Hi. destruct (H4 _ _ _ _ Hi) as (?&?&?&?). split_and!; (done || lia).
  - split; [|lia]. constructor; cbn [word clock routines]; [lia|lia|keep_others Hi..].
  - split; [|lia]. constructor; cbn [word clock routines]; [lia|lia|keep_others Hi..]. split_and!; eauto; lia.
  - split; [|lia]. destruct (H3 _ _ _ Hi) as (Hv & Hc & Hr).
    constructor; cbn [word clock routines]; [lia|lia|keep_others Hi..]. split_and!; (done || lia).
  - destruct (H4 _ _ _ _ Hi) as (Hv & Hc & Hn & Hr).
    assert (Hlt : boot <= now < limit) by lia.
    destruct (attempt_rel _ _ _ _ _ Hc Hv Hlt Ha) as [Hw Hrel].
    split; [|lia]. constructor; cbn [word clock routines]; [lia|lia|keep_others Hi..].
  - split; [|lia]. destruct (H4 _ _ _ _ Hi) as (Hv & _).
    constructor; cbn [word clock routines]; [lia|lia|keep_others Hi..]. done.
Qed.

Lemma step_clock S S' : step boot ifIndex S S' -> clock S <= clock S'.
Proof. destruct 1; cbn; lia. Qed.

Lemma time_inv_run S S' :
  time_inv S -> run boot ifIndex S S' -> clock S' < limit -> time_inv S' /\ relOf (word S) <= relOf (word S').
Proof.
  intros Hinv. induction 1 as [|S1 S2 _ IH Hstep]; [done|]. intros Hl.
  pose proof (step_clock _ _ Hstep). destruct IH as [Hi1 Hr1]; [lia|].
  destruct (time_inv_step _ _ Hi1 Hstep Hl) as [Hi2 Hr2]. split; [done|lia].
Qed.

End monotone.

(** C22: the lock-free mutators are linearizable.  However the compare-and-swap
    loops of any number of goroutines interleave on an interface outside a
    family, the calls that have returned are exactly the calls of the log, each
    once; replayed in the log's order on the sequential engine they give every
    caller the answer it got, and they leave the word that is stored. *)
Theorem mutators_linearizable s0 slot calls t0 S :
  reachable_engine s0 -> standalone s0 slot -> Forall valid_call calls ->
  run (bootTimeUnixNs s0) (slot + 1)
    {| word := load s0 slot; clock := t0; routines := map Calling calls; log := [] |} S ->
  (exists s, replays (slot + 1) s0 (log S) s /\ load s slot = word S) /\
  (forall i c a, routines S !! i = Some (Returned c a) <->
     exists now, {| le_thread := i; le_call := c; le_now := now; le_answer := a |} ∈ log S) /\
  NoDup (map le_thread (log S)) /\ map call_of (routines S) = calls.
Proof.
  intros Hre Hst Hv Hrun.
  destruct (run_linearizes s0 slot (reachable_engine_ok s0 Hre) Hst calls _ t0 S Hv eq_refl Hrun) as [[H1 H2 H3 H4] (s & Hs & Hl & _)].
  split_and!; [by exists s| |done|done]. intros i c a. split; [apply H3|]. intros [now He]. exact (H2 _ He).
Qed.

(** An executable scheduler: which routine moves, or how far the clock ticks. *)
Inductive action := Tick (t : Z) | Move (i : nat).

Definition exec1 (boot ifIndex : Z) (a : action) (S : system) : option system :=
  match a with
  | Tick t => if clock S <=? t then Some {| word := word S; clock := t; routines := routines S; log := log S |} else None
  | Move i =>
      let set g w h := Some {| word := w; clock := clock S; routines := <[i := g]> (routines S); log := h |} in
      match routines S !! i with
      | Some (Calling c) =>
          match attempt boot ifIndex c (word S) (clock S) with
          | (None, a) => set (Returned c a) (word S)
              (log S ++ [{| le_thread := i; le_call := c; le_now := clock S; le_answer := a |}])
          | (Some _, _) => set (Loaded c (word S)) (word S) (log S)
          end
      | Some (Loaded c cur) => set (Sampled c cur (clock S)) (word S) (log S)
      | Some (Sampled c cur now) =>
          if word S =? cur then
            match attempt boot ifIndex c cur now with
            | (Some w, a) => set (Returned c a) w
                (log S ++ [{| le_thread := i; le_call := c; le_now := now; le_answer := a |}])
            | (None, _) => None
            end
          else set (Calling c) (word S) (log S)
      | _ => None
      end
  end.

Fixpoint exec (boot ifIndex : Z) (l : list action) (S : system) : option system :=
  match l with
  | [] => Some S
  | a :: l' => match exec1 boot ifIndex a S with Some S' => exec boot ifIndex l' S' | None => None end
  end.

Lemma exec1_step boot ifIndex a S S' : exec1 boot ifIndex a S = Some S' -> step boot ifIndex S S'.
Proof.
  destruct a as [t|i]; cbn [exec1].
  - case_if; [|done]. intros [= <-]. by apply step_tick.
  - destruct (routines S !! i) as [[c|c cur|c cur now|c a]|] eqn:Hi; try done.
    + destruct (attempt _ _ _ _ _) as [[w|] a] eqn:Ha; intros [= <-]; by econstructor.
    + intros [= <-]. by econstructor.
    + case_if.
      * destruct (attempt _ _ _ _ _) as [[w|] a] eqn:Ha; [|done]. intros [= <-]. by eapply step_swap.
      * intros [= <-]. by eapply step_retry.
Qed.

Lemma exec_run boot ifIndex l S0 S S' : run boot ifIndex S0 S -> exec boot ifIndex l S = Some S' -> run boot ifIndex S0 S'.
Proof.
  revert S. induction l as [|a l IH]; intros S Hr; cbn [exec]; [by intros [= <-]|].
  destruct (exec1 _ _ a S) as [S1|] eqn:E; [|done]. apply IH. eapply run_step; [done|]. by eapply exec1_step.
Qed.

(** Two calls on the loopback: one flaps it, one shuts it.  The flap's swap
    comes between the other's load and swap, so the other retries. *)
Definition racingCalls : list call := [CallLink OperDown; CallAdmin AdminDown].
Definition racingStart : system :=
  {| word := load sampleEngine 3; clock := 2000; routines := map Calling racingCalls; log := [] |}.
Definition racingFirst : option system :=
  exec (bootTimeUnixNs sampleEngine) 4 [Move 1; Move 1; Move 0; Tick 2500; Move 0; Move 0] racingStart.
Definition racingSchedule : list action :=
  [Move 1; Move 1; Move 0; Tick 2500; Move 0; Move 0; Move 1; Move 1; Tick 2600; Move 1; Move 1].

Lemma sample_standalone : standalone sampleEngine 3.
Proof. by vm_compute. Qed.
Lemma racingCalls_valid : Forall valid_call racingCalls.
Proof. repeat constructor; vm_compute; discriminate. Qed.

Lemma mutators_linearizable_witness :
  exists S, exec (bootTimeUnixNs sampleEngine) 4 racingSchedule racingStart = Some S /\
    map le_thread (log S) = [0%nat; 1%nat] /\
    exists s, replays 4 sampleEngine (log S) s /\ load s 3 = word S.
Proof.
  destruct (exec (bootTimeUnixNs sampleEngine) 4 racingSchedule racingStart) as [S|] eqn:E;
    [|vm_compute in E; discriminate].
  exists S. split; [done|]. split; [vm_compute in E; by injection E as <-|].
  apply (mutators_linearizable sampleEngine 3 racingCalls 2000 S sampleEngine_reachable sample_standalone racingCalls_valid).
  eapply exec_run; [apply run_refl|exact E].
Defined.

(** [ifLastChange] never goes back.  While the clock does not step back and
    the engine is younger than the 58 bits of nanoseconds the word holds, no
    interleaving of mutators on an interface outside a family ever stores an
    older time over a newer one, although every goroutine samples the clock
    before it knows whether its swap will succeed. *)
Theorem last_change_monotone s0 slot calls t0 S S' :
  reachable_engine s0 -> standalone s0 slot -> Forall valid_call calls ->
  let boot := bootTimeUnixNs s0 in
  boot <= t0 -> relOf (load s0 slot) <= t0 - boot ->
  run boot (slot + 1) {| word := load s0 slot; clock := t0; routines := map Calling calls; log := [] |} S ->
  run boot (slot + 1) S S' ->
  clock S' < Z.min (boot + lastChangeMask) (2 ^ 64) ->
  relOf (word S) <= relOf (word S') <= clock S' - boot.
Proof.
  intros Hre (Hs & _) Hv boot Hb Hr0 Hrun Hrun' Hclk. pose proof (reachable_engine_ok s0 Hre) as Hok.
  set (limit := Z.min (boot + lastChangeMask) (2 ^ 64)) in *.
  assert (Hlim : limit <= boot + lastChangeMask /\ limit <= 2 ^ 64) by lia.
  assert (Hboot : 0 <= boot) by apply Hok.
  assert (H0 : time_inv boot {| word := load s0 slot; clock := t0; routines := map Calling calls; log := [] |}).
  { constructor; cbn [word clock routines]; [done|split; [by apply load_range|done]|..].
    - intros i c cur Hi. rewrite lookup_map in Hi. by destruct (calls !! i).
    - intros i c cur now Hi. rewrite lookup_map in Hi. by destruct (calls !! i).
    - intros i c Hi. rewrite lookup_map in Hi. destruct (calls !! i) eqn:E; [|done]. injection Hi as <-. by eapply Forall_lookup_1. }
  assert (Hmono : clock S <= clock S').
  { clear -Hrun'. induction Hrun' as [|S1 S2 _ IH Hst]; [done|]. pose proof (step_clock _ _ _ _ Hst). lia. }
  destruct (time_inv_run boot (slot + 1) limit Hboot Hlim _ _ H0 Hrun ltac:(lia)) as [H1 _].
  destruct (time_inv_run boot (slot + 1) limit Hboot Hlim _ _ H1 Hrun' Hclk) as [H2 Hle]. destruct H2 as [_ [_ ?] _ _ _]. lia.
Qed.

Lemma last_change_monotone_witness :
  exists S S', racingFirst = Some S /\
    exec (bootTimeUnixNs sampleEngine) 4 [Tick 9000; Move 1; Move 1; Move 1; Move 1] S = Some S' /\
    relOf (word S) <= relOf (word S') <= clock S' - bootTimeUnixNs sampleEngine.
Proof.
  destruct racingFirst as [S|] eqn:E; [|vm_compute in E; discriminate].
  destruct (exec (bootTimeUnixNs sampleEngine) 4 [Tick 9000; Move 1; Move 1; Move 1; Move 1] S) as [S'|] eqn:E'.
  2: { vm_compute in E. injection E as <-. vm_compute in E'. discriminate. }
  exists S, S'. split; [done|]. split; [done|].
  apply (last_change_monotone sampleEngine 3 racingCalls 2000 S S' sampleEngine_reachable sample_standalone racingCalls_valid).
  - vm_compute. discriminate.
  - vm_compute. discriminate.
  - eapply exec_run; [apply run_refl|exact E].
  - eapply exec_run; [apply run_refl|exact E'].
  - vm_compute in E. injection E as <-. vm_compute in E'. injection E' as <-. by vm_compute.
Defined.

(** ** Fan-out

    A listener is a buffered channel: the events queued, oldest first, its
    capacity, and whether its owner has closed it.  [drops] is the listener's own
    counter ([None] when it did not ask for one).  The event counters are the
    manager's, [None] when not wired.  [holds] and [notified] record the calls of
    the counter cycler's hook and of the notification hook, when they are set. *)
Record listener := {
  queue : list StateChange;
  capacity : Z;
  closed : bool;
  drops : option Z;
}.

Record fanout := {
  listeners : list listener;
  eventsEmitted : option Z;
  eventsDropped : option Z;
  onOper : bool;
  notify : bool;
  holds : list Z;
  notified : list StateChange;
}.

Definition incr (c : option Z) : option Z := (fun n => u64 (n + 1)) <$> c.

(** A rejected channel (unbuffered) is not registered. *)
Definition AddListenerCounting (f : fanout) (ch : listener) : fanout :=
  if capacity ch =? 0 then f else
  {| listeners := listeners f ++ [ch]; eventsEmitted := eventsEmitted f; eventsDropped := eventsDropped f;
     onOper := onOper f; notify := notify f; holds := holds f; notified := notified f |}.

(** The closure passed to [Range]: the listener afterwards and how many events
    were emitted and dropped.  A send on a closed channel panics and is
    recovered: nothing happened. *)
Definition deliver (evt : StateChange) (ch : listener) : listener * bool * Z :=
  let with_queue q d := {| queue := q; capacity := capacity ch; closed := closed ch; drops := d |} in
  if closed ch then (ch, false, 0)
  else if len (queue ch) <? capacity ch then (with_queue (queue ch ++ [evt]) (drops ch), true, 0)
  else
    let '(q, d, n) := match queue ch with
                      | _ :: q => (q, incr (drops ch), 1)
                      | [] => ([], drops ch, 0)
                      end in
    if len q <? capacity ch then (with_queue (q ++ [evt]) d, true, n)
    else (with_queue q (incr d), false, n + 1).

Fixpoint range_listeners (evt : StateChange) (chs : list listener) (emitted dropped : option Z)
    : list listener * option Z * option Z :=
  match chs with
  | [] => ([], emitted, dropped)
  | ch :: chs' =>
      let '(ch', sent, n) := deliver evt ch in
      let emitted := if sent then incr emitted else emitted in
      let dropped := Nat.iter (Z.to_nat n) incr dropped in
      let '(rest, e, d) := range_listeners evt chs' emitted dropped in
      (ch' :: rest, e, d)
  end.

Definition Broadcast (f : fanout) (evt : StateChange) : fanout :=
  if Changed evt =? 0 then f else
  let isOper := negb (Z.land (Changed evt) LeafOperStatus =? 0) in
  let '(chs, emitted, dropped) := range_listeners evt (listeners f) (eventsEmitted f) (eventsDropped f) in
  {| listeners := chs; eventsEmitted := emitted; eventsDropped := dropped;
     onOper := onOper f; notify := notify f;
     holds := if isOper && onOper f then holds f ++ [IfIndex evt] else holds f;
     notified := if isOper && notify f then notified f ++ [evt] else notified f |}.

(** The newest [n] of a list. *)
Definition newest {A} (n : Z) (l : list A) : list A := drop (Z.to_nat (len l - n)) l.

Lemma newest_all {A} n (l : list A) : len l <= n -> newest n l = l.
Proof. intros H. unfold newest. by replace (Z.to_nat (len l - n)) with 0%nat by lia. Qed.

Lemma newest_snoc {A} n (l : list A) x : 1 <= n -> newest n (newest n l ++ [x]) = newest n (l ++ [x]).
Proof.
  intros Hn. unfold newest. rewrite !len_app, !len_cons, len_nil, len_drop.
  pose proof (len_nonneg l). destruct (decide (len l < n)) as [Hl|Hl].
  - replace (Z.to_nat (len l - n)) with 0%nat by lia. rewrite drop_0. f_equal. lia.
  - rewrite !drop_app_le by (rewrite ?length_drop; unfold len in *; lia). rewrite drop_drop. f_equal. f_equal.
    unfold len in *. lia.
Qed.

Lemma deliver_open evt ch :
  closed ch = false -> 1 <= capacity ch -> len (queue ch) <= capacity ch ->
  let '(ch', sent, _) := deliver evt ch in
  queue ch' = newest (capacity ch) (queue ch ++ [evt]) /\ closed ch' = false /\ capacity ch' = capacity ch /\ sent = true.
Proof.
  intros Hc H1 Hl. unfold deliver. rewrite Hc. destruct (len (queue ch) <? capacity ch) eqn:E; zbool.
  - rewrite newest_all; [done|]. rewrite len_app, len_cons, len_nil. lia.
  - destruct (queue ch) as [|x q]; [rewrite len_nil in *; lia|]. rewrite len_cons in *.
    replace (len q <? capacity ch) with true by lia. cbn [queue closed capacity]. split_and!; try done.
    unfold newest. rewrite len_app, !len_cons, len_nil. by replace (Z.to_nat _) with 1%nat by lia.
Qed.

Definition live (ch : listener) : Prop := closed ch = false /\ 1 <= capacity ch /\ len (queue ch) <= capacity ch.

Lemma newest_len {A} n (l : list A) : 0 <= n -> len (newest n l) <= n.
Proof. intros Hn. unfold newest. rewrite len_drop. lia. Qed.

Lemma range_listeners_lookup evt chs e d i ch :
  chs !! i = Some ch -> let '(chs', _, _) := range_listeners evt chs e d in chs' !! i = Some (fst (fst (deliver evt ch))).
Proof.
  revert e d i. induction chs as [|c chs IH]; intros e d i Hi; [done|]. cbn [range_listeners].
  destruct (deliver evt c) as [[c' sent] n] eqn:E.
  destruct (range_listeners evt chs _ _) as [[rest e'] d'] eqn:Er. destruct i as [|i]; cbn in *.
  - injection Hi as <-. by rewrite E.
  - specialize (IH (if sent then incr e else e) (Nat.iter (Z.to_nat n) incr d) i Hi). by rewrite Er in IH.
Qed.

Lemma Broadcast_queue f evt i ch :
  Changed evt <> 0 -> listeners f !! i = Some ch -> live ch ->
  exists ch', listeners (Broadcast f evt) !! i = Some ch' /\ live ch' /\ capacity ch' = capacity ch /\
    queue ch' = newest (capacity ch) (queue ch ++ [evt]).
Proof.
  intros Hev Hi (Hc & H1 & Hl). unfold Broadcast. replace (Changed evt =? 0) with false by lia.
  pose proof (range_listeners_lookup evt (listeners f) (eventsEmitted f) (eventsDropped f) i ch Hi) as Hr.
  destruct (range_listeners _ _ _ _) as [[chs e] d]. exists (fst (fst (deliver evt ch))). split; [exact Hr|].
  pose proof (deliver_open evt ch Hc H1 Hl) as Hd. destruct (deliver evt ch) as [[ch' sent] n]. cbn [fst].
  destruct Hd as (Hq & Hc' & Hcap & _). unfold live. rewrite Hq, Hcap. split_and!; try done. apply newest_len. lia.
Qed.

(** Drop-oldest fan-out.  However fast events arrive and whatever the other
    subscribers do (one that closed its channel without deregistering included),
    a live subscriber's channel always holds the newest events, in order, up to
    its capacity: an overflow costs the oldest ones, never the latest state. *)
Theorem broadcast_keeps_newest f evts i ch :
  Forall (fun e => Changed e <> 0) evts -> listeners f !! i = Some ch -> live ch ->
  exists ch', listeners (fold_left Broadcast evts f) !! i = Some ch' /\
    queue ch' = newest (capacity ch) (queue ch ++ evts).
Proof.
  intros Hev. revert f ch. induction Hev as [|e evts He _ IH]; intros f ch Hi Hl; cbn [fold_left].
  - exists ch. split; [done|]. rewrite app_nil_r. symmetry. apply newest_all. apply Hl.
  - destruct (Broadcast_queue f e i ch He Hi Hl) as (ch1 & Hi1 & Hl1 & Hcap & Hq).
    destruct (IH (Broadcast f e) ch1 Hi1 Hl1) as (ch' & Hi' & Hq'). exists ch'. split; [done|].
    rewrite Hq', Hcap, Hq. destruct Hl as (_ & H1 & _). clear -H1.
    replace (queue ch ++ e :: evts) with ((queue ch ++ [e]) ++ evts) by (by rewrite <- app_assoc).
    generalize (queue ch ++ [e]). intros q. revert q. induction evts as [|x xs IHx] using rev_ind; intros q.
    + rewrite !app_nil_r. apply newest_all, newest_len. lia.
    + rewrite !app_assoc, <- (newest_snoc _ (newest _ q ++ xs)), IHx by done. by apply newest_snoc.
Qed.

Definition sampleEvent (n : Z) : StateChange :=
  {| IfIndex := n; Oper := OperUp; PrevOper := OperDown; Admin := AdminUp; Link := OperUp;
     ev_LastChangeNs := 5; Changed := LeafOperStatus; At := 5 |}.
Definition sampleFanout : fanout :=
  {| listeners := [{| queue := []; capacity := 2; closed := true; drops := None |};
                   {| queue := [sampleEvent 9]; capacity := 2; closed := false; drops := Some 0 |}];
     eventsEmitted := Some 0; eventsDropped := Some 0; onOper := true; notify := true; holds := []; notified := [] |}.

Lemma broadcast_keeps_newest_witness :
  exists ch', listeners (fold_left Broadcast (map sampleEvent [1; 2; 3]) sampleFanout) !! 1%nat = Some ch' /\
    queue ch' = map sampleEvent [2; 3].
Proof.
  apply (broadcast_keeps_newest sampleFanout (map sampleEvent [1; 2; 3]) 1
    {| queue := [sampleEvent 9]; capacity := 2; closed := false; drops := Some 0 |}).
  - repeat constructor; discriminate.
  - reflexivity.
  - split_and!; vm_compute; (done || discriminate).
Defined.
