(* ===== verification/CounterHold.v ===== *)
(** * Counter holds and roll-ups (if_counter_hold.go, if_counter_rollup.go)

    The octets an interface has counted since its device started are read from a
    dial, a function of elapsed time.  While an interface is not up its counters
    hold: a ledger entry per interface records when it went down and how much of
    the dial was skipped while it was.  A subinterface counts a share of its
    parent, an aggregate the sum of its members.  Writers (the oper transitions)
    are serialised by a mutex; readers take no lock and retry when a sequence
    number shows that a writer was active.

    The dial itself and the shares are floating-point arithmetic: [Dials] is a
    parameter, [DialLaws] states what the code relies on.  Instants are integers;
    the code only compares them and hands them to the dial.

    A read is a program of [Load]s of ledger entries, so that an interleaving
    can place a writer between any two of them. *)

From S2P Require Import Prelude IfState.

(** ** Dials, ledger and hierarchy *)

(** [deltaOctetsAt slot t inbound]: octets of the slot's own dial at [t].
    [shareOf slot v]: [uint64(float64(v) * share[slot])]. *)
Record Dials := {
  deltaOctetsAt : Z -> Z -> bool -> Z;
  shareOf : Z -> Z -> Z;
}.

Record counterHold := {
  down : bool;
  downAt : Z;
  upAt : Z;
  skippedIn : Z;
  skippedOut : Z;
}.
Definition skipped (h : counterHold) (inbound : bool) : Z := if inbound then skippedIn h else skippedOut h.

Abbreviation ledger := (list (option counterHold)).

(** [counterParent] is 0 for none; a slot without members has the empty list
    (the code stores lists of two or more).  [members] is [None] for a cycler
    whose hierarchy was never built. *)
Record Rollup := {
  counterParent : list Z;
  members : option (list (list Z));
}.

(** ** Programs of loads *)

Inductive prog (A : Type) :=
| Ret (a : A)
| Load (slot : Z) (k : option counterHold -> prog A)
| Stuck.
Arguments Ret {A} a.
Arguments Load {A} slot k.
Arguments Stuck {A}.

Fixpoint pbind {A B} (p : prog A) (k : A -> prog B) : prog B :=
  match p with
  | Ret a => k a
  | Load s q => Load s (fun h => pbind (q h) k)
  | Stuck => Stuck
  end.
Notation "'do!' x ':=' c 'in' k" := (pbind c (fun x => k)) (at level 10, x name, c at level 100, k at level 200).

(** The whole program against one ledger. *)
Fixpoint run {A} (L : ledger) (p : prog A) : option A :=
  match p with
  | Ret a => Some a
  | Load s k => run L (k (at_slot L s None))
  | Stuck => None
  end.

Lemma run_pbind {A B} L (p : prog A) (k : A -> prog B) :
  run L (pbind p k) = match run L p with Some a => run L (k a) | None => None end.
Proof. induction p as [a|s q IH|]; cbn [pbind run]; [done| |done]. apply IH. Qed.

(** ** Reads *)

(** The instant a read at [t] takes the dial at. *)
Definition clampT (h : counterHold) (t : Z) : Z :=
  let t := if down h && (downAt h <? t) then downAt h else t in
  if t <? upAt h then upAt h else t.

Definition heldDeltaFor (raw : Z -> prog Z) (h : option counterHold) (t : Z) (inbound : bool) : prog Z :=
  match h with
  | None => raw t
  | Some h => do! d := raw (clampT h t) in Ret (if d <? skipped h inbound then 0 else d - skipped h inbound)
  end.

Fixpoint sumServed (served : Z -> prog Z) (ms : list Z) (sum : Z) : prog Z :=
  match ms with
  | [] => Ret sum
  | m :: ms' => do! v := served (m - 1) in sumServed served ms' (u64 (sum + v))
  end.

Section Reads.
Context (D : Dials) (R : Rollup).

(** A read recurses at most child, aggregate, member: three levels. *)
Fixpoint rawDeltaAt (fuel : nat) (slot t : Z) (inbound : bool) : prog Z :=
  match fuel with
  | O => Stuck
  | S fuel' =>
      let servedDeltaAt s :=
        Load s (fun h => heldDeltaFor (fun t => rawDeltaAt fuel' s t inbound) h t inbound) in
      match members R with
      | None => Ret (deltaOctetsAt D slot t inbound)
      | Some mss =>
          match at_slot mss slot [] with
          | _ :: _ => sumServed servedDeltaAt (at_slot mss slot []) 0
          | [] =>
              let p := at_slot (counterParent R) slot 0 in
              if negb (p =? 0) then do! v := servedDeltaAt (p - 1) in Ret (shareOf D slot v)
              else Ret (deltaOctetsAt D slot t inbound)
          end
      end
  end.
Definition levels : nat := 3.

Definition servedDeltaAt (slot t : Z) (inbound : bool) : prog Z :=
  Load slot (fun h => heldDeltaFor (fun t => rawDeltaAt levels slot t inbound) h t inbound).

(** One pass of the retry loop: one load of the slot's own entry for both
    directions.  A cycler without a ledger reads the dial. *)
Definition heldDeltasAt (slots : Z) (slot t : Z) : prog (Z * Z) :=
  if slots <=? slot then Ret (deltaOctetsAt D slot t true, deltaOctetsAt D slot t false)
  else
  Load slot (fun h =>
    do! i := heldDeltaFor (fun t => rawDeltaAt levels slot t true) h t true in
    do! o := heldDeltaFor (fun t => rawDeltaAt levels slot t false) h t false in
    Ret (i, o)).

(** ** Writes *)

(** The new total skipped when a hold that opened at [from] closes at [to]. *)
Definition skipOver (L : ledger) (slot : Z) (h : counterHold) (from to : Z) (inbound : bool) : option Z :=
  match run L (rawDeltaAt levels slot to inbound), run L (rawDeltaAt levels slot from inbound) with
  | Some a, Some b => Some (u64 (skipped h inbound + a - b))
  | _, _ => None
  end.

(** The switch of [reconcileHoldAt]: [up] is the engine's answer, [t] the clock
    sampled inside the write bracket.  The mutex excludes other writers, so the
    dial is read against one ledger. *)
Definition reconcile (L : ledger) (slot : Z) (up : bool) (t : Z) : option ledger :=
  let put h := Some (<[Z.to_nat slot := Some h]> L) in
  match up, at_slot L slot None with
  | true, Some h =>
      if down h then
        let t := if t <? downAt h then downAt h else t in
        match skipOver L slot h (downAt h) t true, skipOver L slot h (downAt h) t false with
        | Some i, Some o => put {| down := false; downAt := 0; upAt := t; skippedIn := i; skippedOut := o |}
        | _, _ => None
        end
      else Some L
  | true, None => Some L
  | false, Some h =>
      if down h then Some L
      else put {| down := true; downAt := t; upAt := upAt h; skippedIn := skippedIn h; skippedOut := skippedOut h |}
  | false, None => put {| down := true; downAt := t; upAt := 0; skippedIn := 0; skippedOut := 0 |}
  end.

(** Its guards, with the engine's answer given. *)
Definition holdWrite (known : list Z) (L : ledger) (ifIndex : Z) (up : bool) (t : Z) : option ledger :=
  let slot := ifIndex - 1 in
  if (slot <? 0) || (len L <=? slot) then Some L
  else if negb (existsb (Z.eqb ifIndex) known) then Some L
  else reconcile L slot up t.

Definition reconcileHoldAt (known : list Z) (state : option InterfaceState) (L : ledger) (ifIndex t : Z) : option ledger :=
  match state with
  | None => Some L
  | Some s => holdWrite known L ifIndex (OperStatus s ifIndex =? OperUp) t
  end.

Definition seedHold (s : InterfaceState) (L : ledger) (idx : Z) : ledger :=
  if OperStatus s idx =? OperUp then L
  else <[Z.to_nat (idx - 1) := Some {| down := true; downAt := 0; upAt := 0; skippedIn := 0; skippedOut := 0 |}]> L.
Definition seedHolds (known : list Z) (s : InterfaceState) (L : ledger) : ledger :=
  fold_left (seedHold s) known L.

End Reads.

(** ** What a read computes *)

Definition sumZ {A} (f : A -> Z) (l : list A) : Z := foldr (fun x acc => f x + acc) 0 l.

Lemma sumZ_le {A} (f g : A -> Z) l : (forall x, x ∈ l -> f x <= g x) -> sumZ f l <= sumZ g l.
Proof.
  induction l as [|x l IH]; intros H; cbn [sumZ foldr]; [lia|]. fold (sumZ f l) (sumZ g l).
  pose proof (H x ltac:(left)). assert (sumZ f l <= sumZ g l) by (apply IH; intros; apply H; by right). lia.
Qed.
Lemma sumZ_ext {A} (f g : A -> Z) l : (forall x, x ∈ l -> f x = g x) -> sumZ f l = sumZ g l.
Proof. intros H. apply Z.le_antisymm; apply sumZ_le; intros x Hx; rewrite (H x Hx); lia. Qed.
Lemma sumZ_nonneg {A} (f : A -> Z) l : (forall x, x ∈ l -> 0 <= f x) -> 0 <= sumZ f l.
Proof.
  intros H. etransitivity; [|by apply (sumZ_le (fun _ => 0))]. clear. induction l; cbn [sumZ foldr]; [lia|]. exact IHl.
Qed.

(** How a slot's octets are obtained. *)
Inductive source := Dial | Sum (ms : list Z) | Share (p : Z).

Definition kind (R : Rollup) (slot : Z) : source :=
  match members R with
  | None => Dial
  | Some mss =>
      match at_slot mss slot [] with
      | [] => let p := at_slot (counterParent R) slot 0 in if p =? 0 then Dial else Share p
      | ms => Sum ms
      end
  end.
Definition rank (R : Rollup) (slot : Z) : nat :=
  match kind R slot with Dial => 0 | Sum _ => 1 | Share _ => 2 end.

Definition heldZ (raw : Z -> Z) (h : option counterHold) (t : Z) (inbound : bool) : Z :=
  match h with
  | None => raw t
  | Some h => let d := raw (clampT h t) in if d <? skipped h inbound then 0 else d - skipped h inbound
  end.

Fixpoint rawZ (D : Dials) (R : Rollup) (L : ledger) (n : nat) (slot t : Z) (inbound : bool) : Z :=
  match n with
  | O => 0
  | S n' =>
      let served s := heldZ (fun t => rawZ D R L n' s t inbound) (at_slot L s None) t inbound in
      match kind R slot with
      | Dial => deltaOctetsAt D slot t inbound
      | Sum ms => sumZ (fun m => served (m - 1)) ms
      | Share p => shareOf D slot (served (p - 1))
      end
  end.

(** The hierarchy of [slots] interfaces is at most three levels deep: members
    are plain, and a parent is plain or an aggregate. *)
Definition hierarchy_ok (R : Rollup) (slots : Z) : Prop :=
  forall slot, 0 <= slot < slots ->
    match kind R slot with
    | Dial => True
    | Sum ms => forall m, m ∈ ms -> 1 <= m <= slots /\ kind R (m - 1) = Dial
    | Share p => 1 <= p <= slots /\ (rank R (p - 1) <= 1)%nat
    end.

(** What the code relies on of its floating-point arithmetic, up to an instant
    [horizon]: a dial counts up and stays a 64-bit value, also summed over the
    members of an aggregate; a share is a monotone part of the whole, and the
    shares of one parent's children are together no more than the parent. *)
Class DialLaws (D : Dials) (R : Rollup) (slots horizon : Z) : Prop := {
  dial_range : forall s t b, 0 <= t <= horizon -> 0 <= deltaOctetsAt D s t b < 2 ^ 64;
  dial_mono : forall s t t' b, 0 <= t <= t' -> t' <= horizon -> deltaOctetsAt D s t b <= deltaOctetsAt D s t' b;
  members_fit : forall s ms t b, kind R s = Sum ms -> 0 <= t <= horizon ->
    sumZ (fun m => deltaOctetsAt D (m - 1) t b) ms < 2 ^ 64;
  share_range : forall s v, 0 <= v < 2 ^ 64 -> 0 <= shareOf D s v <= v;
  share_mono : forall s v v', 0 <= v <= v' -> v' < 2 ^ 64 -> shareOf D s v <= shareOf D s v';
  siblings_share : forall p cs v, NoDup cs -> (forall c, c ∈ cs -> 0 <= c < slots /\ kind R c = Share p) -> 0 <= v < 2 ^ 64 ->
    sumZ (fun c => shareOf D c v) cs <= v;
}.

Section Semantics.
Context (D : Dials) (R : Rollup) (slots horizon : Z).
Context `{!DialLaws D R slots horizon}.
Hypothesis Hier : hierarchy_ok R slots.

Definition raw (L : ledger) (slot t : Z) (b : bool) : Z := rawZ D R L levels slot t b.
Definition served (L : ledger) (slot t : Z) (b : bool) : Z := heldZ (fun t => raw L slot t b) (at_slot L slot None) t b.

Lemma heldZ_ext f g h t b : (forall t, f t = g t) -> heldZ f h t b = heldZ g h t b.
Proof. intros H. destruct h as [h|]; cbn [heldZ]; [|done]. by rewrite H. Qed.

Lemma rawZ_S L n slot t b :
  rawZ D R L (S n) slot t b =
  match kind R slot with
  | Dial => deltaOctetsAt D slot t b
  | Sum ms => sumZ (fun m => heldZ (fun t => rawZ D R L n (m - 1) t b) (at_slot L (m - 1) None) t b) ms
  | Share p => shareOf D slot (heldZ (fun t => rawZ D R L n (p - 1) t b) (at_slot L (p - 1) None) t b)
  end.
Proof. reflexivity. Qed.

Lemma rawZ_fuel L : forall n m slot t b, 0 <= slot < slots -> (rank R slot < n)%nat -> (rank R slot < m)%nat ->
  rawZ D R L n slot t b = rawZ D R L m slot t b.
Proof.
  induction n as [|n IH]; intros [|m] slot t b Hs Hn Hm; try lia. rewrite !rawZ_S.
  pose proof (Hier slot Hs) as Hh. unfold rank in *. destruct (kind R slot) as [|ms|p] eqn:Ek; [done| |].
  - apply sumZ_ext. intros x Hx. destruct (Hh x Hx) as [Hr Hk]. apply heldZ_ext. intros t'.
    apply IH; rewrite ?Hk; lia.
  - f_equal. destruct Hh as [Hr Hk]. apply heldZ_ext. intros t'. apply IH; lia.
Qed.

(** The defining equations of [raw], one per kind of slot. *)
Lemma raw_eq L slot t b : 0 <= slot < slots ->
  raw L slot t b =
  match kind R slot with
  | Dial => deltaOctetsAt D slot t b
  | Sum ms => sumZ (fun m => served L (m - 1) t b) ms
  | Share p => shareOf D slot (served L (p - 1) t b)
  end.
Proof.
  intros Hs. unfold raw at 1, levels. rewrite rawZ_S. pose proof (Hier slot Hs) as Hh. unfold rank in *.
  destruct (kind R slot) as [|ms|p] eqn:Ek; [done| |].
  - apply sumZ_ext. intros x Hx. destruct (Hh x Hx) as [Hr Hk]. apply heldZ_ext. intros t'.
    apply rawZ_fuel; unfold rank; rewrite ?Hk; unfold levels; lia.
  - f_equal. destruct Hh as [Hr Hk]. apply heldZ_ext. intros t'. apply rawZ_fuel; unfold rank; unfold levels; lia.
Qed.

(** Induction along the hierarchy. *)
Lemma slot_ind (P : Z -> Prop) :
  (forall slot, 0 <= slot < slots -> kind R slot = Dial -> P slot) ->
  (forall slot ms, 0 <= slot < slots -> kind R slot = Sum ms ->
     (forall m, m ∈ ms -> 0 <= m - 1 < slots /\ kind R (m - 1) = Dial /\ P (m - 1)) -> P slot) ->
  (forall slot p, 0 <= slot < slots -> kind R slot = Share p -> 0 <= p - 1 < slots -> P (p - 1) -> P slot) ->
  forall slot, 0 <= slot < slots -> P slot.
Proof.
  intros H0 H1 H2.
  assert (Hsum : forall slot, 0 <= slot < slots -> (rank R slot <= 1)%nat -> P slot).
  { intros slot Hs Hr. pose proof (Hier slot Hs) as Hh. unfold rank in Hr. destruct (kind R slot) as [|ms|p] eqn:Ek; [by apply H0| |lia].
    apply (H1 slot ms Hs Ek). intros m Hm. destruct (Hh m Hm) as [? ?]. split_and!; [lia|lia|done|]. apply H0; [lia|done]. }
  intros slot Hs. destruct (kind R slot) as [|ms|p] eqn:Ek; [by apply H0|apply Hsum; [done|unfold rank; rewrite Ek; lia]|].
  pose proof (Hier slot Hs) as Hh. rewrite Ek in Hh. apply (H2 slot p Hs Ek); [lia|]. apply Hsum; [lia|apply Hh].
Qed.

(** ** A well-formed ledger

    Every instant of an entry is in the past, a hold opened no earlier than the
    last one closed, and no more has been skipped than the slot had counted when
    its last hold closed. *)
Definition entry_ok (L : ledger) (now slot : Z) : Prop :=
  match at_slot L slot None with
  | None => True
  | Some h => 0 <= upAt h <= now /\ (down h = true -> upAt h <= downAt h <= now) /\
              forall b, 0 <= skipped h b <= raw L slot (upAt h) b
  end.
Definition ledger_ok (L : ledger) (now : Z) : Prop :=
  len L = slots /\ 0 <= now <= horizon /\ forall slot, 0 <= slot < slots -> entry_ok L now slot.

Definition entry_times (h : counterHold) (now : Z) : Prop :=
  0 <= upAt h <= now /\ (down h = true -> upAt h <= downAt h <= now).

Lemma clampT_range h now t T : entry_times h now -> now <= T -> 0 <= t <= T -> upAt h <= clampT h t <= T.
Proof. intros [H1 H2] ? ?. unfold clampT. destruct (down h); simpl; repeat case_if; lia. Qed.
Lemma clampT_mono h t t' : t <= t' -> clampT h t <= clampT h t'.
Proof. intros. unfold clampT. destruct (down h); simpl; repeat case_if; lia. Qed.

Definition counts_up (f : Z -> bool -> Z) : Prop :=
  (forall t b, 0 <= t <= horizon -> 0 <= f t b < 2 ^ 64) /\
  (forall t t' b, 0 <= t <= t' -> t' <= horizon -> f t b <= f t' b).

(** On a well-formed entry the guard against an underflow never fires. *)
Lemma served_exact L now slot t b h :
  ledger_ok L now -> 0 <= slot < slots -> counts_up (raw L slot) -> 0 <= t <= horizon ->
  at_slot L slot None = Some h ->
  served L slot t b = raw L slot (clampT h t) b - skipped h b /\ skipped h b <= raw L slot (clampT h t) b.
Proof.
  intros (_ & Hnow & Hok) Hs [Hr Hm] Ht Hh. pose proof (Hok slot Hs) as He. unfold entry_ok in He. rewrite Hh in He.
  destruct He as (H1 & H2 & H3). unfold served. rewrite Hh. cbn [heldZ].
  pose proof (clampT_range h now t horizon ltac:(split; [lia|done]) ltac:(lia) Ht) as Hc.
  pose proof (Hm (upAt h) (clampT h t) b ltac:(lia) ltac:(lia)). specialize (H3 b).
  destruct (_ <? _) eqn:E; zbool; [lia|]. split; [done|lia].
Qed.

Lemma served_counts_up L now slot :
  ledger_ok L now -> 0 <= slot < slots -> counts_up (raw L slot) ->
  counts_up (served L slot) /\ (forall t b, 0 <= t <= horizon -> served L slot t b <= raw L slot horizon b).
Proof.
  intros HL Hs Hraw. destruct (at_slot L slot None) as [h|] eqn:Hh.
  - assert (Ht : entry_times h now).
    { destruct HL as (_ & _ & Hok). specialize (Hok slot Hs). unfold entry_ok in Hok. rewrite Hh in Hok. by destruct Hok as (? & ? & _). }
    assert (Hsk : forall b, 0 <= skipped h b).
    { intros b. destruct HL as (_ & _ & Hok). specialize (Hok slot Hs). unfold entry_ok in Hok. rewrite Hh in Hok. apply Hok. }
    pose proof Hraw as [Hr Hm]. pose proof HL as (_ & Hnow & _).
    assert (Hc : forall t, 0 <= t <= horizon -> 0 <= clampT h t <= horizon).
    { intros t Ht'. pose proof (clampT_range h now t horizon Ht ltac:(lia) Ht'). destruct Ht as [? _]. lia. }
    split; [split|].
    + intros t b Ht'. destruct (served_exact L now slot t b h HL Hs Hraw Ht' Hh) as [-> ?].
      pose proof (Hr (clampT h t) b (Hc t Ht')). pose proof (Hsk b). lia.
    + intros t t' b Ht' Hh'. destruct (served_exact L now slot t b h HL Hs Hraw ltac:(lia) Hh) as [-> ?].
      destruct (served_exact L now slot t' b h HL Hs Hraw ltac:(lia) Hh) as [-> ?].
      pose proof (Hc t ltac:(lia)). pose proof (Hc t' ltac:(lia)). pose proof (clampT_mono h t t' ltac:(lia)).
      pose proof (Hm (clampT h t) (clampT h t') b ltac:(lia) ltac:(lia)). lia.
    + intros t b Ht'. destruct (served_exact L now slot t b h HL Hs Hraw Ht' Hh) as [-> ?]. pose proof (Hc t Ht').
      pose proof (Hm (clampT h t) horizon b ltac:(lia) ltac:(lia)). pose proof (Hsk b). lia.
  - destruct Hraw as [Hr Hm]. unfold served, counts_up. rewrite Hh. cbn [heldZ]. split_and!; [done|done|].
    intros t b Ht. apply Hm; lia.
Qed.

(** Every slot counts up, whatever its place in the hierarchy. *)
Lemma raw_counts_up L now : ledger_ok L now -> forall slot, 0 <= slot < slots -> counts_up (raw L slot).
Proof.
  intros HL. apply slot_ind.
  - intros slot Hs Hk. split; intros; rewrite !raw_eq, Hk by done; [by apply dial_range|by apply dial_mono].
  - intros slot ms Hs Hk IH.
    assert (Hsv : forall m, m ∈ ms -> counts_up (served L (m - 1)) /\
        forall t b, 0 <= t <= horizon -> served L (m - 1) t b <= deltaOctetsAt D (m - 1) horizon b).
    { intros m Hm. destruct (IH m Hm) as (Hr & Hkm & Hc). destruct (served_counts_up L now (m - 1) HL Hr Hc) as [H1 H2].
      split; [done|]. intros t b Ht. specialize (H2 t b Ht). by rewrite raw_eq, Hkm in H2. }
    split.
    + intros t b Ht. rewrite raw_eq, Hk by done. split.
      * apply sumZ_nonneg. intros m Hm. by apply (Hsv m Hm).
      * eapply Z.le_lt_trans; [apply sumZ_le; intros m Hm; by apply (Hsv m Hm)|].
        apply (members_fit slot ms horizon b); [done|]. lia.
    + intros t t' b Ht Ht'. rewrite !raw_eq, Hk by done. apply sumZ_le. intros m Hm. by apply (Hsv m Hm).
  - intros slot p Hs Hk Hp Hc. destruct (served_counts_up L now (p - 1) HL Hp Hc) as [[H1 H2] _]. split.
    + intros t b Ht. rewrite raw_eq, Hk by done. pose proof (H1 t b Ht). pose proof (share_range slot (served L (p - 1) t b) ltac:(lia)). lia.
    + intros t t' b Ht Ht'. rewrite !raw_eq, Hk by done. apply share_mono; [|apply H1; lia].
      pose proof (H1 t b ltac:(lia)). pose proof (H2 t t' b ltac:(lia) ltac:(lia)). lia.
Qed.

Lemma served_counts L now : ledger_ok L now -> forall slot, 0 <= slot < slots -> counts_up (served L slot).
Proof. intros HL slot Hs. apply (served_counts_up L now slot HL Hs). by eapply raw_counts_up. Qed.

(** ** The programs compute it *)

Lemma run_sumServed L (sv : Z -> prog Z) (f : Z -> Z) ms : forall acc,
  (forall m, m ∈ ms -> run L (sv (m - 1)) = Some (f m) /\ 0 <= f m) -> 0 <= acc -> acc + sumZ f ms < 2 ^ 64 ->
  run L (sumServed sv ms acc) = Some (acc + sumZ f ms).
Proof.
  induction ms as [|m ms IH]; intros acc Hsv Hacc Hfit; cbn [sumServed run sumZ foldr]; [f_equal; lia|]. fold (sumZ f ms).
  cbn [sumZ foldr] in Hfit. fold (sumZ f ms) in Hfit. destruct (Hsv m ltac:(left)) as [Hm Hm0].
  assert (0 <= sumZ f ms) by (apply sumZ_nonneg; intros x Hx; apply Hsv; by right).
  rewrite run_pbind, Hm. unfold u64. rewrite Z.mod_small by lia.
  rewrite IH; [f_equal; lia|intros x Hx; apply Hsv; by right|lia|lia].
Qed.

Lemma entry_times_of L now slot h :
  ledger_ok L now -> 0 <= slot < slots -> at_slot L slot None = Some h -> entry_times h now.
Proof. intros (_ & _ & Hok) Hs Hh. specialize (Hok slot Hs). unfold entry_ok in Hok. rewrite Hh in Hok. by destruct Hok as (? & ? & _). Qed.

Lemma run_held L now slot t b (f : Z -> prog Z) (g : Z -> Z) :
  ledger_ok L now -> 0 <= slot < slots -> 0 <= t <= horizon ->
  (forall t, 0 <= t <= horizon -> run L (f t) = Some (g t)) ->
  run L (heldDeltaFor f (at_slot L slot None) t b) = Some (heldZ g (at_slot L slot None) t b).
Proof.
  intros HL Hs Ht Hf. destruct (at_slot L slot None) as [h|] eqn:Hh; cbn [heldDeltaFor heldZ]; [|by apply Hf].
  pose proof (entry_times_of L now slot h HL Hs Hh) as He. pose proof HL as (_ & Hnow & _).
  pose proof (clampT_range h now t horizon He ltac:(lia) Ht). destruct He as [He _].
  rewrite run_pbind, Hf by lia. done.
Qed.

Lemma run_raw L now : ledger_ok L now -> forall n slot t b, 0 <= slot < slots -> (rank R slot < n)%nat ->
  0 <= t <= horizon -> run L (rawDeltaAt D R n slot t b) = Some (raw L slot t b).
Proof.
  intros HL. induction n as [|n IH]; intros slot t b Hs Hn Ht; [lia|].
  assert (Hsv : forall s, 0 <= s < slots -> (rank R s < n)%nat ->
    run L (Load s (fun h => heldDeltaFor (fun t => rawDeltaAt D R n s t b) h t b)) = Some (served L s t b)).
  { intros s Hs' Hr. cbn [run]. apply (run_held L now s t b); try done. intros t' Ht'. by apply IH. }
  pose proof (proj1 (raw_counts_up L now HL slot Hs) t b Ht) as Hfit.
  pose proof (Hier slot Hs) as Hh. rewrite raw_eq in * by done. cbn [rawDeltaAt]. unfold rank, kind in *.
  destruct (members R) as [mss|] eqn:Em; [|done]. destruct (at_slot mss slot []) as [|m0 ms] eqn:Es.
  - destruct (at_slot (counterParent R) slot 0 =? 0) eqn:Ep; cbn [negb]; [done|].
    rewrite run_pbind, Hsv; [done|lia|]. destruct Hh as [_ Hh]. lia.
  - replace (Some (sumZ (fun m => served L (m - 1) t b) (m0 :: ms))) with (Some (0 + sumZ (fun m => served L (m - 1) t b) (m0 :: ms))) by done.
    apply run_sumServed; [|lia|lia]. intros m Hm. destruct (Hh m Hm) as [Hr Hk].
    split; [apply Hsv; [lia|]|apply (served_counts L now HL (m - 1) ltac:(lia)); lia].
    rewrite Hk. lia.
Qed.

Lemma rank_levels slot : (rank R slot < levels)%nat.
Proof. unfold rank, levels. destruct (kind R slot); lia. Qed.

Lemma run_heldDeltasAt L now slot t :
  ledger_ok L now -> 0 <= slot < slots -> 0 <= t <= horizon ->
  run L (heldDeltasAt D R (len L) slot t) = Some (served L slot t true, served L slot t false).
Proof.
  intros HL Hs Ht. pose proof HL as (Hlen & _ & _). unfold heldDeltasAt. replace (len L <=? slot) with false by lia. cbn [run].
  assert (Hb : forall b, run L (heldDeltaFor (fun t => rawDeltaAt D R levels slot t b) (at_slot L slot None) t b) = Some (served L slot t b)).
  { intros b. apply (run_held L now slot t b); try done. intros. apply (run_raw L now); try done. apply rank_levels. }
  by rewrite run_pbind, Hb, run_pbind, Hb.
Qed.

(** ** Writes raise what readers see *)

Lemma at_slot_put (L : ledger) slot h j :
  len L = slots -> 0 <= slot < slots -> 0 <= j < slots ->
  at_slot (<[Z.to_nat slot := h]> L) j None = if j =? slot then h else at_slot L j None.
Proof. intros Hl Hs Hj. apply at_slot_insert; lia. Qed.

(** A slot does not depend on its own entry. *)
Lemma raw_put L slot h t b : len L = slots -> 0 <= slot < slots ->
  raw (<[Z.to_nat slot := h]> L) slot t b = raw L slot t b.
Proof.
  intros Hl Hs. set (L' := <[Z.to_nat slot := h]> L).
  assert (H : forall j, 0 <= j < slots -> (rank R j <= rank R slot)%nat -> forall t b, raw L' j t b = raw L j t b).
  { assert (Hsv : forall j t b, 0 <= j < slots -> j <> slot -> (forall t, raw L' j t b = raw L j t b) -> served L' j t b = served L j t b).
    { intros j t' b' Hj Hne Hr. unfold served, L'. rewrite at_slot_put by done. replace (j =? slot) with false by lia. by apply heldZ_ext. }
    refine (slot_ind _ _ _ _).
    - intros j Hj Hk _ t' b'. by rewrite !raw_eq, Hk by done.
    - intros j ms Hj Hk IH Hr t' b'. rewrite !raw_eq, Hk by done. apply sumZ_ext. intros m Hm. destruct (IH m Hm) as (Hm1 & Hm2 & Hm3).
      unfold rank in *. rewrite Hk in Hr. apply Hsv; [done|intros <-; rewrite Hm2 in Hr; lia|].
      intros t''. apply Hm3. rewrite Hm2. lia.
    - intros j p Hj Hk Hp IH Hr t' b'. rewrite !raw_eq, Hk by done. f_equal. pose proof (Hier j Hj) as Hh. rewrite Hk in Hh.
      assert (rank R slot = 2)%nat by (unfold rank in *; rewrite Hk in Hr; destruct (kind R slot); lia).
      apply Hsv; [done|intros E; rewrite E in Hh; lia|]. intros t''. apply IH. lia. }
  apply H; [done|lia].
Qed.

(** Bounds alone need less than a well-formed ledger. *)
Definition entries_past (L : ledger) (now : Z) : Prop :=
  forall j h, 0 <= j < slots -> at_slot L j None = Some h -> entry_times h now /\ forall b, 0 <= skipped h b.

Lemma served_bounded L now : 0 <= now <= horizon -> entries_past L now ->
  forall slot, 0 <= slot < slots -> forall t b, 0 <= t <= horizon -> 0 <= raw L slot t b < 2 ^ 64 /\ 0 <= served L slot t b < 2 ^ 64.
Proof.
  intros Hnow HL.
  assert (Hsv : forall s t b, 0 <= s < slots -> 0 <= t <= horizon ->
    exists t', 0 <= t' <= horizon /\ (0 <= raw L s t' b -> 0 <= served L s t b <= raw L s t' b)).
  { intros s t b Hs Ht. unfold served. destruct (at_slot L s None) as [h|] eqn:Hh; cbn [heldZ]; [|exists t; split; [done|lia]].
    destruct (HL s h Hs Hh) as [He Hsk]. pose proof (clampT_range h now t horizon He ltac:(lia) Ht) as Hc. destruct He as [He _].
    exists (clampT h t). split; [lia|]. specialize (Hsk b). case_if; lia. }
  assert (Hraw : forall slot, 0 <= slot < slots -> forall t b, 0 <= t <= horizon -> 0 <= raw L slot t b < 2 ^ 64).
  { refine (slot_ind _ _ _ _).
    - intros s Hs Hk t b Ht. rewrite raw_eq, Hk by done. by apply dial_range.
    - intros s ms Hs Hk IH t b Ht. rewrite raw_eq, Hk by done.
      assert (Hm : forall m, m ∈ ms -> 0 <= served L (m - 1) t b <= deltaOctetsAt D (m - 1) horizon b).
      { intros m Hm. destruct (IH m Hm) as (Hm1 & Hm2 & _). destruct (Hsv (m - 1) t b Hm1 Ht) as (t' & Ht' & H).
        rewrite raw_eq, Hm2 in H by done. pose proof (dial_range (m - 1) t' b Ht') as Hd. specialize (H (proj1 Hd)).
        pose proof (dial_mono (m - 1) t' horizon b Ht' (Z.le_refl _)). lia. }
      split; [apply sumZ_nonneg; intros m Hin; by apply Hm|].
      eapply Z.le_lt_trans; [apply sumZ_le; intros m Hin; by apply Hm|]. apply (members_fit s ms horizon b); [done|lia].
    - intros s p Hs Hk Hp IH t b Ht. rewrite raw_eq, Hk by done. destruct (Hsv (p - 1) t b Hp Ht) as (t' & Ht' & H).
      pose proof (IH t' b Ht') as Hr. specialize (H (proj1 Hr)).
      pose proof (share_range s (served L (p - 1) t b) ltac:(lia)). lia. }
  intros slot Hs t b Ht. destruct (Hsv slot t b Hs Ht) as (t' & Ht' & H).
  split; [by apply Hraw|]. pose proof (Hraw slot Hs t' b Ht') as Hr. specialize (H (proj1 Hr)). lia.
Qed.

(** What a new entry must satisfy: its instants are past, it skips no more than
    was counted, and whatever was served up to the instant of the write is still
    served, also when the slot's own source has been raised meanwhile. *)
Definition entry_raises (L : ledger) (tau slot : Z) (h : counterHold) : Prop :=
  entry_times h tau /\ (forall b, 0 <= skipped h b <= raw L slot (upAt h) b) /\
  forall f t b, (forall t, 0 <= t <= tau -> raw L slot t b <= f t) -> 0 <= t <= tau ->
    served L slot t b <= heldZ f (Some h) t b.

Lemma put_raises L tau slot h :
  ledger_ok L tau -> 0 <= slot < slots -> entry_raises L tau slot h ->
  let L' := <[Z.to_nat slot := Some h]> L in
  ledger_ok L' tau /\
  (forall j, 0 <= j < slots -> forall t b, 0 <= t <= tau -> raw L j t b <= raw L' j t b /\ served L j t b <= served L' j t b).
Proof.
  intros HL Hs (He1 & He2 & He3) L'. pose proof HL as (Hl & Htau & Hok).
  assert (Hsv : forall j, 0 <= j < slots -> (forall t b, 0 <= t <= tau -> raw L j t b <= raw L' j t b) ->
                forall t b, 0 <= t <= tau -> served L j t b <= served L' j t b).
  { intros j Hj Hr t b Ht. unfold served at 2, L'. rewrite at_slot_put by done. fold L'. case_if; zbool.
    - subst j. apply He3; [|done]. intros t' Ht'. by apply Hr.
    - unfold served. destruct (at_slot L j None) as [h'|] eqn:Hh; cbn [heldZ]; [|by apply Hr].
      pose proof (entry_times_of L tau j h' HL Hj Hh) as Het.
      pose proof (clampT_range h' tau t tau Het ltac:(lia) Ht). destruct Het as [Het _].
      specialize (Hr (clampT h' t) b ltac:(lia)). repeat case_if; lia. }
  assert (Hr' : forall j, 0 <= j < slots -> forall t b, 0 <= t <= horizon -> served L' j t b < 2 ^ 64).
  { intros j Hj t b Ht. apply (served_bounded L' tau); try done. intros i h' Hi. unfold L'. rewrite at_slot_put by done. case_if.
    - intros [= <-]. split; [done|]. intros b'. by apply He2.
    - intros Hh. split; [by eapply entry_times_of|]. intros b'. specialize (Hok i Hi). unfold entry_ok in Hok. rewrite Hh in Hok. apply Hok. }
  assert (Hraw : forall j, 0 <= j < slots -> forall t b, 0 <= t <= tau -> raw L j t b <= raw L' j t b).
  { refine (slot_ind _ _ _ _).
    - intros j Hj Hk t b Ht. rewrite !raw_eq, Hk by done. lia.
    - intros j ms Hj Hk IH t b Ht. rewrite !raw_eq, Hk by done. apply sumZ_le. intros m Hm.
      destruct (IH m Hm) as (Hm1 & _ & Hm3). by apply Hsv.
    - intros j p Hj Hk Hp IH t b Ht. rewrite !raw_eq, Hk by done.
      apply share_mono; [|apply Hr'; [done|lia]]. split; [|by apply Hsv].
      apply (served_counts L tau HL (p - 1) Hp). lia. }
  split; [|intros j Hj t b Ht; split; [by apply Hraw|by apply Hsv; [|apply Hraw|]]].
  split_and!; [unfold L', len; by rewrite length_insert|lia|lia|]. intros j Hj. unfold entry_ok, L'. rewrite at_slot_put by done. case_if; zbool.
  - subst j. fold L'. destruct He1 as [H1 H2]. split_and!; [lia|lia|done|]. intros b. rewrite raw_put by done. apply He2.
  - specialize (Hok j Hj). unfold entry_ok in Hok. destruct (at_slot L j None) as [h'|]; [|done].
    destruct Hok as (H1 & H2 & H3). split_and!; [lia|lia|done|]. intros b. specialize (H3 b).
    pose proof (Hraw j Hj (upAt h') b ltac:(lia)). fold L'. lia.
Qed.

Definition opened (oh : option counterHold) (tau : Z) : counterHold :=
  match oh with
  | Some h => {| down := true; downAt := tau; upAt := upAt h; skippedIn := skippedIn h; skippedOut := skippedOut h |}
  | None => {| down := true; downAt := tau; upAt := 0; skippedIn := 0; skippedOut := 0 |}
  end.
Definition closed_at (L : ledger) (slot : Z) (h : counterHold) (tau : Z) : counterHold :=
  let sk b := skipped h b + raw L slot tau b - raw L slot (downAt h) b in
  {| down := false; downAt := 0; upAt := tau; skippedIn := sk true; skippedOut := sk false |}.

Definition is_down (oh : option counterHold) : bool := match oh with Some h => down h | None => false end.

Lemma open_raises L tau slot :
  ledger_ok L tau -> 0 <= slot < slots -> is_down (at_slot L slot None) = false ->
  entry_raises L tau slot (opened (at_slot L slot None) tau).
Proof.
  intros HL Hs Hd. pose proof HL as (_ & Htau & Hok). pose proof (Hok slot Hs) as He. unfold entry_ok in He.
  unfold served. destruct (at_slot L slot None) as [h|] eqn:Hh; cbn [opened is_down heldZ] in *.
  - destruct He as (H1 & H2 & H3). unfold entry_raises, entry_times. cbn [upAt down downAt]. split_and!; try lia; [exact H3|].
    intros f t b Hf Ht. unfold served. rewrite Hh. cbn [heldZ].
    assert (Hc : clampT (opened (Some h) tau) t = clampT h t).
    { unfold clampT, opened. cbn [down downAt upAt]. rewrite Hd. cbn [andb]. replace (tau <? t) with false by lia. done. }
    cbn [opened] in Hc. rewrite Hc. change (skipped _ b) with (skipped h b) at 3 4.
    pose proof (clampT_range h tau t tau ltac:(split; [lia|rewrite Hd; done]) ltac:(lia) Ht).
    specialize (Hf (clampT h t) ltac:(lia)). repeat case_if; lia.
  - unfold entry_raises, entry_times. cbn [upAt down downAt]. split_and!; try lia.
    + intros b. pose proof (proj1 (raw_counts_up L tau HL slot Hs) 0 b ltac:(lia)). destruct b; cbn [skipped skippedIn skippedOut]; lia.
    + intros f t b Hf Ht. unfold served. rewrite Hh. cbn [heldZ].
      pose proof (proj1 (raw_counts_up L tau HL slot Hs) t b ltac:(lia)). specialize (Hf t Ht).
      unfold clampT. cbn [down downAt upAt andb]. replace (tau <? t) with false by lia. replace (t <? 0) with false by lia.
      destruct b; cbn [skipped skippedIn skippedOut]; case_if; lia.
Qed.

Lemma skipped_closed L slot h tau b :
  skipped (closed_at L slot h tau) b = skipped h b + raw L slot tau b - raw L slot (downAt h) b.
Proof. by destruct b. Qed.

Lemma close_raises L tau slot h :
  ledger_ok L tau -> 0 <= slot < slots -> at_slot L slot None = Some h -> down h = true ->
  entry_raises L tau slot (closed_at L slot h tau).
Proof.
  intros HL Hs Hh Hd. pose proof HL as (_ & Htau & Hok). pose proof (Hok slot Hs) as He. unfold entry_ok in He. rewrite Hh in He.
  destruct He as (H1 & H2 & H3). specialize (H2 Hd). pose proof (raw_counts_up L tau HL slot Hs) as [_ Hm].
  assert (Hle : forall b, skipped h b <= raw L slot (downAt h) b <= raw L slot tau b).
  { intros b. specialize (H3 b). pose proof (Hm (upAt h) (downAt h) b ltac:(lia) ltac:(lia)).
    pose proof (Hm (downAt h) tau b ltac:(lia) ltac:(lia)). lia. }
  split_and!; [split; cbn; [lia|done]| |].
  - intros b. rewrite skipped_closed. specialize (Hle b). specialize (H3 b). cbn [closed_at upAt]. lia.
  - intros f t b Hf Ht. unfold served. rewrite Hh. cbn [heldZ]. rewrite skipped_closed.
    assert (Hc : clampT (closed_at L slot h tau) t = tau).
    { unfold clampT. cbn [closed_at down upAt andb]. case_if; lia. }
    rewrite Hc. specialize (Hf tau ltac:(lia)). specialize (Hle b).
    assert (Hct : 0 <= clampT h t <= downAt h) by (unfold clampT; rewrite Hd; simpl; repeat case_if; lia).
    pose proof (Hm (clampT h t) (downAt h) b ltac:(lia) ltac:(lia)). repeat case_if; lia.
Qed.

(** The ledger after a transition. *)
Definition after (L : ledger) (slot : Z) (up : bool) (tau : Z) : ledger :=
  match up, at_slot L slot None with
  | true, Some h => if down h then <[Z.to_nat slot := Some (closed_at L slot h tau)]> L else L
  | true, None => L
  | false, oh => if is_down oh then L else <[Z.to_nat slot := Some (opened oh tau)]> L
  end.

Lemma skipOver_run L tau slot h b :
  ledger_ok L tau -> 0 <= slot < slots -> at_slot L slot None = Some h -> down h = true ->
  skipOver D R L slot h (downAt h) tau b = Some (skipped (closed_at L slot h tau) b).
Proof.
  intros HL Hs Hh Hd. destruct (close_raises L tau slot h HL Hs Hh Hd) as (_ & Hsk & _).
  pose proof (entry_times_of L tau slot h HL Hs Hh) as [Hu He]. specialize (He Hd). pose proof HL as (_ & Htau & _).
  unfold skipOver. rewrite (run_raw L tau HL levels slot tau), (run_raw L tau HL levels slot (downAt h)) by (try apply rank_levels; lia). rewrite skipped_closed. f_equal.
  pose proof (Hsk b) as Hb. rewrite skipped_closed in Hb. cbn [closed_at upAt] in Hb.
  pose proof (proj1 (raw_counts_up L tau HL slot Hs) tau b ltac:(lia)). unfold u64. apply Z.mod_small. lia.
Qed.

Lemma reconcile_after L tau slot up :
  ledger_ok L tau -> 0 <= slot < slots ->
  reconcile D R L slot up tau = Some (after L slot up tau) /\ ledger_ok (after L slot up tau) tau /\
  forall j, 0 <= j < slots -> forall t b, 0 <= t <= tau -> served L j t b <= served (after L slot up tau) j t b.
Proof.
  intros HL Hs. unfold reconcile, after. destruct up.
  - destruct (at_slot L slot None) as [h|] eqn:Hh; [|split_and!; done]. destruct (down h) eqn:Hd; [|split_and!; done].
    pose proof (entry_times_of L tau slot h HL Hs Hh) as [_ He]. specialize (He Hd). replace (tau <? downAt h) with false by lia.
    rewrite !(skipOver_run L tau slot h) by done.
    destruct (put_raises L tau slot _ HL Hs (close_raises L tau slot h HL Hs Hh Hd)) as [Hok Hr].
    split_and!; [done|done|]. intros j Hj t b Ht. by apply Hr.
  - destruct (is_down (at_slot L slot None)) eqn:Hd.
    + destruct (at_slot L slot None) as [h|]; cbn [is_down] in Hd; [rewrite Hd|done]. split_and!; done.
    + destruct (put_raises L tau slot _ HL Hs (open_raises L tau slot HL Hs Hd)) as [Hok Hr].
      split_and!; [|done|intros j Hj t b Ht; by apply Hr].
      destruct (at_slot L slot None) as [h|]; cbn [is_down] in Hd; [rewrite Hd|]; done.
Qed.

(** ** Freeze and resume *)

Lemma served_put L tau slot h t b :
  ledger_ok L tau -> 0 <= slot < slots ->
  served (<[Z.to_nat slot := Some h]> L) slot t b = heldZ (fun t => raw L slot t b) (Some h) t b.
Proof.
  intros (Hl & _) Hs. unfold served. rewrite at_slot_put, Z.eqb_refl by done. apply heldZ_ext. intros. by apply raw_put.
Qed.

Lemma after_down L tau slot t b :
  ledger_ok L tau -> 0 <= slot < slots -> tau <= t <= horizon ->
  served (after L slot false tau) slot t b = served L slot tau b.
Proof.
  intros HL Hs Ht. pose proof HL as (_ & Htau & _). unfold after. destruct (at_slot L slot None) as [h|] eqn:Hh; cbn [is_down].
  - pose proof (entry_times_of L tau slot h HL Hs Hh) as [Hu He]. destruct (down h) eqn:Hd.
    + specialize (He eq_refl). unfold served. rewrite Hh. cbn [heldZ].
      assert (Hc : forall x, tau <= x -> clampT h x = downAt h) by (intros x Hx; unfold clampT; rewrite Hd; simpl; repeat case_if; lia).
      by rewrite !Hc by lia.
    + rewrite (served_put L tau) by done. unfold served. rewrite Hh. cbn [heldZ opened].
      assert (Hc : clampT h tau = tau) by (unfold clampT; rewrite Hd; simpl; case_if; lia). rewrite Hc.
      assert (Hc' : clampT (opened (Some h) tau) t = tau) by (unfold clampT; cbn [opened down downAt upAt andb]; repeat case_if; lia).
      cbn [opened] in Hc'. rewrite Hc'. done.
  - rewrite (served_put L tau) by done. unfold served. rewrite Hh. cbn [heldZ opened].
    assert (Hc' : clampT (opened None tau) t = tau) by (unfold clampT; cbn [opened down downAt upAt andb]; repeat case_if; lia).
    cbn [opened] in Hc'. rewrite Hc'. pose proof (proj1 (raw_counts_up L tau HL slot Hs) tau b ltac:(lia)).
    destruct b; cbn [skipped skippedIn skippedOut]; case_if; lia.
Qed.

Lemma after_up L tau slot t b :
  ledger_ok L tau -> 0 <= slot < slots -> tau <= t <= horizon ->
  served (after L slot true tau) slot t b = served L slot tau b + (raw L slot t b - raw L slot tau b).
Proof.
  intros HL Hs Ht. pose proof HL as (_ & Htau & _). unfold after. destruct (at_slot L slot None) as [h|] eqn:Hh.
  - pose proof (entry_times_of L tau slot h HL Hs Hh) as [Hu He]. pose proof (raw_counts_up L tau HL slot Hs) as Hc.
    destruct (served_exact L tau slot tau b h HL Hs Hc ltac:(lia) Hh) as [-> Hle]. destruct (down h) eqn:Hd.
    + specialize (He eq_refl). rewrite (served_put L tau) by done. cbn [heldZ]. rewrite skipped_closed.
      assert (Hct : clampT h tau = downAt h) by (unfold clampT; rewrite Hd; simpl; repeat case_if; lia). rewrite Hct in *.
      assert (Hct' : clampT (closed_at L slot h tau) t = t) by (unfold clampT; cbn [closed_at down upAt andb]; case_if; lia).
      rewrite Hct'. pose proof (proj2 Hc tau t b ltac:(lia) ltac:(lia)). case_if; lia.
    + destruct (served_exact L tau slot t b h HL Hs Hc ltac:(lia) Hh) as [-> _].
      assert (Hct : forall x, tau <= x -> clampT h x = x) by (intros; unfold clampT; rewrite Hd; simpl; case_if; lia).
      rewrite !Hct by lia. lia.
  - unfold served. rewrite Hh. cbn [heldZ]. lia.
Qed.

Lemma raw_eq_share L slot p t b : 0 <= slot < slots -> kind R slot = Share p ->
  raw L slot t b = shareOf D slot (served L (p - 1) t b).
Proof. intros Hs Hk. by rewrite raw_eq, Hk. Qed.

(** At the current instant a hold can only lower. *)
Lemma served_le_raw L t slot b : ledger_ok L t -> 0 <= slot < slots -> served L slot t b <= raw L slot t b.
Proof.
  intros HL Hs. pose proof HL as (_ & Ht & Hok). pose proof (raw_counts_up L t HL slot Hs) as Hc.
  destruct (at_slot L slot None) as [h|] eqn:Hh; [|unfold served; rewrite Hh; cbn [heldZ]; lia].
  destruct (served_exact L t slot t b h HL Hs Hc ltac:(lia) Hh) as [-> _].
  pose proof (entry_times_of L t slot h HL Hs Hh) as He. pose proof (clampT_range h t t t He ltac:(lia) ltac:(lia)).
  pose proof (proj2 Hc (clampT h t) t b ltac:(destruct He; lia) ltac:(lia)).
  specialize (Hok slot Hs). unfold entry_ok in Hok. rewrite Hh in Hok. destruct Hok as (_ & _ & Hsk). specialize (Hsk b). lia.
Qed.
End Semantics.

(** ** Readers and writers interleaved

    A writer holds the mutex from [step_enter] to [step_leave]; between them the
    sequence number is odd.  It samples the clock and asks the engine (whose
    answer, [up], is whatever it is at that moment), then stores the entry.  A
    reader samples its instant, waits for an even number, runs its loads one at a
    time and starts over unless the number is unchanged.  [r_since] of an answer
    is how many answers had been given when its reader sampled its instant. *)
Inductive writerPc := Entered (ifIndex : Z) | Sampled (ifIndex : Z) (up : bool) (t : Z) | Stored.

Inductive readerPc :=
| Idle
| Asked (slot t : Z) (since : nat)
| Reading (slot t : Z) (since : nat) (seq : Z) (rest : prog (Z * Z)).

Record reading := { r_slot : Z; r_t : Z; r_since : nat; r_in : Z; r_out : Z }.

Record world := {
  clock : Z;
  holdSeq : Z;
  hold : ledger;
  writer : option writerPc;
  readers : list readerPc;
  answers : list reading;
}.

Definition with_writer (w : world) (seq : Z) (pc : option writerPc) : world :=
  {| clock := clock w; holdSeq := seq; hold := hold w; writer := pc; readers := readers w; answers := answers w |}.
Definition with_reader (w : world) (r : nat) (pc : readerPc) : world :=
  {| clock := clock w; holdSeq := holdSeq w; hold := hold w; writer := writer w;
     readers := <[r := pc]> (readers w); answers := answers w |}.

Section Interleaving.
Context (D : Dials) (R : Rollup) (known : list Z) (slots horizon : Z).

Inductive step (w : world) : world -> Prop :=
| step_tick t : clock w <= t <= horizon ->
    step w {| clock := t; holdSeq := holdSeq w; hold := hold w; writer := writer w; readers := readers w; answers := answers w |}
| step_enter i : writer w = None -> step w (with_writer w (holdSeq w + 1) (Some (Entered i)))
| step_sample i up : writer w = Some (Entered i) ->
    step w (with_writer w (holdSeq w) (Some (Sampled i up (clock w))))
| step_store i up t L : writer w = Some (Sampled i up t) -> holdWrite D R known (hold w) i up t = Some L ->
    step w {| clock := clock w; holdSeq := holdSeq w; hold := L; writer := Some Stored; readers := readers w; answers := answers w |}
| step_leave : writer w = Some Stored -> step w (with_writer w (holdSeq w + 1) None)
| step_ask r slot : readers w !! r = Some Idle -> 0 <= slot < slots ->
    step w (with_reader w r (Asked slot (clock w) (length (answers w))))
| step_begin r slot t n : readers w !! r = Some (Asked slot t n) -> Z.odd (holdSeq w) = false ->
    step w (with_reader w r (Reading slot t n (holdSeq w) (heldDeltasAt D R (len (hold w)) slot t)))
| step_load r slot t n q s k : readers w !! r = Some (Reading slot t n q (Load s k)) ->
    step w (with_reader w r (Reading slot t n q (k (at_slot (hold w) s None))))
| step_retry r slot t n q v : readers w !! r = Some (Reading slot t n q (Ret v)) -> holdSeq w <> q ->
    step w (with_reader w r (Asked slot t n))
| step_return r slot t n q v : readers w !! r = Some (Reading slot t n q (Ret v)) -> holdSeq w = q ->
    step w {| clock := clock w; holdSeq := holdSeq w; hold := hold w; writer := writer w; readers := <[r := Idle]> (readers w);
              answers := answers w ++ [{| r_slot := slot; r_t := t; r_since := n; r_in := fst v; r_out := snd v |}] |}.

Inductive steps : world -> world -> Prop :=
| steps_refl w : steps w w
| steps_one w1 w2 w3 : steps w1 w2 -> step w2 w3 -> steps w1 w3.

Context `{!DialLaws D R slots horizon}.
Hypothesis Hier : hierarchy_ok R slots.

(** No load can drive a program out of its levels. *)
Fixpoint never_stuck {A} (p : prog A) : Prop :=
  match p with Ret _ => True | Load _ k => forall h, never_stuck (k h) | Stuck => False end.

Lemma never_stuck_bind {A B} (p : prog A) (k : A -> prog B) :
  never_stuck p -> (forall a, never_stuck (k a)) -> never_stuck (pbind p k).
Proof. induction p as [a|s q IH|]; cbn; intros Hp Hk; [done|intros h; by apply IH|done]. Qed.

Lemma heldDeltaFor_not_stuck f h t b : (forall t, never_stuck (f t)) -> never_stuck (heldDeltaFor f h t b).
Proof. intros Hf. destruct h; cbn [heldDeltaFor]; [|done]. by apply never_stuck_bind. Qed.

Lemma sumServed_not_stuck sv ms : forall acc, (forall m, m ∈ ms -> never_stuck (sv (m - 1))) -> never_stuck (sumServed sv ms acc).
Proof.
  induction ms as [|m ms IH]; intros acc H; cbn [sumServed]; [done|]. apply never_stuck_bind; [apply H; left|].
  intros v. apply IH. intros x Hx. apply H. by right.
Qed.

Lemma rawDeltaAt_not_stuck : forall n slot t b, 0 <= slot < slots -> (rank R slot < n)%nat -> never_stuck (rawDeltaAt D R n slot t b).
Proof.
  induction n as [|n IH]; intros slot t b Hs Hn; [lia|].
  assert (Hsv : forall s, 0 <= s < slots -> (rank R s < n)%nat ->
    never_stuck (Load s (fun h => heldDeltaFor (fun t => rawDeltaAt D R n s t b) h t b))).
  { intros s Hs' Hr h. apply heldDeltaFor_not_stuck. intros. by apply IH. }
  pose proof (Hier slot Hs) as Hh. cbn [rawDeltaAt]. unfold rank, kind in *.
  destruct (members R) as [mss|] eqn:Em; [|done]. destruct (at_slot mss slot []) as [|m0 ms] eqn:Es.
  - destruct (at_slot (counterParent R) slot 0 =? 0) eqn:Ep; cbn [negb]; [done|].
    apply never_stuck_bind; [|done]. destruct Hh as [? Hh]. apply Hsv; lia.
  - apply sumServed_not_stuck. intros m Hm. destruct (Hh m Hm) as [Hr Hk]. apply Hsv; [lia|]. rewrite Hk. lia.
Qed.

Lemma heldDeltasAt_not_stuck n slot t : 0 <= slot < slots -> never_stuck (heldDeltasAt D R n slot t).
Proof.
  intros Hs. unfold heldDeltasAt. case_if; [done|]. intros h.
  assert (Hb : forall b, never_stuck (heldDeltaFor (fun t => rawDeltaAt D R levels slot t b) h t b)).
  { intros b. apply heldDeltaFor_not_stuck. intros. apply rawDeltaAt_not_stuck; [done|apply rank_levels]. }
  apply never_stuck_bind; [done|]. intros i. apply never_stuck_bind; done.
Qed.

(** ** The invariant *)

Abbreviation Served := (served D R).
Abbreviation LedgerOk := (ledger_ok D R slots horizon).

Definition asked_ok (w : world) (slot t : Z) (n : nat) : Prop :=
  0 <= slot < slots /\ 0 <= t <= clock w /\ (n <= length (answers w))%nat /\
  forall i a, answers w !! i = Some a -> (i < n)%nat -> r_t a <= t.

Definition reader_ok (w : world) (pc : readerPc) : Prop :=
  match pc with
  | Idle => True
  | Asked slot t n => asked_ok w slot t n
  | Reading slot t n q rest =>
      asked_ok w slot t n /\ Z.odd q = false /\ q <= holdSeq w /\ never_stuck rest /\
      (q = holdSeq w -> run (hold w) rest = Some (Served (hold w) slot t true, Served (hold w) slot t false))
  end.

(** An answer given can still be read from the ledger, or a larger one. *)
Definition answer_ok (w : world) (a : reading) : Prop :=
  0 <= r_slot a < slots /\ 0 <= r_t a <= clock w /\
  r_in a <= Served (hold w) (r_slot a) (r_t a) true /\ r_out a <= Served (hold w) (r_slot a) (r_t a) false.

Definition writer_ok (w : world) : Prop :=
  match writer w with
  | None => Z.odd (holdSeq w) = false
  | Some (Sampled _ _ t) => Z.odd (holdSeq w) = true /\ t <= clock w /\ LedgerOk (hold w) t /\ Forall (fun a => r_t a <= t) (answers w)
  | Some _ => Z.odd (holdSeq w) = true
  end.

Definition answers_ordered (w : world) : Prop :=
  forall i j a b, answers w !! i = Some a -> answers w !! j = Some b -> (i < r_since b)%nat -> r_slot a = r_slot b ->
    r_in a <= r_in b /\ r_out a <= r_out b.

Record world_ok (w : world) : Prop := {
  wo_ledger : LedgerOk (hold w) (clock w);
  wo_writer : writer_ok w;
  wo_readers : Forall (reader_ok w) (readers w);
  wo_answers : Forall (answer_ok w) (answers w);
  wo_since : Forall (fun a => (r_since a <= length (answers w))%nat) (answers w);
  wo_ordered : answers_ordered w;
}.

Lemma ledger_ok_later L now now' : LedgerOk L now -> now <= now' <= horizon -> LedgerOk L now'.
Proof.
  intros (Hl & Hn & Hok) Hnow. split_and!; [done|lia|lia|]. intros slot Hs. specialize (Hok slot Hs). unfold entry_ok in *.
  destruct (at_slot L slot None); [|done]. destruct Hok as (H1 & H2 & H3). split_and!; [lia|lia| |done]. intros Hd. specialize (H2 Hd). lia.
Qed.

Lemma holdWrite_after L tau i up : LedgerOk L tau ->
  exists L', holdWrite D R known L i up tau = Some L' /\ LedgerOk L' tau /\
  forall j t b, 0 <= j < slots -> 0 <= t <= tau -> Served L j t b <= Served L' j t b.
Proof.
  intros HL. pose proof HL as (Hl & _). unfold holdWrite. case_if; [exists L; split_and!; done|].
  case_if; [exists L; split_and!; done|].
  destruct (reconcile_after D R slots horizon Hier L tau (i - 1) up HL ltac:(lia)) as (H1 & H2 & H3).
  eexists. split_and!; [exact H1|done|]. intros j t b Hj Ht. by apply H3.
Qed.

Lemma reader_ok_mono w w' pc :
  clock w <= clock w' -> holdSeq w = holdSeq w' -> hold w = hold w' -> answers w = answers w' -> reader_ok w pc -> reader_ok w' pc.
Proof.
  intros Hc Hs Hh Ha. destruct pc as [|slot t n|slot t n q rest]; cbn [reader_ok]; unfold asked_ok; rewrite <- ?Ha, <- ?Hs, <- ?Hh; [done| |].
  - intros (? & ? & ? & ?). split_and!; try done; lia.
  - intros ((? & ? & ? & ?) & ?). split_and!; try done; try lia; intuition.
Qed.

(** A reader whose number is out of date keeps only what it asked for. *)
Lemma reader_ok_stale w w' pc :
  clock w <= clock w' -> holdSeq w <= holdSeq w' -> answers w = answers w' ->
  (Z.odd (holdSeq w') = true \/ holdSeq w < holdSeq w') -> reader_ok w pc -> reader_ok w' pc.
Proof.
  intros Hc Hs Ha Hst. destruct pc as [|slot t n|slot t n q rest]; cbn [reader_ok]; unfold asked_ok; rewrite <- ?Ha; [done| |].
  - intros (? & ? & ? & ?). split_and!; try done; lia.
  - intros ((? & ? & ? & ?) & Hodd & Hq & Hns & _). split_and!; try done; try lia.
    intros ->. destruct Hst as [Hst|Hst]; [congruence|lia].
Qed.

Lemma world_ok_reader w r pc : world_ok w -> reader_ok w pc -> world_ok (with_reader w r pc).
Proof.
  intros [H1 H2 H3 H4 H5 H6] Hpc. split; try done. apply Forall_insert; [|done].
  eapply List.Forall_impl; [|exact H3]. intros pc'. by apply reader_ok_mono.
Qed.

Lemma reader_at w r pc : world_ok w -> readers w !! r = Some pc -> reader_ok w pc.
Proof. intros [_ _ H _ _ _] Hr. by eapply Forall_lookup_1. Qed.

Lemma reader_ok_more w w' a pc :
  clock w = clock w' -> holdSeq w = holdSeq w' -> hold w = hold w' -> answers w' = answers w ++ [a] ->
  reader_ok w pc -> reader_ok w' pc.
Proof.
  intros Hc Hs Hh Ha.
  assert (Hask : forall slot t n, asked_ok w slot t n -> asked_ok w' slot t n).
  { intros slot t n (? & ? & Hn & Hold). unfold asked_ok. rewrite Ha, length_app, <- Hc. split_and!; try lia.
    intros i x Hi Hlt. apply (Hold i x); [|done]. rewrite lookup_app_l in Hi by lia. done. }
  destruct pc as [|slot t n|slot t n q rest]; cbn [reader_ok]; rewrite <- ?Hs, <- ?Hh; [done|by apply Hask|].
  intros (? & ?). split; [by apply Hask|done].
Qed.

Lemma return_ok w r slot t n q v :
  world_ok w -> readers w !! r = Some (Reading slot t n q (Ret v)) -> holdSeq w = q ->
  world_ok {| clock := clock w; holdSeq := holdSeq w; hold := hold w; writer := writer w; readers := <[r := Idle]> (readers w);
              answers := answers w ++ [{| r_slot := slot; r_t := t; r_since := n; r_in := fst v; r_out := snd v |}] |}.
Proof.
  intros Hw Hr Hq. pose proof (reader_at w r _ Hw Hr) as ((Hs & Ht & Hn & Hold) & Hodd & _ & _ & Hrun).
  specialize (Hrun (eq_sym Hq)). cbn [run] in Hrun. injection Hrun as ->. destruct Hw as [H1 H2 H3 H4 H5 H6].
  split; cbn [hold clock readers answers]; [done| | | | |].
  - unfold writer_ok in *. cbn. destruct (writer w) as [[]|]; try done. rewrite Hq in H2. destruct H2 as [H2 _]. congruence.
  - apply Forall_insert; [|done]. eapply List.Forall_impl; [|exact H3]. intros pc. by eapply reader_ok_more.
  - apply Forall_app_2; [done|]. apply Forall_singleton. unfold answer_ok. cbn. split_and!; lia.
  - rewrite length_app. apply Forall_app_2; [|apply Forall_singleton; cbn; lia].
    eapply List.Forall_impl; [|exact H5]. cbn. intros; lia.
  - intros i j a b Hi Hj Hlt Hsl. cbn [answers] in Hi, Hj.
    assert (Hj' : (j < length (answers w))%nat \/ (answers w !! i = Some a /\ b = {| r_slot := slot; r_t := t; r_since := n;
       r_in := Served (hold w) slot t true; r_out := Served (hold w) slot t false |})).
    { destruct (decide (j < length (answers w))%nat) as [|Hge]; [by left|]. right. rewrite lookup_app_r in Hj by lia.
      apply list_lookup_singleton_Some in Hj as [_ <-]. cbn in Hlt. rewrite lookup_app_l in Hi by lia. done. }
    destruct Hj' as [Hj'|[Hi' ->]].
    + rewrite lookup_app_l in Hj by done. pose proof (Forall_lookup_1 _ _ _ _ H5 Hj) as Hsb. cbn in Hsb.
      rewrite lookup_app_l in Hi by lia. by eapply H6.
    + cbn in *. pose proof (Forall_lookup_1 _ _ _ _ H4 Hi') as (Ha1 & Ha2 & Ha3 & Ha4). rewrite Hsl in *.
      specialize (Hold i a Hi' Hlt). pose proof H1 as (_ & Hclk & _).
      pose proof (served_counts D R slots horizon Hier (hold w) (clock w) H1 slot Hs) as [_ Hm].
      pose proof (Hm (r_t a) t true ltac:(lia) ltac:(lia)). pose proof (Hm (r_t a) t false ltac:(lia) ltac:(lia)). lia.
Qed.

Lemma step_ok w w' : step w w' -> world_ok w -> world_ok w'.
Proof.
  intros Hst Hw. pose proof Hw as [H1 H2 H3 H4 H5 H6]. destruct Hst.
  - (* tick *) split; cbn; try done.
    + eapply ledger_ok_later; [exact H1|lia].
    + unfold writer_ok in *. cbn. destruct (writer w) as [[]|]; try done. intuition lia.
    + eapply List.Forall_impl; [|exact H3]. intros pc. apply reader_ok_mono; cbn; done || lia.
    + eapply List.Forall_impl; [|exact H4]. intros a (? & ? & ?). unfold answer_ok. cbn. intuition lia.
  - (* enter *) unfold writer_ok in H2. rewrite H in H2. split; cbn; try done.
    + unfold writer_ok. cbn. rewrite Z.odd_add, H2. done.
    + eapply List.Forall_impl; [|exact H3]. intros pc. apply reader_ok_stale; cbn; try lia; done.
  - (* sample *) unfold writer_ok in H2. rewrite H in H2. split; cbn; try done.
    + unfold writer_ok. cbn. split_and!; [done|lia|done|]. eapply List.Forall_impl; [|exact H4]. intros a (? & ? & ?). lia.
  - (* store *) unfold writer_ok in H2. rewrite H in H2. destruct H2 as (Ho & Ht & HL & Ha).
    destruct (holdWrite_after (hold w) t i up HL) as (L' & HL' & Hok' & Hr). assert (L' = L) as -> by congruence.
    pose proof H1 as (_ & Hclk & _).
    split; cbn; try done; [by eapply ledger_ok_later; [|split; [exact Ht|lia]]| |].
    + eapply List.Forall_impl; [|exact H3]. intros pc. apply reader_ok_stale; cbn; try lia; try done; by left.
    + apply List.Forall_forall. intros a Hin. pose proof (proj1 (List.Forall_forall _ _) H4 a Hin) as (? & ? & ? & ?).
      pose proof (proj1 (List.Forall_forall _ _) Ha a Hin) as Hta. unfold answer_ok. cbn [hold clock].
      pose proof (Hr (r_slot a) (r_t a) true ltac:(lia) ltac:(simpl in Hta; lia)).
      pose proof (Hr (r_slot a) (r_t a) false ltac:(lia) ltac:(simpl in Hta; lia)). split_and!; lia.
  - (* leave *) unfold writer_ok in H2. rewrite H in H2. split; cbn; try done.
    + unfold writer_ok. cbn. rewrite Z.odd_add, H2. done.
    + eapply List.Forall_impl; [|exact H3]. intros pc. apply reader_ok_stale; cbn; try lia; done.
  - (* ask *) apply world_ok_reader; [done|]. cbn. pose proof H1 as (_ & Hclk & _). split_and!; try lia.
    intros i a Hi _. pose proof (Forall_lookup_1 _ _ _ _ H4 Hi) as (_ & ? & _). lia.
  - (* begin *) apply world_ok_reader; [done|]. pose proof (reader_at w r _ Hw H) as Ha. cbn in *. split_and!; try done; try lia.
    + destruct Ha as (? & _). by apply heldDeltasAt_not_stuck.
    + intros _. destruct Ha as (? & ? & _). pose proof H1 as (_ & Hclk & _).
      apply (run_heldDeltasAt D R slots horizon Hier _ (clock w)); [done|done|lia].
  - (* load *) apply world_ok_reader; [done|]. pose proof (reader_at w r _ Hw H) as Ha. cbn in *.
    destruct Ha as (? & ? & ? & Hns & Hrun). split_and!; done.
  - (* retry *) apply world_ok_reader; [done|]. pose proof (reader_at w r _ Hw H) as Ha. by destruct Ha as (? & _).
  - (* return *) by eapply return_ok.
Qed.

Lemma steps_ok w w' : steps w w' -> world_ok w -> world_ok w'.
Proof. induction 1 as [|w1 w2 w3 _ IH Hst]; [done|]. intros Hw. by eapply step_ok; [exact Hst|apply IH]. Qed.

(** ** The ledgers a cycler goes through

    Seeded from the engine at time 0, then written at increasing instants. *)
Inductive held : ledger -> Z -> Prop :=
| held_seed s : held (seedHolds known s (zeros slots None)) 0
| held_write L t i up t' L' : held L t -> t <= t' <= horizon -> holdWrite D R known L i up t' = Some L' -> held L' t'.

Hypothesis Hknown : Forall (fun i => 1 <= i <= slots) known.
Hypothesis Hslots : 0 <= slots.
Hypothesis Hhorizon : 0 <= horizon.

Definition seeded (oh : option counterHold) : Prop :=
  oh = None \/ oh = Some {| down := true; downAt := 0; upAt := 0; skippedIn := 0; skippedOut := 0 |}.

Lemma seedHolds_seeded s : forall idxs L, Forall (fun i => 1 <= i <= slots) idxs -> len L = slots ->
  (forall j, 0 <= j < slots -> seeded (at_slot L j None)) ->
  len (seedHolds idxs s L) = slots /\ forall j, 0 <= j < slots -> seeded (at_slot (seedHolds idxs s L) j None).
Proof.
  induction idxs as [|i idxs IH]; intros L Hk Hl HL; [done|]. apply Forall_cons_1 in Hk as [Hi Hk]. cbn [seedHolds fold_left].
  apply IH; [done| |].
  - unfold seedHold. case_if; [done|]. unfold len in *. by rewrite length_insert.
  - intros j Hj. unfold seedHold. case_if; [by apply HL|]. rewrite (at_slot_put slots) by (done || lia). case_if; [by right|by apply HL].
Qed.

Lemma held_ok L t : held L t -> LedgerOk L t.
Proof.
  induction 1 as [s|L t i up t' L' _ IH Ht Hw].
  - destruct (seedHolds_seeded s known (zeros slots None)) as [Hl HL]; [done|unfold zeros, len; rewrite length_replicate; lia| |].
    { intros j _. left. apply at_slot_zeros. }
    split_and!; [done|lia|lia|]. intros j Hj. unfold entry_ok. pose proof (HL j Hj) as [->| ->]; [done|].
    cbn [upAt down downAt]. split_and!; [lia|lia|lia|].
    assert (Hp : entries_past slots (seedHolds known s (zeros slots None)) 0).
    { intros i h Hi Hh. destruct (HL i Hi) as [E|E]; rewrite Hh in E; [done|]. injection E as ->. split; [split; cbn; lia|]. intros []; cbn; lia. }
    intros b. destruct (served_bounded D R slots horizon Hier _ 0 ltac:(lia) Hp j Hj 0 b ltac:(lia)) as [Hr _].
    destruct b; cbn [skipped skippedIn skippedOut]; lia.
  - destruct (holdWrite_after L t' i up) as (L1 & H1 & H2 & _); [by eapply ledger_ok_later|]. congruence.
Qed.

(** The cycler as published: seeded, nobody reading. *)
Definition boot (s : InterfaceState) (n : nat) : world :=
  {| clock := 0; holdSeq := 0; hold := seedHolds known s (zeros slots None); writer := None; readers := replicate n Idle; answers := [] |}.

Lemma boot_ok s n : world_ok (boot s n).
Proof.
  split; cbn; try done; [apply held_ok, held_seed|].
  apply Forall_replicate. done.
Qed.

(** ** Reads complete *)

Lemma steps_trans w1 w2 w3 : steps w1 w2 -> steps w2 w3 -> steps w1 w3.
Proof. intros H1 H2. induction H2 as [|? ? ? ? IH]; [done|]. eapply steps_one; [by apply IH|done]. Qed.

Lemma writer_leaves w : world_ok w ->
  exists w', steps w w' /\ writer w' = None /\ readers w' = readers w /\ answers w' = answers w.
Proof.
  intros Hw.
  assert (Hstored : forall v, writer v = Some Stored -> exists w', steps v w' /\ writer w' = None /\ readers w' = readers v /\ answers w' = answers v).
  { intros v Hv. eexists. split; [eapply steps_one; [apply steps_refl|by apply step_leave]|done]. }
  assert (Hsampled : forall v i up t, world_ok v -> writer v = Some (Sampled i up t) ->
    exists w', steps v w' /\ writer w' = None /\ readers w' = readers v /\ answers w' = answers v).
  { intros v i up t [_ H2 _ _ _ _] Hv. unfold writer_ok in H2. rewrite Hv in H2. destruct H2 as (_ & _ & HL & _).
    destruct (holdWrite_after (hold v) t i up HL) as (L & HLw & _).
    destruct (Hstored {| clock := clock v; holdSeq := holdSeq v; hold := L; writer := Some Stored; readers := readers v; answers := answers v |} eq_refl) as (w' & Hs & H).
    exists w'. split; [|done]. eapply steps_trans; [|exact Hs]. eapply steps_one; [apply steps_refl|]. by eapply step_store. }
  destruct (writer w) as [[i|i up t|]|] eqn:Ew; [| | |exists w; split; [apply steps_refl|done]].
  - destruct (Hsampled (with_writer w (holdSeq w) (Some (Sampled i true (clock w)))) i true (clock w)) as (w' & Hs & H).
    { eapply step_ok; [by apply step_sample|done]. } { done. }
    exists w'. split; [|done]. eapply steps_trans; [|exact Hs]. eapply steps_one; [apply steps_refl|by apply step_sample].
  - by eapply Hsampled.
  - by eapply Hstored.
Qed.

Lemma loads_end r slot t n q : forall rest w, never_stuck rest -> readers w !! r = Some (Reading slot t n q rest) ->
  exists v w', steps w w' /\ readers w' !! r = Some (Reading slot t n q (Ret v)) /\
    answers w' = answers w /\ writer w' = writer w /\ holdSeq w' = holdSeq w.
Proof.
  induction rest as [v|s k IH|]; intros w Hns Hr; [exists v, w; split; [apply steps_refl|done]| |done].
  destruct (IH (at_slot (hold w) s None) (with_reader w r (Reading slot t n q (k (at_slot (hold w) s None))))) as (v & w' & Hs & H).
  { apply Hns. } { cbn. apply list_lookup_insert_eq. by eapply lookup_lt_Some. }
  exists v, w'. split; [|done]. eapply steps_trans; [|exact Hs]. eapply steps_one; [apply steps_refl|by apply step_load].
Qed.

Definition answered (w w' : world) (r : nat) (slot t : Z) (n : nat) : Prop :=
  readers w' !! r = Some Idle /\ exists a, answers w' = answers w ++ [a] /\ r_slot a = slot /\ r_t a = t /\ r_since a = n.

Lemma asked_answered w r slot t n : world_ok w -> readers w !! r = Some (Asked slot t n) ->
  exists w', steps w w' /\ answered w w' r slot t n.
Proof.
  intros Hw Hr. destruct (writer_leaves w Hw) as (w1 & Hs1 & Hw1 & Hr1 & Ha1).
  pose proof (steps_ok _ _ Hs1 Hw) as Hok1. pose proof (wo_writer _ Hok1) as Hodd. unfold writer_ok in Hodd. rewrite Hw1 in Hodd.
  set (w2 := with_reader w1 r (Reading slot t n (holdSeq w1) (heldDeltasAt D R (len (hold w1)) slot t))).
  assert (Hs2 : step w1 w2) by (apply step_begin; [by rewrite Hr1|done]).
  assert (Hlt : (r < length (readers w1))%nat) by (rewrite Hr1; by eapply lookup_lt_Some).
  destruct (loads_end r slot t n (holdSeq w1) (heldDeltasAt D R (len (hold w1)) slot t) w2) as (v & w3 & Hs3 & Hr3 & Ha3 & Hw3 & Hq3).
  { apply heldDeltasAt_not_stuck. pose proof (reader_at w r _ Hw Hr) as Ha. apply Ha. } { cbn. by apply list_lookup_insert_eq. }
  eexists. split.
  - eapply steps_one; [|by eapply step_return; [exact Hr3|rewrite Hq3]].
    eapply steps_trans; [|exact Hs3]. by eapply steps_one.
  - split; cbn.
    + apply list_lookup_insert_eq. by eapply lookup_lt_Some.
    + eexists. split; [by rewrite Ha3; cbn; rewrite Ha1|done].
Qed.

Lemma reading_answered w r slot t n q rest : world_ok w -> readers w !! r = Some (Reading slot t n q rest) ->
  exists w', steps w w' /\ answered w w' r slot t n.
Proof.
  intros Hw Hr. pose proof (reader_at w r _ Hw Hr) as (_ & _ & _ & Hns & _).
  destruct (loads_end r slot t n q rest w Hns Hr) as (v & w1 & Hs1 & Hr1 & Ha1 & _ & Hq1).
  pose proof (steps_ok _ _ Hs1 Hw) as Hok1. assert (Hlt : (r < length (readers w1))%nat) by by eapply lookup_lt_Some.
  destruct (decide (holdSeq w1 = q)) as [E|E].
  - eexists. split; [eapply steps_one; [exact Hs1|by eapply step_return]|]. split; cbn; [by apply list_lookup_insert_eq|].
    eexists. split; [by rewrite Ha1|done].
  - assert (Hst : step w1 (with_reader w1 r (Asked slot t n))) by by eapply step_retry.
    destruct (asked_answered (with_reader w1 r (Asked slot t n)) r slot t n) as (w2 & Hs2 & Hans).
    { by eapply step_ok. } { cbn. by apply list_lookup_insert_eq. }
    exists w2. split; [eapply steps_trans; [|exact Hs2]; by eapply steps_one|]. destruct Hans as (H1 & a & H2 & H3).
    split; [done|]. exists a. split; [by rewrite H2; cbn; rewrite Ha1|done].
Qed.
End Interleaving.

(** ** An executable scheduler and a sample hierarchy *)

Inductive action := Tick (t : Z) | Enter (i : Z) | Sample (up : bool) | Store | Leave | Ask (r : nat) (slot : Z) | Go (r : nat).

Definition exec1 (D : Dials) (R : Rollup) (known : list Z) (slots horizon : Z) (a : action) (w : world) : option world :=
  match a with
  | Tick t => if (clock w <=? t) && (t <=? horizon)
              then Some {| clock := t; holdSeq := holdSeq w; hold := hold w; writer := writer w; readers := readers w; answers := answers w |}
              else None
  | Enter i => match writer w with None => Some (with_writer w (holdSeq w + 1) (Some (Entered i))) | _ => None end
  | Sample up => match writer w with Some (Entered i) => Some (with_writer w (holdSeq w) (Some (Sampled i up (clock w)))) | _ => None end
  | Store =>
      match writer w with
      | Some (Sampled i up t) =>
          match holdWrite D R known (hold w) i up t with
          | Some L => Some {| clock := clock w; holdSeq := holdSeq w; hold := L; writer := Some Stored; readers := readers w; answers := answers w |}
          | None => None
          end
      | _ => None
      end
  | Leave => match writer w with Some Stored => Some (with_writer w (holdSeq w + 1) None) | _ => None end
  | Ask r slot =>
      match readers w !! r with
      | Some Idle => if (0 <=? slot) && (slot <? slots) then Some (with_reader w r (Asked slot (clock w) (length (answers w)))) else None
      | _ => None
      end
  | Go r =>
      match readers w !! r with
      | Some (Asked slot t n) =>
          if Z.odd (holdSeq w) then Some w
          else Some (with_reader w r (Reading slot t n (holdSeq w) (heldDeltasAt D R (len (hold w)) slot t)))
      | Some (Reading slot t n q (Load s k)) => Some (with_reader w r (Reading slot t n q (k (at_slot (hold w) s None))))
      | Some (Reading slot t n q (Ret v)) =>
          if holdSeq w =? q then
            Some {| clock := clock w; holdSeq := holdSeq w; hold := hold w; writer := writer w; readers := <[r := Idle]> (readers w);
                    answers := answers w ++ [{| r_slot := slot; r_t := t; r_since := n; r_in := fst v; r_out := snd v |}] |}
          else Some (with_reader w r (Asked slot t n))
      | _ => None
      end
  end.

Fixpoint exec (D : Dials) (R : Rollup) (known : list Z) (slots horizon : Z) (l : list action) (w : world) : option world :=
  match l with
  | [] => Some w
  | a :: l' => match exec1 D R known slots horizon a w with Some w' => exec D R known slots horizon l' w' | None => None end
  end.

Lemma exec1_steps D R known slots horizon a w w' :
  exec1 D R known slots horizon a w = Some w' -> steps D R known slots horizon w w'.
Proof.
  intros H. destruct a; cbn [exec1] in H; repeat case_match; try discriminate; simplify_eq; zbool;
    first [apply steps_refl | eapply steps_one; [apply steps_refl|]].
  - apply step_tick. lia.
  - by apply step_enter.
  - by apply step_sample.
  - by eapply step_store.
  - by apply step_leave.
  - apply step_ask; [done|lia].
  - by apply step_begin.
  - by eapply step_return.
  - by eapply step_retry.
  - by apply step_load.
Qed.

Lemma exec_steps D R known slots horizon l : forall w w',
  exec D R known slots horizon l w = Some w' -> steps D R known slots horizon w w'.
Proof.
  induction l as [|a l IH]; intros w w' H; cbn [exec] in H; [injection H as ->; apply steps_refl|].
  destruct (exec1 _ _ _ _ _ a w) as [w1|] eqn:E; [|done]. eapply steps_trans; [by eapply exec1_steps|by apply IH].
Qed.

(** Two ports (1, 2), the bundle of both (3) and two units of the bundle (4, 5). *)
Definition sampleDials : Dials :=
  {| deltaOctetsAt := fun s t b => (if b then 10 else 7) * t; shareOf := fun s v => v * 2 / 5 |}.
Definition sampleRollup : Rollup :=
  {| counterParent := [0; 0; 0; 3; 3]; members := Some [[]; []; [1; 2]; []; []] |}.

Lemma sampleRollup_kind s :
  kind sampleRollup s = if s =? 2 then Sum [1; 2] else if (s =? 3) || (s =? 4) then Share 3 else Dial.
Proof.
  unfold kind, sampleRollup, at_slot. cbn [members counterParent]. destruct (Z.to_nat s) as [|[|[|[|[|n]]]]] eqn:E; cbn [nth].
  all: repeat case_if; try done; try lia; by destruct n.
Qed.

Lemma sampleRollup_ok : hierarchy_ok sampleRollup 5.
Proof.
  intros slot Hs. rewrite sampleRollup_kind. repeat case_if; [|split; [lia|vm_compute; lia]|done].
  intros m Hm. rewrite sampleRollup_kind. apply list_elem_of_In in Hm. cbn in Hm. destruct Hm as [<-|[<-|[]]]; split; done || lia.
Qed.

#[export] Instance sampleDials_laws : DialLaws sampleDials sampleRollup 5 1000000.
Proof.
  split; cbn [sampleDials deltaOctetsAt shareOf].
  - intros s t [] Ht; lia.
  - intros s t t' [] Ht; lia.
  - intros s ms t b Hk Ht. rewrite sampleRollup_kind in Hk. destruct b; repeat case_match; simplify_eq; cbn [sumZ foldr]; lia.
  - intros s v Hv. split; [apply Z.div_pos; lia|]. apply Z.div_le_upper_bound; lia.
  - intros s v v' Hv _. apply Z.div_le_mono; lia.
  - intros p cs v Hnd Hcs Hv.
    assert (Hlen : (length cs <= 2)%nat).
    { change 2%nat with (length [3; 4]). apply NoDup_incl_length; [by apply NoDup_ListNoDup|]. intros c Hc.
      apply list_elem_of_In, Hcs in Hc as [_ Hc]. rewrite sampleRollup_kind in Hc. cbn. repeat case_match; simplify_eq; zbool; lia. }
    assert (Hsum : forall l : list Z, sumZ (fun _ => v * 2 / 5) l = Z.of_nat (length l) * (v * 2 / 5)).
    { clear. induction l as [|x l IH]; cbn [sumZ foldr length]; [lia|]. fold (sumZ (fun _ => v * 2 / 5) l). lia. }
    rewrite Hsum. pose proof (Z.mul_div_le (v * 2) 5 ltac:(lia)). assert (0 <= v * 2 / 5) by (apply Z.div_pos; lia). nia.
Qed.

(** ** Theorems *)

(** C35: a counter never goes back.  However the lock-free readers interleave with
    the oper transitions that open and close holds, a poll whose instant was
    taken after another poll of the same interface had been answered reads at
    least as many octets, in both directions, whether the interface counts on its
    own dial, as a share of a parent or as the sum of its members. *)
Theorem counters_never_go_back D R known slots horizon `{!DialLaws D R slots horizon} eng n w :
  hierarchy_ok R slots -> Forall (fun i => 1 <= i <= slots) known -> 0 <= slots -> 0 <= horizon ->
  steps D R known slots horizon (boot known slots eng n) w ->
  forall i j a b, answers w !! i = Some a -> answers w !! j = Some b -> (i < r_since b)%nat -> r_slot a = r_slot b ->
    r_in a <= r_in b /\ r_out a <= r_out b.
Proof.
  intros Hier Hk Hs Hh Hsteps. apply (wo_ordered D R slots horizon).
  eapply steps_ok; [done|done|exact Hsteps|]. by apply boot_ok.
Qed.

Definition sampleState : InterfaceState :=
  {| IfState.slots := replicate 5 (packState OperUp AdminUp 0); maxIfIndex := 5; bootTimeUnixNs := 0; parent := None; children := None;
     loopback := None; stacked := None; topologyGen := None |}.

(** A unit of the bundle is polled while the first port goes down: the poll that
    overlaps the write starts over. *)
Definition sampleSchedule : list action :=
  [Tick 100; Ask 0 3; Go 0; Go 0; Go 0; Go 0; Go 0; Go 0; Go 0; Go 0; Go 0;
   Tick 150; Ask 0 3; Go 0; Go 0; Enter 1; Sample false; Go 0; Store; Leave; Go 0; Go 0; Go 0; Go 0; Go 0; Go 0;
   Tick 300; Go 0; Go 0; Go 0; Go 0; Go 0; Go 0; Go 0; Go 0; Go 0].

Lemma counters_never_go_back_witness :
  exists w a b, exec sampleDials sampleRollup [1; 2; 3; 4; 5] 5 1000000 sampleSchedule (boot [1; 2; 3; 4; 5] 5 sampleState 1) = Some w /\
    answers w !! 0%nat = Some a /\ answers w !! 1%nat = Some b /\ r_in a <= r_in b /\ r_out a <= r_out b.
Proof.
  destruct (exec sampleDials sampleRollup [1; 2; 3; 4; 5] 5 1000000 sampleSchedule (boot [1; 2; 3; 4; 5] 5 sampleState 1)) as [w|] eqn:E;
    [|vm_compute in E; discriminate].
  exists w. assert (E' := E). vm_compute in E'. injection E' as E'.
  destruct (answers w !! 0%nat) as [a|] eqn:Ea; [|by rewrite <- E' in Ea].
  destruct (answers w !! 1%nat) as [b|] eqn:Eb; [|by rewrite <- E' in Eb].
  exists a, b. split; [done|]. split; [done|]. split; [done|].
  apply (counters_never_go_back sampleDials sampleRollup [1; 2; 3; 4; 5] 5 1000000 sampleState 1 w sampleRollup_ok) with (i := 0%nat) (j := 1%nat);
    [repeat constructor; lia|lia|lia|by eapply exec_steps|done|done| |].
  - rewrite <- E' in Eb. injection Eb as <-. cbn. lia.
  - rewrite <- E' in Ea, Eb. injection Ea as <-. injection Eb as <-. reflexivity.
Defined.

(** C37: a poll can always be completed.  In every world the cycler can reach, a
    reader that has asked is not stuck: once the writer that may be active has
    left its bracket, the reader's own steps lead to its answer, after finitely
    many loads. *)
Theorem polls_complete D R known slots horizon `{!DialLaws D R slots horizon} eng n w r pc :
  hierarchy_ok R slots -> Forall (fun i => 1 <= i <= slots) known -> 0 <= slots -> 0 <= horizon ->
  steps D R known slots horizon (boot known slots eng n) w ->
  readers w !! r = Some pc -> pc <> Idle ->
  exists w' slot t k, steps D R known slots horizon w w' /\ answered w w' r slot t k /\
    (pc = Asked slot t k \/ exists q rest, pc = Reading slot t k q rest).
Proof.
  intros Hier Hk Hs Hh Hsteps Hr Hne.
  assert (Hw : world_ok D R slots horizon w) by (eapply steps_ok; [done|done|exact Hsteps|by apply boot_ok]).
  destruct pc as [|slot t k|slot t k q rest]; [done| |].
  - destruct (asked_answered D R known slots horizon Hier w r slot t k Hw Hr) as (w' & H1 & H2). exists w', slot, t, k. by split_and!; [| |left].
  - destruct (reading_answered D R known slots horizon Hier w r slot t k q rest Hw Hr) as (w' & H1 & H2).
    exists w', slot, t, k. split_and!; [done|done|right; by exists q, rest].
Qed.

Lemma polls_complete_witness :
  exists w w' slot t k, exec sampleDials sampleRollup [1; 2; 3; 4; 5] 5 1000000 [Tick 100; Ask 0 3; Enter 1; Sample false; Tick 120] (boot [1; 2; 3; 4; 5] 5 sampleState 1) = Some w /\
    holdSeq w = 1 /\ steps sampleDials sampleRollup [1; 2; 3; 4; 5] 5 1000000 w w' /\ answered w w' 0 slot t k.
Proof.
  destruct (exec sampleDials sampleRollup [1; 2; 3; 4; 5] 5 1000000 [Tick 100; Ask 0 3; Enter 1; Sample false; Tick 120] (boot [1; 2; 3; 4; 5] 5 sampleState 1)) as [w|] eqn:E;
    [|vm_compute in E; discriminate].
  exists w. assert (E' := E). vm_compute in E'. injection E' as E'.
  destruct (readers w !! 0%nat) as [pc|] eqn:Er; [|by rewrite <- E' in Er].
  destruct (polls_complete sampleDials sampleRollup [1; 2; 3; 4; 5] 5 1000000 sampleState 1 w 0 pc sampleRollup_ok) as (w' & slot & t & k & H1 & H2 & _);
    [repeat constructor; lia|lia|lia|by eapply exec_steps|done| |].
  - rewrite <- E' in Er. injection Er as <-. discriminate.
  - exists w', slot, t, k. split; [done|]. split; [by rewrite <- E'|]. by split.
Defined.

(** Hold and resume.  When an interface leaves up(1) both its counters freeze
    at the value they had; when it comes back they continue from the frozen value,
    growing by exactly what its source counts from that instant on: the time spent
    down leaves neither a jump nor a loss. *)
Theorem hold_freezes_and_resumes D R known slots horizon `{!DialLaws D R slots horizon} L now slot tau :
  hierarchy_ok R slots -> Forall (fun i => 1 <= i <= slots) known -> 0 <= slots -> 0 <= horizon ->
  held D R known slots horizon L now -> now <= tau <= horizon -> 0 <= slot < slots ->
  exists Ld Lu i o, reconcile D R L slot false tau = Some Ld /\ reconcile D R L slot true tau = Some Lu /\
    run L (heldDeltasAt D R slots slot tau) = Some (i, o) /\
    forall t, tau <= t <= horizon ->
      run Ld (heldDeltasAt D R slots slot t) = Some (i, o) /\
      run Lu (heldDeltasAt D R slots slot t) =
        Some (i + (raw D R L slot t true - raw D R L slot tau true), o + (raw D R L slot t false - raw D R L slot tau false)).
Proof.
  intros Hier Hk Hs Hh HL Htau Hslot.
  assert (Hok : ledger_ok D R slots horizon L tau) by (eapply ledger_ok_later; [by eapply held_ok|done]).
  assert (H0 : 0 <= tau) by (by destruct Hok as (_ & ? & _); lia).
  assert (Hlen : forall L', ledger_ok D R slots horizon L' tau -> len L' = slots) by (by intros L' (? & _)).
  assert (Hrun : forall L' t, ledger_ok D R slots horizon L' tau -> tau <= t <= horizon ->
    run L' (heldDeltasAt D R slots slot t) = Some (served D R L' slot t true, served D R L' slot t false)).
  { intros L' t HL' Ht. rewrite <- (Hlen L' HL') at 1. apply (run_heldDeltasAt D R slots horizon Hier L' tau); done || lia. }
  destruct (reconcile_after D R slots horizon Hier L tau slot false Hok Hslot) as (H1 & Hd & _).
  destruct (reconcile_after D R slots horizon Hier L tau slot true Hok Hslot) as (H2 & Hu & _).
  eexists _, _, _, _. split; [exact H1|]. split; [exact H2|]. split; [apply Hrun; [done|lia]|]. intros t Ht. split.
  - rewrite Hrun by done. by rewrite !(after_down D R slots horizon Hier L tau) by done.
  - rewrite Hrun by done. by rewrite !(after_up D R slots horizon Hier L tau) by done.
Qed.

Lemma sample_held : held sampleDials sampleRollup [1; 2; 3; 4; 5] 5 1000000 (zeros 5 None) 0.
Proof.
  assert (E : seedHolds [1; 2; 3; 4; 5] sampleState (zeros 5 None) = zeros 5 None) by (vm_compute; reflexivity).
  rewrite <- E. apply held_seed.
Qed.

Lemma hold_freezes_and_resumes_witness :
  exists L L' i o, holdWrite sampleDials sampleRollup [1; 2; 3; 4; 5] (zeros 5 None) 1 false 100 = Some L /\
    reconcile sampleDials sampleRollup L 0 true 200 = Some L' /\
    run L (heldDeltasAt sampleDials sampleRollup 5 0 200) = Some (i, o) /\ i = 1000 /\
    run L' (heldDeltasAt sampleDials sampleRollup 5 0 250) = Some (1500, 1050).
Proof.
  destruct (holdWrite sampleDials sampleRollup [1; 2; 3; 4; 5] (zeros 5 None) 1 false 100) as [L|] eqn:E; [|vm_compute in E; discriminate].
  assert (HL : held sampleDials sampleRollup [1; 2; 3; 4; 5] 5 1000000 L 100).
  { eapply held_write; [exact sample_held| |exact E]. lia. }
  destruct (hold_freezes_and_resumes sampleDials sampleRollup [1; 2; 3; 4; 5] 5 1000000 L 100 0 200 sampleRollup_ok) as (Ld & Lu & i & o & H1 & H2 & H3 & H4);
    [repeat constructor; lia|lia|lia|done|lia|lia|].
  exists L, Lu, i, o. split; [done|]. split; [done|]. split; [done|].
  destruct (H4 250 ltac:(lia)) as [_ H5]. vm_compute in E. injection E as <-. vm_compute in H3. injection H3 as <- <-.
  split; [done|]. rewrite H5. reflexivity.
Defined.

(** The roll-up.  Whatever has been held, at the current instant the
    children of an interface have together counted no more than it has, and an
    aggregate that has never been held has counted exactly what its members have. *)
Theorem rollup_bounded D R known slots horizon `{!DialLaws D R slots horizon} L t b :
  hierarchy_ok R slots -> Forall (fun i => 1 <= i <= slots) known -> 0 <= slots -> 0 <= horizon ->
  held D R known slots horizon L t ->
  (forall p cs, NoDup cs -> (forall c, c ∈ cs -> 0 <= c < slots /\ kind R c = Share p) ->
     exists vs v, map (fun c => run L (servedDeltaAt D R c t b)) cs = map Some vs /\
       (cs <> [] -> run L (servedDeltaAt D R (p - 1) t b) = Some v /\ sumZ (fun v => v) vs <= v)) /\
  (forall s ms, 0 <= s < slots -> kind R s = Sum ms -> at_slot L s None = None ->
     exists vs, map (fun m => run L (servedDeltaAt D R (m - 1) t b)) ms = map Some vs /\
       run L (servedDeltaAt D R s t b) = Some (sumZ (fun v => v) vs)).
Proof.
  intros Hier Hk Hs Hh HL. pose proof (held_ok D R known slots horizon Hier Hk Hs Hh L t HL) as Hok. pose proof Hok as (_ & Ht & _).
  assert (Hrun : forall s, 0 <= s < slots -> run L (servedDeltaAt D R s t b) = Some (served D R L s t b)).
  { intros s Hslot. unfold servedDeltaAt. cbn [run]. apply (run_held D R slots horizon L t s t b); try done.
    intros t' Ht'. apply (run_raw D R slots horizon Hier L t Hok); [done|apply rank_levels|done]. }
  assert (Hmap : forall (f : Z -> Z) (g : Z -> Z) l, (forall x, x ∈ l -> 0 <= g x < slots /\ f x = served D R L (g x) t b) ->
    map (fun x => run L (servedDeltaAt D R (g x) t b)) l = map Some (map f l)).
  { intros f g l Hf. rewrite map_map. apply List.map_ext_in. intros x Hx. apply list_elem_of_In, Hf in Hx as [H1 ->]. by apply Hrun. }
  assert (Hsum : forall (f : Z -> Z) l, sumZ (fun v => v) (map f l) = sumZ f l).
  { intros f l. induction l as [|x l IH]; [done|]. cbn. f_equal. exact IH. }
  split.
  - intros p cs Hnd Hcs. exists (map (fun c => served D R L c t b) cs), (served D R L (p - 1) t b). split.
    { apply (Hmap _ (fun c => c)). intros c Hc. split; [|done]. by apply Hcs. }
    intros Hne. assert (Hp : 0 <= p - 1 < slots).
    { destruct cs as [|c cs]; [done|]. destruct (Hcs c ltac:(left)) as [H1 H2]. pose proof (Hier c H1) as Hc. rewrite H2 in Hc. lia. }
    split; [by apply Hrun|]. rewrite Hsum.
    pose proof (proj1 (served_counts D R slots horizon Hier L t Hok (p - 1) Hp) t b ltac:(lia)) as Hr.
    etransitivity; [|apply (siblings_share p cs); [done|intros c Hc; by apply Hcs|exact Hr]].
    apply sumZ_le. intros c Hc. destruct (Hcs c Hc) as [H1 H2].
    rewrite <- (raw_eq_share D R slots Hier L c p t b H1 H2). by apply (served_le_raw D R slots horizon Hier).
  - intros s ms Hslot Hk' Hn. pose proof (Hier s Hslot) as Hm. rewrite Hk' in Hm.
    exists (map (fun m => served D R L (m - 1) t b) ms). split.
    { apply (Hmap _ (fun m => m - 1)). intros m Hin. split; [|done]. destruct (Hm m Hin). lia. }
    rewrite Hrun, Hsum by done. f_equal. unfold served at 1. rewrite Hn. cbn [heldZ]. by rewrite (raw_eq D R slots Hier), Hk'.
Qed.

Lemma rollup_bounded_witness :
  exists L vs v, holdWrite sampleDials sampleRollup [1; 2; 3; 4; 5] (zeros 5 None) 4 false 100 = Some L /\
    map (fun c => run L (servedDeltaAt sampleDials sampleRollup c 100 true)) [3; 4] = map Some vs /\
    run L (servedDeltaAt sampleDials sampleRollup 2 100 true) = Some v /\ v = 2000 /\ sumZ (fun v => v) vs <= v.
Proof.
  destruct (holdWrite sampleDials sampleRollup [1; 2; 3; 4; 5] (zeros 5 None) 4 false 100) as [L|] eqn:E; [|vm_compute in E; discriminate].
  assert (HL : held sampleDials sampleRollup [1; 2; 3; 4; 5] 5 1000000 L 100).
  { eapply held_write; [exact sample_held| |exact E]. lia. }
  destruct (rollup_bounded sampleDials sampleRollup [1; 2; 3; 4; 5] 5 1000000 L 100 true sampleRollup_ok) as [H _];
    [repeat constructor; lia|lia|lia|exact HL|].
  destruct (H 3 [3; 4]) as (vs & v & H1 & H2).
  - repeat constructor; rewrite ?elem_of_cons, ?elem_of_nil; lia.
  - intros c Hc. apply list_elem_of_In in Hc. destruct Hc as [<-|[<-|[]]]; split; done || lia.
  - exists L, vs, v. destruct H2 as [H2 H3]; [done|]. split; [done|]. split; [exact H1|]. split; [exact H2|]. split; [|exact H3].
    vm_compute in E. injection E as <-. vm_compute in H2. by injection H2 as <-.
Defined.
