(* ===== verification/Hierarchy.v ===== *)
(** * The hierarchy of interfaces (interface_hierarchy.go, if_counter_rollup.go)

    Which interfaces are subinterfaces of which is read from two places: a name
    of the form <parent>.<unit>, and the rows of ifStackTable.  The state engine
    follows a parent one level down, the counters follow child, aggregate and
    member: three levels.  The file models how both tables are built and proves
    that they have that shape. *)

From stdpp Require Import gmap.
From S2P Require Import Prelude GoStrings IfState CounterHold.

(** ** Names *)

Definition splitSubinterfaceName (name : bytes) : option (bytes * bytes) :=
  let d := LastIndexByte name dot in
  if d <=? 0 then None else
  let suffix := drop (Z.to_nat (d + 1)) name in
  match ParseUint suffix 32 with
  | (v, None) => if beq (FormatUint v) suffix then Some (take (Z.to_nat d) name, suffix) else None
  | _ => None
  end.

(** ** ifStackTable *)

Definition ifStackStatusPrefix : bytes := str "1.3.6.1.2.1.31.1.2.1.3.".

Record stackLayers := {
  sl_parents : gmap Z Z;
  sl_members : gmap Z (list Z);
}.

Record stackState := {
  lower : gmap Z (list Z);
  rows : gmap Z Z;
  seen : gset (Z * Z);
}.

(** The body of the loop over the rows of the file: an OID and a response. *)
Definition stack_row (known : gset Z) (s : stackState) (e : bytes * bytes) : stackState :=
  let '(rest, ok) := CutPrefix (TrimPrefix (fst e) (str ".")) ifStackStatusPrefix in
  if negb ok || negb (beq (snd e) (str "1")) then s else
  let '(hs, ls, ok) := Cut rest dot in
  let '(h, ok1) := Atoi hs in
  let '(l, ok2) := Atoi ls in
  if negb ok || negb ok1 || negb ok2 || negb (bool_decide (h ∈ known)) || (l =? 0) || (h =? l) then s
  else if bool_decide ((h, l) ∈ seen s) then s
  else
  let rows' := <[h := default 0 (rows s !! h) + 1]> (rows s) in
  let seen' := {[(h, l)]} ∪ seen s in
  if negb (bool_decide (l ∈ known)) then {| lower := lower s; rows := rows'; seen := seen' |}
  else {| lower := <[h := default [] (lower s !! h) ++ [l]]> (lower s); rows := rows'; seen := seen' |}.

Definition single_lower (rows : gmap Z Z) (h : Z) (ls : list Z) : option Z :=
  if 2 <=? len ls then None else if 2 <=? default 0 (rows !! h) then None else ls !! 0%nat.

Definition readStackLayers (entries : list (bytes * bytes)) (known : gset Z) : stackLayers :=
  let s := fold_left (stack_row known) entries {| lower := ∅; rows := ∅; seen := ∅ |} in
  {| sl_parents := map_imap (single_lower (rows s)) (lower s);
     sl_members := filter (fun hl => 2 <= len (snd hl)) (lower s) |}.

(** ** Parents *)

(** The first ifIndex of each name. *)
Definition index_name (names : gmap Z bytes) (m : gmap bytes Z) (idx : Z) : gmap bytes Z :=
  let name := default [] (names !! idx) in
  if bool_decide (is_Some (m !! name)) || beq name [] then m else <[name := idx]> m.

Definition parent_by_name (names : gmap Z bytes) (byName : gmap bytes Z) (parents : gmap Z Z) (idx : Z) : gmap Z Z :=
  match splitSubinterfaceName (default [] (names !! idx)) with
  | None => parents
  | Some (p, _) =>
      match byName !! p with
      | Some pIdx => if pIdx =? idx then parents else <[idx := pIdx]> parents
      | None => parents
      end
  end.

(** A child whose parent is a child. *)
Definition is_nested (parents : gmap Z Z) (idx : Z) : bool :=
  match parents !! idx with Some p => bool_decide (is_Some (parents !! p)) | None => false end.

Definition interfaceParents (names : gmap Z bytes) (stacked : gmap Z Z) : gmap Z Z :=
  let idxs := sorted_keys names in
  let byName := fold_left (index_name names) idxs ∅ in
  let parents := fold_left (parent_by_name names byName) idxs ∅ ∪ stacked in
  fold_left (fun m idx => delete idx m) (List.filter (is_nested parents) idxs) parents.

Definition subinterfaceParents (names : gmap Z bytes) : gmap Z Z := interfaceParents names ∅.

(** ** The counter hierarchy

    The tables of [buildRollup]; the packet profiles and bases it reseeds are
    floating-point dials and are not part of the hierarchy. *)

Definition usable_member (parents : gmap Z Z) (members : gmap Z (list Z)) (claimed : gmap Z Z) (m : Z) : bool :=
  (default 0 (claimed !! m) =? 0) && (default 0 (parents !! m) =? 0) && bool_decide (members !! m = None).

Definition claim_members (parents : gmap Z Z) (members : gmap Z (list Z)) (st : list (list Z) * gmap Z Z) (agg : Z)
    : list (list Z) * gmap Z Z :=
  let '(table, claimed) := st in
  let ms := List.filter (usable_member parents members claimed) (default [] (members !! agg)) in
  if len ms <? 2 then st
  else (<[Z.to_nat (agg - 1) := ms]> table, fold_left (fun c m => <[m := agg]> c) ms claimed).

Definition buildRollup (maxIfIndex : Z) (ifSpeedBps : list Z) (parents : gmap Z Z) (members : gmap Z (list Z)) : Rollup :=
  let aggregates := List.filter (fun agg => negb (bool_decide (is_Some (parents !! agg)))) (sorted_keys members) in
  let '(table, _) := fold_left (claim_members parents members) aggregates (zeros maxIfIndex [], ∅) in
  let children := List.filter (fun c => negb (at_slot ifSpeedBps (c - 1) 0 =? 0)) (sorted_keys parents) in
  let par := fold_left (fun t c => <[Z.to_nat (c - 1) := default 0 (parents !! c)]> t) children (zeros maxIfIndex 0) in
  {| counterParent := par; CounterHold.members := Some table |}.

(** ** Both tables have their shape *)

Lemma filter_elem {A} (f : A -> bool) l x : x ∈ List.filter f l <-> x ∈ l /\ f x = true.
Proof. rewrite !list_elem_of_In. apply filter_In. Qed.

Lemma delete_all (l : list Z) : forall (m : gmap Z Z) c,
  fold_left (fun m idx => delete idx m) l m !! c = if bool_decide (c ∈ l) then None else m !! c.
Proof.
  induction l as [|i l IH]; intros m c; cbn [fold_left]; [done|]. rewrite IH.
  destruct (decide (c ∈ l)) as [H|H], (decide (c = i)) as [->|Hne].
  - by rewrite !bool_decide_eq_true_2 by (done || by left).
  - by rewrite !bool_decide_eq_true_2 by (done || by right).
  - rewrite lookup_delete_eq, (bool_decide_eq_true_2 (i ∈ i :: l)) by left. by case_bool_decide.
  - rewrite lookup_delete_ne by done. rewrite !bool_decide_eq_false_2; [done| |done]. rewrite elem_of_cons. by intros [?|?].
Qed.

(** Parents and children the name rule finds are interfaces of the device. *)
Lemma byName_dom names idxs n i :
  (forall x, x ∈ idxs -> is_Some (names !! x)) -> fold_left (index_name names) idxs ∅ !! n = Some i -> is_Some (names !! i).
Proof.
  intros Hidx. revert n i. apply (fold_left_inv (fun m : gmap bytes Z => forall n i, m !! n = Some i -> is_Some (names !! i))).
  - intros n i H. by rewrite lookup_empty in H.
  - intros m x Hx IH n i. unfold index_name. destruct (_ || _); [apply IH|]. rewrite lookup_insert.
    case_decide; [intros [= <-]; by apply Hidx|apply IH].
Qed.

Lemma parents_by_name_dom names idxs byName c p :
  (forall x, x ∈ idxs -> is_Some (names !! x)) -> (forall n i, byName !! n = Some i -> is_Some (names !! i)) ->
  fold_left (parent_by_name names byName) idxs ∅ !! c = Some p -> is_Some (names !! c) /\ is_Some (names !! p).
Proof.
  intros Hidx Hby. revert c p.
  apply (fold_left_inv (fun m : gmap Z Z => forall c p, m !! c = Some p -> is_Some (names !! c) /\ is_Some (names !! p))).
  - intros c p H. by rewrite lookup_empty in H.
  - intros m x Hx IH c p. unfold parent_by_name. destruct (splitSubinterfaceName _) as [[pn u]|]; [|apply IH].
    destruct (byName !! pn) as [i|] eqn:Ei; [|apply IH]. case_if; [apply IH|]. rewrite lookup_insert.
    case_decide; [intros [= <-]; subst; split; [by apply Hidx|by eapply Hby]|apply IH].
Qed.

Lemma interfaceParents_spec names stacked :
  exists P, (forall c p, P !! c = Some p -> (is_Some (names !! c) /\ is_Some (names !! p)) \/ stacked !! c = Some p) /\
    forall c, interfaceParents names stacked !! c =
      if bool_decide (is_Some (names !! c)) && is_nested P c then None else P !! c.
Proof.
  unfold interfaceParents. destruct (sorted_keys_spec names) as [_ Hk].
  set (byName := fold_left (index_name names) (sorted_keys names) ∅).
  exists (fold_left (parent_by_name names byName) (sorted_keys names) ∅ ∪ stacked). split.
  - intros c p. rewrite lookup_union_Some_raw. intros [H|[_ H]]; [left|by right].
    eapply (parents_by_name_dom names (sorted_keys names) byName); [intros x Hx; by apply Hk| |exact H].
    intros n i. apply byName_dom. intros x Hx. by apply Hk.
  - intros c. rewrite delete_all. destruct (is_nested _ c) eqn:En.
    + rewrite andb_true_r. destruct (decide (is_Some (names !! c))) as [H|H].
      * by rewrite !bool_decide_eq_true_2 by (done || (apply filter_elem; split; [by apply Hk|done])).
      * rewrite !bool_decide_eq_false_2; [done|done|]. intros [Hin _]%filter_elem. by apply Hk in Hin.
    + rewrite andb_false_r, bool_decide_eq_false_2; [done|]. intros [_ Hin]%filter_elem. congruence.
Qed.

Lemma interfaceParents_one_level names stacked :
  (forall h, is_Some (stacked !! h) -> is_Some (names !! h)) -> one_level (interfaceParents names stacked).
Proof.
  intros Hst c p. destruct (interfaceParents_spec names stacked) as (P & HP & Heq). rewrite !Heq.
  destruct (bool_decide _ && is_nested P c) eqn:E; [done|]. intros Hc.
  assert (Hn : is_Some (names !! c)) by (destruct (HP c p Hc) as [[? _]|H]; [done|apply Hst; by eexists]).
  rewrite (bool_decide_eq_true_2 _ Hn) in E. cbn [andb] in E. unfold is_nested in E. rewrite Hc in E. zbool.
  case_if; [done|]. by rewrite eq_None_not_Some.
Qed.

(** Every layer of the stack table is a known interface. *)
Lemma readStackLayers_known entries known :
  let s := fold_left (stack_row known) entries {| lower := ∅; rows := ∅; seen := ∅ |} in
  forall h ls, lower s !! h = Some ls -> h ∈ known /\ forall l, l ∈ ls -> l ∈ known.
Proof.
  cbn. apply (fold_left_inv (fun s => forall h ls, lower s !! h = Some ls -> h ∈ known /\ forall l, l ∈ ls -> l ∈ known)).
  - intros h ls H. by rewrite lookup_empty in H.
  - intros s e _ IH h ls. unfold stack_row. destruct (CutPrefix _ _) as [rest ok]. destruct (_ || _); [apply IH|].
    destruct (Cut rest dot) as [[hs lo] ok']. destruct (Atoi hs) as [x okx]. destruct (Atoi lo) as [y oky].
    destruct (_ || (x =? y)) eqn:E; [apply IH|]. destruct (bool_decide ((x, y) ∈ seen s)); [apply IH|].
    assert (Hx : x ∈ known) by (destruct (decide (x ∈ known)) as [?|Hx]; [done|]; rewrite (bool_decide_eq_false_2 _ Hx) in E;
      cbn [negb] in E; rewrite !orb_true_r in E; cbn in E; discriminate).
    destruct (bool_decide (y ∈ known)) eqn:Ey; cbn [negb lower]; [|apply IH]. rewrite lookup_insert.
    destruct (decide (x = h)) as [Eh|_]; [|apply IH]. subst h. intros [= <-]. split; [done|]. intros l. rewrite elem_of_app, list_elem_of_singleton.
    intros [Hl| ->]; [|by apply bool_decide_eq_true in Ey]. destruct (lower s !! x) as [ls'|] eqn:El; [by apply (IH x ls')|].
    by apply elem_of_nil in Hl.
Qed.

Lemma sl_parents_known entries known h l :
  sl_parents (readStackLayers entries known) !! h = Some l -> h ∈ known /\ l ∈ known.
Proof.
  cbn. rewrite map_lookup_imap. intros H. apply bind_Some in H as (ls & Hls & H).
  destruct (readStackLayers_known entries known h ls Hls) as [H1 H2]. split; [done|].
  unfold single_lower in H. repeat case_match; try discriminate. apply H2. by eapply list_elem_of_lookup_2.
Qed.

Lemma sl_members_known entries known h ls :
  sl_members (readStackLayers entries known) !! h = Some ls -> h ∈ known /\ forall l, l ∈ ls -> l ∈ known.
Proof. cbn. rewrite map_lookup_filter_Some. intros [H _]. by eapply readStackLayers_known. Qed.

Section rollup.
Context (n : Z) (speeds : list Z) (parents : gmap Z Z) (members : gmap Z (list Z)).
Hypothesis Hn : 0 <= n.
Hypothesis Hpar : forall c p, parents !! c = Some p -> 1 <= c <= n /\ 1 <= p <= n.
Hypothesis Hmem : forall a ms, members !! a = Some ms -> 1 <= a <= n /\ forall m, m ∈ ms -> 1 <= m <= n.
Hypothesis Hone : one_level parents.

Definition table_ok (table : list (list Z)) : Prop :=
  len table = n /\ forall j, 0 <= j -> at_slot table j [] <> [] ->
    is_Some (members !! (j + 1)) /\ parents !! (j + 1) = None /\
    forall m, m ∈ at_slot table j [] -> 1 <= m <= n /\ parents !! m = None /\ members !! m = None.

Lemma claim_members_ok st agg :
  table_ok (fst st) -> is_Some (members !! agg) -> parents !! agg = None -> table_ok (fst (claim_members parents members st agg)).
Proof.
  destruct st as [table claimed]. intros [Hl Ht] [ms Hms] Hp. unfold claim_members. cbn [fst] in *. rewrite Hms. cbn [default].
  destruct (Hmem agg ms Hms) as [Hagg Hin]. case_if; [done|]. cbn [fst]. split; [unfold len in *; by rewrite length_insert|].
  intros j Hj. rewrite at_slot_insert by lia. case_if; zbool; [|by apply Ht]. subst j. replace (agg - 1 + 1) with agg by lia.
  intros _. split; [by eexists|]. split; [done|]. intros m [Hm Hu]%filter_elem. split; [by apply Hin|].
  unfold usable_member in Hu. apply andb_true_iff in Hu as [[_ Hu1%Z.eqb_eq]%andb_true_iff Hu2%bool_decide_eq_true]. split; [|done].
  destruct (parents !! m) as [p|] eqn:Ep; [|done]. cbn in Hu1. destruct (Hpar m p Ep). lia.
Qed.

Lemma at_slot_nonzero_parents : forall cs t, (forall c, c ∈ cs -> is_Some (parents !! c)) -> len t = n ->
  (forall j, 0 <= j -> at_slot t j 0 <> 0 -> parents !! (j + 1) = Some (at_slot t j 0)) ->
  forall j, 0 <= j -> let t' := fold_left (fun t c => <[Z.to_nat (c - 1) := default 0 (parents !! c)]> t) cs t in
    at_slot t' j 0 <> 0 -> parents !! (j + 1) = Some (at_slot t' j 0).
Proof.
  induction cs as [|c cs IH]; intros t Hcs Hl Ht j Hj; [by apply Ht|]. cbn [fold_left]. destruct (Hcs c ltac:(left)) as [p Hp].
  destruct (Hpar c p Hp) as [Hc _]. apply IH; [intros x Hx; apply Hcs; by right|unfold len in *; by rewrite length_insert| |done].
  intros i Hi. rewrite at_slot_insert by lia. case_if; zbool; [|by apply Ht]. subst i. replace (c - 1 + 1) with c by lia. by rewrite Hp.
Qed.

Lemma buildRollup_ok : hierarchy_ok (buildRollup n speeds parents members) n.
Proof.
  unfold buildRollup.
  set (aggs := List.filter _ (sorted_keys members)). set (kids := List.filter _ (sorted_keys parents)).
  destruct (fold_left (claim_members parents members) aggs (zeros n [], ∅)) as [table claimed] eqn:Ef.
  assert (Ht : table_ok table).
  { replace table with (fst (fold_left (claim_members parents members) aggs (zeros n [], ∅))) by by rewrite Ef.
    apply (fold_left_inv (fun st => table_ok (fst st))).
    - split; [unfold len, zeros; cbn; rewrite length_replicate; lia|]. intros j _. cbn [fst]. by rewrite at_slot_zeros.
    - intros st x Hx Hst. apply filter_elem in Hx as [Hx Hb]. apply negb_true_iff, bool_decide_eq_false, eq_None_not_Some in Hb.
      apply claim_members_ok; [done| |done]. by apply (sorted_keys_spec members). }
  set (par := fold_left _ kids (zeros n 0)).
  assert (Hp : forall j, 0 <= j -> at_slot par j 0 <> 0 -> parents !! (j + 1) = Some (at_slot par j 0)).
  { intros j Hj. apply at_slot_nonzero_parents; [|unfold len, zeros; rewrite length_replicate; lia| |done].
    - intros c [Hc _]%filter_elem. by apply (sorted_keys_spec parents).
    - intros i _. by rewrite at_slot_zeros. }
  clearbody par. clear Ef. intros slot Hs. unfold rank, kind. cbn [CounterHold.members counterParent]. destruct Ht as [_ Ht].
  destruct (at_slot table slot []) as [|m0 ms] eqn:Es.
  - destruct (at_slot par slot 0 =? 0) eqn:Ep; zbool; [done|]. pose proof (Hp slot ltac:(lia) Ep) as Hps.
    destruct (Hpar _ _ Hps) as [_ Hr]. split; [done|]. destruct (at_slot table (at_slot par slot 0 - 1) []); [|lia].
    destruct (at_slot par (at_slot par slot 0 - 1) 0 =? 0) eqn:Ep2; [lia|]. zbool.
    pose proof (Hp (at_slot par slot 0 - 1) ltac:(lia) Ep2) as Hps2. rewrite Z.sub_add in Hps2. rewrite (Hone _ _ Hps) in Hps2. done.
  - intros m Hm. destruct (Ht slot ltac:(lia)) as (_ & _ & Hms); [by rewrite Es|]. rewrite Es in Hms.
    destruct (Hms m Hm) as (Hr & Hm1 & Hm2). split; [done|].
    destruct (at_slot table (m - 1) []) as [|x xs] eqn:Ex.
    + destruct (at_slot par (m - 1) 0 =? 0) eqn:Ep; [done|]. zbool. pose proof (Hp (m - 1) ltac:(lia) Ep) as H.
      rewrite Z.sub_add, Hm1 in H. done.
    + destruct (Ht (m - 1) ltac:(lia)) as ([? H] & _); [by rewrite Ex|]. rewrite Z.sub_add, Hm2 in H. done.
Qed.
End rollup.

Lemma hierarchy_shape_lemma entries known names speeds n :
  0 <= n -> (forall i, i ∈ known -> 1 <= i <= n) -> (forall i, i ∈ known <-> is_Some (names !! i)) ->
  let layers := readStackLayers entries known in
  let parents := interfaceParents names (sl_parents layers) in
  one_level parents /\ hierarchy_ok (buildRollup n speeds parents (sl_members layers)) n.
Proof.
  intros Hn Hk Hnames layers parents.
  assert (Hone : one_level parents).
  { apply interfaceParents_one_level. intros h [l Hl]. by apply Hnames, (sl_parents_known entries known h l). }
  split; [done|]. apply buildRollup_ok; [done| | |done].
  - intros c p Hc. unfold parents in Hc. destruct (interfaceParents_spec names (sl_parents layers)) as (P & HP & Heq).
    rewrite Heq in Hc. destruct (_ && _); [done|]. destruct (HP c p Hc) as [[H1 H2]|H].
    + split; apply Hk; by apply Hnames.
    + destruct (sl_parents_known entries known c p H). split; by apply Hk.
  - intros a ms Ha. destruct (sl_members_known entries known a ms Ha) as [H1 H2]. split; [by apply Hk|]. intros m Hm. by apply Hk, H2.
Qed.

(** ** Theorems *)


(** A bundle 3 over ports 1 and 2, a unit of it by name, and a service 5 stacked
    on the unit, which is nested and dropped. *)
Definition sampleNames : gmap Z bytes :=
  <[1 := str "et0"]> (<[2 := str "et1"]> (<[3 := str "ae0"]> (<[4 := str "ae0.100"]> (<[5 := str "svc"]> ∅)))).
Definition sampleStack : list (bytes * bytes) :=
  map (fun s => (str ".1.3.6.1.2.1.31.1.2.1.3." ++ s, str "1")) [str "3.1"; str "3.2"; str "5.4"; str "1.0"].

Example sampleParents :
  map_to_list (interfaceParents sampleNames (sl_parents (readStackLayers sampleStack {[1; 2; 3; 4; 5]}))) = [(4, 3)].
Proof. vm_compute. reflexivity. Qed.


(** Two interfaces without a name, stacked on each other. *)
Definition unnamedStack : list (bytes * bytes) :=
  [(str ".1.3.6.1.2.1.31.1.2.1.3.1.2", str "1"); (str ".1.3.6.1.2.1.31.1.2.1.3.2.1", str "1")].
Definition unnamedRollup : Rollup :=
  let layers := readStackLayers unnamedStack {[1; 2]} in
  buildRollup 2 [1000; 1000] (interfaceParents ∅ (sl_parents layers)) (sl_members layers).

(** Only named interfaces are checked for nesting.  Two interfaces that the
    stack table puts on each other and that have no ifDescr row keep each other as
    parents, and a read of their counters does not end at any depth. *)
Theorem unnamed_stack_loops D L fuel t b :
  run L (rawDeltaAt D unnamedRollup fuel 0 t b) = None.
Proof.
  assert (E : unnamedRollup = {| counterParent := [2; 1]; members := Some [[]; []] |}) by (vm_compute; reflexivity). rewrite E. clear E.
  assert (H : forall fuel slot t, slot = 0 \/ slot = 1 ->
    run L (rawDeltaAt D {| counterParent := [2; 1]; members := Some [[]; []] |} fuel slot t b) = None); [|apply H; by left].
  clear t fuel. induction fuel as [|fuel IH]; intros slot t Hs; [done|]. cbn [rawDeltaAt CounterHold.members counterParent].
  assert (Hheld : forall s h t, s = 0 \/ s = 1 ->
    run L (heldDeltaFor (fun t => rawDeltaAt D {| counterParent := [2; 1]; members := Some [[]; []] |} fuel s t b) h t b) = None).
  { intros s [h|] t' Hs'; cbn [heldDeltaFor]; [|by apply IH]. by rewrite run_pbind, IH. }
  destruct Hs as [-> | ->].
  - change (at_slot [[]; []] 0 []) with (@nil Z). change (at_slot [2; 1] 0 0) with 2. cbn [Z.eqb negb]. rewrite run_pbind.
    cbn [run]. rewrite Hheld; [done|by right].
  - change (at_slot [[]; []] 1 []) with (@nil Z). change (at_slot [2; 1] 1 0) with 1. cbn [Z.eqb negb]. rewrite run_pbind.
    cbn [run]. rewrite Hheld; [done|by left].
Qed.
