(* ===== verification/IfCounters.v ===== *)
(** * The interface counters (if_counters.go)

    The counter cycler answers the dynamic columns of ifTable and ifXTable: the
    three state columns from the interface state engine, the counters from the
    held octet deltas of [CounterHold].  The file models how the cycler is built
    from a resource file, the value of every column and the successor search of a
    walk, and proves that the cycler keeps the promises [IfCounterLaws] that the
    walk over the whole MIB is built on.

    The splits of octets into packets are floating-point arithmetic and enter as
    the parameter [PacketDials]. *)

From stdpp Require Import gmap.
From S2P Require Import Prelude GoStrings Oid TypedValue OidOrder OidPrefix Walk IfState CounterHold Hierarchy.

(** ** Columns *)

Definition ifTablePrefix : bytes := str ".1.3.6.1.2.1.2.2.1.".
Definition ifXTablePrefix : bytes := str ".1.3.6.1.2.1.31.1.1.1.".
Definition hcInOIDPrefix : bytes := ifXTablePrefix ++ str "6.".
Definition maxResourceIfIndex : Z := 65535.

Definition colIfInMulticastPkts : Z := 2.
Definition colIfInBroadcastPkts : Z := 3.
Definition colIfOutMulticastPkts : Z := 4.
Definition colIfOutBroadcastPkts : Z := 5.
Definition colIfHCInOctets : Z := 6.
Definition colIfHCInUcastPkts : Z := 7.
Definition colIfHCInMulticastPkts : Z := 8.
Definition colIfHCInBroadcastPkts : Z := 9.
Definition colIfHCOutOctets : Z := 10.
Definition colIfHCOutUcastPkts : Z := 11.
Definition colIfHCOutMulticastPkts : Z := 12.
Definition colIfHCOutBroadcastPkts : Z := 13.
Definition colIfAdminStatus : Z := 7.
Definition colIfOperStatus : Z := 8.
Definition colIfLastChange : Z := 9.
Definition colIfInOctets : Z := 10.
Definition colIfInUcastPkts : Z := 11.
Definition colIfInDiscards : Z := 13.
Definition colIfInErrors : Z := 14.
Definition colIfOutOctets : Z := 16.
Definition colIfOutUcastPkts : Z := 17.
Definition colIfOutDiscards : Z := 19.
Definition colIfOutErrors : Z := 20.

(** A column: whether it is of ifXTable, and its number. *)
Record ifColumn := { isX : bool; col : Z }.
Definition prefixOf (isIfX : bool) : bytes := if isIfX then ifXTablePrefix else ifTablePrefix.

Definition ifCyclerColumns : list ifColumn :=
  map (fun c => {| isX := false; col := c |})
    [colIfAdminStatus; colIfOperStatus; colIfLastChange; colIfInOctets; colIfInUcastPkts; colIfInDiscards; colIfInErrors;
     colIfOutOctets; colIfOutUcastPkts; colIfOutDiscards; colIfOutErrors] ++
  map (fun c => {| isX := true; col := c |})
    [colIfInMulticastPkts; colIfInBroadcastPkts; colIfOutMulticastPkts; colIfOutBroadcastPkts; colIfHCInOctets;
     colIfHCInUcastPkts; colIfHCInMulticastPkts; colIfHCInBroadcastPkts; colIfHCOutOctets; colIfHCOutUcastPkts;
     colIfHCOutMulticastPkts; colIfHCOutBroadcastPkts].

Definition stateEnumStrings : list bytes := map str ["0"; "1"; "2"; "3"; "4"; "5"; "6"; "7"].
Definition operEnumString (v : Z) : bytes :=
  if (v <? OperUp) || (OperLowerLayerDn <? v) then str "0" else nth (Z.to_nat v) stateEnumStrings [].
Definition adminEnumString (v : Z) : bytes :=
  if (v <? AdminUp) || (AdminTesting <? v) then str "0" else nth (Z.to_nat v) stateEnumStrings [].

Definition isStateCol (c : ifColumn) : bool :=
  negb (isX c) && ((col c =? colIfAdminStatus) || (col c =? colIfOperStatus) || (col c =? colIfLastChange)).

(** ** The cycler *)

Inductive cast := Ucast | Mcast | Bcast.

(** [pktPart slot inbound c octets]: [uint64(octets / pktSize * ratio)];
    [pktTotal slot inbound octets]: [uint64(octets / pktSize)]. *)
Record PacketDials := {
  pktPart : Z -> bool -> cast -> Z -> Z;
  pktTotal : Z -> bool -> Z -> Z;
}.

(** The bases and error rates of one interface. *)
Record ifBases := {
  baseOctets : bool -> Z;
  basePkts : bool -> cast -> Z;
  baseErr : bool -> Z;
  baseDisc : bool -> Z;
  errPpm : bool -> Z;
  discPpm : bool -> Z;
}.

Record IfCounterCycler := {
  ic_maxIfIndex : Z;
  knownIfIndexes : gset Z;
  sortedIfIndexes : list Z;
  ic_firstDynOID : bytes;
  ic_lastDynOID : bytes;
  bases : list ifBases;
  dials : Dials;
  packetDials : PacketDials;
  rollup : Rollup;
  ic_hold : ledger;
  ic_state : option InterfaceState;
}.

Definition packets (ic : IfCounterCycler) (b : ifBases) (slot octets : Z) (inbound : bool) (c : cast) : Z :=
  u64 (basePkts b inbound c + pktPart (packetDials ic) slot inbound c octets).

Definition fmtU64 (v : Z) : bytes := FormatUint v.
Definition fmtU32 (v : Z) : bytes := FormatUint v.
(** [fmtU32(uint32(v & 0xFFFFFFFF))] *)
Definition shadow32 (v : Z) : bytes := fmtU32 (u32 (Z.land v 0xFFFFFFFF)).

(** ** The value of a column *)

Definition stateColumn (s : InterfaceState) (c ifIndex : Z) : option bytes :=
  if c =? colIfAdminStatus then Some (adminEnumString (AdminStatus s ifIndex))
  else if c =? colIfOperStatus then Some (operEnumString (OperStatus s ifIndex))
  else if c =? colIfLastChange then
    let lastUnixNs := LastChangeNs s ifIndex in
    if (lastUnixNs =? LastChangeRewindSentinel) || (lastUnixNs <=? bootTimeUnixNs s) then Some (str "0")
    else Some (FormatUint (u64 (lastUnixNs - bootTimeUnixNs s) / 10000000))
  else None.

Definition ifXColumn (ic : IfCounterCycler) (b : ifBases) (c slot inDelta outDelta : Z) : bytes :=
  if c =? colIfInMulticastPkts then shadow32 (packets ic b slot inDelta true Mcast)
  else if c =? colIfInBroadcastPkts then shadow32 (packets ic b slot inDelta true Bcast)
  else if c =? colIfOutMulticastPkts then shadow32 (packets ic b slot outDelta false Mcast)
  else if c =? colIfOutBroadcastPkts then shadow32 (packets ic b slot outDelta false Bcast)
  else if c =? colIfHCInOctets then fmtU64 (u64 (baseOctets b true + inDelta))
  else if c =? colIfHCInUcastPkts then fmtU64 (packets ic b slot inDelta true Ucast)
  else if c =? colIfHCInMulticastPkts then fmtU64 (packets ic b slot inDelta true Mcast)
  else if c =? colIfHCInBroadcastPkts then fmtU64 (packets ic b slot inDelta true Bcast)
  else if c =? colIfHCOutOctets then fmtU64 (u64 (baseOctets b false + outDelta))
  else if c =? colIfHCOutUcastPkts then fmtU64 (packets ic b slot outDelta false Ucast)
  else if c =? colIfHCOutMulticastPkts then fmtU64 (packets ic b slot outDelta false Mcast)
  else if c =? colIfHCOutBroadcastPkts then fmtU64 (packets ic b slot outDelta false Bcast)
  else [].

(** [base + totalDeltaPkts * ppm / 1e6], in 64 bits. *)
Definition ppmCount (ic : IfCounterCycler) (slot delta : Z) (inbound : bool) (base ppm : Z) : bytes :=
  let totalDeltaPkts := pktTotal (packetDials ic) slot inbound delta in
  shadow32 (u64 (base + u64 (totalDeltaPkts * ppm) / 1000000)).

Definition ifTableColumn (ic : IfCounterCycler) (b : ifBases) (c slot inDelta outDelta : Z) : bytes :=
  if c =? colIfInOctets then shadow32 (u64 (baseOctets b true + inDelta))
  else if c =? colIfOutOctets then shadow32 (u64 (baseOctets b false + outDelta))
  else if c =? colIfInUcastPkts then shadow32 (packets ic b slot inDelta true Ucast)
  else if c =? colIfOutUcastPkts then shadow32 (packets ic b slot outDelta false Ucast)
  else if c =? colIfInErrors then ppmCount ic slot inDelta true (baseErr b true) (errPpm b true)
  else if c =? colIfInDiscards then ppmCount ic slot inDelta true (baseDisc b true) (discPpm b true)
  else if c =? colIfOutErrors then ppmCount ic slot outDelta false (baseErr b false) (errPpm b false)
  else if c =? colIfOutDiscards then ppmCount ic slot outDelta false (baseDisc b false) (discPpm b false)
  else [].

Definition columnValue (ic : IfCounterCycler) (ifX : bool) (c ifIndex t : Z) : res bytes :=
  let slot := ifIndex - 1 in
  let counter :=
    match run (ic_hold ic) (heldDeltasAt (dials ic) (rollup ic) (len (ic_hold ic)) slot t) with
    | None => Diverge
    | Some (inDelta, outDelta) =>
        let! b := index (bases ic) slot in
        Ok (if ifX then ifXColumn ic b c slot inDelta outDelta else ifTableColumn ic b c slot inDelta outDelta)
    end in
  match ic_state ic with
  | Some s => if ifX then counter else match stateColumn s c ifIndex with Some v => Ok v | None => counter end
  | None => counter
  end.

Definition GetDynamicAt (ic : IfCounterCycler) (oid : bytes) (t : Z) : res bytes :=
  let dispatch ifX suffix :=
    let d := IndexByte suffix dot in
    if (d <=? 0) || (d =? len suffix - 1) then Ok [] else
    let '(c, ok) := Atoi (take (Z.to_nat d) suffix) in
    if negb ok then Ok [] else
    let '(ifIndex, ok) := Atoi (drop (Z.to_nat (d + 1)) suffix) in
    if negb ok || (ifIndex <? 1) || (ic_maxIfIndex ic <? ifIndex) then Ok []
    else if negb (bool_decide (ifIndex ∈ knownIfIndexes ic)) then Ok []
    else columnValue ic ifX c ifIndex t in
  if HasPrefix oid ifXTablePrefix then dispatch true (drop (length ifXTablePrefix) oid)
  else if HasPrefix oid ifTablePrefix then dispatch false (drop (length ifTablePrefix) oid)
  else Ok [].

(** ** The successor *)

Definition rowOID (c : ifColumn) (ifIndex : Z) : bytes := prefixOf (isX c) ++ Itoa (col c) ++ str "." ++ Itoa ifIndex.

(** [for colIdx < len && isStateCol(...) { colIdx++ }] *)
Fixpoint skipStateCols (cols : list ifColumn) : list ifColumn :=
  match cols with
  | c :: cols' => if isStateCol c then skipStateCols cols' else cols
  | [] => []
  end.

(** [cols] are the columns from [colIdx] on. *)
Definition emitFromColumn (ic : IfCounterCycler) (t : Z) (cols : list ifColumn) (ifIndex : Z) : res (bytes * bytes) :=
  let cols := match ic_state ic with None => skipStateCols cols | Some _ => cols end in
  match cols with
  | [] => Ok ([], [])
  | c :: _ =>
      let oid := rowOID c ifIndex in
      let! val := GetDynamicAt ic oid t in
      Ok (if beq val [] then ([], []) else (oid, val))
  end.

(** Where a suffix of a table's prefix points: no readable column, or a column
    and the instance within it, [None] when the instance cannot be ordered. *)
Definition parseSuffix (suffix : bytes) : option (Z * option Z) :=
  let d := IndexByte suffix dot in
  if 0 <? d then
    match Atoi (take (Z.to_nat d) suffix) with
    | (c, true) =>
        let inst := drop (Z.to_nat (d + 1)) suffix in
        let extra := IndexByte inst dot in
        let inst := if 0 <=? extra then take (Z.to_nat extra) inst else inst in
        if beq inst [] then Some (c, Some 0)
        else match Atoi inst with
             | (idx, true) => if idx <? 0 then Some (c, None) else Some (c, Some idx)
             | (_, false) => Some (c, None)
             end
    | (_, false) => None
    end
  else if (d <? 0) && negb (beq suffix []) then
    match Atoi suffix with (c, true) => Some (c, Some 0) | (_, false) => None end
  else None.

(** The columns from the first one at or after (table, number) on. *)
Fixpoint columnsFrom (isIfX : bool) (c : Z) (cols : list ifColumn) : list ifColumn :=
  match cols with
  | [] => []
  | tc :: cols' =>
      if isIfX && negb (isX tc) then columnsFrom isIfX c cols'
      else if negb isIfX && isX tc then cols
      else if c <=? col tc then cols
      else columnsFrom isIfX c cols'
  end.
(** The columns from the first one of a table on. *)
Fixpoint columnsOf (isIfX : bool) (cols : list ifColumn) : list ifColumn :=
  match cols with
  | [] => []
  | tc :: cols' => if Bool.eqb (isX tc) isIfX then cols else columnsOf isIfX cols'
  end.

(** [sort.SearchInts] on an ascending slice, as the element it finds. *)
Definition searchInts (l : list Z) (x : Z) : option Z := List.find (fun v => x <=? v) l.

(** The row after instance [inst] of the chosen column, or the first row of the
    column after it. *)
Definition nextRow (ic : IfCounterCycler) (t : Z) (chosen : ifColumn) (later : list ifColumn) (first : Z) (inst : option Z)
    : res (bytes * bytes) :=
  let nextColumn := match later with [] => Ok ([], []) | _ => emitFromColumn ic t later first end in
  match inst with
  | None => nextColumn
  | Some ifIndex =>
      match searchInts (sortedIfIndexes ic) (ifIndex + 1) with
      | Some i => emitFromColumn ic t (chosen :: later) i
      | None => nextColumn
      end
  end.

Definition NextDynamicOID (ic : IfCounterCycler) (currentOID : bytes) (t : Z) : res (bytes * bytes) :=
  match sortedIfIndexes ic with
  | [] => Ok ([], [])
  | first :: _ =>
      let inTable isIfX suffix :=
        match parseSuffix suffix with
        | None => match columnsOf isIfX ifCyclerColumns with [] => Ok ([], []) | cols => emitFromColumn ic t cols first end
        | Some (c, inst) =>
            match columnsFrom isIfX c ifCyclerColumns with
            | [] => Ok ([], [])
            | chosen :: later =>
                if Bool.eqb (isX chosen) isIfX && (col chosen =? c) then
                  match ic_state ic with
                  | None => if isStateCol chosen then emitFromColumn ic t (chosen :: later) first
                            else nextRow ic t chosen later first inst
                  | Some _ => nextRow ic t chosen later first inst
                  end
                else emitFromColumn ic t (chosen :: later) first
            end
        end in
      if HasPrefix currentOID ifXTablePrefix then inTable true (drop (length ifXTablePrefix) currentOID)
      else if HasPrefix currentOID ifTablePrefix then inTable false (drop (length ifTablePrefix) currentOID)
      else if compareOIDs currentOID (ic_firstDynOID ic) <? 0 then emitFromColumn ic t ifCyclerColumns first
      else Ok ([], [])
  end.

(** ** Building the cycler *)

Record IfStateConfig := { Scenario : Z; FailurePct : Z }.
Definition IfScenarioAllShutdown : Z := 1.
Definition IfScenarioAllNormal : Z := 2.
Definition IfScenarioAllFailure : Z := 3.
Definition IfScenarioPctFailure : Z := 4.

Definition scenarioSeed (cfg : option IfStateConfig) (ifIndex jsonOper jsonAdmin : Z) : Z * Z :=
  match cfg with
  | None => (jsonOper, jsonAdmin)
  | Some cfg =>
      if Scenario cfg =? IfScenarioAllShutdown then (jsonOper, AdminDown)
      else if Scenario cfg =? IfScenarioAllFailure then (OperDown, AdminUp)
      else if Scenario cfg =? IfScenarioPctFailure then
        (if Z.rem ifIndex 100 <? FailurePct cfg then (OperDown, AdminUp) else (OperUp, AdminUp))
      else (jsonOper, jsonAdmin)
  end.

(** The ifIndex a row of ifHCInOctets declares. *)
Definition declaredIfIndex (oid : bytes) : option Z :=
  if HasPrefix oid hcInOIDPrefix then
    match Atoi (drop (length hcInOIDPrefix) oid) with
    | (idx, true) => if (0 <? idx) && (idx <=? maxResourceIfIndex) then Some idx else None
    | (_, false) => None
    end
  else None.
Definition declaredIfIndexes (index : gmap bytes bytes) : gset Z :=
  list_to_set (omap declaredIfIndex (map fst (map_to_list index))).

Definition sortInts (l : list Z) : list Z := sort_by (fun a b => a - b) l.

(** [ifTablePrefix + "<c>." + idx] and the like in [oidIndex]. *)
Definition rowOf (index : gmap bytes bytes) (isIfX : bool) (c idx : Z) : option bytes :=
  index !! (prefixOf isIfX ++ Itoa c ++ str "." ++ Itoa idx).

Definition readSpeed (index : gmap bytes bytes) (isIfX : bool) (c idx : Z) : option Z :=
  match rowOf index isIfX c idx with
  | Some s => match ParseUint s 64 with (n, None) => Some n | _ => None end
  | None => None
  end.
Definition interfaceSpeed (index : gmap bytes bytes) (idx : Z) : Z :=
  match readSpeed index true 15 idx, readSpeed index false 5 idx with
  | Some mbps, bps => if 0 <? mbps then u64 (mbps * 1000000) else default 0 bps
  | None, Some bps => bps
  | None, None => 1000000000
  end.

(** An enumeration of the file in [1..hi], 1 when missing or out of range. *)
Definition jsonEnum (index : gmap bytes bytes) (c idx hi : Z) : Z :=
  match rowOf index false c idx with
  | Some s => match Atoi s with (n, true) => if (1 <=? n) && (n <=? hi) then n else 1 | (_, false) => 1 end
  | None => 1
  end.
Definition seedInterface (cfg : option IfStateConfig) (index : gmap bytes bytes) (s : InterfaceState) (idx : Z) : InterfaceState :=
  let '(link, admin) := scenarioSeed cfg idx (jsonEnum index colIfOperStatus idx 7) (jsonEnum index colIfAdminStatus idx 3) in
  Seed s idx link admin.

Definition ifNames (index : gmap bytes bytes) (idxs : list Z) : gmap Z bytes :=
  fold_left (fun m idx => match rowOf index false 2 idx with Some v => <[idx := v]> m | None => m end) idxs ∅.
Definition ifLoopbacks (index : gmap bytes bytes) (idxs : list Z) : gset Z :=
  list_to_set (List.filter (fun idx => bool_decide (rowOf index false 3 idx = Some (str "24"))) idxs).

(** The engine of a device: seeded, then given its families. *)
Definition initEngine (cfg : option IfStateConfig) (index : gmap bytes bytes) (snmp : list (bytes * bytes)) (idxs : list Z)
    (maxIdx clock : Z) : res InterfaceState :=
  let! s := newInterfaceStateWithClock maxIdx clock None in
  let s := fold_left (seedInterface cfg index) idxs s in
  let names := ifNames index idxs in
  let layers := readStackLayers snmp (list_to_set idxs) in
  let parents := interfaceParents names (sl_parents layers) in
  let stackedOnly := dom parents ∖ dom (subinterfaceParents names) in
  Ok (setLoopbacks (setStacked (setParents s parents) stackedOnly) (ifLoopbacks index idxs)).

Definition initRollup (index : gmap bytes bytes) (snmp : list (bytes * bytes)) (idxs : list Z) (maxIdx : Z) (speeds : list Z) : Rollup :=
  let layers := readStackLayers snmp (list_to_set idxs) in
  buildRollup maxIdx speeds (interfaceParents (ifNames index idxs) (sl_parents layers)) (sl_members layers).

(** The link speeds and the counter hierarchy of a device. *)
Definition deviceTables (index : gmap bytes bytes) (snmp : list (bytes * bytes)) (sorted : list Z) : list Z * Rollup :=
  let maxIdx := List.last sorted 0 in
  let speeds := fold_left (fun l idx => <[Z.to_nat (idx - 1) := interfaceSpeed index idx]> l) sorted (zeros maxIdx 0) in
  (speeds, initRollup index snmp sorted maxIdx speeds).

(** [draw] stands for the floating-point dials drawn from the device's seed. *)
Definition InitIfCounters (draw : list Z -> Rollup -> Dials * PacketDials * list ifBases) (cfg : option IfStateConfig)
    (resources : DeviceResources) (snmp : list (bytes * bytes)) (clock : Z) : res (option IfCounterCycler) :=
  let index := oidIndex resources in
  let known := declaredIfIndexes index in
  match sortInts (elements known) with
  | [] => Ok None
  | (first :: _) as sorted =>
      let maxIdx := List.last sorted 0 in
      let '(speeds, r) := deviceTables index snmp sorted in
      let! s := initEngine cfg index snmp sorted maxIdx clock in
      let '(d, pd, bs) := draw speeds r in
      Ok (Some
        {| ic_maxIfIndex := maxIdx; knownIfIndexes := known; sortedIfIndexes := sorted;
           ic_firstDynOID := rowOID {| isX := false; col := colIfAdminStatus |} first;
           ic_lastDynOID := rowOID {| isX := true; col := colIfHCOutBroadcastPkts |} (List.last sorted 0);
           bases := bs; dials := d; packetDials := pd; rollup := r;
           ic_hold := seedHolds sorted s (zeros maxIdx None); ic_state := Some s |})
  end.

(** The cycler as the walk and GET use it, at instant [t]. *)
Definition cyclerOps (ic : IfCounterCycler) (t : Z) : IfCounterOps :=
  {| hasRows := negb (len (sortedIfIndexes ic) =? 0);
     firstDynOID := ic_firstDynOID ic; lastDynOID := ic_lastDynOID ic;
     Walk.NextDynamicOID := fun oid => match NextDynamicOID ic oid t with Ok r => r | _ => ([], []) end;
     GetDynamic := fun oid => match GetDynamicAt ic oid t with Ok v => v | _ => [] end |}.

(** ** Rows as arcs *)

Definition tableArcs (isIfX : bool) : list Z := if isIfX then [1; 3; 6; 1; 2; 1; 31; 1; 1; 1] else [1; 3; 6; 1; 2; 1; 2; 2; 1].
Definition rowArcs (c : ifColumn) (ifIndex : Z) : list Z := tableArcs (isX c) ++ [col c; ifIndex].

Lemma prefixOf_subtree x : prefixOf x = subtree (tableArcs x).
Proof. by destruct x. Qed.
Lemma tableArcs_ok x : Forall subid_ok (tableArcs x).
Proof. destruct x; repeat constructor; unfold subid_ok, maxOIDSubIdentifier; lia. Qed.
Lemma table_canonical x c rest : subid_ok c -> Forall subid_ok rest -> canonical (tableArcs x ++ c :: rest).
Proof. intros Hc Hr. split; [by destruct x|]. apply Forall_app_2; [apply tableArcs_ok|by constructor]. Qed.

Definition col_ok (c : ifColumn) : Prop := subid_ok (col c).
Lemma cols_ok : Forall col_ok ifCyclerColumns.
Proof.
  unfold ifCyclerColumns. cbn [map app].
  repeat (apply List.Forall_cons; [split; vm_compute; discriminate|]). apply List.Forall_nil.
Qed.

Lemma rowOID_dotted c i : col_ok c -> subid_ok i -> rowOID c i = dotted (rowArcs c i).
Proof.
  intros Hc Hi. unfold rowOID, rowArcs. rewrite !arc_Itoa by done. rewrite dotted_tails by (by destruct (isX c)).
  by rewrite prefixOf_subtree, subtree_tails, tails_cons, app_nil_r.
Qed.

Lemma row_canonical c i : col_ok c -> subid_ok i -> canonical (rowArcs c i).
Proof. intros Hc Hi. apply table_canonical; [done|by apply Forall_singleton]. Qed.

Lemma parseSuffix_arcs c rest : subid_ok c -> Forall subid_ok rest ->
  parseSuffix (FormatUint c ++ tails rest) = Some (c, Some (hd 0 rest)).
Proof.
  intros Hc Hr. unfold parseSuffix. rewrite IndexByte_segment by done. pose proof (segment_len c Hc) as Hl. destruct rest as [|i rest].
  - cbn [Z.ltb]. cbn. rewrite app_nil_r. unfold beq. rewrite bool_decide_eq_false_2 by (apply FormatUint_nonempty, arc_u64, Hc).
    cbn [negb]. by rewrite Atoi_FormatUint by by apply arc_int64.
  - apply Forall_cons_1 in Hr as [Hi Hr]. replace (0 <? len (FormatUint c)) with true by lia.
    rewrite take_segment, Atoi_FormatUint by by apply arc_int64. rewrite tails_cons, drop_segment, IndexByte_segment by done.
    assert (Hinst : (if 0 <=? match rest with [] => -1 | _ => len (FormatUint i) end
      then take (Z.to_nat match rest with [] => -1 | _ => len (FormatUint i) end) (FormatUint i ++ tails rest)
      else FormatUint i ++ tails rest) = FormatUint i).
    { destruct rest; [cbn; by rewrite app_nil_r|]. pose proof (segment_len i Hi). replace (0 <=? len (FormatUint i)) with true by lia. apply take_segment. }
    rewrite Hinst. unfold beq. rewrite bool_decide_eq_false_2 by (apply FormatUint_nonempty, arc_u64, Hi).
    rewrite Atoi_FormatUint by by apply arc_int64. destruct Hi as [Hi _]. by replace (i <? 0) with false by lia.
Qed.

(** ** The order of rows *)

Lemma lex_app p a b : lex (p ++ a) (p ++ b) = lex a b.
Proof. induction p as [|x p IH]; [done|]. cbn [app lex]. by rewrite Z.ltb_irrefl. Qed.

(** Column [(x, c)] comes before column [(x', c')]. *)
Definition col_before (x : bool) (c : Z) (x' : bool) (c' : Z) : Prop := (x = false /\ x' = true) \/ (x = x' /\ c < c').

Lemma row_after x c rest k j : subid_ok c -> Forall subid_ok rest -> col_ok k -> 1 <= j ->
  lex (tableArcs x ++ c :: rest) (rowArcs k j) < 0 <->
  col_before x c (isX k) (col k) \/ (x = isX k /\ c = col k /\ hd 0 rest < j).
Proof.
  intros Hc Hr Hk Hj. unfold rowArcs, col_before. destruct x, (isX k); [| | |].
  - rewrite lex_app. cbn [lex]. destruct rest as [|i rest]; cbn [lex hd].
    + repeat case_if; intuition lia.
    + destruct (lex rest []) eqn:E; destruct rest; cbn in E; try lia; repeat case_if; intuition lia.
  - cbn. intuition (lia || discriminate).
  - cbn. intuition (lia || discriminate).
  - rewrite lex_app. cbn [lex]. destruct rest as [|i rest]; cbn [lex hd].
    + repeat case_if; intuition lia.
    + destruct (lex rest []) eqn:E; destruct rest; cbn in E; try lia; repeat case_if; intuition lia.
Qed.

Definition cols_sorted (cols : list ifColumn) : Prop :=
  StronglySorted (fun a b => col_before (isX a) (col a) (isX b) (col b)) cols.
Lemma ifCyclerColumns_sorted : cols_sorted ifCyclerColumns.
Proof.
  unfold cols_sorted, ifCyclerColumns. cbn [map app].
  repeat (apply SSorted_cons; [|repeat (apply List.Forall_cons; [unfold col_before; cbn; (right; split; [done|vm_compute; reflexivity]) || (left; done)|]); apply List.Forall_nil]).
  apply SSorted_nil.
Qed.

(** [columnsFrom] drops exactly the columns before the given one. *)
Lemma columnsFrom_spec x c cols : cols_sorted cols ->
  cols_sorted (columnsFrom x c cols) /\
  forall k, k ∈ columnsFrom x c cols <-> k ∈ cols /\ ~ col_before (isX k) (col k) x c.
Proof.
  intros Hs. induction Hs as [|tc cols Hs IH Hall]; [split; [apply SSorted_nil|]; intros k; cbn [columnsFrom]; rewrite elem_of_nil; intuition|].
  assert (Hkeep : ~ col_before (isX tc) (col tc) x c -> forall k, k ∈ tc :: cols <-> k ∈ tc :: cols /\ ~ col_before (isX k) (col k) x c).
  { intros Hn k. split; [|by intros [? _]]. intros Hk. split; [done|]. apply elem_of_cons in Hk as [->|Hk]; [done|].
    pose proof (proj1 (List.Forall_forall _ _) Hall k (proj1 (list_elem_of_In _ _) Hk)) as Hb. unfold col_before in *.
    destruct x, (isX k), (isX tc); intuition (lia || congruence). }
  assert (Hdrop : col_before (isX tc) (col tc) x c -> cols_sorted (columnsFrom x c cols) /\
    forall k, k ∈ columnsFrom x c cols <-> k ∈ tc :: cols /\ ~ col_before (isX k) (col k) x c).
  { intros Hb. destruct IH as [IH1 IH2]. split; [done|]. intros k. rewrite IH2, elem_of_cons. split; [intuition|].
    intros [[->|?] ?]; [done|done]. }
  assert (Hall' : cols_sorted (tc :: cols)) by by constructor.
  cbn [columnsFrom]. destruct x, (isX tc) eqn:Ex; cbn [andb negb].
  - case_if; zbool; [split; [done|]; apply Hkeep; unfold col_before; intuition (lia || discriminate)|].
    apply Hdrop. unfold col_before. right. split; [done|lia].
  - apply Hdrop. unfold col_before. by left.
  - split; [done|]. apply Hkeep. unfold col_before. intuition (lia || discriminate).
  - case_if; zbool; [split; [done|]; apply Hkeep; unfold col_before; intuition (lia || discriminate)|].
    apply Hdrop. unfold col_before. right. split; [done|lia].
Qed.

Lemma searchInts_spec l x : StronglySorted Z.lt l ->
  match searchInts l x with
  | Some j => j ∈ l /\ x <= j /\ forall j', j' ∈ l -> x <= j' -> j <= j'
  | None => forall j', j' ∈ l -> j' < x
  end.
Proof.
  unfold searchInts. intros Hs. induction Hs as [|v l Hs IH Hall]; cbn [List.find]; [intros j' H; by apply elem_of_nil in H|].
  destruct (x <=? v) eqn:E; zbool.
  - split; [left|]. split; [done|]. intros j' Hj' _. apply elem_of_cons in Hj' as [->|Hj']; [lia|].
    pose proof (proj1 (List.Forall_forall _ _) Hall j' (proj1 (list_elem_of_In _ _) Hj')). lia.
  - destruct (List.find _ l) as [j|].
    + destruct IH as (H1 & H2 & H3). split; [by right|]. split; [done|]. intros j' Hj' Hx. apply elem_of_cons in Hj' as [->|Hj']; [lia|by apply H3].
    + intros j' Hj'. apply elem_of_cons in Hj' as [->|Hj']; [lia|by apply IH].
Qed.

Lemma sorted_last l : StronglySorted Z.lt l -> l <> [] ->
  List.last l 0 ∈ l /\ forall j, j ∈ l -> j <= List.last l 0.
Proof.
  intros Hs. induction Hs as [|i l Hs IH Hall]; [done|]. intros _. destruct l as [|j l].
  - split; [left|]. intros j Hj. apply list_elem_of_singleton in Hj as ->. done.
  - destruct (IH ltac:(done)) as [H1 H2]. change (List.last (i :: j :: l) 0) with (List.last (j :: l) 0).
    split; [by right|]. intros k Hk. apply elem_of_cons in Hk as [->|Hk]; [|by apply H2].
    pose proof (proj1 (List.Forall_forall _ _) Hall _ (proj1 (list_elem_of_In _ _) H1)). lia.
Qed.

(** ** A well-formed cycler *)

Record cycler_ok (ic : IfCounterCycler) (t : Z) : Prop := {
  co_sorted : StronglySorted Z.lt (sortedIfIndexes ic);
  co_range : forall i, i ∈ sortedIfIndexes ic -> 1 <= i <= ic_maxIfIndex ic;
  co_max : ic_maxIfIndex ic <= maxResourceIfIndex;
  co_known : forall i, i ∈ sortedIfIndexes ic -> i ∈ knownIfIndexes ic;
  co_first : forall i l, sortedIfIndexes ic = i :: l -> ic_firstDynOID ic = rowOID {| isX := false; col := colIfAdminStatus |} i;
  co_last : ic_lastDynOID ic = rowOID {| isX := true; col := colIfHCOutBroadcastPkts |} (List.last (sortedIfIndexes ic) 0);
  co_state : is_Some (ic_state ic);
  co_bases : len (bases ic) = ic_maxIfIndex ic;
  co_deltas : forall i, i ∈ sortedIfIndexes ic ->
    is_Some (run (ic_hold ic) (heldDeltasAt (dials ic) (rollup ic) (len (ic_hold ic)) (i - 1) t));
}.

Lemma u64_range v : 0 <= u64 v < 2 ^ 64.
Proof. apply Z.mod_pos_bound. lia. Qed.
Lemma u32_range v : 0 <= u32 v < 2 ^ 64.
Proof. pose proof (Z.mod_pos_bound v (2 ^ 32) ltac:(lia)). unfold u32. lia. Qed.
Lemma FormatUint_beq v : 0 <= v < 2 ^ 64 -> FormatUint v <> [].
Proof. apply FormatUint_nonempty. Qed.

Lemma enum_nonempty v : operEnumString v <> [] /\ adminEnumString v <> [].
Proof.
  unfold operEnumString, adminEnumString, OperUp, OperLowerLayerDn, AdminUp, AdminTesting.
  assert (H : forall hi, 0 <= hi <= 7 -> (if (v <? 1) || (hi <? v) then str "0" else nth (Z.to_nat v) stateEnumStrings []) <> []).
  { intros hi Hh. destruct ((v <? 1) || (hi <? v)) eqn:E; [done|]. zbool.
    assert (Hv : v = 1 \/ v = 2 \/ v = 3 \/ v = 4 \/ v = 5 \/ v = 6 \/ v = 7) by lia.
    destruct Hv as [->|[->|[->|[->|[->|[->| ->]]]]]]; discriminate. }
  split; apply H; lia.
Qed.

Lemma stateColumn_nonempty s c i v : stateColumn s c i = Some v -> v <> [].
Proof.
  unfold stateColumn. repeat case_if; intros [= <-]; try apply enum_nonempty; [done|]. apply FormatUint_nonempty.
  pose proof (u64_range (LastChangeNs s i - bootTimeUnixNs s)). split; [apply Z.div_pos; lia|].
  apply Z.div_lt_upper_bound; lia.
Qed.

(** The dispatch, once the deltas and the bases are read. *)
Lemma columnValue_deltas ic t i : cycler_ok ic t -> i ∈ sortedIfIndexes ic ->
  exists s b inD outD, forall x c, columnValue ic x c i t =
    match (if x : bool then None else stateColumn s c i) with
    | Some v => Ok v
    | None => Ok (if x then ifXColumn ic b c (i - 1) inD outD else ifTableColumn ic b c (i - 1) inD outD)
    end.
Proof.
  intros Hok Hi. destruct (co_deltas ic t Hok i Hi) as [[inD outD] Hrun]. destruct (co_state ic t Hok) as [s Hs].
  pose proof (co_range ic t Hok i Hi) as Hr. pose proof (co_bases ic t Hok) as Hb.
  assert (Hidx : exists b, index (bases ic) (i - 1) = Ok b).
  { unfold index. replace (i - 1 <? 0) with false by lia. destruct (bases ic !! Z.to_nat (i - 1)) as [b|] eqn:E2; [by exists b|].
    apply lookup_ge_None in E2. unfold len in *. lia. }
  destruct Hidx as [b Hbx]. exists s, b, inD, outD. intros x c. unfold columnValue. rewrite Hs, Hrun, Hbx. cbn [res_bind]. by destruct x.
Qed.

(** Every owned column has a value for every owned interface. *)
Lemma columnValue_owned ic t k i : cycler_ok ic t -> k ∈ ifCyclerColumns -> i ∈ sortedIfIndexes ic ->
  exists v, columnValue ic (isX k) (col k) i t = Ok v /\ v <> [].
Proof.
  intros Hok Hk Hi. destruct (columnValue_deltas ic t i Hok Hi) as (s & b & inD & outD & Hv). rewrite Hv. clear Hv.
  assert (H32 : forall v, shadow32 v <> []) by (intros; apply FormatUint_nonempty, u32_range).
  assert (H64 : forall v, fmtU64 (u64 v) <> []) by (intros; apply FormatUint_nonempty, u64_range).
  assert (HL : is_Some (stateColumn s colIfLastChange i)).
  { unfold stateColumn. change (colIfLastChange =? _) with false at 1. cbn. case_if; by eexists. }
  apply list_elem_of_In in Hk.
  repeat (destruct Hk as [<-|Hk]; [cbn [isX col]|]); [..|done].
  1-2: eexists; split; [reflexivity|]; apply enum_nonempty.
  1: destruct HL as [v HL]; rewrite HL; exists v; split; [done|]; by eapply stateColumn_nonempty.
  all: eexists; split; [reflexivity|]; (apply H32 || apply H64).
Qed.

(** ** The laws of the walk *)

(** The rows of a cycler. *)
Definition ownedRow (ic : IfCounterCycler) (n : list Z) : Prop :=
  exists k i, k ∈ ifCyclerColumns /\ i ∈ sortedIfIndexes ic /\ n = rowArcs k i.

(** Between the first and the last row, under neither table. *)
Definition betweenTables (ic : IfCounterCycler) (cur : list Z) : Prop :=
  (forall x c rest, cur <> tableArcs x ++ c :: rest) /\
  compareOIDs (dotted cur) (ic_firstDynOID ic) >= 0 /\ compareOIDs (dotted cur) (ic_lastDynOID ic) < 0.

Section laws.
Context (ic : IfCounterCycler) (t : Z).
Hypothesis Hok : cycler_ok ic t.

Lemma owned_index i : i ∈ sortedIfIndexes ic -> subid_ok i /\ 1 <= i.
Proof.
  intros Hi. pose proof (co_range ic t Hok i Hi). pose proof (co_max ic t Hok). unfold maxResourceIfIndex in *.
  unfold subid_ok, maxOIDSubIdentifier. lia.
Qed.
Lemma col_of k : k ∈ ifCyclerColumns -> col_ok k.
Proof. intros Hk. exact (proj1 (List.Forall_forall _ _) cols_ok k (proj1 (list_elem_of_In _ _) Hk)). Qed.

Lemma HasPrefix_table x arcs : canonical arcs ->
  HasPrefix (dotted arcs) (prefixOf x) = true <-> exists c rest, arcs = tableArcs x ++ c :: rest.
Proof. intros Hc. rewrite prefixOf_subtree. apply HasPrefix_subtree; [apply tableArcs_ok|done]. Qed.

Lemma tables_disjoint c rest c' rest' : tableArcs false ++ c :: rest <> tableArcs true ++ c' :: rest'.
Proof. discriminate. Qed.

Lemma HasPrefix_row x y c rest : canonical (tableArcs x ++ c :: rest) ->
  HasPrefix (dotted (tableArcs x ++ c :: rest)) (prefixOf y) = Bool.eqb x y.
Proof.
  intros Hc. destruct (HasPrefix _ _) eqn:E.
  - apply HasPrefix_table in E as (c' & rest' & E); [|done]. destruct x, y; discriminate || done.
  - destruct (Bool.eqb x y) eqn:Exy; [|done]. apply Bool.eqb_prop in Exy as <-. rewrite <- E.
    apply HasPrefix_table; [done|]. by exists c, rest.
Qed.

(** GET of an owned row answers the column's value. *)
Lemma GetDynamicAt_row k i : k ∈ ifCyclerColumns -> i ∈ sortedIfIndexes ic ->
  GetDynamicAt ic (rowOID k i) t = columnValue ic (isX k) (col k) i t.
Proof.
  intros Hk Hi. destruct (owned_index i Hi) as [Hsi Hi1]. pose proof (col_of k Hk) as Hc.
  rewrite rowOID_dotted by done. pose proof (row_canonical k i Hc Hsi) as Hcan. unfold rowArcs in *. unfold GetDynamicAt.
  change ifXTablePrefix with (prefixOf true). change ifTablePrefix with (prefixOf false). rewrite !HasPrefix_row by done.
  pose proof (co_range ic t Hok i Hi) as Hr. pose proof (co_known ic t Hok i Hi) as Hkn. pose proof (segment_len (col k) Hc) as Hl.
  pose proof (segment_len i Hsi) as Hli.
  assert (Hd : forall x, isX k = x ->
    drop (length (prefixOf x)) (dotted (tableArcs (isX k) ++ [col k; i])) = FormatUint (col k) ++ dot :: FormatUint i).
  { intros x <-. rewrite prefixOf_subtree, drop_subtree by done. by rewrite tails_cons, app_nil_r. }
  assert (Hlen : len (FormatUint (col k) ++ dot :: FormatUint i) = len (FormatUint (col k)) + 1 + len (FormatUint i)).
  { rewrite len_app, len_cons. lia. }
  assert (Hix : IndexByte (FormatUint (col k) ++ dot :: FormatUint i) dot = len (FormatUint (col k))).
  { apply IndexByte_app, FormatUint_no_dot, arc_u64, Hc. }
  destruct (isX k) eqn:Ex; cbn [Bool.eqb]; rewrite Hd by done; rewrite Hix, Hlen, take_segment, drop_segment;
    replace (len (FormatUint (col k)) <=? 0) with false by lia;
    replace (len (FormatUint (col k)) =? _) with false by lia; cbn [orb];
    rewrite !Atoi_FormatUint by (by apply arc_int64); cbn [negb orb];
    replace (i <? 1) with false by lia; replace (ic_maxIfIndex ic <? i) with false by lia; cbn [orb];
    by rewrite bool_decide_eq_true_2.
Qed.

Lemma emit_row k later i : k ∈ ifCyclerColumns -> i ∈ sortedIfIndexes ic ->
  exists v, emitFromColumn ic t (k :: later) i = Ok (rowOID k i, v).
Proof.
  intros Hk Hi. unfold emitFromColumn. destruct (co_state ic t Hok) as [s Hs]. rewrite Hs, GetDynamicAt_row by done.
  destruct (columnValue_owned ic t k i Hok Hk Hi) as (v & -> & Hv). cbn [res_bind]. exists v. unfold beq. by rewrite bool_decide_eq_false_2.
Qed.

(** The search on (table, column, instance). *)
Definition nextKey (first : Z) (x : bool) (c inst : Z) : option (ifColumn * Z) :=
  match columnsFrom x c ifCyclerColumns with
  | [] => None
  | chosen :: later =>
      let skip := match later with [] => None | k :: _ => Some (k, first) end in
      if Bool.eqb (isX chosen) x && (col chosen =? c)
      then match searchInts (sortedIfIndexes ic) (inst + 1) with Some i => Some (chosen, i) | None => skip end
      else Some (chosen, first)
  end.

Lemma first_least first l : sortedIfIndexes ic = first :: l ->
  first ∈ sortedIfIndexes ic /\ forall i, i ∈ sortedIfIndexes ic -> first <= i.
Proof.
  intros E. pose proof (co_sorted ic t Hok) as Hs. rewrite E in *. split; [left|]. inversion Hs as [|? ? _ Hall]. intros i Hi.
  apply elem_of_cons in Hi as [->|Hi]; [lia|].
  pose proof (proj1 (List.Forall_forall _ _) Hall i (proj1 (list_elem_of_In _ _) Hi)). lia.
Qed.

Lemma row_le k i k' i' : col_ok k -> subid_ok i -> col_ok k' -> subid_ok i' ->
  (col_before (isX k) (col k) (isX k') (col k') \/ (isX k = isX k' /\ col k = col k' /\ i <= i')) ->
  lex (rowArcs k i) (rowArcs k' i') <= 0.
Proof.
  intros Hk Hi Hk' Hi' [Hb|(H1 & H2 & H3)]; unfold rowArcs.
  - destruct Hb as [[-> ->]|[-> Hlt]]; [cbn; lia|]. rewrite lex_app. cbn. by replace (col k <? col k') with true by lia.
  - rewrite H1, H2, lex_app. cbn. rewrite Z.ltb_irrefl. repeat case_if; lia.
Qed.

Lemma nextKey_successor first l x c rest :
  sortedIfIndexes ic = first :: l -> subid_ok c -> Forall subid_ok rest ->
  is_successor (ownedRow ic) (tableArcs x ++ c :: rest) ((fun ki => rowArcs (fst ki) (snd ki)) <$> nextKey first x c (hd 0 rest)) /\
  (forall k i, nextKey first x c (hd 0 rest) = Some (k, i) -> k ∈ ifCyclerColumns /\ i ∈ sortedIfIndexes ic).
Proof.
  intros E Hc Hr. destruct (first_least first l E) as [Hf Hleast]. unfold nextKey.
  destruct (columnsFrom_spec x c ifCyclerColumns ifCyclerColumns_sorted) as [Hsort Hmem].
  assert (Hafter : forall k i, k ∈ ifCyclerColumns -> i ∈ sortedIfIndexes ic ->
    lex (tableArcs x ++ c :: rest) (rowArcs k i) < 0 <-> col_before x c (isX k) (col k) \/ (x = isX k /\ c = col k /\ hd 0 rest < i)).
  { intros k i Hk Hi. apply row_after; [done|done|by apply col_of|by apply owned_index]. }
  destruct (columnsFrom x c ifCyclerColumns) as [|chosen later] eqn:Ec.
  - split; [|done]. intros u (k & i & Hk & Hi & ->). rewrite Hafter by done. intros Hlt.
    assert (Hin : k ∈ @nil ifColumn); [|by apply elem_of_nil in Hin].
    apply Hmem. split; [done|]. unfold col_before in *. destruct x, (isX k); intuition (lia || congruence).
  - assert (Hch : chosen ∈ ifCyclerColumns /\ ~ col_before (isX chosen) (col chosen) x c) by (apply Hmem; left).
    destruct Hch as [Hch Hnb]. inversion Hsort as [|? ? Hs' Hall]; subst.
    assert (Hlater : forall k, k ∈ later -> col_before (isX chosen) (col chosen) (isX k) (col k) /\ k ∈ ifCyclerColumns).
    { intros k Hk. split; [exact (proj1 (List.Forall_forall _ _) Hall k (proj1 (list_elem_of_In _ _) Hk))|]. apply (Hmem k). by right. }
    assert (Hcand : forall k i, k ∈ ifCyclerColumns -> i ∈ sortedIfIndexes ic -> lex (tableArcs x ++ c :: rest) (rowArcs k i) < 0 ->
      k = chosen \/ k ∈ later).
    { intros k i Hk Hi Hlt%Hafter; [|done|done]. apply elem_of_cons, Hmem. split; [done|]. unfold col_before in *. destruct x, (isX k); intuition (lia || congruence). }
    assert (Hle : forall k i k' i', k ∈ ifCyclerColumns -> i ∈ sortedIfIndexes ic -> k' ∈ ifCyclerColumns -> i' ∈ sortedIfIndexes ic ->
      (col_before (isX k) (col k) (isX k') (col k') \/ (isX k = isX k' /\ col k = col k' /\ i <= i')) -> lex (rowArcs k i) (rowArcs k' i') <= 0).
    { intros k i k' i' ? ? ? ?. apply row_le; [by apply col_of|by apply owned_index|by apply col_of|by apply owned_index]. }
    destruct (Bool.eqb (isX chosen) x && (col chosen =? c)) eqn:Esame.
    + apply andb_true_iff in Esame as [Ex%Bool.eqb_prop Ecol%Z.eqb_eq]. pose proof (searchInts_spec (sortedIfIndexes ic) (hd 0 rest + 1) (co_sorted ic t Hok)) as Hsi.
      destruct (searchInts _ _) as [i|].
      * destruct Hsi as (Hi & Hge & Hmin). split; [|by intros ? ? [= <- <-]]. cbn. split; [by exists chosen, i|].
        split; [apply Hafter; [done|done|]; right; split_and!; done || lia|].
        intros u (k & i' & Hk & Hi' & ->) Hlt. destruct (Hcand k i' Hk Hi' Hlt) as [->|Hl].
        -- apply Hle; try done. right. split_and!; try done. apply Hmin; [done|]. apply Hafter in Hlt; [|done|done].
           destruct Hlt as [Hb|Hb]; [|lia]. exfalso. unfold col_before in Hb. rewrite Ex, Ecol in Hb. destruct Hb as [[? ?]|[? ?]]; [congruence|lia].
        -- apply Hle; try done. left. by apply Hlater.
      * assert (Hnc : forall i', i' ∈ sortedIfIndexes ic -> ~ lex (tableArcs x ++ c :: rest) (rowArcs chosen i') < 0).
        { intros i' Hi' Hlt. apply Hafter in Hlt; [|done|done]. specialize (Hsi i' Hi'). destruct Hlt as [Hb|Hb]; [|lia].
          unfold col_before in Hb. rewrite Ex, Ecol in Hb. destruct Hb as [[? ?]|[? ?]]; [congruence|lia]. }
        destruct later as [|k0 later].
        -- split; [|done]. cbn. intros u (k & i' & Hk & Hi' & ->) Hlt. destruct (Hcand k i' Hk Hi' Hlt) as [->|Hl]; [by eapply Hnc|by apply elem_of_nil in Hl].
        -- destruct (Hlater k0 ltac:(left)) as [Hb0 Hk0]. split; [|by intros ? ? [= <- <-]]. cbn. split; [by exists k0, first|].
           split; [apply Hafter; [done|done|]; left; by rewrite <- Ex, <- Ecol|].
           intros u (k & i' & Hk & Hi' & ->) Hlt. destruct (Hcand k i' Hk Hi' Hlt) as [->|Hl]; [by eapply Hnc in Hlt|].
           apply Hle; try done. apply elem_of_cons in Hl as [->|Hl]; [right; split_and!; try done; by apply Hleast|left].
           inversion Hs' as [|? ? _ Hall']. exact (proj1 (List.Forall_forall _ _) Hall' k (proj1 (list_elem_of_In _ _) Hl)).
    + split; [|by intros ? ? [= <- <-]]. cbn. split; [by exists chosen, first|]. split.
      * apply Hafter; [done|done|]. left. unfold col_before in *. apply andb_false_iff in Esame.
        destruct x, (isX chosen); cbn in Esame; zbool; intuition (lia || congruence).
      * intros u (k & i' & Hk & Hi' & ->) Hlt. apply Hle; try done. destruct (Hcand k i' Hk Hi' Hlt) as [->|Hl]; [right; split_and!; try done; by apply Hleast|].
        left. by apply Hlater.
Qed.

Lemma next_in_table first l x c rest :
  sortedIfIndexes ic = first :: l -> subid_ok c -> Forall subid_ok rest ->
  exists v, NextDynamicOID ic (dotted (tableArcs x ++ c :: rest)) t =
    Ok (match nextKey first x c (hd 0 rest) with Some (k, i) => (rowOID k i, v) | None => ([], []) end).
Proof.
  intros E Hc Hr. pose proof (table_canonical x c rest Hc Hr) as Hcan. unfold NextDynamicOID. rewrite E.
  destruct (first_least first l E) as [Hf _]. destruct (co_state ic t Hok) as [s Hs]. rewrite Hs.
  destruct (nextKey_successor first l x c rest E Hc Hr) as [_ Hin]. unfold nextKey in *.
  assert (Hsuf : drop (length (prefixOf x)) (dotted (tableArcs x ++ c :: rest)) = FormatUint c ++ tails rest).
  { by rewrite prefixOf_subtree, drop_subtree. }
  change ifXTablePrefix with (prefixOf true). change ifTablePrefix with (prefixOf false). rewrite !HasPrefix_row by done.
  destruct (columnsFrom_spec x c ifCyclerColumns ifCyclerColumns_sorted) as [_ Hmem].
  assert (Hgoal : exists v, match columnsFrom x c ifCyclerColumns with
    | [] => Ok ([], [])
    | chosen :: later => if Bool.eqb (isX chosen) x && (col chosen =? c) then nextRow ic t chosen later first (Some (hd 0 rest))
                         else emitFromColumn ic t (chosen :: later) first
    end = Ok (match nextKey first x c (hd 0 rest) with Some (k, i) => (rowOID k i, v) | None => ([], []) end)).
  { unfold nextKey. destruct (columnsFrom x c ifCyclerColumns) as [|chosen later] eqn:Ec; [by exists []|].
    assert (Hch : chosen ∈ ifCyclerColumns) by (apply (Hmem chosen); left).
    case_if; [|by apply emit_row]. unfold nextRow. destruct (searchInts _ _) as [i|] eqn:Es.
    - apply emit_row; [done|]. pose proof (searchInts_spec (sortedIfIndexes ic) (hd 0 rest + 1) (co_sorted ic t Hok)) as Hsi. rewrite Es in Hsi. apply Hsi.
    - destruct later as [|k0 later]; [by exists []|]. apply emit_row; [|done]. apply (Hmem k0). right. left. }
  destruct Hgoal as [v Hv]. exists v. rewrite <- Hv. by destruct x; cbn [Bool.eqb]; rewrite Hsuf, parseSuffix_arcs by done.
Qed.

Lemma last_greatest i l : sortedIfIndexes ic = i :: l ->
  List.last (sortedIfIndexes ic) 0 ∈ sortedIfIndexes ic /\ forall j, j ∈ sortedIfIndexes ic -> j <= List.last (sortedIfIndexes ic) 0.
Proof. intros E. apply sorted_last; [apply (co_sorted ic t Hok)|by rewrite E]. Qed.

Lemma column_bounds k : k ∈ ifCyclerColumns ->
  (k = {| isX := false; col := 7 |} \/ col_before false 7 (isX k) (col k)) /\
  (k = {| isX := true; col := 13 |} \/ col_before (isX k) (col k) true 13).
Proof.
  intros Hk. apply list_elem_of_In in Hk. unfold col_before.
  repeat (destruct Hk as [<-|Hk]; [cbn [isX col]; split; (left; reflexivity) || (right; left; split; reflexivity) || (right; right; split; [reflexivity|vm_compute; reflexivity])|]).
  done.
Qed.

Lemma row_bounds i l k j : sortedIfIndexes ic = i :: l -> k ∈ ifCyclerColumns -> j ∈ sortedIfIndexes ic ->
  lex (rowArcs {| isX := false; col := colIfAdminStatus |} i) (rowArcs k j) <= 0 /\
  lex (rowArcs k j) (rowArcs {| isX := true; col := colIfHCOutBroadcastPkts |} (List.last (sortedIfIndexes ic) 0)) <= 0.
Proof.
  intros E Hk Hj. destruct (first_least i l E) as [Hf Hle]. destruct (last_greatest i l E) as [Hl Hge].
  destruct (column_bounds k Hk) as [H1 H2].
  assert (Hc : forall x c, col_ok {| isX := x; col := c |} <-> subid_ok c) by done.
  split; apply row_le; try (by apply col_of); try (by apply owned_index);
    try (apply Hc; unfold subid_ok, maxOIDSubIdentifier, colIfAdminStatus, colIfHCOutBroadcastPkts; lia).
  - destruct H1 as [->|H1]; [right; split_and!; try done; by apply Hle|left; exact H1].
  - destruct H2 as [->|H2]; [right; split_and!; try done; by apply Hge|left; exact H2].
Qed.

Lemma under_table (n : list Z) : canonical n ->
  (exists x c rest, n = tableArcs x ++ c :: rest /\ subid_ok c /\ Forall subid_ok rest) \/ (forall x c rest, n <> tableArcs x ++ c :: rest).
Proof.
  intros Hc. assert (Hin : forall x, (exists c rest, n = tableArcs x ++ c :: rest) -> exists c rest, n = tableArcs x ++ c :: rest /\ subid_ok c /\ Forall subid_ok rest).
  { intros x (c & rest & ->). destruct Hc as [_ Ha]. apply Forall_app in Ha as [_ Ha]. apply Forall_cons_1 in Ha as [? ?]. by exists c, rest. }
  destruct (HasPrefix (dotted n) (prefixOf true)) eqn:E1.
  { apply HasPrefix_table in E1; [|done]. left. exists true. by apply Hin. }
  destruct (HasPrefix (dotted n) (prefixOf false)) eqn:E2.
  { apply HasPrefix_table in E2; [|done]. left. exists false. by apply Hin. }
  right. intros x c rest En. assert (H : HasPrefix (dotted n) (prefixOf x) = true) by (apply HasPrefix_table; [done|by exists c, rest]).
  destruct x; congruence.
Qed.

Definition firstCol : ifColumn := {| isX := false; col := colIfAdminStatus |}.
Definition lastCol : ifColumn := {| isX := true; col := colIfHCOutBroadcastPkts |}.
Lemma firstCol_in : firstCol ∈ ifCyclerColumns.
Proof. left. Qed.
Lemma lastCol_in : lastCol ∈ ifCyclerColumns.
Proof. apply list_elem_of_In. unfold ifCyclerColumns. cbn. do 22 right. by left. Qed.

Lemma owned_row k i : k ∈ ifCyclerColumns -> i ∈ sortedIfIndexes ic -> rowOID k i = dotted (rowArcs k i) /\ canonical (rowArcs k i).
Proof.
  intros Hk Hi. pose proof (col_of k Hk). destruct (owned_index i Hi). split; [by apply rowOID_dotted|by apply row_canonical].
Qed.

Lemma next_outside cur first l :
  sortedIfIndexes ic = first :: l -> canonical cur -> (forall x c rest, cur <> tableArcs x ++ c :: rest) ->
  exists v, NextDynamicOID ic (dotted cur) t =
    Ok (if lex cur (rowArcs firstCol first) <? 0 then (rowOID firstCol first, v) else ([], [])).
Proof.
  intros E Hc Hout. destruct (first_least first l E) as [Hf _].
  assert (Hp : forall x, HasPrefix (dotted cur) (prefixOf x) = false).
  { intros x. destruct (HasPrefix _ _) eqn:Eh; [|done]. apply HasPrefix_table in Eh as (c & rest & Eh); [|done]. by apply Hout in Eh. }
  unfold NextDynamicOID. rewrite E. change ifXTablePrefix with (prefixOf true). change ifTablePrefix with (prefixOf false). rewrite !Hp.
  rewrite (co_first ic t Hok first l E). fold firstCol. destruct (owned_row firstCol first firstCol_in Hf) as [Hd Hcan].
  rewrite Hd, compareOIDs_dotted by done. case_if; [|by exists []].
  change ifCyclerColumns with (firstCol :: List.tl ifCyclerColumns) at 1. rewrite <- Hd. by apply emit_row; [apply firstCol_in|].
Qed.

(** An OID outside the tables that the search gives up on, although a row
    follows, lies between them. *)
Lemma outside_gap cur first l k j :
  sortedIfIndexes ic = first :: l -> canonical cur -> (forall x c rest, cur <> tableArcs x ++ c :: rest) ->
  ~ lex cur (rowArcs firstCol first) < 0 -> k ∈ ifCyclerColumns -> j ∈ sortedIfIndexes ic -> lex cur (rowArcs k j) < 0 ->
  betweenTables ic cur.
Proof.
  intros E Hc Hout Hge Hk Hj Hlt. destruct (first_least first l E) as [Hf _]. destruct (last_greatest first l E) as [Hl _].
  destruct (owned_row firstCol first firstCol_in Hf) as [HF HcF]. destruct (owned_row lastCol _ lastCol_in Hl) as [HL HcL].
  split_and!; [done|rewrite (co_first ic t Hok first l E); fold firstCol; rewrite HF, compareOIDs_dotted by done; lia|].
  rewrite (co_last ic t Hok). fold lastCol. rewrite HL, compareOIDs_dotted by done.
  destruct (row_bounds first l k j E Hk Hj) as [_ Hle]. fold lastCol in Hle. set (z := rowArcs lastCol _) in *.
  destruct (lex_range cur z) as [->|[H0|H0]]; [lia|exfalso|exfalso].
  - apply lex_eq in H0. by eapply (Hout true).
  - pose proof (lex_antisym cur z). pose proof (lex_le_trans (rowArcs k j) z cur Hle ltac:(lia)). pose proof (lex_antisym cur (rowArcs k j)). lia.
Qed.

Lemma ops_next cur : canonical cur -> exists r, fst (Walk.NextDynamicOID (cyclerOps ic t) (dotted cur)) = oid_of r /\
  match r with
  | Some n => canonical n /\ is_successor (ownedRow ic) cur (Some n)
  | None => ~ betweenTables ic cur -> is_successor (ownedRow ic) cur None
  end.
Proof.
  intros Hc. cbn [cyclerOps Walk.NextDynamicOID]. destruct (sortedIfIndexes ic) as [|first l] eqn:E.
  { exists None. unfold NextDynamicOID. rewrite E. split; [done|]. intros _ u (k & i & _ & Hi & _). rewrite E in Hi. by apply elem_of_nil in Hi. }
  destruct (first_least first l E) as [Hf _]. destruct (under_table cur Hc) as [(x & c & rest & -> & Hx & Hr)|Hout].
  - destruct (nextKey_successor first l x c rest E Hx Hr) as [Hsucc Hin].
    destruct (next_in_table first l x c rest E Hx Hr) as [v Hv]. rewrite Hv.
    destruct (nextKey first x c (hd 0 rest)) as [[k i]|]; cbn in Hsucc; [|by exists None].
    destruct (Hin k i eq_refl) as [Hk Hi]. destruct (owned_row k i Hk Hi). by exists (Some (rowArcs k i)).
  - destruct (next_outside cur first l E Hc Hout) as [v Hv]. rewrite Hv. case_if; zbool.
    + destruct (owned_row firstCol first firstCol_in Hf) as [Hd Hcan]. exists (Some (rowArcs firstCol first)). split; [done|]. split; [done|].
      split; [exists firstCol, first; split_and!; [apply firstCol_in|done|done]|]. split; [done|]. intros u (k & j & Hk & Hj & ->) _. by eapply row_bounds.
    + exists None. split; [done|]. intros Hgap u (k & j & Hk & Hj & ->) Hlt. apply Hgap. eapply outside_gap; try done. lia.
Qed.

(** What [cyclerOps] promises the walk, for every OID outside the gap between
    the tables. *)
#[export] Instance cyclerOps_laws : IfCounterLaws (cyclerOps ic t) (ownedRow ic) (betweenTables ic).
Proof.
  split; [apply ops_next|..]; cbn [cyclerOps hasRows firstDynOID lastDynOID].
  - destruct (sortedIfIndexes ic) as [|first l] eqn:E; [done|]. intros _. destruct (first_least first l E) as [Hf _].
    destruct (last_greatest first l E) as [Hl _]. destruct (owned_row firstCol first firstCol_in Hf) as [HF HcF].
    destruct (owned_row lastCol _ lastCol_in Hl) as [HL HcL]. eexists _, _. split; [exact HcF|]. split; [exact HcL|].
    split; [rewrite (co_first ic t Hok first l E); exact HF|]. split; [rewrite (co_last ic t Hok); exact HL|].
    intros n (k & i & Hk & Hi & ->). by eapply row_bounds.
  - intros H n (k & i & _ & Hi & _). apply negb_false_iff, Z.eqb_eq, len_0_nil in H. rewrite H in Hi. by apply elem_of_nil in Hi.
Qed.
End laws.

(** ** A cycler built from a resource file is well-formed *)

Lemma sortInts_spec l : NoDup l -> StronglySorted Z.lt (sortInts l) /\ forall x, x ∈ sortInts l <-> x ∈ l.
Proof.
  intros Hnd. split; [|intros x; unfold sortInts; by rewrite <- sort_by_perm].
  pose proof (sort_by_sorted (fun a b => a - b) l ltac:(lia) Hnd ltac:(lia)) as Hs. unfold sortInts. revert Hs. generalize (sort_by (fun a b => a - b) l).
  induction 1 as [|x s Hs IH Hx]; constructor; [done|]. eapply List.Forall_impl; [|exact Hx]. cbn. lia.
Qed.

Lemma declared_range index i : i ∈ declaredIfIndexes index -> 1 <= i <= maxResourceIfIndex.
Proof.
  unfold declaredIfIndexes. rewrite elem_of_list_to_set, list_elem_of_omap. intros (oid & _ & H). unfold declaredIfIndex in H.
  destruct (HasPrefix _ _); [|done]. destruct (Atoi _) as [idx ok]. destruct ok; [|done]. destruct (_ && _) eqn:E; [|done].
  injection H as <-. zbool. lia.
Qed.

Lemma ifNames_lookup index idxs i : ifNames index idxs !! i = if bool_decide (i ∈ idxs) then rowOf index false 2 i else None.
Proof.
  unfold ifNames. set (f := fun (m : gmap Z bytes) idx => _).
  assert (H : forall l m, fold_left f l m !! i = if bool_decide (i ∈ l) then match rowOf index false 2 i with Some v => Some v | None => m !! i end else m !! i).
  { induction l as [|x l IH]; intros m; cbn [fold_left]; [case_bool_decide as Hx; [by apply elem_of_nil in Hx|done]|]. rewrite IH. unfold f at 1 2.
    destruct (decide (i = x)) as [->|Hne].
    - rewrite (bool_decide_eq_true_2 (x ∈ x :: l)) by left. destruct (rowOf index false 2 x); [rewrite lookup_insert_eq|]; by destruct (bool_decide _).
    - assert (Hl : match rowOf index false 2 x with Some v => <[x := v]> m | None => m end !! i = m !! i).
      { destruct (rowOf index false 2 x); [|done]. by rewrite lookup_insert_ne. }
      rewrite Hl. rewrite (bool_decide_ext (i ∈ x :: l) (i ∈ l)); [done|]. rewrite elem_of_cons. tauto. }
  rewrite H. case_if; [|done]. by destruct (rowOf index false 2 i).
Qed.

Lemma seeds_reachable cfg index idxs s : reachable_engine s -> parent s = None ->
  reachable_engine (fold_left (seedInterface cfg index) idxs s) /\ parent (fold_left (seedInterface cfg index) idxs s) = None.
Proof.
  intros Hr Hp. apply (fold_left_inv (fun s => reachable_engine s /\ parent s = None)); [done|].
  intros a x _ [Ha Hpa]. unfold seedInterface. destruct (scenarioSeed _ _ _ _) as [link admin]. split; [by apply re_Seed|].
  unfold Seed. repeat case_if; done.
Qed.

Lemma initEngine_reachable cfg index snmp idxs maxIdx clock :
  1 <= maxIdx -> (forall i, i ∈ idxs -> is_Some (rowOf index false 2 i)) ->
  exists s, initEngine cfg index snmp idxs maxIdx clock = Ok s /\ reachable_engine s.
Proof.
  intros Hm Hn. unfold initEngine. destruct (newInterfaceStateWithClock maxIdx clock None) as [s0| |] eqn:E; cbn [res_bind].
  - eexists. split; [reflexivity|]. assert (Hp0 : parent s0 = None).
    { unfold newInterfaceStateWithClock in E. destruct (_ <? _); [done|]. by injection E as <-. }
    destruct (seeds_reachable cfg index idxs s0 (re_new _ _ _ _ E) Hp0) as [H1 H2].
    apply re_setLoopbacks, re_setStacked, re_setParents; [done|done|]. apply interfaceParents_one_level. intros h [l Hl].
    apply sl_parents_known in Hl as [Hl _]. rewrite elem_of_list_to_set in Hl. rewrite ifNames_lookup, bool_decide_eq_true_2 by done. by apply Hn.
  - unfold newInterfaceStateWithClock in E. replace (maxIdx <? 1) with false in E by lia. done.
  - unfold newInterfaceStateWithClock in E. replace (maxIdx <? 1) with false in E by lia. done.
Qed.

Lemma initRollup_ok index snmp idxs maxIdx speeds :
  0 <= maxIdx -> (forall i, i ∈ idxs -> 1 <= i <= maxIdx /\ is_Some (rowOf index false 2 i)) ->
  hierarchy_ok (initRollup index snmp idxs maxIdx speeds) maxIdx.
Proof.
  intros Hm Hi. unfold initRollup.
  assert (Hk : forall i, i ∈ (list_to_set idxs : gset Z) -> 1 <= i <= maxIdx) by (intros i; rewrite elem_of_list_to_set; apply Hi).
  assert (Hn : forall i, i ∈ (list_to_set idxs : gset Z) <-> is_Some (ifNames index idxs !! i)).
  { intros i. rewrite elem_of_list_to_set, ifNames_lookup. case_bool_decide; [|by split; [|intros [? ?]]]. split; [intros _; by apply Hi|done]. }
  by destruct (hierarchy_shape_lemma snmp (list_to_set idxs) (ifNames index idxs) speeds maxIdx Hm Hk Hn) as [_ ?].
Qed.

(** What is asked of the floating-point dials a device draws. *)
Definition draw_ok (draw : list Z -> Rollup -> Dials * PacketDials * list ifBases) (horizon : Z)
    (resources : DeviceResources) (snmp : list (bytes * bytes)) : Prop :=
  let '(speeds, r) := deviceTables (oidIndex resources) snmp (sortInts (elements (declaredIfIndexes (oidIndex resources)))) in
  let '(d, pd, bs) := draw speeds r in DialLaws d r (len speeds) horizon /\ len bs = len speeds.

Lemma speeds_len index n : forall idxs l, len l = n ->
  len (fold_left (fun l idx => <[Z.to_nat (idx - 1) := interfaceSpeed index idx]> l) idxs l) = n.
Proof. induction idxs as [|i idxs IH]; intros l Hl; [done|]. apply IH. unfold len in *. by rewrite length_insert. Qed.

Lemma init_cycler draw cfg resources snmp clock horizon :
  draw_ok draw horizon resources snmp -> 0 <= horizon ->
  (forall i, i ∈ declaredIfIndexes (oidIndex resources) -> is_Some (rowOf (oidIndex resources) false 2 i)) ->
  (declaredIfIndexes (oidIndex resources) ≡ ∅ /\ InitIfCounters draw cfg resources snmp clock = Ok None) \/
  exists ic s, InitIfCounters draw cfg resources snmp clock = Ok (Some ic) /\ ic_state ic = Some s /\ reachable_engine s /\
    (forall i, i ∈ sortedIfIndexes ic <-> i ∈ declaredIfIndexes (oidIndex resources)) /\
    forall t, 0 <= t <= horizon -> cycler_ok ic t.
Proof.
  intros Hdraw Hh Hnamed. unfold InitIfCounters. unfold draw_ok in Hdraw. set (index := oidIndex resources) in *.
  destruct (sortInts_spec (elements (declaredIfIndexes index)) (NoDup_elements _)) as [Hsort Hin].
  assert (Hdec : forall i, i ∈ sortInts (elements (declaredIfIndexes index)) <-> i ∈ declaredIfIndexes index).
  { intros i. by rewrite Hin, elem_of_elements. }
  destruct (sortInts (elements (declaredIfIndexes index))) as [|first l] eqn:E.
  { left. split; [|done]. intros i. rewrite <- Hdec. split; intros H; [by apply elem_of_nil in H|by apply elem_of_empty in H]. }
  right. set (sorted := first :: l) in *. set (n := List.last sorted 0).
  assert (Hlast : n ∈ sorted /\ forall j, j ∈ sorted -> j <= n) by (apply sorted_last; [done|done]).
  destruct Hlast as [Hn Hle].
  assert (Hrange : forall i, i ∈ sorted -> 1 <= i <= n) by (intros i Hi; pose proof (declared_range index i (proj1 (Hdec i) Hi)); split; [lia|by apply Hle]).
  assert (Hmax : n <= maxResourceIfIndex) by (by apply (declared_range index), Hdec).
  pose proof (Hrange n Hn) as Hn1.
  unfold deviceTables in *. fold n in Hdraw |- *. set (speeds := fold_left _ sorted (zeros n 0)) in *.
  assert (Hsl : len speeds = n) by (apply speeds_len; unfold len, zeros; rewrite length_replicate; lia).
  destruct (initEngine_reachable cfg index snmp sorted n clock ltac:(lia)) as (s & Hs & Hr); [intros i Hi; by apply Hnamed, Hdec|].
  rewrite Hs. cbn [res_bind].
  assert (Hier : hierarchy_ok (initRollup index snmp sorted n speeds) n).
  { apply initRollup_ok; [lia|]. intros i Hi. split; [by apply Hrange|by apply Hnamed, Hdec]. }
  rewrite Hsl in Hdraw. destruct (draw speeds (initRollup index snmp sorted n speeds)) as [[d pd] bs]. destruct Hdraw as [Hlaws Hbs].
  eexists _, s. split; [reflexivity|]. cbn [sortedIfIndexes ic_maxIfIndex knownIfIndexes ic_firstDynOID ic_lastDynOID ic_state bases ic_hold dials rollup].
  split; [done|]. split; [done|]. split; [done|]. intros t Ht.
  assert (Hk : Forall (fun i => 1 <= i <= n) sorted) by (apply List.Forall_forall; intros i Hi; by apply Hrange, list_elem_of_In).
  assert (Hheld : ledger_ok d (initRollup index snmp sorted n speeds) n horizon (seedHolds sorted s (zeros n None)) 0).
  { apply (held_ok d _ sorted n horizon Hier Hk ltac:(lia) Hh). apply held_seed. }
  constructor; cbn [sortedIfIndexes ic_maxIfIndex knownIfIndexes ic_firstDynOID ic_lastDynOID ic_state bases ic_hold dials rollup]; try done.
  - intros i Hi. by apply Hdec.
  - intros i l' [= <- _]. done.
  - intros i Hi. pose proof (Hrange i Hi). rewrite (run_heldDeltasAt d _ n horizon Hier _ 0); [by eexists|done|lia|done].
Qed.

(** ** A sample device: a port and a unit of it, without rows before ifHCInOctets *)

Definition portRows : list (bytes * bytes) :=
  [(str ".1.3.6.1.2.1.2.2.1.2.1", str "ae0"); (str ".1.3.6.1.2.1.2.2.1.2.2", str "ae0.5");
   (str ".1.3.6.1.2.1.2.2.1.8.1", str "1"); (str ".1.3.6.1.2.1.2.2.1.7.2", str "2");
   (str ".1.3.6.1.2.1.31.1.1.1.6.1", str "0"); (str ".1.3.6.1.2.1.31.1.1.1.6.2", str "0")].
Definition portResources : DeviceResources := buildResourceIndexes portRows.
Definition portBases : ifBases :=
  {| baseOctets := fun _ => 4294967000; basePkts := fun _ _ => 7; baseErr := fun _ => 0; baseDisc := fun _ => 0;
     errPpm := fun _ => 100; discPpm := fun _ => 50 |}.
Definition portPackets : PacketDials := {| pktPart := fun _ _ _ v => v / 1500; pktTotal := fun _ _ v => v / 500 |}.
Definition portDraw (speeds : list Z) (r : Rollup) : Dials * PacketDials * list ifBases :=
  (sampleDials, portPackets, map (fun _ => portBases) speeds).

Lemma portDraw_ok : draw_ok portDraw 1000000 portResources portRows.
Proof.
  unfold draw_ok.
  assert (E : deviceTables (oidIndex portResources) portRows (sortInts (elements (declaredIfIndexes (oidIndex portResources)))) =
    ([1000000000; 1000000000], {| counterParent := [0; 1]; members := Some [[]; []] |})) by (vm_compute; reflexivity).
  rewrite E. cbn [portDraw]. split; [|done]. set (R := {| counterParent := _; members := _ |}).
  assert (Hk : forall s, 0 <= s < 2 -> kind R s = if s =? 1 then Share 1 else Dial).
  { intros s Hs. assert (Hv : s = 0 \/ s = 1) by lia. by destruct Hv as [->| ->]. }
  assert (Hsum : forall s ms, kind R s <> Sum ms).
  { intros s ms. unfold kind, R, at_slot. cbn [members]. destruct (Z.to_nat s) as [|[|k]]; cbn; [done|done|by destruct k]. }
  split; cbn [sampleDials deltaOctetsAt shareOf].
  - intros s t [] Ht; lia.
  - intros s t t' [] Ht; lia.
  - intros s ms t b H. exfalso. exact (Hsum _ _ H).
  - intros s v Hv. split; [apply Z.div_pos; lia|]. apply Z.div_le_upper_bound; lia.
  - intros s v v' Hv _. apply Z.div_le_mono; lia.
  - intros p cs v Hnd Hcs Hv. assert (0 <= v * 2 / 5) by (apply Z.div_pos; lia). pose proof (Z.mul_div_le (v * 2) 5 ltac:(lia)).
    destruct cs as [|c [|c' cs]]; cbn [sumZ foldr]; [lia|lia|]. exfalso. inversion_clear Hnd as [|? ? Hc _]. apply Hc.
    destruct (Hcs c ltac:(left)) as [H1 H2]. destruct (Hcs c' ltac:(right; left)) as [H3 H4]. change (len _) with 2 in *. rewrite Hk in H2, H4 by lia.
    destruct (c =? 1) eqn:E1; [|discriminate H2]. destruct (c' =? 1) eqn:E2; [|discriminate H4].
    apply Z.eqb_eq in E1, E2. subst. left.
Qed.

(** ** Theorems *)


Lemma port_declared : 1 ∈ declaredIfIndexes (oidIndex portResources).
Proof. apply elem_of_elements, list_elem_of_In. vm_compute. tauto. Qed.

Lemma port_named i : i ∈ declaredIfIndexes (oidIndex portResources) -> is_Some (rowOf (oidIndex portResources) false 2 i).
Proof.
  intros Hi. assert (E : elements (declaredIfIndexes (oidIndex portResources)) = [2; 1] \/ elements (declaredIfIndexes (oidIndex portResources)) = [1; 2])
    by (vm_compute; auto).
  apply elem_of_elements in Hi. destruct E as [E|E]; rewrite E in Hi; apply list_elem_of_In in Hi; destruct Hi as [<-|[<-|[]]];
    vm_compute; by eexists.
Qed.


(** The 32-bit columns and the 64-bit ones they shadow. *)
Definition shadowPairs : list (ifColumn * ifColumn) :=
  let T c := {| isX := false; col := c |} in let X c := {| isX := true; col := c |} in
  [(T colIfInOctets, X colIfHCInOctets); (T colIfOutOctets, X colIfHCOutOctets);
   (T colIfInUcastPkts, X colIfHCInUcastPkts); (T colIfOutUcastPkts, X colIfHCOutUcastPkts);
   (X colIfInMulticastPkts, X colIfHCInMulticastPkts); (X colIfInBroadcastPkts, X colIfHCInBroadcastPkts);
   (X colIfOutMulticastPkts, X colIfHCOutMulticastPkts); (X colIfOutBroadcastPkts, X colIfHCOutBroadcastPkts)].

Lemma shadow32_mod v : shadow32 v = FormatUint (v mod 2 ^ 32).
Proof.
  unfold shadow32, fmtU32, u32. f_equal. change 0xFFFFFFFF with (Z.ones 32). rewrite Z.land_ones by lia. apply Z.mod_mod. lia.
Qed.

Lemma shadowPairs_cols sh hc : (sh, hc) ∈ shadowPairs -> sh ∈ ifCyclerColumns /\ hc ∈ ifCyclerColumns.
Proof.
  intros H. apply list_elem_of_In in H. rewrite !list_elem_of_In.
  repeat (destruct H as [[= <- <-]|H]; [cbn; tauto|]). done.
Qed.

(** The two widths of a counter cannot contradict each other.  At any one
    instant each 32-bit octet and packet column of an interface is exactly the low
    32 bits of its 64-bit column, wrap-around included. *)
Theorem shadow_columns ic t sh hc i :
  cycler_ok ic t -> (sh, hc) ∈ shadowPairs -> i ∈ sortedIfIndexes ic ->
  exists v, 0 <= v < 2 ^ 64 /\ GetDynamicAt ic (rowOID hc i) t = Ok (FormatUint v) /\
    GetDynamicAt ic (rowOID sh i) t = Ok (FormatUint (v mod 2 ^ 32)).
Proof.
  intros Hok Hp Hi. destruct (shadowPairs_cols sh hc Hp) as [Hsh Hhc].
  rewrite !(GetDynamicAt_row ic t Hok) by done.
  destruct (columnValue_deltas ic t i Hok Hi) as (s & b & inD & outD & Hv). rewrite !Hv. clear Hv.
  apply list_elem_of_In in Hp.
  repeat (destruct Hp as [[= <- <-]|Hp]; [cbn [isX col]; eexists; split; [apply u64_range|]; split; [reflexivity|];
    rewrite <- shadow32_mod; reflexivity|]). done.
Qed.

Lemma port_cycler : exists ic, InitIfCounters portDraw None portResources portRows 77 = Ok (Some ic) /\
  1 ∈ sortedIfIndexes ic /\ forall t, 0 <= t <= 1000000 -> cycler_ok ic t.
Proof.
  destruct (init_cycler portDraw None portResources portRows 77 1000000 portDraw_ok ltac:(lia) port_named) as [[H _]|(ic & s & H1 & _ & _ & H2 & H3)].
  - exfalso. exact (not_elem_of_empty 1 (proj1 (H 1) port_declared)).
  - exists ic. split; [exact H1|]. split; [apply H2, port_declared|exact H3].
Qed.

Lemma shadow_columns_witness :
  exists ic v, InitIfCounters portDraw None portResources portRows 77 = Ok (Some ic) /\
    GetDynamicAt ic (rowOID {| isX := true; col := colIfHCInOctets |} 1) 100 = Ok (FormatUint v) /\
    GetDynamicAt ic (rowOID {| isX := false; col := colIfInOctets |} 1) 100 = Ok (FormatUint (v mod 2 ^ 32)).
Proof.
  destruct port_cycler as (ic & HI & Hi & Hok).
  destruct (shadow_columns ic 100 {| isX := false; col := colIfInOctets |} {| isX := true; col := colIfHCInOctets |} 1 (Hok 100 ltac:(lia)) ltac:(left) Hi)
    as (v & _ & H1 & H2).
  exists ic, v. split; [exact HI|]. split; [exact H1|exact H2].
Defined.

(** ** The gap between the tables *)

Definition portDevice (ic : IfCounterCycler) : Device :=
  {| cachedSysName := None; sysName := str "edge-3"; cachedSysLocation := None; sysLocation := str "lab";
     resources := portResources; sortedMetricOIDs := [];
     metricsCycler := Some {| point := 0; metricValue := fun _ _ => []; ifCounters := Some (cyclerOps ic 100) |};
     lldpGet := fun _ => [] |}.
Definition portAnswers (cur : bytes) : option (bytes * bytes) :=
  match InitIfCounters portDraw None portResources portRows 77 with
  | Ok (Some ic) => Some (findNextOIDWithServed (portDevice ic) cur [] 0)
  | _ => None
  end.
Definition portGet (oid : bytes) : option bytes :=
  match InitIfCounters portDraw None portResources portRows 77 with
  | Ok (Some ic) => Some (findResponseAt (portDevice ic) oid 0)
  | _ => None
  end.

(** The successor search gives up between the tables.  On a device whose file
    has no row of ifXTable before ifHCInOctets, GETNEXT of the ifXTable entry, which
    is how a walk of that table starts, answers ifHCInOctets.1 and so passes over
    the rows of columns 2 to 5, which GET serves and a walk from within the table
    finds. *)
Theorem walk_skips_first_columns :
  (exists v, portAnswers (str ".1.3.6.1.2.1.31.1.1.1") = Some (str ".1.3.6.1.2.1.31.1.1.1.6.1", v)) /\
  (exists v, portAnswers (str ".1.3.6.1.2.1.31.1.1.1.1") = Some (str ".1.3.6.1.2.1.31.1.1.1.2.1", v)) /\
  (exists v, portGet (str ".1.3.6.1.2.1.31.1.1.1.2.1") = Some v /\ v <> valueNoSuchObject).
Proof. vm_compute. split; [by eexists|]. split; [by eexists|]. eexists. split; [reflexivity|discriminate]. Qed.
