(* ===== verification/SetReq.v ===== *)
(** * SET requests (snmp_set.go)

    A SetRequest is admitted (by community on v1/v2c, by security level on v3),
    its variable bindings are validated one by one, and only when all of them
    pass are they applied, through the interface state engine.  The response
    echoes the variable-bindings list of the request octet for octet. *)

From S2P Require Import Prelude GoStrings Ber Oid Request Response IfState.

(** ** The writable objects *)

Record writableObject := {
  column : bytes;
  w_tag : Z;
  inRange : Z -> bool;
}.

Definition ifAdminStatusColumn : bytes := str "1.3.6.1.2.1.2.2.1.7".

Definition writableColumns : list writableObject :=
  [{| column := str "1.3.6.1.2.1.2.2.1.7"; w_tag := ASN1_INTEGER;
      inRange := fun v => (AdminUp <=? v) && (v <=? AdminTesting) |}].

Record setVerdict := { errStatus : Z; errIndex : Z }.
Record setAction := { a_column : bytes; a_ifIndex : Z; a_value : Z }.

(** The loop of [writableFor] over the table: the row and the instance suffix. *)
Fixpoint writable_in (table : list writableObject) (n : bytes) : option (writableObject * bytes) :=
  match table with
  | [] => None
  | w :: table' =>
      if beq n (column w) then Some (w, [])
      else if HasPrefix n (column w ++ str ".") then Some (w, drop (length (column w) + 1) n)
      else writable_in table' n
  end.
Definition writableFor (name : bytes) : option (writableObject * bytes) :=
  writable_in writableColumns (TrimPrefix name (str ".")).

Definition instanceIndex (suffix : bytes) : option Z :=
  if beq suffix [] || existsb (Z.eqb dot) suffix then None else
  let '(n, ok) := Atoi suffix in
  if negb ok || (n <=? 0) || negb (beq (Itoa n) suffix) then None else Some n.

(** ** The device a SET acts on

    The interfaces the counter cycler owns, its state engine (nil when the
    device type has none) and the engine's subscribers.  A device without a
    counter cycler is [None]. *)
Record ifDevice := {
  ifIndices : list Z;
  engine : option InterfaceState;
  fan : fanout;
}.

Definition interfaceState (d : option ifDevice) : option InterfaceState :=
  match d with Some d => engine d | None => None end.

Definition ownsIfIndex (d : option ifDevice) (n : Z) : bool :=
  match d with Some d => existsb (fun i => i =? n) (ifIndices d) | None => false end.

(** ** Validation *)

(** One binding: the action, or the error-status it is refused with. *)
Definition validate_binding (d : option ifDevice) (b : snmpVarBind) : res (setAction + Z) :=
  match writableFor (vb_name b) with
  | None => Ok (inr snmpErrNotWritable)
  | Some (row, suffix) =>
      if negb (vb_tag b =? w_tag row) then Ok (inr snmpErrWrongType) else
      let! (v, ok) := parseBERInt (vb_content b) 0 (len (vb_content b)) in
      if negb ok then Ok (inr snmpErrWrongEncoding)
      else if negb (inRange row v) then Ok (inr snmpErrWrongValue)
      else match instanceIndex suffix with
           | None => Ok (inr snmpErrNoCreation)
           | Some n =>
               if negb (ownsIfIndex d n) then Ok (inr snmpErrNoCreation)
               else Ok (inl {| a_column := column row; a_ifIndex := n; a_value := v |})
           end
  end.

Fixpoint validate_loop (d : option ifDevice) (i : Z) (binds : list snmpVarBind) (actions : list setAction)
    : res (list setAction * setVerdict) :=
  match binds with
  | [] => Ok (actions, {| errStatus := snmpErrNoError; errIndex := 0 |})
  | b :: binds' =>
      let! r := validate_binding d b in
      match r with
      | inr e => Ok ([], {| errStatus := e; errIndex := i + 1 |})
      | inl a => validate_loop d (i + 1) binds' (actions ++ [a])
      end
  end.
Definition validateSetBindings (d : option ifDevice) (binds : list snmpVarBind)
    : res (list setAction * setVerdict) := validate_loop d 0 binds [].

(** ** Application

    [clock i] is the engine's clock reading for the [i]-th action. *)
Fixpoint apply_loop (clock : Z -> Z) (i : Z) (actions : list setAction) (d : option ifDevice)
    : option ifDevice * setVerdict :=
  match actions with
  | [] => (d, {| errStatus := snmpErrNoError; errIndex := 0 |})
  | a :: actions' =>
      match d, interfaceState d with
      | Some d0, Some state =>
          if negb (beq (a_column a) ifAdminStatusColumn)
          then (d, {| errStatus := snmpErrGenErr; errIndex := i + 1 |})
          else
            let '(state', evts) := ApplyAdminStatus state (a_ifIndex a) (u8 (a_value a)) (clock i) in
            apply_loop clock (i + 1) actions'
              (Some {| ifIndices := ifIndices d0; engine := Some state'; fan := fold_left Broadcast evts (fan d0) |})
      | _, _ => (d, {| errStatus := snmpErrGenErr; errIndex := i + 1 |})
      end
  end.
Definition applySetActions (clock : Z -> Z) (actions : list setAction) (d : option ifDevice)
    : option ifDevice * setVerdict := apply_loop clock 0 actions d.

Definition decideSet (clock : Z -> Z) (binds : list snmpVarBind) (d : option ifDevice)
    : res (option ifDevice * setVerdict) :=
  let! (actions, verdict) := validateSetBindings d binds in
  if negb (errStatus verdict =? snmpErrNoError) then Ok (d, verdict)
  else Ok (applySetActions clock actions d).

(** [None] is the silent discard of a malformed request.  An empty list of
    bindings parses to an empty, non-nil slice and is answered. *)
Definition handleSetRequest (clock : Z -> Z) (requestData : bytes) (d : option ifDevice)
    : res (option ifDevice * option bytes) :=
  let! r := requestVarBindListPos requestData in
  match r with
  | None => Ok (d, None)
  | Some (pos, pduEnd) =>
      if (len requestData <? pduEnd) || (pduEnd <? pos) then Ok (d, None) else
      let! bad :=
        (if pos <? pduEnd then
           let! b := index requestData pos in
           if b =? ASN1_SEQUENCE then
             let! (listLen, afterLen) := parseLength requestData (pos + 1) in
             Ok ((0 <=? listLen) && ((pduEnd - afterLen <? listLen) || negb (afterLen + listLen =? pduEnd)))
           else Ok false
         else Ok false) in
      if bad : bool then Ok (d, None) else
      let! pdu := slice requestData 0 pduEnd in
      let! v := parseVarBinds pdu pos in
      match v with
      | ListParsed (binds, echoed) =>
          let! (d', verdict) := decideSet clock binds d in
          let! response := createSetResponse requestData echoed (errStatus verdict) (errIndex verdict) in
          Ok (d', Some response)
      | _ => Ok (d, None)
      end
  end.

(** ** Admission *)

Definition SNMPV3_MSG_FLAG_AUTH : Z := 0x01.
Definition SNMPV3_MSG_FLAG_PRIV : Z := 0x02.

Inductive snmpSecurityLevel :=
| securityLevelUnset
| securityLevelNoAuthNoPriv
| securityLevelAuthNoPriv
| securityLevelAuthPriv.

Definition levelValue (l : snmpSecurityLevel) : Z :=
  match l with
  | securityLevelUnset => 0
  | securityLevelNoAuthNoPriv => 1
  | securityLevelAuthNoPriv => 2
  | securityLevelAuthPriv => 3
  end.

Record setAdmissionConfig := { WriteCommunity : bytes; MinSecurityLevel : snmpSecurityLevel }.

Definition effectiveMinSecurityLevel (c : setAdmissionConfig) : snmpSecurityLevel :=
  match MinSecurityLevel c with
  | securityLevelUnset => securityLevelAuthNoPriv
  | l => l
  end.

Definition securityLevelOf (flags : Z) : snmpSecurityLevel :=
  let auth := negb (Z.land flags SNMPV3_MSG_FLAG_AUTH =? 0) in
  let priv := negb (Z.land flags SNMPV3_MSG_FLAG_PRIV =? 0) in
  if auth && priv then securityLevelAuthPriv
  else if auth then securityLevelAuthNoPriv
  else securityLevelNoAuthNoPriv.

Definition admitSetV2c (c : setAdmissionConfig) (req : SNMPRequest) : bool :=
  if beq (WriteCommunity c) [] then false
  else if negb (CommunityParsed req) then false
  else beq (Community req) (WriteCommunity c).

Definition admitSetV3 (c : setAdmissionConfig) (MsgFlags : Z) : bool :=
  levelValue (effectiveMinSecurityLevel c) <=? levelValue (securityLevelOf MsgFlags).

(** ** Validation, binding by binding *)

Lemma validate_binding_safe d b : safe (validate_binding d b).
Proof.
  unfold validate_binding, safe. destruct (writableFor (vb_name b)) as [[row suffix]|]; [|done].
  wp_step; [done|]. wp_step. apply parseBERInt_wp; [lia|]. intros v ok _. repeat (wp_step; [done|]).
  destruct (instanceIndex suffix); [|done]. by wp_step.
Qed.

(** The actions of bindings that all pass, in order. *)
Definition validated (d : option ifDevice) (binds : list snmpVarBind) (actions : list setAction) : Prop :=
  Forall2 (fun b a => validate_binding d b = Ok (inl a)) binds actions.

(** The first binding that does not, and why. *)
Definition first_refusal (d : option ifDevice) (binds : list snmpVarBind) (v : setVerdict) : Prop :=
  exists pre b post actions, binds = pre ++ b :: post /\ validated d pre actions /\
    validate_binding d b = Ok (inr (errStatus v)) /\ errIndex v = len pre + 1.

Definition refusals : list Z :=
  [snmpErrNotWritable; snmpErrWrongType; snmpErrWrongEncoding; snmpErrWrongValue; snmpErrNoCreation].

Lemma validate_binding_refusal d b e : validate_binding d b = Ok (inr e) -> e ∈ refusals.
Proof.
  unfold validate_binding. destruct (writableFor (vb_name b)) as [[row suffix]|]; [|intros [= <-]; apply list_elem_of_In; cbn; tauto].
  case_if; [intros [= <-]; apply list_elem_of_In; cbn; tauto|]. intros ([v ok] & _ & H)%res_bind_Ok. revert H.
  case_if; [intros [= <-]; apply list_elem_of_In; cbn; tauto|]. case_if; [intros [= <-]; apply list_elem_of_In; cbn; tauto|].
  destruct (instanceIndex suffix); [|intros [= <-]; apply list_elem_of_In; cbn; tauto]. case_if; [intros [= <-]; apply list_elem_of_In; cbn; tauto|done].
Qed.

(** What an accepted binding asks for. *)
Lemma validate_binding_action d b a :
  validate_binding d b = Ok (inl a) ->
  a_column a = ifAdminStatusColumn /\ AdminUp <= a_value a <= AdminTesting /\ ownsIfIndex d (a_ifIndex a) = true.
Proof.
  unfold validate_binding. destruct (writableFor (vb_name b)) as [[row suffix]|] eqn:Hw; [|done].
  assert (Hrow : column row = ifAdminStatusColumn /\ inRange row = inRange (hd row writableColumns)).
  { unfold writableFor, writableColumns, writable_in in Hw. repeat case_match; simplify_eq; done. }
  destruct Hrow as [Hc Hin]. case_if; [done|]. intros ([v ok] & _ & H)%res_bind_Ok. revert H. case_if; [done|].
  case_if; [done|]. destruct (instanceIndex suffix) as [n|]; [|done]. case_if; [done|]. intros [= <-]. cbn.
  rewrite Hin in *. cbn in *. split_and!; (done || lia).
Qed.

Lemma validate_loop_spec d binds : forall i acts,
  exists actions v, validate_loop d i binds acts = Ok (actions, v) /\
    ((errStatus v = snmpErrNoError /\ errIndex v = 0 /\ exists new, actions = acts ++ new /\ validated d binds new) \/
     (actions = [] /\ errStatus v ∈ refusals /\
      exists pre b post new, binds = pre ++ b :: post /\ validated d pre new /\
        validate_binding d b = Ok (inr (errStatus v)) /\ errIndex v = i + len pre + 1)).
Proof.
  induction binds as [|b binds IH]; intros i acts; cbn [validate_loop].
  { eexists _, _. split; [done|]. left. split_and!; try done. exists []. split; [by rewrite app_nil_r|constructor]. }
  destruct (proj1 (safe_Ok _) (validate_binding_safe d b)) as [[a|e] Hb]; rewrite Hb; cbn [res_bind].
  - destruct (IH (i + 1) (acts ++ [a])) as (actions & v & -> & H). exists actions, v. split; [done|].
    destruct H as [(H1 & H2 & new & -> & Hv)|(H1 & H2 & pre & b' & post & new & -> & Hv & Hb' & Hi)].
    + left. split_and!; try done. exists (a :: new). rewrite <- app_assoc. split; [done|]. by constructor.
    + right. split_and!; try done. exists (b :: pre), b', post, (a :: new). split_and!; try done; [by constructor|].
      rewrite Hi, len_cons. lia.
  - eexists _, _. split; [done|]. right. split_and!; [done|by eapply validate_binding_refusal|].
    exists [], b, binds, []. split_and!; [done|constructor|done|cbn [errIndex]; rewrite len_nil; lia].
Qed.

Lemma validateSetBindings_spec d binds :
  exists actions v, validateSetBindings d binds = Ok (actions, v) /\
    ((errStatus v = snmpErrNoError /\ errIndex v = 0 /\ validated d binds actions) \/
     (errStatus v ∈ refusals /\ first_refusal d binds v)).
Proof.
  destruct (validate_loop_spec d binds 0 []) as (actions & v & Hl & H). exists actions, v. split; [done|].
  destruct H as [(H1 & H2 & new & -> & Hv)|(_ & H2 & pre & b & post & new & Hb)]; [by left|].
  right. split; [done|]. by exists pre, b, post, new.
Qed.

(** ** Application *)

(** The admin-status the actions leave on an interface, [old] if none names it. *)
Definition requestedAdmin (actions : list setAction) (j old : Z) : Z :=
  fold_left (fun v a => if a_ifIndex a =? j then a_value a else v) actions old.

(** A device whose interfaces are slots of its engine. *)
Definition device_ok (d : ifDevice) (s : InterfaceState) : Prop :=
  engine d = Some s /\ reachable_engine s /\ Forall (in_range s) (ifIndices d).

Lemma apply_loop_spec clock actions : forall i d s,
  device_ok d s ->
  Forall (fun a => a_column a = ifAdminStatusColumn /\ AdminUp <= a_value a <= AdminTesting /\
                   ownsIfIndex (Some d) (a_ifIndex a) = true) actions ->
  exists d' s', apply_loop clock i actions (Some d) = (Some d', {| errStatus := snmpErrNoError; errIndex := 0 |}) /\
    device_ok d' s' /\ ifIndices d' = ifIndices d /\ same_frame s s' /\
    forall j, in_range s j -> LinkState s' j = LinkState s j /\
      AdminStatus s' j = requestedAdmin actions j (AdminStatus s j).
Proof.
  induction actions as [|a actions IH]; intros i d s Hd Hall.
  { by exists d, s. }
  apply Forall_cons_1 in Hall as [(Hc & Hv & Ho) Hall]. destruct Hd as (He & Hre & Hr).
  cbn [apply_loop interfaceState]. rewrite He, Hc. unfold beq. rewrite bool_decide_eq_true_2 by done. cbn [negb].
  assert (Hu : u8 (a_value a) = a_value a) by (unfold u8, AdminUp, AdminTesting in *; apply Z.mod_small; lia).
  rewrite Hu. destruct (ApplyAdminStatus s (a_ifIndex a) (a_value a) (clock i)) as [s1 evts] eqn:Ha.
  assert (Hir : in_range s (a_ifIndex a)).
  { unfold ownsIfIndex in Ho. apply existsb_exists in Ho as (n & Hn & En). apply Z.eqb_eq in En. subst n.
    by eapply List.Forall_forall in Hr. }
  destruct (setAdminLeaf_observed _ _ _ _ _ _ (reachable_engine_ok s Hre) Hir Hv Ha) as (_ & _ & Hoth & HL & HA & _).
  pose proof (setAdminLeaf_frame _ _ _ _ _ _ Ha) as Hf.
  set (d1 := {| ifIndices := ifIndices d; engine := Some s1; fan := fold_left Broadcast evts (fan d) |}).
  assert (Hir1 : forall j, in_range s1 j <-> in_range s j) by (intros j; unfold in_range; by destruct Hf as (-> & _)).
  destruct (IH (i + 1) d1 s1) as (d' & s' & Hl & Hd' & Hi' & Hf' & Hj).
  { split_and!; [done|by eapply re_ApplyAdminStatus|]. eapply List.Forall_impl; [|exact Hr]. intros j. by rewrite Hir1. }
  { done. }
  exists d', s'. split_and!; [done|done|done|by eapply same_frame_trans|]. intros j Hjr.
  destruct (Hj j) as [HjL HjA]; [by apply Hir1|]. rewrite HjL, HjA. cbn [requestedAdmin fold_left].
  destruct (a_ifIndex a =? j) eqn:E; zbool.
  - subst j. by rewrite HL, HA.
  - destruct (Hoth j Hjr ltac:(lia)) as [-> ->]. done.
Qed.

(** ** A SET on the wire *)

Section wire.
  Context (version : Z) (community : bytes) (id a b : Z) (vbs : list (list Z * Z * bytes)).
Let data := requestMessage version community (requestPDU ASN1_SET_REQUEST id a b (bindsOf vbs)).
  Hypothesis Hlen : len data <= MaxInt32.
  Hypothesis Hversion : wire_int version.
  Hypothesis Hid : wire_int id.
  Hypothesis Ha : wire_int a.
  Hypothesis Hb : wire_int b.
  Hypothesis Hvbs : Forall (fun vb => arcs_fit (fst (fst vb))) vbs.

(** The list position, and that the list ends the PDU and the PDU the datagram. *)
Lemma set_layout :
  exists pos, requestVarBindListPos data = Ok (Some (pos, len data)) /\
    holds_at data pos (encodeSequence (bindsOf vbs)) /\ pos + len (encodeSequence (bindsOf vbs)) = len data.
Proof.
  eexists. unfold data. rewrite requestVarBindListPos_at by done.
  pose proof (at_binds version community ASN1_SET_REQUEST id a b vbs) as Hbs.
  assert (Hl : len (requestMessage version community (requestPDU ASN1_SET_REQUEST id a b (bindsOf vbs))) =
    hlen (len (encodeInteger version ++ encodeOctetString community ++ requestPDU ASN1_SET_REQUEST id a b (bindsOf vbs))) +
    len (encodeInteger version ++ encodeOctetString community ++ requestPDU ASN1_SET_REQUEST id a b (bindsOf vbs))) by apply len_tlv.
  assert (Hp : len (requestPDU ASN1_SET_REQUEST id a b (bindsOf vbs)) =
    hlen (len (encodeInteger id ++ encodeInteger a ++ encodeInteger b ++ encodeSequence (bindsOf vbs))) +
    len (encodeInteger id ++ encodeInteger a ++ encodeInteger b ++ encodeSequence (bindsOf vbs))) by apply len_tlv.
  assert (Happ : forall (x y z : bytes), len (x ++ y ++ z) = len x + len y + len z) by (intros; rewrite !len_app; lia).
  assert (Happ4 : forall (x y z w : bytes), len (x ++ y ++ z ++ w) = len x + len y + len z + len w) by (intros; rewrite !len_app; lia).
  pose proof (Happ (encodeInteger version) (encodeOctetString community) (requestPDU ASN1_SET_REQUEST id a b (bindsOf vbs))) as Hbody.
  pose proof (Happ4 (encodeInteger id) (encodeInteger a) (encodeInteger b) (encodeSequence (bindsOf vbs))) as Hpb.
  split; [|split; [exact Hbs|]].
  - do 3 f_equal. lia.
  - lia.
Qed.

Lemma handleSetRequest_at clock d arcs t c rest :
  vbs = (arcs, t, c) :: rest ->
  handleSetRequest clock data d =
    (let! (d', v) := decideSet clock (map vbOf vbs) d in
     let st := if version =? snmpVersion1 then v1SetErrorStatus (errStatus v) else errStatus v in
     Ok (d', Some (encodeGetResponseAt
       {| Community := community; RequestID := id; OID := dotted arcs; Version := version; CommunityParsed := true |}
       (bindsOf vbs) st (if st =? snmpErrNoError then 0 else errIndex v)))).
Proof.
  intros Hne. destruct set_layout as (pos & Hpos & Hbs & Hend). unfold handleSetRequest. rewrite Hpos. cbn [res_bind].
  rewrite encodeSequence_tlv in Hbs, Hend. pose proof (len_nonneg (bindsOf vbs)). pose proof (hlen_pos (len (bindsOf vbs))).
  rewrite len_tlv in Hend. pose proof (holds_at_bounds _ _ _ Hbs).
  replace ((len data <? len data) || (len data <? pos)) with false by lia. cbv beta iota.
  replace (pos <? len data) with true by lia.
  rewrite (holds_at_index _ _ _ _ Hbs). cbn [res_bind]. rewrite Z.eqb_refl.
  rewrite (holds_at_length _ _ _ _ Hbs) by (by eapply holds_at_fits). cbn [res_bind].
  replace ((0 <=? len (bindsOf vbs)) && ((len data - (pos + hlen (len (bindsOf vbs))) <? len (bindsOf vbs))
    || negb (pos + hlen (len (bindsOf vbs)) + len (bindsOf vbs) =? len data))) with false by lia.
  replace (slice data 0 (len data)) with (Ok data).
  2: { symmetry. apply (holds_at_slice data 0 data), holds_at_self. }
  cbn [res_bind]. rewrite <- encodeSequence_tlv in Hbs. rewrite (parseVarBinds_at _ _ _ Hlen Hvbs Hbs). cbn [res_bind].
  destruct (decideSet clock (map vbOf vbs) d) as [[d' v]| |]; cbn [res_bind]; [|done..].
  unfold createSetResponse, data. erewrite parseIncomingRequest_at by done. cbn [res_bind Version].
  by destruct (version =? snmpVersion1).
Qed.

End wire.

(** ** Writing ifAdminStatus *)

(** The binding a manager sends to set ifAdminStatus of interface [n] to [v]. *)
Definition adminBinding (nv : Z * Z) : list Z * Z * bytes :=
  ([1; 3; 6; 1; 2; 1; 2; 2; 1; 7; fst nv], ASN1_INTEGER, integerBody (snd nv)).

Lemma instanceIndex_FormatUint n : 1 <= n <= MaxInt32 -> instanceIndex (FormatUint n) = Some n.
Proof.
  unfold MaxInt32. intros Hn. unfold instanceIndex. assert (Hr : 0 <= n < 2 ^ 64) by lia.
  replace (beq (FormatUint n) []) with false.
  2: { symmetry. apply bool_decide_eq_false_2. by apply FormatUint_nonempty. }
  replace (existsb (Z.eqb dot) (FormatUint n)) with false.
  2: { symmetry. apply not_true_iff_false. intros (c & Hc & E)%existsb_exists. apply Z.eqb_eq in E. subst c.
       by apply FormatUint_no_dot in Hc. }
  rewrite Atoi_FormatUint by (unfold MaxInt64; lia). cbn [orb negb].
  replace (n <=? 0) with false by lia. unfold Itoa. replace (n <? 0) with false by lia.
  unfold beq. by rewrite bool_decide_eq_true_2.
Qed.

Lemma writableFor_admin n :
  1 <= n <= MaxInt32 ->
  exists row, writableFor (dotted [1; 3; 6; 1; 2; 1; 2; 2; 1; 7; n]) = Some (row, FormatUint n) /\ hd_error writableColumns = Some row.
Proof.
  intros Hn. eexists. split; [|reflexivity]. unfold writableFor. rewrite TrimPrefix_dotted.
  assert (Hj : Join dot (map FormatUint [1; 3; 6; 1; 2; 1; 2; 2; 1; 7; n]) = (ifAdminStatusColumn ++ str ".") ++ FormatUint n).
  { cbn [map]. generalize (FormatUint n). intros x. reflexivity. }
  rewrite Hj. unfold writable_in, writableColumns, column.
  replace (beq _ _) with false.
  2: { symmetry. apply bool_decide_eq_false_2. intros H. apply (f_equal length) in H. rewrite !length_app in H. cbn in H. lia. }
  replace (HasPrefix _ _) with true.
  2: { symmetry. apply HasPrefix_true. by exists (FormatUint n). }
  by rewrite drop_app_length'.
Qed.

Lemma validate_adminBinding d n v :
  1 <= n <= MaxInt32 -> AdminUp <= v <= AdminTesting -> ownsIfIndex d n = true ->
  validate_binding d (vbOf (adminBinding (n, v))) =
    Ok (inl {| a_column := ifAdminStatusColumn; a_ifIndex := n; a_value := v |}).
Proof.
  intros Hn Hv Ho. unfold validate_binding, vbOf, adminBinding. cbn [vb_name vb_tag vb_content fst snd].
  destruct (writableFor_admin n Hn) as (row & -> & Hrow). injection Hrow as <-. cbn [w_tag column inRange].
  rewrite Z.eqb_refl. cbn [negb].
  rewrite (holds_at_int (integerBody v) 0 v); [|unfold AdminUp, AdminTesting, MaxInt64 in *; lia|apply holds_at_self].
  cbn [res_bind negb]. replace ((AdminUp <=? v) && (v <=? AdminTesting)) with true by lia. cbn [negb].
  by rewrite instanceIndex_FormatUint, Ho by done.
Qed.

(** C23: a SET is all or nothing.  On any list of bindings the agent either
    applies every one of them, in order, and then each interface reads the last
    admin-status requested for it, no link having moved; or it leaves the device
    exactly as it was and answers the error of the first binding that is refused,
    at that binding's 1-based index. *)
Theorem set_all_or_nothing clock binds d s :
  device_ok d s ->
  exists d' v, decideSet clock binds (Some d) = Ok (d', v) /\
    ((errStatus v = snmpErrNoError /\ errIndex v = 0 /\
      exists actions d1 s1, validated (Some d) binds actions /\ d' = Some d1 /\ device_ok d1 s1 /\
        forall j, in_range s j -> LinkState s1 j = LinkState s j /\
          AdminStatus s1 j = requestedAdmin actions j (AdminStatus s j)) \/
     (errStatus v ∈ refusals /\ d' = Some d /\ first_refusal (Some d) binds v)).
Proof.
  intros Hd. unfold decideSet. destruct (validateSetBindings_spec (Some d) binds) as (actions & v & -> & H). cbn [res_bind].
  destruct H as [(H1 & H2 & Hval)|[H1 H2]].
  - rewrite H1. cbn [Z.eqb negb].
    destruct (apply_loop_spec clock actions 0 d s Hd) as (d1 & s1 & Hl & Hd1 & _ & (Hf & _) & Hj).
    { clear -Hval. induction Hval as [|b a binds actions Hb _ IH]; constructor; [|done]. by eapply validate_binding_action. }
    unfold applySetActions. rewrite Hl. eexists _, _. split; [done|]. left. split_and!; try done. by exists actions, d1, s1.
  - assert (Hne : errStatus v <> snmpErrNoError).
    { intros E. rewrite E in H1. apply list_elem_of_In in H1. cbn in H1. intuition discriminate. }
    replace (errStatus v =? snmpErrNoError) with false by lia. cbn [negb]. eexists _, _. split; [done|]. by right.
Qed.

Definition sampleDevice : ifDevice := {| ifIndices := [1; 2; 3; 4]; engine := Some sampleEngine; fan := sampleFanout |}.

Lemma sampleDevice_ok : device_ok sampleDevice sampleEngine.
Proof.
  split_and!; [done|apply sampleEngine_reachable|].
  repeat (apply List.Forall_cons; [unfold in_range; vm_compute; split; discriminate|]). constructor.
Qed.

Lemma set_all_or_nothing_witness :
  exists d' v, decideSet (fun i => 5000 + i) (map (fun p => vbOf (adminBinding p)) [(1, 2); (9, 1); (4, 2)]) (Some sampleDevice) = Ok (d', v) /\
    d' = Some sampleDevice /\ errStatus v = snmpErrNoCreation /\ errIndex v = 2.
Proof.
  destruct (set_all_or_nothing (fun i => 5000 + i) (map (fun p => vbOf (adminBinding p)) [(1, 2); (9, 1); (4, 2)]) sampleDevice sampleEngine
    sampleDevice_ok) as (d' & v & Hd & H). exists d', v. split; [exact Hd|].
  assert (Hd' := Hd). vm_compute in Hd'. injection Hd' as <- <-. done.
Defined.

(** ** Writing through the wire *)

Lemma validated_admin d nvs :
  Forall (fun nv => 1 <= fst nv <= MaxInt32 /\ AdminUp <= snd nv <= AdminTesting /\ ownsIfIndex d (fst nv) = true) nvs ->
  validated d (map vbOf (map adminBinding nvs))
    (map (fun nv => {| a_column := ifAdminStatusColumn; a_ifIndex := fst nv; a_value := snd nv |}) nvs).
Proof.
  induction 1 as [|[n v] nvs (H1 & H2 & H3) _ IH]; [constructor|]. cbn [map]. constructor; [|done].
  by apply validate_adminBinding.
Qed.

Lemma validated_det d binds a1 a2 : validated d binds a1 -> validated d binds a2 -> a1 = a2.
Proof.
  intros H. revert a2. induction H as [|b x binds xs Hb _ IH]; intros a2 H2; inversion H2 as [|? y ? ys Hy Hys]; subst; [done|].
  f_equal; [congruence|]. by apply IH.
Qed.

Lemma validated_not_refused d binds actions v : validated d binds actions -> ~ first_refusal d binds v.
Proof.
  intros Hv (pre & b & post & new & -> & _ & Hb & _). apply Forall2_app_inv_l in Hv as (? & ? & _ & Hv & _).
  inversion Hv as [|? ? ? ? Hb' _]; subst. congruence.
Qed.

(** A decided SET of valid ifAdminStatus bindings. *)
Lemma decideSet_admin clock d s nvs :
  device_ok d s ->
  Forall (fun nv => 1 <= fst nv <= MaxInt32 /\ AdminUp <= snd nv <= AdminTesting /\ In (fst nv) (ifIndices d)) nvs ->
  exists d' s', decideSet clock (map vbOf (map adminBinding nvs)) (Some d) =
      Ok (Some d', {| errStatus := snmpErrNoError; errIndex := 0 |}) /\ device_ok d' s' /\ maxIfIndex s' = maxIfIndex s /\
    forall j, in_range s j -> LinkState s' j = LinkState s j /\
      AdminStatus s' j = fold_left (fun v nv => if fst nv =? j then snd nv else v) nvs (AdminStatus s j).
Proof.
  intros Hd Hnv. set (acts := map (fun nv => {| a_column := ifAdminStatusColumn; a_ifIndex := fst nv; a_value := snd nv |}) nvs).
  assert (Hval : validated (Some d) (map vbOf (map adminBinding nvs)) acts).
  { apply validated_admin. eapply List.Forall_impl; [|exact Hnv]. intros nv (? & ? & Hin). split; [done|]. split; [done|].
    apply existsb_exists. exists (fst nv). split; [done|]. apply Z.eqb_refl. }
  unfold decideSet. destruct (validateSetBindings_spec (Some d) (map vbOf (map adminBinding nvs))) as (actions & v & -> & H).
  cbn [res_bind]. destruct H as [(H1 & H2 & Hval')|[_ H2]]; [|by apply (validated_not_refused _ _ _ _ Hval) in H2].
  rewrite H1. cbn [Z.eqb negb]. assert (actions = acts) as -> by (by eapply validated_det).
  destruct (apply_loop_spec clock acts 0 d s Hd) as (d1 & s1 & Hl & Hd1 & _ & (Hf & _) & Hj).
  { clear -Hval. induction Hval as [|b a binds actions Hb _ IH]; constructor; [|done]. by eapply validate_binding_action. }
  exists d1, s1. unfold applySetActions. rewrite Hl. split_and!; try done. intros j Hjr.
  destruct (Hj j Hjr) as [-> ->]. split; [done|]. unfold requestedAdmin, acts. generalize (AdminStatus s j). clear.
  induction nvs as [|nv nvs IH]; intros old; [done|]. cbn [map fold_left]. apply IH.
Qed.

Lemma admin_on_the_wire clock version community id a b d s n v rest :
  let nvs := (n, v) :: rest in
  let vbs := map adminBinding nvs in
  let data := requestMessage version community (requestPDU ASN1_SET_REQUEST id a b (bindsOf vbs)) in
  len data <= MaxInt32 -> wire_int version -> wire_int id -> wire_int a -> wire_int b ->
  device_ok d s ->
  Forall (fun nv => 1 <= fst nv <= MaxInt32 /\ AdminUp <= snd nv <= AdminTesting /\ In (fst nv) (ifIndices d)) nvs ->
  exists d' s' req,
    handleSetRequest clock data (Some d) = Ok (Some d', Some (encodeGetResponseAt req (bindsOf vbs) snmpErrNoError 0)) /\
    Version req = version /\ Community req = community /\ RequestID req = id /\ device_ok d' s' /\ maxIfIndex s' = maxIfIndex s /\
    forall j, in_range s j -> LinkState s' j = LinkState s j /\
      AdminStatus s' j = fold_left (fun v nv => if fst nv =? j then snd nv else v) nvs (AdminStatus s j).
Proof.
  intros nvs vbs data Hlen Hv Hid Ha Hb Hd Hnv.
  assert (Hfit : Forall (fun vb => arcs_fit (fst (fst vb))) vbs).
  { apply List.Forall_map. eapply List.Forall_impl; [|exact Hnv]. intros [n' v'] (Hn' & _ & _). cbn [fst adminBinding] in *.
    unfold MaxInt32 in Hn'. split; [split; [unfold pair_ok, maxOIDSubIdentifier; lia|]|].
    - repeat (apply List.Forall_cons; [unfold subid_ok, maxOIDSubIdentifier; lia|]). constructor.
    - unfold oidBody. cbn [subids map concat].
      repeat match goal with |- context [encodeOIDComponent ?k] =>
        pose proof (encodeOIDComponent_len k ltac:(lia)); generalize dependent (encodeOIDComponent k); intros end.
      rewrite !len_app, len_nil. unfold maxOIDBodyBytes. lia. }
  destruct (decideSet_admin clock d s nvs Hd Hnv) as (d' & s' & Hdec & Hd' & Hmax & Hj).
  unfold data. rewrite (handleSetRequest_at version community id a b vbs Hlen Hv Hid Ha Hb Hfit clock (Some d)
    (fst (fst (adminBinding (n, v)))) ASN1_INTEGER (integerBody v) (map adminBinding rest)) by done.
  unfold vbs at 1. rewrite Hdec. cbn [res_bind errStatus errIndex].
  replace (if version =? snmpVersion1 then v1SetErrorStatus snmpErrNoError else snmpErrNoError) with snmpErrNoError
    by (by destruct (version =? snmpVersion1)).
  eexists d', s', _. split; [reflexivity|]. by split_and!.
Qed.

(** Writing ifAdminStatus over the wire.  A manager's well-formed SetRequest
    (v1 or v2c) of any number of ifAdminStatus instances the device owns, to any
    of up, down and testing, is answered noError with the request's own
    variable-bindings list echoed octet for octet, and afterwards every interface
    reads the last admin-status the request named for it (its old one if none),
    with every link where it was. *)
Theorem set_admin_on_the_wire clock version community id a b d s n v rest :
  let nvs := (n, v) :: rest in
  let vbs := map adminBinding nvs in
  let data := requestMessage version community (requestPDU ASN1_SET_REQUEST id a b (bindsOf vbs)) in
  len data <= MaxInt32 -> wire_int version -> wire_int id -> wire_int a -> wire_int b ->
  device_ok d s ->
  Forall (fun nv => 1 <= fst nv <= MaxInt32 /\ AdminUp <= snd nv <= AdminTesting /\ In (fst nv) (ifIndices d)) nvs ->
  exists d' s' req,
    handleSetRequest clock data (Some d) = Ok (Some d', Some (encodeGetResponseAt req (bindsOf vbs) snmpErrNoError 0)) /\
    Version req = version /\ Community req = community /\ RequestID req = id /\ device_ok d' s' /\
    forall j, in_range s j -> LinkState s' j = LinkState s j /\
      AdminStatus s' j = fold_left (fun v nv => if fst nv =? j then snd nv else v) nvs (AdminStatus s j).
Proof.
  intros nvs vbs data Hlen Hv Hid Ha Hb Hd Hnv.
  destruct (admin_on_the_wire clock version community id a b d s n v rest Hlen Hv Hid Ha Hb Hd Hnv) as (d' & s' & req & H1 & H2 & H3 & H4 & H5 & _ & H6).
  by exists d', s', req.
Qed.

Lemma set_admin_on_the_wire_witness :
  exists d' s' req,
    handleSetRequest (fun i => 5000 + i)
      (requestMessage 0 (str "secret") (requestPDU ASN1_SET_REQUEST 77 0 0 (bindsOf (map adminBinding [(1, 2); (4, 3); (1, 1)]))))
      (Some sampleDevice) =
      Ok (Some d', Some (encodeGetResponseAt req (bindsOf (map adminBinding [(1, 2); (4, 3); (1, 1)])) snmpErrNoError 0)) /\
    Version req = 0 /\ Community req = str "secret" /\ RequestID req = 77 /\ device_ok d' s' /\
    AdminStatus s' 1 = AdminUp /\ AdminStatus s' 4 = AdminTesting.
Proof.
  destruct (set_admin_on_the_wire (fun i => 5000 + i) 0 (str "secret") 77 0 0 sampleDevice sampleEngine 1 2 [(4, 3); (1, 1)])
    as (d' & s' & req & H1 & H2 & H3 & H4 & H5 & Hj).
  - vm_compute. discriminate.
  - unfold wire_int, MaxInt64. lia.
  - unfold wire_int, MaxInt64. lia.
  - unfold wire_int, MaxInt64. lia.
  - unfold wire_int, MaxInt64. lia.
  - apply sampleDevice_ok.
  - repeat (apply List.Forall_cons; [cbn; unfold MaxInt32, AdminUp, AdminTesting; split; [lia|split; [lia|tauto]]|]). constructor.
  - exists d', s', req. split; [exact H1|]. split; [exact H2|]. split; [exact H3|]. split; [exact H4|]. split; [exact H5|]. split.
    + destruct (Hj 1) as [_ ->]; [unfold in_range; vm_compute; split; discriminate|reflexivity].
    + destruct (Hj 4) as [_ ->]; [unfold in_range; vm_compute; split; discriminate|reflexivity].
Defined.

(** ** Safety *)

Lemma decideSet_safe clock binds d : safe (decideSet clock binds d).
Proof.
  unfold decideSet. destruct (validateSetBindings_spec d binds) as (actions & v & -> & _). unfold safe. cbn [res_bind].
  by wp_step.
Qed.

Lemma createSetResponse_safe data echoed st ix : bytes_ok data -> safe (createSetResponse data echoed st ix).
Proof.
  intros Hok. unfold createSetResponse, safe. wp_step. eapply wp_mono; [by apply parseIncomingRequest_safe|]. done.
Qed.

(** Any datagram, well formed or not. *)
Lemma handleSetRequest_safe clock data d : bytes_ok data -> safe (handleSetRequest clock data d).
Proof.
  intros Hok. unfold handleSetRequest, safe. wp_step. apply requestVarBindListPos_wp; [done|done|].
  intros pos pduEnd Hp He. wp_step; [done|]. wp_step.
  apply wp_mono with (fun _ => True).
  { repeat wp_ber; try done. }
  intros bad _. destruct bad; [done|]. wp_step. apply wp_slice_ok; [done|lia|lia|]. intros pdu Hpdu _ _.
  wp_step. eapply wp_mono; [by apply parseVarBinds_safe|]. intros [| |[binds echoed]] _; [done|done|].
  wp_step. eapply wp_mono; [apply decideSet_safe|]. intros [d' v] _. wp_step.
  eapply wp_mono; [by apply createSetResponse_safe|]. done.
Qed.

(** ** Admission *)

(** The community a request carries was read from the datagram: an OCTET STRING
    header at [p] declares its length and its octets follow. *)
Definition community_on_wire (data c : bytes) : Prop :=
  exists p q, index data p = Ok ASN1_OCTET_STRING /\ parseLength data (p + 1) = Ok (len c, q) /\ holds_at data q c.

Lemma slice_holds data a b s : slice data a b = Ok s -> holds_at data a s /\ len s = b - a.
Proof.
  unfold slice. case_if; [done|]. intros [= <-].
  pose proof (len_nonneg data). split.
  - exists (take (Z.to_nat a) data), (drop (Z.to_nat b) data). split.
    + rewrite <- (take_drop (Z.to_nat a) data) at 1. f_equal.
      rewrite <- (take_drop (Z.to_nat (b - a)) (drop (Z.to_nat a) data)) at 1. f_equal.
      rewrite drop_drop. f_equal. lia.
    + rewrite len_take. lia.
  - rewrite len_take, len_drop. lia.
Qed.

Lemma tag_at_true data pos tag : tag_at data pos tag = Ok true -> index data pos = Ok tag.
Proof.
  unfold tag_at. case_if; [done|]. intros (b & Hb & Ht)%res_bind_Ok. injection Ht as Ht%Z.eqb_eq. by subst.
Qed.

(** Only [incoming_community] ever marks the community as parsed. *)
Definition community_honest (data : bytes) (r : SNMPRequest) : Prop :=
  CommunityParsed r = true -> community_on_wire data (Community r).

Lemma incoming_int_community set data pos req r p :
  (forall v r, Community (set v r) = Community r /\ CommunityParsed (set v r) = CommunityParsed r) ->
  incoming_int set data pos req = Ok (r, p) -> community_honest data req -> community_honest data r.
Proof.
  intros Hset. unfold incoming_int. intros (t & _ & H)%res_bind_Ok. destruct t; [|by injection H as <- _].
  apply res_bind_Ok in H as ([n np] & _ & H). apply res_bind_Ok in H as ([v ok] & _ & H). injection H as <- _.
  destruct ok; [|done]. unfold community_honest. by destruct (Hset v req) as [-> ->].
Qed.

Lemma incoming_community_honest data pos req r p :
  incoming_community data pos req = Ok (r, p) -> community_honest data req -> community_honest data r.
Proof.
  unfold incoming_community. intros (t & Ht & H)%res_bind_Ok. destruct t; [|by injection H as <- _].
  apply res_bind_Ok in H as ([n np] & Hn & H). revert H. case_if; [|by intros [= <- _]].
  intros (c & Hc & [= <- _])%res_bind_Ok _ _. apply slice_holds in Hc as [Hc Hl]. cbn.
  exists pos, np. split_and!; [by apply tag_at_true| |done]. rewrite Hn. repeat f_equal. lia.
Qed.

Lemma incoming_varbinds_community data pos req r :
  incoming_varbinds data pos req = Ok r -> Community r = Community req /\ CommunityParsed r = CommunityParsed req.
Proof.
  unfold incoming_varbinds. intros H.
  repeat match goal with
  | H : res_bind _ _ = Ok _ |- _ => apply res_bind_Ok in H as (? & _ & H)
  | H : (if negb ?t then _ else _) = Ok _ |- _ => destruct t; cbn [negb] in H; [|by injection H as <-]
  | H : (let '(_, _) := ?x in _) = Ok _ |- _ => destruct x
  end.
  destruct (_ && _); [|by injection H as <-]. apply res_bind_Ok in H as (? & _ & H). injection H as <-. by destruct (beq _ _).
Qed.

Lemma incoming_pdu_community data pos req r :
  incoming_pdu data pos req = Ok r -> community_honest data req -> community_honest data r.
Proof.
  unfold incoming_pdu. case_if; [by intros [= <-]|]. intros (tag & _ & H)%res_bind_Ok. revert H. case_if; [by intros [= <-]|].
  intros ([n np] & _ & H)%res_bind_Ok. revert H. case_if; [by intros [= <-]|].
  intros ([r1 p1] & H1 & H)%res_bind_Ok Hreq. apply res_bind_Ok in H as (p2 & _ & H).
  apply incoming_varbinds_community in H as [HC HP]. unfold community_honest. rewrite HC, HP.
  eapply incoming_int_community; [|exact H1|exact Hreq]. done.
Qed.

Lemma parseIncomingRequest_honest data req : parseIncomingRequest data = Ok req -> community_honest data req.
Proof.
  unfold parseIncomingRequest. intros ([start|] & _ & H)%res_bind_Ok; [|by injection H as <-].
  apply res_bind_Ok in H as ([r1 p1] & H1 & H). apply res_bind_Ok in H as ([r2 p2] & H2 & H).
  eapply incoming_pdu_community; [exact H|]. eapply incoming_community_honest; [exact H2|].
  eapply incoming_int_community; [|exact H1|done]. done.
Qed.

(** A v1/v2c write needs the configured community, on the wire.  If the
    agent admits a SET from a datagram, a write community is configured, it is
    not empty, and the datagram itself carries exactly its octets as an OCTET
    STRING; in particular the default the parser fills in for an unreadable
    community never authorises a write. *)
Theorem set_admission_sound c data req :
  parseIncomingRequest data = Ok req -> admitSetV2c c req = true ->
  WriteCommunity c <> [] /\ community_on_wire data (WriteCommunity c).
Proof.
  intros Hp. unfold admitSetV2c. case_if; [done|]. case_if; [done|]. intros Hc. unfold beq in *. zbool. split; [done|].
  rewrite <- Hc. by apply (parseIncomingRequest_honest data req).
Qed.

Lemma set_admission_sound_witness :
  let c := {| WriteCommunity := str "public"; MinSecurityLevel := securityLevelUnset |} in
  let data := requestMessage 1 (str "public") (requestPDU ASN1_SET_REQUEST 5 0 0 (bindsOf (map adminBinding [(1, 2)]))) in
  WriteCommunity c <> [] /\ community_on_wire data (WriteCommunity c).
Proof.
  intros c data. destruct (parseIncomingRequest data) as [req| |] eqn:E; [|vm_compute in E; discriminate..].
  apply (set_admission_sound c data req E). vm_compute in E. injection E as <-. reflexivity.
Defined.

Lemma land_pow2 x k : 0 <= k -> negb (Z.land x (2 ^ k) =? 0) = Z.testbit x k.
Proof.
  intros Hk. destruct (Z.testbit x k) eqn:Hb.
  - apply negb_true_iff, Z.eqb_neq. intros H. apply (f_equal (fun y => Z.testbit y k)) in H.
    by rewrite Z.land_spec, Hb, Z.pow2_bits_eqb, Z.eqb_refl, Z.bits_0 in H.
  - apply negb_false_iff, Z.eqb_eq, Z.bits_inj'. intros n Hn. rewrite Z.land_spec, Z.pow2_bits_eqb, Z.bits_0 by done.
    destruct (k =? n) eqn:E; zbool; [subst; by rewrite Hb|]. apply andb_false_r.
Qed.

(** A v3 write needs authentication unless the operator lowered the bar.
    Under the default configuration a SET is admitted exactly when the message
    is authenticated; a configured level admits exactly the messages at or above
    it, whatever the other flag bits say. *)
Theorem set_admission_v3 c flags :
  admitSetV3 c flags = true <->
  match MinSecurityLevel c with
  | securityLevelNoAuthNoPriv => True
  | securityLevelUnset | securityLevelAuthNoPriv => Z.testbit flags 0 = true
  | securityLevelAuthPriv => Z.testbit flags 0 = true /\ Z.testbit flags 1 = true
  end.
Proof.
  unfold admitSetV3, effectiveMinSecurityLevel, securityLevelOf, SNMPV3_MSG_FLAG_AUTH, SNMPV3_MSG_FLAG_PRIV.
  pose proof (land_pow2 flags 0 ltac:(lia)) as H0. pose proof (land_pow2 flags 1 ltac:(lia)) as H1.
  change (2 ^ 0) with 1 in H0. change (2 ^ 1) with 2 in H1. rewrite H0, H1.
  destruct (MinSecurityLevel c), (Z.testbit flags 0), (Z.testbit flags 1); cbn; intuition congruence.
Qed.
