(* ===== verification/Server.v ===== *)
(** * Serving v1 and v2c requests (snmp_server.go, snmp_handlers.go)

    One datagram in, at most one datagram out: the PDU classifier selects the
    handler, the handler walks or reads the device's view and builds the
    response.  [Server] gathers what a request sees: the device of the walk, its
    LLDP table for this request, the interfaces a SET acts on, the admission
    configuration and the datagram budget. *)

From S2P Require Import Prelude GoStrings Ber Oid TypedValue Request Response OidOrder Walk IfState SetReq.

Record Server := {
  device : Device;
  lldpServed : list kvOID;
  interfaces : option ifDevice;
  setAdmission : setAdmissionConfig;
  maxSNMPResponseSize : Z;
}.

Definition with_interfaces (s : Server) (d : option ifDevice) : Server :=
  {| device := device s; lldpServed := lldpServed s; interfaces := d; setAdmission := setAdmission s;
     maxSNMPResponseSize := maxSNMPResponseSize s |}.

(** ** Bounds on the work of one request *)

Definition longestShippedCounter64Run : Z := 1152.
Definition minVarbindSize : Z := 15.

Definition maxGetNextBindings (s : Server) : Z := Z.quot (maxSNMPResponseSize s) minVarbindSize.
Definition counter64SkipBudgetSteps (s : Server) : Z := maxGetNextBindings s * longestShippedCounter64Run.

(** A nil budget is [None]. *)
Record counter64SkipBudget := { remaining : Z }.
Definition newCounter64SkipBudget (s : Server) : option counter64SkipBudget :=
  Some {| remaining := counter64SkipBudgetSteps s |}.

Definition take_step (b : option counter64SkipBudget) : bool * option counter64SkipBudget :=
  match b with
  | None => (false, None)
  | Some b => if remaining b <=? 0 then (false, Some b) else (true, Some {| remaining := remaining b - 1 |})
  end.

Definition clampBulkWalk (max maxRepetitions columns : Z) : Z :=
  let columns := if columns <? 1 then 1 else columns in
  let ceiling := Z.quot (Z.quot max minVarbindSize) columns + 1 in
  if ceiling <? maxRepetitions then ceiling else maxRepetitions.

(** ** GETNEXT *)

Definition isCounter64 (oid : bytes) : bool := snmpTypeTag oid =? ASN1_COUNTER64.

(** The skip loop of a v1 GETNEXT: the pair it ends with and the budget left.
    Every pass takes a step of the budget, so its remainder is enough fuel. *)
Fixpoint skip_loop (fuel : nat) (s : Server) (p : Z) (r : bytes * bytes) (budget : option counter64SkipBudget)
    : res ((bytes * bytes) * option counter64SkipBudget) :=
  let '(responseOID, response) := r in
  if negb (beq responseOID []) && isCounter64 responseOID then
    match fuel with
    | O => Diverge
    | S fuel' =>
        let '(ok, budget) := take_step budget in
        if negb ok then Ok (([], response), budget) else
        let '(nextOID, next) := findNextOIDWithServed (device s) responseOID (lldpServed s) p in
        if negb (beq nextOID []) && (compareOIDs nextOID responseOID <=? 0) then Ok (([], next), budget)
        else skip_loop fuel' s p (nextOID, next) budget
    end
  else Ok (r, budget).

Definition budgetFuel (b : option counter64SkipBudget) : nat :=
  match b with Some b => S (Z.to_nat (remaining b)) | None => 1 end.

Definition getNextBinding (s : Server) (requested : bytes) (p version : Z) (budget : option counter64SkipBudget)
    : res ((bytes * bytes) * option counter64SkipBudget) :=
  let r := findNextOIDWithServed (device s) requested (lldpServed s) p in
  let! (r, budget) :=
    (if (version =? snmpVersion1) && negb (beq (fst r) []) && isCounter64 (fst r)
     then skip_loop (budgetFuel budget) s p r budget else Ok (r, budget)) in
  if beq (fst r) [] then Ok ((requested, valueEndOfMibView), budget) else Ok (r, budget).

Fixpoint getnext_loop (s : Server) (oids : list bytes) (p version : Z) (budget : option counter64SkipBudget)
    : res (list (bytes * bytes)) :=
  match oids with
  | [] => Ok []
  | requested :: oids' =>
      let! (r, budget) := getNextBinding s requested p version budget in
      let! rest := getnext_loop s oids' p version budget in
      Ok (r :: rest)
  end.

(** The two parallel slices of the code, one pair per name. *)
Definition getNextBindingsForRequest (s : Server) (oids : list bytes) (version : Z)
    (budget : option counter64SkipBudget) : res (list bytes * list bytes) :=
  let! binds := getnext_loop s oids (metricsPoint (device s)) version budget in
  Ok (map fst binds, map snd binds).

(** ** GETBULK *)

(** A repeater column: the name it started from, where it is, and whether it has
    run past the end. *)
Record bulkColumn := { startCol : bytes; currentOID : bytes; endOfMib : bool }.

Definition bulk_nonrepeater (s : Server) (p : Z) (oid : bytes) : bytes * bytes :=
  let '(nextOID, nextVal) := findNextOIDWithServed (device s) oid (lldpServed s) p in
  if beq nextOID [] then (oid, valueEndOfMibView) else (nextOID, nextVal).

(** One binding of a repetition: the inner loop's body. *)
Definition bulk_column_step (s : Server) (p : Z) (c : bulkColumn) : bulkColumn * (bytes * bytes) :=
  if endOfMib c then (c, (startCol c, valueEndOfMibView)) else
  let '(nextOID, nextVal) := findNextOIDWithServed (device s) (currentOID c) (lldpServed s) p in
  if beq nextOID [] || beq nextVal valueEndOfMibView then
    ({| startCol := startCol c; currentOID := currentOID c; endOfMib := true |}, (startCol c, valueEndOfMibView))
  else ({| startCol := startCol c; currentOID := nextOID; endOfMib := false |}, (nextOID, nextVal)).

Fixpoint bulk_repetitions (n : nat) (s : Server) (p : Z) (cols : list bulkColumn) : list (bytes * bytes) :=
  match n with
  | O => []
  | S n' =>
      let row := map (bulk_column_step s p) cols in
      map snd row ++ bulk_repetitions n' s p (map fst row)
  end.

Definition newColumn (oid : bytes) : bulkColumn := {| startCol := oid; currentOID := oid; endOfMib := false |}.

(** The bindings before they are encoded, for a given number of repetitions. *)
Definition bulk_bindings (s : Server) (p : Z) (allOIDs : list bytes) (nonRepeaters maxRepetitions : Z)
    : list (bytes * bytes) :=
  let cap := Z.to_nat (Z.min nonRepeaters (len allOIDs)) in
  let repeaterCols := drop cap allOIDs in
  map (bulk_nonrepeater s p) (take cap allOIDs) ++
  (if (len repeaterCols =? 0) || (maxRepetitions =? 0) then []
   else bulk_repetitions (Z.to_nat maxRepetitions) s p (map newColumn repeaterCols)).

Definition handleGetBulk (s : Server) (startOID requestData : bytes) : res (option bytes) :=
  let! (nonRepeaters, maxRepetitions) := parseGetBulkParams requestData in
  let nonRepeaters := if nonRepeaters <? 0 then 0 else nonRepeaters in
  let maxRepetitions := if maxRepetitions <? 0 then 0 else maxRepetitions in
  let! (allOIDs, ok) := parseAllOIDsFromRequest requestData in
  if negb ok then Ok None else
  let allOIDs := if len allOIDs =? 0 then [startOID] else allOIDs in
  let repeaters := len allOIDs - Z.min nonRepeaters (len allOIDs) in
  let maxRepetitions := if (repeaters =? 0) || (maxRepetitions =? 0) then maxRepetitions
                        else clampBulkWalk (maxSNMPResponseSize s) maxRepetitions repeaters in
  let binds := bulk_bindings s (metricsPoint (device s)) allOIDs nonRepeaters maxRepetitions in
  let! msg := createGetBulkResponse (maxSNMPResponseSize s) (map fst binds) (map snd binds) requestData in
  Ok (Some msg).

(** ** GET *)

Definition handleGetRequestVarbinds (s : Server) (oids : list bytes) (requestData : bytes) : res bytes :=
  let p := metricsPoint (device s) in
  createGetResponse (maxSNMPResponseSize s) oids (map (fun o => findResponseAt (device s) o p) oids) requestData.

(** ** Dispatch

    [None] is a request that is answered with silence.  [clock] gives the state
    engine's clock readings, should the request be an admitted SET. *)
Definition handleSNMPv2cRequest (clock : Z -> Z) (s : Server) (requestData : bytes)
    : res (Server * option bytes) :=
  let! req := parseIncomingRequest requestData in
  let oid := OID req in
  let! pduType := getPDUType requestData in
  if pduType =? ASN1_GET_NEXT then
    let! (oids, ok) := parseAllOIDsFromRequest requestData in
    if negb ok then Ok (s, None) else
    let oids := if len oids =? 0 then [oid] else oids in
    if maxGetNextBindings s <? len oids then
      let! msg := createTooBigResponse requestData in Ok (s, Some msg)
    else
    let! (respOIDs, respVals) := getNextBindingsForRequest s oids (Version req) (newCounter64SkipBudget s) in
    let! msg := createGetNextResponse (maxSNMPResponseSize s) oids respOIDs respVals requestData in
    Ok (s, Some msg)
  else if pduType =? ASN1_GET_BULK then
    let! r := handleGetBulk s oid requestData in Ok (s, r)
  else if pduType =? ASN1_SET_REQUEST then
    if negb (admitSetV2c (setAdmission s) req) then Ok (s, None) else
    let! (d, r) := handleSetRequest clock requestData (interfaces s) in
    Ok (with_interfaces s d, r)
  else
    let! (oids, ok) := parseAllOIDsFromRequest requestData in
    if negb ok then Ok (s, None) else
    let oids := if len oids =? 0 then [oid] else oids in
    let! msg := handleGetRequestVarbinds s oids requestData in
    Ok (s, Some msg).

(** ** The skip loop ends *)

Definition budgetLeft (b : option counter64SkipBudget) : Z := match b with Some b => Z.max 0 (remaining b) | None => 0 end.

Lemma take_step_spec b ok b' :
  take_step b = (ok, b') -> if ok then budgetLeft b' = budgetLeft b - 1 /\ 1 <= budgetLeft b else b' = b /\ budgetLeft b = 0.
Proof.
  destruct b as [b|]; cbn; [|by intros [= <- <-]]. case_if; intros [= <- <-]; cbn; [split; [done|lia]|lia].
Qed.

(** What a pass leaves: nothing, or an OID that is not a Counter64; never more
    budget than before; and a zero budget when it gave up for want of it. *)
Lemma skip_loop_wp fuel s p : forall r budget (P : (bytes * bytes) * option counter64SkipBudget -> Prop),
  budgetLeft budget < Z.of_nat fuel ->
  (forall r' b', (fst r' = [] \/ isCounter64 (fst r') = false) -> 0 <= budgetLeft b' <= budgetLeft budget -> P (r', b')) ->
  wp (skip_loop fuel s p r budget) P.
Proof.
  induction fuel as [|fuel IH]; intros [o v] budget P Hf HP.
  { exfalso. destruct budget; cbn in Hf; lia. }
  assert (H0 : 0 <= budgetLeft budget) by (destruct budget; cbn; lia).
  cbn [skip_loop]. wp_step.
  - destruct (take_step budget) as [ok b1] eqn:Et. apply take_step_spec in Et. destruct ok; cbn [negb].
    + destruct (findNextOIDWithServed _ _ _ _) as [o' v']. wp_step.
      * apply HP; [by left|lia].
      * apply IH; [lia|]. intros r' b' Hr Hb. apply HP; [done|lia].
    + simpl. destruct Et as [-> _]. apply HP; [by left|lia].
  - simpl. apply HP; [|lia]. unfold beq in *. destruct (bool_decide (o = [])) eqn:Eo; zbool; [by left|]. right. by rewrite andb_true_l in E || done.
Qed.

Lemma budgetFuel_enough b : budgetLeft b < Z.of_nat (budgetFuel b).
Proof. destruct b; cbn; lia. Qed.

(** One v1 or v2c GETNEXT binding. *)
Lemma getNextBinding_wp s requested p version budget (P : (bytes * bytes) * option counter64SkipBudget -> Prop) :
  (forall r b', 0 <= budgetLeft b' <= budgetLeft budget ->
     r = (requested, valueEndOfMibView) \/ (fst r <> [] /\ (version = snmpVersion1 -> isCounter64 (fst r) = false)) ->
     P (r, b')) ->
  wp (getNextBinding s requested p version budget) P.
Proof.
  intros HP. unfold getNextBinding. assert (H0 : 0 <= budgetLeft budget) by (destruct budget; cbn; lia).
  destruct (findNextOIDWithServed (device s) requested (lldpServed s) p) as [o v]. cbn [fst]. wp_step.
  assert (Hend : forall r b', 0 <= budgetLeft b' <= budgetLeft budget ->
            (fst r = [] \/ version <> snmpVersion1 \/ isCounter64 (fst r) = false) ->
            wp (if beq (fst r) [] then Ok ((requested, valueEndOfMibView), b') else Ok (r, b')) P).
  { intros r b' Hb Hr. unfold beq. wp_step; simpl; apply HP; try done; [by left|]. right. split; [done|].
    intros ->. destruct Hr as [?|[?|?]]; done. }
  wp_step.
  - apply skip_loop_wp; [apply budgetFuel_enough|]. intros r' b' Hr Hb. apply Hend; [done|]. tauto.
  - simpl. apply (Hend (o, v)); [lia|]. cbn [fst]. unfold beq in E.
    destruct (version =? snmpVersion1) eqn:Ev; zbool; [|auto]. destruct (bool_decide (o = [])) eqn:Eo; zbool; [by left|].
    cbn in E. auto.
Qed.

Lemma getnext_loop_wp s oids p version : forall budget (P : list (bytes * bytes) -> Prop),
  (forall binds, Forall2 (fun o r => r = (o, valueEndOfMibView) \/
       (fst r <> [] /\ (version = snmpVersion1 -> isCounter64 (fst r) = false))) oids binds -> P binds) ->
  wp (getnext_loop s oids p version budget) P.
Proof.
  induction oids as [|o oids IH]; intros budget P HP; cbn [getnext_loop]; [simpl; apply HP; constructor|].
  wp_step. apply getNextBinding_wp. intros r b' _ Hr. wp_step. apply IH. intros binds Hb. simpl. apply HP. by constructor.
Qed.

Lemma handleGetBulk_safe s oid data : bytes_ok data -> safe (handleGetBulk s oid data).
Proof.
  intros Hok. unfold handleGetBulk, safe. wp_step. apply parseGetBulkParams_wp; [done|]. intros nr mr _ _.
  wp_step. apply parseAllOIDsFromRequest_wp; [done|]. intros oids ok _. wp_step; [done|]. wp_step.
  eapply wp_mono; [by apply createVarbindResponse_safe|]. done.
Qed.

(** ** A v1 GETNEXT is a GETNEXT over the OIDs a v1 manager can read *)

Section v1.
  Context (s : Server) (static metrics lldp : list (list Z)) (owned : list Z -> Prop) (p : Z).
  Hypothesis Hwf : walk_state (device s) (lldpServed s) static metrics lldp.
  Hypothesis Hic : forall ic, ifCyclerOf (device s) = Some ic -> IfCounterLaws ic owned (fun _ => False).
  Hypothesis Hnone : ifCyclerOf (device s) = None -> forall n, ~ owned n.
  Hypothesis Hne : static <> [].

Let served := servedOIDs (device s) static metrics lldp owned p.
Let sure := servedButSys (device s) static metrics lldp owned p.

(** One step of the walk: the next served OID, past which nothing that is always
    served is skipped. *)
Lemma walk_step cur :
  canonical cur -> exists r, fst (findNextOIDWithServed (device s) (dotted cur) (lldpServed s) p) = oid_of r /\
    match r with
    | Some n => canonical n /\ served n /\ lex cur n < 0 /\ forall u, sure u -> lex cur u < 0 -> lex n u <= 0
    | None => forall u, sure u -> ~ lex cur u < 0
    end.
Proof.
  intros Hcur.
  destruct (findNext_successor (device s) (lldpServed s) static metrics lldp owned (fun _ => False) Hwf Hic Hnone p cur)
    as (r & Hf & Hc & Hs); [done|by intros []|done|]. exists r. split; [done|].
  destruct (fastPath _ _ _) as [?|]; destruct r as [n|]; cbn [is_successor] in Hs; try done.
  - destruct Hs as (Hu & Hlt & Hmin). split_and!; [by apply Hc|by apply servedButSys_served|done|done].
  - destruct Hs as (Hu & Hlt & Hmin). split_and!; [by apply Hc|done|done|].
    intros u Hu'. by apply Hmin, servedButSys_served.
  - intros u Hu. by apply Hs, servedButSys_served.
Qed.

(** What v1 can be answered with: a served OID after [cur] that is not a
    Counter64, with no such OID skipped. *)
Definition v1_next (cur n : list Z) : Prop :=
  canonical n /\ served n /\ lex cur n < 0 /\
  forall u, sure u -> lex cur u < 0 -> isCounter64 (dotted u) = false -> lex n u <= 0.
Definition v1_none (cur : list Z) : Prop :=
  forall u, sure u -> lex cur u < 0 -> isCounter64 (dotted u) = true.

Lemma skip_loop_successor cur fuel : forall n v budget,
  budgetLeft budget < Z.of_nat fuel -> v1_next cur n ->
  wp (skip_loop fuel s p (dotted n, v) budget) (fun '(r', b') =>
    (exists m, fst r' = dotted m /\ v1_next cur m /\ isCounter64 (dotted m) = false) \/
    (fst r' = [] /\ (budgetLeft b' = 0 \/ v1_none cur))).
Proof.
  induction fuel as [|fuel IH]; intros n v budget Hf Hn.
  { exfalso. destruct budget; cbn in Hf; lia. }
  pose proof Hn as (Hcn & Hsn & Hlt & Hmin).
  assert (Hd : beq (dotted n) [] = false) by (apply bool_decide_eq_false_2, dotted_nonempty).
  cbn [skip_loop]. rewrite Hd. cbn [negb andb]. destruct (isCounter64 (dotted n)) eqn:E64.
  - destruct (take_step budget) as [ok b1] eqn:Et. apply take_step_spec in Et. destruct ok; cbn [negb].
    + destruct (walk_step n Hcn) as (r & Hr & Hspec).
      destruct (findNextOIDWithServed (device s) (dotted n) (lldpServed s) p) as [o' v']. cbn [fst] in Hr. subst o'.
      destruct r as [m|]; cbn [oid_of].
      * destruct Hspec as (Hcm & Hsm & Hnm & Hminm).
        rewrite compareOIDs_dotted by done. pose proof (lex_antisym n m) as Has.
        replace (lex m n <=? 0) with false by lia. rewrite andb_false_r. apply IH; [lia|].
        split_and!; [done|done| |].
        { assert (lex cur n <= 0) by lia. pose proof (lex_trans cur n m). lia. }
        intros u Hu Hcu H64. apply Hminm; [done|]. specialize (Hmin u Hu Hcu H64).
        destruct (decide (lex n u = 0)) as [H0|H0]; [|lia]. apply lex_eq in H0. subst u. congruence.
      * cbn [negb andb]. destruct fuel as [|fuel']; [exfalso; destruct b1; cbn in *; lia|].
        cbn. right. split; [done|]. right. intros u Hu Hcu. destruct (isCounter64 (dotted u)) eqn:Hu64; [done|]. exfalso.
        specialize (Hmin u Hu Hcu Hu64). apply (Hspec u Hu).
        destruct (decide (lex n u = 0)) as [H0|H0]; [|lia]. apply lex_eq in H0. subst u. congruence.
    + simpl. right. destruct Et as [-> Hz]. auto.
  - simpl. left. by exists n.
Qed.

End v1.

(** ** Samples *)

Definition sampleServer : Server :=
  {| device := Walk.sampleDevice; lldpServed := []; interfaces := Some SetReq.sampleDevice;
     setAdmission := {| WriteCommunity := str "rw"; MinSecurityLevel := securityLevelUnset |};
     maxSNMPResponseSize := 1472 |}.

(** ** Theorems *)

(** Every datagram is served: whatever octets arrive, the agent answers or
    stays silent, without a panic and within its loops; and nothing but a
    SetRequest that carries the configured, non-empty write community changes
    any state, and then only the interfaces. *)
Theorem every_datagram_served clock s data :
  bytes_ok data ->
  exists s' r, handleSNMPv2cRequest clock s data = Ok (s', r) /\
    (s' = s \/
     (getPDUType data = Ok ASN1_SET_REQUEST /\ WriteCommunity (setAdmission s) <> [] /\
      community_on_wire data (WriteCommunity (setAdmission s)) /\ exists d, s' = with_interfaces s d)).
Proof.
  intros Hok. apply wp_Ok_pair. unfold handleSNMPv2cRequest.
  destruct (proj1 (safe_Ok _) (parseIncomingRequest_safe data Hok)) as [req Hreq]. rewrite Hreq. cbn [res_bind].
  destruct (proj1 (safe_Ok _) (getPDUType_safe data Hok)) as [tag Htag]. rewrite Htag. cbn [res_bind].
  destruct (tag =? ASN1_GET_NEXT) eqn:E1; [|destruct (tag =? ASN1_GET_BULK) eqn:E2; [|destruct (tag =? ASN1_SET_REQUEST) eqn:E3]].
  - wp_step. apply parseAllOIDsFromRequest_wp; [done|]. intros oids ok _. wp_step; [simpl; by left|].
    wp_step; wp_step.
    + unfold createTooBigResponse. rewrite Hreq. simpl. by left.
    + unfold getNextBindingsForRequest. wp_step. apply getnext_loop_wp. intros binds _. simpl.
      apply wp_bind. eapply wp_mono; [by apply createVarbindResponse_safe|]. intros msg _. simpl. by left.
  - wp_step. eapply wp_mono; [by apply handleGetBulk_safe|]. intros r _. simpl. by left.
  - zbool. subst tag. wp_step; [simpl; by left|]. wp_step. eapply wp_mono; [by apply handleSetRequest_safe|].
    intros [d r] _. simpl. right. unfold admitSetV2c in E. revert E. case_if; [done|]. case_if; [done|]. unfold beq in *. zbool.
    intros Hc. zbool. split_and!; [done|done| |by exists d]. rewrite <- Hc. by apply (parseIncomingRequest_honest data req).
  - wp_step. apply parseAllOIDsFromRequest_wp; [done|]. intros oids ok _. wp_step; [simpl; by left|].
    wp_step. eapply wp_mono; [by apply createVarbindResponse_safe|]. intros msg _. simpl. by left.
Qed.

Lemma every_datagram_served_witness :
  exists s' r, handleSNMPv2cRequest (fun _ => 9000) sampleServer [0x30; 0x0b; 2; 1; 1; 4; 2; 0x72; 0x77; 0xa3; 0x84; 0x7f] = Ok (s', r) /\
    (s' = sampleServer \/
     (getPDUType [0x30; 0x0b; 2; 1; 1; 4; 2; 0x72; 0x77; 0xa3; 0x84; 0x7f] = Ok ASN1_SET_REQUEST /\
      WriteCommunity (setAdmission sampleServer) <> [] /\
      community_on_wire [0x30; 0x0b; 2; 1; 1; 4; 2; 0x72; 0x77; 0xa3; 0x84; 0x7f] (WriteCommunity (setAdmission sampleServer)) /\
      exists d, s' = with_interfaces sampleServer d)).
Proof.
  apply (every_datagram_served (fun _ => 9000) sampleServer [0x30; 0x0b; 2; 1; 1; 4; 2; 0x72; 0x77; 0xa3; 0x84; 0x7f]).
  apply bytes_okb_ok. reflexivity.
Defined.

(** A v1 GETNEXT is the successor among the OIDs a v1 manager can decode:
    the answer is the least served OID after the requested one that is not a
    Counter64 (nothing the device always serves is skipped), and end-of-MIB is
    answered only when there is none or the request's skip budget is spent.  The
    binding is always answered: the budget bounds the search. *)
Theorem v1_getnext_successor s static metrics lldp owned p cur budget :
  walk_state (device s) (lldpServed s) static metrics lldp ->
  (forall ic, ifCyclerOf (device s) = Some ic -> IfCounterLaws ic owned (fun _ => False)) ->
  (ifCyclerOf (device s) = None -> forall n, ~ owned n) ->
  static <> [] -> canonical cur ->
  exists r b', getNextBinding s (dotted cur) p snmpVersion1 budget = Ok (r, b') /\
    ((exists n, fst r = dotted n /\ isCounter64 (dotted n) = false /\ v1_next s static metrics lldp owned p cur n) \/
     (r = (dotted cur, valueEndOfMibView) /\ (budgetLeft b' = 0 \/ v1_none s static metrics lldp owned p cur))).
Proof.
  intros Hwf Hic Hnone Hne Hcur. apply wp_Ok_pair. unfold getNextBinding.
  destruct (walk_step s static metrics lldp owned p Hwf Hic Hnone Hne cur Hcur) as (r0 & Hr0 & Hspec).
  destruct (findNextOIDWithServed (device s) (dotted cur) (lldpServed s) p) as [o v]. cbn [fst] in *. subst o.
  apply wp_bind. destruct r0 as [n|]; cbn [oid_of].
  - assert (Hd : forall m, beq (dotted m) [] = false) by (intros; apply bool_decide_eq_false_2, dotted_nonempty).
    assert (Hn : v1_next s static metrics lldp owned p cur n).
    { destruct Hspec as (?&?&?&Hmin). split_and!; try done. intros u Hu Hcu _. by apply Hmin. }
    rewrite Hd, Z.eqb_refl. cbn [negb andb]. destruct (isCounter64 (dotted n)) eqn:E64.
    + eapply wp_mono; [eapply skip_loop_successor; eauto; apply budgetFuel_enough|].
      intros [[o' v'] b'] [(m & Hm & Hv1 & H64)|[H0 Hend]]; cbn [fst] in *; subst o'.
      * rewrite Hd. simpl. left. by exists m.
      * simpl. by right.
    + cbn [wp fst]. rewrite Hd. cbn [wp]. left. by exists n.
  - cbn [negb beq]. rewrite andb_false_r. simpl. right. split; [done|]. right. intros u Hu Hcu. by destruct (Hspec u Hu).
Qed.

Lemma v1_getnext_successor_witness :
  exists static r b', getNextBinding sampleServer (dotted [1; 3]) 0 snmpVersion1 (newCounter64SkipBudget sampleServer) = Ok (r, b') /\
    ((exists n, fst r = dotted n /\ isCounter64 (dotted n) = false /\
       v1_next sampleServer static [] [] (fun _ => False) 0 [1; 3] n) \/
     (r = (dotted [1; 3], valueEndOfMibView) /\
      (budgetLeft b' = 0 \/ v1_none sampleServer static [] [] (fun _ => False) 0 [1; 3]))).
Proof.
  destruct sampleDevice_state as (static & Hne & Hws & Hin). exists static.
  apply (v1_getnext_successor sampleServer static [] [] (fun _ => False) 0 [1; 3] (newCounter64SkipBudget sampleServer));
    [exact Hws|discriminate|auto|exact Hne|by apply canonical_dec].
Defined.

(** ** GETBULK columns *)

(** A column on its own: the successors of its start, one per repetition, and
    end-of-MIB under the start's name once they run out. *)
Fixpoint column_walk (n : nat) (s : Server) (p : Z) (start cur : bytes) : list (bytes * bytes) :=
  match n with
  | O => []
  | S n' =>
      let '(nextOID, nextVal) := findNextOIDWithServed (device s) cur (lldpServed s) p in
      if beq nextOID [] || beq nextVal valueEndOfMibView then repeat (start, valueEndOfMibView) n
      else (nextOID, nextVal) :: column_walk n' s p start nextOID
  end.

Definition columnFrom (n : nat) (s : Server) (p : Z) (c : bulkColumn) : list (bytes * bytes) :=
  if endOfMib c then repeat (startCol c, valueEndOfMibView) n else column_walk n s p (startCol c) (currentOID c).

Lemma columnFrom_step n s p c :
  columnFrom (S n) s p c = snd (bulk_column_step s p c) :: columnFrom n s p (fst (bulk_column_step s p c)).
Proof.
  unfold columnFrom, bulk_column_step. destruct (endOfMib c) eqn:E; [cbn; by rewrite E|]. cbn [column_walk].
  destruct (findNextOIDWithServed _ _ _ _) as [o v]. by destruct (beq o [] || beq v valueEndOfMibView).
Qed.

Lemma bulk_repetitions_columns n s p : forall cols,
  bulk_repetitions n s p cols =
    concat (map (fun r => map (fun c => nth r (columnFrom n s p c) ([], [])) cols) (seq 0 n)).
Proof.
  induction n as [|n IH]; intros cols; [done|]. cbn [bulk_repetitions seq map concat]. f_equal.
  - rewrite map_map. apply List.map_ext. intros c. by rewrite columnFrom_step.
  - rewrite IH, <- seq_shift, (map_map S). f_equal. apply List.map_ext. intros r. rewrite !map_map.
    apply List.map_ext. intros c. by rewrite columnFrom_step.
Qed.

Lemma length_bulk_repetitions n s p cols : length (bulk_repetitions n s p cols) = (n * length cols)%nat.
Proof.
  revert cols. induction n as [|n IH]; intros cols; [done|]. cbn [bulk_repetitions].
  rewrite length_app, IH, !List.length_map. lia.
Qed.

(** Fewer repetitions give a prefix. *)
Lemma bulk_repetitions_prefix n m s p cols :
  exists rest, bulk_repetitions (n + m) s p cols = bulk_repetitions n s p cols ++ rest.
Proof.
  revert cols. induction n as [|n IH]; intros cols; [by eexists|]. cbn [bulk_repetitions Nat.add].
  destruct (IH (map fst (map (bulk_column_step s p) cols))) as [rest ->]. exists rest. by rewrite app_assoc.
Qed.

(** ** The walk clamp *)

Lemma fit_loop_stopped M mp pp rule l1 l2 : forall acc,
  snd (fit_loop M mp pp rule l1 acc) = true -> fit_loop M mp pp rule (l1 ++ l2) acc = fit_loop M mp pp rule l1 acc.
Proof.
  induction l1 as [|[o r] l1 IH]; intros acc; [done|]. cbn [fit_loop app]. case_if; [done|]. apply IH.
Qed.

Lemma snmpMessageSizeFor_ge mp pp n : 0 <= mp -> 0 <= pp -> n <= snmpMessageSizeFor mp pp n.
Proof.
  intros Hm Hp. unfold snmpMessageSizeFor. cbv zeta.
  repeat match goal with |- context [lenBytesFor ?x] =>
    let k := fresh "k" in pose proof (lenBytesFor_pos x); generalize dependent (lenBytesFor x); intros k ? end.
  lia.
Qed.

Lemma fit_loop_overflows M mp pp rule l :
  0 <= mp -> 0 <= pp -> 0 <= M -> M < len (encodeBinds l) -> snd (fit_loop M mp pp rule l []) = true.
Proof.
  intros Hm Hp HM Hl. destruct (fit_loop_spec M mp pp rule l []) as [[_ Hle]|(fit & o & r & rest & _ & _ & _ & ->)]; [done| |done].
  cbn [app] in Hle. assert (encodeBinds l <> []) by (intros E; rewrite E, len_nil in Hl; lia).
  pose proof (snmpMessageSizeFor_ge mp pp (len (encodeBinds l)) Hm Hp). specialize (Hle ltac:(done)). lia.
Qed.

Lemma encodeBinds_floor k l :
  Forall (fun '(o, r) => k <= len (varBindingOf o r)) l -> k * len l <= len (encodeBinds l).
Proof.
  induction 1 as [|[o r] l Hb _ IH]; [change (encodeBinds []) with (@nil Z); rewrite !len_nil; lia|].
  rewrite encodeBinds_cons, len_app, len_cons. lia.
Qed.

(** Cutting a list of bindings where it already overflows changes nothing. *)
Lemma createGetBulkResponse_prefix M l1 l2 data :
  0 <= M -> M < len (encodeBinds l1) ->
  createGetBulkResponse M (map fst (l1 ++ l2)) (map snd (l1 ++ l2)) data =
  createGetBulkResponse M (map fst l1) (map snd l1) data.
Proof.
  intros HM Hl. unfold createGetBulkResponse, createVarbindResponse. rewrite !len_map, !Z.eqb_refl. cbn [negb].
  destruct (parseIncomingRequest data) as [req| |]; [|done..]. cbn [res_bind].
  rewrite resolveDefaults_set by done. unfold v1_divert. cbn [v1Diversion overflow].
  rewrite (bool_decide_true (v1DivertNothing = _)) by done. rewrite andb_false_r.
  assert (Hz : forall l : list (bytes * bytes), zip (map fst l) (map snd l) = l).
  { induction l as [|[? ?] l IH]; [done|]. cbn. by rewrite IH. }
  rewrite !Hz. destruct (prefixes_nonneg req 0 0) as [Hm Hp]. rewrite fit_loop_stopped; [done|]. by apply fit_loop_overflows.
Qed.

(** Without the clamp: every repetition the manager asked for is walked. *)
Definition handleGetBulkUnclamped (s : Server) (startOID requestData : bytes) : res (option bytes) :=
  let! (nonRepeaters, maxRepetitions) := parseGetBulkParams requestData in
  let! (allOIDs, ok) := parseAllOIDsFromRequest requestData in
  if negb ok then Ok None else
  let allOIDs := if len allOIDs =? 0 then [startOID] else allOIDs in
  let binds := bulk_bindings s (metricsPoint (device s)) allOIDs nonRepeaters maxRepetitions in
  let! msg := createGetBulkResponse (maxSNMPResponseSize s) (map fst binds) (map snd binds) requestData in
  Ok (Some msg).

Lemma clamp_overflows M C : 0 <= M -> 1 <= C -> M < minVarbindSize * (C * (Z.quot (Z.quot M minVarbindSize) C + 1)).
Proof.
  unfold minVarbindSize. intros HM HC. rewrite (Z.quot_div_nonneg M 15) by lia.
  assert (0 <= M / 15) by (apply Z.div_pos; lia). rewrite (Z.quot_div_nonneg (M / 15) C) by lia.
  pose proof (Z.mul_succ_div_gt M 15 ltac:(lia)). pose proof (Z.mul_succ_div_gt (M / 15) C ltac:(lia)). nia.
Qed.

(** The bindings under the clamp, when every binding is as large as assumed. *)
Lemma bulk_bindings_clamped s p allOIDs nr mr data :
  0 <= maxSNMPResponseSize s -> 0 <= nr -> 0 <= mr ->
  let repeaters := len allOIDs - Z.min nr (len allOIDs) in
  let clamped := if (repeaters =? 0) || (mr =? 0) then mr else clampBulkWalk (maxSNMPResponseSize s) mr repeaters in
  Forall (fun '(o, r) => minVarbindSize <= len (varBindingOf o r)) (bulk_bindings s p allOIDs nr mr) ->
  createGetBulkResponse (maxSNMPResponseSize s) (map fst (bulk_bindings s p allOIDs nr clamped))
      (map snd (bulk_bindings s p allOIDs nr clamped)) data =
  createGetBulkResponse (maxSNMPResponseSize s) (map fst (bulk_bindings s p allOIDs nr mr))
      (map snd (bulk_bindings s p allOIDs nr mr)) data.
Proof.
  intros HM Hnr Hmr repeaters clamped Hfloor. pose proof (len_nonneg allOIDs) as Hl0.
  destruct ((repeaters =? 0) || (mr =? 0)) eqn:E0; [done|]. unfold clamped, clampBulkWalk.
  assert (HC : 1 <= repeaters) by lia. replace (repeaters <? 1) with false by lia. cbv zeta.
  set (ceiling := Z.quot (Z.quot (maxSNMPResponseSize s) minVarbindSize) repeaters + 1).
  destruct (ceiling <? mr) eqn:E; [|done]. zbool. symmetry.
  assert (H1 : 1 <= ceiling).
  { unfold ceiling. pose proof (Z.quot_pos (Z.quot (maxSNMPResponseSize s) minVarbindSize) repeaters).
    pose proof (Z.quot_pos (maxSNMPResponseSize s) minVarbindSize). unfold minVarbindSize in *. lia. }
  set (cap := Z.to_nat (Z.min nr (len allOIDs))). set (cols := map newColumn (drop cap allOIDs)).
  assert (Hcols : len (drop cap allOIDs) = repeaters) by (unfold cap; rewrite len_drop; unfold repeaters; lia).
  destruct (bulk_repetitions_prefix (Z.to_nat ceiling) (Z.to_nat (mr - ceiling)) s p cols) as [rest Hrest].
  replace (Z.to_nat ceiling + Z.to_nat (mr - ceiling))%nat with (Z.to_nat mr) in Hrest by lia.
  assert (Hsplit : bulk_bindings s p allOIDs nr mr = bulk_bindings s p allOIDs nr ceiling ++ rest).
  { unfold bulk_bindings. fold cap. rewrite Hcols. replace ((repeaters =? 0) || (mr =? 0)) with false by lia.
    replace ((repeaters =? 0) || (ceiling =? 0)) with false by lia. fold cols. by rewrite Hrest, app_assoc. }
  rewrite Hsplit. apply createGetBulkResponse_prefix; [done|]. rewrite Hsplit in Hfloor. apply Forall_app in Hfloor as [Hfl _].
  apply encodeBinds_floor in Hfl. eapply Z.lt_le_trans; [|exact Hfl].
  assert (Hlen : repeaters * ceiling <= len (bulk_bindings s p allOIDs nr ceiling)).
  { unfold bulk_bindings. fold cap. rewrite Hcols. replace ((repeaters =? 0) || (ceiling =? 0)) with false by lia. fold cols.
    rewrite len_app. rewrite (len_def (bulk_repetitions _ _ _ _)), length_bulk_repetitions. unfold cols. rewrite List.length_map.
    rewrite len_def in Hcols. pose proof (len_nonneg (map (bulk_nonrepeater s p) (take cap allOIDs))). nia. }
  pose proof (clamp_overflows (maxSNMPResponseSize s) repeaters HM HC) as Hov. fold ceiling in Hov. unfold minVarbindSize in *. lia.
Qed.

(** C38: the bound on the work of a GETBULK cannot be seen in its response: as long
    as no binding is smaller than [minVarbindSize], the handler that clamps the
    repetitions it walks answers exactly what a handler that walked every
    repetition the manager asked for would answer. *)
Theorem bulk_clamp_invisible s startOID data nr mr oids :
  0 <= maxSNMPResponseSize s ->
  parseGetBulkParams data = Ok (nr, mr) -> 0 <= nr -> 0 <= mr ->
  parseAllOIDsFromRequest data = Ok (oids, true) ->
  Forall (fun '(o, r) => minVarbindSize <= len (varBindingOf o r))
    (bulk_bindings s (metricsPoint (device s)) (if len oids =? 0 then [startOID] else oids) nr mr) ->
  handleGetBulk s startOID data = handleGetBulkUnclamped s startOID data.
Proof.
  intros HM Hp Hnr Hmr Ho Hfl. unfold handleGetBulk, handleGetBulkUnclamped. rewrite Hp, Ho. cbn [res_bind negb].
  replace (nr <? 0) with false by lia. replace (mr <? 0) with false by lia.
  by rewrite bulk_bindings_clamped.
Qed.

Definition bulkRequest (arcs : list Z) (mr : Z) : bytes :=
  requestMessage 1 (str "public") (requestPDU ASN1_GET_BULK 7 0 mr (bindsOf [(arcs, ASN1_NULL, [])])).

Lemma bulk_clamp_invisible_witness :
  handleGetBulk sampleServer [] (bulkRequest [1; 3; 6; 1; 2; 1; 1; 3; 0; 1] 150) =
  handleGetBulkUnclamped sampleServer [] (bulkRequest [1; 3; 6; 1; 2; 1; 1; 3; 0; 1] 150).
Proof.
  apply (bulk_clamp_invisible sampleServer [] (bulkRequest [1; 3; 6; 1; 2; 1; 1; 3; 0; 1] 150) 0 150
           [str ".1.3.6.1.2.1.1.3.0.1"]); [vm_compute; discriminate|reflexivity|lia|lia|reflexivity|].
  match goal with |- Forall _ ?l =>
    assert (Hb : forallb (fun '(o, r) => minVarbindSize <=? len (varBindingOf o r)) l = true) by (vm_compute; reflexivity) end.
  rewrite forallb_forall in Hb. apply List.Forall_forall. intros [o r] Hin. apply Z.leb_le. exact (Hb (o, r) Hin).
Defined.

(** The columns of a GETBULK.  The bindings are the successors of the
    non-repeaters, one each, followed by one row per repetition; each row takes
    one binding from each repeater column in request order, and a column on its
    own is the sequence of successors of its start, ending in end-of-MIB under
    the start's name: columns do not disturb one another. *)
Theorem getbulk_columns s p names nr mr :
  0 <= nr -> 0 < mr ->
  let cap := Z.to_nat (Z.min nr (len names)) in
  bulk_bindings s p names nr mr =
    map (bulk_nonrepeater s p) (take cap names) ++
    concat (map (fun r => map (fun o => nth r (column_walk (Z.to_nat mr) s p o o) ([], [])) (drop cap names))
                (seq 0 (Z.to_nat mr))).
Proof.
  intros Hnr Hmr cap. unfold bulk_bindings. fold cap. f_equal. replace (mr =? 0) with false by lia. rewrite orb_false_r.
  rewrite bulk_repetitions_columns. destruct (len (drop cap names) =? 0) eqn:E; zbool.
  - apply len_0_nil in E. rewrite E. cbn [map]. induction (seq 0 (Z.to_nat mr)) as [|x l IH]; [done|]. exact IH.
  - f_equal. apply List.map_ext. intros r. rewrite map_map. done.
Qed.

Lemma getbulk_columns_witness :
  bulk_bindings sampleServer 0 [str ".1.3"; str ".1.3.6.1.2.1.1.4.0"; str ".1.4"] 1 2 =
    [(str ".1.3.6.1.2.1.1.1.0", str "IOS-XR");
     (str ".1.3.6.1.2.1.1.7.0", str "72"); (str ".1.4", valueEndOfMibView);
     (str ".1.3.6.1.2.1.1.4.0", valueEndOfMibView); (str ".1.4", valueEndOfMibView)].
Proof.
  pose proof (getbulk_columns sampleServer 0 [str ".1.3"; str ".1.3.6.1.2.1.1.4.0"; str ".1.4"] 1 2 ltac:(lia) ltac:(lia)) as H.
  etransitivity; [exact H|]. vm_compute. reflexivity.
Defined.

(** ** A binding can be smaller than [minVarbindSize] *)

(** A v2c GETNEXT of [n] copies of a two-arc name after the end of the MIB. *)
Definition shortRequest (n : nat) : bytes :=
  requestMessage 1 (str "public") (requestPDU ASN1_GET_NEXT 7 0 0 (bindsOf (repeat ([2; 5], ASN1_NULL, []) n))).

(** The tooBig short circuit is not the answer the walk would give.  99
    copies of a short name past the end of the MIB are answered tooBig without
    walking, while the response the walk builds for them, one seven-octet
    end-of-MIB binding each, is less than half the budget. *)
Theorem getnext_shortcircuit_differs :
  exists full,
    handleSNMPv2cRequest (fun _ => 0) sampleServer (shortRequest 99) =
      (let! m := createTooBigResponse (shortRequest 99) in Ok (sampleServer, Some m)) /\
    (let! (os, vs) := getNextBindingsForRequest sampleServer (repeat (str ".2.5") 99) 1 (newCounter64SkipBudget sampleServer) in
     createGetNextResponse (maxSNMPResponseSize sampleServer) (repeat (str ".2.5") 99) os vs (shortRequest 99)) = Ok full /\
    len full = 725 /\ full <> [] /\ createTooBigResponse (shortRequest 99) <> Ok full.
Proof.
  eexists. split; [vm_compute; reflexivity|]. split; [vm_compute; reflexivity|]. split; [vm_compute; reflexivity|].
  split; vm_compute; discriminate.
Qed.
