(* ===== verification/Octets.v ===== *)
(** * What goes on the wire is octets (snmp_encoding.go, snmp_response.go)

    The encoders work on Go byte slices, modelled as lists of [Z].  This file shows
    that whatever they are given they put octets on the wire: every tag, every
    length and every content octet is in range, for every name and every integer,
    and for every value that is itself made of octets. *)

From stdpp Require Import gmap.
From S2P Require Import Prelude GoStrings Ber Oid TypedValue Request Response OidOrder Walk IfState SetReq Server.

Create HintDb octets.

Lemma octet_u8 x : is_byte (u8 x).
Proof. unfold is_byte, u8. pose proof (Z.mod_pos_bound x (2 ^ 8)). lia. Qed.
Lemma octets_cons b l : is_byte b -> bytes_ok l -> bytes_ok (b :: l).
Proof. by constructor. Qed.
Lemma octets_app a b : bytes_ok a -> bytes_ok b -> bytes_ok (a ++ b).
Proof. intros. by apply Forall_app. Qed.
Lemma octets_nil : bytes_ok [].
Proof. constructor. Qed.
Lemma octets_const b : (0 <=? b) && (b <? 256) = true -> is_byte b.
Proof. unfold is_byte. lia. Qed.
Lemma octets_concat {A} (f : A -> bytes) l : (forall x, bytes_ok (f x)) -> bytes_ok (concat (map f l)).
Proof. intros Hf. induction l as [|x l IH]; cbn; [constructor|]. by apply octets_app. Qed.
Lemma octets_drop n l : bytes_ok l -> bytes_ok (drop n l).
Proof. apply Forall_drop. Qed.
Lemma octets_take n l : bytes_ok l -> bytes_ok (take n l).
Proof. apply Forall_take. Qed.
#[export] Hint Resolve octet_u8 octets_cons octets_app octets_nil octets_concat octets_drop octets_take : octets.
#[export] Hint Extern 1 (is_byte _) => (apply octets_const; reflexivity) : octets.

Ltac octets := eauto 20 with octets.

(** ** Lengths, integers and strings *)

Lemma be_loop_octets fuel : forall temp acc, bytes_ok acc -> bytes_ok (be_loop fuel temp acc).
Proof. induction fuel as [|fuel IH]; intros temp acc Ha; cbn [be_loop]; [done|]. case_if; [|done]. apply IH. octets. Qed.

Lemma encodeLength_octets n : bytes_ok (encodeLength n).
Proof. unfold encodeLength. case_if; [octets|]. apply octets_cons; [octets|]. apply be_loop_octets. octets. Qed.
#[export] Hint Resolve encodeLength_octets : octets.

Lemma tlv_octets t c : is_byte t -> bytes_ok c -> bytes_ok (tlv t c).
Proof. intros. unfold tlv. octets. Qed.
#[export] Hint Resolve tlv_octets : octets.

Lemma integerBody_octets v : bytes_ok (integerBody v).
Proof.
  unfold integerBody. case_if; [octets|]. case_if.
  - pose proof (be_loop_octets 8 v [] octets_nil). destruct (be_loop 8 v []); [done|]. case_if; octets.
  - repeat case_if; repeat case_match; octets.
Qed.
#[export] Hint Resolve integerBody_octets : octets.

Lemma encodeInteger_octets v : bytes_ok (encodeInteger v).
Proof. rewrite encodeInteger_tlv. octets. Qed.
Lemma encodeOctetString_octets v : bytes_ok v -> bytes_ok (encodeOctetString v).
Proof. intros. rewrite encodeOctetString_tlv. octets. Qed.
Lemma encodeSequence_octets v : bytes_ok v -> bytes_ok (encodeSequence v).
Proof. intros. rewrite encodeSequence_tlv. octets. Qed.
#[export] Hint Resolve encodeInteger_octets encodeOctetString_octets encodeSequence_octets : octets.

Lemma strip_zeros_octets k : forall b, bytes_ok b -> bytes_ok (strip_zeros k b).
Proof.
  induction k as [|k IH]; intros b Hb; [done|]. destruct b as [|x b]; [done|]. cbn [strip_zeros]. case_if; [|done].
  apply IH. by apply Forall_cons_1 in Hb as [_ ?].
Qed.
Lemma fill_be_octets n : forall v acc, bytes_ok acc -> bytes_ok (fill_be n v acc).
Proof. induction n as [|n IH]; intros v acc Ha; [done|]. cbn [fill_be]. apply IH. octets. Qed.
#[export] Hint Resolve strip_zeros_octets fill_be_octets : octets.

Lemma encodeUnsigned32_octets t v : is_byte t -> bytes_ok (encodeUnsigned32 t v).
Proof. intros. unfold encodeUnsigned32. apply octets_cons; [done|]. octets. Qed.
Lemma encodeCounter64_octets v : bytes_ok (encodeCounter64 v).
Proof. unfold encodeCounter64. apply octets_cons; octets. Qed.
#[export] Hint Resolve encodeUnsigned32_octets encodeCounter64_octets : octets.

(** ** Object identifiers *)

Lemma chunk_loop_septets fuel : forall v acc, Forall (fun c => 0 <= c < 128) acc -> Forall (fun c => 0 <= c < 128) (chunk_loop fuel v acc).
Proof.
  induction fuel as [|fuel IH]; intros v acc Ha; cbn [chunk_loop]; [done|]. case_if; [|done]. apply IH. apply Forall_app. split; [done|].
  constructor; [|constructor]. rewrite u8_land7. pose proof (Z.mod_pos_bound v 128). lia.
Qed.

Lemma lor_continuation c : 0 <= c < 128 -> is_byte (Z.lor c 0x80).
Proof.
  intros Hc. unfold is_byte. split; [apply Z.lor_nonneg; lia|].
  destruct (decide (Z.lor c 128 = 0)) as [->|Hne]; [lia|]. apply (Z.log2_lt_pow2 _ 8); [pose proof (Z.lor_nonneg c 128); lia|].
  rewrite Z.log2_lor by lia. apply Z.max_lub_lt; [|reflexivity]. destruct (decide (c = 0)) as [->|]; [reflexivity|].
  apply Z.log2_lt_pow2; lia.
Qed.

Lemma encodeOIDComponent_octets v : bytes_ok (encodeOIDComponent v).
Proof.
  unfold encodeOIDComponent. case_if; [octets|]. pose proof (chunk_loop_septets 10 v [] ltac:(constructor)) as Hs.
  destruct (chunk_loop 10 v []) as [|c cs]; [octets|]. apply Forall_cons_1 in Hs as [Hc Hs]. apply octets_app.
  - apply List.Forall_forall. intros x Hx. apply in_map_iff in Hx as (y & <- & Hy). apply in_rev in Hy.
    apply lor_continuation. revert y Hy. by apply List.Forall_forall.
  - apply octets_cons; [unfold is_byte; lia|octets].
Qed.

Lemma encode_components_octets ps : forall t, encode_components ps = Some t -> bytes_ok t.
Proof.
  induction ps as [|p ps IH]; intros t; cbn [encode_components]; [intros [= <-]; octets|].
  destruct (Atoi p) as [v ok]. case_if; [done|]. destruct (encode_components ps) as [t'|]; [|done]. intros [= <-].
  apply octets_app; [apply encodeOIDComponent_octets|by apply IH].
Qed.

Lemma encodeOID_octets o : bytes_ok (encodeOID o).
Proof.
  assert (Hd : bytes_ok degenerateOID) by (unfold degenerateOID; octets). unfold encodeOID.
  destruct (Split dot (TrimPrefix o (str "."))) as [|p0 [|p1 rest]]; [done|done|].
  destruct (Atoi p0) as [a oka]. destruct (Atoi p1) as [b okb]. case_if; [done|].
  destruct (encode_components rest) as [t|] eqn:Et; [|done]. case_if; [done|].
  apply octets_cons; [octets|]. apply octets_app; [octets|]. apply octets_app; [apply encodeOIDComponent_octets|by eapply encode_components_octets].
Qed.
#[export] Hint Resolve encodeOID_octets : octets.

(** ** Typed values *)

Lemma ipv4_fields_octets s : forall pd v dl f r, ipv4_fields s pd v dl f = Some r -> bytes_ok f -> bytes_ok r.
Proof.
  induction s as [|c s IH]; intros pd v dl f r; cbn [ipv4_fields].
  - case_if; [done|]. intros [= <-] Hf. octets.
  - repeat (case_if; [done|]). case_if; [|repeat (case_if; [done|])].
    + repeat (case_if; [done|]). apply IH.
    + case_if; [|done]. repeat (case_if; [done|]). intros Hr Hf. eapply IH; [exact Hr|]. octets.
Qed.

Lemma parseIPv4_octets s r : parseIPv4 s = Some r -> bytes_ok r.
Proof. intros Hr. eapply ipv4_fields_octets; [exact Hr|]. octets. Qed.

Lemma ipv6_finish_octets ip e s r : ipv6_finish ip e s = Some r -> bytes_ok ip -> bytes_ok r.
Proof.
  unfold ipv6_finish. case_if; [done|]. destruct e; case_if; try done; intros [= <-] Hi; [|done].
  apply octets_app; [octets|]. apply octets_app; [|octets]. apply List.Forall_forall. intros x Hx. apply repeat_spec in Hx. subst. octets.
Qed.

Lemma ipv6_loop_octets fuel : forall s ip e r, ipv6_loop fuel s ip e = Some r -> bytes_ok ip -> bytes_ok r.
Proof.
  induction fuel as [|fuel IH]; intros s ip e r; cbn [ipv6_loop]; [apply ipv6_finish_octets|]. intros Hr Hi.
  assert (Hx : forall a b, bytes_ok (ip ++ [u8 a; u8 b])) by (intros; octets).
  repeat case_match; simplify_eq;
    first [ by eapply IH; eauto | by eapply ipv6_finish_octets; eauto
          | eapply ipv6_finish_octets; [eassumption|]; apply octets_app; [done|by eapply parseIPv4_octets] ].
Qed.

Lemma ParseIP_To4_octets s r : ParseIP_To4 s = Some r -> bytes_ok r.
Proof.
  assert (H6 : forall r, parseIPv6 s = Some r -> bytes_ok r).
  { intros x. unfold parseIPv6. case_if; [done|]. intros Hx.
    repeat case_match; first [by eapply ipv6_loop_octets; [eassumption|octets] | idtac].
    simplify_eq. octets. }
  unfold ParseIP_To4. intros Hr. repeat case_match; simplify_eq; first [by eapply parseIPv4_octets|apply octets_drop; by apply H6].
Qed.

Lemma encodeTypedValue_octets o v : bytes_ok v -> bytes_ok (encodeTypedValue o v).
Proof.
  intros Hv. unfold encodeTypedValue. case_if; [octets|]. case_if; [octets|]. unfold encodeTypedValueAtTag, encodeIPAddress.
  set (t := snmpTypeTag o). clearbody t.
  assert (Hip : forall r, ParseIP_To4 v = Some r -> bytes_ok ([ASN1_IPADDRESS; 4] ++ r)).
  { intros r Hr. apply ParseIP_To4_octets in Hr. octets. }
  assert (Hu : forall u, (t =? ASN1_COUNTER32) || (t =? ASN1_GAUGE32) || (t =? ASN1_TIMETICKS) = true -> bytes_ok (encodeUnsigned32 t u)).
  { intros u Ht. apply encodeUnsigned32_octets. unfold ASN1_COUNTER32, ASN1_GAUGE32, ASN1_TIMETICKS in Ht. unfold is_byte. lia. }
  repeat case_match; simplify_eq; octets.
Qed.
#[export] Hint Resolve encodeTypedValue_octets : octets.

(** ** Responses *)

Lemma varBindingOf_octets o v : bytes_ok v -> bytes_ok (varBindingOf o v).
Proof. intros. unfold varBindingOf. octets. Qed.
Lemma encodeGetResponseAt_octets req vbl st ix : bytes_ok (Community req) -> bytes_ok vbl -> bytes_ok (encodeGetResponseAt req vbl st ix).
Proof.
  intros Hc Hv. rewrite encodeGetResponseAt_message. unfold requestMessage, requestPDU.
  apply encodeSequence_octets. apply octets_app; [octets|]. apply octets_app; [octets|]. apply tlv_octets; octets.
Qed.
#[export] Hint Resolve varBindingOf_octets encodeGetResponseAt_octets : octets.

Lemma echoNull_octets l : bytes_ok (echoNull l).
Proof. unfold echoNull. apply octets_concat. intros o. unfold encodeVarBind, encodeNull. octets. Qed.
#[export] Hint Resolve echoNull_octets : octets.

Definition octets_of (r : option bytes) : Prop := match r with Some m => bytes_ok m | None => True end.

Lemma incoming_int_keeps set data pos req (P : SNMPRequest * Z -> Prop) :
  bytes_ok data -> 0 <= pos -> (forall v, Community (set v req) = Community req) ->
  (forall r p, 0 <= p -> Community r = Community req -> P (r, p)) -> wp (incoming_int set data pos req) P.
Proof. intros Hok Hp Hs HP. unfold incoming_int. repeat wp_ber; simpl; apply HP; repeat case_if; first [lia|done]. Qed.


Lemma incoming_pdu_keeps data pos req :
  bytes_ok data -> 0 <= pos -> wp (incoming_pdu data pos req) (fun r => Community r = Community req).
Proof.
  intros Hok Hp. unfold incoming_pdu. repeat wp_ber; try done.
  apply incoming_int_keeps; [done|lia|done|]. intros r p0 Hp0 Hr. wp_step.
  apply incoming_skip_wp; [done|lia|]. intros p1 Hp1.
  destruct (proj1 (safe_Ok _) (incoming_varbinds_safe data p1 r Hok Hp1)) as [r' Hr']. rewrite Hr'.
  apply incoming_varbinds_community in Hr' as [Hc _]. simpl. congruence.
Qed.

Lemma parseIncomingRequest_octets data : bytes_ok data -> wp (parseIncomingRequest data) (fun req => bytes_ok (Community req)).
Proof.
  intros Hok. assert (Hd : bytes_ok (Community defaultRequest)) by (apply bytes_okb_ok; reflexivity).
  unfold parseIncomingRequest. wp_step. apply incoming_start_wp; [done..|].
  intros p Hp. wp_step. apply incoming_int_keeps; [done..|]. intros r p' Hp' Hr. wp_step. unfold incoming_community.
  rewrite <- Hr in Hd. clear Hr.
  repeat first [ match goal with |- wp (slice _ _ _) _ => apply wp_slice_ok; [done|lia|lia|intros ? ? ? ?] end | wp_ber ];
    (eapply wp_mono; [apply incoming_pdu_keeps; [done|lia]|]); intros r' ->; done.
Qed.

Lemma createSNMPResponse_octets o v data : bytes_ok data -> bytes_ok v -> wp (createSNMPResponse o v data) bytes_ok.
Proof.
  intros Hok Hv. unfold createSNMPResponse. wp_step. eapply wp_mono; [by apply parseIncomingRequest_octets|]. intros req Hr.
  wp_step; cbn [wp]; [unfold encodeVarBind, encodeNull; octets|].
  apply encodeSequence_octets. apply octets_app; [octets|]. apply octets_app; [octets|]. apply octets_cons; [octets|].
  apply octets_app; [octets|]. repeat (apply octets_app; [octets|]). octets.
Qed.

Lemma fit_loop_octets M mp pp rule binds : forall acc,
  Forall (fun b => bytes_ok (snd b)) binds -> bytes_ok acc -> bytes_ok (fst (fit_loop M mp pp rule binds acc)).
Proof.
  induction binds as [|[o v] binds IH]; intros acc Hb Ha; cbn [fit_loop]; [done|]. apply Forall_cons_1 in Hb as [Hv Hb].
  cbn [snd] in Hv. case_if; [|apply IH; octets]. cbn [fst]. case_if; octets.
Qed.

Lemma Forall_zip_snd (os vs : list bytes) : Forall bytes_ok vs -> Forall (fun b => bytes_ok (snd b)) (zip os vs).
Proof.
  intros Hv. revert os. induction Hv as [|v vs Hv _ IH]; intros [|o os]; try constructor; [done|apply IH].
Qed.

Lemma createVarbindResponse_octets M os vs data rules :
  bytes_ok data -> Forall bytes_ok vs -> wp (createVarbindResponse M os vs data rules) bytes_ok.
Proof.
  intros Hok Hv. unfold createVarbindResponse. wp_step; [apply createSNMPResponse_octets; [done|]; apply bytes_okb_ok; reflexivity|].
  wp_step. eapply wp_mono; [by apply parseIncomingRequest_octets|]. intros req Hr.
  destruct (resolveDefaults rules) as [rs ?]. unfold v1_divert.
  pose proof (fit_loop_octets M (msgPrefixOf req) (pduPrefixOf req) (overflow rs) (zip os vs) [] (Forall_zip_snd os vs Hv) octets_nil) as Hf.
  destruct (fit_loop _ _ _ _ _ _) as [vbl tr]. cbn [fst] in Hf. unfold encodeGetResponse.
  repeat case_match; simplify_eq; simpl; octets.
Qed.

(** ** The whole v1/v2c agent *)

(** Every value the device can answer with is made of octets. *)
Definition serves_octets (s : Server) : Prop :=
  (forall o p, bytes_ok (findResponseAt (device s) o p)) /\
  (forall o p, bytes_ok (snd (findNextOIDWithServed (device s) o (lldpServed s) p))).

Lemma endOfMib_octets : bytes_ok valueEndOfMibView.
Proof. apply bytes_okb_ok. reflexivity. Qed.
#[export] Hint Resolve endOfMib_octets : octets.

Section agent.
  Context (s : Server).
  Hypothesis Hs : serves_octets s.

Lemma skip_loop_octets fuel p : forall r b, budgetLeft b < Z.of_nat fuel -> bytes_ok (snd r) ->
  wp (skip_loop fuel s p r b) (fun x => bytes_ok (snd (fst x))).
Proof.
  induction fuel as [|fuel IH]; intros [o v] b Hf Hr; [exfalso; destruct b; cbn in Hf; lia|]. cbn [skip_loop]. wp_step; [|done].
  destruct (take_step b) as [ok b1] eqn:Et. apply take_step_spec in Et. destruct ok; cbn [negb]; [|done].
  pose proof (proj2 Hs o p) as Hn. destruct (findNextOIDWithServed _ _ _ _) as [o' v']. wp_step; [done|]. apply IH; [lia|done].
Qed.

Lemma getnext_loop_octets oids p version : forall b,
  wp (getnext_loop s oids p version b) (fun l => Forall (fun r => bytes_ok (snd r)) l).
Proof.
  induction oids as [|o oids IH]; intros b; cbn [getnext_loop]; [constructor|]. wp_step. unfold getNextBinding.
  pose proof (proj2 Hs o p) as Hn. set (r := findNextOIDWithServed _ _ _ _) in *. clearbody r. wp_step.
  apply (wp_mono _ (fun x => bytes_ok (snd (fst x)))); [wp_step; [by apply skip_loop_octets; [apply budgetFuel_enough|]|done]|].
  intros [r' b'] Hr'. wp_step; cbn [wp]; apply wp_bind; (eapply wp_mono; [apply IH|]); intros l Hl; simpl; constructor; octets.
Qed.

Lemma bulk_repetitions_octets n p : forall cols, Forall (fun b => bytes_ok (snd b)) (bulk_repetitions n s p cols).
Proof.
  induction n as [|n IH]; intros cols; cbn [bulk_repetitions]; [constructor|]. apply Forall_app. split; [|apply IH].
  apply List.Forall_forall. intros x Hx. apply in_map_iff in Hx as (y & <- & Hy). apply in_map_iff in Hy as (c & <- & _).
  unfold bulk_column_step. case_if; [octets|]. pose proof (proj2 Hs (currentOID c) p).
  destruct (findNextOIDWithServed _ _ _ _) as [o v]. case_if; octets.
Qed.

Lemma bulk_bindings_octets p l nr mr : Forall (fun b => bytes_ok (snd b)) (bulk_bindings s p l nr mr).
Proof.
  unfold bulk_bindings. apply Forall_app. split.
  - apply List.Forall_forall. intros x Hx. apply in_map_iff in Hx as (o & <- & _). unfold bulk_nonrepeater.
    pose proof (proj2 Hs o p). destruct (findNextOIDWithServed _ _ _ _) as [o' v']. case_if; octets.
  - case_if; [constructor|]. apply bulk_repetitions_octets.
Qed.

Lemma Forall_map_snd (l : list (bytes * bytes)) : Forall (fun b => bytes_ok (snd b)) l -> Forall bytes_ok (map snd l).
Proof. intros Hl. by apply List.Forall_map. Qed.

Lemma handleGetBulk_octets o data : bytes_ok data -> wp (handleGetBulk s o data) octets_of.
Proof.
  intros Hok. unfold handleGetBulk. wp_step. apply parseGetBulkParams_wp; [done|]. intros nr mr _ _.
  wp_step. apply parseAllOIDsFromRequest_wp; [done|]. intros oids ok _. wp_step; [done|]. wp_step.
  eapply wp_mono; [apply createVarbindResponse_octets; [done|]; apply Forall_map_snd, bulk_bindings_octets|]. done.
Qed.

Lemma parseVarBinds_echo data pos (P : listVerdict (list snmpVarBind * bytes) -> Prop) :
  bytes_ok data -> 0 <= pos -> P ListAbsent -> P ListMalformed -> (forall b e, bytes_ok e -> P (ListParsed (b, e))) ->
  wp (parseVarBinds data pos) P.
Proof.
  intros Hok Hp HA HM HP. unfold parseVarBinds.
  repeat first [done | match goal with |- wp (slice _ _ _) _ => apply wp_slice_ok; [done|lia|lia|intros ? ? ? ?] end | wp_ber].
  eapply wp_mono; [apply varbinds_loop_safe; [done|lia..]|]. intros [?|] _; simpl; [by apply HP|done].
Qed.

Lemma handleSetRequest_octets clock data d : bytes_ok data -> wp (handleSetRequest clock data d) (fun r => octets_of (snd r)).
Proof.
  intros Hok. unfold handleSetRequest. wp_step. apply requestVarBindListPos_wp; [done|done|].
  intros pos pduEnd Hp He. wp_step; [done|]. wp_step. apply wp_mono with (fun _ => True); [repeat wp_ber; try done|].
  intros bad _. destruct bad; [done|]. wp_step. apply wp_slice_ok; [done|lia|lia|]. intros pdu Hpdu _ _.
  wp_step. apply parseVarBinds_echo; [done|done|done|done|]. intros binds echoed He'.
  wp_step. eapply wp_mono; [apply decideSet_safe|]. intros [d' v] _. wp_step. unfold createSetResponse. wp_step.
  eapply wp_mono; [by apply parseIncomingRequest_octets|]. intros req Hr. simpl. octets.
Qed.

Lemma handleSNMPv2cRequest_octets clock data : bytes_ok data -> wp (handleSNMPv2cRequest clock s data) (fun r => octets_of (snd r)).
Proof.
  intros Hok. unfold handleSNMPv2cRequest. wp_step. eapply wp_mono; [by apply parseIncomingRequest_octets|]. intros req Hr.
  wp_step. eapply wp_mono; [by apply getPDUType_safe|]. intros tag _. wp_step; [|wp_step; [|wp_step]].
  - wp_step. apply parseAllOIDsFromRequest_wp; [done|]. intros oids ok _. wp_step; [done|]. wp_step; wp_step.
    + unfold createTooBigResponse. wp_step. eapply wp_mono; [by apply parseIncomingRequest_octets|]. intros r' Hr'. simpl. unfold encodeGetResponse. octets.
    + unfold getNextBindingsForRequest. wp_step. eapply wp_mono; [apply getnext_loop_octets|]. intros l Hl. simpl. apply wp_bind.
      eapply wp_mono; [apply createVarbindResponse_octets; [done|by apply Forall_map_snd]|]. done.
  - wp_step. eapply wp_mono; [by apply handleGetBulk_octets|]. done.
  - wp_step; [done|]. wp_step. eapply wp_mono; [by apply handleSetRequest_octets|]. by intros [d r].
  - wp_step. apply parseAllOIDsFromRequest_wp; [done|]. intros oids ok _. wp_step; [done|]. wp_step.
    eapply wp_mono; [apply createVarbindResponse_octets; [done|]|done].
    apply List.Forall_forall. intros x Hx. apply in_map_iff in Hx as (o & <- & _). apply Hs.
Qed.
End agent.

(** ** Where the values come from

    A property of everything the tables and generators of a device hold is a
    property of everything it answers with. *)
Definition device_values (d : Device) (served : list kvOID) (Q : bytes -> Prop) : Prop :=
  Q (currentSysName d) /\ Q (currentSysLocation d) /\ (forall o v, oidIndex (resources d) !! o = Some v -> Q v) /\
  (forall mc o p, metricsCycler d = Some mc -> metricValue mc o p <> [] -> Q (metricValue mc o p)) /\
  (forall ic o, ifCyclerOf d = Some ic -> (GetDynamic ic o <> [] -> Q (GetDynamic ic o)) /\
     (fst (NextDynamicOID ic o) <> [] -> Q (snd (NextDynamicOID ic o)))) /\
  (forall o, lldpGet d o <> [] -> Q (lldpGet d o)) /\ Forall (fun kv => Q (kv_val kv)) served.

Section values.
  Context (d : Device) (served : list kvOID) (Q : bytes -> Prop).
  Hypothesis Hd : device_values d served Q.

Lemma overrideIfHC_values o v : Q v -> Q (overrideIfHC (ifCyclerOf d) o v).
Proof.
  intros Hv. destruct Hd as (_ & _ & _ & _ & Hi & _). unfold overrideIfHC. destruct (ifCyclerOf d) as [ic|]; [|done].
  case_if; [done|]. unfold beq. case_if; [|done]. apply (Hi ic); [done|]. zbool. done.
Qed.
Lemma overrideLLDP_values o v : Q v -> Q (overrideLLDP d o v).
Proof.
  intros Hv. destruct Hd as (_ & _ & _ & _ & _ & Hl & _). unfold overrideLLDP. case_if; [done|]. unfold beq. case_if; [|done].
  apply Hl. zbool. done.
Qed.

Lemma precomputed_values o x : precomputedNext d o = Some x -> Q (snd x).
Proof.
  unfold precomputedNext. destruct Hd as (_ & _ & Hx & _). intros Hp. repeat case_match; simplify_eq. by eapply Hx.
Qed.

Lemma lldpNext_values o : fst (lldpNextFromServed served o) <> [] -> Q (snd (lldpNextFromServed served o)).
Proof.
  unfold lldpNextFromServed. destruct Hd as (_ & _ & _ & _ & _ & _ & Hs). case_match eqn:E; [|done]. intros _.
  by eapply Forall_lookup_1 in E; [|exact Hs].
Qed.

Lemma metricCandidate_values mc p o ms : metricsCycler d = Some mc -> Forall (fun c => Q (snd c)) (metricCandidate mc p o ms).
Proof.
  intros Hm. destruct Hd as (_ & _ & _ & Hx & _). induction ms as [|m ms IH]; cbn [metricCandidate]; [constructor|]. unfold beq.
  destruct ((0 <? _) && _) eqn:E; [|done]. repeat constructor. apply (Hx mc); [done|]. apply andb_true_iff in E as [_ E]. by zbool.
Qed.

Lemma candidates_values o p : Forall (fun c => Q (snd c)) (candidates d o (lldpNextFromServed served o) p).
Proof.
  pose proof Hd as (Hn & Hl & Hx & _ & Hi & _). unfold candidates.
  assert (H1 : forall x : bytes * bytes, Q (snd x) -> Forall (fun c => Q (snd c)) [x]) by (intros; repeat constructor; done).
  repeat (apply Forall_app; split).
  - destruct (precomputedNext d o) as [x|] eqn:Ep; [by apply H1; eapply precomputed_values|].
    repeat case_match; try constructor; [|constructor]. cbn [snd]. by eapply Hx.
  - case_if; [by apply H1|constructor].
  - case_if; [by apply H1|constructor].
  - destruct (metricsCycler d) as [mc|] eqn:Em; [by apply metricCandidate_values|constructor].
  - unfold ifRows. destruct (ifCyclerOf d) as [ic|] eqn:Ei; [|constructor]. destruct (hasRows ic); [|constructor].
    destruct (Hi ic o eq_refl) as [_ Hi2]. destruct (NextDynamicOID ic o) as [no nv]. unfold beq. case_if; [constructor|]. apply H1. apply Hi2. by zbool.
  - unfold beq. case_if; [constructor|]. apply H1, lldpNext_values. by zbool.
Qed.

Lemma smallest_values best cs : Q (snd best) -> Forall (fun c => Q (snd c)) cs -> Q (snd (smallest best cs)).
Proof. intros Hb Hc. revert best Hb. induction Hc as [|c cs Hc _ IH]; intros best Hb; [done|]. cbn [smallest]. apply IH. by case_if. Qed.

Lemma consider_values o best c :
  (fst best <> [] -> Q (snd best)) -> Q (snd c) -> fst (consider o best c) <> [] -> Q (snd (consider o best c)).
Proof. intros Hb Hc. unfold consider. by case_if. Qed.

(** The answer of a GETNEXT, unless it is the end of the MIB. *)
Lemma findNext_values o p :
  fst (findNextOIDWithServed d o served p) <> [] \/ Q valueEndOfMibView -> Q (snd (findNextOIDWithServed d o served p)).
Proof.
  pose proof Hd as (Hn & Hl & _). unfold findNextOIDWithServed. destruct (fastPath d o _) as [x|] eqn:Ef.
  - intros _. unfold fastPath in Ef. destruct (precomputedNext d o) as [[n v]|] eqn:Ep; [|done]. apply precomputed_values in Ep. cbn [snd] in Ep.
    revert Ef. case_if; [|done]. intros [= <-]. cbn [snd]. by apply overrideLLDP_values, overrideIfHC_values.
  - unfold slowPath. case_if.
    + set (b1 := consider o ([], []) (sysNameOID, currentSysName d)). set (b2 := consider o b1 (sysLocationOID, currentSysLocation d)).
      assert (H1 : fst b1 <> [] -> Q (snd b1)) by (by apply consider_values).
      assert (H2 : fst b2 <> [] -> Q (snd b2)) by (by apply consider_values).
      assert (H3 : let b3 := if beq (fst (lldpNextFromServed served o)) [] then b2 else consider o b2 (lldpNextFromServed served o) in fst b3 <> [] -> Q (snd b3)).
      { cbv zeta. unfold beq. case_if; [done|]. apply consider_values; [done|]. apply lldpNext_values. by zbool. }
      cbv zeta in H3. revert H3. generalize (if beq (fst (lldpNextFromServed served o)) [] then b2 else consider o b2 (lldpNextFromServed served o)).
      intros b3 H3. unfold beq. case_if; [by intros [?|?]|]. cbn [fst snd]. intros _. apply overrideLLDP_values, H3. by zbool.
    + pose proof (candidates_values o p) as Hc. destruct (candidates d o _ p) as [|c cs]; [by intros [?|?]|]. intros _.
      apply Forall_cons_1 in Hc as [Hc Hcs]. pose proof (smallest_values c cs Hc Hcs) as Hs. destruct (smallest c cs) as [n v]. cbn [snd] in *.
      by apply overrideLLDP_values, overrideIfHC_values.
Qed.

Lemma findResponse_values o p : Q valueNoSuchObject -> Q (findResponseAt d o p).
Proof.
  intros Hq. pose proof Hd as (Hn & Hl & Hx & Hm & Hi & Hg & _). unfold findResponseAt, beq. case_if; [done|]. case_if; [done|].
  assert (Hix : Q (match oidIndex (resources d) !! o with Some response => response | None => valueNoSuchObject end))
    by (destruct (oidIndex (resources d) !! o) eqn:Eo; [by eapply Hx|done]).
  case_if; [destruct (metricsCycler d) as [mc|] eqn:Em; [apply Hm; [done|by zbool]|done]|].
  case_if; [destruct (ifCyclerOf d) as [ic|] eqn:Ei; [apply Hi; [done|by zbool]|done]|].
  destruct (isLLDPOID o || isIfAliasOID o); [|done]. case_if; [apply Hg; by zbool|done].
Qed.
End values.

(** A device whose tables hold octets serves octets. *)
Lemma device_serves_octets s : device_values (device s) (lldpServed s) bytes_ok -> serves_octets s.
Proof.
  intros Hd. split; intros o p.
  - by eapply findResponse_values; [|apply bytes_okb_ok; reflexivity].
  - eapply findNext_values; [done|]. right. octets.
Qed.

(** The values of a resource file. *)
Lemma index_resources_values (Q : bytes -> Prop) snmp : forall index oids o v,
  Forall (fun r => Q (snd r)) snmp -> (forall o v, index !! o = Some v -> Q v) ->
  fst (index_resources snmp index oids) !! o = Some v -> Q v.
Proof.
  induction snmp as [|[name resp] snmp IH]; intros index oids o v Hr Hi; cbn [index_resources]; [apply Hi|].
  apply Forall_cons_1 in Hr as [Hr Hrs]. cbn [snd] in Hr.
  assert (Hins : forall k o v, <[k := resp]> index !! o = Some v -> Q v).
  { intros k o' v'. destruct (decide (k = o')) as [->|Hne]; [rewrite lookup_insert_eq; congruence|rewrite lookup_insert_ne by done; apply Hi]. }
  destruct (_ || _); intros Hv; (eapply IH; [exact Hrs| |exact Hv]); [exact Hi|apply Hins].
Qed.

Lemma buildResourceIndexes_values (Q : bytes -> Prop) snmp o v :
  Forall (fun r => Q (snd r)) snmp -> oidIndex (buildResourceIndexes snmp) !! o = Some v -> Q v.
Proof.
  intros Hr. unfold buildResourceIndexes. set (snmp' := sort_by _ snmp).
  assert (Hp : Permutation snmp snmp') by apply sort_by_perm.
  pose proof (index_resources_values Q snmp' ∅ [] o v) as Hx. destruct (index_resources snmp' ∅ []) as [index oids]. cbn [oidIndex fst] in *.
  intros Hv. apply Hx; [|by intros; rewrite lookup_empty in *|done]. eapply Permutation_Forall; [exact Hp|done].
Qed.

Lemma sample_values (Q : bytes -> Prop) :
  Q (str "edge-1") -> Q (str "lab") -> Forall (fun r => Q (snd r)) sampleResources -> device_values Walk.sampleDevice [] Q.
Proof.
  intros Hn Hl Hr. split_and!; try done.
  intros o v. by apply buildResourceIndexes_values.
Qed.
