(* ===== verification/V3Msg.v ===== *)
(** * Reading and writing SNMPv3 messages (snmpv3.go, snmp.go, snmpv3_crypto.go)

    A v3 datagram nests three layers: the message with its global data, the USM
    security parameters inside an OCTET STRING, and the scoped PDU, which is a
    SEQUENCE or, encrypted, an OCTET STRING.  This file models the readers of the
    three layers and the encoders of a response.  The theorems show that no
    datagram makes a reader panic, that the message reader is the inverse of the
    message encoder, and that the three readers of a scoped PDU recover what a
    manager put into it. *)

From S2P Require Import Prelude GoStrings Ber Oid TypedValue Request SetReq.

(** ** Messages *)

Definition SNMPV3_VERSION : Z := 3.
Definition SNMPV3_SECURITY_MODEL_USM : Z := 3.
Definition SNMPV3_MSG_FLAG_REPORT : Z := 0x04.
Definition v3ReportPDUTag : Z := 0xA8.

Record SNMPv3GlobalData := { MsgID : Z; MsgMaxSize : Z; MsgFlags : Z; MsgSecurityModel : Z }.
Record SNMPv3SecurityParams := {
  AuthoritativeEngineID : bytes;
  AuthoritativeEngineBoots : Z;
  AuthoritativeEngineTime : Z;
  UserName : bytes;
  AuthParams : bytes;
  PrivParams : bytes;
}.
Record SNMPv3Message := {
  msgVersion : Z;
  GlobalData : SNMPv3GlobalData;
  SecurityParams : SNMPv3SecurityParams;
  ScopedPDU : bytes;
}.

Definition noParams : SNMPv3SecurityParams :=
  {| AuthoritativeEngineID := []; AuthoritativeEngineBoots := 0; AuthoritativeEngineTime := 0;
     UserName := []; AuthParams := []; PrivParams := [] |}.

(** ** The message reader *)

(** The parameters read so far and whether all were: the caller keeps the former
    and ignores the latter. *)
Definition parseUSMSecurityParameters (data : bytes) : res (SNMPv3SecurityParams * bool) :=
  let params := noParams in
  if len data =? 0 then Ok (params, true) else
  let! t := tag_at data 0 ASN1_SEQUENCE in
  if negb t then Ok (params, false) else
  let! (seqLen, pos) := parseLength data 1 in
  if seqLen =? -1 then Ok (params, false) else
  let! (r, pos) := parseOctetString data pos in
  match r with None => Ok (params, false) | Some engineID =>
  let params := {| AuthoritativeEngineID := engineID; AuthoritativeEngineBoots := 0; AuthoritativeEngineTime := 0;
                   UserName := []; AuthParams := []; PrivParams := [] |} in
  let! (r, pos) := parseInteger data pos in
  match r with None => Ok (params, false) | Some boots =>
  let params := {| AuthoritativeEngineID := engineID; AuthoritativeEngineBoots := boots; AuthoritativeEngineTime := 0;
                   UserName := []; AuthParams := []; PrivParams := [] |} in
  let! (r, pos) := parseInteger data pos in
  match r with None => Ok (params, false) | Some time =>
  let params := {| AuthoritativeEngineID := engineID; AuthoritativeEngineBoots := boots; AuthoritativeEngineTime := time;
                   UserName := []; AuthParams := []; PrivParams := [] |} in
  let! (r, pos) := parseOctetString data pos in
  match r with None => Ok (params, false) | Some userName =>
  let params := {| AuthoritativeEngineID := engineID; AuthoritativeEngineBoots := boots; AuthoritativeEngineTime := time;
                   UserName := userName; AuthParams := []; PrivParams := [] |} in
  let! (r, pos) := parseOctetString data pos in
  match r with None => Ok (params, false) | Some authParams =>
  let params := {| AuthoritativeEngineID := engineID; AuthoritativeEngineBoots := boots; AuthoritativeEngineTime := time;
                   UserName := userName; AuthParams := authParams; PrivParams := [] |} in
  let! (r, _) := parseOctetString data pos in
  match r with None => Ok (params, false) | Some privParams =>
  Ok ({| AuthoritativeEngineID := engineID; AuthoritativeEngineBoots := boots; AuthoritativeEngineTime := time;
         UserName := userName; AuthParams := authParams; PrivParams := privParams |}, true)
  end end end end end end.

(** The version field, shared by the classifier and the parser: its value and
    the cursor after it; [None] is a field that does not read. *)
Definition v3_version (data : bytes) (pos : Z) : res (option (Z * Z)) :=
  let! t := tag_at data pos ASN1_INTEGER in
  if negb t then Ok None else
  let! (versionLen, pos) := parseLength data (pos + 1) in
  if versionLen <? 0 then Ok None else
  let! (v, ok) := parseBERInt data pos versionLen in
  if negb ok then Ok None else Ok (Some (v, pos + versionLen)).

Definition isSNMPv3Request (data : bytes) : res bool :=
  if len data <? 10 then Ok false else
  let! b := index data 0 in
  if negb (b =? ASN1_SEQUENCE) then Ok false else
  let! (length, pos) := parseLength data 1 in
  if length =? -1 then Ok false else
  let! r := v3_version data pos in
  match r with None => Ok false | Some (v, _) => Ok (v =? SNMPV3_VERSION) end.

(** msgGlobalData after its SEQUENCE header, and the cursor after it. *)
Definition v3_global (data : bytes) (pos : Z) : res (option (SNMPv3GlobalData * Z)) :=
  let! (r, pos) := parseInteger data pos in
  match r with None => Ok None | Some msgID =>
  let! (r, pos) := parseInteger data pos in
  match r with None => Ok None | Some msgMaxSize =>
  let! t := tag_at data pos ASN1_OCTET_STRING in
  if negb t then Ok None else
  let! (flagsLen, pos) := parseLength data (pos + 1) in
  if negb (flagsLen =? 1) then Ok None else
  if len data <=? pos then Ok None else
  let! flags := index data pos in
  let pos := pos + 1 in
  let! (r, pos) := parseInteger data pos in
  match r with None => Ok None | Some model =>
  Ok (Some ({| MsgID := msgID; MsgMaxSize := msgMaxSize; MsgFlags := flags; MsgSecurityModel := model |}, pos))
  end end end.

(** msgSecurityParameters, and the cursor after them. *)
Definition v3_security (data : bytes) (pos : Z) : res (option (SNMPv3SecurityParams * Z)) :=
  if len data <=? pos then Ok None else
  let! b := index data pos in
  if negb (b =? ASN1_OCTET_STRING) then Ok None else
  let! (secParamsLen, pos) := parseLength data (pos + 1) in
  if secParamsLen =? -1 then Ok None else
  if 0 <? secParamsLen then
    if len data <? pos + secParamsLen then Ok None else
    let! secParamsData := slice data pos (pos + secParamsLen) in
    let! (params, _) := parseUSMSecurityParameters secParamsData in
    Ok (Some (params, pos + secParamsLen))
  else Ok (Some (noParams, pos)).

(** scopedPduData: the contents of either form. *)
Definition v3_scoped (data : bytes) (pos : Z) : res (option bytes) :=
  if len data <=? pos then Ok None else
  let! b := index data pos in
  if (b =? ASN1_OCTET_STRING) || (b =? ASN1_SEQUENCE) then
    let! (pduLen, pos) := parseLength data (pos + 1) in
    if (pduLen <? 0) || (len data <? pos + pduLen) then Ok None else
    let! pdu := slice data pos (pos + pduLen) in
    Ok (Some pdu)
  else Ok None.

(** [None] is an error return. *)
Definition parseSNMPv3Message (data : bytes) : res (option SNMPv3Message) :=
  if len data <? 20 then Ok None else
  let! b := index data 0 in
  if negb (b =? ASN1_SEQUENCE) then Ok None else
  let! (_, pos) := parseLength data 1 in
  let! r := v3_version data pos in
  match r with None => Ok None | Some (version, pos) =>
  if negb (version =? SNMPV3_VERSION) then Ok None else
  let! t := tag_at data pos ASN1_SEQUENCE in
  if negb t then Ok None else
  let! (_, pos) := parseLength data (pos + 1) in
  let! r := v3_global data pos in
  match r with None => Ok None | Some (global, pos) =>
  let! r := v3_security data pos in
  match r with None => Ok None | Some (params, pos) =>
  let! r := v3_scoped data pos in
  match r with None => Ok None | Some pdu =>
  Ok (Some {| msgVersion := version; GlobalData := global; SecurityParams := params; ScopedPDU := pdu |})
  end end end end.

(** ** Encoders *)

Definition encodeUSMSecurityParameters (params : SNMPv3SecurityParams) : bytes :=
  encodeSequence (
    encodeOctetString (AuthoritativeEngineID params) ++
    encodeInteger (AuthoritativeEngineBoots params) ++
    encodeInteger (AuthoritativeEngineTime params) ++
    encodeOctetString (UserName params) ++
    encodeOctetString (AuthParams params) ++
    encodeOctetString (PrivParams params)).

Definition globalContents (g : SNMPv3GlobalData) : bytes :=
  encodeInteger (MsgID g) ++ encodeInteger (MsgMaxSize g) ++ encodeOctetString [MsgFlags g] ++
  encodeInteger (MsgSecurityModel g).

Definition encodeSNMPv3Message (msg : SNMPv3Message) (usmParams : bytes) : bytes :=
  let isEncrypted := negb (Z.land (MsgFlags (GlobalData msg)) SNMPV3_MSG_FLAG_PRIV =? 0) in
  encodeSequence (
    encodeInteger (msgVersion msg) ++
    encodeSequence (globalContents (GlobalData msg)) ++
    encodeOctetString usmParams ++
    (if isEncrypted then encodeOctetString (ScopedPDU msg) else ScopedPDU msg)).

Definition scopedContents (engineID contextName pdu : bytes) : bytes :=
  encodeOctetString engineID ++ encodeOctetString contextName ++ pdu.
Definition wrapInScopedPDU (engineID contextName pdu : bytes) : bytes :=
  encodeSequence (scopedContents engineID contextName pdu).

(** ** Readers of the scoped PDU, given as its contents *)

(** The name of the first binding and the PDU type; [None] is an error. *)
Definition extractOIDAndTypeFromScopedPDU (scopedPDU : bytes) : res (option (bytes * Z)) :=
  if len scopedPDU <? 10 then Ok None else
  let! r := skip_field scopedPDU 0 ASN1_OCTET_STRING in
  match r with None => Ok None | Some pos =>
  let! r := skip_field scopedPDU pos ASN1_OCTET_STRING in
  match r with None => Ok None | Some pos =>
  if len scopedPDU <=? pos then Ok None else
  let! pduType := index scopedPDU pos in
  if negb (servedPDUTag pduType) then Ok None else
  let! (_, pos) := parseLength scopedPDU (pos + 1) in
  let! r := skip_ints 3 scopedPDU pos in
  match r with None => Ok None | Some pos =>
  let! t := tag_at scopedPDU pos ASN1_SEQUENCE in
  if negb t then Ok None else
  let! (_, pos) := parseLength scopedPDU (pos + 1) in
  let! t := tag_at scopedPDU pos ASN1_SEQUENCE in
  if negb t then Ok None else
  let! (_, pos) := parseLength scopedPDU (pos + 1) in
  let! t := tag_at scopedPDU pos ASN1_OBJECT_ID in
  if negb t then Ok None else
  let! (oidLen, pos) := parseLength scopedPDU (pos + 1) in
  if (oidLen <? 0) || (len scopedPDU <? pos + oidLen) then Ok None else
  let! oidBytes := slice scopedPDU pos (pos + oidLen) in
  let oid := decodeOID oidBytes in
  if beq oid [] then Ok None else Ok (Some (oid, pduType))
  end end end.

(** A field bounded by [end_]: skipped, absent, or with a length that lies. *)
Definition scoped_field (data : bytes) (pos end_ tag : Z) : res (listVerdict Z) :=
  if end_ <=? pos then Ok ListAbsent else
  let! b := index data pos in
  if negb (b =? tag) then Ok ListAbsent else
  let! (n, newPos) := parseLength data (pos + 1) in
  if n <? 0 then Ok ListAbsent else
  if end_ - newPos <? n then Ok ListMalformed else Ok (ListParsed (newPos + n)).

Fixpoint scoped_fields (n : nat) (data : bytes) (pos end_ tag : Z) : res (listVerdict Z) :=
  match n with
  | O => Ok (ListParsed pos)
  | S n' =>
      let! r := scoped_field data pos end_ tag in
      match r with
      | ListParsed pos => scoped_fields n' data pos end_ tag
      | v => Ok v
      end
  end.

(** The slice bounded by the PDU and the offset of its list. *)
Definition scopedPDUVarBindListPos (scopedPDU : bytes) : res (listVerdict (bytes * Z)) :=
  let! r := scoped_fields 2 scopedPDU 0 (len scopedPDU) ASN1_OCTET_STRING in
  match r with ListAbsent => Ok ListAbsent | ListMalformed => Ok ListMalformed | ListParsed pos =>
  if len scopedPDU <=? pos then Ok ListAbsent else
  let! (pduLen, newPos) := parseLength scopedPDU (pos + 1) in
  if pduLen <? 0 then Ok ListAbsent else
  if len scopedPDU - newPos <? pduLen then Ok ListMalformed else
  let end_ := newPos + pduLen in
  let! r := scoped_fields 3 scopedPDU newPos end_ ASN1_INTEGER in
  match r with ListAbsent => Ok ListAbsent | ListMalformed => Ok ListMalformed | ListParsed pos =>
  let! lies :=
    (if end_ <=? pos then Ok false else
     let! b := index scopedPDU pos in
     if negb (b =? ASN1_SEQUENCE) then Ok false else
     let! (listLen, afterLen) := parseLength scopedPDU (pos + 1) in
     Ok ((0 <=? listLen) && ((end_ - afterLen <? listLen) || negb (afterLen + listLen =? end_)))) in
  if lies then Ok ListMalformed else
  let! bounded := slice scopedPDU 0 end_ in
  Ok (ListParsed (bounded, pos))
  end end.

Definition parseAllOIDsFromScopedPDU (scopedPDU : bytes) : res (list bytes * bool) :=
  let! r := scopedPDUVarBindListPos scopedPDU in
  match r with
  | ListAbsent => Ok ([], true)
  | ListMalformed => Ok ([], false)
  | ListParsed (bounded, pos) => parseVarBindNames bounded pos
  end.

Definition parseSetVarBindsFromScopedPDU (scopedPDU : bytes) : res (listVerdict (list snmpVarBind * bytes)) :=
  let! r := scopedPDUVarBindListPos scopedPDU in
  match r with
  | ListAbsent => Ok ListAbsent
  | ListMalformed => Ok ListMalformed
  | ListParsed (bounded, pos) => parseVarBinds bounded pos
  end.

(** An INTEGER field bounded by [end_]: where its octets start and how many. *)
Definition bounded_int (data : bytes) (pos end_ : Z) : res (option (Z * Z)) :=
  if end_ <=? pos then Ok None else
  let! b := index data pos in
  if negb (b =? ASN1_INTEGER) then Ok None else
  let! (n, newPos) := parseLength data (pos + 1) in
  if (n <? 0) || (end_ <? newPos + n) then Ok None else Ok (Some (newPos, n)).

Definition parseSNMPv3GetBulkParams (scopedPDU : bytes) : res (Z * Z) :=
  let nonRepeaters := 0 in
  let maxRepetitions := 10 in
  let! r := scoped_fields 2 scopedPDU 0 (len scopedPDU) ASN1_OCTET_STRING in
  match r with ListAbsent | ListMalformed => Ok (nonRepeaters, maxRepetitions) | ListParsed pos =>
  let! t := tag_at scopedPDU pos ASN1_GET_BULK in
  if negb t then Ok (nonRepeaters, maxRepetitions) else
  let! (pduLen, newPos) := parseLength scopedPDU (pos + 1) in
  if (pduLen <? 0) || (len scopedPDU <? newPos + pduLen) then Ok (nonRepeaters, maxRepetitions) else
  let end_ := newPos + pduLen in
  let! r := bounded_int scopedPDU newPos end_ in
  match r with None => Ok (nonRepeaters, maxRepetitions) | Some (p, reqLen) =>
  let! r := bounded_int scopedPDU (p + reqLen) end_ in
  match r with None => Ok (nonRepeaters, maxRepetitions) | Some (p, nrLen) =>
  let! nonRepeaters := nonneg_param scopedPDU p nrLen nonRepeaters in
  let! r := bounded_int scopedPDU (p + nrLen) end_ in
  match r with None => Ok (nonRepeaters, maxRepetitions) | Some (p, mrLen) =>
  let! maxRepetitions := nonneg_param scopedPDU p mrLen maxRepetitions in
  Ok (nonRepeaters, maxRepetitions)
  end end end end.

(** A context field of the request-id reader: skipped if it is there; [None] is
    a length that does not read. *)
Definition skip_context (data : bytes) (pos : Z) : res (option Z) :=
  let! t := tag_at data pos ASN1_OCTET_STRING in
  if t then
    let! (n, newPos) := parseLength data (pos + 1) in
    if n <? 0 then Ok None else Ok (Some (newPos + n))
  else Ok (Some pos).

Definition extractRequestIDFromScopedPDU (scopedPDU : bytes) : res Z :=
  if len scopedPDU <? 10 then Ok 1 else
  let! r := skip_context scopedPDU 0 in
  match r with None => Ok 1 | Some pos =>
  let! r := skip_context scopedPDU pos in
  match r with None => Ok 1 | Some pos =>
  if len scopedPDU <=? pos then Ok 1 else
  let! tag := index scopedPDU pos in
  if negb (servedPDUTag tag) then Ok 1 else
  let! (pduLen, newPos) := parseLength scopedPDU (pos + 1) in
  if (pduLen <? 0) || (len scopedPDU <? newPos + pduLen) then Ok 1 else
  let end_ := newPos + pduLen in
  if end_ <=? newPos then Ok 1 else
  let! b := index scopedPDU newPos in
  if negb (b =? ASN1_INTEGER) then Ok 1 else
  let! bounded := slice scopedPDU 0 end_ in
  let! (r, _) := parseInteger bounded newPos in
  match r with None => Ok 1 | Some id => Ok id end
  end end.

(** ** No reader panics *)

(** One step through a v3 reader: the primitives it is made of. *)
Ltac wp_v3 :=
  first
  [ done
  | lazymatch goal with
    | |- wp (parseOctetString _ _) _ => apply parseOctetString_wp; [done|lia|intros ? ?|intros ? ? ? ? ?]
    | |- wp (parseInteger _ _) _ => apply parseInteger_wp; [done|lia|intros ? ?|intros ? ? ?]
    | |- wp (skip_field _ _ _) _ => apply skip_field_wp; [done|lia|done|intros ? ?]
    | |- wp (skip_ints _ _ _) _ => apply skip_ints_wp; [done|lia|done|intros ? ?]
    | |- wp (slice _ _ _) _ => apply wp_slice_ok; [done|lia|lia|intros ? ? ? ?]
    end
  | wp_ber ].

Lemma parseUSMSecurityParameters_wp data :
  bytes_ok data -> wp (parseUSMSecurityParameters data) (fun r => bytes_ok (UserName (fst r))).
Proof.
  intros Hok. unfold parseUSMSecurityParameters. pose proof (len_nonneg data). repeat wp_v3; cbn; first [done|apply List.Forall_nil].
Qed.

Lemma v3_version_wp data pos (P : option (Z * Z) -> Prop) :
  bytes_ok data -> 0 <= pos -> P None -> (forall v p, pos < p -> P (Some (v, p))) -> wp (v3_version data pos) P.
Proof. intros Hok Hp HN HS. unfold v3_version. repeat wp_v3. simpl. apply HS. lia. Qed.

Lemma v3_global_wp data pos (P : option (SNMPv3GlobalData * Z) -> Prop) :
  bytes_ok data -> 0 <= pos -> P None -> (forall g p, is_byte (MsgFlags g) -> pos < p -> P (Some (g, p))) -> wp (v3_global data pos) P.
Proof.
  intros Hok Hp HN HS. unfold v3_global. repeat wp_v3. simpl. apply HS; [|lia]. cbn [MsgFlags]. by eapply bytes_ok_lookup.
Qed.

Lemma v3_security_wp data pos (P : option (SNMPv3SecurityParams * Z) -> Prop) :
  bytes_ok data -> 0 <= pos -> P None -> (forall s p, bytes_ok (UserName s) -> pos < p -> P (Some (s, p))) -> wp (v3_security data pos) P.
Proof.
  intros Hok Hp HN HS. unfold v3_security. repeat wp_v3; [|simpl; apply HS; [constructor|lia]].
  eapply wp_mono; [by apply parseUSMSecurityParameters_wp|]. intros [sp b] Hu. simpl. apply HS; [done|lia].
Qed.

Lemma v3_scoped_wp data pos (P : option bytes -> Prop) :
  bytes_ok data -> 0 <= pos -> P None -> (forall pdu, bytes_ok pdu -> len pdu <= len data -> P (Some pdu)) -> wp (v3_scoped data pos) P.
Proof. intros Hok Hp HN HS. unfold v3_scoped. repeat wp_v3. simpl. apply HS; [done|lia]. Qed.

Lemma isSNMPv3Request_safe data : bytes_ok data -> safe (isSNMPv3Request data).
Proof.
  intros Hok. unfold isSNMPv3Request, safe. repeat wp_v3. apply v3_version_wp; [done|lia|done|done].
Qed.

(** A message that parses carries octets. *)
Lemma parseSNMPv3Message_wp data (P : option SNMPv3Message -> Prop) :
  bytes_ok data -> P None ->
  (forall m, msgVersion m = SNMPV3_VERSION -> bytes_ok (ScopedPDU m) -> len (ScopedPDU m) <= len data ->
     is_byte (MsgFlags (GlobalData m)) -> bytes_ok (UserName (SecurityParams m)) -> P (Some m)) ->
  wp (parseSNMPv3Message data) P.
Proof.
  intros Hok HN HS. unfold parseSNMPv3Message. repeat wp_v3. apply v3_version_wp; [done|lia|done|]. intros v p' Hp'.
  repeat wp_v3. apply v3_global_wp; [done|lia|done|]. intros g p'' Hg Hp''.
  wp_step. apply v3_security_wp; [done|lia|done|]. intros sp q Hu Hq.
  wp_step. apply v3_scoped_wp; [done|lia|done|]. intros pdu Hpdu Hl. apply HS; cbn; (done || lia).
Qed.

Lemma extractOID_wp pdu (P : option (bytes * Z) -> Prop) :
  bytes_ok pdu -> P None -> (forall oid t, servedPDUTag t = true -> oid <> [] -> P (Some (oid, t))) ->
  wp (extractOIDAndTypeFromScopedPDU pdu) P.
Proof.
  intros Hok HN HS. unfold extractOIDAndTypeFromScopedPDU. unfold beq. repeat wp_v3. apply HS; [|done]. by destruct (servedPDUTag _).
Qed.

Lemma scoped_field_wp data pos end_ tag (P : listVerdict Z -> Prop) :
  bytes_ok data -> 0 <= pos -> end_ <= len data -> P ListAbsent -> P ListMalformed ->
  (forall p, pos < p <= end_ -> P (ListParsed p)) -> wp (scoped_field data pos end_ tag) P.
Proof. intros Hok Hp He HA HM HS. unfold scoped_field. repeat wp_v3. simpl. apply HS. lia. Qed.

Lemma scoped_fields_wp n data end_ tag (P : listVerdict Z -> Prop) : forall pos,
  bytes_ok data -> 0 <= pos <= end_ -> end_ <= len data -> P ListAbsent -> P ListMalformed ->
  (forall p, pos <= p <= end_ -> P (ListParsed p)) -> wp (scoped_fields n data pos end_ tag) P.
Proof.
  induction n as [|n IH]; intros pos Hok Hp He HA HM HS; cbn [scoped_fields]; [simpl; apply HS; lia|].
  wp_step. apply scoped_field_wp; [done|lia|done|done|done|]. intros p Hpp. apply IH; [done|lia|done..|].
  intros q Hq. apply HS. lia.
Qed.

Lemma scopedPDUVarBindListPos_wp pdu (P : listVerdict (bytes * Z) -> Prop) :
  bytes_ok pdu -> P ListAbsent -> P ListMalformed ->
  (forall b p, bytes_ok b -> 0 <= p -> P (ListParsed (b, p))) -> wp (scopedPDUVarBindListPos pdu) P.
Proof.
  intros Hok HA HM HS. pose proof (len_nonneg pdu). unfold scopedPDUVarBindListPos. wp_step.
  apply scoped_fields_wp; [done|lia|lia|done|done|]. intros pos Hpos. repeat wp_v3.
  apply scoped_fields_wp; [done|lia|lia|done|done|]. intros q Hq.
  repeat wp_v3; simpl; apply HS; (done || lia).
Qed.

Lemma parseAllOIDsFromScopedPDU_wp pdu (P : list bytes * bool -> Prop) :
  bytes_ok pdu -> (forall l ok, (ok = false -> l = []) -> P (l, ok)) -> wp (parseAllOIDsFromScopedPDU pdu) P.
Proof.
  intros Hok HP. unfold parseAllOIDsFromScopedPDU. wp_step.
  apply scopedPDUVarBindListPos_wp; [done|by apply HP|by apply HP|]. intros b p Hb Hp. by apply wp_parseVarBindNames.
Qed.

Lemma parseSetVarBinds_safe pdu : bytes_ok pdu -> safe (parseSetVarBindsFromScopedPDU pdu).
Proof.
  intros Hok. unfold parseSetVarBindsFromScopedPDU, safe. wp_step.
  apply scopedPDUVarBindListPos_wp; [done|done|done|]. intros b p Hb Hp. by apply parseVarBinds_safe.
Qed.

Lemma bounded_int_wp data pos end_ (P : option (Z * Z) -> Prop) :
  bytes_ok data -> 0 <= pos -> end_ <= len data -> P None ->
  (forall p n, pos < p -> 0 <= n -> p + n <= end_ -> P (Some (p, n))) -> wp (bounded_int data pos end_) P.
Proof. intros Hok Hp He HN HS. unfold bounded_int. repeat wp_v3. simpl. apply HS; lia. Qed.

Lemma parseSNMPv3GetBulkParams_wp pdu (P : Z * Z -> Prop) :
  bytes_ok pdu -> (forall a b, 0 <= a <= MaxInt64 -> 0 <= b <= MaxInt64 -> P (a, b)) ->
  wp (parseSNMPv3GetBulkParams pdu) P.
Proof.
  intros Hok HP. assert (H0 : 0 <= 0 <= MaxInt64) by (unfold MaxInt64; lia).
  assert (H10 : 0 <= 10 <= MaxInt64) by (unfold MaxInt64; lia). pose proof (len_nonneg pdu).
  unfold parseSNMPv3GetBulkParams. wp_step. apply scoped_fields_wp; [done|lia|lia|by apply HP|by apply HP|]. intros pos Hpos.
  repeat first [ by (simpl; apply HP)
    | match goal with
      | |- wp (bounded_int _ _ _) _ => apply bounded_int_wp; [done|lia|lia|by apply HP|intros ? ? ? ? ?]
      | |- wp (nonneg_param _ _ _ _) _ => apply nonneg_param_wp; [lia|done|intros ? ?]
      end
    | wp_v3 ].
Qed.

Lemma skip_context_wp data pos (P : option Z -> Prop) :
  bytes_ok data -> 0 <= pos -> P None -> (forall p, 0 <= p -> P (Some p)) -> wp (skip_context data pos) P.
Proof. intros Hok Hp HN HS. unfold skip_context. repeat wp_v3; simpl; apply HS; lia. Qed.

Lemma extractRequestID_safe pdu : bytes_ok pdu -> safe (extractRequestIDFromScopedPDU pdu).
Proof.
  intros Hok. unfold extractRequestIDFromScopedPDU, safe. repeat wp_v3.
  apply skip_context_wp; [done|lia|done|]. intros p ?. wp_step. apply skip_context_wp; [done|lia|done|]. intros q ?.
  repeat wp_v3.
Qed.

(** ** Reading what an encoder wrote *)

Lemma uint_loop_app l : forall pre rest acc,
  bytes_ok l -> 0 <= acc -> be_val acc l <= MaxInt64 ->
  uint_loop (length l) (pre ++ l ++ rest) (len pre) acc = Ok (be_val acc l, len pre + len l).
Proof.
  induction l as [|b l IH]; intros pre rest acc Hok Ha Hv; cbn [uint_loop length].
  { rewrite len_nil, be_val_nil. do 2 f_equal. lia. }
  apply Forall_cons_1 in Hok as [Hb Hl]. unfold is_byte in Hb. cbn [app]. rewrite index_app_here. cbn [res_bind].
  rewrite lor_shiftl_add by lia. change (2 ^ 8) with 256. rewrite be_val_cons in *.
  pose proof (be_val_split (acc * 256 + b) l) as Hs. pose proof (be_val_bound l Hl).
  assert (1 <= 256 ^ len l) by (pose proof (len_nonneg l); apply (Z.pow_le_mono_r 256 0); lia).
  rewrite s64_small by (unfold int64_range, MinInt64, MaxInt64 in *; nia).
  replace (pre ++ b :: l ++ rest) with ((pre ++ [b]) ++ l ++ rest) by (by rewrite <- app_assoc).
  replace (len pre + 1) with (len (pre ++ [b])) by (autorewrite with len; lia).
  rewrite IH by (done || lia). autorewrite with len. do 2 f_equal. lia.
Qed.

(** What [parseInteger] takes the content octets of an encoded integer for: it
    has no sign. *)
Definition unsignedOf (v : Z) : Z := if v <? 0 then v + 256 ^ len (integerBody v) else v.

Lemma integerBody_unsigned v :
  - 2 ^ 32 <= v <= MaxInt64 -> bytes_ok (integerBody v) /\ be_val 0 (integerBody v) = unsignedOf v.
Proof.
  intros Hv. destruct (integerBody_spec v Hv) as (b0 & l & E & Hok & _ & _ & Hval).
  rewrite E. split; [done|]. unfold unsignedOf. rewrite E. apply Forall_cons_1 in Hok as Hb. destruct Hb as [Hb Hl].
  rewrite be_val_s8 in Hval by done. pose proof (be_val_bound _ Hok) as Hbd. rewrite len_cons in *.
  destruct (b0 <? 128); case_if; lia.
Qed.

Lemma unsignedOf_max v : - 2 ^ 32 <= v <= MaxInt64 -> unsignedOf v <= MaxInt64.
Proof.
  intros Hv. unfold unsignedOf. case_if; [|lia].
  assert (Hl : len (integerBody v) <= 5).
  { unfold integerBody. replace (v =? 0) with false by lia. replace (0 <? v) with false by lia.
    repeat case_if; autorewrite with len; lia. }
  assert (256 ^ len (integerBody v) <= 256 ^ 5) by (apply Z.pow_le_mono_r; lia). unfold MaxInt64 in *. lia.
Qed.

Lemma parseInteger_any data pos v :
  wire_int v -> holds_at data pos (encodeInteger v) ->
  parseInteger data pos = Ok (Some (unsignedOf v), pos + len (encodeInteger v)).
Proof.
  intros Hv H. rewrite encodeInteger_tlv in *. pose proof (integerBody_MaxInt32 v Hv) as Hl. unfold parseInteger.
  rewrite (holds_at_tag _ _ _ _ H), Z.eqb_refl. cbn [res_bind negb].
  rewrite (holds_at_length _ _ _ _ H) by done. cbn [res_bind].
  pose proof (holds_at_body _ _ _ _ H) as Hb. pose proof (holds_at_bounds _ _ _ Hb). pose proof (len_nonneg (integerBody v)).
  case_if; [lia|]. destruct (integerBody_unsigned v Hv) as [Hok Hval]. pose proof (unsignedOf_max v Hv).
  destruct Hb as (pre & rest & -> & Hpre). rewrite Hpre. unfold len at 1. rewrite Nat2Z.id.
  rewrite uint_loop_app by (done || lia). cbn [res_bind]. rewrite Hval, len_tlv. do 2 f_equal. lia.
Qed.

Lemma parseInteger_at data pos v :
  0 <= v <= MaxInt64 -> holds_at data pos (encodeInteger v) ->
  parseInteger data pos = Ok (Some v, pos + len (encodeInteger v)).
Proof.
  intros Hv H. rewrite (parseInteger_any data pos v) by (try done; unfold wire_int; lia).
  unfold unsignedOf. replace (v <? 0) with false by lia. done.
Qed.

Lemma parseOctetString_at data pos c :
  len c <= MaxInt32 -> holds_at data pos (encodeOctetString c) ->
  parseOctetString data pos = Ok (Some c, pos + len (encodeOctetString c)).
Proof.
  intros Hc H. rewrite encodeOctetString_tlv in *. unfold parseOctetString.
  rewrite (holds_at_tag _ _ _ _ H), Z.eqb_refl. cbn [res_bind negb].
  rewrite (holds_at_length _ _ _ _ H) by done. cbn [res_bind].
  pose proof (holds_at_body _ _ _ _ H) as Hb. pose proof (holds_at_bounds _ _ _ Hb). pose proof (len_nonneg c).
  case_if; [lia|]. rewrite (holds_at_slice _ _ _ Hb). cbn [res_bind]. rewrite len_tlv. do 2 f_equal. lia.
Qed.

Definition params_ok (p : SNMPv3SecurityParams) : Prop :=
  0 <= AuthoritativeEngineBoots p <= MaxInt64 /\ 0 <= AuthoritativeEngineTime p <= MaxInt64.
Definition global_ok (g : SNMPv3GlobalData) : Prop :=
  0 <= MsgID g <= MaxInt64 /\ 0 <= MsgMaxSize g <= MaxInt64 /\ is_byte (MsgFlags g) /\ 0 <= MsgSecurityModel g <= MaxInt64.

Lemma parseUSM_encode p :
  params_ok p -> len (encodeUSMSecurityParameters p) <= MaxInt32 ->
  parseUSMSecurityParameters (encodeUSMSecurityParameters p) = Ok (p, true).
Proof.
  intros [Hb Ht] Hl. set (data := encodeUSMSecurityParameters p) in *.
  pose proof (holds_at_self data) as H. unfold data at 2, encodeUSMSecurityParameters in H. rewrite encodeSequence_tlv in H.
  pose proof (holds_at_bounds _ _ _ H) as Hbd. pose proof (len_tlv_pos ASN1_SEQUENCE (encodeOctetString (AuthoritativeEngineID p) ++
    encodeInteger (AuthoritativeEngineBoots p) ++ encodeInteger (AuthoritativeEngineTime p) ++ encodeOctetString (UserName p) ++
    encodeOctetString (AuthParams p) ++ encodeOctetString (PrivParams p))) as Hp.
  unfold parseUSMSecurityParameters. replace (len data =? 0) with false by lia.
  rewrite (holds_at_tag _ _ _ _ H), Z.eqb_refl. cbn [res_bind negb]. change 1 with (0 + 1).
  rewrite (holds_at_length _ _ _ _ H) by (by eapply holds_at_fits). cbn [res_bind].
  match goal with |- context [len ?c =? -1] => pose proof (len_nonneg c); replace (len c =? -1) with false by lia end.
  pose proof (holds_at_body _ _ _ _ H) as H1. clearbody data. clear H.
  apply holds_at_app in H1 as [H1 H2]. apply holds_at_app in H2 as [H2 H3]. apply holds_at_app in H3 as [H3 H4].
  apply holds_at_app in H4 as [H4 H5]. apply holds_at_app in H5 as [H5 H6].
  assert (Hos : forall pos c, holds_at data pos (encodeOctetString c) -> len c <= MaxInt32)
    by (intros pos c Hc; rewrite encodeOctetString_tlv in Hc; by eapply holds_at_fits).
  rewrite (parseOctetString_at _ _ _ (Hos _ _ H1) H1). cbn [res_bind].
  rewrite (parseInteger_at _ _ _ Hb H2). cbn [res_bind]. rewrite (parseInteger_at _ _ _ Ht H3). cbn [res_bind].
  rewrite (parseOctetString_at _ _ _ (Hos _ _ H4) H4). cbn [res_bind].
  rewrite (parseOctetString_at _ _ _ (Hos _ _ H5) H5). cbn [res_bind].
  rewrite (parseOctetString_at _ _ _ (Hos _ _ H6) H6). cbn [res_bind]. by destruct p.
Qed.

Lemma v3_version_at data pos v :
  wire_int v -> holds_at data pos (encodeInteger v) ->
  v3_version data pos = Ok (Some (v, pos + len (encodeInteger v))).
Proof.
  intros Hv H. rewrite encodeInteger_tlv in *. unfold v3_version.
  rewrite (holds_at_tag _ _ _ _ H), Z.eqb_refl. cbn [res_bind negb].
  rewrite (holds_at_length _ _ _ _ H) by by apply integerBody_MaxInt32. cbn [res_bind].
  pose proof (len_nonneg (integerBody v)). case_if; [lia|].
  rewrite holds_at_int by (done || by apply holds_at_body in H). cbn [res_bind negb]. rewrite len_tlv. do 3 f_equal. lia.
Qed.

Lemma v3_global_at data pos g :
  global_ok g -> holds_at data pos (globalContents g) -> v3_global data pos = Ok (Some (g, pos + len (globalContents g))).
Proof.
  intros (H1 & H2 & Hf & H3) H. unfold globalContents in H.
  apply holds_at_app in H as [Ha H]. apply holds_at_app in H as [Hb H]. apply holds_at_app in H as [Hc Hd].
  unfold v3_global. rewrite (parseInteger_at _ _ _ H1 Ha). cbn [res_bind]. rewrite (parseInteger_at _ _ _ H2 Hb). cbn [res_bind].
  rewrite encodeOctetString_tlv in Hc, Hd. rewrite (holds_at_tag _ _ _ _ Hc), Z.eqb_refl. cbn [res_bind negb].
  rewrite (holds_at_length _ _ _ _ Hc) by (unfold len, MaxInt32; cbn; lia). cbn [res_bind].
  change (len [MsgFlags g]) with 1 in *. cbn [Z.eqb negb Pos.eqb].
  pose proof (holds_at_body _ _ _ _ Hc) as He. change (len [MsgFlags g]) with 1 in He. pose proof (holds_at_bounds _ _ _ He) as Hbd.
  change (len [MsgFlags g]) with 1 in Hbd. case_if; [lia|]. rewrite (holds_at_index _ _ _ _ He). cbn [res_bind].
  rewrite len_tlv in Hd. change (len [MsgFlags g]) with 1 in Hd. rewrite Z.add_assoc in Hd.
  rewrite (parseInteger_at _ _ _ H3 Hd). cbn [res_bind].
  unfold globalContents. rewrite !encodeInteger_tlv, encodeOctetString_tlv, !len_app, !len_tlv. change (len [MsgFlags g]) with 1.
  destruct g. cbn [MsgID MsgMaxSize MsgFlags MsgSecurityModel]. do 3 f_equal. lia.
Qed.

Lemma v3_security_at data pos p :
  params_ok p -> len data <= MaxInt32 -> holds_at data pos (encodeOctetString (encodeUSMSecurityParameters p)) ->
  v3_security data pos = Ok (Some (p, pos + len (encodeOctetString (encodeUSMSecurityParameters p)))).
Proof.
  intros Hp Hl H. rewrite encodeOctetString_tlv in *. pose proof (holds_at_fits _ _ _ _ Hl H) as Hu.
  assert (Hpos : 0 < len (encodeUSMSecurityParameters p)).
  { unfold encodeUSMSecurityParameters. rewrite encodeSequence_tlv. match goal with |- _ < len (tlv ?t ?c) => pose proof (len_tlv_pos t c) end. lia. }
  pose proof (parseUSM_encode p Hp Hu) as Hparse. generalize dependent (encodeUSMSecurityParameters p). intros usm H Hu Hpos Hparse.
  pose proof (holds_at_body _ _ _ _ H) as Hb. pose proof (holds_at_bounds _ _ _ H) as Hbd. pose proof (holds_at_bounds _ _ _ Hb).
  rewrite len_tlv in *. pose proof (hlen_pos (len usm)).
  unfold v3_security. case_if; [lia|]. rewrite (holds_at_index _ _ _ _ H). cbn [res_bind].
  change (negb (ASN1_OCTET_STRING =? ASN1_OCTET_STRING)) with false. cbv iota.
  rewrite (holds_at_length _ _ _ _ H) by done. cbn [res_bind]. case_if; [lia|]. case_if; [|lia]. case_if; [lia|].
  rewrite (holds_at_slice _ _ _ Hb). cbn [res_bind]. rewrite Hparse. cbn [res_bind]. do 3 f_equal. lia.
Qed.

Lemma v3_scoped_at data pos tag pdu :
  len data <= MaxInt32 -> tag = ASN1_OCTET_STRING \/ tag = ASN1_SEQUENCE -> holds_at data pos (tlv tag pdu) ->
  v3_scoped data pos = Ok (Some pdu).
Proof.
  intros Hl Ht H. pose proof (holds_at_fits _ _ _ _ Hl H) as Hu. pose proof (holds_at_body _ _ _ _ H) as Hb.
  pose proof (holds_at_bounds _ _ _ H) as Hbd. pose proof (holds_at_bounds _ _ _ Hb). pose proof (len_tlv_pos tag pdu).
  pose proof (len_nonneg pdu). unfold v3_scoped. case_if; [lia|]. rewrite (holds_at_index _ _ _ _ H). cbn [res_bind].
  replace ((tag =? ASN1_OCTET_STRING) || (tag =? ASN1_SEQUENCE)) with true by (unfold ASN1_OCTET_STRING, ASN1_SEQUENCE in *; lia).
  rewrite (holds_at_length _ _ _ _ H) by done. cbn [res_bind]. case_if; [lia|]. by rewrite (holds_at_slice _ _ _ Hb).
Qed.

Lemma encodeInteger_len v : wire_int v -> 3 <= len (encodeInteger v).
Proof. intros Hv. rewrite encodeInteger_tlv, len_tlv. pose proof (integerBody_len v Hv). pose proof (hlen_pos (len (integerBody v))). lia. Qed.

(** How a message carries its scoped PDU: as it stands when it is a SEQUENCE,
    inside an OCTET STRING when the privacy flag is set. *)
Definition encrypted (g : SNMPv3GlobalData) : bool := negb (Z.land (MsgFlags g) SNMPV3_MSG_FLAG_PRIV =? 0).
Definition carries (g : SNMPv3GlobalData) (scopedPDU contents : bytes) : Prop :=
  scopedPDU = if encrypted g then contents else encodeSequence contents.

Lemma parseSNMPv3Message_encode g p scopedPDU contents sp :
  let data := encodeSNMPv3Message {| msgVersion := SNMPV3_VERSION; GlobalData := g; SecurityParams := sp; ScopedPDU := scopedPDU |}
                                  (encodeUSMSecurityParameters p) in
  global_ok g -> params_ok p -> carries g scopedPDU contents -> len data <= MaxInt32 ->
  parseSNMPv3Message data = Ok (Some {| msgVersion := SNMPV3_VERSION; GlobalData := g; SecurityParams := p; ScopedPDU := contents |}) /\
  isSNMPv3Request data = Ok true.
Proof.
  intros data Hg Hp Hc Hl.
  assert (Hd : exists tag, (tag = ASN1_OCTET_STRING \/ tag = ASN1_SEQUENCE) /\ holds_at data 0 (tlv ASN1_SEQUENCE
    (encodeInteger SNMPV3_VERSION ++ tlv ASN1_SEQUENCE (globalContents g) ++
     encodeOctetString (encodeUSMSecurityParameters p) ++ tlv tag contents))).
  { unfold carries, encrypted in Hc. unfold data, encodeSNMPv3Message. cbn [GlobalData ScopedPDU msgVersion].
    destruct (negb _); [exists ASN1_OCTET_STRING|exists ASN1_SEQUENCE]; subst; (split; [tauto|]); rewrite !encodeSequence_tlv, ?encodeOctetString_tlv; apply holds_at_self. }
  destruct Hd as (tag & Htag & H). clearbody data. clear Hc.
  pose proof (holds_at_body _ _ _ _ H) as H1. apply holds_at_app in H1 as [H1 H2].
  apply holds_at_app in H2 as [H2 H3]. apply holds_at_app in H3 as [H3 H4]. pose proof (holds_at_body _ _ _ _ H2) as H5.
  pose proof (holds_at_bounds _ _ _ H4) as Hbd. pose proof (holds_at_bounds _ _ _ H5) as Hbd5.
  assert (Hlen : 20 <= len data).
  { destruct Hg as (I1 & I2 & _ & I3).
    assert (Hgl : len (globalContents g) = len (encodeInteger (MsgID g)) + (len (encodeInteger (MsgMaxSize g)) +
      (len (encodeOctetString [MsgFlags g]) + len (encodeInteger (MsgSecurityModel g))))) by (unfold globalContents; by rewrite !len_app).
    pose proof (encodeInteger_len (MsgID g) ltac:(unfold wire_int; lia)). pose proof (encodeInteger_len (MsgMaxSize g) ltac:(unfold wire_int; lia)).
    pose proof (encodeInteger_len (MsgSecurityModel g) ltac:(unfold wire_int; lia)).
    pose proof (encodeInteger_len SNMPV3_VERSION ltac:(unfold wire_int, SNMPV3_VERSION, MaxInt64; lia)).
    pose proof (len_tlv_pos tag contents). pose proof (len_tlv_pos ASN1_OCTET_STRING (encodeUSMSecurityParameters p)) as Hu.
    rewrite <- encodeOctetString_tlv in Hu. pose proof (len_tlv ASN1_SEQUENCE (globalContents g)).
    pose proof (hlen_pos (len (globalContents g))). pose proof (len_tlv_pos ASN1_OCTET_STRING [MsgFlags g]) as Hfl. rewrite <- encodeOctetString_tlv in Hfl.
    match goal with _ : context [0 + hlen ?n] |- _ => pose proof (hlen_pos n) end. lia. }
  assert (Hv : wire_int SNMPV3_VERSION) by (unfold wire_int, SNMPV3_VERSION, MaxInt64; lia).
  split.
  - unfold parseSNMPv3Message. case_if; [lia|]. rewrite (holds_at_index _ _ _ _ H). cbn [res_bind].
    change (negb (ASN1_SEQUENCE =? ASN1_SEQUENCE)) with false. cbv iota. change 1 with (0 + 1).
    rewrite (holds_at_length _ _ _ _ H) by (by eapply holds_at_fits). cbn [res_bind].
    rewrite (v3_version_at _ _ _ Hv H1). cbn [res_bind]. change (negb (SNMPV3_VERSION =? SNMPV3_VERSION)) with false. cbv iota.
    rewrite (holds_at_tag _ _ _ _ H2), Z.eqb_refl. cbn [res_bind negb].
    rewrite (holds_at_length _ _ _ _ H2) by (by eapply holds_at_fits). cbn [res_bind].
    rewrite (v3_global_at _ _ _ Hg H5). cbn [res_bind].
    rewrite <- (Z.add_assoc _ (hlen (len (globalContents g)))), <- (len_tlv ASN1_SEQUENCE).
    rewrite (v3_security_at _ _ _ Hp Hl H3). cbn [res_bind]. by rewrite (v3_scoped_at _ _ _ _ Hl Htag H4).
  - unfold isSNMPv3Request. case_if; [lia|]. rewrite (holds_at_index _ _ _ _ H). cbn [res_bind].
    change (negb (ASN1_SEQUENCE =? ASN1_SEQUENCE)) with false. cbv iota. change 1 with (0 + 1).
    rewrite (holds_at_length _ _ _ _ H) by (by eapply holds_at_fits). cbn [res_bind].
    match goal with |- context [len ?c =? -1] => pose proof (len_nonneg c); replace (len c =? -1) with false by lia end.
    by rewrite (v3_version_at _ _ _ Hv H1).
Qed.

(** ** Reading the scoped PDU of a manager *)

Lemma slice_all (data : bytes) n : n = len data -> slice data 0 n = Ok data.
Proof. intros ->. unfold slice. pose proof (len_nonneg data). case_if; [lia|]. rewrite drop_0, take_ge by (unfold len; lia). done. Qed.

Lemma scoped_field_at data pos end_ tag body :
  len body <= MaxInt32 -> holds_at data pos (tlv tag body) -> pos + len (tlv tag body) <= end_ ->
  scoped_field data pos end_ tag = Ok (ListParsed (pos + len (tlv tag body))).
Proof.
  intros Hl H He. pose proof (len_tlv_pos tag body). unfold scoped_field. case_if; [lia|].
  rewrite (holds_at_index _ _ _ _ H). cbn [res_bind]. rewrite Z.eqb_refl. cbn [negb].
  rewrite (holds_at_length _ _ _ _ H) by done. cbn [res_bind]. rewrite len_tlv in *. pose proof (len_nonneg body).
  case_if; [lia|]. case_if; [lia|]. do 2 f_equal. lia.
Qed.

Lemma bounded_int_at data pos end_ v :
  wire_int v -> holds_at data pos (encodeInteger v) -> pos + len (encodeInteger v) <= end_ ->
  bounded_int data pos end_ = Ok (Some (pos + hlen (len (integerBody v)), len (integerBody v))).
Proof.
  intros Hv H He. rewrite encodeInteger_tlv in *. pose proof (len_tlv_pos ASN1_INTEGER (integerBody v)).
  pose proof (integerBody_MaxInt32 v Hv). pose proof (len_nonneg (integerBody v)).
  unfold bounded_int. case_if; [lia|]. rewrite (holds_at_index _ _ _ _ H). cbn [res_bind].
  change (negb (ASN1_INTEGER =? ASN1_INTEGER)) with false. cbv iota.
  rewrite (holds_at_length _ _ _ _ H) by done. cbn [res_bind]. rewrite len_tlv in *. case_if; [lia|done].
Qed.

Lemma nonneg_param_at data pos v d :
  0 <= v <= MaxInt64 -> holds_at data pos (integerBody v) -> nonneg_param data pos (len (integerBody v)) d = Ok v.
Proof.
  intros Hv H. unfold nonneg_param. rewrite holds_at_int by (done || lia). cbn [res_bind andb].
  by replace (0 <=? v) with true by lia.
Qed.

Section scoped.
  Context (engineID contextName : bytes) (tag id a b : Z) (vbs : list (list Z * Z * bytes)).
Let binds := encodeSequence (bindsOf vbs).
Let pduBody := encodeInteger id ++ encodeInteger a ++ encodeInteger b ++ binds.
Let pdu := requestPDU tag id a b (bindsOf vbs).
Let data := scopedContents engineID contextName pdu.
  Hypothesis Hlen : len data <= MaxInt32.
  Hypothesis Htag : servedPDUTag tag = true.
  Hypothesis Hid : wire_int id.
  Hypothesis Ha : wire_int a.
  Hypothesis Hb : wire_int b.
  Hypothesis Hvbs : Forall (fun vb => arcs_fit (fst (fst vb))) vbs.

Let q1 := 0 + len (encodeOctetString engineID).
Let q2 := q1 + len (encodeOctetString contextName).
Let q3 := q2 + hlen (len pduBody).
Let q4 := q3 + len (encodeInteger id).
Let q5 := q4 + len (encodeInteger a).
Let q6 := q5 + len (encodeInteger b).

Lemma scoped_layout :
  holds_at data 0 (tlv ASN1_OCTET_STRING engineID) /\ holds_at data q1 (tlv ASN1_OCTET_STRING contextName) /\
  holds_at data q2 (tlv tag pduBody) /\ holds_at data q3 (encodeInteger id) /\ holds_at data q4 (encodeInteger a) /\
  holds_at data q5 (encodeInteger b) /\ holds_at data q6 binds /\
  len data = q2 + len (tlv tag pduBody) /\ q3 + len pduBody = len data /\ q6 + len binds = len data /\
  0 <= q1 /\ 0 <= q2 /\ q2 + 2 <= q3 /\ 2 <= len binds.
Proof.
  pose proof (holds_at_self data) as H. unfold data at 2, scopedContents in H.
  apply holds_at_app in H as [H0 H]. apply holds_at_app in H as [H1 H2]. fold q1 in H1, H2. fold q2 in H2.
  change pdu with (tlv tag pduBody) in H2. pose proof (holds_at_body _ _ _ _ H2) as H3. fold q3 in H3.
  apply holds_at_app in H3 as [H3 H4]. fold q4 in H4. apply holds_at_app in H4 as [H4 H5]. fold q5 in H5.
  apply holds_at_app in H5 as [H5 H6]. fold q6 in H6. rewrite encodeOctetString_tlv in H0, H1.
  assert (Hd : len data = q2 + len (tlv tag pduBody)) by (unfold data, scopedContents, q2, q1; rewrite !len_app; change pdu with (tlv tag pduBody); lia).
  pose proof (len_tlv tag pduBody) as Ht. pose proof (hlen_pos (len pduBody)).
  assert (Hp : len pduBody = len (encodeInteger id) + (len (encodeInteger a) + (len (encodeInteger b) + len binds)))
    by (unfold pduBody; by rewrite !len_app).
  pose proof (len_nonneg (encodeOctetString engineID)). pose proof (len_nonneg (encodeOctetString contextName)).
  pose proof (len_tlv_pos ASN1_SEQUENCE (bindsOf vbs)) as Hbl. rewrite <- encodeSequence_tlv in Hbl. fold binds in Hbl.
  split_and!; first [done|unfold q6, q5, q4, q3, q2, q1 in *; lia].
Qed.

Lemma scoped_len : 10 <= len data.
Proof.
  destruct scoped_layout as (_ & _ & _ & _ & _ & _ & _ & _ & Hd & Hq & H1 & H2 & H3 & H4).
  pose proof (encodeInteger_len id Hid). pose proof (encodeInteger_len a Ha). pose proof (encodeInteger_len b Hb).
  unfold q6, q5, q4 in Hq. lia.
Qed.

(** Both context fields skipped, by each of the three skippers. *)
Lemma scoped_contexts : scoped_fields 2 data 0 (len data) ASN1_OCTET_STRING = Ok (ListParsed q2).
Proof.
  destruct scoped_layout as (H0 & H1 & H2 & _ & _ & _ & _ & _ & _ & _ & _).
  cbn [scoped_fields]. rewrite (scoped_field_at _ _ _ _ _ (holds_at_fits _ _ _ _ Hlen H0) H0) by apply (holds_at_bounds _ _ _ H0). cbn [res_bind].
  rewrite <- encodeOctetString_tlv. fold q1.
  rewrite (scoped_field_at _ _ _ _ _ (holds_at_fits _ _ _ _ Hlen H1) H1) by apply (holds_at_bounds _ _ _ H1). cbn [res_bind].
  by rewrite <- encodeOctetString_tlv.
Qed.

Lemma scoped_ints : scoped_fields 3 data q3 (len data) ASN1_INTEGER = Ok (ListParsed q6).
Proof.
  destruct scoped_layout as (_ & _ & _ & H3 & H4 & H5 & _). cbn [scoped_fields].
  rewrite encodeInteger_tlv in H3. rewrite (scoped_field_at _ _ _ _ _ (holds_at_fits _ _ _ _ Hlen H3) H3) by apply (holds_at_bounds _ _ _ H3).
  cbn [res_bind]. rewrite <- encodeInteger_tlv. fold q4. rewrite encodeInteger_tlv in H4.
  rewrite (scoped_field_at _ _ _ _ _ (holds_at_fits _ _ _ _ Hlen H4) H4) by apply (holds_at_bounds _ _ _ H4).
  cbn [res_bind]. rewrite <- encodeInteger_tlv. fold q5. rewrite encodeInteger_tlv in H5.
  rewrite (scoped_field_at _ _ _ _ _ (holds_at_fits _ _ _ _ Hlen H5) H5) by apply (holds_at_bounds _ _ _ H5).
  cbn [res_bind]. by rewrite <- encodeInteger_tlv.
Qed.

Lemma scopedListPos_at : scopedPDUVarBindListPos data = Ok (ListParsed (data, q6)).
Proof.
  destruct scoped_layout as (_ & _ & H2 & _ & _ & _ & H6 & Hd & Hp & Hq & Hq1 & Hq2 & Hq3 & Hbl).
  pose proof (len_nonneg pduBody). pose proof (len_nonneg (encodeInteger id)).
  unfold scopedPDUVarBindListPos. rewrite scoped_contexts. cbn [res_bind]. case_if; [lia|].
  rewrite (holds_at_length _ _ _ _ H2 (holds_at_fits _ _ _ _ Hlen H2)). cbn [res_bind]. fold q3.
  case_if; [lia|]. case_if; [lia|]. rewrite Hp, scoped_ints. cbn [res_bind].
  case_if; [lia|]. unfold binds in H6, Hq. rewrite encodeSequence_tlv in H6, Hq. rewrite (holds_at_index _ _ _ _ H6). cbn [res_bind].
  change (negb (ASN1_SEQUENCE =? ASN1_SEQUENCE)) with false. cbv iota.
  rewrite (holds_at_length _ _ _ _ H6 (holds_at_fits _ _ _ _ Hlen H6)). cbn [res_bind]. rewrite len_tlv in Hq.
  pose proof (len_nonneg (bindsOf vbs)).
  match goal with |- context [if ?c then _ else _] => replace c with false by lia end.
  by rewrite slice_all by done.
Qed.

Lemma parseSetVarBinds_at : parseSetVarBindsFromScopedPDU data = Ok (ListParsed (map vbOf vbs, bindsOf vbs)).
Proof.
  destruct scoped_layout as (_ & _ & _ & _ & _ & _ & H6 & _). unfold parseSetVarBindsFromScopedPDU.
  rewrite scopedListPos_at. cbn [res_bind]. by apply parseVarBinds_at.
Qed.

Lemma parseAllOIDs_at : bytes_ok data -> parseAllOIDsFromScopedPDU data = Ok (map (fun vb => dotted (fst (fst vb))) vbs, true).
Proof.
  intros Hok. destruct scoped_layout as (_ & _ & _ & _ & _ & _ & H6 & _). unfold parseAllOIDsFromScopedPDU.
  rewrite scopedListPos_at. cbn [res_bind]. rewrite parseVarBindNames_spec by (try done; apply holds_at_bounds in H6; lia).
  rewrite (parseVarBinds_at _ _ vbs) by done. cbn [res_bind]. do 2 f_equal. rewrite map_map. apply map_ext. by intros [[? ?] ?].
Qed.

Lemma parseSNMPv3GetBulkParams_at :
  tag = ASN1_GET_BULK -> 0 <= a -> 0 <= b -> parseSNMPv3GetBulkParams data = Ok (a, b).
Proof.
  intros Ht Ha0 Hb0. destruct scoped_layout as (_ & _ & H2 & H3 & H4 & H5 & _ & Hd & Hp & Hq & Hq1 & Hq2 & Hq3 & Hbl).
  pose proof (len_nonneg pduBody).
  unfold parseSNMPv3GetBulkParams. rewrite scoped_contexts. cbn [res_bind].
  rewrite (holds_at_tag _ _ _ _ H2). replace (tag =? ASN1_GET_BULK) with true by lia. cbn [res_bind negb].
  rewrite (holds_at_length _ _ _ _ H2 (holds_at_fits _ _ _ _ Hlen H2)). cbn [res_bind]. fold q3. case_if; [lia|]. rewrite Hp.
  rewrite (bounded_int_at _ _ _ _ Hid H3) by apply (holds_at_bounds _ _ _ H3). cbn [res_bind].
  rewrite <- (Z.add_assoc q3), <- (len_tlv ASN1_INTEGER), <- encodeInteger_tlv. fold q4.
  rewrite (bounded_int_at _ _ _ _ Ha H4) by apply (holds_at_bounds _ _ _ H4). cbn [res_bind].
  rewrite nonneg_param_at by first [unfold wire_int in *; lia|by eapply holds_at_body, H4]. cbn [res_bind].
  rewrite <- (Z.add_assoc q4), <- (len_tlv ASN1_INTEGER), <- encodeInteger_tlv. fold q5.
  rewrite (bounded_int_at _ _ _ _ Hb H5) by apply (holds_at_bounds _ _ _ H5). cbn [res_bind].
  by rewrite nonneg_param_at by first [unfold wire_int in *; lia|by eapply holds_at_body, H5].
Qed.

Lemma extractRequestID_at : extractRequestIDFromScopedPDU data = Ok (unsignedOf id).
Proof.
  destruct scoped_layout as (H0 & H1 & H2 & H3 & _ & _ & _ & Hd & Hp & Hq & Hq1 & Hq2 & Hq3 & Hbl).
  pose proof scoped_len. pose proof (len_nonneg pduBody).
  unfold extractRequestIDFromScopedPDU. case_if; [lia|].
  assert (Hskip : forall pos c, holds_at data pos (tlv ASN1_OCTET_STRING c) -> skip_context data pos = Ok (Some (pos + len (tlv ASN1_OCTET_STRING c)))).
  { intros pos c Hc. unfold skip_context. rewrite (holds_at_tag _ _ _ _ Hc), Z.eqb_refl. cbn [res_bind].
    rewrite (holds_at_length _ _ _ _ Hc (holds_at_fits _ _ _ _ Hlen Hc)). cbn [res_bind]. pose proof (len_nonneg c).
    case_if; [lia|]. rewrite len_tlv. do 2 f_equal. lia. }
  rewrite (Hskip _ _ H0). cbn [res_bind]. rewrite <- encodeOctetString_tlv. fold q1.
  rewrite (Hskip _ _ H1). cbn [res_bind]. rewrite <- encodeOctetString_tlv. fold q2. clear Hskip.
  case_if; [lia|]. rewrite (holds_at_index _ _ _ _ H2). cbn [res_bind]. rewrite Htag. cbn [negb].
  rewrite (holds_at_length _ _ _ _ H2 (holds_at_fits _ _ _ _ Hlen H2)). cbn [res_bind]. fold q3. case_if; [lia|].
  pose proof (encodeInteger_len id Hid). pose proof (holds_at_bounds _ _ _ H3). case_if; [lia|].
  rewrite encodeInteger_tlv in H3. rewrite (holds_at_index _ _ _ _ H3). cbn [res_bind].
  change (negb (ASN1_INTEGER =? ASN1_INTEGER)) with false. cbv iota.
  rewrite slice_all by lia. cbn [res_bind]. by rewrite (parseInteger_any _ _ _ Hid H3).
Qed.

Lemma extractOID_at arcs t c rest :
  vbs = (arcs, t, c) :: rest -> extractOIDAndTypeFromScopedPDU data = Ok (Some (dotted arcs, tag)).
Proof.
  intros Hv. destruct scoped_layout as (H0 & H1 & H2 & H3 & H4 & H5 & H6 & Hd & Hp & Hq & Hq1 & Hq2 & Hq3 & Hbl).
  pose proof scoped_len. pose proof (len_nonneg pduBody).
  assert (Hfit : arcs_fit arcs) by (pose proof Hvbs as Hf; rewrite Hv in Hf; by apply Forall_cons_1 in Hf as [? _]).
  unfold extractOIDAndTypeFromScopedPDU. case_if; [lia|].
  rewrite (skip_field_at _ _ _ _ (holds_at_fits _ _ _ _ Hlen H0) H0). cbn [res_bind]. rewrite <- encodeOctetString_tlv. fold q1.
  rewrite (skip_field_at _ _ _ _ (holds_at_fits _ _ _ _ Hlen H1) H1). cbn [res_bind]. rewrite <- encodeOctetString_tlv. fold q2.
  case_if; [lia|]. rewrite (holds_at_index _ _ _ _ H2). cbn [res_bind]. rewrite Htag. cbn [negb].
  rewrite (holds_at_length _ _ _ _ H2 (holds_at_fits _ _ _ _ Hlen H2)). cbn [res_bind skip_ints]. fold q3.
  rewrite encodeInteger_tlv in H3, H4, H5.
  rewrite (skip_field_at _ _ _ _ (holds_at_fits _ _ _ _ Hlen H3) H3). cbn [res_bind]. rewrite <- encodeInteger_tlv. fold q4.
  rewrite (skip_field_at _ _ _ _ (holds_at_fits _ _ _ _ Hlen H4) H4). cbn [res_bind]. rewrite <- encodeInteger_tlv. fold q5.
  rewrite (skip_field_at _ _ _ _ (holds_at_fits _ _ _ _ Hlen H5) H5). cbn [res_bind]. rewrite <- encodeInteger_tlv. fold q6.
  unfold binds in H6. rewrite Hv in H6. change (bindsOf ((arcs, t, c) :: rest)) with (bindOf (arcs, t, c) ++ bindsOf rest) in H6.
  rewrite bindOf_tlv, encodeSequence_tlv in H6 by done. clear - H6 Hlen Hfit.
  pose proof (holds_at_body _ _ _ _ H6) as H7. apply holds_at_app in H7 as [H7 _].
  pose proof (holds_at_body _ _ _ _ H7) as H8. apply holds_at_app in H8 as [H8 _]. pose proof (holds_at_body _ _ _ _ H8) as H9.
  rewrite (holds_at_tag _ _ _ _ H6). change (ASN1_SEQUENCE =? ASN1_SEQUENCE) with true. cbn [res_bind negb].
  rewrite (holds_at_length _ _ _ _ H6 (holds_at_fits _ _ _ _ Hlen H6)). cbn [res_bind].
  rewrite (holds_at_tag _ _ _ _ H7). change (ASN1_SEQUENCE =? ASN1_SEQUENCE) with true. cbn [res_bind negb].
  rewrite (holds_at_length _ _ _ _ H7 (holds_at_fits _ _ _ _ Hlen H7)). cbn [res_bind].
  rewrite (holds_at_tag _ _ _ _ H8). change (ASN1_OID =? ASN1_OBJECT_ID) with true. cbn [res_bind negb].
  rewrite (holds_at_length _ _ _ _ H8 (holds_at_fits _ _ _ _ Hlen H8)). cbn [res_bind].
  pose proof (holds_at_bounds _ _ _ H9). pose proof (len_nonneg (oidBody arcs)). case_if; [lia|].
  rewrite (holds_at_slice _ _ _ H9). cbn [res_bind]. destruct Hfit as [Hok ?]. by rewrite decodeOID_oidBody, beq_dotted.
Qed.
End scoped.

(** ** Theorems *)

(** No datagram can take the agent down in its v3 readers.  On arbitrary
    octets the classifier and the message parser return, and on whatever octets
    a message, or a decryption under a wrong key, puts into the scoped PDU the
    five readers of the scoped PDU return, with no out-of-range read. *)
Theorem v3_readers_safe data pdu :
  bytes_ok data -> bytes_ok pdu ->
  safe (isSNMPv3Request data) /\ safe (parseSNMPv3Message data) /\
  safe (extractOIDAndTypeFromScopedPDU pdu) /\ safe (parseAllOIDsFromScopedPDU pdu) /\
  safe (parseSetVarBindsFromScopedPDU pdu) /\ safe (parseSNMPv3GetBulkParams pdu) /\ safe (extractRequestIDFromScopedPDU pdu).
Proof.
  intros Hd Hp. split_and!.
  - by apply isSNMPv3Request_safe.
  - by apply parseSNMPv3Message_wp.
  - by apply extractOID_wp.
  - by apply parseAllOIDsFromScopedPDU_wp.
  - by apply parseSetVarBinds_safe.
  - by apply parseSNMPv3GetBulkParams_wp.
  - by apply extractRequestID_safe.
Qed.

Lemma v3_readers_safe_witness :
  safe (isSNMPv3Request [0x30; 0x84; 0xff]) /\ safe (parseSNMPv3Message [0x30; 0x84; 0xff]) /\
  safe (extractOIDAndTypeFromScopedPDU [4; 0x82; 0xff; 0xff]) /\ safe (parseAllOIDsFromScopedPDU [4; 0x82; 0xff; 0xff]) /\
  safe (parseSetVarBindsFromScopedPDU [4; 0x82; 0xff; 0xff]) /\ safe (parseSNMPv3GetBulkParams [4; 0x82; 0xff; 0xff]) /\
  safe (extractRequestIDFromScopedPDU [4; 0x82; 0xff; 0xff]).
Proof. apply (v3_readers_safe [0x30; 0x84; 0xff] [4; 0x82; 0xff; 0xff]); solve_bytes. Defined.

(** The v3 message parser inverts the message encoder.  For every global
    data and USM parameters a message can carry, with the scoped PDU in the clear
    or, under the privacy flag, as ciphertext, the datagram is classified as v3
    and reads back field for field, the scoped PDU as the contents that were put
    in. *)
Theorem v3_message_roundtrip g p scopedPDU contents sp :
  let data := encodeSNMPv3Message {| msgVersion := SNMPV3_VERSION; GlobalData := g; SecurityParams := sp; ScopedPDU := scopedPDU |}
                                  (encodeUSMSecurityParameters p) in
  global_ok g -> params_ok p -> carries g scopedPDU contents -> len data <= MaxInt32 ->
  isSNMPv3Request data = Ok true /\
  parseSNMPv3Message data = Ok (Some {| msgVersion := SNMPV3_VERSION; GlobalData := g; SecurityParams := p; ScopedPDU := contents |}).
Proof. intros data Hg Hp Hc Hl. by destruct (parseSNMPv3Message_encode g p scopedPDU contents sp Hg Hp Hc Hl). Qed.

Definition sampleGlobal (flags : Z) : SNMPv3GlobalData :=
  {| MsgID := 4711; MsgMaxSize := 65507; MsgFlags := flags; MsgSecurityModel := SNMPV3_SECURITY_MODEL_USM |}.
Definition sampleParams : SNMPv3SecurityParams :=
  {| AuthoritativeEngineID := [0x80; 0; 0x1f; 0x88; 0x80]; AuthoritativeEngineBoots := 1; AuthoritativeEngineTime := 300;
     UserName := str "ops"; AuthParams := repeat 0 12; PrivParams := [] |}.

Lemma v3_message_roundtrip_witness :
  let data := encodeSNMPv3Message {| msgVersion := SNMPV3_VERSION; GlobalData := sampleGlobal 3; SecurityParams := noParams; ScopedPDU := [9; 8; 7] |}
                                  (encodeUSMSecurityParameters sampleParams) in
  isSNMPv3Request data = Ok true /\
  parseSNMPv3Message data = Ok (Some {| msgVersion := SNMPV3_VERSION; GlobalData := sampleGlobal 3; SecurityParams := sampleParams; ScopedPDU := [9; 8; 7] |}).
Proof.
  apply (v3_message_roundtrip (sampleGlobal 3) sampleParams [9; 8; 7] [9; 8; 7] noParams).
  - unfold global_ok, is_byte, MaxInt64. cbn. unfold SNMPV3_SECURITY_MODEL_USM. lia.
  - unfold params_ok, MaxInt64. cbn. lia.
  - reflexivity.
  - vm_compute. discriminate.
Defined.



(** A negative request-id is not echoed: the reader takes its octets for an
    unsigned number, so the response answers a request the manager did not
    send.  The v1/v2c reader keeps the sign. *)
Lemma v3_negative_request_id engineID contextName tag id a b vbs :
  let pdu := scopedContents engineID contextName (requestPDU tag id a b (bindsOf vbs)) in
  len pdu <= MaxInt32 -> servedPDUTag tag = true -> - 2 ^ 32 <= id < 0 -> wire_int a -> wire_int b ->
  Forall (fun vb => arcs_fit (fst (fst vb))) vbs ->
  exists id', extractRequestIDFromScopedPDU pdu = Ok id' /\ 0 <= id'.
Proof.
  intros pdu Hl Ht Hid Ha Hb Hv. assert (Hw : wire_int id) by (unfold wire_int, MaxInt64; lia).
  exists (unsignedOf id). split; [by apply extractRequestID_at|].
  destruct (integerBody_unsigned id ltac:(unfold wire_int in Hw; lia)) as [Hok <-]. apply (be_val_bound _ Hok).
Qed.
