(* ===== verification/Usm.v ===== *)
(** * The User-based Security Model (snmpv3_usm.go, snmpv3_crypto.go)

    Keys, digests, the time window and privacy.  The hash functions, HMAC and the
    ciphers are the Go library's: they are the operations of the class [Crypto],
    and [CryptoLaws] states what their documentation promises (sizes, and that
    decrypting undoes encrypting).  On top of them the code localizes keys, finds
    the digest field of a message by walking its structure, signs, verifies,
    encrypts and decrypts.  The theorems show that what this agent signs verifies
    under the same key and that only the digest field is touched, that what
    verifies is exactly what carries its own digest, and that decryption with the
    parameters a message carries gives back the scoped PDU it was built from. *)

From stdpp Require Import gmap.
From S2P Require Import Prelude GoStrings Ber Oid Request SetReq V3Msg.

(** ** What the Go library provides *)

Inductive Hash := MD5 | SHA1.
#[export] Instance Hash_eq : EqDecision Hash.
Proof. solve_decision. Defined.

(** [md5.Size] and [sha1.Size]. *)
Definition hashSize (h : Hash) : Z := match h with MD5 => 16 | SHA1 => 20 end.

Class Crypto := {
  hash_sum : Hash -> bytes -> bytes;             (* everything written, then Sum(nil) *)
  hmac_sum : Hash -> bytes -> bytes -> bytes;    (* key, message *)
  des_cbc_encrypt : bytes -> bytes -> bytes -> bytes; (* key, iv, whole blocks *)
  des_cbc_decrypt : bytes -> bytes -> bytes -> bytes;
  aes_cfb_encrypt : bytes -> bytes -> bytes -> bytes;
  aes_cfb_decrypt : bytes -> bytes -> bytes -> bytes;
}.

Class CryptoLaws `{Crypto} : Prop := {
  hash_sum_len h m : len (hash_sum h m) = hashSize h;
  hmac_sum_len h k m : len (hmac_sum h k m) = hashSize h;
  hmac_sum_ok h k m : bytes_ok (hmac_sum h k m);
  des_cbc_inverse k iv m : bytes_ok m -> len m mod 8 = 0 -> des_cbc_decrypt k iv (des_cbc_encrypt k iv m) = m;
  des_cbc_len k iv m : len (des_cbc_encrypt k iv m) = len m;
  des_cbc_ok k iv m : bytes_ok (des_cbc_encrypt k iv m) /\ bytes_ok (des_cbc_decrypt k iv m);
  aes_cfb_inverse k iv m : bytes_ok m -> aes_cfb_decrypt k iv (aes_cfb_encrypt k iv m) = m;
  aes_cfb_len k iv m : len (aes_cfb_encrypt k iv m) = len m;
  aes_cfb_ok k iv m : bytes_ok (aes_cfb_encrypt k iv m) /\ bytes_ok (aes_cfb_decrypt k iv m);
}.

(** ** Configuration and derived state *)

Definition SNMPV3_AUTH_NONE : Z := 0.
Definition SNMPV3_AUTH_MD5 : Z := 1.
Definition SNMPV3_AUTH_SHA1 : Z := 2.
Definition SNMPV3_PRIV_NONE : Z := 0.
Definition SNMPV3_PRIV_DES : Z := 1.
Definition SNMPV3_PRIV_AES128 : Z := 2.
Definition usmAuthParamsLen : Z := 12.
Definition usmTimeWindowSeconds : Z := 150.

(** [EngineID] holds the octets [parseEngineIDOctets] makes of the configured
    text, its default included. *)
Record SNMPv3Config := {
  Enabled : bool;
  EngineID : bytes;
  Username : bytes;
  Password : bytes;
  AuthProtocol : Z;
  PrivProtocol : Z;
  PrivPassword : bytes;
}.

Record usmServerState := {
  engineID : bytes;
  authKey : bytes;
  privKey : bytes;
  newHash : option Hash;
  engineBoots : Z;
}.

Inductive configErr := PrivacyNeedsAuth | PrivacyNeedsPassword.
Definition Validate (c : option SNMPv3Config) : option configErr :=
  match c with
  | None => None
  | Some c =>
      if negb (Enabled c) || (PrivProtocol c =? SNMPV3_PRIV_NONE) then None
      else if AuthProtocol c =? SNMPV3_AUTH_NONE then Some PrivacyNeedsAuth
      else if beq (PrivPassword c) [] && beq (Password c) [] then Some PrivacyNeedsPassword
      else None
  end.

Definition usmHashFor (authProtocol : Z) : option Hash :=
  if authProtocol =? SNMPV3_AUTH_MD5 then Some MD5
  else if authProtocol =? SNMPV3_AUTH_SHA1 then Some SHA1
  else None.

Section Usm.
Context `{Crypto}.

(** ** Keys *)

(** The octet [i] of the password repeated for ever, and one buffer of 64. *)
Definition pwOctet (pw : bytes) (i : Z) : Z := nth (Z.to_nat (i mod len pw)) pw 0.
Definition pwBuffer (pw : bytes) (written : Z) : bytes := map (fun i => pwOctet pw (written + i)) (seqZ 0 64).
Fixpoint expand_loop (n : nat) (pw : bytes) (written : Z) : bytes :=
  match n with
  | O => []
  | S n' => pwBuffer pw written ++ expand_loop n' pw (written + 64)
  end.
Definition expandTo : Z := 1048576.
Definition expandPassword (pw : bytes) : bytes := expand_loop (Z.to_nat (expandTo / 64)) pw 0.

(** [usmKuCache]: by password and hash size, shared by every device. *)
Definition kuCache : Type := gmap (bytes * Z) bytes.

Definition usmPasswordToKey (cache : kuCache) (password : bytes) (h : option Hash) : bytes * kuCache :=
  match h with
  | None => ([], cache)
  | Some h =>
      if beq password [] then ([], cache) else
      match cache !! (password, hashSize h) with
      | Some ku => (ku, cache)
      | None => let ku := hash_sum h (expandPassword password) in (ku, <[(password, hashSize h) := ku]> cache)
      end
  end.

Definition usmLocalizeKey (ku engineID : bytes) (h : option Hash) : bytes :=
  match h with
  | None => []
  | Some h => if len ku =? 0 then [] else hash_sum h (ku ++ engineID ++ ku)
  end.

Definition usmState (cache : kuCache) (c : option SNMPv3Config) : usmServerState * kuCache :=
  match c with
  | None => ({| engineID := []; authKey := []; privKey := []; newHash := None; engineBoots := 1 |}, cache)
  | Some c =>
      match usmHashFor (AuthProtocol c) with
      | None => ({| engineID := EngineID c; authKey := []; privKey := []; newHash := None; engineBoots := 1 |}, cache)
      | Some h =>
          let '(ku, cache) := usmPasswordToKey cache (Password c) (Some h) in
          let authKey := usmLocalizeKey ku (EngineID c) (Some h) in
          if PrivProtocol c =? SNMPV3_PRIV_NONE then
            ({| engineID := EngineID c; authKey := authKey; privKey := []; newHash := Some h; engineBoots := 1 |}, cache)
          else
            let privPassword := if beq (PrivPassword c) [] then Password c else PrivPassword c in
            let '(ku, cache) := usmPasswordToKey cache privPassword (Some h) in
            ({| engineID := EngineID c; authKey := authKey; privKey := usmLocalizeKey ku (EngineID c) (Some h);
                newHash := Some h; engineBoots := 1 |}, cache)
      end
  end.

(** ** Authentication *)

(** [None] is a nil digest. *)
Definition usmAuthDigest (wholeMessage localizedAuthKey : bytes) (h : option Hash) : res (option bytes) :=
  match h with
  | None => Ok None
  | Some h =>
      if len localizedAuthKey =? 0 then Ok None else
      let! d := slice (hmac_sum h localizedAuthKey wholeMessage) 0 usmAuthParamsLen in
      Ok (Some d)
  end.

Definition usmZeroedAuthParams : bytes := repeat 0 (Z.to_nat usmAuthParamsLen).

(** The TLV at [pos] of [buf]: its tag and the bounds of its contents. *)
Definition readTLV (buf : bytes) (pos : Z) : res (option (Z * Z * Z)) :=
  if (pos <? 0) || (len buf <=? pos) then Ok None else
  let! tag := index buf pos in
  let! (n, contentStart) := parseLength buf (pos + 1) in
  if (n <? 0) || (contentStart <? 0) || (len buf <? contentStart) || (len buf - contentStart <? n) then Ok None
  else Ok (Some (tag, contentStart, contentStart + n)).

(** [n] TLVs of [message[:end_]] skipped. *)
Fixpoint skipTLVs (n : nat) (buf : bytes) (pos : Z) : res (option Z) :=
  match n with
  | O => Ok (Some pos)
  | S n' =>
      let! r := readTLV buf pos in
      match r with None => Ok None | Some (_, _, next) => skipTLVs n' buf next end
  end.

Definition locateAuthParams (message : bytes) : res (option (Z * Z)) :=
  let! r := readTLV message 0 in
  match r with None => Ok None | Some (_, start, end_) =>
  let! outer := slice message 0 end_ in
  let! r := skipTLVs 2 outer start in
  match r with None => Ok None | Some pos =>
  let! r := readTLV outer pos in
  match r with None => Ok None | Some (_, secStart, secEnd) =>
  let! sec := slice message 0 secEnd in
  let! r := readTLV sec secStart in
  match r with None => Ok None | Some (_, usmStart, usmEnd) =>
  let! usm := slice message 0 usmEnd in
  let! r := skipTLVs 4 usm usmStart in
  match r with None => Ok None | Some pos =>
  let! r := readTLV usm pos in
  match r with None => Ok None | Some (tag, authStart, authEnd) =>
  if negb (tag =? ASN1_OCTET_STRING) then Ok None else Ok (Some (authStart, authEnd - authStart))
  end end end end end end.

(** [out := message; copy(out[off:], d)]. *)
Definition overwrite (message : bytes) (off : Z) (d : bytes) : res bytes :=
  let! _ := slice message off (len message) in
  Ok (take (length message) (take (Z.to_nat off) message ++ d ++ drop (Z.to_nat (off + len d)) message)).

Definition substituteAuthParams (message digest : bytes) : res (option bytes) :=
  if negb (len digest =? usmAuthParamsLen) then Ok None else
  let! r := locateAuthParams message in
  match r with None => Ok None | Some (off, n) =>
  if negb (n =? usmAuthParamsLen) then Ok None else
  let! out := overwrite message off digest in
  Ok (Some out)
  end.

Definition usmVerifyAuthDigest (wholeMessage claimed localizedAuthKey : bytes) (h : option Hash) : res bool :=
  if negb (len claimed =? usmAuthParamsLen) || (len localizedAuthKey =? 0) || bool_decide (h = None) then Ok false else
  let! r := locateAuthParams wholeMessage in
  match r with None => Ok false | Some (off, n) =>
  if negb (n =? usmAuthParamsLen) then Ok false else
  let! field := slice wholeMessage off (off + n) in
  if negb (beq field claimed) then Ok false else
  let! zeroed := overwrite wholeMessage off usmZeroedAuthParams in
  let! want := usmAuthDigest zeroed localizedAuthKey h in
  match want with None => Ok false | Some want => Ok (beq want claimed) end
  end.

(** [now] is the engine time: whole seconds since the engine booted. *)
Definition withinTimeWindow (u : usmServerState) (now boots engineTime : Z) : bool :=
  if negb (boots =? engineBoots u) then false
  else if (engineTime <? 0) || (2 ^ 32 - 1 <? engineTime) then false
  else
    let delta := engineTime - now in
    let delta := if delta <? 0 then - delta else delta in
    delta <=? usmTimeWindowSeconds.

(** ** Privacy *)

Definition padData (data : bytes) (blockSize : Z) : bytes :=
  let padding := blockSize - len data mod blockSize in
  let padding := if padding =? 0 then blockSize else padding in
  data ++ repeat (u8 padding) (Z.to_nat padding).

Definition xorBytes (a b : bytes) : bytes := zip_with Z.lxor a b.

(** [salt] is what the random source gave: [None] an error or a short read. *)
Definition encryptDES (u : usmServerState) (data : bytes) (salt : option bytes) : option (bytes * bytes) :=
  if len (privKey u) <? 16 then None else
  let key := take 8 (privKey u) in
  let preIV := take 8 (drop 8 (privKey u)) in
  match salt with None => None | Some salt =>
  let iv := xorBytes salt preIV in
  Some (des_cbc_encrypt key iv (padData data 8), salt)
  end.

Definition decryptDES (u : usmServerState) (encryptedData privParams : bytes) : option bytes :=
  if negb (len privParams =? 8) then None else
  if len (privKey u) <? 16 then None else
  let key := take 8 (privKey u) in
  let preIV := take 8 (drop 8 (privKey u)) in
  let iv := xorBytes privParams preIV in
  if (len encryptedData =? 0) || negb (len encryptedData mod 8 =? 0) then None
  else Some (des_cbc_decrypt key iv encryptedData).

Definition be32 (x : Z) : bytes := [u8 (Z.shiftr x 24); u8 (Z.shiftr x 16); u8 (Z.shiftr x 8); u8 x].

Definition encryptAES128At (u : usmServerState) (data : bytes) (boots engineTime : Z) (salt : option bytes) : option (bytes * bytes) :=
  if len (privKey u) <? 16 then None else
  let aesKey := take 16 (privKey u) in
  match salt with None => None | Some salt =>
  let iv := be32 boots ++ be32 engineTime ++ salt in
  Some (aes_cfb_encrypt aesKey iv data, salt)
  end.

Definition decryptAES128At (u : usmServerState) (encrypted privParams : bytes) (boots engineTime : Z) : option bytes :=
  if negb (len privParams =? 8) then None else
  let iv := be32 boots ++ be32 engineTime ++ privParams in
  if len (privKey u) <? 16 then None else
  Some (aes_cfb_decrypt (take 16 (privKey u)) iv encrypted).

Definition encryptScopedPDUAt (c : SNMPv3Config) (u : usmServerState) (scopedPDU : bytes) (boots engineTime : Z) (salt : option bytes)
    : option (bytes * bytes) :=
  if PrivProtocol c =? SNMPV3_PRIV_DES then encryptDES u scopedPDU salt
  else if PrivProtocol c =? SNMPV3_PRIV_AES128 then encryptAES128At u scopedPDU boots engineTime salt
  else None.

Definition decryptScopedPDUAt (c : SNMPv3Config) (u : usmServerState) (encryptedPDU privParams : bytes) (boots engineTime : Z) : option bytes :=
  if PrivProtocol c =? SNMPV3_PRIV_NONE then Some encryptedPDU
  else if PrivProtocol c =? SNMPV3_PRIV_DES then decryptDES u encryptedPDU privParams
  else if PrivProtocol c =? SNMPV3_PRIV_AES128 then decryptAES128At u encryptedPDU privParams boots engineTime
  else None.

(** ** Keys *)

Lemma pwBuffer_len pw written : len (pwBuffer pw written) = 64.
Proof. unfold pwBuffer. by rewrite len_map, len_def, length_seqZ. Qed.

(** The buffers, put together, are the password repeated: RFC 3414 A.2. *)
Lemma expand_loop_stream n pw : forall written i, 0 <= written -> 0 <= i < 64 * Z.of_nat n ->
  expand_loop n pw written !! Z.to_nat i = Some (pwOctet pw (written + i)).
Proof.
  induction n as [|n IH]; intros written i Hw Hi; [lia|]. cbn [expand_loop].
  pose proof (pwBuffer_len pw written) as Hl. unfold len in Hl. destruct (decide (i < 64)) as [Hlt|Hge].
  - rewrite lookup_app_l by lia. unfold pwBuffer. rewrite lookup_map, lookup_seqZ_lt by lia. cbn. do 2 f_equal. lia.
  - rewrite lookup_app_r by lia. replace (Z.to_nat i - length (pwBuffer pw written))%nat with (Z.to_nat (i - 64)) by lia.
    rewrite IH by lia. do 2 f_equal. lia.
Qed.

Lemma expand_loop_len n pw : forall written, len (expand_loop n pw written) = 64 * Z.of_nat n.
Proof. induction n as [|n IH]; intros written; [done|]. cbn [expand_loop]. rewrite len_app, pwBuffer_len, IH. lia. Qed.

(** The shared cache holds what would be computed. *)
Definition cache_ok (cache : kuCache) : Prop :=
  forall pw h ku, cache !! (pw, hashSize h) = Some ku -> ku = hash_sum h (expandPassword pw).

Definition passwordKey (pw : bytes) (h : Hash) : bytes := if beq pw [] then [] else hash_sum h (expandPassword pw).

Lemma usmPasswordToKey_spec cache pw h :
  cache_ok cache -> fst (usmPasswordToKey cache pw (Some h)) = passwordKey pw h /\ cache_ok (snd (usmPasswordToKey cache pw (Some h))).
Proof.
  intros Hc. unfold usmPasswordToKey, passwordKey. destruct (beq pw []); [done|].
  destruct (cache !! (pw, hashSize h)) as [ku|] eqn:E; [by apply Hc in E|]. split; [done|]. cbn [snd]. intros pw' h' ku'.
  destruct (decide ((pw, hashSize h) = (pw', hashSize h'))) as [Heq|Hne].
  - rewrite Heq, lookup_insert_eq. intros [= <-]. injection Heq as -> Hs. f_equal. by destruct h, h'.
  - rewrite lookup_insert_ne by done. apply Hc.
Qed.

(** The state of an engine, whatever other engines derived before it. *)
Definition localized (c : SNMPv3Config) (pw : bytes) (h : Hash) : bytes := usmLocalizeKey (passwordKey pw h) (EngineID c) (Some h).
Lemma usmState_spec cache c :
  cache_ok cache ->
  let u := fst (usmState cache (Some c)) in
  engineID u = EngineID c /\ engineBoots u = 1 /\ newHash u = usmHashFor (AuthProtocol c) /\ cache_ok (snd (usmState cache (Some c))) /\
  match usmHashFor (AuthProtocol c) with
  | None => authKey u = [] /\ privKey u = []
  | Some h => authKey u = localized c (Password c) h /\
      privKey u = if PrivProtocol c =? SNMPV3_PRIV_NONE then []
                  else localized c (if beq (PrivPassword c) [] then Password c else PrivPassword c) h
  end.
Proof.
  intros Hc u. subst u. unfold usmState. destruct (usmHashFor (AuthProtocol c)) as [h|] eqn:Eh; [|by split_and!].
  destruct (usmPasswordToKey_spec cache (Password c) h Hc) as [H1 H2].
  destruct (usmPasswordToKey cache (Password c) (Some h)) as [ku cache1]. cbn [fst snd] in *. subst ku.
  destruct (PrivProtocol c =? SNMPV3_PRIV_NONE); [by split_and!|].
  destruct (usmPasswordToKey_spec cache1 (if beq (PrivPassword c) [] then Password c else PrivPassword c) h H2) as [H3 H4].
  destruct (usmPasswordToKey cache1 _ (Some h)) as [ku cache2]. cbn [fst snd] in *. subst ku. by split_and!.
Qed.

Context `{!CryptoLaws}.

Lemma localized_len c pw h : pw <> [] -> len (localized c pw h) = hashSize h.
Proof.
  intros Hpw. unfold localized, usmLocalizeKey, passwordKey, beq. rewrite bool_decide_eq_false_2 by done.
  rewrite hash_sum_len. destruct h; cbn; by rewrite hash_sum_len.
Qed.

Lemma hashSize_ge h : 16 <= hashSize h.
Proof. destruct h; cbn; lia. Qed.

(** ** Framed octets

    [framed f n]: the octets [f d] contain [d] at one place, whatever [d] of
    length [n] is put there. *)
Definition framed (f : bytes -> bytes) (n : Z) : Prop :=
  exists pre post, forall d, len d = n -> f d = pre ++ d ++ post.

Lemma framed_id n : framed (fun d => d) n.
Proof. exists [], []. intros d _. by rewrite app_nil_r. Qed.
Lemma framed_l f n x : framed f n -> framed (fun d => x ++ f d) n.
Proof. intros (pre & post & Hf). exists (x ++ pre), post. intros d Hd. by rewrite Hf, <- app_assoc. Qed.
Lemma framed_r f n x : framed f n -> framed (fun d => f d ++ x) n.
Proof. intros (pre & post & Hf). exists pre, (post ++ x). intros d Hd. by rewrite Hf, <- !app_assoc. Qed.
Lemma framed_tlv f n tag : framed f n -> framed (fun d => tlv tag (f d)) n.
Proof.
  intros (pre & post & Hf). exists (tag :: encodeLength (len pre + n + len post) ++ pre), post. intros d Hd. unfold tlv.
  rewrite Hf by done. replace (len (pre ++ d ++ post)) with (len pre + n + len post) by (rewrite !len_app; lia).
  by rewrite <- app_comm_cons, <- app_assoc.
Qed.

(** ** Locating the digest *)

Definition with_auth (p : SNMPv3SecurityParams) (d : bytes) : SNMPv3SecurityParams :=
  {| AuthoritativeEngineID := AuthoritativeEngineID p; AuthoritativeEngineBoots := AuthoritativeEngineBoots p;
     AuthoritativeEngineTime := AuthoritativeEngineTime p; UserName := UserName p; AuthParams := d; PrivParams := PrivParams p |}.

(** A message with digest field [d]. *)
Definition messageWith (m : SNMPv3Message) (p : SNMPv3SecurityParams) (d : bytes) : bytes :=
  encodeSNMPv3Message m (encodeUSMSecurityParameters (with_auth p d)).

Lemma messageWith_framed m p n : framed (messageWith m p) n.
Proof.
  unfold messageWith, encodeSNMPv3Message, encodeUSMSecurityParameters. cbn [AuthoritativeEngineID AuthoritativeEngineBoots
    AuthoritativeEngineTime UserName AuthParams PrivParams with_auth].
  apply (framed_tlv _ n ASN1_SEQUENCE), framed_l, framed_l, framed_r, (framed_tlv _ n ASN1_OCTET_STRING), (framed_tlv _ n ASN1_SEQUENCE).
  apply framed_l, framed_l, framed_l, framed_l, framed_r, (framed_tlv _ n ASN1_OCTET_STRING), framed_id.
Qed.

Lemma readTLV_at buf pos tag body :
  len body <= MaxInt32 -> holds_at buf pos (tlv tag body) ->
  readTLV buf pos = Ok (Some (tag, pos + hlen (len body), pos + len (tlv tag body))).
Proof.
  intros Hl Hh. pose proof (holds_at_bounds _ _ _ Hh) as Hb. pose proof (len_tlv_pos tag body). pose proof (len_nonneg body).
  unfold readTLV. case_if; [lia|]. rewrite (holds_at_index _ _ _ _ Hh). cbn [res_bind].
  rewrite (holds_at_length _ _ _ _ Hh) by done. cbn [res_bind]. rewrite len_tlv in *. pose proof (hlen_pos (len body)). case_if; [lia|].
  do 3 f_equal. lia.
Qed.

Lemma holds_at_take data pos x n :
  holds_at data pos x -> pos + len x <= n -> n <= len data -> slice data 0 n = Ok (take (Z.to_nat n) data) /\ holds_at (take (Z.to_nat n) data) pos x.
Proof.
  intros Hh Hn Hd. pose proof (holds_at_bounds _ _ _ Hh) as Hb. pose proof (len_nonneg x). split.
  - unfold slice. case_if; [lia|]. by rewrite Z.sub_0_r, drop_0.
  - destruct Hh as (pre & rest & -> & ->). exists pre, (take (Z.to_nat (n - len pre - len x)) rest). split; [|done].
    rewrite !take_app. f_equal; [|f_equal].
    + apply take_ge. unfold len in *. lia.
    + apply take_ge. unfold len in *. lia.
    + f_equal. unfold len in *. lia.
Qed.

Lemma skipTLVs_at n buf pos tag body rest :
  len buf <= MaxInt32 -> holds_at buf pos (tlv tag body ++ rest) ->
  skipTLVs (S n) buf pos = skipTLVs n buf (pos + len (tlv tag body)) /\ holds_at buf (pos + len (tlv tag body)) rest.
Proof.
  intros Hl Hh. apply holds_at_app in Hh as [H1 H2]. split; [|done]. cbn [skipTLVs].
  by rewrite (readTLV_at _ _ _ _ (holds_at_fits _ _ _ _ Hl H1) H1).
Qed.

Definition usmContents (p : SNMPv3SecurityParams) (d : bytes) : bytes :=
  tlv ASN1_OCTET_STRING (AuthoritativeEngineID p) ++ tlv ASN1_INTEGER (integerBody (AuthoritativeEngineBoots p)) ++
  tlv ASN1_INTEGER (integerBody (AuthoritativeEngineTime p)) ++ tlv ASN1_OCTET_STRING (UserName p) ++
  tlv ASN1_OCTET_STRING d ++ tlv ASN1_OCTET_STRING (PrivParams p).

(** Inside the parameters: four fields, then the digest. *)
Definition afterUser (p : SNMPv3SecurityParams) (pos : Z) : Z :=
  pos + len (tlv ASN1_OCTET_STRING (AuthoritativeEngineID p)) + len (tlv ASN1_INTEGER (integerBody (AuthoritativeEngineBoots p))) +
  len (tlv ASN1_INTEGER (integerBody (AuthoritativeEngineTime p))) + len (tlv ASN1_OCTET_STRING (UserName p)).

Lemma digest_in_usm usm pos p d :
  len usm <= MaxInt32 -> holds_at usm pos (usmContents p d) ->
  let start := afterUser p pos + hlen (len d) in
  skipTLVs 4 usm pos = Ok (Some (afterUser p pos)) /\
  readTLV usm (afterUser p pos) = Ok (Some (ASN1_OCTET_STRING, start, start + len d)) /\ holds_at usm start d.
Proof.
  intros Hl H1 start. unfold usmContents in H1.
  destruct (skipTLVs_at 3 _ _ _ _ _ Hl H1) as [-> H2]. destruct (skipTLVs_at 2 _ _ _ _ _ Hl H2) as [-> H3].
  destruct (skipTLVs_at 1 _ _ _ _ _ Hl H3) as [-> H4]. destruct (skipTLVs_at 0 _ _ _ _ _ Hl H4) as [-> H5].
  apply holds_at_app in H5 as [H5 _]. fold (afterUser p pos) in *. split; [done|]. split; [|exact (holds_at_body _ _ _ _ H5)].
  rewrite (readTLV_at _ _ _ _ (holds_at_fits _ _ _ _ Hl H5) H5), (len_tlv _ d). do 3 f_equal. lia.
Qed.

(** Octets of a prefix are octets of the whole. *)
Lemma holds_at_prefix data n pos x : holds_at (take n data) pos x -> holds_at data pos x.
Proof.
  intros (pre & rest & E & ->). exists pre, (rest ++ drop n data). split; [|done].
  rewrite <- (take_drop n data) at 1. by rewrite E, <- !app_assoc.
Qed.

(** From the OCTET STRING of the parameters inwards. *)
Lemma digest_in_message data q p d :
  len data <= MaxInt32 -> holds_at data q (tlv ASN1_OCTET_STRING (tlv ASN1_SEQUENCE (usmContents p d))) ->
  let start := afterUser p (q + hlen (len (tlv ASN1_SEQUENCE (usmContents p d))) + hlen (len (usmContents p d))) + hlen (len d) in
  exists secStart secEnd usmStart usmEnd pos,
    readTLV data q = Ok (Some (ASN1_OCTET_STRING, secStart, secEnd)) /\
    slice data 0 secEnd = Ok (take (Z.to_nat secEnd) data) /\
    readTLV (take (Z.to_nat secEnd) data) secStart = Ok (Some (ASN1_SEQUENCE, usmStart, usmEnd)) /\
    slice data 0 usmEnd = Ok (take (Z.to_nat usmEnd) data) /\
    skipTLVs 4 (take (Z.to_nat usmEnd) data) usmStart = Ok (Some pos) /\
    readTLV (take (Z.to_nat usmEnd) data) pos = Ok (Some (ASN1_OCTET_STRING, start, start + len d)) /\ holds_at data start d.
Proof.
  intros Hl H1 start. pose proof (holds_at_body _ _ _ _ H1) as H2. pose proof (holds_at_body _ _ _ _ H2) as H3.
  pose proof (len_tlv ASN1_OCTET_STRING (tlv ASN1_SEQUENCE (usmContents p d))) as L1. pose proof (len_tlv ASN1_SEQUENCE (usmContents p d)) as L2.
  pose proof (holds_at_bounds _ _ _ H1) as B1. pose proof (holds_at_bounds _ _ _ H2) as B2. pose proof (holds_at_bounds _ _ _ H3) as B3.
  assert (Hlt : forall n, len (take n data) <= MaxInt32) by (intros n; rewrite len_take; lia).
  eexists _, _, _, _. rewrite (readTLV_at _ _ _ _ (holds_at_fits _ _ _ _ Hl H1) H1).
  destruct (holds_at_take _ _ _ (q + len (tlv ASN1_OCTET_STRING (tlv ASN1_SEQUENCE (usmContents p d)))) H2 ltac:(lia) ltac:(lia)) as [S2 H4].
  pose proof (readTLV_at _ _ _ _ (holds_at_fits _ _ _ _ (Hlt _) H4) H4) as R2.
  destruct (holds_at_take _ _ _ (q + hlen (len (tlv ASN1_SEQUENCE (usmContents p d))) + len (tlv ASN1_SEQUENCE (usmContents p d))) H3 ltac:(lia) ltac:(lia)) as [S3 H5].
  destruct (digest_in_usm _ _ _ _ (Hlt _) H5) as (K1 & K2 & K3). eexists.
  split_and!; try done. by eapply holds_at_prefix.
Qed.

(** Where the digest sits: the offset depends on its length only. *)
Definition messageBody (m : SNMPv3Message) (p : SNMPv3SecurityParams) (d : bytes) : bytes :=
  tlv ASN1_INTEGER (integerBody (msgVersion m)) ++ tlv ASN1_SEQUENCE (globalContents (GlobalData m)) ++
  tlv ASN1_OCTET_STRING (tlv ASN1_SEQUENCE (usmContents p d)) ++
  (if negb (Z.land (MsgFlags (GlobalData m)) SNMPV3_MSG_FLAG_PRIV =? 0) then encodeOctetString (ScopedPDU m) else ScopedPDU m).
Definition digestOffset (m : SNMPv3Message) (p : SNMPv3SecurityParams) (d : bytes) : Z :=
  let q := 0 + hlen (len (messageBody m p d)) + len (tlv ASN1_INTEGER (integerBody (msgVersion m))) + len (tlv ASN1_SEQUENCE (globalContents (GlobalData m))) in
  afterUser p (q + hlen (len (tlv ASN1_SEQUENCE (usmContents p d))) + hlen (len (usmContents p d))) + hlen (len d).

Lemma digestOffset_len m p d d' : len d = len d' -> digestOffset m p d = digestOffset m p d'.
Proof.
  intros Hd. assert (Hu : len (usmContents p d) = len (usmContents p d')) by (unfold usmContents; rewrite !len_app, !len_tlv, Hd; lia).
  assert (Hb : len (messageBody m p d) = len (messageBody m p d')).
  { unfold messageBody. rewrite !(len_app (tlv _ _)). by rewrite !(len_tlv _ (tlv _ _)), !(len_tlv _ (usmContents _ _)), Hu. }
  unfold digestOffset. by rewrite Hd, Hb, (len_tlv _ (usmContents p d)), (len_tlv _ (usmContents p d')), Hu.
Qed.

(** The field found is the digest. *)
Lemma locateAuthParams_at m p d :
  let data := messageWith m p d in
  len data <= MaxInt32 ->
  locateAuthParams data = Ok (Some (digestOffset m p d, len d)) /\ holds_at data (digestOffset m p d) d.
Proof.
  intros data Hl. assert (Hh : holds_at data 0 (tlv ASN1_SEQUENCE (messageBody m p d))) by apply holds_at_self.
  assert (Hend : len data = 0 + len (tlv ASN1_SEQUENCE (messageBody m p d))) by done. clearbody data. unfold locateAuthParams.
  rewrite (readTLV_at _ _ _ _ (holds_at_fits _ _ _ _ Hl Hh) Hh). cbn [res_bind]. rewrite <- Hend, slice_all by done. cbn [res_bind].
  pose proof (holds_at_body _ _ _ _ Hh) as H1. unfold messageBody in H1 at 2. destruct (skipTLVs_at 1 _ _ _ _ _ Hl H1) as [-> H2].
  destruct (skipTLVs_at 0 _ _ _ _ _ Hl H2) as [-> H3].
  match goal with |- context [skipTLVs 0 data ?q] => change (skipTLVs 0 data q) with (Ok (Some q)) end. cbn [res_bind].
  apply holds_at_app in H3 as [H3 _]. destruct (digest_in_message _ _ _ _ Hl H3) as (a & b & c & e & pos & -> & S1 & R1 & S2 & K1 & R2 & Hd).
  cbn [res_bind]. rewrite S1. cbn [res_bind]. rewrite R1. cbn [res_bind]. rewrite S2. cbn [res_bind]. rewrite K1. cbn [res_bind].
  rewrite R2. cbn [res_bind]. change (negb (ASN1_OCTET_STRING =? ASN1_OCTET_STRING)) with false. cbv iota.
  unfold digestOffset. split; [|exact Hd]. do 2 f_equal. apply f_equal2; [reflexivity|]. generalize (len d). intros k.
  match goal with |- ?a + k - ?a = k => generalize a end. intros a'. lia.
Qed.

(** ** Locating on any octets *)

(** [parseLength] reads inside the datagram whatever the octets are. *)
Lemma parseLength_reads data pos (P : Z * Z -> Prop) :
  0 <= pos -> (forall n p, pos <= p -> (0 <= n -> p <= len data) -> P (n, p)) -> wp (parseLength data pos) P.
Proof.
  intros Hp HP. unfold parseLength, MaxInt32 in *. wp_step; [simpl; apply HP; lia|]. wp_step. wp_step.
  wp_step; [simpl; apply HP; lia|]. wp_step; [simpl; apply HP; lia|].
  rewrite land_0x7f in *. pose proof (Z.mod_pos_bound x 128).
  wp_step. apply length_loop_wp; [lia|lia|lia|]. intros acc Hacc. wp_step; simpl; apply HP; lia.
Qed.

Lemma readTLV_wp buf pos (P : option (Z * Z * Z) -> Prop) :
  P None -> (forall tag s e, 0 <= pos < s -> s <= e <= len buf -> P (Some (tag, s, e))) -> wp (readTLV buf pos) P.
Proof.
  intros HN HS. unfold readTLV. wp_step; [done|]. wp_step. wp_step. wp_step. apply parseLength_reads; [lia|]. intros n p Hp Hn.
  wp_step; [done|]. simpl. apply HS; lia.
Qed.

Lemma skipTLVs_wp n buf (P : option Z -> Prop) : forall pos,
  0 <= pos -> P None -> (forall p, 0 <= p -> P (Some p)) -> wp (skipTLVs n buf pos) P.
Proof.
  induction n as [|n IH]; intros pos Hp HN HS; cbn [skipTLVs]; [by apply HS|]. wp_step.
  apply readTLV_wp; [done|]. intros tag s e Hs He. apply IH; [lia|done|done].
Qed.

Lemma wp_prefix (m : bytes) e (P : bytes -> Prop) :
  0 <= e <= len m -> (forall x, len x = e -> P x) -> wp (slice m 0 e) P.
Proof. intros He HP. apply wp_slice; [lia|lia|]. apply HP. rewrite len_take, len_drop. lia. Qed.

Lemma locateAuthParams_wp m (P : option (Z * Z) -> Prop) :
  P None -> (forall off n, 0 <= off -> 0 <= n -> off + n <= len m -> P (Some (off, n))) -> wp (locateAuthParams m) P.
Proof.
  intros HN HS. unfold locateAuthParams. wp_step. apply readTLV_wp; [done|]. intros _ s e Hs He.
  wp_step. apply wp_prefix; [lia|]. intros outer Hlo. wp_step. apply skipTLVs_wp; [lia|done|]. intros p1 Hp1.
  wp_step. apply readTLV_wp; [done|]. intros _ s2 e2 Hs2 He2. wp_step. apply wp_prefix; [lia|]. intros sec Hls.
  wp_step. apply readTLV_wp; [done|]. intros _ s3 e3 Hs3 He3. wp_step. apply wp_prefix; [lia|]. intros usm Hlu.
  wp_step. apply skipTLVs_wp; [lia|done|]. intros p4 Hp4. wp_step. apply readTLV_wp; [done|]. intros tag s5 e5 Hs5 He5.
  wp_step; [done|]. simpl. apply HS; lia.
Qed.

(** ** Signing and verifying *)

Lemma overwrite_at pre x post d :
  len d = len x -> overwrite (pre ++ x ++ post) (len pre) d = Ok (pre ++ d ++ post).
Proof.
  intros Hd. unfold overwrite, slice. pose proof (len_nonneg pre). pose proof (len_nonneg (x ++ post)). rewrite len_app.
  case_if; [lia|]. cbn [res_bind]. f_equal. unfold len in *. rewrite Nat2Z.id, take_app_length.
  replace (Z.to_nat (Z.of_nat (length pre) + Z.of_nat (length d))) with (length (pre ++ x)) by (rewrite length_app; lia).
  rewrite (app_assoc pre x post), drop_app_length. apply take_ge. rewrite !length_app. lia.
Qed.

Lemma usmAuthDigest_spec m key h :
  key <> [] -> usmAuthDigest m key (Some h) = Ok (Some (take 12 (hmac_sum h key m))) /\ len (take 12 (hmac_sum h key m)) = 12.
Proof.
  intros Hk. unfold usmAuthDigest. destruct key as [|k key]; [done|]. rewrite len_cons. pose proof (len_nonneg key). case_if; [lia|].
  pose proof (hmac_sum_len h (k :: key) m). pose proof (hashSize_ge h). unfold slice, usmAuthParamsLen. case_if; [lia|].
  split; [done|]. rewrite len_take. lia.
Qed.

(** The digest a verifier expects of the octets around the field. *)
Definition digestAround (h : Hash) (key pre post : bytes) : bytes := take 12 (hmac_sum h key (pre ++ usmZeroedAuthParams ++ post)).

Lemma usmVerifyAuthDigest_spec m claimed key h :
  key <> [] ->
  exists ok, usmVerifyAuthDigest m claimed key (Some h) = Ok ok /\
    (ok = true <-> exists pre post, m = pre ++ claimed ++ post /\ len claimed = 12 /\
       locateAuthParams m = Ok (Some (len pre, 12)) /\ claimed = digestAround h key pre post).
Proof.
  intros Hk. unfold usmVerifyAuthDigest. rewrite bool_decide_eq_false_2 by done.
  assert (Hkl : (len key =? 0) = false) by (destruct key; [done|rewrite len_cons; pose proof (len_nonneg key); lia]). rewrite Hkl, !orb_false_r.
  destruct (len claimed =? usmAuthParamsLen) eqn:El; cbn [negb]; unfold usmAuthParamsLen in *; zbool.
  2: { exists false. split; [done|]. split; [done|]. intros (? & ? & _ & ? & _). lia. }
  destruct (wp_Ok (locateAuthParams m) (fun r => forall off n, r = Some (off, n) -> 0 <= off /\ off + n <= len m)) as (r & Hr & Hb).
  { apply locateAuthParams_wp; [done|]. intros off n ? ? ? ? ? [= <- <-]. lia. }
  rewrite Hr. cbn [res_bind]. destruct r as [[off n]|]; [|exists false; split; [done|]; split; [done|]; intros (? & ? & _ & _ & [= ] & _)].
  destruct (Hb off n eq_refl) as [Ho Hn]. destruct (n =? 12) eqn:En; cbn [negb]; zbool.
  2: { exists false. split; [done|]. split; [done|]. intros (? & ? & _ & _ & [= ? ?] & _). lia. }
  subst n. set (pre := take (Z.to_nat off) m). set (x := take 12 (drop (Z.to_nat off) m)). set (post := drop 12 (drop (Z.to_nat off) m)).
  assert (Hm : m = pre ++ x ++ post) by (unfold pre, x, post; by rewrite !take_drop).
  assert (Hpre : len pre = off) by (unfold pre; rewrite len_take; lia).
  assert (Hx : len x = 12) by (unfold x; rewrite len_take, len_drop; lia).
  clearbody pre x post. clear Hb. subst off. rewrite Hm, <- Hx, slice_app_here. cbn [res_bind]. unfold beq at 1.
  destruct (bool_decide (x = claimed)) eqn:Exc; cbn [negb]; zbool.
  2: { exists false. split; [done|]. split; [done|]. intros (pre' & post' & Heq & Hl & [= Hlen] & _). exfalso. apply Exc.
       apply app_inj_1 in Heq as [_ Heq]; [|unfold len in Hlen; lia]. apply app_inj_1 in Heq as [? _]; [done|unfold len in *; lia]. }
  subst x. rewrite overwrite_at by (rewrite Hx; done). cbn [res_bind].
  destruct (usmAuthDigest_spec (pre ++ usmZeroedAuthParams ++ post) key h Hk) as [-> _]. cbn [res_bind].
  eexists. split; [done|]. unfold beq. rewrite bool_decide_eq_true. unfold digestAround. split.
  - intros He. exists pre, post. rewrite Hx, <- Hm. split_and!; done.
  - intros (pre' & post' & Heq & Hl & [= Hlen] & He). apply app_inj_1 in Heq as [-> Heq]; [|unfold len in Hlen; lia].
    apply app_inj_1 in Heq as [_ ->]; [|done]. done.
Qed.

(** The digest is where its offset says, in the frame of the message. *)
Lemma digestOffset_frame m p pre post :
  (forall d, len d = 12 -> messageWith m p d = pre ++ d ++ post) -> len pre + 12 + len post <= MaxInt32 ->
  forall d, len d = 12 -> digestOffset m p d = len pre.
Proof.
  intros Hf Hl d Hd. set (off := digestOffset m p d).
  assert (Hat : forall b i, 0 <= i < 12 -> messageWith m p (replicate 12 b) !! Z.to_nat (off + i) = Some b).
  { intros b i Hi. assert (Hb : len (replicate 12 b) = 12) by (rewrite len_def, length_replicate; done).
    destruct (locateAuthParams_at m p (replicate 12 b)) as [_ Hh]; [rewrite Hf, !len_app by done; lia|].
    unfold off. rewrite (digestOffset_len m p d (replicate 12 b)) by lia. destruct Hh as (x & y & -> & ->).
    rewrite lookup_app_r by (unfold len in *; lia). rewrite lookup_app_l by (rewrite length_replicate; unfold len in *; lia).
    apply lookup_replicate_2. unfold len in *. lia. }
  assert (Hoff : 0 <= off) by (destruct (locateAuthParams_at m p d) as [_ Hh]; [rewrite Hf, !len_app by done; lia|]; apply holds_at_bounds in Hh; unfold off; lia).
  destruct (Z.lt_trichotomy off (len pre)) as [Hlt|[?|Hgt]]; [|done|].
  - pose proof (Hat 0 0 ltac:(lia)) as A0. pose proof (Hat 1 0 ltac:(lia)) as A1. rewrite !Hf in A0, A1 by done.
    rewrite lookup_app_l in A0, A1 by (unfold len in *; lia). congruence.
  - pose proof (Hat 0 11 ltac:(lia)) as A0. pose proof (Hat 1 11 ltac:(lia)) as A1. rewrite !Hf in A0, A1 by done.
    rewrite lookup_app_r in A0, A1 by (unfold len in *; lia). rewrite lookup_app_r in A0, A1 by (rewrite length_replicate; unfold len in *; lia).
    rewrite !length_replicate in *. congruence.
Qed.

(** What signing makes of an assembled message: the same message with the digest
    in its field, which verifies. *)
Lemma sign_message m p key h :
  let unsigned := messageWith m p usmZeroedAuthParams in
  len unsigned <= MaxInt32 -> key <> [] ->
  exists d, len d = 12 /\ usmAuthDigest unsigned key (Some h) = Ok (Some d) /\
    substituteAuthParams unsigned d = Ok (Some (messageWith m p d)) /\
    usmVerifyAuthDigest (messageWith m p d) d key (Some h) = Ok true.
Proof.
  intros unsigned Hl Hk. destruct (messageWith_framed m p 12) as (pre & post & Hf).
  assert (Hz : unsigned = pre ++ usmZeroedAuthParams ++ post) by by apply Hf.
  destruct (usmAuthDigest_spec unsigned key h Hk) as [Hd Hd12]. exists (take 12 (hmac_sum h key unsigned)).
  set (d := take 12 (hmac_sum h key unsigned)) in *.
  assert (Hlen : len pre + 12 + len post <= MaxInt32).
  { rewrite Hz, !len_app in Hl. change (len usmZeroedAuthParams) with 12 in Hl. lia. }
  assert (Hfind : forall d', len d' = 12 -> locateAuthParams (messageWith m p d') = Ok (Some (len pre, 12))).
  { intros d' Hd'. destruct (locateAuthParams_at m p d') as [-> _]; [rewrite Hf, !len_app by done; lia|].
    by rewrite Hd', (digestOffset_frame m p pre post Hf Hlen d' Hd'). }
  split_and!; [done|done| |].
  - unfold substituteAuthParams. unfold usmAuthParamsLen at 1. rewrite Hd12. cbn [Z.eqb Pos.eqb negb].
    unfold unsigned. rewrite Hfind by done. cbn [res_bind]. unfold usmAuthParamsLen. cbn [Z.eqb Pos.eqb negb].
    rewrite (Hf usmZeroedAuthParams), overwrite_at by done. cbn [res_bind]. by rewrite (Hf d).
  - destruct (usmVerifyAuthDigest_spec (messageWith m p d) d key h Hk) as (ok & -> & Hiff). f_equal. apply Hiff.
    exists pre, post. split_and!; [by apply Hf|done|by apply Hfind|]. unfold digestAround. by rewrite <- Hz.
Qed.

(** ** Privacy *)

Lemma padData_spec d : bytes_ok d -> exists pad, padData d 8 = d ++ pad /\ bytes_ok (padData d 8) /\ len (padData d 8) mod 8 = 0 /\ 0 < len (padData d 8).
Proof.
  intros Hd. unfold padData. pose proof (Z.mod_pos_bound (len d) 8 ltac:(lia)) as Hm. pose proof (len_nonneg d).
  replace (8 - len d mod 8 =? 0) with false by lia. eexists. split; [done|].
  rewrite len_app, (len_def (repeat _ _)), repeat_length, Z2Nat.id by lia. split_and!; [|
    rewrite (Z.div_mod (len d) 8) at 1 by lia; replace (8 * (len d / 8) + len d mod 8 + (8 - len d mod 8)) with ((len d / 8 + 1) * 8) by lia; by rewrite Z.mod_mul | lia].
  apply Forall_app. split; [done|]. apply List.Forall_forall. intros x Hx. apply repeat_spec in Hx. subst x. unfold u8, is_byte.
  pose proof (Z.mod_pos_bound (8 - len d mod 8) (2 ^ 8)). lia.
Qed.

(** Decryption with what the message carries (the ciphertext, the salt and the
    declared boots and time) gives back the scoped PDU, under DES with padding
    after it. *)
Lemma privacy_roundtrip c u pdu boots time salt :
  PrivProtocol c = SNMPV3_PRIV_DES \/ PrivProtocol c = SNMPV3_PRIV_AES128 -> 16 <= len (privKey u) -> bytes_ok pdu -> len salt = 8 ->
  exists e pad, encryptScopedPDUAt c u pdu boots time (Some salt) = Some (e, salt) /\ bytes_ok e /\
    decryptScopedPDUAt c u e salt boots time = Some (pdu ++ pad).
Proof.
  intros Hp Hk Hok Hs. unfold encryptScopedPDUAt, decryptScopedPDUAt, SNMPV3_PRIV_NONE, SNMPV3_PRIV_DES, SNMPV3_PRIV_AES128 in *.
  destruct Hp as [-> | ->]; cbn [Z.eqb Pos.eqb].
  - destruct (padData_spec pdu Hok) as (pad & Hpad & Hpok & Hmod & Hpos). unfold encryptDES, decryptDES.
    replace (len (privKey u) <? 16) with false by lia. eexists _, pad. split; [done|]. split; [apply des_cbc_ok|].
    replace (len salt =? 8) with true by lia. cbn [negb]. rewrite des_cbc_len.
    replace (len (padData pdu 8) =? 0) with false by lia. rewrite Hmod. cbn [Z.eqb negb orb]. by rewrite des_cbc_inverse, Hpad.
  - unfold encryptAES128At, decryptAES128At. replace (len (privKey u) <? 16) with false by lia. eexists _, []. split; [done|].
    split; [apply aes_cfb_ok|]. replace (len salt =? 8) with true by lia. cbn [negb]. by rewrite aes_cfb_inverse, app_nil_r.
Qed.

(** ** Configurations *)

(** The keys of a configuration with a known protocol and an auth password. *)
Lemma derived_keys cache c h :
  cache_ok cache -> usmHashFor (AuthProtocol c) = Some h -> Password c <> [] ->
  let u := fst (usmState cache (Some c)) in
  newHash u = Some h /\ authKey u <> [] /\ (PrivProtocol c <> SNMPV3_PRIV_NONE -> 16 <= len (privKey u)).
Proof.
  intros Hc Hh Hpw u. destruct (usmState_spec cache c Hc) as (_ & _ & Hn & _ & Hk). fold u in Hn, Hk. rewrite Hh in Hn, Hk.
  destruct Hk as [Ha Hp]. pose proof (hashSize_ge h). split_and!; [done| |].
  - intros E. pose proof (localized_len c (Password c) h Hpw) as Hl. rewrite <- Ha, E, len_nil in Hl. lia.
  - intros Hne. rewrite Hp. replace (PrivProtocol c =? SNMPV3_PRIV_NONE) with false by lia. rewrite localized_len; [lia|].
    unfold beq. destruct (bool_decide (PrivPassword c = [])) eqn:E; zbool; done.
Qed.

(** [Validate] lets through privacy configurations that derive no key: an
    authentication protocol number no hash belongs to, and a privacy password
    without an authentication password. *)
Lemma validated_without_keys c :
  c = {| Enabled := true; EngineID := [1; 2; 3; 4; 5]; Username := str "ops"; Password := str "secret12"; AuthProtocol := 3;
         PrivProtocol := SNMPV3_PRIV_AES128; PrivPassword := [] |} \/
  c = {| Enabled := true; EngineID := [1; 2; 3; 4; 5]; Username := str "ops"; Password := []; AuthProtocol := SNMPV3_AUTH_SHA1;
         PrivProtocol := SNMPV3_PRIV_AES128; PrivPassword := str "secret12" |} ->
  Validate (Some c) = None /\ authKey (fst (usmState ∅ (Some c))) = [].
Proof. by intros [-> | ->]; split. Qed.

(** ** Theorems *)

(** C10: what verifies is exactly what carries its own digest.  On any octets the
    verifier returns without reading out of range, and it accepts a message under
    a key precisely when the field found by walking the structure holds the
    claimed twelve octets and these are the truncated HMAC, under that key, of
    the whole message with that field zeroed: no octet of the message is outside
    the digest, and a digest anywhere else is not looked at. *)
Theorem usm_verify_exact m claimed key h :
  key <> [] ->
  exists ok, usmVerifyAuthDigest m claimed key (Some h) = Ok ok /\
    (ok = true <-> exists pre post, m = pre ++ claimed ++ post /\ len claimed = 12 /\
       locateAuthParams m = Ok (Some (len pre, 12)) /\ claimed = digestAround h key pre post).
Proof. apply usmVerifyAuthDigest_spec. Qed.

(** A key is a function of the configuration.  Whatever engines derived their
    keys before, sharing the cache of hashed passwords, the state derived for a
    configuration is the one an empty cache gives, and the cache stays one that
    holds what would be computed. *)
Theorem usm_cache_transparent cs c :
  let cache := fold_left (fun cache c => snd (usmState cache (Some c))) cs ∅ in
  fst (usmState cache (Some c)) = fst (usmState ∅ (Some c)) /\ cache_ok (snd (usmState cache (Some c))).
Proof.
  intros cache. assert (He : cache_ok ∅) by (intros pw h ku Hk; by rewrite lookup_empty in Hk).
  assert (Hc : cache_ok cache).
  { unfold cache. apply fold_left_inv; [done|]. intros a x _ Ha. by apply usmState_spec. }
  destruct (usmState_spec cache c Hc) as (A1 & A2 & A3 & A4 & A5). destruct (usmState_spec ∅ c He) as (B1 & B2 & B3 & _ & B5).
  split; [|done]. destruct (fst (usmState cache (Some c))), (fst (usmState ∅ (Some c))). cbn [engineID engineBoots newHash authKey privKey] in *.
  destruct (usmHashFor (AuthProtocol c)); destruct A5, B5; by subst.
Qed.

End Usm.

(** ** A concrete cryptography, to run the model on *)

Definition toySum (h : Hash) (m : bytes) : bytes := repeat (fold_left (fun a b => (a * 31 + b) mod 256) m 7) (Z.to_nat (hashSize h)).
Definition toyShift (key iv : bytes) : Z := hd 0 key + hd 0 iv.
#[export] Instance toyCrypto : Crypto := {
  hash_sum := toySum;
  hmac_sum h k m := toySum h (k ++ m);
  des_cbc_encrypt k iv m := map (fun b => u8 (b + toyShift k iv)) m;
  des_cbc_decrypt k iv m := map (fun b => u8 (b - toyShift k iv)) m;
  aes_cfb_encrypt k iv m := map (fun b => u8 (b + toyShift k iv)) m;
  aes_cfb_decrypt k iv m := map (fun b => u8 (b - toyShift k iv)) m;
}.

Lemma toyShift_inverse k iv m : bytes_ok m -> map (fun b => u8 (b - toyShift k iv)) (map (fun b => u8 (b + toyShift k iv)) m) = m.
Proof.
  intros Hok. rewrite map_map. rewrite <- (map_id m) at 2. apply map_ext_in. intros b Hb. eapply List.Forall_forall in Hok; [|done].
  unfold is_byte in Hok. unfold u8. change (2 ^ 8) with 256. rewrite Zminus_mod_idemp_l.
  replace (b + toyShift k iv - toyShift k iv) with b by lia. apply Z.mod_small. lia.
Qed.

Lemma map_u8_ok (f : Z -> Z) m : bytes_ok (map (fun b => u8 (f b)) m).
Proof.
  apply List.Forall_forall. intros x Hx. apply in_map_iff in Hx as (b & <- & _). unfold is_byte, u8. pose proof (Z.mod_pos_bound (f b) (2 ^ 8)). lia.
Qed.

Lemma toySum_len h m : len (toySum h m) = hashSize h.
Proof. unfold toySum. rewrite len_def, repeat_length. by destruct h. Qed.

Lemma toySum_ok h m : bytes_ok (toySum h m).
Proof.
  apply List.Forall_forall. intros x Hx. apply repeat_spec in Hx. subst x. apply fold_left_inv; [unfold is_byte; lia|].
  intros a b _ _. apply mod256_byte.
Qed.

#[export] Instance toyLaws : CryptoLaws.
Proof.
  constructor; intros; cbn.
  - apply toySum_len.
  - apply toySum_len.
  - apply toySum_ok.
  - by apply toyShift_inverse.
  - apply len_map.
  - split; apply map_u8_ok.
  - by apply toyShift_inverse.
  - apply len_map.
  - split; apply map_u8_ok.
Qed.

Lemma usm_verify_exact_witness :
  let m := messageWith {| msgVersion := SNMPV3_VERSION; GlobalData := sampleGlobal 1; SecurityParams := noParams; ScopedPDU := [0x30; 0] |}
             sampleParams (repeat 170 12) in
  exists ok, usmVerifyAuthDigest m (repeat 170 12) [1; 2; 3] (Some SHA1) = Ok ok /\
    (ok = true <-> exists pre post, m = pre ++ repeat 170 12 ++ post /\ len (repeat 170 12) = 12 /\
       locateAuthParams m = Ok (Some (len pre, 12)) /\ repeat 170 12 = digestAround SHA1 [1; 2; 3] pre post).
Proof. apply (usm_verify_exact _ (repeat 170 12) [1; 2; 3] SHA1). discriminate. Defined.
