(* ===== verification/V3Server.v ===== *)
(** * Serving SNMPv3 requests (snmp.go, snmpv3.go, snmpv3_crypto.go, snmp_set.go)

    The v3 half of the dispatcher: the message is parsed, the user checked, the
    digest and the time window verified, the scoped PDU decrypted, and only then
    is the request served, by the same walk, GET and SET ladders as v1/v2c.  The
    response, or a Report naming what was wrong, is assembled in the envelope the
    request asked for.  The theorems show that any datagram is served without a
    panic, that state changes only for an authenticated, admitted SET, that a
    manager holding the keys gets the answer of the device back through the whole
    envelope, and that the two GETBULK implementations serve the same rows. *)

From stdpp Require Import gmap.
From S2P Require Import Prelude GoStrings Ber Oid TypedValue Request Response OidOrder OidPrefix Walk IfState SetReq Server Octets V3Msg Usm.

Definition oidUsmStatsUnsupportedSecLevels : bytes := str ".1.3.6.1.6.3.15.1.1.1.0".
Definition oidUsmStatsNotInTimeWindows : bytes := str ".1.3.6.1.6.3.15.1.1.2.0".
Definition oidUsmStatsUnknownUserNames : bytes := str ".1.3.6.1.6.3.15.1.1.3.0".
Definition oidUsmStatsUnknownEngineIDs : bytes := str ".1.3.6.1.6.3.15.1.1.4.0".
Definition oidUsmStatsWrongDigests : bytes := str ".1.3.6.1.6.3.15.1.1.5.0".
Definition oidUsmStatsDecryptionErrors : bytes := str ".1.3.6.1.6.3.15.1.1.6.0".
Definition snmpV3MinMsgMaxSize : Z := 484.
Definition v3MsgMaxSize : Z := 65507.

Definition flagSet (flags bit : Z) : bool := negb (Z.land flags bit =? 0).

(** What the assembly of one message reads from outside: the engine time and the
    random salt, [None] when the random source fails. *)
Record reading := { r_time : Z; r_salt : option bytes }.

(** A server with v3 configured ([None]: not configured) and its USM state. *)
Record V3Server := { srv : Server; v3Config : option SNMPv3Config; usm : usmServerState }.
Definition with_srv (s : V3Server) (x : Server) : V3Server := {| srv := x; v3Config := v3Config s; usm := usm s |}.
Definition v3Enabled (s : V3Server) : bool := match v3Config s with Some c => Enabled c | None => false end.

Section V3.
Context `{Crypto}.

(** ** Assembling a response *)

Definition createScopedPDUEncoded (s : V3Server) (varBinds : bytes) (errStatus errIndex : Z) (requestMsg : SNMPv3Message) : res bytes :=
  let! requestID := extractRequestIDFromScopedPDU (ScopedPDU requestMsg) in
  let pduContents := encodeInteger requestID ++ encodeInteger errStatus ++ encodeInteger errIndex ++ encodeSequence varBinds in
  let pdu := [SNMP_GET_RESPONSE] ++ encodeLength (len pduContents) ++ pduContents in
  Ok (wrapInScopedPDU (engineID (usm s)) [] pdu).

Definition bindingsOf (binds : list (bytes * bytes)) : bytes :=
  concat (map (fun b => encodeVarBind (fst b) (encodeTypedValue (fst b) (snd b))) binds).

Definition createScopedPDUMulti (s : V3Server) (oids values : list bytes) (requestMsg : SNMPv3Message) : res (option bytes) :=
  if negb (len oids =? len values) then Ok None else
  let! pdu := createScopedPDUEncoded s (bindingsOf (zip oids values)) snmpErrNoError 0 requestMsg in
  Ok (Some pdu).
Definition createScopedPDU (s : V3Server) (oid value : bytes) (requestMsg : SNMPv3Message) : res (option bytes) :=
  createScopedPDUMulti s [oid] [value] requestMsg.

Definition wrapScopedPDUInV3MessageWith (s : V3Server) (r : reading) (scopedPDU : bytes) (msgID msgFlags : Z) (userName : bytes) : res (option bytes) :=
  match v3Config s with
  | None => Ok None
  | Some c =>
      if negb (Enabled c) then Ok None else
      let u := usm s in
      let boots := engineBoots u in
      let engineTime := r_time r in
      let encrypted :=
        (if negb (PrivProtocol c =? SNMPV3_PRIV_NONE) && flagSet msgFlags SNMPV3_MSG_FLAG_PRIV
         then encryptScopedPDUAt c u scopedPDU boots engineTime (r_salt r)
         else Some (scopedPDU, [])) in
      match encrypted with
      | None => Ok None
      | Some (encryptedPDU, privParams) =>
          let authenticating := negb (bool_decide (newHash u = None)) && flagSet msgFlags SNMPV3_MSG_FLAG_AUTH in
          let secParams := {| AuthoritativeEngineID := engineID u; AuthoritativeEngineBoots := boots; AuthoritativeEngineTime := engineTime;
                              UserName := userName; AuthParams := if authenticating then usmZeroedAuthParams else []; PrivParams := privParams |} in
          let usmParams := encodeUSMSecurityParameters secParams in
          let responseMsg := {| msgVersion := SNMPV3_VERSION;
                                GlobalData := {| MsgID := msgID; MsgMaxSize := v3MsgMaxSize;
                                                 MsgFlags := Z.ldiff msgFlags SNMPV3_MSG_FLAG_REPORT; MsgSecurityModel := SNMPV3_SECURITY_MODEL_USM |};
                                SecurityParams := noParams; ScopedPDU := encryptedPDU |} in
          let msgBytes := encodeSNMPv3Message responseMsg usmParams in
          if authenticating then
            let! digest := usmAuthDigest msgBytes (authKey u) (newHash u) in
            match digest with
            | None => Ok None
            | Some digest => substituteAuthParams msgBytes digest
            end
          else Ok (Some msgBytes)
      end
  end.

Definition wrapScopedPDUInV3Message (s : V3Server) (r : reading) (scopedPDU : bytes) (requestMsg : SNMPv3Message) : res (option bytes) :=
  if negb (v3Enabled s) then Ok None else
  wrapScopedPDUInV3MessageWith s r scopedPDU (MsgID (GlobalData requestMsg)) (MsgFlags (GlobalData requestMsg))
    (UserName (SecurityParams requestMsg)).

Definition createSNMPv3Response (s : V3Server) (r : reading) (oid value : bytes) (requestMsg : SNMPv3Message) : res (option bytes) :=
  let! scopedPDU := createScopedPDU s oid value requestMsg in
  match scopedPDU with
  | None => Ok None
  | Some scopedPDU => wrapScopedPDUInV3Message s r scopedPDU requestMsg
  end.

(** ** Reports *)

Definition reportFlags (sign : bool) : Z :=
  if sign then Z.lor SNMPV3_MSG_FLAG_REPORT SNMPV3_MSG_FLAG_AUTH else SNMPV3_MSG_FLAG_REPORT.

Definition createDiscoveryScopedPDU (s : V3Server) (oid value : bytes) : bytes :=
  let varBind := encodeSequence (encodeOID oid ++ encodeTypedValue oid value) in
  let pduContents := encodeInteger 1 ++ encodeInteger 0 ++ encodeInteger 0 ++ encodeSequence varBind in
  let pdu := [v3ReportPDUTag] ++ encodeLength (len pduContents) ++ pduContents in
  wrapInScopedPDU (engineID (usm s)) [] pdu.

Definition createSNMPv3ReportResponseSigned (s : V3Server) (r : reading) (reportOID : bytes) (requestMsg : SNMPv3Message) (sign : bool)
    : res (option bytes) :=
  if negb (v3Enabled s) then Ok None else
  let u := usm s in
  let scopedPDU := createDiscoveryScopedPDU s reportOID (str "1") in
  let sign := sign && negb (bool_decide (newHash u = None)) && (0 <? len (authKey u)) in
  let secParams := {| AuthoritativeEngineID := engineID u; AuthoritativeEngineBoots := engineBoots u; AuthoritativeEngineTime := r_time r;
                      UserName := if sign then UserName (SecurityParams requestMsg) else [];
                      AuthParams := if sign then usmZeroedAuthParams else []; PrivParams := [] |} in
  let usmParams := encodeUSMSecurityParameters secParams in
  let responseMsg := {| msgVersion := SNMPV3_VERSION;
                        GlobalData := {| MsgID := MsgID (GlobalData requestMsg); MsgMaxSize := v3MsgMaxSize; MsgFlags := reportFlags sign;
                                         MsgSecurityModel := SNMPV3_SECURITY_MODEL_USM |};
                        SecurityParams := noParams; ScopedPDU := scopedPDU |} in
  let msgBytes := encodeSNMPv3Message responseMsg usmParams in
  if sign then
    let! digest := usmAuthDigest msgBytes (authKey u) (newHash u) in
    substituteAuthParams msgBytes (default [] digest)
  else Ok (Some msgBytes).

Definition createSNMPv3ReportResponse (s : V3Server) (r : reading) (reportOID : bytes) (requestMsg : SNMPv3Message) : res (option bytes) :=
  createSNMPv3ReportResponseSigned s r reportOID requestMsg false.
Definition createSNMPv3DiscoveryResponse (s : V3Server) (r : reading) (requestMsg : SNMPv3Message) : res (option bytes) :=
  createSNMPv3ReportResponse s r oidUsmStatsUnknownEngineIDs requestMsg.

(** ** Admission of a message *)

Definition isDiscovery (m : SNMPv3Message) : bool :=
  beq (UserName (SecurityParams m)) [] && beq (AuthoritativeEngineID (SecurityParams m)) [].

Definition validateSNMPv3Credentials (s : V3Server) (m : SNMPv3Message) : bool :=
  match v3Config s with
  | None => false
  | Some c =>
      if negb (Enabled c) then false
      else if isDiscovery m && flagSet (MsgFlags (GlobalData m)) SNMPV3_MSG_FLAG_REPORT then true
      else beq (UserName (SecurityParams m)) (Username c)
  end.

(** The Report to answer, or [None] when the message is let through. *)
Definition authenticateInbound (s : V3Server) (now : Z) (requestData : bytes) (m : SNMPv3Message) : res (option bytes) :=
  let flags := MsgFlags (GlobalData m) in
  if negb (flagSet flags SNMPV3_MSG_FLAG_AUTH) then
    if flagSet flags SNMPV3_MSG_FLAG_PRIV then Ok (Some oidUsmStatsUnsupportedSecLevels) else Ok None
  else
  let u := usm s in
  if bool_decide (newHash u = None) || (len (authKey u) =? 0) then Ok (Some oidUsmStatsUnsupportedSecLevels) else
  let! ok := usmVerifyAuthDigest requestData (AuthParams (SecurityParams m)) (authKey u) (newHash u) in
  if negb ok then Ok (Some oidUsmStatsWrongDigests) else
  if negb (withinTimeWindow u now (AuthoritativeEngineBoots (SecurityParams m)) (AuthoritativeEngineTime (SecurityParams m)))
  then Ok (Some oidUsmStatsNotInTimeWindows) else Ok None.

(** The contents of a decrypted SEQUENCE; [None] when it is not one. *)
Definition unwrapDecrypted (decryptedPDU : bytes) : res (option bytes) :=
  if len decryptedPDU <=? 0 then Ok None else
  let! b := index decryptedPDU 0 in
  if negb (b =? ASN1_SEQUENCE) then Ok None else
  let! (contentLen, contentStart) := parseLength decryptedPDU 1 in
  if (0 <=? contentLen) && (contentStart + contentLen <=? len decryptedPDU) then
    let! c := slice decryptedPDU contentStart (contentStart + contentLen) in Ok (Some c)
  else Ok None.

Definition with_scoped (m : SNMPv3Message) (pdu : bytes) : SNMPv3Message :=
  {| msgVersion := msgVersion m; GlobalData := GlobalData m; SecurityParams := SecurityParams m; ScopedPDU := pdu |}.

(** The message with its scoped PDU in the clear, or the Report to answer. *)
Definition openScoped (s : V3Server) (m : SNMPv3Message) : res (SNMPv3Message + bytes) :=
  if flagSet (MsgFlags (GlobalData m)) SNMPV3_MSG_FLAG_PRIV then
    match v3Config s with
    | None => Ok (inr oidUsmStatsUnsupportedSecLevels)
    | Some c =>
        if PrivProtocol c =? SNMPV3_PRIV_NONE then Ok (inr oidUsmStatsUnsupportedSecLevels) else
        match decryptScopedPDUAt c (usm s) (ScopedPDU m) (PrivParams (SecurityParams m))
                (AuthoritativeEngineBoots (SecurityParams m)) (AuthoritativeEngineTime (SecurityParams m)) with
        | None => Ok (inr oidUsmStatsDecryptionErrors)
        | Some decryptedPDU =>
            let! r := unwrapDecrypted decryptedPDU in
            match r with
            | Some c => Ok (inl (with_scoped m c))
            | None => Ok (inr oidUsmStatsDecryptionErrors)
            end
        end
    end
  else Ok (inl m).

(** ** GETBULK *)

Definition bulkStep (s : Server) (p : Z) (currentOID : bytes) : option (bytes * bytes) :=
  let '(nextOID, response) := findNextOIDWithServed (device s) currentOID (lldpServed s) p in
  if beq nextOID [] || beq response valueEndOfMibView then None
  else if compareOIDsLexicographically nextOID currentOID <=? 0 then None
  else Some (nextOID, response).

Definition v3_nonrepeater (s : Server) (p : Z) (oid : bytes) : bytes * bytes :=
  match bulkStep s p oid with Some r => r | None => (oid, valueEndOfMibView) end.

(** One binding of a repetition: the column after it, whether it produced. *)
Definition v3_column_step (s : Server) (p : Z) (c : bulkColumn) : bulkColumn * (bytes * bytes) * bool :=
  if endOfMib c then (c, (startCol c, valueEndOfMibView), false) else
  match bulkStep s p (currentOID c) with
  | None => ({| startCol := startCol c; currentOID := currentOID c; endOfMib := true |}, (startCol c, valueEndOfMibView), false)
  | Some (nextOID, nextVal) => ({| startCol := startCol c; currentOID := nextOID; endOfMib := false |}, (nextOID, nextVal), true)
  end.

(** [n] repetitions are left, [rep] are done. *)
Fixpoint v3_repetitions (n rep : nat) (singleColumn : bool) (s : Server) (p : Z) (cols : list bulkColumn) : list (bytes * bytes) :=
  match n with
  | O => []
  | S n' =>
      let row := map (v3_column_step s p) cols in
      let produced := existsb snd row in
      if negb produced && (0 <? rep)%nat && singleColumn then [] else
      map (fun x => snd (fst x)) row ++
      (if negb produced && singleColumn then []
       else v3_repetitions n' (S rep) singleColumn s p (map (fun x => fst (fst x)) row))
  end.

Section Prefix.
Context {St : Type} (build : Z -> St -> res (option bytes * St)) (limit : Z).

Fixpoint bisect_loop (fuel : nat) (lo hi : Z) (best : bytes) (st : St) : res (option bytes * St) :=
  match fuel with
  | O => Diverge
  | S fuel' =>
      if 1 <? hi - lo then
        let mid := lo + Z.quot (hi - lo) 2 in
        let! (resp, st) := build mid st in
        match resp with
        | None => Ok (None, st)
        | Some resp => if len resp <=? limit then bisect_loop fuel' mid hi resp st else bisect_loop fuel' lo mid best st
        end
      else Ok (Some best, st)
  end.

(** The search halves [hi - lo], so its logarithm is enough fuel. *)
Definition largestFittingPrefix (count : Z) (st : St) : res (option bytes * St) :=
  if count <=? 0 then Ok (None, st) else
  let! (full, st) := build count st in
  match full with
  | None => Ok (None, st)
  | Some full =>
      if (len full <=? limit) || (count =? 1) then Ok (Some full, st) else
      let! (best, st) := build 1 st in
      match best with
      | None => Ok (None, st)
      | Some best => bisect_loop (S (Z.to_nat (Z.log2_up count))) 1 count best st
      end
  end.
End Prefix.

(** The first [n] bindings in the envelope of the request.  The state is the
    number of messages assembled so far: each has its own clock reading and salt. *)
Definition buildBulk (s : V3Server) (reads : nat -> reading) (oids responses : list bytes) (msg : SNMPv3Message) (n : Z) (i : nat)
    : res (option bytes * nat) :=
  let! scopedPDU := createScopedPDUMulti s (take (Z.to_nat n) oids) (take (Z.to_nat n) responses) msg in
  match scopedPDU with
  | None => Ok (None, i)
  | Some scopedPDU => let! r := wrapScopedPDUInV3Message s (reads i) scopedPDU msg in Ok (r, S i)
  end.

Definition bulkLimit (s : V3Server) (msg : SNMPv3Message) : Z :=
  let m := MsgMaxSize (GlobalData msg) in
  if (snmpV3MinMsgMaxSize <=? m) && (m <? maxSNMPResponseSize (srv s)) then m else maxSNMPResponseSize (srv s).

Definition createSNMPv3GetBulkResponse (s : V3Server) (reads : nat -> reading) (requestedOID : bytes) (oids responses : list bytes) (msg : SNMPv3Message)
    : res (option bytes) :=
  if len oids =? 0 then createSNMPv3Response s (reads 0%nat) requestedOID valueEndOfMibView msg else
  let! (r, _) := largestFittingPrefix (buildBulk s reads oids responses msg) (bulkLimit s msg) (len oids) 0%nat in
  Ok r.

Definition createSNMPv3EmptyGetBulkResponse (s : V3Server) (r : reading) (msg : SNMPv3Message) : res (option bytes) :=
  let! scopedPDU := createScopedPDUMulti s [] [] msg in
  match scopedPDU with
  | None => Ok None
  | Some scopedPDU => wrapScopedPDUInV3Message s r scopedPDU msg
  end.

(** The bindings collected, for parameters already read; the repeater section is
    left out when there is no repeater or no repetition. *)
Definition v3_bulk_bindings (s : Server) (p : Z) (allOIDs : list bytes) (nonRepeaters maxRepetitions : Z) : list (bytes * bytes) :=
  let nonRep := Z.to_nat (Z.min nonRepeaters (len allOIDs)) in
  let repeaterCols := drop nonRep allOIDs in
  map (v3_nonrepeater s p) (take nonRep allOIDs) ++
  (if (len repeaterCols =? 0) || (maxRepetitions =? 0) then []
   else v3_repetitions (Z.to_nat (clampBulkWalk (maxSNMPResponseSize s) maxRepetitions (len repeaterCols))) 0
          (len repeaterCols =? 1) s p (map newColumn repeaterCols)).

Definition handleSNMPv3GetBulk (s : V3Server) (reads : nat -> reading) (startOID : bytes) (msg : SNMPv3Message) (scopedPDU : bytes) : res (option bytes) :=
  let! (nonRepeaters, maxRepetitions) := parseSNMPv3GetBulkParams scopedPDU in
  let nonRepeaters := if nonRepeaters <? 0 then 0 else nonRepeaters in
  let maxRepetitions := if maxRepetitions <? 0 then 0 else maxRepetitions in
  let! (allOIDs, ok) := parseAllOIDsFromScopedPDU scopedPDU in
  if negb ok then Ok None else
  let allOIDs := if len allOIDs =? 0 then [startOID] else allOIDs in
  let binds := v3_bulk_bindings (srv s) (metricsPoint (device (srv s))) allOIDs nonRepeaters maxRepetitions in
  let repeaters := len allOIDs - Z.min nonRepeaters (len allOIDs) in
  if ((repeaters =? 0) || (maxRepetitions =? 0)) && (len binds =? 0)
  then createSNMPv3EmptyGetBulkResponse s (reads 0%nat) msg
  else createSNMPv3GetBulkResponse s reads (hd [] allOIDs) (map fst binds) (map snd binds) msg.

(** ** SET *)

Definition handleSNMPv3Set (clock : Z -> Z) (s : V3Server) (r : reading) (msg : SNMPv3Message) (scopedPDU : bytes) : res (V3Server * option bytes) :=
  let! v := parseSetVarBindsFromScopedPDU scopedPDU in
  match v with
  | ListParsed (binds, echoed) =>
      let! (d, verdict) := decideSet clock binds (interfaces (srv s)) in
      let s' := with_srv s (with_interfaces (srv s) d) in
      let errIndex := if errStatus verdict =? snmpErrNoError then 0 else errIndex verdict in
      let! scoped := createScopedPDUEncoded s echoed (errStatus verdict) errIndex msg in
      let! resp := wrapScopedPDUInV3Message s r scoped msg in
      Ok (s', resp)
  | _ => Ok (s, None)
  end.

(** ** Dispatch *)

(** [now] is the engine time at verification, [reads] what each assembled
    message reads; [None] is silence. *)
Definition serveScoped (clock : Z -> Z) (s : V3Server) (reads : nat -> reading) (msg : SNMPv3Message) (oid : bytes) (pduType : Z)
    : res (V3Server * option bytes) :=
  let p := metricsPoint (device (srv s)) in
  if pduType =? ASN1_GET_NEXT then
    let '(responseOID, response) := findNextOIDWithServed (device (srv s)) oid (lldpServed (srv s)) p in
    let '(responseOID, response) := if beq responseOID [] then (oid, valueEndOfMibView) else (responseOID, response) in
    let! r := createSNMPv3Response s (reads 0%nat) responseOID response msg in Ok (s, r)
  else if pduType =? ASN1_GET_BULK then
    let! r := handleSNMPv3GetBulk s reads oid msg (ScopedPDU msg) in Ok (s, r)
  else if pduType =? ASN1_SET_REQUEST then
    let flags := MsgFlags (GlobalData msg) in
    if negb (admitSetV3 (setAdmission (srv s)) flags) then
      let signed := levelValue securityLevelAuthNoPriv <=? levelValue (securityLevelOf flags) in
      let! r := createSNMPv3ReportResponseSigned s (reads 0%nat) oidUsmStatsUnsupportedSecLevels msg signed in Ok (s, r)
    else handleSNMPv3Set clock s (reads 0%nat) msg (ScopedPDU msg)
  else
    let! r := createSNMPv3Response s (reads 0%nat) oid (findResponseAt (device (srv s)) oid p) msg in Ok (s, r).

Definition handleSNMPv3Request (clock : Z -> Z) (s : V3Server) (now : Z) (reads : nat -> reading) (requestData : bytes)
    : res (V3Server * option bytes) :=
  if negb (v3Enabled s) then Ok (s, None) else
  let! r := parseSNMPv3Message requestData in
  match r with
  | None => Ok (s, None)
  | Some msg =>
      if negb (validateSNMPv3Credentials s msg) then
        let! r := createSNMPv3ReportResponse s (reads 0%nat) oidUsmStatsUnknownUserNames msg in Ok (s, r)
      else if isDiscovery msg then
        let! r := createSNMPv3DiscoveryResponse s (reads 0%nat) msg in Ok (s, r)
      else
      let! refused := authenticateInbound s now requestData msg in
      match refused with
      | Some reportOID =>
          let! r := createSNMPv3ReportResponseSigned s (reads 0%nat) reportOID msg (beq reportOID oidUsmStatsNotInTimeWindows) in Ok (s, r)
      | None =>
          let! opened := openScoped s msg in
          match opened with
          | inr reportOID => let! r := createSNMPv3ReportResponse s (reads 0%nat) reportOID msg in Ok (s, r)
          | inl msg =>
              let! r := extractOIDAndTypeFromScopedPDU (ScopedPDU msg) in
              match r with
              | None => Ok (s, None)
              | Some (oid, pduType) => serveScoped clock s reads msg oid pduType
              end
          end
      end
  end.

(** One datagram of any version. *)
Definition handleSingleRequest (clock : Z -> Z) (s : V3Server) (now : Z) (reads : nat -> reading) (requestData : bytes)
    : res (V3Server * option bytes) :=
  let! v3 := isSNMPv3Request requestData in
  if v3 then handleSNMPv3Request clock s now reads requestData
  else let! (x, r) := handleSNMPv2cRequest clock (srv s) requestData in Ok (with_srv s x, r).

Context `{!CryptoLaws}.

(** ** Serving ends, and what it can change *)

Lemma usmAuthDigest_wp m key h (P : option bytes -> Prop) :
  P None -> (forall d, len d = 12 -> bytes_ok d -> P (Some d)) -> wp (usmAuthDigest m key h) P.
Proof.
  intros HN HS. destruct h as [h|]; [|done]. destruct key as [|k key]; [done|].
  destruct (usmAuthDigest_spec m (k :: key) h ltac:(done)) as [-> Hl]. simpl. apply HS; [done|]. apply Forall_take, hmac_sum_ok.
Qed.

(** What a deployment feeds the encoders: octets. *)
Definition env_octets (s : V3Server) (reads : nat -> reading) : Prop :=
  bytes_ok (engineID (usm s)) /\ (forall i, octets_of (r_salt (reads i))) /\ serves_octets (srv s).
Definition reply_ok (s : V3Server) (reads : nat -> reading) (x : option bytes) : Prop := env_octets s reads -> octets_of x.
(** A message made of octets. *)
Definition msg_octets (m : SNMPv3Message) : Prop :=
  bytes_ok (ScopedPDU m) /\ is_byte (MsgFlags (GlobalData m)) /\ bytes_ok (UserName (SecurityParams m)).

Lemma substitute_wp m d : wp (substituteAuthParams m d) (fun x => bytes_ok m -> bytes_ok d -> octets_of x).
Proof.
  unfold substituteAuthParams. wp_step; [done|]. wp_step. apply locateAuthParams_wp; [done|]. intros off n Ho Hn Hl.
  wp_step; [done|]. wp_step. unfold overwrite. wp_step. apply wp_slice; [lia|lia|]. simpl. octets.
Qed.

Lemma encodeUSM_octets p :
  bytes_ok (AuthoritativeEngineID p) -> bytes_ok (UserName p) -> bytes_ok (AuthParams p) -> bytes_ok (PrivParams p) ->
  bytes_ok (encodeUSMSecurityParameters p).
Proof. intros. unfold encodeUSMSecurityParameters. apply encodeSequence_octets. repeat (apply octets_app; [octets|]). octets. Qed.

Lemma encodeSNMPv3Message_octets m u : is_byte (MsgFlags (GlobalData m)) -> bytes_ok (ScopedPDU m) -> bytes_ok u -> bytes_ok (encodeSNMPv3Message m u).
Proof.
  intros Hf Hp Hu. unfold encodeSNMPv3Message, globalContents. apply encodeSequence_octets. apply octets_app; [octets|].
  apply octets_app; [apply encodeSequence_octets; repeat (apply octets_app; [octets|]); octets|].
  apply octets_app; [octets|]. case_if; octets.
Qed.

Lemma zeroed_octets (b : bool) : bytes_ok (if b then usmZeroedAuthParams else []).
Proof. destruct b; [apply bytes_okb_ok; reflexivity|octets]. Qed.

Lemma encryptScopedPDUAt_octets c u pdu b t salt e pp :
  encryptScopedPDUAt c u pdu b t salt = Some (e, pp) -> octets_of salt -> bytes_ok e /\ bytes_ok pp.
Proof.
  unfold encryptScopedPDUAt, encryptDES, encryptAES128At. intros He Hs.
  repeat case_match; simplify_eq; (split; [first [apply des_cbc_ok|apply aes_cfb_ok]|done]).
Qed.

Lemma ldiff_byte f b : is_byte f -> is_byte (Z.ldiff f b).
Proof.
  unfold is_byte. intros Hf. assert (E : Z.ldiff f b = Z.ldiff f b mod 2 ^ 8).
  { rewrite <- Z.land_ones by lia. rewrite !Z.ldiff_land, <- Z.land_assoc, (Z.land_comm (Z.lnot b)), Z.land_assoc.
    rewrite Z.land_ones, Z.mod_small by lia. done. }
  rewrite E. pose proof (Z.mod_pos_bound (Z.ldiff f b) (2 ^ 8)). lia.
Qed.

Lemma wrapScopedPDUInV3MessageWith_wp s r pdu id flags user :
  wp (wrapScopedPDUInV3MessageWith s r pdu id flags user)
     (fun x => bytes_ok (engineID (usm s)) -> octets_of (r_salt r) -> bytes_ok pdu -> is_byte flags -> bytes_ok user -> octets_of x).
Proof.
  unfold wrapScopedPDUInV3MessageWith. destruct (v3Config s) as [c|]; [|done]. wp_step; [done|]. cbv zeta.
  match goal with |- wp match ?x with _ => _ end _ => destruct x as [[e pp]|] eqn:Ee end; [|done].
  match goal with |- context [encodeSNMPv3Message ?m ?u] =>
    assert (Hm : bytes_ok (engineID (usm s)) -> octets_of (r_salt r) -> bytes_ok pdu -> is_byte flags -> bytes_ok user -> bytes_ok (encodeSNMPv3Message m u)) end.
  { intros Hi Hs Hp Hf Hu. assert (bytes_ok e /\ bytes_ok pp) as [He Hpp].
    { destruct (negb _ && _); [by eapply encryptScopedPDUAt_octets|]. simplify_eq. split; octets. }
    apply encodeSNMPv3Message_octets; [by apply ldiff_byte|done|].
    apply encodeUSM_octets; [done|done|apply zeroed_octets|done]. }
  wp_step; [|exact Hm]. wp_step. apply usmAuthDigest_wp; [done|]. intros d _ Hd. eapply wp_mono; [apply substitute_wp|]. simpl. auto.
Qed.

Lemma wrapScopedPDUInV3Message_wp s reads i pdu m :
  (env_octets s reads -> bytes_ok pdu) -> msg_octets m -> wp (wrapScopedPDUInV3Message s (reads i) pdu m) (reply_ok s reads).
Proof.
  intros Hp (Hs & Hf & Hu). unfold wrapScopedPDUInV3Message. wp_step; [done|].
  eapply wp_mono; [apply wrapScopedPDUInV3MessageWith_wp|]. intros x Hx He. pose proof He as (Hi & Hr & _). apply Hx; auto.
Qed.

Lemma report_bytes s oid : bytes_ok (engineID (usm s)) -> bytes_ok (createDiscoveryScopedPDU s oid (str "1")).
Proof.
  intros Hi. unfold createDiscoveryScopedPDU, wrapInScopedPDU, scopedContents. apply encodeSequence_octets.
  apply octets_app; [octets|]. apply octets_app; [octets|]. apply octets_cons; [octets|]. apply octets_app; [octets|].
  do 3 (apply octets_app; [octets|]). apply encodeSequence_octets, encodeSequence_octets, octets_app; [octets|].
  apply encodeTypedValue_octets. apply bytes_okb_ok. reflexivity.
Qed.

Lemma createSNMPv3ReportResponseSigned_wp s reads i oid m sign :
  msg_octets m -> wp (createSNMPv3ReportResponseSigned s (reads i) oid m sign) (reply_ok s reads).
Proof.
  intros (Hs & Hf & Hu). unfold createSNMPv3ReportResponseSigned. wp_step; [done|]. cbv zeta.
  set (sg := sign && _ && _). clearbody sg.
  match goal with |- context [encodeSNMPv3Message ?m ?u] => assert (Hm : env_octets s reads -> bytes_ok (encodeSNMPv3Message m u)) end.
  { intros (Hi & _ & _). apply encodeSNMPv3Message_octets; [by destruct sg|by apply report_bytes|].
    apply encodeUSM_octets; [done|destruct sg; [done|constructor]|apply zeroed_octets|constructor]. }
  wp_step; [|exact Hm]. wp_step. apply usmAuthDigest_wp.
  - eapply wp_mono; [apply substitute_wp|]. intros x Hx He. apply Hx; [auto|constructor].
  - intros d _ Hd. eapply wp_mono; [apply substitute_wp|]. intros x Hx He. apply Hx; auto.
Qed.

Lemma createScopedPDUEncoded_wp s vb st ix m :
  bytes_ok (ScopedPDU m) -> wp (createScopedPDUEncoded s vb st ix m) (fun x => bytes_ok (engineID (usm s)) -> bytes_ok vb -> bytes_ok x).
Proof.
  intros Hok. unfold createScopedPDUEncoded. wp_step. eapply wp_mono; [by apply extractRequestID_safe|]. intros id _. cbn [wp].
  intros Hi Hv. unfold wrapInScopedPDU, scopedContents. apply encodeSequence_octets. apply octets_app; [octets|].
  apply octets_app; [octets|]. apply octets_cons; [octets|]. apply octets_app; [octets|]. repeat (apply octets_app; [octets|]). octets.
Qed.

Lemma bindingsOf_octets l : Forall (fun b => bytes_ok (snd b)) l -> bytes_ok (bindingsOf l).
Proof.
  induction 1 as [|[o v] l Hv _ IH]; [constructor|]. unfold bindingsOf. cbn [map concat fst snd]. apply octets_app; [|exact IH].
  unfold encodeVarBind. octets.
Qed.

Lemma createScopedPDUMulti_wp s reads os vs m (P : option bytes -> Prop) :
  bytes_ok (ScopedPDU m) -> (env_octets s reads -> Forall bytes_ok vs) -> P None ->
  (forall x, (env_octets s reads -> bytes_ok x) -> P (Some x)) -> wp (createScopedPDUMulti s os vs m) P.
Proof.
  intros Hok Hv HN HP. unfold createScopedPDUMulti. wp_step; [done|]. wp_step.
  eapply wp_mono; [by apply createScopedPDUEncoded_wp|]. intros x Hx. cbn [wp]. apply HP. intros He.
  pose proof He as (Hi & _ & _). apply Hx; [done|]. apply bindingsOf_octets, Forall_zip_snd. auto.
Qed.

Lemma createSNMPv3Response_wp s reads i o v m :
  msg_octets m -> (env_octets s reads -> bytes_ok v) -> wp (createSNMPv3Response s (reads i) o v m) (reply_ok s reads).
Proof.
  intros Hm Hv. pose proof Hm as (Hok & _). unfold createSNMPv3Response, createScopedPDU. wp_step.
  apply (createScopedPDUMulti_wp s reads); [done|intros; repeat constructor; auto|done|].
  intros pdu Hpdu. by apply wrapScopedPDUInV3Message_wp.
Qed.

(** ** The search for the prefix that fits *)

Section PrefixSearch.
  Context {St : Type} (build : Z -> St -> res (option bytes * St)) (limit : Z) (Q : option bytes -> Prop).
  Hypothesis Hbuild : forall n st, wp (build n st) (fun r => Q (fst r)).
  Hypothesis HNone : Q None.

(** The search ends within its fuel and answers with something it built. *)
Lemma bisect_loop_wp fuel : forall lo hi best st,
  Q (Some best) -> hi - lo <= 2 ^ Z.of_nat fuel -> wp (bisect_loop build limit (S fuel) lo hi best st) (fun r => Q (fst r)).
Proof.
  induction fuel as [|fuel IH]; intros lo hi best st Hi Hf.
  { change (2 ^ Z.of_nat 0) with 1 in Hf. cbn [bisect_loop]. case_if; [lia|]. done. }
  cbn [bisect_loop]. wp_step; [|done]. rewrite Nat2Z.inj_succ, Z.pow_succ_r in Hf by lia.
  rewrite Z.quot_div_nonneg by lia. pose proof (Z.div_mod (hi - lo) 2 ltac:(lia)). pose proof (Z.mod_pos_bound (hi - lo) 2 ltac:(lia)).
  wp_step. eapply wp_mono; [apply Hbuild|]. intros [[resp|] st'] Hr; [|done]. cbn [fst] in Hr.
  case_if; apply IH; first [done|lia].
Qed.

Lemma largestFittingPrefix_wp count st : wp (largestFittingPrefix build limit count st) (fun r => Q (fst r)).
Proof.
  unfold largestFittingPrefix. wp_step; [done|]. wp_step. eapply wp_mono; [apply Hbuild|].
  intros [[full|] st1] Hr1; [|done]. cbn [fst] in Hr1. wp_step; [done|]. wp_step. eapply wp_mono; [apply Hbuild|].
  intros [[best|] st2] Hr2; [|done]. cbn [fst] in Hr2. apply bisect_loop_wp; [done|].
  destruct (Z.log2_up_spec count); [lia|]. rewrite Z2Nat.id by apply Z.log2_up_nonneg. lia.
Qed.
End PrefixSearch.

Lemma buildBulk_wp s reads os vs m n i :
  msg_octets m -> (env_octets s reads -> Forall bytes_ok vs) -> wp (buildBulk s reads os vs m n i) (fun r => reply_ok s reads (fst r)).
Proof.
  intros Hm Hv. pose proof Hm as (Hok & _). unfold buildBulk. wp_step.
  apply (createScopedPDUMulti_wp s reads); [done|intros; apply Forall_take; auto|done|]. intros pdu Hpdu. wp_step.
  eapply wp_mono; [by apply wrapScopedPDUInV3Message_wp|]. done.
Qed.

Lemma bulkStep_octets s p o r : serves_octets s -> bulkStep s p o = Some r -> bytes_ok (snd r).
Proof.
  intros [_ Hs]. unfold bulkStep. pose proof (Hs o p) as Hn. destruct (findNextOIDWithServed _ _ _ _) as [o' v'].
  repeat (case_if; [done|]). by intros [= <-].
Qed.

Lemma v3_repetitions_octets s p n : forall rep single cols,
  serves_octets s -> Forall (fun b => bytes_ok (snd b)) (v3_repetitions n rep single s p cols).
Proof.
  induction n as [|n IH]; intros rep single cols Hs; cbn [v3_repetitions]; [constructor|]. case_if; [constructor|].
  apply Forall_app. split; [|case_if; [constructor|by apply IH]].
  apply List.Forall_forall. intros x Hx. apply in_map_iff in Hx as (y & <- & Hy). apply in_map_iff in Hy as (c & <- & _).
  unfold v3_column_step. case_if; [octets|]. destruct (bulkStep s p (currentOID c)) as [[o v]|] eqn:Eb; [|octets].
  by apply bulkStep_octets in Eb.
Qed.

Lemma v3_bulk_bindings_octets s p l nr mr : serves_octets s -> Forall (fun b => bytes_ok (snd b)) (v3_bulk_bindings s p l nr mr).
Proof.
  intros Hs. unfold v3_bulk_bindings. apply Forall_app. split; [|case_if; [constructor|by apply v3_repetitions_octets]].
  apply List.Forall_forall. intros x Hx. apply in_map_iff in Hx as (o & <- & _). unfold v3_nonrepeater.
  destruct (bulkStep s p o) eqn:Eb; [by apply bulkStep_octets in Eb|octets].
Qed.

Lemma handleSNMPv3GetBulk_wp s reads start m : msg_octets m -> wp (handleSNMPv3GetBulk s reads start m (ScopedPDU m)) (reply_ok s reads).
Proof.
  intros Hm. pose proof Hm as (Hok & _). unfold handleSNMPv3GetBulk. wp_step. apply parseSNMPv3GetBulkParams_wp; [done|]. intros nr mr _ _.
  wp_step. apply parseAllOIDsFromScopedPDU_wp; [done|]. intros oids ok _. wp_step; [done|]. cbv zeta. wp_step.
  - unfold createSNMPv3EmptyGetBulkResponse. wp_step. apply (createScopedPDUMulti_wp s reads); [done|constructor|done|].
    intros pdu Hpdu. by apply wrapScopedPDUInV3Message_wp.
  - unfold createSNMPv3GetBulkResponse. wp_step; [apply createSNMPv3Response_wp; [done|intros; octets]|]. wp_step.
    eapply wp_mono; [apply largestFittingPrefix_wp|by intros [x ?]]; [|done].
    intros n i. apply buildBulk_wp; [done|]. intros (_ & _ & Hs). by apply Forall_map_snd, v3_bulk_bindings_octets.
Qed.

Lemma handleSNMPv3Set_wp clock s reads m (P : V3Server * option bytes -> Prop) :
  msg_octets m -> (forall x, reply_ok s reads x -> P (s, x)) ->
  (forall d x, reply_ok s reads x -> P (with_srv s (with_interfaces (srv s) d), x)) ->
  wp (handleSNMPv3Set clock s (reads 0%nat) m (ScopedPDU m)) P.
Proof.
  intros Hm Hs Hd. pose proof Hm as (Hok & _). unfold handleSNMPv3Set, parseSetVarBindsFromScopedPDU. wp_step. wp_step.
  apply scopedPDUVarBindListPos_wp; [done|by apply Hs|by apply Hs|]. intros b p Hb Hp.
  apply parseVarBinds_echo; [done|done|by apply Hs|by apply Hs|]. intros binds echoed He.
  wp_step. eapply wp_mono; [apply decideSet_safe|]. intros [d v] _. cbv zeta.
  wp_step. eapply wp_mono; [by apply createScopedPDUEncoded_wp|]. intros pdu Hpdu.
  wp_step. eapply wp_mono; [apply (wrapScopedPDUInV3Message_wp s reads); [|done]|].
  - intros (Hi & _). by apply Hpdu.
  - intros x Hx. by apply Hd.
Qed.

Lemma usmVerifyAuthDigest_safe m claimed key h : safe (usmVerifyAuthDigest m claimed key h).
Proof.
  destruct h as [h|]; [|unfold usmVerifyAuthDigest; by rewrite bool_decide_eq_true_2, orb_true_r].
  destruct key as [|k key]; [unfold usmVerifyAuthDigest; by rewrite orb_true_r|].
  destruct (usmVerifyAuthDigest_spec m claimed (k :: key) h ltac:(done)) as (ok & -> & _). done.
Qed.

Lemma authenticateInbound_safe s now data m : safe (authenticateInbound s now data m).
Proof.
  unfold authenticateInbound, safe. wp_step; [by wp_step|]. wp_step; [done|]. wp_step.
  eapply wp_mono; [apply usmVerifyAuthDigest_safe|]. intros ok _. wp_step; [done|]. by wp_step.
Qed.

Lemma decryptScopedPDUAt_ok c u e pp b t d : decryptScopedPDUAt c u e pp b t = Some d -> bytes_ok e -> bytes_ok d.
Proof.
  unfold decryptScopedPDUAt, decryptDES, decryptAES128At. intros Hd He. repeat case_match; simplify_eq; first [done|apply des_cbc_ok|apply aes_cfb_ok].
Qed.

(** What opening leaves: a message that differs in its scoped PDU only, which is
    made of octets. *)
Lemma openScoped_wp s m (P : SNMPv3Message + bytes -> Prop) :
  bytes_ok (ScopedPDU m) -> (forall o, P (inr o)) -> (forall c, bytes_ok c -> P (inl (with_scoped m c))) -> wp (openScoped s m) P.
Proof.
  intros Hok HR HL. unfold openScoped. wp_step; [|destruct m as [v g sp pdu]; by apply (HL pdu)].
  destruct (v3Config s) as [c|]; [|apply HR]. wp_step; [apply HR|].
  destruct (decryptScopedPDUAt _ _ _ _ _ _) as [d|] eqn:Ed; [|apply HR]. apply decryptScopedPDUAt_ok in Ed; [|done].
  wp_step. apply (wp_mono _ (fun r => forall c, r = Some c -> bytes_ok c)).
  - unfold unwrapDecrypted. repeat wp_v3. intros ? [= <-]. done.
  - intros [x|] Hx; [|apply HR]. apply HL. by apply Hx.
Qed.

(** What passes authentication: a message that claims no authentication asks for
    no privacy either; one that claims it verifies under the engine's key and is
    inside the time window. *)
Definition authenticated (s : V3Server) (now : Z) (data : bytes) (m : SNMPv3Message) : Prop :=
  if flagSet (MsgFlags (GlobalData m)) SNMPV3_MSG_FLAG_AUTH then
    authKey (usm s) <> [] /\
    usmVerifyAuthDigest data (AuthParams (SecurityParams m)) (authKey (usm s)) (newHash (usm s)) = Ok true /\
    withinTimeWindow (usm s) now (AuthoritativeEngineBoots (SecurityParams m)) (AuthoritativeEngineTime (SecurityParams m)) = true
  else flagSet (MsgFlags (GlobalData m)) SNMPV3_MSG_FLAG_PRIV = false.

Lemma authenticateInbound_passed s now data m : authenticateInbound s now data m = Ok None -> authenticated s now data m.
Proof.
  unfold authenticateInbound, authenticated. destruct (flagSet _ SNMPV3_MSG_FLAG_AUTH); cbn [negb]; [|by destruct (flagSet _ _)].
  destruct (bool_decide _ || _) eqn:Ek; [done|]. apply orb_false_iff in Ek as [_ Ek].
  destruct (usmVerifyAuthDigest _ _ _ _) as [[]| |]; cbn [res_bind negb]; try done.
  destruct (withinTimeWindow _ _ _ _); cbn [negb]; [|done]. intros _. split_and!; [|done|done]. by intros E; rewrite E in Ek.
Qed.

(** The requests that may change state. *)
Definition v3_set_admitted (s : V3Server) (now : Z) (data : bytes) : Prop :=
  exists c msg opened oid,
    v3Config s = Some c /\ Enabled c = true /\
    parseSNMPv3Message data = Ok (Some msg) /\ UserName (SecurityParams msg) = Username c /\
    authenticated s now data msg /\ openScoped s msg = Ok (inl opened) /\
    extractOIDAndTypeFromScopedPDU (ScopedPDU opened) = Ok (Some (oid, ASN1_SET_REQUEST)) /\
    admitSetV3 (setAdmission (srv s)) (MsgFlags (GlobalData msg)) = true.

Lemma serveScoped_wp clock s reads m oid t (P : V3Server * option bytes -> Prop) :
  msg_octets m -> (forall x, reply_ok s reads x -> P (s, x)) ->
  (t = ASN1_SET_REQUEST -> admitSetV3 (setAdmission (srv s)) (MsgFlags (GlobalData m)) = true ->
     forall d x, reply_ok s reads x -> P (with_srv s (with_interfaces (srv s) d), x)) ->
  wp (serveScoped clock s reads m oid t) P.
Proof.
  intros Hm Hs Hset. unfold serveScoped. wp_step; [|wp_step; [|wp_step]].
  - assert (Hn : env_octets s reads -> bytes_ok (snd (findNextOIDWithServed (device (srv s)) oid (lldpServed (srv s)) (metricsPoint (device (srv s))))))
      by (intros (_ & _ & _ & Hn); apply Hn).
    destruct (findNextOIDWithServed _ _ _ _) as [o v].
    match goal with |- context [if ?b then (oid, _) else _] => destruct b end;
      wp_step; (eapply wp_mono; [apply (createSNMPv3Response_wp s reads 0); [done|intros; octets]|]); intros x Hx; by apply Hs.
  - wp_step. eapply wp_mono; [by apply handleSNMPv3GetBulk_wp|]. intros x Hx. by apply Hs.
  - destruct (admitSetV3 _ _) eqn:Ea; cbn [negb].
    + apply handleSNMPv3Set_wp; [done|done|]. zbool. by apply Hset.
    + wp_step. eapply wp_mono; [by apply createSNMPv3ReportResponseSigned_wp|]. intros x Hx. by apply Hs.
  - wp_step. eapply wp_mono; [apply (createSNMPv3Response_wp s reads 0); [done|intros (_ & _ & Hn & _); apply Hn]|]. intros x Hx. by apply Hs.
Qed.

Lemma validate_user s c m :
  v3Config s = Some c -> validateSNMPv3Credentials s m = true -> isDiscovery m = false -> UserName (SecurityParams m) = Username c.
Proof.
  unfold validateSNMPv3Credentials. intros -> Hv Hd. rewrite Hd in Hv. destruct (Enabled c); [|done]. cbn [negb andb] in Hv. unfold beq in Hv. by zbool.
Qed.

Lemma handleSNMPv3Request_wp clock s now reads data (P : V3Server * option bytes -> Prop) :
  bytes_ok data -> (forall x, reply_ok s reads x -> P (s, x)) ->
  (v3_set_admitted s now data -> forall d x, reply_ok s reads x -> P (with_srv s (with_interfaces (srv s) d), x)) ->
  wp (handleSNMPv3Request clock s now reads data) P.
Proof.
  intros Hok Hs Hset. unfold handleSNMPv3Request. wp_step; [by apply Hs|].
  assert (Hc : exists c, v3Config s = Some c /\ Enabled c = true).
  { unfold v3Enabled in E. destruct (v3Config s) as [c|]; [|done]. exists c. by destruct (Enabled c). }
  destruct Hc as (c & Hc & Hen).
  destruct (wp_Ok (parseSNMPv3Message data) (fun r => forall m, r = Some m -> msg_octets m)) as (r & Hr & Hp).
  { apply parseSNMPv3Message_wp; [done|done|]. by intros m ? ? ? ? ? ? [= <-]. }
  rewrite Hr. cbn [res_bind]. destruct r as [m|]; [|by apply Hs]. specialize (Hp m eq_refl).
  assert (Hrep : forall o sg, wp (let! x := createSNMPv3ReportResponseSigned s (reads 0%nat) o m sg in Ok (s, x)) P).
  { intros o sg. wp_step. eapply wp_mono; [by apply createSNMPv3ReportResponseSigned_wp|]. intros x Hx. by apply Hs. }
  destruct (validateSNMPv3Credentials s m) eqn:Ev; cbn [negb]; [|apply Hrep].
  destruct (isDiscovery m) eqn:Ed; [apply Hrep|].
  destruct (proj1 (safe_Ok _) (authenticateInbound_safe s now data m)) as [ref Ha]. rewrite Ha. cbn [res_bind].
  destruct ref as [o|]; [apply Hrep|].
  destruct (wp_Ok (openScoped s m) (fun r => match r with inl m' => msg_octets m' /\ GlobalData m' = GlobalData m | inr _ => True end))
    as (opened & Ho & Hm'); [by destruct Hp as (? & ? & ?); apply openScoped_wp|]. rewrite Ho. cbn [res_bind].
  destruct opened as [m'|o]; [|apply Hrep]. destruct Hm' as [Hok' Hf].
  destruct (wp_Ok (extractOIDAndTypeFromScopedPDU (ScopedPDU m')) (fun _ => True)) as (x & Hx & _); [by destruct Hok'; apply extractOID_wp|].
  rewrite Hx. cbn [res_bind].
  destruct x as [[oid t]|]; [|by apply Hs]. apply serveScoped_wp; [done|done|]. intros -> Hadm d x. apply Hset.
  exists c, m, m', oid. rewrite Hf in Hadm. split_and!; try done; [by eapply validate_user|by apply authenticateInbound_passed].
Qed.

Lemma with_srv_id s : with_srv s (srv s) = s.
Proof. by destruct s. Qed.

(** ** Theorems: any datagram *)



End V3.

(** ** Samples *)

Definition sampleConfig : SNMPv3Config :=
  {| Enabled := true; EngineID := [0x80; 0; 0x1f; 0x88; 0x80]; Username := str "ops"; Password := str "secret12";
     AuthProtocol := SNMPV3_AUTH_SHA1; PrivProtocol := SNMPV3_PRIV_AES128; PrivPassword := [] |}.
Definition sampleV3 : V3Server :=
  {| srv := sampleServer; v3Config := Some sampleConfig;
     usm := {| engineID := [0x80; 0; 0x1f; 0x88; 0x80]; authKey := repeat 7 20; privKey := repeat 9 20; newHash := Some SHA1; engineBoots := 1 |} |}.
Definition sampleReads (i : nat) : reading := {| r_time := 300; r_salt := Some [1; 2; 3; 4; 5; 6; 7; 8] |}.


