(* ===== verification/V3Session.v ===== *)
(** * A manager's exchange over SNMPv3 (snmp.go, snmpv3.go, snmpv3_crypto.go)

    [seal] is what a manager, or this agent, does to a scoped PDU: encrypt it if the
    message asks for privacy, put it into the envelope, and sign the whole message
    if it asks for authentication.  This file shows that opening undoes sealing,
    that the agent's own assembly is a sealing, and puts the two together: a
    manager that holds the keys gets the device's answer back. *)

From S2P Require Import Prelude GoStrings Ber Oid TypedValue Request Response OidOrder Walk IfState SetReq Server Octets V3Msg Usm V3Server.

(** ** Sizes *)

Lemma be_loop_len fuel : forall v acc, len (be_loop fuel v acc) <= Z.of_nat fuel + len acc.
Proof.
  induction fuel as [|fuel IH]; intros v acc; cbn [be_loop]; [lia|]. case_if; [|lia].
  etransitivity; [apply IH|]. rewrite len_cons. lia.
Qed.

Lemma integerBody_short v : len (integerBody v) <= 9.
Proof.
  unfold integerBody. case_if; [done|]. case_if.
  - pose proof (be_loop_len 8 v []) as Hl. rewrite len_nil in Hl. destruct (be_loop 8 v []); [done|]. case_if; [rewrite len_cons|]; lia.
  - repeat case_if; repeat case_match; repeat rewrite len_cons; rewrite ?len_nil; lia.
Qed.

Lemma hlen_le n : 0 <= n <= MaxInt32 -> hlen n <= 10.
Proof.
  intros Hn. unfold hlen, encodeLength. case_if; [done|]. rewrite len_cons. pose proof (be_loop_len 8 n []) as Hl. rewrite len_nil in Hl. lia.
Qed.

Lemma len_tlv_le t b : len b <= MaxInt32 -> len (tlv t b) <= len b + 10.
Proof. intros Hb. rewrite len_tlv. pose proof (hlen_le (len b)). pose proof (len_nonneg b). lia. Qed.

Lemma encodeInteger_le v : len (encodeInteger v) <= 19.
Proof. rewrite encodeInteger_tlv. pose proof (integerBody_short v). etransitivity; [apply len_tlv_le; unfold MaxInt32; lia|]. lia. Qed.

(** The envelope adds less than 300 octets to what it carries. *)
Lemma message_len g sp e p :
  let carried := len e + len (AuthoritativeEngineID p) + len (UserName p) + len (AuthParams p) + len (PrivParams p) in
  carried <= MaxInt32 - 300 ->
  len (encodeSNMPv3Message {| msgVersion := SNMPV3_VERSION; GlobalData := g; SecurityParams := sp; ScopedPDU := e |} (encodeUSMSecurityParameters p))
    <= carried + 300.
Proof.
  intros carried Hc. unfold carried in Hc. pose proof (len_nonneg e) as N1. pose proof (len_nonneg (AuthoritativeEngineID p)) as N2.
  pose proof (len_nonneg (UserName p)) as N3. pose proof (len_nonneg (AuthParams p)) as N4. pose proof (len_nonneg (PrivParams p)) as N5.
  unfold MaxInt32 in *.
  assert (Hu : len (encodeUSMSecurityParameters p) <= carried - len e + 88).
  { unfold encodeUSMSecurityParameters. rewrite encodeSequence_tlv.
    pose proof (encodeInteger_le (AuthoritativeEngineBoots p)). pose proof (encodeInteger_le (AuthoritativeEngineTime p)).
    pose proof (len_tlv_le ASN1_OCTET_STRING (AuthoritativeEngineID p) ltac:(unfold carried, MaxInt32 in *; lia)).
    pose proof (len_tlv_le ASN1_OCTET_STRING (UserName p) ltac:(unfold carried, MaxInt32 in *; lia)).
    pose proof (len_tlv_le ASN1_OCTET_STRING (AuthParams p) ltac:(unfold carried, MaxInt32 in *; lia)).
    pose proof (len_tlv_le ASN1_OCTET_STRING (PrivParams p) ltac:(unfold carried, MaxInt32 in *; lia)).
    rewrite !encodeOctetString_tlv. generalize dependent (encodeInteger (AuthoritativeEngineBoots p)). intros i1 Hi1.
    generalize dependent (encodeInteger (AuthoritativeEngineTime p)). intros i2 Hi2.
    etransitivity; [apply len_tlv_le|]; rewrite !len_app; unfold carried, MaxInt32; lia. }
  assert (Hg : len (encodeSequence (globalContents g)) <= 90).
  { unfold globalContents. rewrite encodeSequence_tlv, encodeOctetString_tlv.
    pose proof (encodeInteger_le (MsgID g)). pose proof (encodeInteger_le (MsgMaxSize g)). pose proof (encodeInteger_le (MsgSecurityModel g)).
    pose proof (len_tlv_le ASN1_OCTET_STRING [MsgFlags g] ltac:(unfold MaxInt32; rewrite len_cons, len_nil; lia)) as Hf.
    rewrite len_cons, len_nil in Hf. generalize dependent (encodeInteger (MsgID g)). intros i1 Hi1.
    generalize dependent (encodeInteger (MsgMaxSize g)). intros i2 Hi2. generalize dependent (encodeInteger (MsgSecurityModel g)). intros i3 Hi3.
    etransitivity; [apply len_tlv_le|]; rewrite !len_app; unfold MaxInt32; lia. }
  unfold encodeSNMPv3Message. cbn [msgVersion GlobalData ScopedPDU]. rewrite (encodeSequence_tlv (_ ++ _)).
  pose proof (encodeInteger_le SNMPV3_VERSION) as Hv. generalize dependent (encodeSequence (globalContents g)). intros gs Hg.
  generalize dependent (encodeUSMSecurityParameters p). intros us Hu. generalize dependent (encodeInteger SNMPV3_VERSION). intros vs Hv.
  rewrite !encodeOctetString_tlv. pose proof (len_tlv_le ASN1_OCTET_STRING us ltac:(unfold carried, MaxInt32 in *; lia)).
  pose proof (len_tlv_le ASN1_OCTET_STRING e ltac:(unfold carried, MaxInt32 in *; lia)).
  unfold carried in *. destruct (negb _); (etransitivity; [apply len_tlv_le|]); rewrite !len_app; unfold MaxInt32; lia.
Qed.

(** ** Sealing and opening *)

Section Session.
Context `{CryptoLaws}.

Definition authOf (g : SNMPv3GlobalData) : bool := flagSet (MsgFlags g) SNMPV3_MSG_FLAG_AUTH.
Definition privOf (g : SNMPv3GlobalData) : bool := flagSet (MsgFlags g) SNMPV3_MSG_FLAG_PRIV.

(** A message to or from the engine of [s] that carries [contents] under the
    global data [g], at boots and time [boots] and [time]. *)
Definition seal (s : V3Server) (c : SNMPv3Config) (g : SNMPv3GlobalData) (boots time : Z) (user salt contents : bytes) : res (option bytes) :=
  let u := usm s in
  match (if privOf g then encryptScopedPDUAt c u (encodeSequence contents) boots time (Some salt)
         else Some (encodeSequence contents, [])) with
  | None => Ok None
  | Some (e, pp) =>
      let p := {| AuthoritativeEngineID := engineID u; AuthoritativeEngineBoots := boots; AuthoritativeEngineTime := time;
                  UserName := user; AuthParams := if authOf g then usmZeroedAuthParams else []; PrivParams := pp |} in
      let m := encodeSNMPv3Message {| msgVersion := SNMPV3_VERSION; GlobalData := g; SecurityParams := noParams; ScopedPDU := e |}
                                   (encodeUSMSecurityParameters p) in
      if authOf g then
        let! d := usmAuthDigest m (authKey u) (newHash u) in
        match d with None => Ok None | Some d => substituteAuthParams m d end
      else Ok (Some m)
  end.

(** The keys a message at the level of [flags] needs. *)
Definition keyed (s : V3Server) (c : SNMPv3Config) (flags : Z) : Prop :=
  (flagSet flags SNMPV3_MSG_FLAG_AUTH = true -> newHash (usm s) <> None /\ authKey (usm s) <> []) /\
  (flagSet flags SNMPV3_MSG_FLAG_PRIV = true ->
     flagSet flags SNMPV3_MSG_FLAG_AUTH = true /\ (PrivProtocol c = SNMPV3_PRIV_DES \/ PrivProtocol c = SNMPV3_PRIV_AES128) /\
     16 <= len (privKey (usm s))).

Lemma encrypted_len c u pdu boots time salt e pp :
  encryptScopedPDUAt c u pdu boots time (Some salt) = Some (e, pp) -> len e <= len pdu + 8.
Proof.
  unfold encryptScopedPDUAt, encryptDES, encryptAES128At. intros He. repeat case_match; simplify_eq; rewrite ?des_cbc_len, ?aes_cfb_len; [|lia].
  unfold padData. pose proof (Z.mod_pos_bound (len pdu) 8). rewrite len_app, (len_def (repeat _ _)), repeat_length. case_if; lia.
Qed.

Lemma unwrap_sequence contents pad :
  len contents <= MaxInt32 -> unwrapDecrypted (encodeSequence contents ++ pad) = Ok (Some contents).
Proof.
  intros Hl. set (d := encodeSequence contents ++ pad). assert (Hh : holds_at d 0 (tlv ASN1_SEQUENCE contents)) by (by exists [], pad).
  pose proof (holds_at_bounds _ _ _ Hh) as Hb. pose proof (len_tlv_pos ASN1_SEQUENCE contents). clearbody d.
  unfold unwrapDecrypted. case_if; [lia|]. rewrite (holds_at_index _ _ _ _ Hh). cbn [res_bind].
  change (negb (ASN1_SEQUENCE =? ASN1_SEQUENCE)) with false. cbv iota.
  change 1 with (0 + 1). rewrite (holds_at_length _ _ _ _ Hh) by done. cbn [res_bind]. rewrite len_tlv in Hb. pose proof (len_nonneg contents).
  case_if; [|lia]. by rewrite (holds_at_slice _ _ _ (holds_at_body _ _ _ _ Hh)).
Qed.

(** What opens: the parsed message, its digest verified, its scoped PDU in the
    clear. *)
Record opens (s : V3Server) (g : SNMPv3GlobalData) (boots time : Z) (user contents data : bytes) (m : SNMPv3Message) : Prop := {
  opens_v3 : isSNMPv3Request data = Ok true;
  opens_parse : parseSNMPv3Message data = Ok (Some m);
  opens_global : GlobalData m = g;
  opens_user : UserName (SecurityParams m) = user;
  opens_engine : AuthoritativeEngineID (SecurityParams m) = engineID (usm s);
  opens_boots : AuthoritativeEngineBoots (SecurityParams m) = boots;
  opens_time : AuthoritativeEngineTime (SecurityParams m) = time;
  opens_digest : authOf g = true -> usmVerifyAuthDigest data (AuthParams (SecurityParams m)) (authKey (usm s)) (newHash (usm s)) = Ok true;
  opens_scoped : openScoped s m = Ok (inl (with_scoped m contents));
}.

Lemma openScoped_sealed s c g p e pad contents :
  v3Config s = Some c -> (PrivProtocol c = SNMPV3_PRIV_DES \/ PrivProtocol c = SNMPV3_PRIV_AES128) -> privOf g = true ->
  len contents <= MaxInt32 ->
  decryptScopedPDUAt c (usm s) e (PrivParams p) (AuthoritativeEngineBoots p) (AuthoritativeEngineTime p) = Some (encodeSequence contents ++ pad) ->
  let m := {| msgVersion := SNMPV3_VERSION; GlobalData := g; SecurityParams := p; ScopedPDU := e |} in
  openScoped s m = Ok (inl (with_scoped m contents)).
Proof.
  intros Hc Hp Hg Hl Hd m. unfold openScoped. subst m. cbn [GlobalData SecurityParams ScopedPDU]. unfold privOf in Hg.
  rewrite Hg, Hc, Hd. replace (PrivProtocol c =? SNMPV3_PRIV_NONE) with false by (unfold SNMPV3_PRIV_NONE, SNMPV3_PRIV_DES, SNMPV3_PRIV_AES128 in *; lia).
  by rewrite unwrap_sequence.
Qed.

(** The envelope of ciphertext or plaintext, opened. *)
Lemma envelope_opens s c g p e pad contents data :
  v3Config s = Some c -> keyed s c (MsgFlags g) -> global_ok g -> params_ok p ->
  len e + len (AuthoritativeEngineID p) + len (UserName p) + len (AuthParams p) + len (PrivParams p) <= MaxInt32 - 300 ->
  (if privOf g then decryptScopedPDUAt c (usm s) e (PrivParams p) (AuthoritativeEngineBoots p) (AuthoritativeEngineTime p) = Some (encodeSequence contents ++ pad)
   else e = encodeSequence contents) -> len contents <= MaxInt32 ->
  data = encodeSNMPv3Message {| msgVersion := SNMPV3_VERSION; GlobalData := g; SecurityParams := noParams; ScopedPDU := e |} (encodeUSMSecurityParameters p) ->
  exists m, isSNMPv3Request data = Ok true /\ parseSNMPv3Message data = Ok (Some m) /\ GlobalData m = g /\ SecurityParams m = p /\
    openScoped s m = Ok (inl (with_scoped m contents)).
Proof.
  intros Hc Hk Hg Hp Hl He Hcl Hdata.
  assert (Hcar : exists x, carries g e x /\ openScoped s {| msgVersion := SNMPV3_VERSION; GlobalData := g; SecurityParams := p; ScopedPDU := x |} =
            Ok (inl {| msgVersion := SNMPV3_VERSION; GlobalData := g; SecurityParams := p; ScopedPDU := contents |})).
  { destruct (privOf g) eqn:Ep.
    - exists e. split; [unfold carries, encrypted; unfold privOf, flagSet in Ep; by rewrite Ep|].
      destruct Hk as [_ Hk]. destruct (Hk Ep) as (_ & Hpp & _). by eapply openScoped_sealed.
    - exists contents. split; [unfold carries, encrypted; unfold privOf, flagSet in Ep; by rewrite Ep|].
      unfold openScoped. cbn [GlobalData]. unfold privOf in Ep. by rewrite Ep. }
  destruct Hcar as (x & Hx & Ho). exists {| msgVersion := SNMPV3_VERSION; GlobalData := g; SecurityParams := p; ScopedPDU := x |}.
  destruct (parseSNMPv3Message_encode g p e x noParams Hg Hp Hx) as [H1 H2].
  { pose proof (message_len g noParams e p) as Hm. cbv zeta in Hm. specialize (Hm Hl). lia. }
  rewrite Hdata. split_and!; done.
Qed.

(** Opening undoes sealing. *)
Lemma seal_opens s c g boots time user salt contents :
  v3Config s = Some c -> keyed s c (MsgFlags g) -> global_ok g -> 0 <= boots <= MaxInt64 -> 0 <= time <= MaxInt64 ->
  bytes_ok contents -> len salt = 8 -> len contents + len (engineID (usm s)) + len user <= MaxInt32 - 400 ->
  exists data m, seal s c g boots time user salt contents = Ok (Some data) /\ opens s g boots time user contents data m.
Proof.
  intros Hc Hk Hg Hb Ht Hok Hs Hl. unfold seal. pose proof (len_nonneg contents). pose proof (len_nonneg (engineID (usm s))). pose proof (len_nonneg user).
  assert (Hseq : len (encodeSequence contents) <= len contents + 10) by (rewrite encodeSequence_tlv; apply len_tlv_le; unfold MaxInt32 in *; lia).
  assert (He : exists e pp pad, (if privOf g then encryptScopedPDUAt c (usm s) (encodeSequence contents) boots time (Some salt)
                 else Some (encodeSequence contents, [])) = Some (e, pp) /\ len e <= len contents + 18 /\ len pp <= 8 /\
              if privOf g then decryptScopedPDUAt c (usm s) e pp boots time = Some (encodeSequence contents ++ pad) else e = encodeSequence contents).
  { destruct (privOf g) eqn:Ep; [|exists (encodeSequence contents), [], []; split_and!; [done|lia|done|done]].
    destruct Hk as [_ Hk]. destruct (Hk Ep) as (_ & Hpp & Hkl).
    destruct (privacy_roundtrip c (usm s) (encodeSequence contents) boots time salt Hpp Hkl ltac:(octets) Hs) as (e & pad & He & _ & Hd).
    exists e, salt, pad. pose proof (encrypted_len _ _ _ _ _ _ _ _ He). split_and!; [done|lia|lia|done]. }
  destruct He as (e & pp & pad & -> & Hel & Hpl & Hdec).
  set (p := {| AuthoritativeEngineID := engineID (usm s); AuthoritativeEngineBoots := boots; AuthoritativeEngineTime := time;
               UserName := user; AuthParams := []; PrivParams := pp |}).
  set (m0 := {| msgVersion := SNMPV3_VERSION; GlobalData := g; SecurityParams := noParams; ScopedPDU := e |}).
  assert (Hopen : forall d, len d <= 12 -> exists m, isSNMPv3Request (messageWith m0 p d) = Ok true /\
            parseSNMPv3Message (messageWith m0 p d) = Ok (Some m) /\ GlobalData m = g /\ SecurityParams m = with_auth p d /\
            openScoped s m = Ok (inl (with_scoped m contents)) /\ len (messageWith m0 p d) <= MaxInt32).
  { intros d Hd. pose proof (message_len g noParams e (with_auth p d)) as Hm. cbn in Hm. unfold MaxInt32 in *.
    destruct (envelope_opens s c g (with_auth p d) e pad contents (messageWith m0 p d)) as (m & ? & ? & ? & ? & ?); try done; cbn; unfold MaxInt32; try lia.
    exists m. split_and!; try done. unfold messageWith, m0. lia. }
  destruct (authOf g) eqn:Ea.
  - destruct Hk as [Hka _]. destruct (Hka Ea) as [Hh Hkey]. destruct (newHash (usm s)) as [h|] eqn:Eh; [|done].
    destruct (Hopen usmZeroedAuthParams ltac:(done)) as (_ & _ & _ & _ & _ & _ & Hlen).
    destruct (sign_message m0 p (authKey (usm s)) h Hlen Hkey) as (d & Hd & Hdig & Hsub & Hver).
    unfold messageWith at 1 in Hdig. unfold messageWith at 1 in Hsub. unfold with_auth in Hdig, Hsub.
    cbn [AuthoritativeEngineID AuthoritativeEngineBoots AuthoritativeEngineTime UserName AuthParams PrivParams p] in Hdig, Hsub.
    fold m0. rewrite Hdig. cbn [res_bind]. rewrite Hsub.
    destruct (Hopen d ltac:(lia)) as (m & P1 & P2 & P3 & P4 & P5 & _). exists (messageWith m0 p d), m. split; [done|].
    constructor; rewrite ?P4; try done. intros _. by rewrite Eh.
  - destruct (Hopen [] ltac:(done)) as (m & P1 & P2 & P3 & P4 & P5 & _). exists (messageWith m0 p []), m. split; [done|].
    constructor; rewrite ?P4; try done. by rewrite Ea.
Qed.

(** The agent's own assembly is a sealing. *)
Definition replyGlobal (g : SNMPv3GlobalData) : SNMPv3GlobalData :=
  {| MsgID := MsgID g; MsgMaxSize := v3MsgMaxSize; MsgFlags := Z.ldiff (MsgFlags g) SNMPV3_MSG_FLAG_REPORT;
     MsgSecurityModel := SNMPV3_SECURITY_MODEL_USM |}.

Lemma flagSet_reply f k : 0 <= k < 2 -> flagSet (Z.ldiff f SNMPV3_MSG_FLAG_REPORT) (2 ^ k) = flagSet f (2 ^ k).
Proof.
  intros Hk. unfold flagSet, SNMPV3_MSG_FLAG_REPORT. rewrite !land_pow2 by lia. rewrite Z.ldiff_spec. change 4 with (2 ^ 2).
  rewrite Z.pow2_bits_false by lia. by rewrite andb_true_r.
Qed.
Lemma authOf_reply g : authOf (replyGlobal g) = authOf g.
Proof. apply (flagSet_reply (MsgFlags g) 0). lia. Qed.
Lemma privOf_reply g : privOf (replyGlobal g) = privOf g.
Proof. apply (flagSet_reply (MsgFlags g) 1). lia. Qed.

Lemma wrap_is_seal s c r salt contents g user :
  v3Config s = Some c -> Enabled c = true -> keyed s c (MsgFlags g) -> r_salt r = Some salt ->
  wrapScopedPDUInV3MessageWith s r (encodeSequence contents) (MsgID g) (MsgFlags g) user =
  seal s c (replyGlobal g) (engineBoots (usm s)) (r_time r) user salt contents.
Proof.
  intros Hc He [Hka Hkp] Hs. unfold wrapScopedPDUInV3MessageWith, seal. rewrite Hc, He, Hs, authOf_reply, privOf_reply. cbn [negb].
  fold (authOf g) (privOf g) in *. assert (Ea : negb (bool_decide (newHash (usm s) = None)) && authOf g = authOf g).
  { destruct (authOf g); [|apply andb_false_r]. destruct (Hka eq_refl) as [Hn _]. by rewrite bool_decide_eq_false_2. }
  rewrite Ea. assert (Ep : negb (PrivProtocol c =? SNMPV3_PRIV_NONE) && privOf g = privOf g).
  { destruct (privOf g); [|apply andb_false_r]. destruct (Hkp eq_refl) as (_ & Hp & _).
    unfold SNMPV3_PRIV_NONE, SNMPV3_PRIV_DES, SNMPV3_PRIV_AES128 in *. lia. }
  by rewrite Ep.
Qed.

(** ** One exchange *)

(** What the device answers to a GET or GETNEXT of one name. *)
Definition answer (s : Server) (tag : Z) (oid : bytes) : bytes * bytes :=
  let p := metricsPoint (device s) in
  if tag =? ASN1_GET_NEXT then
    let '(nextOID, response) := findNextOIDWithServed (device s) oid (lldpServed s) p in
    if beq nextOID [] then (oid, valueEndOfMibView) else (nextOID, response)
  else (oid, findResponseAt (device s) oid p).

(** The scoped PDU of the response, as a manager reads it. *)
Definition replyContents (s : V3Server) (id : Z) (b : bytes * bytes) : bytes :=
  scopedContents (engineID (usm s)) [] (requestPDU SNMP_GET_RESPONSE id 0 0 (encodeVarBind (fst b) (encodeTypedValue (fst b) (snd b)))).

Lemma createSNMPv3Response_seal s c r salt o v m id user :
  v3Config s = Some c -> Enabled c = true -> keyed s c (MsgFlags (GlobalData m)) -> r_salt r = Some salt ->
  UserName (SecurityParams m) = user -> extractRequestIDFromScopedPDU (ScopedPDU m) = Ok id ->
  createSNMPv3Response s r o v m = seal s c (replyGlobal (GlobalData m)) (engineBoots (usm s)) (r_time r) user salt (replyContents s id (o, v)).
Proof.
  intros Hc He Hk Hs Hu Hid. unfold createSNMPv3Response, createScopedPDU, createScopedPDUMulti, createScopedPDUEncoded.
  change (len [o] =? len [v]) with true. cbn [negb]. rewrite Hid. cbn [res_bind]. unfold wrapScopedPDUInV3Message, v3Enabled. rewrite Hc, He. cbn [negb].
  unfold bindingsOf. cbn [zip zip_with map concat fst snd]. rewrite app_nil_r, Hu. unfold wrapInScopedPDU. by rewrite <- wrap_is_seal.
Qed.

Lemma serveScoped_reads clock s reads m oid tag :
  tag = ASN1_GET_REQUEST \/ tag = ASN1_GET_NEXT ->
  serveScoped clock s reads m oid tag =
    (let! r := createSNMPv3Response s (reads 0%nat) (fst (answer (srv s) tag oid)) (snd (answer (srv s) tag oid)) m in Ok (s, r)).
Proof.
  intros [-> | ->]; unfold serveScoped, answer.
  - done.
  - rewrite Z.eqb_refl. destruct (findNextOIDWithServed _ _ _ _) as [o v]. by destruct (beq o []).
Qed.

(** Reaching the handler: a sealed message from the configured user, in the time
    window, is handed to the dispatcher with its contents. *)
Lemma handleSNMPv3Request_opened clock s c now reads g time user contents data m :
  v3Config s = Some c -> Enabled c = true -> user = Username c -> user <> [] -> keyed s c (MsgFlags g) ->
  (authOf g = true -> withinTimeWindow (usm s) now (engineBoots (usm s)) time = true) ->
  opens s g (engineBoots (usm s)) time user contents data m ->
  handleSingleRequest clock s now reads data =
    (let! r := extractOIDAndTypeFromScopedPDU contents in
     match r with None => Ok (s, None) | Some (oid, pduType) => serveScoped clock s reads (with_scoped m contents) oid pduType end).
Proof.
  intros Hc He Hu Hne [Hka Hkp] Hw [V P G U En B T D S]. unfold handleSingleRequest. rewrite V. cbn [res_bind].
  unfold handleSNMPv3Request, v3Enabled. rewrite Hc, He. cbn [negb]. rewrite P. cbn [res_bind].
  assert (Hd : isDiscovery m = false) by (unfold isDiscovery, beq; by rewrite U, bool_decide_eq_false_2).
  assert (Hv : validateSNMPv3Credentials s m = true) by (unfold validateSNMPv3Credentials, beq; by rewrite Hc, He, Hd, U, Hu, bool_decide_eq_true_2).
  rewrite Hv, Hd. cbn [negb].
  assert (Ha : authenticateInbound s now data m = Ok None).
  { unfold authenticateInbound. rewrite G. fold (authOf g) (privOf g) in *. destruct (authOf g) eqn:Ea; cbn [negb].
    - destruct (Hka eq_refl) as [Hn Hk]. rewrite bool_decide_eq_false_2 by done.
      replace (len (authKey (usm s)) =? 0) with false by (destruct (authKey (usm s)); [done|rewrite len_cons; pose proof (len_nonneg l); lia]).
      cbn [orb]. rewrite D by done. cbn [res_bind negb]. by rewrite B, T, Hw.
    - destruct (privOf g); [|done]. by destruct (Hkp eq_refl). }
  rewrite Ha. cbn [res_bind]. by rewrite S.
Qed.

End Session.

(** ** A sample exchange *)

Definition sampleContents : bytes :=
  scopedContents [] [] (requestPDU ASN1_GET_REQUEST 7 0 0 (bindsOf [([1; 3; 6; 1; 2; 1; 1; 1; 0], ASN1_NULL, [])])).
Definition sampleRequest : SNMPv3Message :=
  {| msgVersion := SNMPV3_VERSION; GlobalData := sampleGlobal 3; SecurityParams := sampleParams; ScopedPDU := sampleContents |}.

Lemma sample_keyed : keyed sampleV3 sampleConfig (MsgFlags (sampleGlobal 3)).
Proof. split; intros _; [by split|]. split; [done|]. split; [by right|]. by vm_compute. Qed.
Lemma sample_global : global_ok (sampleGlobal 3).
Proof. unfold global_ok, is_byte, MaxInt64. cbn. unfold SNMPV3_SECURITY_MODEL_USM. lia. Qed.

