(* ===== verification/V3Bulk.v ===== *)
(** * GETBULK over SNMPv3 (snmpv3.go)

    The v3 GETBULK has its own column loop and its own way of fitting a response
    into the datagram.  This file compares the loop with the v1/v2c one, and shows
    what the search for the longest prefix that fits finds and what it costs. *)

From S2P Require Import Prelude GoStrings Ber Oid TypedValue Request Response OidOrder Walk IfState SetReq Server Octets V3Msg Usm V3Server V3Session.

(** ** The rows *)

Section rows.
  Context (s : Server) (static metrics lldp : list (list Z)) (owned : list Z -> Prop) (p : Z).
  Hypothesis Hwf : walk_state (device s) (lldpServed s) static metrics lldp.
  Hypothesis Hic : forall ic, ifCyclerOf (device s) = Some ic -> IfCounterLaws ic owned (fun _ => False).
  Hypothesis Hnone : ifCyclerOf (device s) = None -> forall n, ~ owned n.
  Hypothesis Hne : static <> [].
  Hypothesis Hval : device_values (device s) (lldpServed s) (fun v => v <> valueEndOfMibView).

(** On a canonical name the guards of [bulkStep] beyond the end of the MIB never
    fire. *)
Lemma bulkStep_walk cur :
  canonical cur ->
  match bulkStep s p (dotted cur) with
  | Some (o, v) => findNextOIDWithServed (device s) (dotted cur) (lldpServed s) p = (o, v) /\ beq o [] || beq v valueEndOfMibView = false /\
      exists n, canonical n /\ o = dotted n
  | None => fst (findNextOIDWithServed (device s) (dotted cur) (lldpServed s) p) = []
  end.
Proof.
  intros Hcur. destruct (walk_step s static metrics lldp owned p Hwf Hic Hnone Hne cur Hcur) as (r & Hr & Hspec).
  unfold bulkStep. pose proof (findNext_values _ _ _ Hval (dotted cur) p) as Hv. destruct (findNextOIDWithServed (device s) (dotted cur) (lldpServed s) p) as [o v]. cbn [fst snd] in *.
  subst o. destruct r as [n|]; cbn [oid_of] in *; [|done].
  destruct Hspec as (Hcn & _ & Hlt & _). pose proof (dotted_nonempty n) as Hd. specialize (Hv (or_introl Hd)).
  assert (Hg : beq (dotted n) [] || beq v valueEndOfMibView = false) by (apply orb_false_iff; split; by apply bool_decide_eq_false_2).
  rewrite Hg, compareOIDsLexicographically_dotted by done.
  pose proof (lex_antisym cur n). replace (lex n cur <=? 0) with false by lia. split_and!; [done|done|by exists n].
Qed.

Lemma nonrepeater_same cur : canonical cur -> v3_nonrepeater s p (dotted cur) = bulk_nonrepeater s p (dotted cur).
Proof.
  intros Hc. pose proof (bulkStep_walk cur Hc) as Hb. unfold v3_nonrepeater, bulk_nonrepeater. destruct (bulkStep s p (dotted cur)) as [[o v]|].
  - destruct Hb as (-> & Hg & _). apply orb_false_iff in Hg as [-> _]. done.
  - destruct (findNextOIDWithServed _ _ _ _) as [o v]. cbn [fst] in Hb. by subst o.
Qed.

Definition canonical_col (c : bulkColumn) : Prop := exists n, canonical n /\ currentOID c = dotted n.

(** One binding of a column: the same in both loops; it is produced unless the
    column has ended. *)
Lemma column_step_same c :
  canonical_col c ->
  fst (v3_column_step s p c) = bulk_column_step s p c /\ canonical_col (fst (bulk_column_step s p c)) /\
  snd (v3_column_step s p c) = negb (endOfMib (fst (bulk_column_step s p c))) /\
  startCol (fst (bulk_column_step s p c)) = startCol c /\
  (endOfMib (fst (bulk_column_step s p c)) = true -> snd (bulk_column_step s p c) = (startCol c, valueEndOfMibView)).
Proof.
  intros (cur & Hcur & Hco). unfold v3_column_step, bulk_column_step. destruct (endOfMib c) eqn:E.
  - cbn [fst snd]. rewrite E. split_and!; try done. by exists cur.
  - rewrite Hco. pose proof (bulkStep_walk cur Hcur) as Hb. destruct (bulkStep s p (dotted cur)) as [[o v]|].
    + destruct Hb as (-> & -> & n & Hn & ->). cbn. split_and!; try done. by exists n.
    + destruct (findNextOIDWithServed _ _ _ _) as [o v]. cbn [fst] in Hb. subst o. cbn. split_and!; try done. by exists cur.
Qed.

Lemma row_same cols :
  Forall canonical_col cols ->
  let row := map (v3_column_step s p) cols in
  map fst row = map (bulk_column_step s p) cols /\ Forall canonical_col (map fst (map (bulk_column_step s p) cols)).
Proof.
  induction 1 as [|c cols Hc _ IH]; [done|]. cbn. destruct IH as [H1 H2]. destruct (column_step_same c Hc) as (E1 & E2 & _).
  rewrite E1. split; [by f_equal|by constructor].
Qed.

(** Any number of columns but one. *)
Lemma repetitions_same n : forall rep cols,
  Forall canonical_col cols -> v3_repetitions n rep false s p cols = bulk_repetitions n s p cols.
Proof.
  induction n as [|n IH]; intros rep cols Hc; [done|]. cbn [v3_repetitions bulk_repetitions]. rewrite !andb_false_r.
  destruct (row_same cols Hc) as [H1 H2]. cbv zeta in H1. rewrite <- !(map_map fst snd), <- !(map_map fst fst), H1. f_equal. by apply IH.
Qed.

Lemma bulk_column_ended n c : endOfMib c = true -> bulk_repetitions n s p [c] = repeat (startCol c, valueEndOfMibView) n.
Proof.
  intros E. induction n as [|n IH]; [done|]. cbn [bulk_repetitions map app]. unfold bulk_column_step. rewrite E. cbn [fst snd repeat]. by rewrite IH.
Qed.

(** One column: the rows up to the end, without the repeated end-of-MIB. *)
Lemma repetitions_single n : forall rep c,
  canonical_col c ->
  exists k, bulk_repetitions n s p [c] = v3_repetitions n rep true s p [c] ++ repeat (startCol c, valueEndOfMibView) k /\
    (rep = 0%nat -> 0 < Z.of_nat n -> v3_repetitions n rep true s p [c] <> []).
Proof.
  induction n as [|n IH]; intros rep c Hc; [by exists 0%nat|]. destruct (column_step_same c Hc) as (E1 & E2 & E3 & E4 & E5).
  pose proof (bulk_column_ended n (fst (bulk_column_step s p c))) as Hend. destruct (IH (S rep) _ E2) as (k & Hk & _).
  cbn [v3_repetitions bulk_repetitions map existsb app]. rewrite orb_false_r, E1, E3, negb_involutive, !andb_true_r.
  destruct (endOfMib (fst (bulk_column_step s p c))) eqn:Ee; cbn [andb].
  - rewrite E5, Hend, E4 by done. destruct rep as [|rep]; cbn [Nat.ltb Nat.leb].
    + exists n. split; [done|done].
    + exists (S n). split; [done|lia].
  - exists k. rewrite Hk, E4. split; [done|done].
Qed.

End rows.

Lemma map_take_drop {A B} (f : A -> B) n l : map f (take n l) = take n (map f l) /\ map f (drop n l) = drop n (map f l).
Proof. revert n. induction l as [|x l IH]; intros [|n]; try done. cbn. destruct (IH n) as [-> ->]. done. Qed.



(** ** The longest prefix that fits *)

Section largest.
  Context (build : Z -> nat -> res (option bytes * nat)) (limit count : Z) (size : Z -> Z).
  Hypothesis Hbuild : forall n i, 1 <= n <= count -> exists b, build n i = Ok (Some b, S i) /\ len b = size n.

(** [b] is built for [n]. *)
Definition made (n : Z) (b : bytes) : Prop := exists i, build n i = Ok (Some b, S i).

Lemma made_size n b : 1 <= n <= count -> made n b -> len b = size n.
Proof. intros Hn (i & Hi). destruct (Hbuild n i Hn) as (b' & Hb' & <-). congruence. Qed.

Lemma bisect_loop_largest fuel : forall lo hi best i,
  1 <= lo < hi -> hi <= count -> made lo best -> (size lo <= limit \/ lo = 1) -> limit < size hi -> hi - lo <= 2 ^ Z.of_nat fuel ->
  exists n b j, bisect_loop build limit (S fuel) lo hi best i = Ok (Some b, j) /\ lo <= n < hi /\ made n b /\
    (size n <= limit \/ n = 1) /\ limit < size (n + 1) /\ Z.of_nat j <= Z.of_nat i + Z.of_nat fuel.
Proof.
  induction fuel as [|fuel IH]; intros lo hi best i Hlo Hhi Hm Hfit Hno Hf.
  { change (2 ^ Z.of_nat 0) with 1 in Hf. cbn [bisect_loop]. case_if; [lia|]. exists lo, best, i.
    replace (lo + 1) with hi by lia. split_and!; first [done|lia]. }
  cbn [bisect_loop]. case_if.
  2: { exists lo, best, i. replace (lo + 1) with hi by lia. split_and!; first [done|lia]. }
  rewrite Nat2Z.inj_succ, Z.pow_succ_r in Hf by lia. rewrite Z.quot_div_nonneg by lia.
  pose proof (Z.div_mod (hi - lo) 2 ltac:(lia)). pose proof (Z.mod_pos_bound (hi - lo) 2 ltac:(lia)).
  set (mid := lo + (hi - lo) / 2) in *. destruct (Hbuild mid i ltac:(lia)) as (b & Hb & Hs). rewrite Hb. cbn [res_bind].
  case_if.
  - destruct (IH mid hi b (S i)) as (n & b' & j & E1 & E2 & E3 & E4 & E5 & E6); [lia|done|by exists i|left; lia|done|lia|].
    exists n, b', j. split_and!; first [done|lia].
  - destruct (IH lo mid best (S i)) as (n & b' & j & E1 & E2 & E3 & E4 & E5 & E6); [lia|lia|done|done|lia|lia|].
    exists n, b', j. split_and!; first [done|lia].
Qed.

Lemma largestFittingPrefix_largest :
  1 <= count ->
  exists n b j, largestFittingPrefix build limit count 0%nat = Ok (Some b, j) /\ 1 <= n <= count /\ made n b /\
    (size n <= limit \/ n = 1) /\ (n = count \/ limit < size (n + 1)) /\ Z.of_nat j <= 2 + Z.log2_up count.
Proof.
  intros Hc. unfold largestFittingPrefix. case_if; [lia|]. pose proof (Z.log2_up_nonneg count).
  destruct (Hbuild count 0%nat ltac:(lia)) as (full & Hfull & Hsf). rewrite Hfull. cbn [res_bind].
  destruct ((len full <=? limit) || (count =? 1)) eqn:E1.
  { exists count, full, 1%nat. split_and!; [done|lia|lia|by exists 0%nat|lia|by left|lia]. }
  destruct (Hbuild 1 1%nat ltac:(lia)) as (best & Hbest & Hsb). rewrite Hbest. cbn [res_bind].
  destruct (Z.log2_up_spec count) as [_ Hup]; [lia|].
  destruct (bisect_loop_largest (Z.to_nat (Z.log2_up count)) 1 count best 2) as (n & b & j & E2 & E3 & E4 & E5 & E6 & E7);
    [lia|lia|by exists 1%nat|by right|lia|rewrite Z2Nat.id by done; lia|].
  rewrite E2. exists n, b, j. split_and!; first [done|lia].
Qed.
End largest.

(** ** The size of a sealed message depends on the size of its contents *)

Lemma be_loop_grows fuel : forall v acc, len acc <= len (be_loop fuel v acc).
Proof. induction fuel as [|fuel IH]; intros v acc; cbn [be_loop]; [lia|]. case_if; [|lia]. etransitivity; [|apply IH]. rewrite len_cons. lia. Qed.

Lemma be_loop_len_mono fuel : forall a b acc acc', a <= b -> len acc <= len acc' -> len (be_loop fuel a acc) <= len (be_loop fuel b acc').
Proof.
  induction fuel as [|fuel IH]; intros a b acc acc' Hab Hacc; cbn [be_loop]; [done|]. case_if; case_if; try lia.
  - apply IH; [rewrite !Z.shiftr_div_pow2 by lia; by apply Z.div_le_mono|rewrite !len_cons; lia].
  - etransitivity; [exact Hacc|]. etransitivity; [|apply be_loop_grows]. rewrite len_cons. lia.
Qed.

Lemma hlen_mono a b : a <= b -> hlen a <= hlen b.
Proof.
  intros Hab. unfold hlen, encodeLength. case_if; case_if; rewrite ?len_cons, ?len_nil; try lia.
  - pose proof (len_nonneg (be_loop 8 b [])). lia.
  - pose proof (be_loop_len_mono 8 a b [] [] Hab). lia.
Qed.

(** The size of a TLV of [n] content octets. *)
Definition tlvSize (n : Z) : Z := hlen n + n.
Lemma tlvSize_mono a b : a <= b -> tlvSize a <= tlvSize b.
Proof. intros Hab. unfold tlvSize. pose proof (hlen_mono a b Hab). lia. Qed.

Section sizes.
Context `{CryptoLaws}.

Definition cipherSize (c : SNMPv3Config) (n : Z) : Z := if PrivProtocol c =? SNMPV3_PRIV_DES then n + (8 - n mod 8) else n.
Definition usmSize (s : V3Server) (g : SNMPv3GlobalData) (boots time : Z) (user : bytes) : Z :=
  tlvSize (tlvSize (len (engineID (usm s))) + (len (encodeInteger boots) + (len (encodeInteger time) +
    (tlvSize (len user) + (tlvSize (if authOf g then 12 else 0) + tlvSize (if privOf g then 8 else 0)))))).
Definition sealedSize (s : V3Server) (c : SNMPv3Config) (g : SNMPv3GlobalData) (boots time : Z) (user : bytes) (n : Z) : Z :=
  tlvSize (len (encodeInteger SNMPV3_VERSION) + (len (encodeSequence (globalContents g)) + (tlvSize (usmSize s g boots time user) +
    (if privOf g then tlvSize (cipherSize c (tlvSize n)) else tlvSize n)))).

Lemma cipherSize_mono c a b : a <= b -> cipherSize c a <= cipherSize c b.
Proof.
  intros Hab. unfold cipherSize. case_if; [|done]. pose proof (Z.div_mod a 8 ltac:(lia)). pose proof (Z.div_mod b 8 ltac:(lia)).
  pose proof (Z.div_le_mono a b 8 ltac:(lia) Hab). lia.
Qed.

Lemma sealedSize_mono s c g boots time user a b : a <= b -> sealedSize s c g boots time user a <= sealedSize s c g boots time user b.
Proof.
  intros Hab. unfold sealedSize. apply tlvSize_mono. pose proof (tlvSize_mono a b Hab) as Ht. do 3 apply Z.add_le_mono_l.
  destruct (privOf g); [|done]. by apply tlvSize_mono, cipherSize_mono.
Qed.

Lemma len_tlv_size t x : len (tlv t x) = tlvSize (len x).
Proof. apply len_tlv. Qed.

Lemma usm_size s g boots time user pp d :
  len pp = (if privOf g then 8 else 0) -> len d = (if authOf g then 12 else 0) ->
  len (encodeUSMSecurityParameters {| AuthoritativeEngineID := engineID (usm s); AuthoritativeEngineBoots := boots; AuthoritativeEngineTime := time;
         UserName := user; AuthParams := d; PrivParams := pp |}) = usmSize s g boots time user.
Proof.
  intros Hpp Hd. unfold encodeUSMSecurityParameters, usmSize. cbn [AuthoritativeEngineID AuthoritativeEngineBoots AuthoritativeEngineTime UserName AuthParams PrivParams].
  rewrite encodeSequence_tlv, len_tlv_size. f_equal. rewrite !encodeOctetString_tlv. generalize (encodeInteger boots) (encodeInteger time). intros i1 i2.
  by rewrite !len_app, !len_tlv_size, Hd, Hpp.
Qed.

Lemma substitute_len m d data : substituteAuthParams m d = Ok (Some data) -> len data = len m.
Proof.
  assert (Hw : wp (substituteAuthParams m d) (fun x => forall y, x = Some y -> len y = len m)).
  { unfold substituteAuthParams. wp_step. wp_step. apply locateAuthParams_wp; [done|]. intros off n Ho Hn Hl.
    wp_step. wp_step. unfold overwrite. wp_step. apply wp_slice; [lia|lia|]. intros y [= <-].
    rewrite len_take, !len_app, len_take, len_drop. unfold usmAuthParamsLen, len in *. lia. }
  intros Hs. rewrite Hs in Hw. by apply Hw.
Qed.

Lemma cipher_size c u pdu boots time salt e pp :
  PrivProtocol c = SNMPV3_PRIV_DES \/ PrivProtocol c = SNMPV3_PRIV_AES128 ->
  encryptScopedPDUAt c u pdu boots time (Some salt) = Some (e, pp) -> len e = cipherSize c (len pdu) /\ pp = salt.
Proof.
  unfold encryptScopedPDUAt, encryptDES, encryptAES128At, cipherSize. intros Hp He. repeat case_match; simplify_eq; rewrite ?des_cbc_len, ?aes_cfb_len; try done.
  split; [|done]. unfold padData. pose proof (Z.mod_pos_bound (len pdu) 8). rewrite len_app, (len_def (repeat _ _)), repeat_length. case_if; lia.
Qed.

Lemma seal_size s c g boots time user salt contents data :
  keyed s c (MsgFlags g) -> len salt = 8 -> seal s c g boots time user salt contents = Ok (Some data) ->
  len data = sealedSize s c g boots time user (len contents).
Proof.
  intros [_ Hk] Hs. unfold seal.
  destruct (if privOf g then _ else _) as [[e pp]|] eqn:Ee; [|done].
  assert (He : len (if privOf g then encodeOctetString e else e) = (if privOf g then tlvSize (cipherSize c (tlvSize (len contents))) else tlvSize (len contents)) /\
               len pp = (if privOf g then 8 else 0)).
  { destruct (privOf g) eqn:Ep.
    - destruct (Hk Ep) as (_ & Hp & _). apply cipher_size in Ee as [He ->]; [|done]. rewrite encodeOctetString_tlv, len_tlv_size, He, encodeSequence_tlv, len_tlv_size. done.
    - injection Ee as <- <-. by rewrite encodeSequence_tlv, len_tlv_size. }
  destruct He as [He Hpp].
  match goal with |- context [encodeSNMPv3Message ?m ?u] => set (msg := encodeSNMPv3Message m u) end.
  assert (Hm : len msg = sealedSize s c g boots time user (len contents)).
  { unfold msg, encodeSNMPv3Message. cbn [msgVersion GlobalData ScopedPDU].
    fold (flagSet (MsgFlags g) SNMPV3_MSG_FLAG_PRIV). fold (privOf g). unfold sealedSize.
    pose proof (usm_size s g boots time user pp (if authOf g then usmZeroedAuthParams else []) Hpp ltac:(by destruct (authOf g))) as Hu.
    revert He Hu. generalize (if privOf g then encodeOctetString e else e).
    match goal with |- context [encodeOctetString (encodeUSMSecurityParameters ?p)] => generalize (encodeUSMSecurityParameters p) end.
    intros us x He Hu. generalize (encodeInteger SNMPV3_VERSION) (encodeSequence (globalContents g)). intros v gs.
    rewrite encodeSequence_tlv, len_tlv_size. f_equal. rewrite encodeOctetString_tlv, !len_app, len_tlv_size, Hu, He. lia. }
  clearbody msg. destruct (authOf g); [|by intros [= <-]].
  destruct (usmAuthDigest _ _ _) as [[d|]| |]; cbn [res_bind]; try done. intros Hd. by rewrite (substitute_len _ _ _ Hd).
Qed.

(** ** The response of a v3 GETBULK *)

Definition bulkContents (s : V3Server) (id : Z) (binds : list (bytes * bytes)) : bytes :=
  scopedContents (engineID (usm s)) [] (requestPDU SNMP_GET_RESPONSE id 0 0 (bindingsOf binds)).

Lemma bulkContents_mono s id b1 b2 : len (bulkContents s id b1) <= len (bulkContents s id (b1 ++ b2)).
Proof.
  unfold bulkContents, scopedContents, requestPDU. assert (Hb : len (bindingsOf b1) <= len (bindingsOf (b1 ++ b2))).
  { unfold bindingsOf. rewrite map_app, concat_app, len_app. pose proof (len_nonneg (concat (map (fun b => encodeVarBind b.1 (encodeTypedValue b.1 b.2)) b2))). lia. }
  generalize (encodeOctetString (engineID (usm s))) (encodeOctetString []) (encodeInteger id) (encodeInteger 0). intros x1 x2 x3 x4.
  rewrite !(len_app x1), !(len_app x2), !len_tlv_size. do 2 apply Z.add_le_mono_l. apply tlvSize_mono.
  rewrite !(len_app x3), !(len_app x4), !encodeSequence_tlv, !len_tlv_size. do 3 apply Z.add_le_mono_l. by apply tlvSize_mono.
Qed.

Lemma zip_take {A B} n (l : list A) (k : list B) : zip (take n l) (take n k) = take n (zip l k).
Proof. revert l k. induction n as [|n IH]; intros [|x l] [|y k]; try done. cbn. by rewrite IH. Qed.

Section response.
  Context (s : V3Server) (c : SNMPv3Config) (m : SNMPv3Message) (reads : nat -> reading) (time id : Z) (salt : nat -> bytes) (os vs : list bytes).
  Hypothesis Hc : v3Config s = Some c.
  Hypothesis He : Enabled c = true.
  Hypothesis Hk : keyed s c (MsgFlags (GlobalData m)).
  Hypothesis Hg : global_ok (GlobalData m).
  Hypothesis Hid : extractRequestIDFromScopedPDU (ScopedPDU m) = Ok id.
  Hypothesis Hreads : forall i, reads i = {| r_time := time; r_salt := Some (salt i) |}.
  Hypothesis Hsalt : forall i, len (salt i) = 8.
  Hypothesis Htime : 0 <= time <= MaxInt64.
  Hypothesis Hboots : 0 <= engineBoots (usm s) <= MaxInt64.
  Hypothesis Hlen : len os = len vs.
  Hypothesis Hvs : Forall bytes_ok vs.
  Hypothesis Heng : bytes_ok (engineID (usm s)).
  Hypothesis Hsize : len (bulkContents s id (zip os vs)) + len (engineID (usm s)) + len (UserName (SecurityParams m)) <= MaxInt32 - 400.

Let user := UserName (SecurityParams m).
Let bulkSize (n : Z) : Z :=
  sealedSize s c (replyGlobal (GlobalData m)) (engineBoots (usm s)) time user (len (bulkContents s id (take (Z.to_nat n) (zip os vs)))).

Lemma keyed_reply g : keyed s c (MsgFlags g) -> keyed s c (MsgFlags (replyGlobal g)).
Proof.
  intros [Ha Hp]. unfold keyed. fold (authOf (replyGlobal g)) (privOf (replyGlobal g)). by rewrite authOf_reply, privOf_reply.
Qed.

Lemma buildBulk_builds n i : exists b, buildBulk s reads os vs m n i = Ok (Some b, S i) /\ len b = bulkSize n.
Proof.
  unfold buildBulk, createScopedPDUMulti, createScopedPDUEncoded. assert (Hl : (len (take (Z.to_nat n) os) =? len (take (Z.to_nat n) vs)) = true)
    by (rewrite !len_take; lia). rewrite Hl. cbn [negb]. rewrite Hid. cbn [res_bind].
  unfold wrapScopedPDUInV3Message, v3Enabled. rewrite Hc, He, Hreads, zip_take. cbn [negb]. unfold wrapInScopedPDU.
  rewrite (wrap_is_seal s c _ (salt i)) by done. fold user. fold (bulkContents s id (take (Z.to_nat n) (zip os vs))).
  pose proof (bulkContents_mono s id (take (Z.to_nat n) (zip os vs)) (drop (Z.to_nat n) (zip os vs))) as Hmono. rewrite take_drop in Hmono.
  destruct (seal_opens s c (replyGlobal (GlobalData m)) (engineBoots (usm s)) time user (salt i) (bulkContents s id (take (Z.to_nat n) (zip os vs))))
    as (data & m' & Hd & _); try done.
  - by apply keyed_reply.
  - destruct Hg as (G1 & _ & G3 & _). unfold global_ok, replyGlobal. cbn [MsgID MsgMaxSize MsgFlags MsgSecurityModel].
    split; [done|]. split; [done|]. split; [by apply ldiff_byte|done].
  - unfold bulkContents, scopedContents, requestPDU. assert (bytes_ok (bindingsOf (take (Z.to_nat n) (zip os vs)))).
    { apply bindingsOf_octets, Forall_take. by apply Forall_zip_snd. } octets.
  - unfold user. lia.
  - cbn [r_time]. exists data. rewrite Hd. split; [done|].
    by apply seal_size in Hd; [|by apply keyed_reply|done].
Qed.

(** C9: a v3 GETBULK is answered with the longest prefix of its bindings that
    fits.  For any security level the engine has keys for, with the engine time
    read once per second or less often, the search assembles at most
    [2 + log2 count] candidate messages, always returns, and returns the message
    of some prefix: one that fits the manager's limit, or a single binding; and no
    longer prefix fits. *)
Theorem v3_bulk_fits :
  1 <= len os ->
  exists n r j, largestFittingPrefix (buildBulk s reads os vs m) (bulkLimit s m) (len os) 0%nat = Ok (Some r, j) /\
    1 <= n <= len os /\ (exists i, buildBulk s reads os vs m n i = Ok (Some r, S i)) /\
    (len r <= bulkLimit s m \/ n = 1) /\
    (forall n' i r' k, n < n' <= len os -> buildBulk s reads os vs m n' i = Ok (Some r', k) -> bulkLimit s m < len r') /\
    Z.of_nat j <= 2 + Z.log2_up (len os).
Proof.
  intros Hc1. assert (Hmono : forall n n', 1 <= n -> n <= n' -> n' <= len os -> bulkSize n <= bulkSize n').
  { intros n n' H1 H2 H3. apply sealedSize_mono. replace (take (Z.to_nat n) (zip os vs)) with (take (Z.to_nat n) (take (Z.to_nat n') (zip os vs)))
      by (rewrite take_take; f_equal; lia).
    pose proof (bulkContents_mono s id (take (Z.to_nat n) (take (Z.to_nat n') (zip os vs))) (drop (Z.to_nat n) (take (Z.to_nat n') (zip os vs)))) as Hm.
    by rewrite take_drop in Hm. }
  destruct (largestFittingPrefix_largest (buildBulk s reads os vs m) (bulkLimit s m) (len os) bulkSize (fun n i _ => buildBulk_builds n i) Hc1)
    as (n & b & j & E1 & E2 & E3 & E4 & E5 & E6).
  assert (Hs : len b = bulkSize n) by (eapply made_size; [intros; apply buildBulk_builds|exact E2|done]).
  exists n, b, j. split_and!; try done; [lia|lia|lia|]. intros n' i r' k Hn' Hr'. destruct (buildBulk_builds n' i) as (b' & Hb' & Hs').
  assert (r' = b') as -> by congruence. destruct E5 as [->|E5]; [lia|]. pose proof (Hmono (n + 1) n'). lia.
Qed.
End response.
End sizes.

Lemma v3_bulk_fits_witness :
  let os := [str ".1.3.6.1.2.1.1.1.0"; str ".1.3.6.1.2.1.1.4.0"] in
  let vs := [str "IOS-XR"; str "noc@example.net"] in
  let build := buildBulk sampleV3 sampleReads os vs sampleRequest in
  exists n r j, largestFittingPrefix build (bulkLimit sampleV3 sampleRequest) (len os) 0%nat = Ok (Some r, j) /\
    1 <= n <= len os /\ (exists i, build n i = Ok (Some r, S i)) /\
    (len r <= bulkLimit sampleV3 sampleRequest \/ n = 1) /\
    (forall n' i r' k, n < n' <= len os -> build n' i = Ok (Some r', k) -> bulkLimit sampleV3 sampleRequest < len r') /\
    Z.of_nat j <= 2 + Z.log2_up (len os).
Proof.
  apply (v3_bulk_fits sampleV3 sampleConfig sampleRequest sampleReads 300 7 (fun _ => [1; 2; 3; 4; 5; 6; 7; 8])).
  - reflexivity.
  - reflexivity.
  - apply sample_keyed.
  - apply sample_global.
  - reflexivity.
  - reflexivity.
  - reflexivity.
  - unfold MaxInt64. lia.
  - cbn. unfold MaxInt64. lia.
  - reflexivity.
  - repeat (apply List.Forall_cons; [apply bytes_okb_ok; reflexivity|]). apply List.Forall_nil.
  - apply bytes_okb_ok. reflexivity.
  - vm_compute. discriminate.
  - vm_compute. discriminate.
Defined.
