(* ===== verification/Topology.v ===== *)
(** * The inter-device link graph (topology.go)

    Which port of which device is cabled to which: an undirected list of links,
    a per-device adjacency index derived from it, and a generation number that
    snapshots taken from the graph are checked against.  Operators load a file,
    add batches, remove links and delete devices in any order; the theorems show
    that a port never has two cables, that the index is the list seen from each
    device, and that a batch is added whole or not at all. *)

From stdpp Require Import gmap.
From S2P Require Import Prelude GoStrings TypedValue.

(** ** Data *)

(** [net.IP.String()] of an IPv4 address given by its four octets. *)
Definition quad (ip : bytes) : bytes := Join dot (map FormatUint ip).

Record linkEndpoint := { IP : bytes; IfIndex : Z }.
Record topoLink := { linkA : linkEndpoint; linkB : linkEndpoint }.
Record localLink := { LocalIfIndex : Z; PeerIP : bytes; PeerIfIndex : Z }.
#[export] Instance linkEndpoint_eq : EqDecision linkEndpoint.
Proof. solve_decision. Defined.
#[export] Instance topoLink_eq : EqDecision topoLink.
Proof. solve_decision. Defined.
#[export] Instance localLink_eq : EqDecision localLink.
Proof. solve_decision. Defined.

(** The wire form has the same shape: [LinkEndpointJSON], [LinkJSON]. *)
Record LinkEndpointJSON := { j_ip : bytes; j_ifindex : Z }.
Record LinkJSON := { j_a : LinkEndpointJSON; j_b : LinkEndpointJSON }.

Record Topology := { links : list topoLink; adj : gmap bytes (list localLink); gen : Z }.

Inductive endpointErr := InvalidIPv4 (ip : bytes) | BadIfIndex (i : Z).
Inductive topoErr :=
| EndpointA (e : endpointErr)
| EndpointB (e : endpointErr)
| SelfLoop (e : linkEndpoint)
| DuplicateLink (l : topoLink)
| PortAlreadyLinked (e : linkEndpoint).

(** ** Operations *)

Definition NewTopology : Topology := {| links := []; adj := ∅; gen := 0 |}.

Definition bumpGen (t : Topology) : Topology := {| links := links t; adj := adj t; gen := u64 (gen t + 1) |}.

Definition addAdj (m : gmap bytes (list localLink)) (ip : bytes) (l : localLink) : gmap bytes (list localLink) :=
  <[ip := default [] (m !! ip) ++ [l]]> m.
Definition indexLink (m : gmap bytes (list localLink)) (l : topoLink) : gmap bytes (list localLink) :=
  let a := linkA l in let b := linkB l in
  let m := addAdj m (IP a) {| LocalIfIndex := IfIndex a; PeerIP := IP b; PeerIfIndex := IfIndex b |} in
  addAdj m (IP b) {| LocalIfIndex := IfIndex b; PeerIP := IP a; PeerIfIndex := IfIndex a |}.
Definition rebuildAdj (ls : list topoLink) : gmap bytes (list localLink) := fold_left indexLink ls ∅.

Definition normEndpoint (e : LinkEndpointJSON) : endpointErr + linkEndpoint :=
  match ParseIP_To4 (j_ip e) with
  | None => inl (InvalidIPv4 (j_ip e))
  | Some ip => if j_ifindex e <? 1 then inl (BadIfIndex (j_ifindex e)) else inr {| IP := quad ip; IfIndex := j_ifindex e |}
  end.

(** The first loop of [AddLinks]: normalise the batch. *)
Fixpoint normBatch (ls : list LinkJSON) (pending : list topoLink) : topoErr + list topoLink :=
  match ls with
  | [] => inr pending
  | l :: ls' =>
      match normEndpoint (j_a l) with
      | inl e => inl (EndpointA e)
      | inr ae =>
          match normEndpoint (j_b l) with
          | inl e => inl (EndpointB e)
          | inr be => if bool_decide (ae = be) then inl (SelfLoop ae)
                      else normBatch ls' (pending ++ [{| linkA := ae; linkB := be |}])
          end
      end
  end.

Fixpoint validateAgainstLinks (ls : list topoLink) (nl : topoLink) : option topoErr :=
  match ls with
  | [] => None
  | l :: ls' =>
      if (bool_decide (linkA l = linkA nl) && bool_decide (linkB l = linkB nl))
         || (bool_decide (linkA l = linkB nl) && bool_decide (linkB l = linkA nl)) then Some (DuplicateLink nl)
      else if bool_decide (linkA l = linkA nl) || bool_decide (linkB l = linkA nl) then Some (PortAlreadyLinked (linkA nl))
      else if bool_decide (linkA l = linkB nl) || bool_decide (linkB l = linkB nl) then Some (PortAlreadyLinked (linkB nl))
      else validateAgainstLinks ls' nl
  end.

(** The second loop: append what validates, stop at the first that does not. *)
Fixpoint addLoop (ls : list topoLink) (pending : list topoLink) : list topoLink * option topoErr :=
  match pending with
  | [] => (ls, None)
  | nl :: pending' =>
      match validateAgainstLinks ls nl with
      | Some e => (ls, Some e)
      | None => addLoop (ls ++ [nl]) pending'
      end
  end.

Definition AddLinks (t : Topology) (batch : list LinkJSON) : Topology * option topoErr :=
  match normBatch batch [] with
  | inl e => (t, Some e)
  | inr pending =>
      let start := length (links t) in
      match addLoop (links t) pending with
      | (ls, Some e) => ({| links := take start ls; adj := adj t; gen := gen t |}, Some e)
      | (ls, None) => (bumpGen {| links := ls; adj := fold_left indexLink pending (adj t); gen := gen t |}, None)
      end
  end.

Definition AddLink (t : Topology) (a b : LinkEndpointJSON) : Topology * option topoErr :=
  AddLinks t [{| j_a := a; j_b := b |}].

Definition Clear (t : Topology) : Topology := bumpGen {| links := []; adj := ∅; gen := gen t |}.

Definition sameLink (l : topoLink) (a b : linkEndpoint) : bool :=
  (bool_decide (linkA l = a) && bool_decide (linkB l = b)) || (bool_decide (linkA l = b) && bool_decide (linkB l = a)).
(** The first matching link taken out of the list. *)
Fixpoint removeFirst (ls : list topoLink) (a b : linkEndpoint) : option (list topoLink) :=
  match ls with
  | [] => None
  | l :: ls' => if sameLink l a b then Some ls' else cons l <$> removeFirst ls' a b
  end.
Definition RemoveLink (t : Topology) (a b : LinkEndpointJSON) : Topology * bool :=
  match normEndpoint a, normEndpoint b with
  | inr ae, inr be =>
      match removeFirst (links t) ae be with
      | Some ls => (bumpGen {| links := ls; adj := rebuildAdj ls; gen := gen t |}, true)
      | None => (t, false)
      end
  | _, _ => (t, false)
  end.

Definition PruneDevice (t : Topology) (ip : bytes) : Topology :=
  match ParseIP_To4 ip with
  | None => t
  | Some p =>
      let norm := quad p in
      let kept := List.filter (fun l => negb (bool_decide (IP (linkA l) = norm) || bool_decide (IP (linkB l) = norm))) (links t) in
      bumpGen {| links := kept; adj := rebuildAdj kept; gen := gen t |}
  end.

Definition LinksFor (t : Topology) (ip : bytes) : list localLink :=
  match ParseIP_To4 ip with
  | None => []
  | Some p => sort_by (fun a b => LocalIfIndex a - LocalIfIndex b) (default [] (adj t !! quad p))
  end.

Definition toJSON (e : linkEndpoint) : LinkEndpointJSON := {| j_ip := IP e; j_ifindex := IfIndex e |}.
Definition ListLinks (t : Topology) : list LinkJSON := map (fun l => {| j_a := toJSON (linkA l); j_b := toJSON (linkB l) |}) (links t).
Definition Count (t : Topology) : Z := len (links t).

(** What an operator, a device deletion or an invalidation can do to the graph. *)
Inductive topoOp :=
| OpAdd (batch : list LinkJSON)
| OpRemove (a b : LinkEndpointJSON)
| OpPrune (ip : bytes)
| OpClear
| OpBump.
Definition apply_op (t : Topology) (o : topoOp) : Topology :=
  match o with
  | OpAdd batch => fst (AddLinks t batch)
  | OpRemove a b => fst (RemoveLink t a b)
  | OpPrune ip => PruneDevice t ip
  | OpClear => Clear t
  | OpBump => bumpGen t
  end.
Definition run_ops (ops : list topoOp) : Topology := fold_left apply_op ops NewTopology.

(** ** Addresses *)

Definition octets (ip : bytes) : Prop := len ip = 4 /\ bytes_ok ip.

Lemma FormatUint_octet n rest prev fields : 0 <= n < 256 ->
  ipv4_fields (FormatUint n ++ rest) prev 0 0 fields = ipv4_fields rest false n (len (FormatUint n)) fields.
Proof.
  intros Hn. assert (H : Forall (fun n => forall rest prev fields,
    ipv4_fields (FormatUint n ++ rest) prev 0 0 fields = ipv4_fields rest false n (len (FormatUint n)) fields) (seqZ 0 256)).
  { vm_compute seqZ. repeat (constructor; [intros; reflexivity|]). constructor. }
  rewrite List.Forall_forall in H. apply H, list_elem_of_In, elem_of_seqZ. lia.
Qed.

Lemma addr_family_digits p s : Forall (fun c => is_digit c = true) p -> addr_family (p ++ dot :: s) = Some dot.
Proof.
  induction 1 as [|c p Hc _ IH]; [done|]. cbn [app addr_family]. apply is_digit_range in Hc.
  by replace ((c =? dot) || (c =? colon) || (c =? 37)) with false by (unfold dot, colon; lia).
Qed.

Lemma u8_octet n : 0 <= n < 256 -> u8 n = n.
Proof. intros H. apply Z.mod_small. lia. Qed.

Lemma ParseIP_quad ip : octets ip -> ParseIP_To4 (quad ip) = Some ip.
Proof.
  intros [Hl Hb]. destruct ip as [|a [|b [|c [|d [|]]]]]; try (unfold len in Hl; cbn in Hl; lia). clear Hl.
  do 4 (let H := fresh "H" in apply Forall_cons_1 in Hb as [H Hb]; unfold is_byte in H). clear Hb.
  unfold ParseIP_To4, quad. cbn [map Join].
  rewrite addr_family_digits by (by apply FormatUint_spec; lia). unfold dot at 1.
  assert (Hd : forall n v p s f, s <> [] -> len f <> 3 -> 0 <= v < 256 -> ipv4_fields (dot :: s) false v n f = p <-> ipv4_fields s true 0 0 (f ++ [v]) = p).
  { intros n v p s f Hs Hf Hv. cbn [ipv4_fields]. change (is_digit dot) with false. rewrite Z.eqb_refl. cbn [orb].
    unfold beq. rewrite bool_decide_false by done. replace (len f =? 3) with false by lia. by rewrite u8_octet. }
  assert (Hne : forall n s, 0 <= n < 256 -> FormatUint n ++ s <> []).
  { intros n s Hn E. apply app_eq_nil in E as [E _]. apply FormatUint_nonempty in E; [done|lia]. }
  change (parseIPv4 (FormatUint a ++ dot :: FormatUint b ++ dot :: FormatUint c ++ dot :: FormatUint d) = Some [a; b; c; d]).
  unfold parseIPv4. rewrite FormatUint_octet by done. apply Hd; [by apply Hne|done|done|].
  rewrite FormatUint_octet by done. apply Hd; [by apply Hne|done|done|].
  rewrite FormatUint_octet by done. apply Hd; [rewrite <- (app_nil_r (FormatUint d)); by apply Hne|done|done|].
  rewrite <- (app_nil_r (FormatUint d)), FormatUint_octet by done. cbn [ipv4_fields]. cbn. by rewrite u8_octet.
Qed.

Lemma quad_inj p q : octets p -> octets q -> quad p = quad q -> p = q.
Proof. intros Hp Hq E. pose proof (ParseIP_quad p Hp) as H. rewrite E, ParseIP_quad in H by done. by injection H. Qed.

Lemma u8_byte n : is_byte (u8 n).
Proof. unfold is_byte, u8. pose proof (Z.mod_pos_bound n (2 ^ 8)). lia. Qed.

Lemma ipv4_fields_ok s : forall prev val n f ip, bytes_ok f -> ipv4_fields s prev val n f = Some ip -> bytes_ok ip.
Proof.
  induction s as [|c s IH]; intros prev val n f ip Hf H; cbn [ipv4_fields] in H.
  - destruct (len f <? 3); [done|]. injection H as <-. apply Forall_app. split; [done|]. constructor; [apply u8_byte|constructor].
  - repeat case_match; try done; eapply IH; try exact H; [done|]. apply Forall_app. split; [done|]. constructor; [apply u8_byte|constructor].
Qed.

Lemma ipv6_finish_ok ip ell s r : bytes_ok ip -> ipv6_finish ip ell s = Some r -> bytes_ok r.
Proof.
  intros Hip. unfold ipv6_finish. repeat case_match; intros E; simplify_eq; [|done].
  repeat (apply Forall_app; split); [by apply Forall_take| |by apply Forall_drop].
  apply List.Forall_forall. intros x Hx. apply repeat_spec in Hx as ->. unfold is_byte. lia.
Qed.

Lemma ipv6_loop_ok fuel : forall s ip ell r, bytes_ok ip -> ipv6_loop fuel s ip ell = Some r -> bytes_ok r.
Proof.
  induction fuel as [|fuel IH]; intros s ip ell r Hip H; cbn [ipv6_loop] in H; [by eapply ipv6_finish_ok|].
  destruct (hex_group s 0 0) as [[[acc off] rest]|]; [|done]. destruct (off =? 0); [done|].
  assert (Hip' : bytes_ok (ip ++ [u8 (Z.shiftr acc 8); u8 acc])).
  { apply Forall_app. split; [done|]. repeat constructor; apply u8_byte. }
  assert (Hv4 : forall v4, parseIPv4 s = Some v4 -> bytes_ok (ip ++ v4)).
  { intros v4 E. apply Forall_app. split; [done|]. eapply ipv4_fields_ok; [constructor|exact E]. }
  repeat case_match; try done; solve [eapply ipv6_finish_ok; [|exact H]; auto|eapply IH; [|exact H]; exact Hip'].
Qed.

Lemma ParseIP_octets s ip : ParseIP_To4 s = Some ip -> octets ip.
Proof.
  intros H. split; [by eapply ParseIP_To4_len|]. unfold ParseIP_To4 in H.
  assert (H4 : forall ip, parseIPv4 s = Some ip -> bytes_ok ip) by (intros ip' E; eapply ipv4_fields_ok; [constructor|exact E]).
  assert (H6 : forall ip, parseIPv6 s = Some ip -> bytes_ok ip).
  { intros ip' E. unfold parseIPv6 in E. destruct (existsb _ s); [done|].
    repeat case_match; first [refine (ipv6_loop_ok _ _ _ _ _ _ E); constructor|injection E as <-; repeat constructor; unfold is_byte; lia]. }
  repeat case_match; simplify_eq; try done; [by apply H4|apply Forall_drop, H6; done].
Qed.

(** ** The invariant *)

Definition ends (l : topoLink) : list linkEndpoint := [linkA l; linkB l].
Definition endpoints (ls : list topoLink) : list linkEndpoint := concat (map ends ls).

Definition view (here there : linkEndpoint) : localLink :=
  {| LocalIfIndex := IfIndex here; PeerIP := IP there; PeerIfIndex := IfIndex there |}.
(** A link as the device [ip] sees it. *)
Definition views (ip : bytes) (l : topoLink) : list localLink :=
  (if bool_decide (IP (linkA l) = ip) then [view (linkA l) (linkB l)] else []) ++
  (if bool_decide (IP (linkB l) = ip) then [view (linkB l) (linkA l)] else []).

Definition endpoint_ok (e : linkEndpoint) : Prop := 1 <= IfIndex e /\ exists p, octets p /\ IP e = quad p.

Record topo_ok (t : Topology) : Prop := {
  to_ports : NoDup (endpoints (links t));
  to_norm : Forall endpoint_ok (endpoints (links t));
  to_adj : forall ip, default [] (adj t !! ip) = concat (map (views ip) (links t));
}.

Lemma endpoints_app ls ls' : endpoints (ls ++ ls') = endpoints ls ++ endpoints ls'.
Proof. unfold endpoints. by rewrite map_app, concat_app. Qed.

Lemma elem_of_endpoints e ls : e ∈ endpoints ls <-> exists l, l ∈ ls /\ (e = linkA l \/ e = linkB l).
Proof.
  unfold endpoints. rewrite list_elem_of_In, in_concat. split.
  - intros (x & (l & <- & Hl)%in_map_iff & Hx). exists l. rewrite list_elem_of_In. split; [done|]. cbn in Hx. intuition congruence.
  - intros (l & Hl & He). exists (ends l). split; [apply in_map, list_elem_of_In, Hl|]. cbn. intuition congruence.
Qed.

Lemma indexLink_adj m l ip : default [] (indexLink m l !! ip) = default [] (m !! ip) ++ views ip l.
Proof.
  unfold indexLink, addAdj, views. set (a := linkA l). set (b := linkB l).
  assert (H : forall (m : gmap bytes (list localLink)) ip' v, default [] (<[ip' := default [] (m !! ip') ++ [v]]> m !! ip) =
    default [] (m !! ip) ++ (if bool_decide (ip' = ip) then [v] else ([] : list localLink))).
  { intros m' ip' v. case_bool_decide as E; [subst ip'; by rewrite lookup_insert_eq|].
    by rewrite lookup_insert_ne, app_nil_r. }
  rewrite !H. by rewrite <- app_assoc.
Qed.

Lemma index_links_adj ls : forall m ip, default [] (fold_left indexLink ls m !! ip) = default [] (m !! ip) ++ concat (map (views ip) ls).
Proof.
  induction ls as [|l ls IH]; intros m ip; cbn [fold_left map concat]; [by rewrite app_nil_r|].
  by rewrite IH, indexLink_adj, <- app_assoc.
Qed.

Lemma rebuildAdj_adj ls ip : default [] (rebuildAdj ls !! ip) = concat (map (views ip) ls).
Proof. unfold rebuildAdj. by rewrite index_links_adj, lookup_empty. Qed.

(** A graph whose index is rebuilt from some of its links is consistent. *)
Lemma rebuilt_ok ls ls' g : sublist ls' ls -> NoDup (endpoints ls) -> Forall endpoint_ok (endpoints ls) ->
  topo_ok {| links := ls'; adj := rebuildAdj ls'; gen := g |}.
Proof.
  intros Hs Hnd Hf. assert (He : sublist (endpoints ls') (endpoints ls)).
  { clear Hnd Hf. unfold endpoints. induction Hs; cbn [map concat]; [constructor|by apply sublist_app|by apply sublist_inserts_l]. }
  split; cbn [links adj]; [by eapply sublist_NoDup| |intros ip; apply rebuildAdj_adj].
  apply List.Forall_forall. intros e Hin. apply (proj1 (List.Forall_forall _ _) Hf).
  rewrite <- list_elem_of_In in *. by eapply elem_of_sublist.
Qed.

Lemma validate_None ls nl : validateAgainstLinks ls nl = None <-> (linkA nl ∉ endpoints ls) /\ (linkB nl ∉ endpoints ls).
Proof.
  induction ls as [|l ls IH]; cbn [validateAgainstLinks].
  - split; [split; apply not_elem_of_nil|done].
  - change (endpoints (l :: ls)) with ([linkA l; linkB l] ++ endpoints ls).
    rewrite !elem_of_app, !elem_of_cons, !elem_of_nil.
    repeat case_bool_decide; cbn [andb orb]; rewrite ?IH; split; intros; try done; intuition congruence.
Qed.

Lemma addLoop_spec pending : forall ls, NoDup (endpoints ls) -> Forall (fun l => linkA l <> linkB l) pending ->
  match addLoop ls pending with
  | (ls', None) => ls' = ls ++ pending /\ NoDup (endpoints (ls ++ pending))
  | (ls', Some _) => take (length ls) ls' = ls /\ ~ NoDup (endpoints (ls ++ pending))
  end.
Proof.
  induction pending as [|nl pending IH]; intros ls Hnd Hne; cbn [addLoop]; [by rewrite app_nil_r|].
  inversion_clear Hne as [|? ? Hab Hne']. pose proof (validate_None ls nl) as Hv.
  replace (ls ++ nl :: pending) with ((ls ++ [nl]) ++ pending) by (by rewrite <- app_assoc).
  assert (Hone : NoDup (endpoints (ls ++ [nl])) <-> (linkA nl ∉ endpoints ls) /\ (linkB nl ∉ endpoints ls)).
  { rewrite endpoints_app. change (endpoints [nl]) with [linkA nl; linkB nl]. rewrite list.NoDup_app. split.
    - intros (_ & H & _). split; intros Hin; eapply H; [exact Hin|left|exact Hin|right; left].
    - intros [HA HB]. split_and!; [done| |].
      + intros x Hx [->|[->|[]%elem_of_nil]%elem_of_cons]%elem_of_cons; done.
      + repeat constructor; rewrite ?elem_of_cons, ?elem_of_nil; intuition. }
  destruct (validateAgainstLinks ls nl) as [e|].
  - split; [apply firstn_all|]. rewrite endpoints_app, list.NoDup_app, Hone. intros (H & _). by apply Hv in H.
  - specialize (IH (ls ++ [nl]) (proj2 Hone (proj1 Hv eq_refl)) Hne'). destruct (addLoop (ls ++ [nl]) pending) as [ls' [e|]]; [|done].
    destruct IH as [H1 H2]. split; [|done]. rewrite <- (take_app_length ls [nl]) at 2. rewrite <- H1, take_take, length_app. f_equal. lia.
Qed.

(** ** Every operation keeps it *)

Definition normalises (l : LinkJSON) (nl : topoLink) : Prop :=
  normEndpoint (j_a l) = inr (linkA nl) /\ normEndpoint (j_b l) = inr (linkB nl).
(** A batch that may be added: it normalises to [pending], and no port of it is
    in use, in the graph or twice in the batch. *)
Definition acceptable (t : Topology) (batch : list LinkJSON) (pending : list topoLink) : Prop :=
  Forall2 normalises batch pending /\ NoDup (endpoints (links t ++ pending)).

Lemma normEndpoint_ok e x : normEndpoint e = inr x -> endpoint_ok x.
Proof.
  unfold normEndpoint. destruct (ParseIP_To4 (j_ip e)) as [ip|] eqn:E; [|done]. case_match; [done|]. zbool. intros [= <-].
  split; [done|]. exists ip. split; [by eapply ParseIP_octets|done].
Qed.

Lemma normBatch_spec batch : forall pre,
  match normBatch batch pre with
  | inr pending => exists new, pending = pre ++ new /\ Forall2 normalises batch new /\ Forall (fun l => linkA l <> linkB l) new
  | inl _ => forall new, Forall2 normalises batch new -> ~ NoDup (endpoints new)
  end.
Proof.
  induction batch as [|l batch IH]; intros pre; cbn [normBatch].
  { exists []. rewrite app_nil_r. by split_and!; constructor. }
  destruct (normEndpoint (j_a l)) as [e|ae] eqn:Ea; [intros new H; inversion_clear H as [|? nl ? ? [H1 H2]]; congruence|].
  destruct (normEndpoint (j_b l)) as [e|be] eqn:Eb; [intros new H; inversion_clear H as [|? nl ? ? [H1 H2]]; congruence|].
  case_bool_decide as Hab.
  - intros new H. inversion_clear H as [|? nl ? new' [H1 H2]]. assert (E : linkA nl = linkB nl) by congruence.
    cbn. rewrite E. inversion_clear 1 as [|? ? Hn _]. apply Hn. left.
  - specialize (IH (pre ++ [{| linkA := ae; linkB := be |}])). destruct (normBatch batch _) as [e|pending].
    + intros new H. inversion_clear H as [|? nl ? new' [H1 H2] H3]. intros Hnd. apply (IH new' H3).
      change (nl :: new') with ([nl] ++ new') in Hnd. rewrite endpoints_app in Hnd. by apply list.NoDup_app in Hnd as (_ & _ & ?).
    + destruct IH as (new & -> & H1 & H2). exists ({| linkA := ae; linkB := be |} :: new).
      split; [by rewrite <- app_assoc|]. by split; constructor.
Qed.

Lemma normalises_ok batch new : Forall2 normalises batch new -> Forall endpoint_ok (endpoints new).
Proof.
  induction 1 as [|l nl batch new [H1 H2] _ IH]; [constructor|]. change (endpoints (nl :: new)) with ([linkA nl; linkB nl] ++ endpoints new).
  apply Forall_app. split; [|done]. constructor; [by eapply normEndpoint_ok|]. constructor; [by eapply normEndpoint_ok|constructor].
Qed.

Lemma normalises_fun batch new new' : Forall2 normalises batch new -> Forall2 normalises batch new' -> new = new'.
Proof.
  intros H. revert new'. induction H as [|l nl batch new [H1 H2] _ IH]; intros new' H'; inversion_clear H' as [|? nl' ? new'' [H1' H2'] H3]; [done|].
  f_equal; [|by apply IH]. destruct nl, nl'. cbn in *. congruence.
Qed.

Lemma AddLinks_spec t batch : NoDup (endpoints (links t)) ->
  match snd (AddLinks t batch) with
  | None => exists pending, acceptable t batch pending /\
      fst (AddLinks t batch) = {| links := links t ++ pending; adj := fold_left indexLink pending (adj t); gen := u64 (gen t + 1) |}
  | Some _ => fst (AddLinks t batch) = t /\ forall pending, ~ acceptable t batch pending
  end.
Proof.
  intros Hnd. unfold AddLinks. pose proof (normBatch_spec batch []) as Hb. destruct (normBatch batch []) as [e|pending].
  { split; [done|]. intros pending [H1 H2]. apply (Hb _ H1). rewrite endpoints_app in H2. by apply list.NoDup_app in H2 as (_ & _ & ?). }
  destruct Hb as (new & -> & H1 & H2). cbn [app]. pose proof (addLoop_spec new (links t) Hnd H2) as Ha.
  destruct (addLoop (links t) new) as [ls [e|]]; cbn [fst snd].
  - destruct Ha as [Ha1 Ha2]. split; [rewrite Ha1; by destruct t|]. intros pending [H3 H4]. by rewrite (normalises_fun _ _ _ H3 H1) in H4.
  - destruct Ha as [-> Ha]. by exists new.
Qed.

Lemma AddLinks_ok t batch : topo_ok t -> topo_ok (fst (AddLinks t batch)).
Proof.
  intros [Hp Hn Ha]. pose proof (AddLinks_spec t batch Hp) as H. destruct (snd (AddLinks t batch)); [by destruct H as [-> _]|].
  destruct H as (pending & [H1 H2] & ->). split; cbn [links adj]; [done| |].
  - rewrite endpoints_app. apply Forall_app. split; [done|by eapply normalises_ok].
  - intros ip. by rewrite index_links_adj, Ha, map_app, concat_app.
Qed.

Lemma removeFirst_spec ls a b :
  match removeFirst ls a b with
  | Some ls' => exists l pre post, ls = pre ++ l :: post /\ ls' = pre ++ post /\ sameLink l a b = true
  | None => forall l, l ∈ ls -> sameLink l a b = false
  end.
Proof.
  induction ls as [|l ls IH]; cbn [removeFirst]; [intros l H; by apply elem_of_nil in H|].
  destruct (sameLink l a b) eqn:E; [by exists l, [], ls|]. destruct (removeFirst ls a b) as [ls'|]; cbn.
  - destruct IH as (x & pre & post & -> & -> & Hx). by exists x, (l :: pre), post.
  - intros x [->|Hx]%elem_of_cons; [done|by apply IH].
Qed.

Lemma filter_sublist {A} (f : A -> bool) l : sublist (List.filter f l) l.
Proof. induction l as [|x l IH]; cbn; [constructor|]. case_if; by constructor. Qed.

Lemma bump_ok t : topo_ok t -> topo_ok (bumpGen t).
Proof. by intros []. Qed.

Lemma apply_op_ok t o : topo_ok t -> topo_ok (apply_op t o).
Proof.
  intros Ht. pose proof Ht as [Hp Hn Ha]. destruct o as [batch|a b|ip| |]; cbn [apply_op].
  - by apply AddLinks_ok.
  - unfold RemoveLink. destruct (normEndpoint a) as [|ae], (normEndpoint b) as [|be]; try done.
    pose proof (removeFirst_spec (links t) ae be) as H. destruct (removeFirst (links t) ae be) as [ls'|]; [|done].
    destruct H as (l & pre & post & Hl & -> & _). apply bump_ok, (rebuilt_ok (links t)); [|done|done].
    rewrite Hl. apply sublist_app; [done|by constructor].
  - unfold PruneDevice. destruct (ParseIP_To4 ip); [|done]. apply bump_ok, (rebuilt_ok (links t)); [apply filter_sublist|done|done].
  - by split; cbn; constructor.
  - by apply bump_ok.
Qed.

Lemma run_ops_ok ops : topo_ok (run_ops ops).
Proof. unfold run_ops. apply fold_left_inv; [by split; cbn; constructor|]. intros t o _. apply apply_op_ok. Qed.

(** ** What a device sees *)

Definition cabled (t : Topology) (a b : linkEndpoint) : Prop :=
  {| linkA := a; linkB := b |} ∈ links t \/ {| linkA := b; linkB := a |} ∈ links t.

Lemma elem_of_views ip l x : x ∈ views ip l <->
  (IP (linkA l) = ip /\ x = view (linkA l) (linkB l)) \/ (IP (linkB l) = ip /\ x = view (linkB l) (linkA l)).
Proof. unfold views. rewrite elem_of_app. repeat case_bool_decide; rewrite ?list_elem_of_singleton, ?elem_of_nil; intuition. Qed.

Lemma elem_of_concat_views ip ls x : x ∈ concat (map (views ip) ls) <-> exists l, l ∈ ls /\ x ∈ views ip l.
Proof.
  rewrite list_elem_of_In, in_concat. split.
  - intros (y & (l & <- & Hl)%in_map_iff & Hx). exists l. split; by apply list_elem_of_In.
  - intros (l & Hl & Hx). apply list_elem_of_In in Hl, Hx. exists (views ip l). split; [by apply in_map|done].
Qed.

(** The local ports in a device's list are its endpoints. *)
Lemma local_ports ip ls :
  map (fun v => {| IP := ip; IfIndex := LocalIfIndex v |}) (concat (map (views ip) ls)) =
  List.filter (fun e => bool_decide (IP e = ip)) (endpoints ls).
Proof.
  induction ls as [|l ls IH]; [done|]. change (endpoints (l :: ls)) with (ends l ++ endpoints ls).
  cbn [map concat]. rewrite map_app, List.filter_app, IH. f_equal. unfold views, ends. cbn [List.filter].
  destruct l as [[ipa ia] [ipb ib]]. cbn. repeat case_bool_decide; subst; done.
Qed.

Lemma views_nodup ip ls : NoDup (endpoints ls) ->
  NoDup (concat (map (views ip) ls)) /\
  forall x y, x ∈ concat (map (views ip) ls) -> y ∈ concat (map (views ip) ls) -> LocalIfIndex x = LocalIfIndex y -> x = y.
Proof.
  intros Hnd. set (f := fun v => {| IP := ip; IfIndex := LocalIfIndex v |}).
  assert (H : NoDup (map f (concat (map (views ip) ls)))).
  { unfold f. rewrite local_ports. apply NoDup_ListNoDup, List.NoDup_filter, NoDup_ListNoDup, Hnd. }
  revert H. generalize (concat (map (views ip) ls)). intros l Hl. split.
  - apply NoDup_ListNoDup. apply NoDup_ListNoDup in Hl. by apply List.NoDup_map_inv in Hl.
  - intros x y Hx Hy E. apply list_elem_of_lookup in Hx as [i Hi], Hy as [j Hj].
    assert (i = j) as ->; [|congruence]. apply (NoDup_lookup _ _ _ (f x) Hl); rewrite lookup_map; [by rewrite Hi|].
    rewrite Hj. unfold f. cbn. by rewrite E.
Qed.

Lemma cabled_view t ip x : (exists l, l ∈ links t /\ x ∈ views ip l) <->
  cabled t {| IP := ip; IfIndex := LocalIfIndex x |} {| IP := PeerIP x; IfIndex := PeerIfIndex x |}.
Proof.
  unfold cabled. split.
  - intros (l & Hl & [[<- ->]|[<- ->]]%elem_of_views); [left|right]; by destruct l as [[] []].
  - destruct x as [i p j]. intros [H|H]; (eexists; split; [exact H|]); apply elem_of_views; [by left|by right].
Qed.

Lemma LinksFor_spec t ip p : topo_ok t -> ParseIP_To4 ip = Some p ->
  StronglySorted (fun x y => LocalIfIndex x < LocalIfIndex y) (LinksFor t ip) /\
  forall x, x ∈ LinksFor t ip <-> cabled t {| IP := quad p; IfIndex := LocalIfIndex x |} {| IP := PeerIP x; IfIndex := PeerIfIndex x |}.
Proof.
  intros [Hp Hn Ha] E. unfold LinksFor. rewrite E, Ha. destruct (views_nodup (quad p) (links t) Hp) as [H1 H2]. split.
  - pose proof (sort_by_sorted (fun a b => LocalIfIndex a - LocalIfIndex b) (concat (map (views (quad p)) (links t)))) as Hs.
    eassert (Hs' := Hs _ H1 _). revert Hs'. generalize (sort_by (fun a b => LocalIfIndex a - LocalIfIndex b) (concat (map (views (quad p)) (links t)))).
    induction 1 as [|x s _ IH Hx]; constructor; [done|]. eapply List.Forall_impl; [|exact Hx]. cbn. lia.
    Unshelve. { cbn. intros. lia. } cbn. intros a b Hia Hib Hne Hlt. assert (LocalIfIndex a <> LocalIfIndex b); [|lia]. intros E'. by apply Hne, H2.
  - intros x. rewrite <- sort_by_perm, elem_of_concat_views. apply cabled_view.
Qed.

Lemma normEndpoint_toJSON e : endpoint_ok e -> normEndpoint (toJSON e) = inr e.
Proof.
  intros (Hi & p & Hp & E). unfold normEndpoint. cbn. rewrite E, ParseIP_quad by done.
  replace (IfIndex e <? 1) with false by lia. destruct e. cbn in *. by rewrite E.
Qed.

Lemma ListLinks_normalises t : Forall endpoint_ok (endpoints (links t)) -> Forall2 normalises (ListLinks t) (links t).
Proof.
  unfold ListLinks. induction (links t) as [|l ls IH]; intros H; [constructor|].
  change (endpoints (l :: ls)) with (ends l ++ endpoints ls) in H. apply Forall_app in H as [H1 H2].
  apply Forall_cons_1 in H1 as [HA H1]. apply Forall_cons_1 in H1 as [HB _].
  constructor; [by split; apply normEndpoint_toJSON|by apply IH].
Qed.

(** ** Theorems *)

(** C33: the graph is consistent after any history.  Whatever batches, removals,
    device deletions and resets an operator issues, valid or not, no port has two
    cables, and the list of a device, which is what its LLDP tables are built
    from, holds exactly the cables of that device seen from its side, one per
    local port in ascending order.  Being cabled is symmetric, so both ends of a
    cable always list each other. *)
Theorem topology_consistent ops ip p :
  ParseIP_To4 ip = Some p ->
  NoDup (endpoints (links (run_ops ops))) /\
  StronglySorted (fun x y => LocalIfIndex x < LocalIfIndex y) (LinksFor (run_ops ops) ip) /\
  (forall x, x ∈ LinksFor (run_ops ops) ip <->
     cabled (run_ops ops) {| IP := quad p; IfIndex := LocalIfIndex x |} {| IP := PeerIP x; IfIndex := PeerIfIndex x |}) /\
  forall a b, cabled (run_ops ops) a b -> cabled (run_ops ops) b a.
Proof.
  intros Hp. destruct (LinksFor_spec (run_ops ops) ip p (run_ops_ok ops) Hp) as [H1 H2].
  split; [apply run_ops_ok|]. split; [done|]. split; [done|]. intros a b [H|H]; [by right|by left].
Qed.

Definition cable (ipa : bytes) (ia : Z) (ipb : bytes) (ib : Z) : LinkJSON :=
  {| j_a := {| j_ip := ipa; j_ifindex := ia |}; j_b := {| j_ip := ipb; j_ifindex := ib |} |}.
Definition sampleOps : list topoOp :=
  [OpAdd [cable (str "10.0.0.1") 2 (str "::ffff:10.0.0.2") 1; cable (str "10.0.0.3") 1 (str "10.0.0.1") 1];
   OpAdd [cable (str "10.0.0.4") 1 (str "10.0.0.5") 1; cable (str "10.0.0.2") 1 (str "10.0.0.6") 1];
   OpPrune (str "10.0.0.3"); OpAdd [cable (str "10.0.0.4") 9 (str "10.0.0.1") 7]].

Lemma topology_consistent_witness :
  LinksFor (run_ops sampleOps) (str "10.0.0.1") =
    [{| LocalIfIndex := 2; PeerIP := str "10.0.0.2"; PeerIfIndex := 1 |}; {| LocalIfIndex := 7; PeerIP := str "10.0.0.4"; PeerIfIndex := 9 |}] /\
  cabled (run_ops sampleOps) {| IP := str "10.0.0.1"; IfIndex := 7 |} {| IP := str "10.0.0.4"; IfIndex := 9 |}.
Proof.
  assert (E : LinksFor (run_ops sampleOps) (str "10.0.0.1") =
    [{| LocalIfIndex := 2; PeerIP := str "10.0.0.2"; PeerIfIndex := 1 |}; {| LocalIfIndex := 7; PeerIP := str "10.0.0.4"; PeerIfIndex := 9 |}]) by (vm_compute; reflexivity).
  destruct (topology_consistent sampleOps (str "10.0.0.1") [10; 0; 0; 1] ltac:(vm_compute; reflexivity)) as (_ & _ & H & _).
  split; [exact E|]. apply (H {| LocalIfIndex := 7; PeerIP := str "10.0.0.4"; PeerIfIndex := 9 |}). rewrite E. right. left.
Defined.

(** A batch is added whole or not at all.  [AddLinks] succeeds exactly when
    every endpoint of the batch is an IPv4 address with a positive ifIndex and no
    port is used twice, in the graph or in the batch (which covers self-loops and
    duplicates); then the graph is the old one followed by the batch, under the
    next generation.  Otherwise it reports an error and the graph, its index and
    its generation are what they were. *)
Theorem addlinks_all_or_nothing ops batch :
  let t := run_ops ops in
  match AddLinks t batch with
  | (t', None) => exists pending, acceptable t batch pending /\ links t' = links t ++ pending /\ gen t' = u64 (gen t + 1)
  | (t', Some _) => t' = t /\ forall pending, ~ acceptable t batch pending
  end.
Proof.
  intros t. pose proof (AddLinks_spec t batch (to_ports _ (run_ops_ok ops))) as H. destruct (AddLinks t batch) as [t' [e|]]; cbn [fst snd] in H; [done|].
  destruct H as (pending & H & ->). by exists pending.
Qed.

(** Exporting the graph and importing it elsewhere reproduces it.  The list
    of links a GET of the topology answers is accepted by an empty graph, which
    then has the same links and gives every device the same neighbours. *)
Theorem topology_export_import ops :
  let t := run_ops ops in
  let '(t', e) := AddLinks NewTopology (ListLinks t) in
  e = None /\ links t' = links t /\ forall ip, LinksFor t' ip = LinksFor t ip.
Proof.
  intros t. destruct (run_ops_ok ops) as [Hp Hn Ha]. fold t in Hp, Hn, Ha.
  assert (Hacc : acceptable NewTopology (ListLinks t) (links t)) by (split; [by apply ListLinks_normalises|done]).
  pose proof (AddLinks_spec NewTopology (ListLinks t) ltac:(constructor)) as H.
  destruct (AddLinks NewTopology (ListLinks t)) as [t' [e|]]; cbn [fst snd] in H; [by destruct H as [_ H]; apply H in Hacc|].
  destruct H as (pending & [H1 H2] & ->). split; [done|].
  rewrite (normalises_fun _ _ _ H1 (proj1 Hacc)). cbn [links]. split; [done|]. intros ip. unfold LinksFor. destruct (ParseIP_To4 ip); [|done].
  cbn [adj]. by rewrite index_links_adj, lookup_empty, Ha.
Qed.

(** Octets with leading zeros are refused, not normalised. *)
Lemma leading_zeros_refused :
  normEndpoint {| j_ip := str "10.000.000.001"; j_ifindex := 1 |} = inl (InvalidIPv4 (str "10.000.000.001")).
Proof. vm_compute. reflexivity. Qed.
