(* ===== verification/Lldp.v ===== *)
(** * LLDP tables (lldp_table.go)

    The neighbours a device advertises, computed from the link graph, the devices
    that exist and their interface states.  GET computes one OID ([lldpGet]); a
    walk enumerates the rows of [buildLLDPServedOIDs], which the server keeps as a
    snapshot per generation of the graph.  The theorems show that the two agree,
    in the form the MIB walk relies on, that the two ends of a cable describe each
    other, and that a snapshot is never served after the change it predates has
    been announced. *)

From stdpp Require Import gmap.
From S2P Require Import Prelude GoStrings TypedValue Oid OidOrder OidPrefix Walk IfState IfCounters Topology.

(** ** Data *)

(** A device as its own and its peers' LLDP tables read it: the four octets of
    its address, its names, its resource index and, when it has interface
    counters, its state engine. *)
Record lldpDevice := {
  dev_IP : bytes;
  dev_sysName : bytes;
  dev_cachedSysName : option bytes;
  dev_oidIndex : gmap bytes bytes;
  dev_state : option InterfaceState;
}.
Record SimulatorManager := { topology : Topology; devicesByIP : gmap bytes lldpDevice }.

Definition FindDeviceByIP (sm : SimulatorManager) (ip : bytes) : option lldpDevice := devicesByIP sm !! ip.
Definition indexDeviceByIP (sm : SimulatorManager) (d : lldpDevice) : SimulatorManager :=
  {| topology := topology sm; devicesByIP := <[quad (dev_IP d) := d]> (devicesByIP sm) |}.

Definition oidLldpLocChassisIdSubtype : bytes := str ".1.0.8802.1.1.2.1.3.1.0".
Definition oidLldpLocChassisId : bytes := str ".1.0.8802.1.1.2.1.3.2.0".
Definition oidLldpLocSysName : bytes := str ".1.0.8802.1.1.2.1.3.3.0".
Definition oidLldpLocSysDesc : bytes := str ".1.0.8802.1.1.2.1.3.4.0".
Definition lldpLocPortPrefix : bytes := str ".1.0.8802.1.1.2.1.3.7.1.".
Definition lldpRemPrefix : bytes := str ".1.0.8802.1.1.2.1.4.1.1.".
Definition oidSysDescr : bytes := str ".1.3.6.1.2.1.1.1.0".

Definition colLldpLocPortIdSubtype : Z := 2.
Definition colLldpLocPortId : Z := 3.
Definition colLldpLocPortDesc : Z := 4.
Definition colLldpRemChassisIdSubtype : Z := 4.
Definition colLldpRemChassisId : Z := 5.
Definition colLldpRemPortIdSubtype : Z := 6.
Definition colLldpRemPortId : Z := 7.
Definition colLldpRemPortDesc : Z := 8.
Definition colLldpRemSysName : Z := 9.
Definition colLldpRemSysDesc : Z := 10.
Definition lldpChassisIdSubtypeMAC : bytes := str "4".
Definition lldpPortIdSubtypeIfName : bytes := str "5".

(** ** Reading a device *)

(** Nothing for an address that is not IPv4. *)
Definition chassisMACBytes (ip : bytes) : bytes :=
  match ip with
  | [a; b; c; d] => [0x02; 0x42; a; b; c; d]
  | _ => []
  end.

Definition deviceLinks (sm : SimulatorManager) (d : lldpDevice) : list localLink := LinksFor (topology sm) (quad (dev_IP d)).

Definition operUp (d : lldpDevice) (ifIndex : Z) : bool :=
  match dev_state d with
  | None => true
  | Some st => OperStatus st ifIndex =? OperUp
  end.

Definition lookupIfColumn (d : lldpDevice) (colPrefix : bytes) (ifIndex : Z) : bytes :=
  default [] (dev_oidIndex d !! (colPrefix ++ Itoa ifIndex)).
Definition lookupIfDescr (d : lldpDevice) (ifIndex : Z) : bytes := lookupIfColumn d (ifTablePrefix ++ str "2.") ifIndex.
Definition synthIfName (ifIndex : Z) : bytes := str "GigabitEthernet0/" ++ Itoa ifIndex.
Definition devIfDescr (d : lldpDevice) (ifIndex : Z) : bytes :=
  let descr := lookupIfDescr d ifIndex in
  if negb (beq descr []) then descr else synthIfName ifIndex.
Definition devSysDescr (d : lldpDevice) : bytes := default [] (dev_oidIndex d !! oidSysDescr).
Definition localSysName (d : lldpDevice) : bytes := default (dev_sysName d) (dev_cachedSysName d).

Fixpoint findLink (ls : list localLink) (ifIndex : Z) : option localLink :=
  match ls with
  | [] => None
  | l :: ls' => if LocalIfIndex l =? ifIndex then Some l else findLink ls' ifIndex
  end.

(** ** Index parsing *)

Definition atoiAfter (oid prefix : bytes) : option Z :=
  let rest := drop (length prefix) oid in
  if beq rest [] || (0 <=? IndexByte rest dot) then None else
  match Atoi rest with (n, true) => Some n | (_, false) => None end.

Definition parseColIndex (oid prefix : bytes) : option (Z * Z) :=
  let rest := drop (length prefix) oid in
  let d := IndexByte rest dot in
  if (d <=? 0) || (d =? len rest - 1) then None else
  match Atoi (take (Z.to_nat d) rest), Atoi (drop (Z.to_nat (d + 1)) rest) with
  | (col, true), (idx, true) => Some (col, idx)
  | _, _ => None
  end.

Definition parseRemIndex (oid : bytes) : option (Z * Z) :=
  match Split dot (drop (length lldpRemPrefix) oid) with
  | [p0; p1; p2; p3] =>
      match Atoi p0, Atoi p1, Atoi p2, Atoi p3 with
      | (col, true), (timeMark, true), (localPort, true), (remIndex, true) =>
          if negb (timeMark =? 0) || negb (remIndex =? 1) then None else Some (col, localPort)
      | _, _, _, _ => None
      end
  | _ => None
  end.

(** ** GET of one OID *)

(** [ifAlias.ifIndex]: the label of a linked port whose peer exists. *)
Definition ifAliasLabel (sm : SimulatorManager) (links : list localLink) (ifIndex : Z) : bytes :=
  match findLink links ifIndex with
  | None => []
  | Some ll =>
      match FindDeviceByIP sm (PeerIP ll) with
      | None => []
      | Some peer =>
          if beq (dev_sysName peer) [] then []
          else str "to_" ++ dev_sysName peer ++ str "_" ++ devIfDescr peer (PeerIfIndex ll)
      end
  end.

(** A column of lldpLocPortTable. *)
Definition localPortColumn (d : lldpDevice) (links : list localLink) (col port : Z) : bytes :=
  match findLink links port with
  | None => []
  | Some _ =>
      if col =? colLldpLocPortIdSubtype then lldpPortIdSubtypeIfName
      else if (col =? colLldpLocPortId) || (col =? colLldpLocPortDesc) then devIfDescr d port
      else []
  end.

(** A column of lldpRemTable: a live link to a device that exists. *)
Definition remoteColumn (sm : SimulatorManager) (d : lldpDevice) (links : list localLink) (col localPort : Z) : bytes :=
  match findLink links localPort with
  | None => []
  | Some ll =>
      match FindDeviceByIP sm (PeerIP ll) with
      | None => []
      | Some peer =>
          if negb (operUp d localPort) || negb (operUp peer (PeerIfIndex ll)) then [] else
          if col =? colLldpRemChassisIdSubtype then lldpChassisIdSubtypeMAC
          else if col =? colLldpRemChassisId then chassisMACBytes (dev_IP peer)
          else if col =? colLldpRemPortIdSubtype then lldpPortIdSubtypeIfName
          else if (col =? colLldpRemPortId) || (col =? colLldpRemPortDesc) then devIfDescr peer (PeerIfIndex ll)
          else if col =? colLldpRemSysName then dev_sysName peer
          else if col =? colLldpRemSysDesc then devSysDescr peer
          else []
      end
  end.

(** [None] for the manager: no topology. *)
Definition lldpGet (mgr : option SimulatorManager) (d : lldpDevice) (oid : bytes) : bytes :=
  match mgr with
  | None => []
  | Some sm =>
      if isIfAliasOID oid then
        match atoiAfter oid ifAliasPrefix with
        | None => []
        | Some ifIndex => ifAliasLabel sm (deviceLinks sm d) ifIndex
        end
      else if negb (isLLDPOID oid) then [] else
      let links := deviceLinks sm d in
      match links with
      | [] => []
      | _ =>
          if beq oid oidLldpLocChassisIdSubtype then lldpChassisIdSubtypeMAC
          else if beq oid oidLldpLocChassisId then chassisMACBytes (dev_IP d)
          else if beq oid oidLldpLocSysName then localSysName d
          else if beq oid oidLldpLocSysDesc then devSysDescr d
          else if HasPrefix oid lldpLocPortPrefix then
            match parseColIndex oid lldpLocPortPrefix with
            | None => []
            | Some (col, port) => localPortColumn d links col port
            end
          else if HasPrefix oid lldpRemPrefix then
            match parseRemIndex oid with
            | None => []
            | Some (col, localPort) => remoteColumn sm d links col localPort
            end
          else []
      end
  end.

(** ** The rows of a walk *)

(** [add]: a row with no value is left out. *)
Definition addRow (oid val : bytes) : list kvOID := if beq val [] then [] else [{| kv_oid := oid; kv_val := val |}].

Definition locPortOID (col port : Z) : bytes := lldpLocPortPrefix ++ Itoa col ++ str "." ++ Itoa port.
Definition remOID (col port : Z) : bytes := lldpRemPrefix ++ Itoa col ++ str "." ++ (str "0." ++ Itoa port ++ str ".1").

Definition scalarRows (d : lldpDevice) : list kvOID :=
  addRow oidLldpLocChassisIdSubtype lldpChassisIdSubtypeMAC ++
  addRow oidLldpLocChassisId (chassisMACBytes (dev_IP d)) ++
  addRow oidLldpLocSysName (localSysName d) ++
  addRow oidLldpLocSysDesc (devSysDescr d).

(** The body of the loop over the links. *)
Definition linkRows (sm : SimulatorManager) (d : lldpDevice) (ll : localLink) : list kvOID :=
  let port := LocalIfIndex ll in
  let desc := devIfDescr d port in
  addRow (locPortOID colLldpLocPortIdSubtype port) lldpPortIdSubtypeIfName ++
  addRow (locPortOID colLldpLocPortId port) desc ++
  addRow (locPortOID colLldpLocPortDesc port) desc ++
  match FindDeviceByIP sm (PeerIP ll) with
  | None => []
  | Some peer =>
      let peerDesc := devIfDescr peer (PeerIfIndex ll) in
      (if beq (dev_sysName peer) [] then []
       else addRow (ifAliasPrefix ++ Itoa port) (str "to_" ++ dev_sysName peer ++ str "_" ++ peerDesc)) ++
      (if negb (operUp d port) || negb (operUp peer (PeerIfIndex ll)) then [] else
       addRow (remOID colLldpRemChassisIdSubtype port) lldpChassisIdSubtypeMAC ++
       addRow (remOID colLldpRemChassisId port) (chassisMACBytes (dev_IP peer)) ++
       addRow (remOID colLldpRemPortIdSubtype port) lldpPortIdSubtypeIfName ++
       addRow (remOID colLldpRemPortId port) peerDesc ++
       addRow (remOID colLldpRemPortDesc port) peerDesc ++
       addRow (remOID colLldpRemSysName port) (dev_sysName peer) ++
       addRow (remOID colLldpRemSysDesc port) (devSysDescr peer))
  end.

Definition buildLLDPServedOIDs (sm : SimulatorManager) (d : lldpDevice) : list kvOID :=
  match deviceLinks sm d with
  | [] => []
  | links =>
      let out := scalarRows d ++ concat (map (linkRows sm d) links) in
      sort_by (fun a b => compareOIDs (kv_oid a) (kv_oid b)) out
  end.

(** ** Rows as arcs *)

Definition aliasTable : list Z := [1; 3; 6; 1; 2; 1; 31; 1; 1; 1; 18].
Definition lldpTree : list Z := [1; 0; 8802; 1; 1; 2].
Definition locTable : list Z := lldpTree ++ [1; 3; 7; 1].
Definition remTable : list Z := lldpTree ++ [1; 4; 1; 1].
Definition scalarArcs : list (list Z) := map (fun k => lldpTree ++ [1; 3; k; 0]) [1; 2; 3; 4].

Definition aliasArcs (port : Z) : list Z := aliasTable ++ [port].
Definition locArcs (col port : Z) : list Z := locTable ++ [col; port].
Definition remArcs (col port : Z) : list Z := remTable ++ [col; 0; port; 1].

(** Every name a link can give a row to. *)
Definition linkArcs (port : Z) : list (list Z) :=
  map (fun c => locArcs c port) [2; 3; 4] ++ [aliasArcs port] ++ map (fun c => remArcs c port) [4; 5; 6; 7; 8; 9; 10].
Definition allArcs (ports : list Z) : list (list Z) := scalarArcs ++ concat (map linkArcs ports).

Lemma ifAliasPrefix_subtree : ifAliasPrefix = subtree aliasTable.
Proof. reflexivity. Qed.
Lemma lldpRoot_subtree : lldpRoot ++ str "." = subtree lldpTree.
Proof. reflexivity. Qed.
Lemma locPrefix_subtree : lldpLocPortPrefix = subtree locTable.
Proof. reflexivity. Qed.
Lemma remPrefix_subtree : lldpRemPrefix = subtree remTable.
Proof. reflexivity. Qed.

(** [canonical] of concrete arcs followed by ports. *)
Ltac arcs_canonical := split; [done|]; repeat (apply List.Forall_cons; [first [done|unfold subid_ok, maxOIDSubIdentifier; lia]|]); try constructor.

Lemma tables_ok : Forall subid_ok aliasTable /\ Forall subid_ok lldpTree /\ Forall subid_ok locTable /\ Forall subid_ok remTable.
Proof. split_and!; repeat (apply List.Forall_cons; [unfold subid_ok, maxOIDSubIdentifier; lia|]); constructor. Qed.

Lemma canonical_app t c rest : canonical (t ++ c :: rest) -> subid_ok c /\ Forall subid_ok rest.
Proof. intros [_ H]. apply Forall_app in H as [_ H]. by apply Forall_cons_1 in H. Qed.

Lemma tails_dot rest : rest <> [] -> In dot (tails rest).
Proof. destruct rest; [done|]. intros _. by left. Qed.

Lemma atoiAfter_arcs t c rest : canonical (t ++ c :: rest) ->
  atoiAfter (dotted (t ++ c :: rest)) (subtree t) = match rest with [] => Some c | _ => None end.
Proof.
  intros Hc. destruct (canonical_app _ _ _ Hc) as [Hi Hr]. unfold atoiAfter. rewrite drop_subtree, IndexByte_segment by done.
  pose proof (segment_len c Hi) as Hl. unfold beq. rewrite bool_decide_false; [|intros E; apply (f_equal len) in E; rewrite len_app, len_nil in E; pose proof (len_nonneg (tails rest)); lia].
  destruct rest as [|x rest]; cbn [orb]; [|by replace (0 <=? len (FormatUint c)) with true by lia].
  cbn. by rewrite app_nil_r, Atoi_FormatUint by (by apply arc_int64).
Qed.

Lemma parseColIndex_arcs t c rest : canonical (t ++ c :: rest) ->
  parseColIndex (dotted (t ++ c :: rest)) (subtree t) = match rest with [i] => Some (c, i) | _ => None end.
Proof.
  intros Hc. destruct (canonical_app _ _ _ Hc) as [Hi Hr]. unfold parseColIndex. rewrite drop_subtree, IndexByte_segment by done.
  destruct rest as [|i rest]; [done|]. apply Forall_cons_1 in Hr as [Hii Hr].
  pose proof (segment_len c Hi) as Hl. pose proof (segment_len i Hii) as Hl2.
  rewrite tails_cons, take_segment, drop_segment, Atoi_FormatUint by (by apply arc_int64).
  replace (len (FormatUint c) <=? 0) with false by lia. autorewrite with len. pose proof (len_nonneg (tails rest)).
  replace (len (FormatUint c) =? len (FormatUint c) + (1 + (len (FormatUint i) + len (tails rest))) - 1) with false by lia. cbn [orb].
  destruct rest as [|j rest].
  - cbn. by rewrite app_nil_r, Atoi_FormatUint by (by apply arc_int64).
  - pose proof (Atoi_dot (FormatUint i ++ tails (j :: rest)) ltac:(apply in_or_app; right; by apply tails_dot)) as Hd.
    by destruct (Atoi _) as [v []].
Qed.

Lemma Split_arcs c rest : subid_ok c -> Forall subid_ok rest -> Split dot (FormatUint c ++ tails rest) = map FormatUint (c :: rest).
Proof.
  intros Hc Hr. assert (E : FormatUint c ++ tails rest = Join dot (map FormatUint (c :: rest))).
  { pose proof (dotted_tails (c :: rest) ltac:(done)) as E. unfold dotted in E. rewrite tails_cons in E. by injection E. }
  rewrite E. apply Split_Join; [done|]. assert (H : Forall subid_ok (c :: rest)) by (by constructor).
  revert H. generalize (c :: rest). induction 1 as [|x l Hx _ IH]; constructor; [|done]. by apply FormatUint_no_dot, arc_u64.
Qed.

Lemma parseRemIndex_arcs c rest : canonical (remTable ++ c :: rest) ->
  parseRemIndex (dotted (remTable ++ c :: rest)) =
    match rest with [t; i; r] => if (t =? 0) && (r =? 1) then Some (c, i) else None | _ => None end.
Proof.
  intros Hc. destruct (canonical_app _ _ _ Hc) as [Hi Hr]. unfold parseRemIndex. rewrite remPrefix_subtree, drop_subtree, Split_arcs by done.
  destruct rest as [|t [|i [|r [|]]]]; try done. cbn [map].
  apply Forall_cons_1 in Hr as [H1 Hr]. apply Forall_cons_1 in Hr as [H2 Hr]. apply Forall_cons_1 in Hr as [H3 _].
  rewrite !Atoi_FormatUint by (by apply arc_int64). by destruct (t =? 0), (r =? 1).
Qed.

(** The arcs after a table prefix. *)
Fixpoint strip (t n : list Z) : option (Z * list Z) :=
  match t, n with
  | [], c :: rest => Some (c, rest)
  | x :: t', y :: n' => if x =? y then strip t' n' else None
  | _, [] => None
  end.

Lemma strip_Some t : forall n c rest, strip t n = Some (c, rest) <-> n = t ++ c :: rest.
Proof.
  induction t as [|x t IH]; intros [|y n] c rest; cbn [strip app]; try (split; congruence).
  case_if; zbool; [subst x; rewrite IH|]; split; congruence.
Qed.

Lemma HasPrefix_strip t n : Forall subid_ok t -> canonical n ->
  HasPrefix (dotted n) (subtree t) = match strip t n with Some _ => true | None => false end.
Proof.
  intros Ht Hn. pose proof (HasPrefix_subtree t n Ht Hn) as H. destruct (strip t n) as [[c rest]|] eqn:E.
  - apply H. exists c, rest. by apply strip_Some.
  - destruct (HasPrefix (dotted n) (subtree t)); [|done]. destruct (proj1 H eq_refl) as (c & rest & Hc). apply strip_Some in Hc. congruence.
Qed.

Lemma beq_dotted_arcs n m : canonical n -> canonical m -> beq (dotted n) (dotted m) = bool_decide (n = m).
Proof. intros Hn Hm. unfold beq. apply bool_decide_ext. split; [by apply dotted_inj|by intros ->]. Qed.

(** [lldpGet] on the arcs of a canonical OID. *)
Lemma lldpGet_arcs sm d n : canonical n ->
  lldpGet (Some sm) d (dotted n) =
  match strip aliasTable n with
  | Some (i, []) => ifAliasLabel sm (deviceLinks sm d) i
  | Some _ => []
  | None =>
      match strip lldpTree n, deviceLinks sm d with
      | None, _ | _, [] => []
      | Some _, links =>
          if bool_decide (n = lldpTree ++ [1; 3; 1; 0]) then lldpChassisIdSubtypeMAC
          else if bool_decide (n = lldpTree ++ [1; 3; 2; 0]) then chassisMACBytes (dev_IP d)
          else if bool_decide (n = lldpTree ++ [1; 3; 3; 0]) then localSysName d
          else if bool_decide (n = lldpTree ++ [1; 3; 4; 0]) then devSysDescr d
          else match strip locTable n with
          | Some (c, [i]) => localPortColumn d links c i
          | Some _ => []
          | None =>
              match strip remTable n with
              | Some (c, [t; i; r]) => if (t =? 0) && (r =? 1) then remoteColumn sm d links c i else []
              | _ => []
              end
          end
      end
  end.
Proof.
  intros Hn. destruct tables_ok as (T1 & T2 & T3 & T4). unfold lldpGet, isIfAliasOID, isLLDPOID.
  rewrite ifAliasPrefix_subtree, lldpRoot_subtree, locPrefix_subtree, !HasPrefix_strip by done.
  destruct (strip aliasTable n) as [[i rest]|] eqn:E1.
  { apply strip_Some in E1. subst n. rewrite atoiAfter_arcs by done. by destruct rest. }
  destruct (strip lldpTree n) as [x|]; cbn [negb]; [|done]. destruct (deviceLinks sm d) as [|l links]; [done|].
  change oidLldpLocChassisIdSubtype with (dotted (lldpTree ++ [1; 3; 1; 0])). change oidLldpLocChassisId with (dotted (lldpTree ++ [1; 3; 2; 0])).
  change oidLldpLocSysName with (dotted (lldpTree ++ [1; 3; 3; 0])). change oidLldpLocSysDesc with (dotted (lldpTree ++ [1; 3; 4; 0])).
  rewrite !beq_dotted_arcs by (done || arcs_canonical).
  do 4 (case_bool_decide; [done|]).
  destruct (strip locTable n) as [[c rest]|] eqn:E2.
  { apply strip_Some in E2. subst n. rewrite parseColIndex_arcs by done. by destruct rest as [|? []]. }
  rewrite remPrefix_subtree, HasPrefix_strip by done. destruct (strip remTable n) as [[c rest]|] eqn:E3; [|done].
  apply strip_Some in E3. subst n. rewrite parseRemIndex_arcs by done. destruct rest as [|t [|i [|r []]]]; try done.
  by destruct ((t =? 0) && (r =? 1)).
Qed.

(** ** Each name's value *)

Lemma aliasArcs_ok i : subid_ok i -> canonical (aliasArcs i).
Proof. intros H. arcs_canonical. Qed.
Lemma locArcs_ok c i : subid_ok c -> subid_ok i -> canonical (locArcs c i).
Proof. intros Hc Hi. arcs_canonical. Qed.
Lemma remArcs_ok c i : subid_ok c -> subid_ok i -> canonical (remArcs c i).
Proof. intros Hc Hi. arcs_canonical. Qed.

Lemma dotted_subtree t c rest : dotted (t ++ c :: rest) = subtree t ++ FormatUint c ++ tails rest.
Proof. rewrite dotted_tails; [apply subtree_tails|by destruct t]. Qed.
Lemma dotted_alias i : subid_ok i -> dotted (aliasArcs i) = ifAliasPrefix ++ Itoa i.
Proof. intros H. unfold aliasArcs. rewrite dotted_subtree, arc_Itoa by done. cbn [tails map concat]. by rewrite app_nil_r. Qed.
Lemma dotted_loc c i : subid_ok c -> subid_ok i -> dotted (locArcs c i) = locPortOID c i.
Proof. intros Hc Hi. unfold locArcs, locPortOID. rewrite dotted_subtree, !arc_Itoa by done. by rewrite tails_cons, app_nil_r. Qed.
Lemma dotted_rem c i : subid_ok c -> subid_ok i -> dotted (remArcs c i) = remOID c i.
Proof. intros Hc Hi. unfold remArcs, remOID. rewrite dotted_subtree, !arc_Itoa by done. by rewrite !tails_cons. Qed.

Section rows.
Context (sm : SimulatorManager) (d : lldpDevice).
Abbreviation get := (lldpGet (Some sm) d).
Abbreviation links := (deviceLinks sm d).

Lemma get_alias i : subid_ok i -> get (dotted (aliasArcs i)) = ifAliasLabel sm links i.
Proof. intros H. by rewrite lldpGet_arcs by by apply aliasArcs_ok. Qed.

Lemma get_loc c i : subid_ok c -> subid_ok i -> get (dotted (locArcs c i)) = localPortColumn d links c i.
Proof.
  intros Hc Hi. rewrite lldpGet_arcs by by apply locArcs_ok. change (strip aliasTable (locArcs c i)) with (@None (Z * list Z)).
  change (strip lldpTree (locArcs c i)) with (Some (1, [3; 7; 1; c; i])). change (strip locTable (locArcs c i)) with (Some (c, [i])).
  destruct links as [|l ls]; [done|]. by rewrite !bool_decide_false by done.
Qed.

Lemma get_rem c i : subid_ok c -> subid_ok i -> get (dotted (remArcs c i)) = remoteColumn sm d links c i.
Proof.
  intros Hc Hi. rewrite lldpGet_arcs by by apply remArcs_ok. change (strip aliasTable (remArcs c i)) with (@None (Z * list Z)).
  change (strip lldpTree (remArcs c i)) with (Some (1, [4; 1; 1; c; 0; i; 1])). change (strip locTable (remArcs c i)) with (@None (Z * list Z)).
  change (strip remTable (remArcs c i)) with (Some (c, [0; i; 1])).
  destruct links as [|l ls]; [done|]. by rewrite !bool_decide_false by done.
Qed.

(** The names of a list that have a value, with it. *)
Definition rowsOf (ns : list (list Z)) : list kvOID := concat (map (fun n => addRow (dotted n) (get (dotted n))) ns).

Lemma rowsOf_app ns ms : rowsOf (ns ++ ms) = rowsOf ns ++ rowsOf ms.
Proof. unfold rowsOf. by rewrite map_app, concat_app. Qed.
Lemma rowsOf_cons n ns : rowsOf (n :: ns) = addRow (dotted n) (get (dotted n)) ++ rowsOf ns.
Proof. done. Qed.
Lemma rowsOf_concat nss : rowsOf (concat nss) = concat (map rowsOf nss).
Proof. induction nss as [|ns nss IH]; [done|]. cbn [map concat]. by rewrite rowsOf_app, IH. Qed.

Lemma scalarRows_rowsOf : links <> [] -> scalarRows d = rowsOf scalarArcs.
Proof.
  intros Hne. unfold rowsOf, scalarArcs. cbn [map concat].
  rewrite !lldpGet_arcs by arcs_canonical. destruct links as [|l ls]; [done|]. by rewrite app_nil_r.
Qed.

#[local] Opaque dotted FormatUint.
Lemma linkRows_rowsOf ll : findLink links (LocalIfIndex ll) = Some ll -> subid_ok (LocalIfIndex ll) ->
  linkRows sm d ll = rowsOf (linkArcs (LocalIfIndex ll)).
Proof.
  intros Hf Hi. set (port := LocalIfIndex ll) in *. unfold linkArcs. rewrite !rowsOf_app. unfold rowsOf. cbn [map concat].
  assert (Hc : forall c, 2 <= c <= 10 -> subid_ok c) by (unfold subid_ok, maxOIDSubIdentifier; lia).
  rewrite get_alias, !get_loc, !get_rem, dotted_alias, !dotted_loc, !dotted_rem by first [exact Hi|apply Hc; lia].
  unfold ifAliasLabel, localPortColumn, remoteColumn. rewrite Hf. unfold linkRows. fold port. cbn [Z.eqb orb]. rewrite !app_nil_r.
  change (2 =? colLldpLocPortIdSubtype) with true. cbn [orb].
  rewrite <- !app_assoc. do 3 f_equal.
  destruct (FindDeviceByIP sm (PeerIP ll)) as [peer|]; [|done].
  assert (H0 : forall o, addRow o [] = []) by done.
  destruct (beq (dev_sysName peer) []); destruct (negb (operUp d port) || negb (operUp peer (PeerIfIndex ll))); rewrite ?H0; done.
Qed.

(** Ports that have a name of their own. *)
Definition ports_ok (ls : list localLink) : Prop := Forall (fun l => subid_ok (LocalIfIndex l)) ls.
Definition portsOf (ls : list localLink) : list Z := map LocalIfIndex ls.

Lemma findLink_port ls ll : NoDup (portsOf ls) -> ll ∈ ls -> findLink ls (LocalIfIndex ll) = Some ll.
Proof.
  induction ls as [|l ls IH]; intros Hnd Hin; [by apply elem_of_nil in Hin|]. cbn [findLink portsOf map] in *.
  inversion_clear Hnd as [|? ? Hn Hnd']. apply elem_of_cons in Hin as [->|Hin]; [by rewrite Z.eqb_refl|].
  case_if; zbool; [|by apply IH]. exfalso. apply Hn. rewrite E. apply list_elem_of_In, in_map, list_elem_of_In, Hin.
Qed.

Lemma findLink_Some ls i ll : findLink ls i = Some ll -> ll ∈ ls /\ LocalIfIndex ll = i.
Proof.
  induction ls as [|l ls IH]; cbn [findLink]; [done|]. case_if; zbool.
  - intros [= <-]. split; [left|done].
  - intros H. destruct (IH H). split; [by right|done].
Qed.

Definition kvRow (n : list Z) : kvOID := {| kv_oid := dotted n; kv_val := get (dotted n) |}.
Definition valued (n : list Z) : bool := negb (beq (get (dotted n)) []).

Lemma rowsOf_filter ns : rowsOf ns = map kvRow (List.filter valued ns).
Proof.
  unfold rowsOf. induction ns as [|n ns IH]; [done|]. cbn [map concat List.filter]. rewrite IH. unfold addRow, valued.
  by destruct (beq (get (dotted n)) []).
Qed.

Lemma linkArcs_inj p q n : n ∈ linkArcs p -> n ∈ linkArcs q -> p = q.
Proof.
  rewrite !list_elem_of_In. cbn. intros Hp Hq.
  repeat (destruct Hp as [<-|Hp]); repeat (destruct Hq as [Hq|Hq]); try done; by injection Hq.
Qed.

Lemma linkArcs_nodup p : NoDup (linkArcs p).
Proof.
  unfold linkArcs. cbn [map app]. repeat (constructor; [rewrite ?elem_of_cons, ?elem_of_nil; intros H; repeat (destruct H as [H|H]; [discriminate H|]); exact H|]). constructor.
Qed.

Lemma allArcs_nodup ps : NoDup ps -> NoDup (allArcs ps).
Proof.
  intros Hps. unfold allArcs. apply list.NoDup_app. split_and!.
  - unfold scalarArcs. cbn [map]. repeat (constructor; [rewrite ?elem_of_cons, ?elem_of_nil; intros H; repeat (destruct H as [H|H]; [discriminate H|]); exact H|]). constructor.
  - intros n Hn Hin. apply list_elem_of_In, in_concat in Hin as (x & (p & <- & _)%in_map_iff & Hx). apply list_elem_of_In in Hn.
    cbn in Hn, Hx. repeat (destruct Hn as [<-|Hn]; [repeat (destruct Hx as [Hx|Hx]; [discriminate Hx|]); exact Hx|]). exact Hn.
  - induction Hps as [|p ps Hp Hps IH]; cbn [map concat]; [constructor|]. apply list.NoDup_app. split_and!; [apply linkArcs_nodup| |done].
    intros n Hn Hin. apply list_elem_of_In, in_concat in Hin as (x & (q & <- & Hq)%in_map_iff & Hx).
    apply Hp. apply list_elem_of_In in Hx. rewrite (linkArcs_inj _ _ _ Hn Hx). by apply list_elem_of_In.
Qed.

Lemma allArcs_canonical ps : Forall subid_ok ps -> Forall canonical (allArcs ps).
Proof.
  intros Hps. apply Forall_app. split; [repeat (apply List.Forall_cons; [arcs_canonical|]); constructor|].
  induction Hps as [|p ps Hp _ IH]; [constructor|]. cbn [map concat]. apply Forall_app. split; [|done].
  unfold linkArcs. cbn [map app].
  repeat (apply List.Forall_cons; [solve [apply aliasArcs_ok, Hp|apply locArcs_ok; [unfold subid_ok, maxOIDSubIdentifier; lia|exact Hp]|
    apply remArcs_ok; [unfold subid_ok, maxOIDSubIdentifier; lia|exact Hp]]|]). constructor.
Qed.

(** A name with a value is one of those. *)
Lemma valued_allArcs n : canonical n -> get (dotted n) <> [] -> n ∈ allArcs (portsOf links).
Proof.
  intros Hn. rewrite lldpGet_arcs by done. unfold allArcs. rewrite elem_of_app.
  assert (Hport : forall i ll m, findLink links i = Some ll -> m ∈ linkArcs i -> m ∈ concat (map linkArcs (portsOf links))).
  { intros i ll m Hf Hm. apply findLink_Some in Hf as [Hl <-]. apply list_elem_of_In, in_concat. exists (linkArcs (LocalIfIndex ll)).
    split; [apply in_map, in_map, list_elem_of_In, Hl|by apply list_elem_of_In]. }
  destruct (strip aliasTable n) as [[i [|]]|] eqn:E1; [| done |].
  { apply strip_Some in E1. unfold ifAliasLabel. destruct (findLink links i) as [ll|] eqn:Ef; [|done]. intros _. right.
    eapply Hport; [exact Ef|]. subst n. unfold linkArcs. cbn [map app]. do 3 right. left. }
  destruct (strip lldpTree n) as [x|]; [|done]. destruct links as [|l0 ls] eqn:El; [done|]. rewrite <- El in *.
  do 4 (case_bool_decide; [intros _; left; subst n; unfold scalarArcs; cbn [map]; rewrite !elem_of_cons; tauto|]).
  destruct (strip locTable n) as [[c [|i [|]]]|] eqn:E2; [done| |done|].
  - apply strip_Some in E2. unfold localPortColumn. destruct (findLink links i) as [ll|] eqn:Ef; [|done]. intros Hv. right.
    eapply Hport; [exact Ef|]. subst n. change (locTable ++ [c; i]) with (locArcs c i). unfold linkArcs. apply elem_of_app. left.
    apply list_elem_of_In, (in_map (fun c => locArcs c i) _ c). revert Hv. unfold colLldpLocPortIdSubtype, colLldpLocPortId, colLldpLocPortDesc.
    repeat case_match; intros Hv; try done; cbn; lia.
  - destruct (strip remTable n) as [[c [|t [|i [|r [|]]]]]|] eqn:E3; try done. destruct ((t =? 0) && (r =? 1)) eqn:Er; [|done]. zbool. subst t r.
    apply strip_Some in E3. unfold remoteColumn. destruct (findLink links i) as [ll|] eqn:Ef; [|done].
    destruct (FindDeviceByIP sm (PeerIP ll)) as [peer|]; [|done]. case_if; [done|]. intros Hv. right. eapply Hport; [exact Ef|]. subst n.
    change (remTable ++ [c; 0; i; 1]) with (remArcs c i). unfold linkArcs. do 2 (apply elem_of_app; right).
    apply list_elem_of_In, (in_map (fun c => remArcs c i) _ c). revert Hv. clear.
    unfold colLldpRemChassisIdSubtype, colLldpRemChassisId, colLldpRemPortIdSubtype, colLldpRemPortId, colLldpRemPortDesc, colLldpRemSysName, colLldpRemSysDesc.
    repeat case_match; intros Hv; try done; cbn; lia.
Qed.
End rows.

(** A device whose tables can be named: the graph is consistent, and the device's
    ports fit a sub-identifier. *)
Record lldp_ok (sm : SimulatorManager) (d : lldpDevice) : Prop := {
  lo_topo : topo_ok (topology sm);
  lo_ip : octets (dev_IP d);
  lo_ports : ports_ok (deviceLinks sm d);
}.

Lemma deviceLinks_spec sm d : topo_ok (topology sm) -> octets (dev_IP d) ->
  NoDup (portsOf (deviceLinks sm d)) /\
  forall l, l ∈ deviceLinks sm d <->
    cabled (topology sm) {| IP := quad (dev_IP d); IfIndex := LocalIfIndex l |} {| IP := PeerIP l; IfIndex := PeerIfIndex l |}.
Proof.
  intros Ht Hip. destruct (LinksFor_spec (topology sm) (quad (dev_IP d)) (dev_IP d) Ht (ParseIP_quad _ Hip)) as [Hs Hin]. split; [|done].
  unfold deviceLinks, portsOf. clear Hin. induction Hs as [|l ls _ IH Hl]; cbn [map]; constructor; [|done].
  intros (l' & E & Hl')%list_elem_of_In%in_map_iff. pose proof (proj1 (List.Forall_forall _ _) Hl l' Hl') as Hlt. cbn in Hlt. lia.
Qed.

Definition servedArcs (sm : SimulatorManager) (d : lldpDevice) : list (list Z) :=
  sort_by lex (List.filter (valued sm d) (allArcs (portsOf (deviceLinks sm d)))).

Lemma built_rows sm d : lldp_ok sm d -> buildLLDPServedOIDs sm d = map (kvRow sm d) (servedArcs sm d).
Proof.
  intros [Ht Hip Hp]. destruct (deviceLinks_spec sm d Ht Hip) as [Hnd _]. unfold buildLLDPServedOIDs, servedArcs.
  assert (Hrows : deviceLinks sm d <> [] -> scalarRows d ++ concat (map (linkRows sm d) (deviceLinks sm d)) = rowsOf sm d (allArcs (portsOf (deviceLinks sm d)))).
  { intros Hne. unfold allArcs. rewrite rowsOf_app, <- scalarRows_rowsOf, rowsOf_concat by done. f_equal. f_equal. unfold portsOf. rewrite !map_map.
    apply List.map_ext_in. intros ll Hll. apply list_elem_of_In in Hll. apply linkRows_rowsOf; [by apply findLink_port|].
    by apply (proj1 (List.Forall_forall _ _) Hp), list_elem_of_In. }
  assert (Hcan : Forall canonical (List.filter (valued sm d) (allArcs (portsOf (deviceLinks sm d))))).
  { apply List.Forall_forall. intros n [Hn _]%filter_In. apply (proj1 (List.Forall_forall _ _) (allArcs_canonical (portsOf (deviceLinks sm d)) ltac:(by apply List.Forall_map))), Hn. }
  destruct (deviceLinks sm d) as [|l ls] eqn:El.
  - cbn [portsOf map] in *. unfold allArcs, scalarArcs. cbn [map concat app List.filter]. unfold valued.
    rewrite !lldpGet_arcs by arcs_canonical. by rewrite El.
  - rewrite Hrows by done. rewrite rowsOf_filter. apply (sort_by_map _ _ _ canonical); [|done]. intros a b Ha Hb. cbn [kvRow kv_oid]. by apply compareOIDs_dotted.
Qed.

Lemma servedArcs_spec sm d : lldp_ok sm d ->
  ascending (servedArcs sm d) /\ Forall canonical (servedArcs sm d) /\
  forall n, canonical n -> In n (servedArcs sm d) <-> lldpGet (Some sm) d (dotted n) <> [].
Proof.
  intros [Ht Hip Hp]. destruct (deviceLinks_spec sm d Ht Hip) as [Hnd _].
  assert (Hin : forall n, In n (servedArcs sm d) <-> In n (allArcs (portsOf (deviceLinks sm d))) /\ valued sm d n = true).
  { intros n. unfold servedArcs. rewrite <- !list_elem_of_In, <- sort_by_perm, !list_elem_of_In. apply filter_In. }
  assert (Hcan : Forall canonical (allArcs (portsOf (deviceLinks sm d)))) by (apply allArcs_canonical; by apply List.Forall_map).
  assert (Hval : forall n, valued sm d n = true <-> lldpGet (Some sm) d (dotted n) <> []).
  { intros n. unfold valued, beq. case_bool_decide; cbn; split; done. }
  split_and!.
  - apply sort_by_ascending, List.NoDup_filter, NoDup_ListNoDup, allArcs_nodup, Hnd.
  - apply List.Forall_forall. intros n [Hn _]%Hin. by apply (proj1 (List.Forall_forall _ _) Hcan).
  - intros n Hn. rewrite Hin, Hval. split; [tauto|]. intros Hv. split; [|done]. apply list_elem_of_In. by apply valued_allArcs.
Qed.

(** The link behind a cabled port. *)
Lemma cabled_findLink sm d i e : topo_ok (topology sm) -> octets (dev_IP d) ->
  cabled (topology sm) {| IP := quad (dev_IP d); IfIndex := i |} e ->
  findLink (deviceLinks sm d) i = Some {| LocalIfIndex := i; PeerIP := IP e; PeerIfIndex := IfIndex e |}.
Proof.
  intros Ht Hip Hc. destruct (deviceLinks_spec sm d Ht Hip) as [Hnd Hin].
  apply (findLink_port (deviceLinks sm d) {| LocalIfIndex := i; PeerIP := IP e; PeerIfIndex := IfIndex e |} Hnd), Hin. by destruct e.
Qed.

(** Names of the local description of a port: chassis subtype and id, port
    subtype, id and description, system name and description, in the order of the
    remote columns 4 to 10 that carry them on the other side. *)
Definition localNames (port : Z) : list (list Z) :=
  [lldpTree ++ [1; 3; 1; 0]; lldpTree ++ [1; 3; 2; 0]; locArcs 2 port; locArcs 3 port; locArcs 4 port; lldpTree ++ [1; 3; 3; 0]; lldpTree ++ [1; 3; 4; 0]].

(** A device registered under its address. *)
Definition registered (sm : SimulatorManager) (d : lldpDevice) : Prop :=
  FindDeviceByIP sm (quad (dev_IP d)) = Some d /\ octets (dev_IP d) /\ (dev_cachedSysName d = None \/ dev_cachedSysName d = Some (dev_sysName d)).

#[local] Opaque dotted FormatUint.
(** What one side sees of the other. *)
Lemma half_link sm a b i j : topo_ok (topology sm) -> registered sm a -> registered sm b -> subid_ok i -> subid_ok j ->
  cabled (topology sm) {| IP := quad (dev_IP a); IfIndex := i |} {| IP := quad (dev_IP b); IfIndex := j |} ->
  map (fun c => lldpGet (Some sm) a (dotted (remArcs c i))) [4; 5; 6; 7; 8; 9; 10] =
  map (fun n => if operUp a i && operUp b j then lldpGet (Some sm) b (dotted n) else []) (localNames j).
Proof.
  intros Ht (_ & Ha & _) (Hb & Hbo & Hname) Hi Hj Hc.
  assert (Hcol : forall c, 2 <= c <= 10 -> subid_ok c) by (unfold subid_ok, maxOIDSubIdentifier; lia).
  pose proof (cabled_findLink sm a i _ Ht Ha Hc) as Hfa.
  assert (Hc' : cabled (topology sm) {| IP := quad (dev_IP b); IfIndex := j |} {| IP := quad (dev_IP a); IfIndex := i |}) by (destruct Hc; [by right|by left]).
  pose proof (cabled_findLink sm b j _ Ht Hbo Hc') as Hfb. unfold localNames. cbn [map].
  rewrite !(get_rem sm a), !(get_loc sm b) by first [exact Hi|exact Hj|apply Hcol; lia].
  rewrite !lldpGet_arcs by arcs_canonical.
  assert (Hne : deviceLinks sm b <> []) by (destruct (deviceLinks sm b); done).
  unfold remoteColumn, localPortColumn. rewrite Hfa, Hfb. cbn [PeerIP PeerIfIndex IP IfIndex]. rewrite Hb.
  destruct (deviceLinks sm b) as [|l ls]; [done|]. destruct (operUp a i), (operUp b j); cbn [andb orb negb]; try done.
  unfold localSysName. by destruct Hname as [-> | ->].
Qed.

(** ** A sample fabric *)

Definition leaf (last : Z) (name : bytes) : lldpDevice :=
  {| dev_IP := [10; 0; 0; last]; dev_sysName := name; dev_cachedSysName := Some name;
     dev_oidIndex := <[str ".1.3.6.1.2.1.2.2.1.2.1" := str "et-0/0/0"]> (<[oidSysDescr := str "Junos"]> ∅); dev_state := None |}.
Definition sampleManager : SimulatorManager :=
  fold_left indexDeviceByIP [leaf 1 (str "leaf1"); leaf 2 (str "leaf2")] {| topology := run_ops sampleOps; devicesByIP := ∅ |}.

Lemma sampleManager_ok : lldp_ok sampleManager (leaf 1 (str "leaf1")).
Proof.
  split; [apply run_ops_ok|split; [done|by apply bytes_okb_ok]|].
  assert (E : deviceLinks sampleManager (leaf 1 (str "leaf1")) =
    [{| LocalIfIndex := 2; PeerIP := str "10.0.0.2"; PeerIfIndex := 1 |}; {| LocalIfIndex := 7; PeerIP := str "10.0.0.4"; PeerIfIndex := 9 |}]) by (vm_compute; reflexivity).
  rewrite E. repeat (apply List.Forall_cons; [unfold subid_ok, maxOIDSubIdentifier; cbn; lia|]). constructor.
Qed.

Lemma sample_registered last name : (last, name) = (1, str "leaf1") \/ (last, name) = (2, str "leaf2") -> registered sampleManager (leaf last name).
Proof.
  intros [[= -> ->]|[= -> ->]]; (split; [vm_compute; reflexivity|]); (split; [split; [done|by apply bytes_okb_ok]|by right]).
Qed.

(** ** Theorems *)

(** C28: what a walk enumerates of LLDP is what GET answers.  The rows built for a
    device ascend strictly in MIB order, as the successor search requires, every
    row carries the value GET answers for its name, and every OID GET answers has
    its row.  Links to devices that do not exist yet, interfaces that are down
    and missing names leave out the same rows on both paths. *)
Theorem lldp_get_equals_walk sm d :
  lldp_ok sm d ->
  exists arcs, map kv_oid (buildLLDPServedOIDs sm d) = map dotted arcs /\ ascending arcs /\ Forall canonical arcs /\
    Forall (fun kv => lldpGet (Some sm) d (kv_oid kv) = kv_val kv) (buildLLDPServedOIDs sm d) /\
    forall n, canonical n -> In n arcs <-> lldpGet (Some sm) d (dotted n) <> [].
Proof.
  intros Hok. destruct (servedArcs_spec sm d Hok) as (H1 & H2 & H3). exists (servedArcs sm d). rewrite (built_rows sm d Hok).
  split; [by rewrite map_map|]. split; [done|]. split; [done|]. split; [|done].
  apply List.Forall_map, List.Forall_forall. done.
Qed.

Lemma lldp_get_equals_walk_witness :
  length (buildLLDPServedOIDs sampleManager (leaf 1 (str "leaf1"))) = 18%nat /\
  lldpGet (Some sampleManager) (leaf 1 (str "leaf1")) (dotted (aliasArcs 2)) = str "to_leaf2_et-0/0/0" /\
  {| kv_oid := dotted (aliasArcs 2); kv_val := str "to_leaf2_et-0/0/0" |} ∈ buildLLDPServedOIDs sampleManager (leaf 1 (str "leaf1")).
Proof.
  assert (Hget : lldpGet (Some sampleManager) (leaf 1 (str "leaf1")) (dotted (aliasArcs 2)) = str "to_leaf2_et-0/0/0") by (vm_compute; reflexivity).
  destruct (lldp_get_equals_walk sampleManager (leaf 1 (str "leaf1")) sampleManager_ok) as (arcs & H1 & _ & _ & H2 & H3).
  split; [vm_compute; reflexivity|]. split; [exact Hget|].
  assert (Hin : In (aliasArcs 2) arcs) by (apply H3; [apply aliasArcs_ok; unfold subid_ok, maxOIDSubIdentifier; lia|rewrite Hget; discriminate]).
  apply (in_map dotted) in Hin. rewrite <- H1 in Hin. destruct (proj1 (in_map_iff kv_oid (buildLLDPServedOIDs sampleManager (leaf 1 (str "leaf1"))) (dotted (aliasArcs 2))) Hin) as (kv & E & Hkv). apply list_elem_of_In.
  pose proof (proj1 (List.Forall_forall _ _) H2 kv Hkv) as Hv. destruct kv as [o v]. cbn [kv_oid kv_val] in E, Hv. subst o. rewrite Hget in Hv. subst v. exact Hkv.
Defined.

(** The two ends of a cable stitch.  Between registered devices, each remote
    column a device serves for a live cabled port, from the chassis id to the
    system description, is byte for byte what the device at the other end serves
    as its own local description, in both directions; while either end is not up
    neither serves a remote row. *)
Theorem lldp_links_stitch sm a b i j :
  topo_ok (topology sm) -> registered sm a -> registered sm b -> subid_ok i -> subid_ok j ->
  cabled (topology sm) {| IP := quad (dev_IP a); IfIndex := i |} {| IP := quad (dev_IP b); IfIndex := j |} ->
  let live := operUp a i && operUp b j in
  map (fun c => lldpGet (Some sm) a (dotted (remArcs c i))) [4; 5; 6; 7; 8; 9; 10] =
    map (fun n => if live then lldpGet (Some sm) b (dotted n) else []) (localNames j) /\
  map (fun c => lldpGet (Some sm) b (dotted (remArcs c j))) [4; 5; 6; 7; 8; 9; 10] =
    map (fun n => if live then lldpGet (Some sm) a (dotted n) else []) (localNames i).
Proof.
  intros Ht Ha Hb Hi Hj Hc live. split; [by apply half_link|]. unfold live. rewrite andb_comm. apply half_link; done.
Qed.

Lemma lldp_links_stitch_witness :
  map (fun c => lldpGet (Some sampleManager) (leaf 1 (str "leaf1")) (dotted (remArcs c 2))) [4; 5; 6; 7; 8; 9; 10] =
    map (fun n => lldpGet (Some sampleManager) (leaf 2 (str "leaf2")) (dotted n)) (localNames 1).
Proof.
  assert (H1 : subid_ok 1 /\ subid_ok 2) by (unfold subid_ok, maxOIDSubIdentifier; lia).
  assert (Hc : cabled (topology sampleManager) {| IP := quad [10; 0; 0; 1]; IfIndex := 2 |} {| IP := quad [10; 0; 0; 2]; IfIndex := 1 |}) by (left; vm_compute; left).
  destruct (lldp_links_stitch sampleManager (leaf 1 (str "leaf1")) (leaf 2 (str "leaf2")) 2 1 (run_ops_ok _)
    (sample_registered _ _ (or_introl eq_refl)) (sample_registered _ _ (or_intror eq_refl)) (proj2 H1) (proj1 H1) Hc) as [H _].
  exact H.
Defined.
