(* ===== verification/LldpCache.v ===== *)
(** * The snapshot of the LLDP rows (lldp_table.go, [lldpServedOIDs])

    A server keeps the rows it built last, tagged with the generation of the link
    graph it read before building.  Links, devices and interface states change
    under it, without a lock in common: every change announces itself by raising
    the generation after it was made, and building reads the graph, the registry
    and the states one by one.  [step] interleaves changes, announcements and any
    number of concurrent reads at that grain.  The theorem shows that a read which
    no change overlaps answers the present rows, whatever happened before it.

    Generations are unbounded here; the code's are 64-bit and would have to wrap
    around between two reads to be taken for one another. *)

From stdpp Require Import gmap.
From S2P Require Import Prelude GoStrings OidOrder Walk Topology Lldp.

(** ** Building, one read at a time *)

(** What the build reads: the links of a device, the registry, an interface. *)
Record lldpView := {
  v_links : bytes -> list localLink;
  v_device : bytes -> option lldpDevice;
  v_up : bytes -> Z -> bool;
}.
Definition viewOf (sm : SimulatorManager) : lldpView :=
  {| v_links := LinksFor (topology sm); v_device := FindDeviceByIP sm;
     v_up := fun ip port => match FindDeviceByIP sm ip with Some d => operUp d port | None => true end |}.

Inductive bprog :=
| BDone (rows : list kvOID)
| BLinks (ip : bytes) (k : list localLink -> bprog)
| BFind (ip : bytes) (k : option lldpDevice -> bprog)
| BUp (ip : bytes) (port : Z) (k : bool -> bprog).

Fixpoint brun (v : lldpView) (p : bprog) : list kvOID :=
  match p with
  | BDone rows => rows
  | BLinks ip k => brun v (k (v_links v ip))
  | BFind ip k => brun v (k (v_device v ip))
  | BUp ip port k => brun v (k (v_up v ip port))
  end.

Definition locRows (d : lldpDevice) (port : Z) : list kvOID :=
  addRow (locPortOID colLldpLocPortIdSubtype port) lldpPortIdSubtypeIfName ++
  addRow (locPortOID colLldpLocPortId port) (devIfDescr d port) ++
  addRow (locPortOID colLldpLocPortDesc port) (devIfDescr d port).
Definition aliasRows (peer : lldpDevice) (ll : localLink) : list kvOID :=
  if beq (dev_sysName peer) [] then []
  else addRow (ifAliasPrefix ++ Itoa (LocalIfIndex ll)) (str "to_" ++ dev_sysName peer ++ str "_" ++ devIfDescr peer (PeerIfIndex ll)).
Definition remRows (peer : lldpDevice) (ll : localLink) : list kvOID :=
  let port := LocalIfIndex ll in
  let peerDesc := devIfDescr peer (PeerIfIndex ll) in
  addRow (remOID colLldpRemChassisIdSubtype port) lldpChassisIdSubtypeMAC ++
  addRow (remOID colLldpRemChassisId port) (chassisMACBytes (dev_IP peer)) ++
  addRow (remOID colLldpRemPortIdSubtype port) lldpPortIdSubtypeIfName ++
  addRow (remOID colLldpRemPortId port) peerDesc ++
  addRow (remOID colLldpRemPortDesc port) peerDesc ++
  addRow (remOID colLldpRemSysName port) (dev_sysName peer) ++
  addRow (remOID colLldpRemSysDesc port) (devSysDescr peer).

(** The loop over the links, from the rows so far; the second operand of
    [!operUp(s.device, port) || !operUp(peer, ...)] is read only when the first
    is false. *)
Fixpoint linksProg (d : lldpDevice) (ls : list localLink) (out : list kvOID) : bprog :=
  match ls with
  | [] => BDone (sort_by (fun a b => compareOIDs (kv_oid a) (kv_oid b)) out)
  | ll :: ls' =>
      let out := out ++ locRows d (LocalIfIndex ll) in
      BFind (PeerIP ll) (fun peer =>
        match peer with
        | None => linksProg d ls' out
        | Some peer =>
            let out := out ++ aliasRows peer ll in
            BUp (quad (dev_IP d)) (LocalIfIndex ll) (fun up =>
              if negb up then linksProg d ls' out else
              BUp (quad (dev_IP peer)) (PeerIfIndex ll) (fun up =>
                if negb up then linksProg d ls' out else linksProg d ls' (out ++ remRows peer ll)))
        end)
  end.
Definition buildProg (d : lldpDevice) : bprog :=
  BLinks (quad (dev_IP d)) (fun ls => match ls with [] => BDone [] | _ => linksProg d ls (scalarRows d) end).

(** ** Snapshots *)

Inductive readPc :=
| Idle
| Called (calls pend : nat)
| HasGen (calls pend : nat) (g : Z)
| Building (calls pend : nat) (g : Z) (rest : bprog)
| Answer (calls pend : nat) (rows : list kvOID).

Record reply := { rp_calls : nat; rp_pend : nat; rp_now : nat; rp_view : lldpView; rp_rows : list kvOID }.

(** [calls] counts the changes made, [pending] those not yet announced. *)
Record state := {
  now : lldpView;
  calls : nat;
  pending : nat;
  topoGen : Z;
  cache : option (Z * list kvOID);
  pcs : list readPc;
  replies : list reply;
}.

Definition set_pc (s : state) (r : nat) (pc : readPc) : state :=
  {| now := now s; calls := calls s; pending := pending s; topoGen := topoGen s; cache := cache s; pcs := <[r := pc]> (pcs s); replies := replies s |}.
Definition store_cache (s : state) (c : option (Z * list kvOID)) : state :=
  {| now := now s; calls := calls s; pending := pending s; topoGen := topoGen s; cache := c; pcs := pcs s; replies := replies s |}.

Section Snapshot.
Context (d : lldpDevice).

Inductive step (s : state) : state -> Prop :=
| step_change v : step s {| now := v; calls := S (calls s); pending := S (pending s); topoGen := topoGen s; cache := cache s; pcs := pcs s; replies := replies s |}
| step_announce n : pending s = S n ->
    step s {| now := now s; calls := calls s; pending := n; topoGen := topoGen s + 1; cache := cache s; pcs := pcs s; replies := replies s |}
| step_call r : pcs s !! r = Some Idle -> step s (set_pc s r (Called (calls s) (pending s)))
| step_gen r c p : pcs s !! r = Some (Called c p) -> step s (set_pc s r (HasGen c p (topoGen s)))
| step_hit r c p g rows : pcs s !! r = Some (HasGen c p g) -> cache s = Some (g, rows) -> step s (set_pc s r (Answer c p rows))
| step_miss r c p g : pcs s !! r = Some (HasGen c p g) -> (forall rows, cache s <> Some (g, rows)) -> step s (set_pc s r (Building c p g (buildProg d)))
| step_links r c p g ip k : pcs s !! r = Some (Building c p g (BLinks ip k)) -> step s (set_pc s r (Building c p g (k (v_links (now s) ip))))
| step_find r c p g ip k : pcs s !! r = Some (Building c p g (BFind ip k)) -> step s (set_pc s r (Building c p g (k (v_device (now s) ip))))
| step_up r c p g ip port k : pcs s !! r = Some (Building c p g (BUp ip port k)) -> step s (set_pc s r (Building c p g (k (v_up (now s) ip port))))
| step_store r c p g rows : pcs s !! r = Some (Building c p g (BDone rows)) ->
    step s (set_pc (store_cache s (Some (g, rows))) r (Answer c p rows))
| step_return r c p rows : pcs s !! r = Some (Answer c p rows) ->
    step s {| now := now s; calls := calls s; pending := pending s; topoGen := topoGen s; cache := cache s; pcs := <[r := Idle]> (pcs s);
              replies := replies s ++ [{| rp_calls := c; rp_pend := p; rp_now := calls s; rp_view := now s; rp_rows := rows |}] |}.

Inductive steps : state -> state -> Prop :=
| steps_refl s : steps s s
| steps_one s1 s2 s3 : steps s1 s2 -> step s2 s3 -> steps s1 s3.

(** ** The invariant *)

(** Rows tagged with a generation that is still current and announced are the
    present ones. *)
Definition fresh (s : state) (g : Z) (rows : list kvOID) : Prop :=
  g <= topoGen s /\ (g = topoGen s -> pending s = 0%nat -> rows = brun (now s) (buildProg d)).
(** No change has been made or was unannounced since the call began. *)
Definition quiet (s : state) (c p : nat) : Prop := p = 0%nat /\ c = calls s.

Definition pc_ok (s : state) (pc : readPc) : Prop :=
  match pc with
  | Idle => True
  | Called c p => (c <= calls s)%nat /\ (quiet s c p -> pending s = 0%nat)
  | HasGen c p g => (c <= calls s)%nat /\ g <= topoGen s /\ (quiet s c p -> pending s = 0%nat /\ g = topoGen s)
  | Building c p g rest => (c <= calls s)%nat /\ fresh s g (brun (now s) rest) /\ (quiet s c p -> pending s = 0%nat /\ g = topoGen s)
  | Answer c p rows => (c <= calls s)%nat /\ (quiet s c p -> pending s = 0%nat /\ rows = brun (now s) (buildProg d))
  end.
Definition reply_ok (rp : reply) : Prop :=
  rp_pend rp = 0%nat -> rp_calls rp = rp_now rp -> rp_rows rp = brun (rp_view rp) (buildProg d).

Record state_ok (s : state) : Prop := {
  so_cache : forall g rows, cache s = Some (g, rows) -> fresh s g rows;
  so_pcs : forall r pc, pcs s !! r = Some pc -> pc_ok s pc;
  so_replies : Forall reply_ok (replies s);
}.

Lemma set_pc_ok s r pc : state_ok s -> pc_ok s pc -> state_ok (set_pc s r pc).
Proof.
  intros [Hc Hp Hr] Hpc. split; [done| |done]. intros r' pc' Hl. cbn in Hl.
  destruct (decide (r = r')) as [<-|Hne].
  - destruct (decide (r < length (pcs s))%nat); [|rewrite list_insert_ge in Hl by lia; by eapply (Hp r)].
    rewrite list_lookup_insert_eq in Hl by done. by injection Hl as <-.
  - rewrite list_lookup_insert_ne in Hl by done. by eapply (Hp r').
Qed.

Lemma snap_step_ok s s' : step s s' -> state_ok s -> state_ok s'.
Proof.
  intros Hstep Hs. pose proof Hs as [Hc Hp Hr]. destruct Hstep as
    [v|n Hn|r Hl|r c p Hl|r c p g rows Hl Hh|r c p g Hl Hm|r c p g ip k Hl|r c p g ip k Hl|r c p g ip port k Hl|r c p g rows Hl|r c p rows Hl].
  - split; [|intros r pc Hl; pose proof (Hp r pc Hl) as H|done].
    + intros g rows E. destruct (Hc g rows E) as [H1 _]. split; [done|]. cbn. lia.
    + destruct pc as [|c p|c p g|c p g rest|c p rows]; unfold pc_ok, quiet, fresh in *; cbn [calls pending topoGen now] in *; try done; repeat split; try lia; try tauto; intros; lia.
  - split; [|intros r pc Hl; pose proof (Hp r pc Hl) as H|done].
    + intros g rows E. destruct (Hc g rows E) as [H1 _]. split; cbn; lia.
    + destruct pc as [|c p|c p g|c p g rest|c p rows]; unfold pc_ok, quiet, fresh in *; cbn [calls pending topoGen now] in *; try done; repeat split; try lia; try tauto; intros; exfalso; naive_solver lia.
  - apply set_pc_ok; [done|]. split; [done|]. intros [Hp0 _]. exact Hp0.
  - apply set_pc_ok; [done|]. destruct (Hp _ _ Hl) as [H1 H2]. split_and!; [done|lia|]. intros Hq. split; [by apply H2|done].
  - apply set_pc_ok; [done|]. destruct (Hp _ _ Hl) as (H1 & H2 & H3). split; [done|]. intros Hq. destruct (H3 Hq) as [Hp0 ->].
    split; [done|]. by apply (Hc _ _ Hh).
  - apply set_pc_ok; [done|]. destruct (Hp _ _ Hl) as (H1 & H2 & H3). split_and!; [done|by split|done].
  - apply set_pc_ok; [done|]. exact (Hp _ _ Hl).
  - apply set_pc_ok; [done|]. exact (Hp _ _ Hl).
  - apply set_pc_ok; [done|]. exact (Hp _ _ Hl).
  - destruct (Hp _ _ Hl) as (H1 & H2 & H3). apply set_pc_ok.
    + split; [|exact Hp|done]. intros g' rows' [= <- <-]. exact H2.
    + split; [done|]. intros Hq. destruct (H3 Hq) as [Hp0 Hg]. split; [done|]. by apply H2.
  - pose proof (set_pc_ok s r Idle Hs I) as [Hc' Hp' _]. split; [exact Hc'|exact Hp'|].
    cbn [replies]. apply Forall_app. split; [done|]. constructor; [|constructor]. intros Hp0 Hq. cbn in *.
    destruct (Hp _ _ Hl) as [_ H]. by apply H.
Qed.

Definition boot (v : lldpView) (n : nat) : state :=
  {| now := v; calls := 0; pending := 0; topoGen := 0; cache := None; pcs := replicate n Idle; replies := [] |}.

Lemma snap_steps_ok v n s : steps (boot v n) s -> state_ok s.
Proof.
  remember (boot v n) as s0 eqn:E. induction 1 as [|s1 s2 s3 _ IH Hs]; [subst|eapply snap_step_ok; eauto].
  split; [done| |constructor]. intros r pc Hl. apply lookup_replicate_1 in Hl as [-> _]. exact I.
Qed.
End Snapshot.

(** ** The program is the build *)

(** Devices are registered under their own address. *)
Definition registry_ok (sm : SimulatorManager) : Prop :=
  forall ip p, FindDeviceByIP sm ip = Some p -> ip = quad (dev_IP p).

Lemma indexDeviceByIP_ok sm d : registry_ok sm -> registry_ok (indexDeviceByIP sm d).
Proof.
  intros H ip p. unfold FindDeviceByIP, indexDeviceByIP. cbn [devicesByIP].
  destruct (decide (ip = quad (dev_IP d))) as [->|Hne]; [rewrite lookup_insert_eq; by intros [= <-]|].
  rewrite lookup_insert_ne by done. apply H.
Qed.

Lemma viewOf_up sm p ip port : registry_ok sm -> FindDeviceByIP sm ip = Some p -> v_up (viewOf sm) (quad (dev_IP p)) port = operUp p port.
Proof. intros Hr Hf. cbn. by rewrite <- (Hr ip p Hf), Hf. Qed.

Lemma linksProg_run sm d ls : registry_ok sm -> FindDeviceByIP sm (quad (dev_IP d)) = Some d -> forall out,
  brun (viewOf sm) (linksProg d ls out) =
  sort_by (fun a b => compareOIDs (kv_oid a) (kv_oid b)) (out ++ concat (map (linkRows sm d) ls)).
Proof.
  intros Hr Hd. induction ls as [|ll ls IH]; intros out; cbn [linksProg brun map concat]; [by rewrite app_nil_r|].
  change (v_device (viewOf sm) (PeerIP ll)) with (FindDeviceByIP sm (PeerIP ll)). unfold linkRows at 1.
  destruct (FindDeviceByIP sm (PeerIP ll)) as [peer|] eqn:Hf; cbn [brun].
  - rewrite (viewOf_up sm d _ _ Hr Hd). destruct (operUp d (LocalIfIndex ll)); cbn [negb orb brun].
    + rewrite (viewOf_up sm peer _ _ Hr Hf). destruct (operUp peer (PeerIfIndex ll)); cbn [negb]; rewrite IH; unfold locRows, aliasRows, remRows;
        rewrite <- !app_assoc; by destruct (beq (dev_sysName peer) []).
    + rewrite IH. unfold locRows, aliasRows. rewrite <- !app_assoc. by destruct (beq (dev_sysName peer) []).
  - rewrite IH. unfold locRows. by rewrite <- !app_assoc.
Qed.

Lemma buildProg_run sm d : registry_ok sm -> FindDeviceByIP sm (quad (dev_IP d)) = Some d ->
  brun (viewOf sm) (buildProg d) = buildLLDPServedOIDs sm d.
Proof.
  intros Hr Hd. unfold buildProg, buildLLDPServedOIDs, deviceLinks. cbn [brun viewOf v_links].
  destruct (LinksFor (topology sm) (quad (dev_IP d))) as [|l ls]; [done|]. by apply linksProg_run.
Qed.

(** ** Reads end *)

Lemma snap_steps_trans d s1 s2 s3 : steps d s1 s2 -> steps d s2 s3 -> steps d s1 s3.
Proof. intros H1 H2. induction H2 as [|s2 s3 s4 _ IH H]; [done|]. eapply steps_one; [by apply IH|exact H]. Qed.

Lemma set_pc_lookup s r pc pc' : pcs s !! r = Some pc -> pcs (set_pc s r pc') !! r = Some pc'.
Proof. intros H. apply list_lookup_insert_eq. by eapply lookup_lt_Some. Qed.

Definition replied (s s' : state) : Prop := exists rp, replies s' = replies s ++ [rp].

Lemma answer_replied d s r c p rows : pcs s !! r = Some (Answer c p rows) -> exists s', steps d s s' /\ replied s s'.
Proof. intros H. eexists. split; [eapply steps_one; [constructor|by eapply step_return]|by eexists]. Qed.

Lemma building_replied d rest : forall s r c p g, pcs s !! r = Some (Building c p g rest) -> exists s', steps d s s' /\ replied s s'.
Proof.
  induction rest as [rows|ip k IH|ip k IH|ip port k IH]; intros s r c p g H.
  - destruct (answer_replied d (set_pc (store_cache s (Some (g, rows))) r (Answer c p rows)) r c p rows) as (s' & H1 & H2); [by eapply set_pc_lookup|].
    exists s'. split; [|done]. eapply snap_steps_trans; [eapply steps_one; [constructor|by eapply step_store]|done].
  - destruct (IH (v_links (now s) ip) (set_pc s r (Building c p g (k (v_links (now s) ip)))) r c p g (set_pc_lookup s r _ _ H)) as (s' & H1 & H2). exists s'. split; [|done].
    eapply snap_steps_trans; [eapply steps_one; [constructor|by eapply step_links]|exact H1].
  - destruct (IH (v_device (now s) ip) (set_pc s r (Building c p g (k (v_device (now s) ip)))) r c p g (set_pc_lookup s r _ _ H)) as (s' & H1 & H2). exists s'. split; [|done].
    eapply snap_steps_trans; [eapply steps_one; [constructor|by eapply step_find]|exact H1].
  - destruct (IH (v_up (now s) ip port) (set_pc s r (Building c p g (k (v_up (now s) ip port)))) r c p g (set_pc_lookup s r _ _ H)) as (s' & H1 & H2). exists s'. split; [|done].
    eapply snap_steps_trans; [eapply steps_one; [constructor|by eapply step_up]|exact H1].
Qed.

Lemma read_ends d s r pc : pcs s !! r = Some pc -> exists s', steps d s s' /\ replied s s'.
Proof.
  assert (HG : forall s c p g, pcs s !! r = Some (HasGen c p g) -> exists s', steps d s s' /\ replied s s').
  { clear s. intros s c p g H.
    assert (Hcase : (exists rows, cache s = Some (g, rows)) \/ forall rows, cache s <> Some (g, rows)).
    { destruct (cache s) as [[g' rows]|]; [|by right]. destruct (decide (g' = g)) as [->|]; [left; by eexists|right; congruence]. }
    destruct Hcase as [[rows Hc]|Hm].
    - destruct (answer_replied d (set_pc s r (Answer c p rows)) r c p rows) as (s' & H1 & H2); [by eapply set_pc_lookup|].
      exists s'. split; [|done]. eapply snap_steps_trans; [eapply steps_one; [constructor|by eapply step_hit]|done].
    - destruct (building_replied d (buildProg d) (set_pc s r (Building c p g (buildProg d))) r c p g) as (s' & H1 & H2); [by eapply set_pc_lookup|].
      exists s'. split; [|done]. eapply snap_steps_trans; [eapply steps_one; [constructor|by eapply step_miss]|done]. }
  assert (HC : forall s c p, pcs s !! r = Some (Called c p) -> exists s', steps d s s' /\ replied s s').
  { clear s. intros s c p H. destruct (HG (set_pc s r (HasGen c p (topoGen s))) c p (topoGen s)) as (s' & H1 & H2); [by eapply set_pc_lookup|].
    exists s'. split; [|done]. eapply snap_steps_trans; [eapply steps_one; [constructor|by eapply step_gen]|done]. }
  intros H. destruct pc as [|c p|c p g|c p g rest|c p rows]; [|by eapply HC|by eapply HG|by eapply building_replied|by eapply answer_replied].
  destruct (HC (set_pc s r (Called (calls s) (pending s))) (calls s) (pending s)) as (s' & H1 & H2); [by eapply set_pc_lookup|].
  exists s'. split; [|done]. eapply snap_steps_trans; [eapply steps_one; [constructor|by eapply step_call]|done].
Qed.

(** ** A scheduler *)

Inductive action := Change (v : lldpView) | Announce | Go (r : nat).

Definition exec1 (d : lldpDevice) (a : action) (s : state) : option state :=
  match a with
  | Change v => Some {| now := v; calls := S (calls s); pending := S (pending s); topoGen := topoGen s; cache := cache s; pcs := pcs s; replies := replies s |}
  | Announce =>
      match pending s with
      | O => None
      | S n => Some {| now := now s; calls := calls s; pending := n; topoGen := topoGen s + 1; cache := cache s; pcs := pcs s; replies := replies s |}
      end
  | Go r =>
      match pcs s !! r with
      | None => None
      | Some Idle => Some (set_pc s r (Called (calls s) (pending s)))
      | Some (Called c p) => Some (set_pc s r (HasGen c p (topoGen s)))
      | Some (HasGen c p g) =>
          match cache s with
          | Some (g', rows) => Some (set_pc s r (if g' =? g then Answer c p rows else Building c p g (buildProg d)))
          | None => Some (set_pc s r (Building c p g (buildProg d)))
          end
      | Some (Building c p g (BLinks ip k)) => Some (set_pc s r (Building c p g (k (v_links (now s) ip))))
      | Some (Building c p g (BFind ip k)) => Some (set_pc s r (Building c p g (k (v_device (now s) ip))))
      | Some (Building c p g (BUp ip port k)) => Some (set_pc s r (Building c p g (k (v_up (now s) ip port))))
      | Some (Building c p g (BDone rows)) => Some (set_pc (store_cache s (Some (g, rows))) r (Answer c p rows))
      | Some (Answer c p rows) =>
          Some {| now := now s; calls := calls s; pending := pending s; topoGen := topoGen s; cache := cache s; pcs := <[r := Idle]> (pcs s);
                  replies := replies s ++ [{| rp_calls := c; rp_pend := p; rp_now := calls s; rp_view := now s; rp_rows := rows |}] |}
      end
  end.
Fixpoint exec (d : lldpDevice) (l : list action) (s : state) : option state :=
  match l with
  | [] => Some s
  | a :: l' => match exec1 d a s with Some s' => exec d l' s' | None => None end
  end.

Lemma snap_exec1_step d a s s' : exec1 d a s = Some s' -> step d s s'.
Proof.
  destruct a as [v| |r]; cbn [exec1].
  - intros [= <-]. constructor.
  - destruct (pending s) eqn:E; [done|]. intros [= <-]. by constructor.
  - destruct (pcs s !! r) as [[|c p|c p g|c p g [rows|ip k|ip k|ip port k]|c p rows]|] eqn:E; try done; try (intros [= <-]; by econstructor).
    destruct (cache s) as [[g' rows]|] eqn:Ec; [destruct (g' =? g) eqn:Eg|]; intros [= <-]; zbool.
    + subst g'. by eapply step_hit.
    + eapply step_miss; [exact E|]. intros rows'. rewrite Ec. congruence.
    + eapply step_miss; [exact E|]. intros rows'. by rewrite Ec.
Qed.

Lemma snap_exec_steps d l : forall s s', exec d l s = Some s' -> steps d s s'.
Proof.
  induction l as [|a l IH]; cbn [exec]; intros s s' H; [injection H as <-; constructor|].
  destruct (exec1 d a s) as [s1|] eqn:E; [|done]. eapply snap_steps_trans; [eapply steps_one; [constructor|by eapply snap_exec1_step]|by apply IH].
Qed.

(** ** Theorems *)

(** C29: a snapshot is never stale.  Let links, devices and interface states change
    in any way, each change announced after it was made, while any number of
    requests read the rows of a device through its snapshot.  A read that began
    when every change had been announced, and during which none was made, answers
    exactly the rows that building them afresh gives, whether it found a snapshot
    or not and however the earlier reads overlapped the changes.  From every
    state every read can finish. *)
Theorem lldp_snapshot_current d v n s :
  steps d (boot v n) s ->
  (forall sm rp, rp ∈ replies s -> rp_pend rp = 0%nat -> rp_calls rp = rp_now rp -> rp_view rp = viewOf sm ->
     registry_ok sm -> FindDeviceByIP sm (quad (dev_IP d)) = Some d -> rp_rows rp = buildLLDPServedOIDs sm d) /\
  (forall r pc, pcs s !! r = Some pc -> exists s', steps d s s' /\ replied s s').
Proof.
  intros Hs. split; [|by intros r pc; apply read_ends]. intros sm rp Hin Hp Hc Hv Hr Hd.
  pose proof (so_replies d s (snap_steps_ok d v n s Hs)) as H. rewrite <- (buildProg_run sm d Hr Hd), <- Hv.
  apply (proj1 (List.Forall_forall _ _) H rp); [by apply list_elem_of_In|done|done].
Qed.

(** The second leaf appears between two reads of the first one's rows: the first
    read is a miss, the second, before the announcement, is answered from the
    snapshot, the third builds again. *)
Definition oneLeaf : SimulatorManager :=
  indexDeviceByIP {| topology := run_ops sampleOps; devicesByIP := ∅ |} (leaf 1 (str "leaf1")).
Definition sampleRun : list action :=
  repeat (Go 0) 8 ++ [Change (viewOf sampleManager)] ++ repeat (Go 0) 4 ++ [Announce] ++ repeat (Go 0) 9.

Lemma oneLeaf_registry : registry_ok oneLeaf.
Proof. apply indexDeviceByIP_ok. intros ip p H. unfold FindDeviceByIP in H. cbn in H. by rewrite lookup_empty in H. Qed.

Lemma sampleManager_registry : registry_ok sampleManager.
Proof. unfold sampleManager. cbn [fold_left]. apply indexDeviceByIP_ok, oneLeaf_registry. Qed.

Definition viewAfter (l : list action) (v : lldpView) : lldpView :=
  fold_left (fun v a => match a with Change v' => v' | _ => v end) l v.
Lemma exec_now d l : forall s s', exec d l s = Some s' -> now s' = viewAfter l (now s).
Proof.
  induction l as [|a l IH]; cbn [exec]; intros s s' H; [by injection H as <-|].
  destruct (exec1 d a s) as [s1|] eqn:E; [|done]. rewrite (IH _ _ H). cbn [viewAfter fold_left]. f_equal.
  destruct a as [v| |r]; cbn [exec1] in E; [by injection E as <-|by destruct (pending s); [|injection E as <-]|].
  repeat case_match; try done; by injection E as <-.
Qed.

Lemma sampleRun_state :
  match exec (leaf 1 (str "leaf1")) sampleRun (boot (viewOf oneLeaf) 1) with
  | Some s => match pcs s !! 0%nat with Some (Answer c p rows) => c = calls s /\ p = 0%nat /\ length (replies s) = 2%nat | _ => False end
  | None => False
  end.
Proof. vm_compute. split_and!; reflexivity. Qed.

Lemma lldp_snapshot_current_witness :
  exists s rp, steps (leaf 1 (str "leaf1")) (boot (viewOf oneLeaf) 1) s /\ rp ∈ replies s /\ length (replies s) = 3%nat /\
    rp_rows rp = buildLLDPServedOIDs sampleManager (leaf 1 (str "leaf1")).
Proof.
  pose proof sampleRun_state as Hx. destruct (exec (leaf 1 (str "leaf1")) sampleRun (boot (viewOf oneLeaf) 1)) as [s|] eqn:E; [|destruct Hx].
  destruct (pcs s !! 0%nat) as [[|c p|c p g|c p g rest|c p rows]|] eqn:Hr; try (destruct Hx; fail). destruct Hx as (Hc & Hp & Hlen).
  pose proof (exec_now _ _ _ _ E) as Hv.
  pose proof (steps_one _ _ _ _ (snap_exec_steps _ _ _ _ E) (step_return (leaf 1 (str "leaf1")) s 0 c p rows Hr)) as Hs.
  destruct (lldp_snapshot_current (leaf 1 (str "leaf1")) (viewOf oneLeaf) 1 _ Hs) as [H _].
  eexists _, {| rp_calls := c; rp_pend := p; rp_now := calls s; rp_view := now s; rp_rows := rows |}. split; [exact Hs|].
  assert (Hin : forall l (x : reply), x ∈ l ++ [x]) by (intros l x; apply elem_of_app; right; left).
  split; [apply Hin|]. split; [cbn [replies]; rewrite length_app, Hlen; reflexivity|].
  apply (H sampleManager); [apply Hin|exact Hp|exact Hc|exact Hv|exact sampleManager_registry|vm_compute; reflexivity].
Defined.
