(* ===== verification/Agent.v ===== *)
(** * The device as one: SET, state engine, counter hold and GET

    The components meet here.  A SET, a REST call or a flap moves the state
    engine; the engine's broadcast runs the counter hold's hook before any
    subscriber sees the event; a GET reads the engine for the state columns and
    the held dial for the counters.  The theorems show that the hold ledger
    agrees with the engine after any history of moves, and that what a manager
    writes is what it reads back. *)

From S2P Require Import Prelude GoStrings Ber Oid Request Response OidOrder OidPrefix Walk IfState CounterHold Hierarchy IfCounters SetReq.

(** ** Moves and their hooks *)

Inductive move := LinkMove (ifIndex newLink : Z) | AdminMove (ifIndex target : Z).
Definition doMove (s : InterfaceState) (m : move) (clock : Z) : InterfaceState * list StateChange :=
  match m with
  | LinkMove i v => let '(s', _, evts) := SetLinkState s i v clock in (s', evts)
  | AdminMove i v => ApplyAdminStatus s i v clock
  end.

(** The first half of [Broadcast] for each event in turn: an oper event runs the
    cycler's hook, which reads the engine as it is then. *)
Fixpoint holdEvents (D : Dials) (R : Rollup) (known : list Z) (s : InterfaceState) (evts : list StateChange) (t : Z) (L : ledger) : option ledger :=
  match evts with
  | [] => Some L
  | e :: evts' =>
      match (if Z.land (Changed e) LeafOperStatus =? 0 then Some L else reconcileHoldAt D R known (Some s) L (IfState.IfIndex e) t) with
      | Some L' => holdEvents D R known s evts' t L'
      | None => None
      end
  end.

Section History.
Context (D : Dials) (R : Rollup) (known : list Z) (slots horizon : Z).

(** The engine and the ledger of a device: seeded together, then moved at
    increasing instants, every event of a move handed to the hook. *)
Inductive history : InterfaceState -> ledger -> Z -> Prop :=
| history_boot s : reachable_engine s -> maxIfIndex s = slots -> history s (seedHolds known s (zeros slots None)) 0
| history_move s L now m clock t s' evts L' :
    history s L now -> now <= t <= horizon -> doMove s m clock = (s', evts) ->
    holdEvents D R known s' evts t L = Some L' -> history s' L' t.

Context `{!DialLaws D R slots horizon}.
Hypothesis Hier : hierarchy_ok R slots.
Hypothesis Hknown : Forall (fun i => 1 <= i <= slots) known.
Hypothesis Hslots : 0 <= slots.
Hypothesis Hhorizon : 0 <= horizon.

Abbreviation entry L i := (at_slot L (i - 1) None).

(** The ledger holds exactly the interfaces that are not up. *)
Definition tracks (s : InterfaceState) (L : ledger) : Prop :=
  forall i, i ∈ known -> is_down (entry L i) = negb (OperStatus s i =? OperUp).

Lemma known_range i : i ∈ known -> 1 <= i <= slots.
Proof. intros Hi. apply (proj1 (List.Forall_forall _ _) Hknown), list_elem_of_In, Hi. Qed.

Lemma after_is_down L tau slot up j : ledger_ok D R slots horizon L tau -> 0 <= slot < slots -> 0 <= j < slots ->
  is_down (at_slot (after D R L slot up tau) j None) = if j =? slot then negb up else is_down (at_slot L j None).
Proof.
  intros (Hl & _) Hs Hj. unfold after. destruct up.
  - destruct (at_slot L slot None) as [h|] eqn:Hh; [destruct (down h) eqn:Hd|]; rewrite ?(at_slot_put slots) by done; case_if; zbool; subst; try done;
      rewrite Hh; cbn; by rewrite ?Hd.
  - destruct (is_down (at_slot L slot None)) eqn:Hd; rewrite ?(at_slot_put slots) by done; case_if; zbool; subst; try done.
    by destruct (at_slot L slot None).
Qed.

(** What the hook leaves on one interface. *)
Definition operMoved (evts : list StateChange) (i : Z) : Prop :=
  Exists (fun e => Z.land (Changed e) LeafOperStatus <> 0 /\ IfState.IfIndex e = i) evts.
#[local] Instance operMoved_dec evts i : Decision (operMoved evts i).
Proof. unfold operMoved. apply _. Defined.

Lemma holdEvents_spec s evts t : forall L, ledger_ok D R slots horizon L t ->
  exists L', holdEvents D R known s evts t L = Some L' /\ ledger_ok D R slots horizon L' t /\
    forall i, i ∈ known -> is_down (entry L' i) = if bool_decide (operMoved evts i) then negb (OperStatus s i =? OperUp) else is_down (entry L i).
Proof.
  induction evts as [|e evts IH]; intros L HL; cbn [holdEvents].
  { exists L. split_and!; [done|done|]. intros i _. rewrite bool_decide_false; [done|]. intros H. inversion H. }
  set (skip := Z.land (Changed e) LeafOperStatus =? 0).
  assert (H : exists L1, (if skip then Some L else reconcileHoldAt D R known (Some s) L (IfState.IfIndex e) t) = Some L1 /\ ledger_ok D R slots horizon L1 t /\
    forall i, i ∈ known -> is_down (entry L1 i) = if negb skip && (IfState.IfIndex e =? i) then negb (OperStatus s i =? OperUp) else is_down (entry L i)).
  { destruct skip eqn:Es; [by exists L|]. cbn [negb andb]. unfold reconcileHoldAt, holdWrite. set (k := IfState.IfIndex e).
    destruct (existsb (Z.eqb k) known) eqn:Ek.
    - apply existsb_exists in Ek as (k' & Hk & E). apply Z.eqb_eq in E. subst k'. apply list_elem_of_In in Hk. pose proof (known_range k Hk) as Hr.
      pose proof HL as (Hl & _). replace ((k - 1 <? 0) || (len L <=? k - 1)) with false by lia. cbn [negb].
      destruct (reconcile_after D R slots horizon Hier L t (k - 1) (OperStatus s k =? OperUp) HL ltac:(lia)) as (-> & HL1 & _).
      eexists. split_and!; [done|done|]. intros i Hi. pose proof (known_range i Hi). rewrite after_is_down by (done || lia).
      destruct (k =? i) eqn:E; zbool; [subst i; by rewrite Z.eqb_refl|]. by replace (i - 1 =? k - 1) with false by lia.
    - exists L. split_and!; [by case_if|done|]. intros i Hi. destruct (k =? i) eqn:E; zbool; [|done]. subst i. exfalso.
      assert (Ht : existsb (Z.eqb k) known = true) by (apply existsb_exists; exists k; split; [by apply list_elem_of_In|apply Z.eqb_refl]). congruence. }
  destruct H as (L1 & -> & HL1 & Hd1). destruct (IH L1 HL1) as (L' & HL' & Hok' & Hd'). exists L'. split_and!; [done|done|].
  intros i Hi. rewrite Hd', Hd1 by done. destruct (decide (operMoved evts i)) as [Hm|Hm].
  - rewrite !bool_decide_true; [done|by right|done].
  - rewrite (bool_decide_false (operMoved evts i)) by done. unfold skip. destruct (negb _ && _) eqn:E; zbool.
    + rewrite bool_decide_true; [done|]. left. split; [lia|done].
    + rewrite bool_decide_false; [done|]. intros Hx. inversion_clear Hx as [? ? [H1 H2]|]; [|done].
      apply andb_false_iff in E as [E|E]; zbool; lia.
Qed.

(** ** The ledger follows the engine *)

Lemma seedHolds_down s idxs : Forall (fun i => 1 <= i <= slots) idxs -> forall L, len L = slots ->
  forall i, 1 <= i <= slots ->
    is_down (entry (seedHolds idxs s L) i) = if bool_decide (i ∈ idxs) && negb (OperStatus s i =? OperUp) then true else is_down (entry L i).
Proof.
  induction 1 as [|k idxs Hk _ IH]; intros L Hl i Hi; [done|]. cbn [seedHolds fold_left]. fold (seedHolds idxs s (seedHold s L k)).
  assert (Hl' : len (seedHold s L k) = slots) by (unfold seedHold; case_if; [done|]; unfold len in *; by rewrite length_insert).
  rewrite IH by done.
  assert (Hone : is_down (entry (seedHold s L k) i) = if (k =? i) && negb (OperStatus s i =? OperUp) then true else is_down (entry L i)).
  { unfold seedHold. destruct (k =? i) eqn:E; zbool.
    - subst k. destruct (OperStatus s i =? OperUp); [done|]. cbn. by rewrite (at_slot_put slots), Z.eqb_refl by lia.
    - cbn. case_if; [done|]. rewrite (at_slot_put slots) by lia. by replace (i - 1 =? k - 1) with false by lia. }
  rewrite Hone. destruct (k =? i) eqn:E; zbool.
  - subst k. rewrite (bool_decide_true (i ∈ i :: idxs)) by left. by destruct (bool_decide (i ∈ idxs)), (OperStatus s i =? OperUp).
  - rewrite (bool_decide_ext (i ∈ k :: idxs) (i ∈ idxs)); [done|]. rewrite elem_of_cons. split; [intros [?|?]; [lia|done]|by right].
Qed.

Lemma seed_tracks s : tracks s (seedHolds known s (zeros slots None)).
Proof.
  intros i Hi. rewrite seedHolds_down; [|done|unfold len, zeros; rewrite length_replicate; lia|by apply known_range].
  rewrite bool_decide_true, at_slot_zeros by done. by destruct (OperStatus s i =? OperUp).
Qed.

(** A move keeps the engine reachable and announces every oper-status it moved. *)
Lemma doMove_spec s m clock s' evts : reachable_engine s -> doMove s m clock = (s', evts) ->
  reachable_engine s' /\ maxIfIndex s' = maxIfIndex s /\
  forall i, in_range s i -> OperStatus s' i <> OperStatus s i -> operMoved evts i.
Proof.
  intros Hre Hm. pose proof (reachable_engine_ok s Hre) as Hok.
  assert (Hfe : faithful_events s s' evts -> forall i, in_range s i -> OperStatus s' i <> OperStatus s i -> operMoved evts i).
  { intros Hf i Hi Hne. apply (fe_complete _ _ _ Hf i Hi) in Hne as (e & He & Hei & Hc). unfold operMoved. apply List.Exists_exists.
    exists e. split; [by apply list_elem_of_In|]. rewrite Hc. by split. }
  destruct m as [i v|i v]; cbn [doMove] in Hm.
  - destruct (SetLinkState s i v clock) as [[s1 lm] ev] eqn:E. injection Hm as <- <-.
    split; [by eapply re_SetLinkState|].
    destruct (decide (in_range s i)) as [Hi|Hi]; [destruct (decide (OperUp <= v <= OperLowerLayerDn)) as [Hv|Hv]|].
    + split; [by destruct (SetLinkState_frame _ _ _ _ _ _ _ E) as ((? & _) & _)|]. apply Hfe.
      by destruct (SetLinkState_observed _ _ _ _ _ _ _ Hok Hi Hv E) as (_ & ? & _).
    + unfold SetLinkState in E. apply in_range_slot in Hi. rewrite Hi in E. cbn [negb] in E.
      replace ((v <? OperUp) || (OperLowerLayerDn <? v)) with true in E by lia. by injection E as <- _ <-.
    + unfold SetLinkState in E. rewrite in_range_slot in Hi. apply not_true_iff_false in Hi. rewrite Hi in E. by injection E as <- _ <-.
  - split; [by eapply re_ApplyAdminStatus|]. unfold ApplyAdminStatus in Hm.
    destruct (decide (in_range s i)) as [Hi|Hi]; [destruct (decide (AdminUp <= v <= AdminTesting)) as [Hv|Hv]|].
    + split; [by destruct (setAdminLeaf_frame _ _ _ _ _ _ Hm) as (? & _)|]. apply Hfe.
      by destruct (setAdminLeaf_observed _ _ _ _ _ _ Hok Hi Hv Hm) as (_ & ? & _).
    + unfold setAdminLeaf in Hm. apply in_range_slot in Hi. rewrite Hi in Hm. cbn [negb] in Hm.
      replace ((v <? AdminUp) || (AdminTesting <? v)) with true in Hm by lia. by injection Hm as <- <-.
    + unfold setAdminLeaf in Hm. rewrite in_range_slot in Hi. apply not_true_iff_false in Hi. rewrite Hi in Hm. by injection Hm as <- <-.
Qed.

Lemma history_ok s L now : history s L now ->
  ledger_ok D R slots horizon L now /\ reachable_engine s /\ maxIfIndex s = slots /\ tracks s L.
Proof.
  induction 1 as [s Hre Hmax|s L now m clock t s' evts L' _ (HL & Hre & Hmax & Htr) Ht Hm He].
  - split_and!; [|done|done|apply seed_tracks]. apply (held_ok D R known slots horizon Hier Hknown Hslots Hhorizon). apply held_seed.
  - destruct (doMove_spec s m clock s' evts Hre Hm) as (Hre' & Hmax' & Hev).
    destruct (holdEvents_spec s' evts t L) as (L1 & E & HL1 & Hd); [by eapply ledger_ok_later|]. rewrite E in He. injection He as <-.
    split_and!; [done|done|congruence|]. intros i Hi. rewrite Hd by done. case_bool_decide as Hop; [done|].
    rewrite Htr by done. do 2 f_equal. destruct (Z.eq_dec (OperStatus s' i) (OperStatus s i)) as [E'|Hne]; [by rewrite E'|].
    exfalso. apply Hop, Hev; [|done]. unfold in_range. rewrite Hmax. by apply known_range.
Qed.

Lemma history_moves s L now m clock t : history s L now -> now <= t <= horizon ->
  exists s' evts L', doMove s m clock = (s', evts) /\ holdEvents D R known s' evts t L = Some L' /\ history s' L' t.
Proof.
  intros Hh Ht. destruct (doMove s m clock) as [s' evts] eqn:Hm. destruct (history_ok s L now Hh) as (HL & _).
  destruct (holdEvents_spec s' evts t L) as (L' & E & _); [by eapply ledger_ok_later|].
  exists s', evts, L'. split; [done|]. split; [done|]. by eapply history_move.
Qed.

(** A down interface reads the same at every later instant. *)
Lemma down_frozen L now i t b : ledger_ok D R slots horizon L now -> 1 <= i <= slots -> is_down (entry L i) = true -> now <= t <= horizon ->
  served D R L (i - 1) t b = served D R L (i - 1) now b.
Proof.
  intros HL Hi Hd Ht. rewrite <- (after_down D R slots horizon Hier L now (i - 1) t b) by (done || lia).
  unfold after. by rewrite Hd.
Qed.
End History.

(** ** Theorems *)


(** A bundle (3) of two ports with two units (4, 5), all up; the bundle is shut. *)
Definition bundleEngine : InterfaceState :=
  match newInterfaceStateWithClock 5 1000 None with
  | Ok s => fold_left (fun s i => Seed s i OperUp AdminUp) [1; 2; 3; 4; 5] (setParents s {[ 4 := 3; 5 := 3 ]})
  | _ => sampleState
  end.

Lemma bundleEngine_reachable : reachable_engine bundleEngine.
Proof.
  unfold bundleEngine. destruct (newInterfaceStateWithClock 5 1000 None) as [s| |] eqn:E; [|vm_compute in E; discriminate..].
  cbn [fold_left]. do 5 apply re_Seed. apply re_setParents; [by eapply re_new|vm_compute in E; by injection E as <-|].
  intros c p H. apply fin_maps.lookup_insert_Some in H as [[<- <-]|[_ H]]; [done|]. apply fin_maps.lookup_singleton_Some in H as [<- <-]. done.
Qed.


(** ** Write, then read *)

(** The device of a cycler: the interfaces it knows and the engine they share. *)
Definition cyclerDevice (ic : IfCounterCycler) (f : fanout) : ifDevice :=
  {| ifIndices := sortedIfIndexes ic; engine := ic_state ic; fan := f |}.
(** The cycler when the engine it points to and its ledger have moved on. *)
Definition movedCycler (ic : IfCounterCycler) (s : InterfaceState) (L : ledger) : IfCounterCycler :=
  {| ic_maxIfIndex := ic_maxIfIndex ic; knownIfIndexes := knownIfIndexes ic; sortedIfIndexes := sortedIfIndexes ic;
     ic_firstDynOID := ic_firstDynOID ic; ic_lastDynOID := ic_lastDynOID ic; bases := bases ic; dials := dials ic;
     packetDials := packetDials ic; rollup := rollup ic; ic_hold := L; ic_state := Some s |}.

Definition adminColumn : ifColumn := {| isX := false; col := colIfAdminStatus |}.
Definition operColumn : ifColumn := {| isX := false; col := colIfOperStatus |}.

(** The counters of a ledger can be read: every read of [heldDeltasAt] ends. *)
Definition readable (ic : IfCounterCycler) (L : ledger) (t : Z) : Prop :=
  forall i, i ∈ sortedIfIndexes ic -> is_Some (run L (heldDeltasAt (dials ic) (rollup ic) (len L) (i - 1) t)).

Lemma movedCycler_ok ic t s L : cycler_ok ic t -> readable ic L t -> cycler_ok (movedCycler ic s L) t.
Proof. intros [H1 H2 H3 H4 H5 H6 H7 H8 H9] HL. by constructor. Qed.

Lemma adminEnum_decimal v : AdminUp <= v <= AdminTesting -> adminEnumString v = FormatUint v.
Proof. unfold AdminUp, AdminTesting. intros H. assert (v = 1 \/ v = 2 \/ v = 3) as [->|[->| ->]] by lia; reflexivity. Qed.

(** The last value a request names for [j]. *)
Definition named (nvs : list (Z * Z)) (j : Z) : option Z :=
  fold_left (fun o nv => if fst nv =? j then Some (snd nv) else o) nvs None.

Lemma named_fold j (nvs : list (Z * Z)) : forall old o,
  fold_left (fun v nv => if fst nv =? j then snd nv else v) nvs (default old o) =
  default old (fold_left (fun o nv => if fst nv =? j then Some (snd nv) else o) nvs o).
Proof. induction nvs as [|nv nvs IH]; intros old o; [done|]. cbn [fold_left]. rewrite <- IH. by destruct (fst nv =? j). Qed.

Lemma named_range j (P : Z -> Prop) (nvs : list (Z * Z)) w : Forall (fun nv => P (snd nv)) nvs -> named nvs j = Some w -> P w.
Proof.
  intros H. unfold named. assert (Hg : forall o, (forall w, o = Some w -> P w) -> fold_left (fun o nv => if fst nv =? j then Some (snd nv) else o) nvs o = Some w -> P w).
  { induction H as [|nv nvs Hn _ IH]; intros o Ho E; cbn [fold_left] in E; [by apply Ho|]. eapply IH; [|exact E].
    intros w' Hw. destruct (fst nv =? j); [by injection Hw as <-|by apply Ho]. }
  by apply Hg.
Qed.

Lemma OperStatus_admin_down s i : in_range s i -> AdminStatus s i = AdminDown -> OperStatus s i = OperDown.
Proof.
  intros Hi HA. apply in_range_slot in Hi. destruct (readSlot (load s (i - 1))) as [[l a] r] eqn:Hr.
  destruct (IfState.readers s (i - 1) l a r Hi Hr) as (_ & E & _). rewrite Z.sub_add in E. unfold OperStatus. rewrite Hi, Hr. cbn [negb].
  rewrite E in HA. by subst a.
Qed.

(** Both state columns of a device as GET answers them. *)
Lemma get_state_columns ic t s L i : cycler_ok ic t -> readable ic L t -> i ∈ sortedIfIndexes ic ->
  GetDynamicAt (movedCycler ic s L) (rowOID adminColumn i) t = Ok (adminEnumString (AdminStatus s i)) /\
  GetDynamicAt (movedCycler ic s L) (rowOID operColumn i) t = Ok (operEnumString (OperStatus s i)).
Proof.
  intros Hok HL Hi. pose proof (movedCycler_ok ic t s L Hok HL) as Hok'.
  split; (rewrite (GetDynamicAt_row _ _ Hok'); [reflexivity| |exact Hi]); [left|right; left].
Qed.


Lemma initEngine_max cfg index snmp idxs m clock s : initEngine cfg index snmp idxs m clock = Ok s -> maxIfIndex s = m.
Proof.
  unfold initEngine. intros (s0 & H0 & [= <-])%res_bind_Ok.
  assert (Hsets : forall s x y z, maxIfIndex (setLoopbacks (setStacked (setParents s x) y) z) = maxIfIndex s).
  { intros s x y z. unfold setLoopbacks, setStacked, setParents. repeat case_match; done. }
  rewrite Hsets. apply (fold_left_inv (fun s => maxIfIndex s = m)).
  - unfold newInterfaceStateWithClock in H0. destruct (_ <? _); [done|]. by injection H0 as <-.
  - intros s i _ Hs. unfold seedInterface. destruct (scenarioSeed _ _ _ _) as [l a]. unfold Seed. repeat case_match; done.
Qed.

Lemma init_state draw cfg resources snmp clock ic s :
  InitIfCounters draw cfg resources snmp clock = Ok (Some ic) -> ic_state ic = Some s -> maxIfIndex s = ic_maxIfIndex ic.
Proof.
  unfold InitIfCounters. destruct (sortInts _) as [|first l]; [done|]. destruct (deviceTables _ _ _) as [speeds r].
  intros (s0 & H0 & H)%res_bind_Ok. destruct (draw speeds r) as [[d pd] bs]. injection H as <-. cbn [ic_state ic_maxIfIndex].
  intros [= <-]. by eapply initEngine_max.
Qed.

