(* ===== verification/TrapFast.v ===== *)
(** * The trap fire path's encoder (trap_encode_fast.go, trap_precompute.go)

    The encoder that assembles a notification in one buffer: a constructed
    field reserves four octets, is filled, and is patched in place when its
    length is known; the octets of a catalog entry that do not vary are encoded
    once, when the catalog is loaded.  Every index, slice bound and [copy] of the
    source is a step in [res].  The result is the contract its comment states:
    octet for octet and fault for fault it is the readable encoder of [Trap];
    [TrapCatalog] states it of the entries a catalog holds. *)

From S2P Require Import Prelude GoStrings Ber Oid TypedValue Request Response Trap.

(** ** Writing into a buffer *)

(** [dst[i] = v]. *)
Definition set_at (dst : bytes) (i v : Z) : res bytes :=
  if (i <? 0) || (len dst <=? i) then Panic else Ok (<[Z.to_nat i := v]> dst).
(** [copy(dst[at:], src)]: as many octets as fit; source and destination may
    overlap, so [src] is the octets before the copy. *)
Definition copy_at (dst : bytes) (at_ : Z) (src : bytes) : res bytes :=
  if (at_ <? 0) || (len dst <? at_) then Panic else
  let n := Z.min (len dst - at_) (len src) in
  Ok (take (Z.to_nat at_) dst ++ take (Z.to_nat n) src ++ drop (Z.to_nat (at_ + n)) dst).

Definition tlvHdrReserve : Z := 4.

Definition beginTLV (dst : bytes) : bytes * Z := (dst ++ [0; 0; 0; 0], len dst).

(** The header octets [endTLV] writes: [hdr[:n]]. *)
Definition endTLV_header (tag contentLen : Z) : bytes :=
  if contentLen <? 0x80 then [tag; u8 contentLen]
  else if contentLen <? 0x100 then [tag; 0x81; u8 contentLen]
  else [tag; 0x82; u8 (Z.shiftr contentLen 8); u8 contentLen].

Definition endTLV (dst : bytes) (mark tag : Z) : res bytes :=
  let contentLen := len dst - mark - tlvHdrReserve in
  let hdr := endTLV_header tag contentLen in
  let n := len hdr in
  let! dst :=
    if n <? tlvHdrReserve then
      let! src := slice dst (mark + tlvHdrReserve) (len dst) in
      let! dst := copy_at dst (mark + n) src in
      slice dst 0 (len dst - (tlvHdrReserve - n))
    else Ok dst in
  copy_at dst mark hdr.

(** ** Primitive fields *)

(** [for length > 0 { i--; tmp[i] = byte(length & 0xff); length >>= 8 }]; an
    [int] has at most eight octets. *)
Fixpoint length_fill (fuel : nat) (tmp : bytes) (i length : Z) : res (bytes * Z) :=
  match fuel with
  | O => Diverge
  | S fuel' =>
      if 0 <? length then
        let i := i - 1 in
        let! tmp := set_at tmp i (u8 (Z.land length 0xff)) in
        length_fill fuel' tmp i (Z.shiftr length 8)
      else Ok (tmp, i)
  end.

Definition appendLength (dst : bytes) (length : Z) : res bytes :=
  if length <? 0x80 then Ok (dst ++ [u8 length]) else
  let tmp := repeat 0 8 in
  let! (tmp, i) := length_fill 9 tmp (len tmp) length in
  let! t := slice tmp i (len tmp) in
  Ok ((dst ++ [u8 (Z.lor 0x80 (len tmp - i))]) ++ t).

(** [for start < last && b[start] == 0 { start++ }]. *)
Fixpoint skip_zero (fuel : nat) (b : bytes) (start last_ : Z) : res Z :=
  match fuel with
  | O => Diverge
  | S fuel' =>
      if start <? last_ then
        let! x := index b start in
        if x =? 0 then skip_zero fuel' b (start + 1) last_ else Ok start
      else Ok start
  end.

(** [binary.BigEndian.PutUint64]. *)
Definition PutUint64 (v : Z) : bytes :=
  [u8 (Z.shiftr v 56); u8 (Z.shiftr v 48); u8 (Z.shiftr v 40); u8 (Z.shiftr v 32);
   u8 (Z.shiftr v 24); u8 (Z.shiftr v 16); u8 (Z.shiftr v 8); u8 v].

(** A tag, the length of [body], [body]: the end of every primitive field. *)
Definition appendField (dst : bytes) (tag : Z) (body : bytes) : res bytes :=
  let! dst := appendLength (dst ++ [tag]) (len body) in
  Ok (dst ++ body).

Definition appendInteger (dst : bytes) (value : Z) : res bytes :=
  if value =? 0 then appendField dst ASN1_INTEGER [0x00]
  else if 0 <? value then
    let tmp := 0 :: PutUint64 (u64 value) in
    let! start := skip_zero 8 tmp 1 8 in
    let! x := index tmp start in
    let start := if negb (Z.land x 0x80 =? 0) then start - 1 else start in
    let! body := slice tmp start (len tmp) in
    appendField dst ASN1_INTEGER body
  else
    let u := u64 value in
    let body :=
      if -128 <=? value then [u8 u]
      else if -32768 <=? value then [u8 (Z.shiftr u 8); u8 u]
      else if -8388608 <=? value then [u8 (Z.shiftr u 16); u8 (Z.shiftr u 8); u8 u]
      else [u8 (Z.shiftr u 24); u8 (Z.shiftr u 16); u8 (Z.shiftr u 8); u8 u] in
    let! b0 := index body 0 in
    if Z.land b0 0x80 =? 0 then
      let! dst := appendLength (dst ++ [ASN1_INTEGER]) (len body + 1) in
      Ok ((dst ++ [0xFF]) ++ body)
    else appendField dst ASN1_INTEGER body.

Definition appendUnsigned32 (dst : bytes) (tag value : Z) : res bytes :=
  let b := [u8 (Z.shiftr value 24); u8 (Z.shiftr value 16); u8 (Z.shiftr value 8); u8 value] in
  let! start := skip_zero 4 b 0 3 in
  let! dst := appendLength (dst ++ [tag]) (4 - start) in
  let! t := slice b start (len b) in
  Ok (dst ++ t).

Definition appendOctetString (dst value : bytes) : res bytes :=
  let! dst := appendLength (dst ++ [ASN1_OCTET_STRING]) (len value) in
  Ok (dst ++ value).

(** ** Object identifiers *)

(** [for value > 0 { i--; tmp[i] = byte(value&0x7f) | 0x80; value >>= 7 }]. *)
Fixpoint component_fill (fuel : nat) (tmp : bytes) (i value : Z) : res (bytes * Z) :=
  match fuel with
  | O => Diverge
  | S fuel' =>
      if 0 <? value then
        let i := i - 1 in
        let! tmp := set_at tmp i (Z.lor (u8 (Z.land value 0x7f)) 0x80) in
        component_fill fuel' tmp i (Z.shiftr value 7)
      else Ok (tmp, i)
  end.

Definition appendOIDComponent (dst : bytes) (value : Z) : res bytes :=
  if value <? 0x80 then Ok (dst ++ [u8 value]) else
  let tmp := repeat 0 10 in
  let i := len tmp - 1 in
  let! tmp := set_at tmp i (u8 (Z.land value 0x7f)) in
  let! (tmp, i) := component_fill 10 tmp i (Z.shiftr value 7) in
  let! t := slice tmp i (len tmp) in
  Ok (dst ++ t).

(** The loop [for i := 0; i <= len(oid); i++], [n] iterations left; [None] is the
    return of the degenerate encoding. *)
Fixpoint oid_loop (n : nat) (oid : bytes) (i : Z) (dst : bytes) (idx start first : Z) : res (option bytes) :=
  match n with
  | O => Ok (Some dst)
  | S n' =>
      let! skip := if i =? len oid then Ok false else let! c := index oid i in Ok (negb (c =? dot)) in
      if skip then oid_loop n' oid (i + 1) dst idx start first else
      let! part := slice oid start i in
      let '(v, ok) := Atoi part in
      if negb ok || (v <? 0) then Ok None else
      if (2 <=? idx) && (maxOIDSubIdentifier <? v) then Ok None else
      if idx =? 0 then oid_loop n' oid (i + 1) dst (idx + 1) (i + 1) v
      else if idx =? 1 then
        if negb (legalOIDArcPair first v) then Ok None else
        let! dst := appendOIDComponent dst (40 * first + v) in
        oid_loop n' oid (i + 1) dst (idx + 1) (i + 1) first
      else
        let! dst := appendOIDComponent dst v in
        oid_loop n' oid (i + 1) dst (idx + 1) (i + 1) first
  end.

(** The component count: one more than the dots. *)
Definition oid_nComp (oid : bytes) : Z := fold_left (fun n c => if c =? dot then n + 1 else n) oid 1.

(** The rewrite of a one-octet length placeholder at [lenMark] that turned out
    too short. *)
Definition oid_long_form (dst : bytes) (lenMark bodyLen : Z) : res bytes :=
  let extra := if 0x100 <=? bodyLen then 2 else 1 in
  let dst := dst ++ repeat 0 (Z.to_nat extra) in
  let! src := slice dst (lenMark + 1) (len dst - extra) in
  let! dst := copy_at dst (lenMark + 1 + extra) src in
  if extra =? 1 then
    let! dst := set_at dst lenMark 0x81 in
    set_at dst (lenMark + 1) (u8 bodyLen)
  else
    let! dst := set_at dst lenMark 0x82 in
    let! dst := set_at dst (lenMark + 1) (u8 (Z.shiftr bodyLen 8)) in
    set_at dst (lenMark + 2) (u8 bodyLen).

Definition appendOID (dst oid : bytes) : res bytes :=
  let! oid := if 0 <? len oid then let! c := index oid 0 in if c =? dot then slice oid 1 (len oid) else Ok oid else Ok oid in
  if oid_nComp oid <? 2 then Ok (dst ++ [ASN1_OID; 0x00]) else
  let dst := dst ++ [ASN1_OID] in
  let lenMark := len dst in
  let dst := dst ++ [0] in
  let bodyStart := len dst in
  let! r := oid_loop (S (length oid)) oid 0 dst 0 0 0 in
  let degenerate := let! d := slice dst 0 (lenMark - 1) in Ok (d ++ [ASN1_OID; 0x00]) in
  match r with
  | None => degenerate
  | Some dst =>
      let bodyLen := len dst - bodyStart in
      if maxOIDBodyBytes <? bodyLen then degenerate
      else if bodyLen <? 0x80 then set_at dst lenMark (u8 bodyLen)
      else oid_long_form dst lenMark bodyLen
  end.

(** ** Bindings and messages *)

(** [None] is an error return. *)
Definition appendTyped32 (dst : bytes) (tag : Z) (v : bytes) : res (option bytes) :=
  match ParseUint v 32 with
  | (n, None) => let! dst := appendUnsigned32 dst tag (u32 n) in Ok (Some dst)
  | _ => Ok None
  end.

Definition appendVarbindValue (dst : bytes) (vb : Varbind) : res (option bytes) :=
  let v := vb_Value vb in
  let t := vb_Type vb in
  if beq t TrapVTInteger then
    match ParseInt v 32 with (n, None) => let! dst := appendInteger dst n in Ok (Some dst) | _ => Ok None end
  else if beq t TrapVTOctetString then let! dst := appendOctetString dst v in Ok (Some dst)
  else if beq t TrapVTOID then
    if negb (encodableAsOID v) then Ok None else let! dst := appendOID dst v in Ok (Some dst)
  else if beq t TrapVTCounter32 then appendTyped32 dst ASN1_COUNTER32 v
  else if beq t TrapVTGauge32 then appendTyped32 dst ASN1_GAUGE32 v
  else if beq t TrapVTTimeTicks then appendTyped32 dst ASN1_TIMETICKS v
  else if beq t TrapVTCounter64 then match ParseUint v 64 with (n, None) => Ok (Some (dst ++ encodeCounter64 n)) | _ => Ok None end
  else if beq t TrapVTIPAddress then match ParseIP_To4 v with None => Ok None | Some _ => Ok (Some (dst ++ encodeIPAddress v)) end
  else Ok None.

(** What is encoded once per catalog entry; an absent slot of [varbindOID] and
    an absent [enterpriseVB] are [nil]. *)
Record preEncodedEntry := {
  sysUpTimeOID : bytes;
  trapOIDVB : bytes;
  enterpriseVB : option bytes;
  varbindOID : list (option bytes);
  usesNowLocal : bool
}.

(** A catalog entry.  The compiled templates of a binding are those of its
    source text, so the text stands for them. *)
Record VarbindTemplate := { vt_Type : bytes; rawOID : bytes; rawValue : bytes }.
Record CatalogEntry := {
  ce_Name : bytes;
  SnmpTrapOID : bytes;
  SnmpTrapEnterprise : bytes;
  Weight : Z;
  Role : bytes;
  Varbinds : list VarbindTemplate;
  fromOverlay : bool;
  oversized : bool;
  ce_pre : option preEncodedEntry
}.

(** [strings.Contains]. *)
Fixpoint Contains (s sub : bytes) : bool :=
  HasPrefix s sub || match s with [] => false | _ :: s' => Contains s' sub end.
Definition isTemplated (raw : bytes) : bool := Contains raw (str "{{").
Definition referencesNowLocal (raw : bytes) : bool := Contains raw (str "NowLocal").

(** A binding of two object identifiers, opened on [dst]. *)
Definition appendVarbindOIDs (dst oid value : bytes) : res bytes :=
  let '(dst, m) := beginTLV dst in
  let! dst := appendOID dst oid in
  let! dst := appendOID dst value in
  endTLV dst m ASN1_SEQUENCE.

Fixpoint precomputeVarbinds (vts : list VarbindTemplate) : res (list (option bytes) * bool) :=
  match vts with
  | [] => Ok ([], false)
  | vt :: vts' =>
      let! slot := if negb (isTemplated (rawOID vt)) && encodableAsOID (rawOID vt)
                   then let! o := appendOID [] (rawOID vt) in Ok (Some o) else Ok None in
      let! (slots, now) := precomputeVarbinds vts' in
      Ok (slot :: slots, referencesNowLocal (rawOID vt) || referencesNowLocal (rawValue vt) || now)
  end.

Definition precomputeEntry (e : CatalogEntry) : res preEncodedEntry :=
  let! up := appendOID [] oidSysUpTime0 in
  let! trap := if encodableAsOID (SnmpTrapOID e) then appendVarbindOIDs [] oidSnmpTrapOID0 (SnmpTrapOID e) else Ok [] in
  let! ent := if negb (beq (SnmpTrapEnterprise e) []) && encodableAsOID (SnmpTrapEnterprise e)
              then let! b := appendVarbindOIDs [] oidSnmpTrapEnterprise0 (SnmpTrapEnterprise e) in Ok (Some b) else Ok None in
  let! (slots, now) := precomputeVarbinds (Varbinds e) in
  Ok {| sysUpTimeOID := up; trapOIDVB := trap; enterpriseVB := ent; varbindOID := slots; usesNowLocal := now |}.

(** The loop over the body bindings, [i] the index of the first. *)
Fixpoint appendVarbinds (dst : bytes) (pre : option preEncodedEntry) (i : nat) (varbinds : list Varbind) : res (option bytes) :=
  match varbinds with
  | [] => Ok (Some dst)
  | vb :: varbinds' =>
      let '(dst, m) := beginTLV dst in
      let slot := match pre with Some pre => match varbindOID pre !! i with Some (Some o) => Some o | _ => None end | None => None end in
      let! r :=
        match slot with
        | Some o => Ok (Some (dst ++ o))
        | None => if negb (encodableAsOID (vb_OID vb)) then Ok None else let! dst := appendOID dst (vb_OID vb) in Ok (Some dst)
        end in
      match r with
      | None => Ok None
      | Some dst =>
          let! r := appendVarbindValue dst vb in
          match r with
          | None => Ok None
          | Some dst =>
              let! dst := endTLV dst m ASN1_SEQUENCE in
              appendVarbinds dst pre (S i) varbinds'
          end
      end
  end.

(** The three bindings before the body: [sysUpTime.0], [snmpTrapOID.0] and the
    optional [snmpTrapEnterprise.0]. *)
Definition appendUpTime (dst : bytes) (pre : option preEncodedEntry) (uptimeHundredths : Z) : res bytes :=
  let '(dst, m) := beginTLV dst in
  let! dst := match pre with Some pre => Ok (dst ++ sysUpTimeOID pre) | None => appendOID dst oidSysUpTime0 end in
  let! dst := appendUnsigned32 dst ASN1_TIMETICKS uptimeHundredths in
  endTLV dst m ASN1_SEQUENCE.
Definition appendTrapOID (dst : bytes) (pre : option preEncodedEntry) (trapOID : bytes) : res (option bytes) :=
  match pre with
  | Some pre =>
      if 0 <? len (trapOIDVB pre) then Ok (Some (dst ++ trapOIDVB pre)) else
      if negb (encodableAsOID trapOID) then Ok None else let! dst := appendVarbindOIDs dst oidSnmpTrapOID0 trapOID in Ok (Some dst)
  | None => if negb (encodableAsOID trapOID) then Ok None else let! dst := appendVarbindOIDs dst oidSnmpTrapOID0 trapOID in Ok (Some dst)
  end.
Definition appendEnterprise (dst : bytes) (pre : option preEncodedEntry) (enterpriseOID : bytes) : res (option bytes) :=
  match match pre with Some pre => enterpriseVB pre | None => None end with
  | Some b => Ok (Some (dst ++ b))
  | None =>
      if negb (beq enterpriseOID []) then
        if negb (encodableAsOID enterpriseOID) then Ok None else let! dst := appendVarbindOIDs dst oidSnmpTrapEnterprise0 enterpriseOID in Ok (Some dst)
      else Ok (Some dst)
  end.

(** [res] with an error return. *)
Definition or_error {A} (m : res (option A)) (k : A -> res (option A)) : res (option A) :=
  let! r := m in match r with None => Ok None | Some a => k a end.

Definition encodeV2cNotificationFast (maxTrapPDU pduTag : Z) (community : bytes) (reqID : Z) (pre : option preEncodedEntry)
    (trapOID enterpriseOID : bytes) (uptimeHundredths : Z) (varbinds : list Varbind) : res (option bytes) :=
  let '(dst, outerMark) := beginTLV [] in
  let! dst := appendInteger dst 1 in
  let! dst := appendOctetString dst community in
  let '(dst, pduMark) := beginTLV dst in
  let! dst := appendInteger dst reqID in
  let! dst := appendInteger dst 0 in
  let! dst := appendInteger dst 0 in
  let '(dst, vbMark) := beginTLV dst in
  let! dst := appendUpTime dst pre uptimeHundredths in
  or_error (appendTrapOID dst pre trapOID) (fun dst =>
  or_error (appendEnterprise dst pre enterpriseOID) (fun dst =>
  or_error (appendVarbinds dst pre 0 varbinds) (fun dst =>
  let! dst := endTLV dst vbMark ASN1_SEQUENCE in
  let! dst := endTLV dst pduMark pduTag in
  let! dst := endTLV dst outerMark ASN1_SEQUENCE in
  if maxTrapPDU <? len dst then Ok None else Ok (Some dst)))).

(** ** Buffers: what the writes do *)

Lemma set_at_here (a : bytes) x (b : bytes) v : set_at (a ++ x :: b) (len a) v = Ok (a ++ v :: b).
Proof.
  unfold set_at. rewrite len_app, len_cons. pose proof (len_nonneg a). pose proof (len_nonneg b).
  destruct (_ || _) eqn:E; [lia|]. f_equal. rewrite len_def, Nat2Z.id, insert_app_r_alt by lia.
  by rewrite Nat.sub_diag.
Qed.

Lemma set_at_1 (a : bytes) x y (b : bytes) v : set_at (a ++ x :: y :: b) (len a + 1) v = Ok (a ++ x :: v :: b).
Proof.
  pose proof (set_at_here (a ++ [x]) y b v) as H. rewrite <- !app_assoc in H. by rewrite len_app in H.
Qed.

Lemma set_at_2 (a : bytes) x y z (b : bytes) v : set_at (a ++ x :: y :: z :: b) (len a + 2) v = Ok (a ++ x :: y :: v :: b).
Proof.
  pose proof (set_at_here (a ++ [x; y]) z b v) as H. rewrite <- !app_assoc in H. by rewrite len_app in H.
Qed.

Lemma slice_prefix {A} (a b : list A) : slice (a ++ b) 0 (len a) = Ok a.
Proof.
  unfold slice. rewrite len_app. pose proof (len_nonneg a). pose proof (len_nonneg b).
  destruct (_ || _) eqn:E; [lia|]. f_equal. rewrite Z.sub_0_r, len_def, Nat2Z.id. cbn [Z.to_nat drop]. apply take_app_length.
Qed.

Lemma slice_suffix {A} (a b : list A) : slice (a ++ b) (len a) (len (a ++ b)) = Ok b.
Proof. rewrite len_app. pose proof (slice_app_here a b []) as H. by rewrite app_nil_r in H. Qed.

Lemma copy_at_here a b src : len src <= len b -> copy_at (a ++ b) (len a) src = Ok (a ++ src ++ drop (length src) b).
Proof.
  intros Hl. unfold copy_at. rewrite len_app. pose proof (len_nonneg a). pose proof (len_nonneg b). pose proof (len_nonneg src).
  destruct (_ || _) eqn:E; [lia|]. f_equal.
  replace (Z.min (len a + len b - len a) (len src)) with (len src) by lia.
  rewrite !len_def, Nat2Z.id, take_app_length, Nat2Z.id, firstn_all. do 2 f_equal.
  replace (Z.to_nat (Z.of_nat (length a) + Z.of_nat (length src))) with (length a + length src)%nat by lia.
  rewrite <- drop_drop. by rewrite drop_app_length.
Qed.

(** A field written by [beginTLV] and [endTLV]. *)
Definition tlvPatched (tag : Z) (c : bytes) : bytes := endTLV_header tag (len c) ++ c.

Lemma endTLV_spec pre c tag : endTLV (pre ++ [0; 0; 0; 0] ++ c) (len pre) tag = Ok (pre ++ tlvPatched tag c).
Proof.
  unfold endTLV, tlvPatched, tlvHdrReserve. rewrite !len_app. change (len [0; 0; 0; 0]) with 4.
  replace (len pre + (4 + len c) - len pre - 4) with (len c) by lia.
  assert (Hc : forall hdr z w : bytes, [0; 0; 0; 0] = z ++ w -> len z = len hdr ->
    (let! dst :=
       if len hdr <? 4 then
         let! src := slice (pre ++ [0; 0; 0; 0] ++ c) (len pre + 4) (len pre + (4 + len c)) in
         let! dst := copy_at (pre ++ [0; 0; 0; 0] ++ c) (len pre + len hdr) src in
         slice dst 0 (len dst - (4 - len hdr))
       else Ok (pre ++ [0; 0; 0; 0] ++ c) in
     copy_at dst (len pre) hdr) = Ok (pre ++ hdr ++ c)).
  { intros hdr z w Hz Hl. assert (Hlw : len z + len w = 4) by (apply (f_equal len) in Hz; by rewrite len_app in Hz).
    assert (Hfin : copy_at (pre ++ z ++ c) (len pre) hdr = Ok (pre ++ hdr ++ c)).
    { rewrite copy_at_here by (rewrite len_app; pose proof (len_nonneg c); lia).
      by rewrite drop_app_length' by (unfold len in *; lia). }
    destruct (len hdr <? 4) eqn:E; zbool; cycle 1.
    { assert (w = []) as -> by (apply len_0_nil; pose proof (len_nonneg w); lia). rewrite app_nil_r in Hz. by rewrite Hz. }
    rewrite app_assoc. replace (len pre + 4) with (len (pre ++ [0; 0; 0; 0])) by (by rewrite len_app).
    replace (len pre + (4 + len c)) with (len ((pre ++ [0; 0; 0; 0]) ++ c)) by (rewrite !len_app; change (len [0; 0; 0; 0]) with 4; lia).
    rewrite slice_suffix. cbn [res_bind]. rewrite Hz, app_assoc, <- (app_assoc (pre ++ z)), <- Hl, <- len_app.
    rewrite copy_at_here by (rewrite len_app; pose proof (len_nonneg w); lia). cbn [res_bind].
    rewrite app_assoc. match goal with |- context [slice ?d 0 ?e] => replace e with (len ((pre ++ z) ++ c)) end.
    2:{ rewrite !len_app, len_drop, len_app. rewrite <- len_def. pose proof (len_nonneg w). lia. }
    rewrite slice_prefix. cbn [res_bind]. by rewrite <- app_assoc. }
  unfold endTLV_header. destruct (len c <? 0x80); [|destruct (len c <? 0x100)];
    [apply (Hc _ [0; 0] [0; 0])|apply (Hc _ [0; 0; 0] [0])|apply (Hc _ [0; 0; 0; 0] [])]; done.
Qed.

Lemma tlvPatched_tlv tag c : len c < 65536 -> tlvPatched tag c = tlv tag c.
Proof.
  intros Hc. pose proof (len_nonneg c). unfold tlvPatched, tlv, endTLV_header. destruct (len c <? 0x80) eqn:E1; zbool.
  { unfold encodeLength. by replace (len c <? 128) with true by lia. }
  assert (Hb : be_loop 8 (len c) [] = if len c <? 0x100 then [u8 (len c)] else [u8 (Z.shiftr (len c) 8); u8 (len c)]).
  {
    change 8%nat with (S (S 6)). cbn [be_loop]. replace (0 <? len c) with true by lia.
    rewrite !u8_land, !Z.shiftr_div_pow2 by lia. change (2 ^ 8) with 256. unfold u8. change (2 ^ 8) with 256.
    destruct (len c <? 0x100) eqn:E2; zbool.
    - rewrite (Z.div_small (len c)) by lia. done.
    - assert (0 < len c / 256) by (apply Z.div_str_pos; lia). assert (len c / 256 < 256) by (apply Z.div_lt_upper_bound; lia).
      replace (0 <? len c / 256) with true by lia. rewrite (Z.div_small (len c / 256)) by lia. done. }
  unfold encodeLength. replace (len c <? 128) with false by lia. rewrite Hb. by destruct (len c <? 0x100).
Qed.

Lemma tlvPatched_len tag c : len c <= len (tlvPatched tag c).
Proof. unfold tlvPatched. rewrite len_app. pose proof (len_nonneg (endTLV_header tag (len c))). lia. Qed.

(** ** Primitive fields are those of the readable encoder *)

(** Filling a scratch array from its end leaves the octets the readable
    encoder's loop prepends. *)
Lemma length_fill_spec a : forall fuel b v, (length a < fuel)%nat -> 0 <= v < 256 ^ len a ->
  exists a', length_fill fuel (a ++ b) (len a) v = Ok (a' ++ be_loop (length a) v b, len a') /\
    len (a' ++ be_loop (length a) v b) = len (a ++ b).
Proof.
  induction a as [|x a IH] using rev_ind; intros [|fuel] b v Hf Hv; try (simpl in Hf; lia).
  { exists []. change (256 ^ len (@nil Z)) with 1 in Hv. assert (v = 0) as -> by lia. done. }
  rewrite length_app in *. rewrite len_app in *. cbn [length] in *. change (len [x]) with 1 in *.
  replace (length a + 1)%nat with (S (length a)) in * by lia. cbn [length_fill be_loop].
  pose proof (len_nonneg a). rewrite Z.pow_add_r in Hv by lia. destruct (0 <? v) eqn:E; zbool.
  - replace (len a + 1 - 1) with (len a) by lia. rewrite <- app_assoc. cbn [app]. rewrite set_at_here. cbn [res_bind].
    rewrite Z.shiftr_div_pow2 by lia. change (2 ^ 8) with 256.
    destruct (IH fuel (u8 (Z.land v 0xff) :: b) (v / 256)) as (a' & -> & Hl); [lia| |].
    { split; [apply Z.div_pos; lia|apply Z.div_lt_upper_bound; lia]. }
    exists a'. split; [done|]. rewrite Hl, !len_app, !len_cons. done.
  - exists (a ++ [x]). rewrite len_app. done.
Qed.

Lemma be_loop_fuel n : forall m v acc, 0 <= v < 256 ^ Z.of_nat n -> v < 256 ^ Z.of_nat m -> be_loop n v acc = be_loop m v acc.
Proof.
  induction n as [|n IH]; intros [|m] v acc Hn Hm; cbn [be_loop]; try done.
  - simpl in Hn. by replace (0 <? v) with false by lia.
  - simpl in Hm. by replace (0 <? v) with false by lia.
  - rewrite Nat2Z.inj_succ, Z.pow_succ_r in Hn, Hm by lia. case_if; [|done]. rewrite Z.shiftr_div_pow2 by lia. change (2 ^ 8) with 256.
    apply IH; [split; [apply Z.div_pos; lia|]|]; apply Z.div_lt_upper_bound; lia.
Qed.

Lemma appendLength_spec dst n : 0 <= n < 2 ^ 63 -> appendLength dst n = Ok (dst ++ encodeLength n).
Proof.
  intros Hn. unfold appendLength, encodeLength. case_if; [done|].
  destruct (length_fill_spec (repeat 0 8) 9 [] n) as (a' & Hf & Hl); [simpl; lia|change (256 ^ len (repeat 0 8)) with (2 ^ 64); lia|].
  rewrite app_nil_r in Hf. change (length (repeat 0 8)) with 8%nat in *. rewrite Hf. cbn [res_bind].
  rewrite slice_suffix. cbn [res_bind]. rewrite len_app. replace (len a' + _ - len a') with (len (be_loop 8 n [])) by lia.
  by rewrite <- app_assoc.
Qed.

Lemma appendField_spec dst tag body : len body < 2 ^ 63 -> appendField dst tag body = Ok (dst ++ tlv tag body).
Proof.
  intros Hl. unfold appendField. rewrite appendLength_spec by (split; [apply len_nonneg|done]). cbn [res_bind].
  by rewrite <- !app_assoc.
Qed.

Lemma appendOctetString_spec dst v : len v < 2 ^ 63 -> appendOctetString dst v = Ok (dst ++ encodeOctetString v).
Proof. apply appendField_spec. Qed.

(** The zero-skipping index loop and [b[start:]]. *)
Lemma skip_zero_spec k : forall fuel pre b, (k < fuel)%nat -> (k < length b)%nat ->
  exists z, skip_zero fuel (pre ++ b) (len pre) (len pre + Z.of_nat k) = Ok (len (pre ++ z)) /\
    b = z ++ strip_zeros k b /\ Forall (eq 0) z.
Proof.
  induction k as [|k IH]; intros [|fuel] pre b Hf Hb; try lia; cbn [skip_zero].
  { exists []. replace (len pre <? _) with false by lia. by rewrite app_nil_r. }
  destruct b as [|x b]; [simpl in Hb; lia|]. replace (len pre <? _) with true by lia. rewrite index_app_here. cbn [res_bind strip_zeros].
  destruct (x =? 0) eqn:E; zbool; [subst x|exists []; by rewrite app_nil_r].
  rewrite (app_assoc pre [0] b : pre ++ 0 :: b = _). replace (len pre + 1) with (len (pre ++ [0])) by (by rewrite len_app).
  replace (len pre + Z.of_nat (S k)) with (len (pre ++ [0]) + Z.of_nat k) by (rewrite len_app; change (len [0]) with 1; lia).
  destruct (IH fuel (pre ++ [0]) b) as (z & -> & Heq & Hz); [lia|simpl in Hb; lia|].
  exists (0 :: z). rewrite <- app_assoc. split_and!; [done|by cbn [app]; rewrite <- Heq|by constructor].
Qed.

Lemma appendUnsigned32_spec dst tag v : appendUnsigned32 dst tag v = Ok (dst ++ encodeUnsigned32 tag v).
Proof.
  unfold appendUnsigned32, encodeUnsigned32. set (b := [_; _; _; _]).
  destruct (skip_zero_spec 3 4 [] b) as (z & Hs & Heq & _); [lia|simpl; lia|]. cbn [app] in Hs. change (len [] + Z.of_nat 3) with 3 in Hs.
  change (len []) with 0 in Hs. rewrite Hs. cbn [res_bind].
  assert (Hl : 4 = len z + len (strip_zeros 3 b)) by (rewrite <- len_app, <- Heq; done).
  pose proof (len_nonneg (strip_zeros 3 b)). pose proof (len_nonneg z). rewrite appendLength_spec by lia. cbn [res_bind].
  rewrite Heq at 1. rewrite Heq at 2. rewrite slice_suffix. cbn [res_bind].
  replace (4 - len z) with (len (strip_zeros 3 b)) by lia. by rewrite <- !app_assoc.
Qed.

Lemma PutUint64_fill v : PutUint64 v = fill_be 8 v [].
Proof.
  unfold PutUint64. cbn [fill_be]. rewrite !Z.shiftr_shiftr by lia. cbn [Z.add Pos.add Pos.succ].
  repeat (f_equal; [by rewrite u8_land|]). by rewrite u8_land.
Qed.

Lemma fill_be_zeros n : forall v acc, 0 <= v -> exists z, fill_be n v acc = z ++ be_loop n v acc /\ Forall (eq 0) z.
Proof.
  induction n as [|n IH]; intros v acc Hv; cbn [fill_be be_loop]; [by exists []|].
  destruct (IH (Z.shiftr v 8) (u8 (Z.land v 0xff) :: acc)) as (z & Hf & Hz); [by apply Z.shiftr_nonneg|].
  destruct (0 <? v) eqn:E; zbool; [by eauto|]. assert (v = 0) as -> by lia. exists (z ++ [0]).
  change (Z.shiftr 0 8) with 0 in *. change (u8 (Z.land 0 0xff)) with 0 in *. rewrite Hf. split.
  - rewrite <- app_assoc. by destruct n.
  - apply Forall_app; split; [done|by constructor].
Qed.

Lemma strip_zeros_all z : forall k x l, Forall (eq 0) z -> x <> 0 -> (length z <= k)%nat -> strip_zeros k (z ++ x :: l) = x :: l.
Proof.
  induction z as [|y z IH]; intros k x l Hz Hx Hk.
  { destruct k; cbn [app strip_zeros]; [done|]. by replace (x =? 0) with false by lia. }
  inversion_clear Hz as [|? ? <- Hz']. destruct k as [|k]; [simpl in Hk; lia|]. cbn [app strip_zeros]. apply IH; [done|done|simpl in Hk; lia].
Qed.

Lemma zeros_rotate z : Forall (eq 0) z -> 0 :: z = z ++ [0].
Proof. induction 1 as [|y z <- _ IH]; [done|]. cbn [app]. by rewrite <- IH. Qed.

(** The fixed-offset form of a positive integer. *)
Lemma positive_body v : 0 < v <= MaxInt64 ->
  (let! start := skip_zero 8 (0 :: PutUint64 (u64 v)) 1 8 in
   let! x := index (0 :: PutUint64 (u64 v)) start in
   slice (0 :: PutUint64 (u64 v)) (if negb (Z.land x 0x80 =? 0) then start - 1 else start) (len (0 :: PutUint64 (u64 v)))) = Ok (integerBody v).
Proof.
  unfold MaxInt64. intros Hv. unfold integerBody. replace (v =? 0) with false by lia. replace (0 <? v) with true by lia.
  unfold u64. rewrite Z.mod_small by lia. rewrite PutUint64_fill.
  destruct (fill_be_zeros 8 v []) as (z & Hf & Hz); [lia|].
  destruct (fill_be_spec 8 v []) as (ds & Hds & _ & Hld & _); [lia|].
  destruct (be_loop_spec 8 v []) as (be & Hbe & _ & _ & Hl & _ & Hh); [lia|]. rewrite app_nil_r in Hbe, Hds.
  destruct (Hh ltac:(lia)) as [Hhd _]. destruct be as [|b0 be]; [simpl in Hhd; lia|]. cbn [hd] in Hhd.
  rewrite Hbe in *. rewrite Hf. assert (Hlz : len z + len (b0 :: be) = 8) by (rewrite <- len_app, <- Hf, Hds; lia).
  pose proof (len_nonneg be). pose proof (len_nonneg z). rewrite len_cons in Hlz.
  destruct (skip_zero_spec 7 8 [0] (z ++ b0 :: be)) as (z' & Hs & Heq & _); [lia|rewrite length_app; unfold len in *; simpl; lia|].
  rewrite (strip_zeros_all z) in Heq by (done || lia || unfold len in *; lia). apply app_inv_tail in Heq as <-.
  change (skip_zero 8 (0 :: z ++ b0 :: be) 1 8) with (skip_zero 8 ([0] ++ z ++ b0 :: be) (len [0]) (len [0] + Z.of_nat 7)). rewrite Hs. cbn [res_bind].
  change (0 :: z ++ b0 :: be) with ((0 :: z) ++ b0 :: be). rewrite index_app_here. cbn [res_bind].
  destruct (negb _); [|apply (slice_suffix (0 :: z))]. rewrite (zeros_rotate z Hz), <- app_assoc.
  change ([0] ++ b0 :: be) with (0 :: b0 :: be). replace (len ([0] ++ z) - 1) with (len z) by (rewrite len_app; change (len [0]) with 1; lia). apply slice_suffix.
Qed.

Lemma appendInteger_spec dst v : int64_range v -> appendInteger dst v = Ok (dst ++ encodeInteger v).
Proof.
  unfold int64_range, MinInt64. intros Hv. rewrite encodeInteger_tlv. unfold appendInteger. destruct (v =? 0) eqn:E0.
  { rewrite appendField_spec by (change (len [0]) with 1; lia). unfold integerBody. by rewrite E0. }
  destruct (0 <? v) eqn:E1; zbool.
  - pose proof (positive_body v ltac:(lia)) as Hp. cbv zeta.
    destruct (skip_zero _ _ _ _) as [start| |]; [|done|done]. cbn [res_bind] in *.
    destruct (index _ start) as [x| |]; [|done|done]. cbn [res_bind] in *. rewrite Hp. cbn [res_bind].
    apply appendField_spec. destruct (integerBody_len v) as [_ Hl]; [lia|]. lia.
  - unfold integerBody. replace (v =? 0) with false by lia. replace (0 <? v) with false by lia.
    assert (Hc : forall b0 l, len l <= 3 ->
      (let! x := index (b0 :: l) 0 in
       if Z.land x 0x80 =? 0 then let! dst := appendLength (dst ++ [ASN1_INTEGER]) (len (b0 :: l) + 1) in Ok ((dst ++ [0xFF]) ++ b0 :: l)
       else appendField dst ASN1_INTEGER (b0 :: l)) =
      Ok (dst ++ tlv ASN1_INTEGER (if Z.land b0 0x80 =? 0 then 0xFF :: b0 :: l else b0 :: l))).
    { intros b0 l Hl. pose proof (len_nonneg l). change (index (b0 :: l) 0) with (Ok b0). cbn [res_bind]. case_if.
      - rewrite appendLength_spec by (rewrite len_cons; lia). cbn [res_bind]. unfold tlv.
        rewrite (len_cons 0xFF), Z.add_comm, <- !app_assoc. done.
      - apply appendField_spec. rewrite len_cons. lia. }
    cbv zeta. destruct (-128 <=? v); [by apply Hc|]. destruct (-32768 <=? v); [by apply Hc|].
    destruct (-8388608 <=? v); by apply Hc.
Qed.

(** ** Object identifiers are those of the readable encoder *)

Lemma component_fill_spec a : forall fuel b v, (length a < fuel)%nat -> 0 <= v < 128 ^ len a ->
  exists a', component_fill fuel (a ++ b) (len a) v = Ok (a' ++ varint_hi (length a) v ++ b, len a') /\
    len (a' ++ varint_hi (length a) v ++ b) = len (a ++ b).
Proof.
  induction a as [|x a IH] using rev_ind; intros [|fuel] b v Hf Hv; try (simpl in Hf; lia).
  { exists []. change (128 ^ len (@nil Z)) with 1 in Hv. assert (v = 0) as -> by lia. done. }
  rewrite length_app in *. rewrite len_app in *. cbn [length] in *. change (len [x]) with 1 in *.
  replace (length a + 1)%nat with (S (length a)) in * by lia. cbn [component_fill varint_hi].
  pose proof (len_nonneg a). rewrite Z.pow_add_r in Hv by lia. destruct (0 <? v) eqn:E; zbool.
  - replace (v =? 0) with false by lia. replace (len a + 1 - 1) with (len a) by lia. rewrite <- app_assoc. cbn [app].
    rewrite set_at_here. cbn [res_bind]. pose proof (Z.mod_pos_bound v 128).
    rewrite u8_land7, lor_0x80, Z.shiftr_div_pow2 by lia. change (2 ^ 7) with 128.
    destruct (IH fuel (v mod 128 + 128 :: b) (v / 128)) as (a' & -> & Hl); [lia| |].
    { split; [apply Z.div_pos; lia|apply Z.div_lt_upper_bound; lia]. }
    exists a'. rewrite <- !app_assoc. cbn [app]. split; [done|]. rewrite Hl, !len_app, !len_cons. done.
  - assert (v = 0) as -> by lia. exists (a ++ [x]). rewrite len_app. done.
Qed.

Lemma appendOIDComponent_spec dst v : 0 <= v < 2 ^ 63 -> appendOIDComponent dst v = Ok (dst ++ encodeOIDComponent v).
Proof.
  intros Hv. unfold appendOIDComponent. case_if; [unfold encodeOIDComponent; by replace (v <? 0x80) with true by lia|].
  rewrite encodeOIDComponent_hi by done. rewrite u8_land7, Z.shiftr_div_pow2 by lia. change (2 ^ 7) with 128.
  change (repeat 0 10) with (repeat 0 9 ++ 0 :: []). change (len (repeat 0 9 ++ 0 :: []) - 1) with (len (repeat 0 9)). rewrite set_at_here. cbn [res_bind].
  assert (0 <= v / 128) by (apply Z.div_pos; lia). assert (v / 128 < 2 ^ 56) by (apply Z.div_lt_upper_bound; lia).
  destruct (component_fill_spec (repeat 0 9) 10 [v mod 128] (v / 128)) as (a' & -> & _);
    [simpl; lia|change (128 ^ len (repeat 0 9)) with (2 ^ 63); lia|].
  cbn [res_bind]. rewrite slice_suffix. cbn [res_bind]. change (length (repeat 0 9)) with 9%nat.
  by rewrite (varint_hi_fuel 9 10) by lia.
Qed.

(** What the streaming loop does with the components it finds. *)
Fixpoint stream_components (parts : list bytes) (dst : bytes) (idx first : Z) : option bytes :=
  match parts with
  | [] => Some dst
  | p :: ps =>
      let '(v, ok) := Atoi p in
      if negb ok || (v <? 0) then None else
      if (2 <=? idx) && (maxOIDSubIdentifier <? v) then None else
      if idx =? 0 then stream_components ps dst (idx + 1) v
      else if idx =? 1 then
        if negb (legalOIDArcPair first v) then None else stream_components ps (dst ++ encodeOIDComponent (40 * first + v)) (idx + 1) first
      else stream_components ps (dst ++ encodeOIDComponent v) (idx + 1) first
  end.

Lemma arc_bound first v : int64_range v -> legalOIDArcPair first v = true -> 0 <= 40 * first + v < 2 ^ 63.
Proof. intros Hr Hl. apply legalOIDArcPair_spec in Hl; [|done]. unfold pair_ok, maxOIDSubIdentifier in Hl. lia. Qed.

Lemma oid_loop_end n oid i dst idx start first part :
  (forall dst' idx' first', oid_loop n oid (i + 1) dst' idx' (i + 1) first' = Ok (stream_components part dst' idx' first')) ->
  forall p, slice oid start i = Ok p -> (i = len oid \/ index oid i = Ok dot) ->
  oid_loop (S n) oid i dst idx start first = Ok (stream_components (p :: part) dst idx first).
Proof.
  intros IH p Hp Hi. cbn [oid_loop stream_components].
  assert ((if i =? len oid then Ok false else let! c := index oid i in Ok (negb (c =? dot))) = Ok false) as ->.
  { destruct Hi as [->| ->]; [by rewrite Z.eqb_refl|]. by destruct (i =? len oid). }
  cbn [res_bind]. rewrite Hp. cbn [res_bind]. pose proof (Atoi_range p) as Hr. unfold int64_range, MaxInt64 in Hr. destruct (Atoi p) as [v ok]. cbn [fst] in Hr.
  destruct (negb ok || (v <? 0)) eqn:E1; [done|]. destruct ((2 <=? idx) && _) eqn:E2; [done|].
  destruct (idx =? 0); [apply IH|]. zbool. destruct (idx =? 1).
  - destruct (legalOIDArcPair first v) eqn:E4; cbn [negb]; [|done].
    rewrite appendOIDComponent_spec by (by apply arc_bound). apply IH.
  - rewrite appendOIDComponent_spec by lia. apply IH.
Qed.

Lemma oid_loop_spec rest : forall before cur dst idx first, ~ In dot cur ->
  oid_loop (S (length rest)) (before ++ cur ++ rest) (len before + len cur) dst idx (len before) first =
  Ok (stream_components (Split dot (cur ++ rest)) dst idx first).
Proof.
  induction rest as [|c rest IH]; intros before cur dst idx first Hcur.
  { rewrite Split_no_sep by (by rewrite app_nil_r). rewrite !app_nil_r. apply oid_loop_end; [done| |left; by rewrite len_app].
    rewrite <- len_app. apply slice_suffix. }
  destruct (c =? dot) eqn:E; zbool.
  - subst c. rewrite Split_app by done. cbn [length]. apply oid_loop_end.
    + intros dst' idx' first'. specialize (IH (before ++ cur ++ [dot]) [] dst' idx' first' (fun H => H)).
      rewrite <- !app_assoc in IH. cbn [app] in IH. rewrite !len_app, len_cons, len_nil, Z.add_0_r in IH.
      by replace (len before + len cur + 1) with (len before + (len cur + (1 + 0))) by lia.
    + apply slice_app_here.
    + right. rewrite app_assoc, <- len_app. apply index_app_here.
  - change (length (c :: rest)) with (S (length rest)). cbn [oid_loop].
    replace (len before + len cur =? _) with false by (rewrite !len_app, len_cons; pose proof (len_nonneg rest); lia).
    rewrite app_assoc at 1. rewrite <- len_app at 1. rewrite index_app_here. cbn [res_bind]. replace (c =? dot) with false by lia. cbn [negb].
    specialize (IH before (cur ++ [c]) dst idx first). rewrite <- !app_assoc in IH. cbn [app] in IH. rewrite len_app, len_cons, len_nil in IH.
    replace (len before + len cur + 1) with (len before + (len cur + (1 + 0))) by lia. apply IH.
    rewrite in_app_iff. simpl. intros [Hin|[Hin|[]]]; [by apply Hcur|lia].
Qed.

Lemma oid_nComp_spec oid : oid_nComp oid = len (Split dot oid).
Proof.
  unfold oid_nComp. assert (Hg : forall n, fold_left (fun n c => if c =? dot then n + 1 else n) oid n = n - 1 + len (Split dot oid)).
  { induction oid as [|c oid IH]; intros n; cbn [fold_left Split]; [change (len [[]]) with 1; lia|].
    rewrite IH. pose proof (Split_nonempty dot oid). destruct (c =? dot); [rewrite len_cons; lia|].
    destruct (Split dot oid); [done|]. rewrite !len_cons. lia. }
  rewrite Hg. lia.
Qed.

Lemma stream_components_tail ps : forall dst idx first, 2 <= idx ->
  stream_components ps dst idx first = match encode_components ps with Some tail => Some (dst ++ tail) | None => None end.
Proof.
  induction ps as [|p ps IH]; intros dst idx first Hi; cbn [stream_components encode_components]; [by rewrite app_nil_r|].
  destruct (Atoi p) as [v ok]. replace (2 <=? idx) with true by lia. cbn [andb].
  destruct (negb ok || (v <? 0)); cbn [orb]; [done|]. destruct (maxOIDSubIdentifier <? v); [done|].
  replace (idx =? 0) with false by lia. replace (idx =? 1) with false by lia. rewrite IH by lia.
  case_match; [by rewrite <- app_assoc|done].
Qed.

(** On at least two components the loop computes the body of [encodeOID]. *)
Lemma stream_components_spec p0 p1 rest dst :
  stream_components (p0 :: p1 :: rest) dst 0 0 =
    let '(first, ok1) := Atoi p0 in
    let '(second, ok2) := Atoi p1 in
    if negb ok1 || negb ok2 || negb (legalOIDArcPair first second) then None else
    match encode_components rest with Some tail => Some (dst ++ encodeOIDComponent (40 * first + second) ++ tail) | None => None end.
Proof.
  cbn [stream_components]. destruct (Atoi p0) as [first ok1]. destruct (Atoi p1) as [second ok2]. cbn [Z.leb Z.compare andb Z.eqb].
  assert (Hl : legalOIDArcPair first second = true -> 0 <= first /\ 0 <= second).
  { unfold legalOIDArcPair. case_if; [done|]. lia. }
  destruct ok1; cbn [negb orb]; [|done]. destruct (first <? 0) eqn:E1; zbool.
  { destruct ok2; cbn [negb orb]; [|done]. destruct (legalOIDArcPair first second); [|done]. destruct Hl; [done|lia]. }
  destruct ok2; cbn [negb orb]; [|done]. destruct (second <? 0) eqn:E2; zbool.
  { destruct (legalOIDArcPair first second); [|done]. destruct Hl; [done|lia]. }
  change (0 + 1) with 1. change (1 + 1) with 2. cbn [Z.leb Z.compare Pos.compare Pos.compare_cont andb Z.eqb Pos.eqb].
  destruct (legalOIDArcPair first second); cbn [negb]; [|done]. rewrite stream_components_tail by lia. case_match; [by rewrite <- app_assoc|done].
Qed.

Lemma trim_dot oid :
  (if 0 <? len oid then let! c := index oid 0 in if c =? dot then slice oid 1 (len oid) else Ok oid else Ok oid) = Ok (TrimPrefix oid (str ".")).
Proof.
  destruct oid as [|c oid]; [done|]. rewrite len_cons. pose proof (len_nonneg oid). replace (0 <? 1 + len oid) with true by lia.
  change (index (c :: oid) 0) with (Ok c). cbn [res_bind]. change (str ".") with [dot]. destruct (c =? dot) eqn:E; zbool.
  - subst c. rewrite <- len_cons with (x := dot). rewrite (slice_suffix [dot] oid : slice (dot :: oid) 1 (len (dot :: oid)) = _). by rewrite (TrimPrefix_here [dot] oid : TrimPrefix (dot :: oid) [dot] = oid).
  - unfold TrimPrefix, HasPrefix. cbn [length take]. unfold beq. rewrite bool_decide_false; [done|naive_solver].
Qed.

Lemma oid_long_form_spec a body : 0x80 <= len body <= maxOIDBodyBytes ->
  oid_long_form (a ++ 0 :: body) (len a) (len body) = Ok (a ++ encodeLength (len body) ++ body).
Proof.
  unfold maxOIDBodyBytes. intros Hb. pose proof (tlvPatched_tlv 0 body ltac:(lia)) as Ht. unfold tlvPatched, tlv, endTLV_header in Ht.
  replace (len body <? 0x80) with false in Ht by lia. unfold oid_long_form. set (extra := if 0x100 <=? len body then 2 else 1).
  assert (Hx : 1 <= extra <= 2) by (unfold extra; case_if; lia).
  assert (Hsrc : slice ((a ++ 0 :: body) ++ repeat 0 (Z.to_nat extra)) (len a + 1) (len ((a ++ 0 :: body) ++ repeat 0 (Z.to_nat extra)) - extra) = Ok body).
  { pose proof (slice_app_here (a ++ [0]) body (repeat 0 (Z.to_nat extra))) as H. rewrite <- !app_assoc in *. cbn [app] in *. rewrite <- H. f_equal.
    - by rewrite len_app.
    - rewrite !len_app, len_cons, len_app, (len_def (repeat _ _)), repeat_length. change (len [0]) with 1. lia. }
  rewrite Hsrc. cbn [res_bind]. rewrite <- app_assoc. cbn [app].
  assert (Hcopy : exists w, len w = extra /\ copy_at (a ++ 0 :: body ++ repeat 0 (Z.to_nat extra)) (len a + 1 + extra) body = Ok (a ++ 0 :: w ++ body)).
  { exists (take (Z.to_nat extra) (body ++ repeat 0 (Z.to_nat extra))). split.
    { rewrite len_take, len_app. pose proof (len_nonneg (repeat 0 (Z.to_nat extra))). lia. }
    pose proof (copy_at_here (a ++ 0 :: take (Z.to_nat extra) (body ++ repeat 0 (Z.to_nat extra))) (drop (Z.to_nat extra) (body ++ repeat 0 (Z.to_nat extra))) body) as H.
    rewrite <- !app_assoc in H. cbn [app] in H. rewrite take_drop in H. rewrite len_app, len_cons, len_take, !len_drop, len_app in H.
    rewrite (len_def (repeat _ _)), repeat_length in H. replace (len a + (1 + Z.min (Z.of_nat (Z.to_nat extra)) (len body + Z.of_nat (Z.to_nat extra)))) with (len a + 1 + extra) in H by lia.
    rewrite H by lia. f_equal. rewrite drop_drop, drop_ge, app_nil_r; [done|]. rewrite length_app, repeat_length. lia. }
  destruct Hcopy as (w & Hw & ->). cbn [res_bind].
  unfold extra in *. destruct (len body <? 0x100) eqn:E; zbool.
  - replace (256 <=? len body) with false in * by lia. cbn [Z.eqb Pos.eqb].
    destruct w as [|x [|]]; unfold len in Hw; cbn [length] in Hw; try lia. cbn [app].
    rewrite set_at_here. cbn [res_bind]. rewrite set_at_1. injection Ht as Ht. by rewrite <- Ht.
  - replace (256 <=? len body) with true in * by lia. cbn [Z.eqb Pos.eqb].
    destruct w as [|x [|y [|]]]; unfold len in Hw; cbn [length] in Hw; try lia. cbn [app].
    rewrite set_at_here. cbn [res_bind]. rewrite set_at_1. cbn [res_bind]. rewrite set_at_2. injection Ht as Ht. by rewrite <- Ht.
Qed.

Lemma appendOID_spec dst oid : appendOID dst oid = Ok (dst ++ encodeOID oid).
Proof.
  unfold appendOID, encodeOID. rewrite trim_dot. cbn [res_bind]. generalize (TrimPrefix oid (str ".")). clear oid. intros oid.
  rewrite oid_nComp_spec. cbv zeta.
  assert (Hdeg : (let! d := slice ((dst ++ [ASN1_OID]) ++ [0]) 0 (len (dst ++ [ASN1_OID]) - 1) in Ok (d ++ [ASN1_OID; 0x00])) = Ok (dst ++ degenerateOID)).
  { rewrite <- app_assoc. replace (len (dst ++ [ASN1_OID]) - 1) with (len dst) by (rewrite len_app; change (len [ASN1_OID]) with 1; lia).
    by rewrite slice_prefix. }
  pose proof (oid_loop_spec oid [] [] ((dst ++ [ASN1_OID]) ++ [0]) 0 0 (fun H => H)) as Hloop. cbn [app] in Hloop. change (len [] + len []) with 0 in Hloop.
  change (@len Z []) with 0 in Hloop. rewrite Hloop. cbn [res_bind]. clear Hloop.
  destruct (Split dot oid) as [|p0 [|p1 rest]] eqn:Es; [by apply Split_nonempty in Es|done|].
  rewrite !len_cons. pose proof (len_nonneg rest). replace (1 + (1 + len rest) <? 2) with false by lia.
  rewrite stream_components_spec. destruct (Atoi p0) as [first ok1]. destruct (Atoi p1) as [second ok2].
  destruct (negb ok1 || negb ok2 || negb (legalOIDArcPair first second)); [done|]. destruct (encode_components rest) as [tail|]; [|done].
  set (body := encodeOIDComponent (40 * first + second) ++ tail). rewrite len_app.
  replace (len ((dst ++ [ASN1_OID]) ++ [0]) + len body - len ((dst ++ [ASN1_OID]) ++ [0])) with (len body) by lia.
  destruct (maxOIDBodyBytes <? len body) eqn:E; [done|]. zbool. pose proof (len_nonneg body). rewrite <- (app_assoc (dst ++ [ASN1_OID])). cbn [app].
  destruct (len body <? 0x80) eqn:E'; zbool.
  - rewrite set_at_here, encodeLength_short by lia. rewrite u8_small by (unfold is_byte; lia). by rewrite <- app_assoc.
  - rewrite oid_long_form_spec by lia. by rewrite <- app_assoc.
Qed.

(** ** Agreement of the two encoders *)

(** Equal, or both past what two length octets can state: there [endTLV]
    truncates the length, and there no datagram budget admits the message. *)
Definition agree (a b : bytes) : Prop := a = b \/ (65536 <= len a /\ 65536 <= len b).

Lemma agree_refl a : agree a a.
Proof. by left. Qed.
Lemma agree_app a a' b b' : agree a a' -> agree b b' -> agree (a ++ b) (a' ++ b').
Proof.
  unfold agree. rewrite !len_app. pose proof (len_nonneg a). pose proof (len_nonneg a'). pose proof (len_nonneg b). pose proof (len_nonneg b').
  intros [->|] [->|]; auto; right; lia.
Qed.
Lemma agree_tlv tag a b : agree a b -> agree (tlvPatched tag a) (tlv tag b).
Proof.
  pose proof (tlvPatched_len tag a). pose proof (len_tlv tag b). pose proof (hlen_pos (len b)). pose proof (len_nonneg b).
  intros [->|[??]]; [|right; lia]. destruct (Z.lt_ge_cases (len b) 65536); [left; by apply tlvPatched_tlv|right; lia].
Qed.
#[local] Hint Resolve agree_refl agree_app agree_tlv : core.

(** Go strings are no longer than an [int]. *)
Definition go_string (s : bytes) : Prop := len s <= MaxInt64.

Lemma ParseInt32_range v n : ParseInt v 32 = (n, None) -> int64_range n.
Proof.
  unfold ParseInt, int64_range, MinInt64, MaxInt64. destruct v as [|c v]; [done|]. destruct (ParseUint _ 32) as [un e] eqn:E.
  assert (Hu : 0 <= un).
  { revert E. generalize (if (c =? minus) || (c =? plus) then v else c :: v). intros l. unfold ParseUint.
    assert (Hg : forall l n, 0 <= n -> 0 <= fst (parse_digits (2 ^ 32 - 1) n l)).
    { clear. induction l as [|x l IH]; intros n Hn; cbn [parse_digits fst]; [done|]. unfold is_digit. repeat case_if; cbn [fst]; try lia. apply IH. lia. }
    destruct l; [naive_solver lia|]. intros E. specialize (Hg (z :: l) 0 ltac:(lia)). by rewrite E in Hg. }
  change (2 ^ (32 - 1)) with 2147483648. destruct (c =? minus), e as [[|]|]; cbn [negb andb]; repeat case_if; intros ?; simplify_eq; lia.
Qed.

Lemma appendVarbindValue_spec dst vb : go_string (vb_Value vb) ->
  appendVarbindValue dst vb = Ok (match varbindValue vb with Some b => Some (dst ++ b) | None => None end).
Proof.
  unfold go_string, MaxInt64. intros Hg. unfold appendVarbindValue, varbindValue. cbv zeta.
  assert (H32 : forall tag, appendTyped32 dst tag (vb_Value vb) = Ok (match typedUnsigned32 tag (vb_Value vb) with Some b => Some (dst ++ b) | None => None end)).
  { intros tag. unfold appendTyped32, typedUnsigned32. destruct (ParseUint _ 32) as [n [|]]; [done|]. by rewrite appendUnsigned32_spec. }
  destruct (beq (vb_Type vb) TrapVTInteger).
  { destruct (ParseInt _ 32) as [n [|]] eqn:E; [done|]. by rewrite appendInteger_spec by (by eapply ParseInt32_range). }
  destruct (beq (vb_Type vb) TrapVTOctetString); [by rewrite appendOctetString_spec by lia|].
  destruct (beq (vb_Type vb) TrapVTOID); [destruct (encodableAsOID _); [by rewrite appendOID_spec|done]|].
  destruct (beq (vb_Type vb) TrapVTCounter32); [done|]. destruct (beq (vb_Type vb) TrapVTGauge32); [done|]. destruct (beq (vb_Type vb) TrapVTTimeTicks); [done|].
  destruct (beq (vb_Type vb) TrapVTCounter64); [by destruct (ParseUint _ 64) as [n [|]]|].
  destruct (beq (vb_Type vb) TrapVTIPAddress); [by destruct (ParseIP_To4 _)|done].
Qed.

Lemma appendVarbindOIDs_spec dst oid value :
  appendVarbindOIDs dst oid value = Ok (dst ++ tlvPatched ASN1_SEQUENCE (encodeOID oid ++ encodeOID value)).
Proof.
  unfold appendVarbindOIDs, beginTLV. rewrite appendOID_spec. cbn [res_bind]. rewrite appendOID_spec. cbn [res_bind].
  rewrite <- !app_assoc. apply endTLV_spec.
Qed.

(** Slots of the precomputed entry hold the octets of the rendered names. *)
Definition slots_ok (pre : option preEncodedEntry) (i : nat) (varbinds : list Varbind) : Prop :=
  forall p j vb o, pre = Some p -> varbinds !! j = Some vb -> varbindOID p !! (i + j)%nat = Some (Some o) ->
    o = encodeOID (vb_OID vb) /\ encodableAsOID (vb_OID vb) = true.

(** The result of an appending step against the octets it should append. *)
Definition appends (dst : bytes) (r : option bytes) (b : option bytes) : Prop :=
  match r, b with
  | Some d, Some b => exists b', d = dst ++ b' /\ agree b' b
  | None, None => True
  | _, _ => False
  end.

Lemma appendVarbinds_spec pre vbs : forall dst i, Forall (fun vb => go_string (vb_Value vb)) vbs -> slots_ok pre i vbs ->
  wp (appendVarbinds dst pre i vbs) (fun r => appends dst r (encodeVarbinds vbs)).
Proof.
  induction vbs as [|vb vbs IH]; intros dst i Hg Hs; cbn [appendVarbinds encodeVarbinds].
  { exists []. split; [by rewrite app_nil_r|apply agree_refl]. }
  inversion_clear Hg as [|? ? Hv Hg']. unfold beginTLV.
  assert (Hs' : slots_ok pre (S i) vbs).
  { intros p j vb' o Hp Hj Ho. eapply (Hs p (S j)); [done|done|]. by rewrite Nat.add_succ_r. }
  set (slot := match pre with Some p => _ | None => None end).
  assert (Hslot : forall o, slot = Some o -> o = encodeOID (vb_OID vb) /\ encodableAsOID (vb_OID vb) = true).
  { unfold slot. intros o. destruct pre as [p|]; [|done]. destruct (varbindOID p !! i) as [[o'|]|] eqn:E; intros ?; simplify_eq.
    apply (Hs p 0%nat vb o); [done|done|]. by rewrite Nat.add_0_r. }
  assert ((match slot with
    | Some o => Ok (Some ((dst ++ [0; 0; 0; 0]) ++ o))
    | None => if negb (encodableAsOID (vb_OID vb)) then Ok None else let! dst := appendOID (dst ++ [0; 0; 0; 0]) (vb_OID vb) in Ok (Some dst) end)
    = Ok (if encodableAsOID (vb_OID vb) then Some ((dst ++ [0; 0; 0; 0]) ++ encodeOID (vb_OID vb)) else None)) as ->.
  { destruct slot as [o|]; [destruct (Hslot o eq_refl) as [-> ->]; done|]. destruct (encodableAsOID _); [by rewrite appendOID_spec|done]. }
  cbn [res_bind]. destruct (encodableAsOID (vb_OID vb)); cbn [negb]; [|done].
  rewrite appendVarbindValue_spec by done. cbn [res_bind]. unfold encodeVarbindTyped. destruct (varbindValue vb) as [v|]; [|done].
  rewrite <- !app_assoc, endTLV_spec. cbn [res_bind]. eapply wp_mono; [by apply IH|].
  intros [d|]; destruct (encodeVarbinds vbs) as [b|]; cbn [appends]; [|done..]. intros (b' & -> & Hb').
  exists (tlvPatched ASN1_SEQUENCE (encodeOID (vb_OID vb) ++ v) ++ b'). split; [by rewrite <- app_assoc|].
  rewrite encodeSequence_tlv. auto.
Qed.

(** ** What is encoded once *)

Definition literalSlot (vt : VarbindTemplate) : option bytes :=
  if negb (isTemplated (rawOID vt)) && encodableAsOID (rawOID vt) then Some (encodeOID (rawOID vt)) else None.

Lemma precomputeVarbinds_spec vts :
  precomputeVarbinds vts = Ok (map literalSlot vts, existsb (fun vt => referencesNowLocal (rawOID vt) || referencesNowLocal (rawValue vt)) vts).
Proof.
  induction vts as [|vt vts IH]; cbn [precomputeVarbinds map existsb]; [done|]. unfold literalSlot at 1.
  destruct (negb _ && _); [rewrite appendOID_spec; cbn [res_bind app]|cbn [res_bind]]; by rewrite IH.
Qed.

(** Precomputation cannot fail, and its slots are the octets of the readable
    encoder's fields. *)
Lemma precomputeEntry_spec e : exists p, precomputeEntry e = Ok p /\
  sysUpTimeOID p = encodeOID oidSysUpTime0 /\
  trapOIDVB p = (if encodableAsOID (SnmpTrapOID e) then tlvPatched ASN1_SEQUENCE (encodeOID oidSnmpTrapOID0 ++ encodeOID (SnmpTrapOID e)) else []) /\
  enterpriseVB p = (if negb (beq (SnmpTrapEnterprise e) []) && encodableAsOID (SnmpTrapEnterprise e)
    then Some (tlvPatched ASN1_SEQUENCE (encodeOID oidSnmpTrapEnterprise0 ++ encodeOID (SnmpTrapEnterprise e))) else None) /\
  varbindOID p = map literalSlot (Varbinds e).
Proof.
  unfold precomputeEntry. rewrite appendOID_spec. cbn [res_bind app].
  destruct (encodableAsOID (SnmpTrapOID e)); [rewrite appendVarbindOIDs_spec|]; cbn [res_bind];
    (destruct (negb _ && _); [rewrite appendVarbindOIDs_spec|]); cbn [res_bind]; rewrite precomputeVarbinds_spec; cbn [res_bind]; by eexists.
Qed.

(** [varbinds] was rendered from [vts]: a template without an action renders to
    its own text. *)
Definition literals_render (vts : list VarbindTemplate) (varbinds : list Varbind) : Prop :=
  forall i vt vb, vts !! i = Some vt -> varbinds !! i = Some vb -> isTemplated (rawOID vt) = false -> vb_OID vb = rawOID vt.

(** The precomputed octets belong to the entry that is fired. *)
Definition pre_of (pre : option preEncodedEntry) (trapOID enterpriseOID : bytes) (varbinds : list Varbind) : Prop :=
  match pre with
  | None => True
  | Some p => exists e, precomputeEntry e = Ok p /\ SnmpTrapOID e = trapOID /\ SnmpTrapEnterprise e = enterpriseOID /\
      literals_render (Varbinds e) varbinds
  end.

Lemma pre_of_slots pre trapOID enterpriseOID varbinds : pre_of pre trapOID enterpriseOID varbinds -> slots_ok pre 0 varbinds.
Proof.
  intros Hpre p j vb o -> Hj Ho. destruct Hpre as (e & He & _ & _ & Hr). destruct (precomputeEntry_spec e) as (p' & He' & _ & _ & _ & Hs).
  assert (p' = p) as -> by congruence. rewrite Hs in Ho. cbn [Nat.add] in Ho. rewrite lookup_map in Ho.
  destruct (Varbinds e !! j) as [vt|] eqn:Ev; [|done]. cbn in Ho. unfold literalSlot in Ho.
  destruct (isTemplated (rawOID vt)) eqn:Et; [done|]. cbn [negb andb] in Ho. destruct (encodableAsOID (rawOID vt)) eqn:Ee; [|done].
  rewrite (Hr _ _ _ Ev Hj Et). naive_solver.
Qed.

Lemma appendUpTime_spec dst pre trapOID enterpriseOID varbinds up : pre_of pre trapOID enterpriseOID varbinds ->
  appendUpTime dst pre up = Ok (dst ++ tlvPatched ASN1_SEQUENCE (encodeOID oidSysUpTime0 ++ encodeUnsigned32 ASN1_TIMETICKS up)).
Proof.
  intros Hpre. unfold appendUpTime, beginTLV.
  assert (match pre with Some p => Ok ((dst ++ [0; 0; 0; 0]) ++ sysUpTimeOID p) | None => appendOID (dst ++ [0; 0; 0; 0]) oidSysUpTime0 end
    = Ok ((dst ++ [0; 0; 0; 0]) ++ encodeOID oidSysUpTime0)) as ->.
  { destruct pre as [p|]; [|apply appendOID_spec]. destruct Hpre as (e & He & _). destruct (precomputeEntry_spec e) as (p' & He' & Hu & _).
    assert (p' = p) as -> by congruence. by rewrite Hu. }
  cbn [res_bind]. rewrite appendUnsigned32_spec. cbn [res_bind]. rewrite <- !app_assoc. apply endTLV_spec.
Qed.

Lemma appendTrapOID_spec dst pre trapOID enterpriseOID varbinds : pre_of pre trapOID enterpriseOID varbinds ->
  appendTrapOID dst pre trapOID = Ok (if encodableAsOID trapOID
    then Some (dst ++ tlvPatched ASN1_SEQUENCE (encodeOID oidSnmpTrapOID0 ++ encodeOID trapOID)) else None).
Proof.
  intros Hpre. unfold appendTrapOID.
  assert (Hin : (if negb (encodableAsOID trapOID) then Ok None else let! dst := appendVarbindOIDs dst oidSnmpTrapOID0 trapOID in Ok (Some dst)) =
    Ok (if encodableAsOID trapOID then Some (dst ++ tlvPatched ASN1_SEQUENCE (encodeOID oidSnmpTrapOID0 ++ encodeOID trapOID)) else None)).
  { destruct (encodableAsOID trapOID); [by rewrite appendVarbindOIDs_spec|done]. }
  rewrite Hin. destruct pre as [p|]; [|done]. destruct Hpre as (e & He & <- & _). destruct (precomputeEntry_spec e) as (p' & He' & _ & Ht & _).
  assert (p' = p) as -> by congruence. rewrite Ht. destruct (encodableAsOID (SnmpTrapOID e)); [|done]. case_if; [done|done].
Qed.

Lemma appendEnterprise_spec dst pre trapOID enterpriseOID varbinds : pre_of pre trapOID enterpriseOID varbinds ->
  appendEnterprise dst pre enterpriseOID =
    Ok (if negb (beq enterpriseOID []) then
          if encodableAsOID enterpriseOID
          then Some (dst ++ tlvPatched ASN1_SEQUENCE (encodeOID oidSnmpTrapEnterprise0 ++ encodeOID enterpriseOID)) else None
        else Some dst).
Proof.
  intros Hpre. unfold appendEnterprise.
  assert (Hin : (if negb (encodableAsOID enterpriseOID) then Ok None else let! dst := appendVarbindOIDs dst oidSnmpTrapEnterprise0 enterpriseOID in Ok (Some dst)) =
    Ok (if encodableAsOID enterpriseOID then Some (dst ++ tlvPatched ASN1_SEQUENCE (encodeOID oidSnmpTrapEnterprise0 ++ encodeOID enterpriseOID)) else None)).
  { destruct (encodableAsOID enterpriseOID); [by rewrite appendVarbindOIDs_spec|done]. }
  rewrite Hin. destruct pre as [p|]; [|by destruct (beq enterpriseOID [])]. destruct Hpre as (e & He & _ & <- & _). destruct (precomputeEntry_spec e) as (p' & He' & _ & _ & Ht & _).
  assert (p' = p) as -> by congruence. rewrite Ht. by destruct (beq _ []), (encodableAsOID _).
Qed.

(** Closing the three open fields of a message - the bindings, the PDU, the
    envelope - gives the readable encoder's message, or one both refuse. *)
Lemma close_message maxTrapPDU i1 cm ri i0 vF vS tag : maxTrapPDU < 65536 -> agree vF vS ->
  (let! dst := endTLV ([0; 0; 0; 0] ++ i1 ++ cm ++ [0; 0; 0; 0] ++ ri ++ i0 ++ i0 ++ [0; 0; 0; 0] ++ vF)
                 (len ([0; 0; 0; 0] ++ i1 ++ cm ++ [0; 0; 0; 0] ++ ri ++ i0 ++ i0)) ASN1_SEQUENCE in
   let! dst := endTLV dst (len ([0; 0; 0; 0] ++ i1 ++ cm)) tag in
   let! dst := endTLV dst (len (@nil Z)) ASN1_SEQUENCE in
   if maxTrapPDU <? len dst then Ok None else Ok (Some dst)) =
  Ok (let m := tlv ASN1_SEQUENCE (i1 ++ cm ++ tlv tag (ri ++ i0 ++ i0 ++ tlv ASN1_SEQUENCE vS)) in
      if maxTrapPDU <? len m then None else Some m).
Proof.
  intros HM Hv. pose proof (endTLV_spec ([0; 0; 0; 0] ++ i1 ++ cm ++ [0; 0; 0; 0] ++ ri ++ i0 ++ i0) vF ASN1_SEQUENCE) as H1.
  rewrite <- !app_assoc in H1. rewrite H1. cbn [res_bind]. clear H1. apply (agree_tlv ASN1_SEQUENCE) in Hv. revert Hv.
  generalize (tlvPatched ASN1_SEQUENCE vF) (tlv ASN1_SEQUENCE vS). clear vF vS. intros vF vS Hv.
  pose proof (endTLV_spec ([0; 0; 0; 0] ++ i1 ++ cm) (ri ++ i0 ++ i0 ++ vF) tag) as H2. rewrite <- !app_assoc in H2. rewrite H2. cbn [res_bind]. clear H2.
  assert (Hp : agree (tlvPatched tag (ri ++ i0 ++ i0 ++ vF)) (tlv tag (ri ++ i0 ++ i0 ++ vS))) by auto 10. revert Hp.
  generalize (tlvPatched tag (ri ++ i0 ++ i0 ++ vF)) (tlv tag (ri ++ i0 ++ i0 ++ vS)). intros pF pS Hp.
  pose proof (endTLV_spec [] (i1 ++ cm ++ pF) ASN1_SEQUENCE) as H3. cbn [app] in H3 |- *. rewrite H3. cbn [res_bind].
  assert (Hm : agree (tlvPatched ASN1_SEQUENCE (i1 ++ cm ++ pF)) (tlv ASN1_SEQUENCE (i1 ++ cm ++ pS))) by auto 10.
  destruct Hm as [->|[??]]; [by case_if|]. replace (maxTrapPDU <? len (tlv _ _)) with true by lia. by replace (maxTrapPDU <? len _) with true by lia.
Qed.

(** ** The contract *)

(** The two encoders of SNMPv2c notifications are the same function.  For
    every tag, community, request-id, trap and enterprise identifier, uptime and
    bindings, and with or without the entry's precomputed octets, the encoder of
    the fire path never panics, and returns exactly the octets the readable
    encoder writes into a buffer of the size of the budget, or fails exactly
    when that one does.  The budget is below 64 KiB, as every datagram's is. *)
Lemma fast_encoder_spec maxTrapPDU pduTag community reqID pre trapOID enterpriseOID uptimeHundredths varbinds :
  maxTrapPDU < 65536 -> 0 <= reqID < 2 ^ 32 -> go_string community -> Forall (fun vb => go_string (vb_Value vb)) varbinds ->
  pre_of pre trapOID enterpriseOID varbinds ->
  encodeV2cNotificationFast maxTrapPDU pduTag community reqID pre trapOID enterpriseOID uptimeHundredths varbinds =
  Ok (encodeV2cNotification pduTag community reqID trapOID enterpriseOID uptimeHundredths varbinds maxTrapPDU).
Proof.
  unfold go_string, MaxInt64. intros HM Hr Hc Hg Hpre. unfold encodeV2cNotificationFast, encodeV2cNotification, encodeNotificationPDU, beginTLV.
  assert (Hi : forall v, 0 <= v < 2 ^ 32 -> int64_range v) by (unfold int64_range, MinInt64, MaxInt64; lia).
  rewrite appendInteger_spec by (apply Hi; lia). cbn [res_bind]. rewrite appendOctetString_spec by lia. cbn [res_bind].
  do 3 (rewrite appendInteger_spec by (apply Hi; lia); cbn [res_bind]). rewrite (appendUpTime_spec _ _ _ _ _ _ Hpre). cbn [res_bind].
  rewrite (appendTrapOID_spec _ _ _ _ _ Hpre). unfold or_error. cbn [res_bind]. destruct (encodableAsOID trapOID); cbn [negb]; [|done].
  rewrite (appendEnterprise_spec _ _ _ _ _ Hpre). cbn [res_bind]. unfold encodeVarbindTimeTicks, encodeVarbindOID.
  rewrite !encodeSequence_tlv. set (up := encodeOID oidSysUpTime0 ++ _). set (tr := encodeOID oidSnmpTrapOID0 ++ _). set (en := encodeOID oidSnmpTrapEnterprise0 ++ _).
  set (ents := if negb (beq enterpriseOID []) then tlv ASN1_SEQUENCE en else []).
  assert (Hent : exists entF, agree entF ents /\ forall dst,
    (if negb (beq enterpriseOID []) then if encodableAsOID enterpriseOID then Some (dst ++ tlvPatched ASN1_SEQUENCE en) else None else Some dst) =
    (if negb (beq enterpriseOID []) && negb (encodableAsOID enterpriseOID) then None else Some (dst ++ entF))).
  { unfold ents. destruct (negb _); [|exists []; split; [done|intros; by rewrite app_nil_r]].
    exists (tlvPatched ASN1_SEQUENCE en). split; [auto|]. intros. by destruct (encodableAsOID _). }
  destruct Hent as (entF & Hent & ->). destruct (negb (beq enterpriseOID []) && negb (encodableAsOID enterpriseOID)); [done|].
  match goal with |- context [appendVarbinds ?d pre 0 varbinds] =>
    destruct (wp_Ok _ _ (appendVarbinds_spec pre varbinds d 0 Hg (pre_of_slots _ _ _ _ Hpre))) as (r & -> & Hb) end. cbn [res_bind].
  destruct r as [d|], (encodeVarbinds varbinds) as [b|]; cbn [appends] in Hb; [|done..]. destruct Hb as (b' & -> & Hb).
  pose proof (agree_tlv ASN1_SEQUENCE up up (agree_refl _)) as Hup. pose proof (agree_tlv ASN1_SEQUENCE tr tr (agree_refl _)) as Htr.
  clearbody ents. revert Hup Htr. generalize (tlvPatched ASN1_SEQUENCE up) as upF, (tlv ASN1_SEQUENCE up) as upS, (tlvPatched ASN1_SEQUENCE tr) as trF, (tlv ASN1_SEQUENCE tr) as trS.
  intros upF upS trF trS Hup Htr. generalize (encodeInteger 1) as i1, (encodeOctetString community) as cm, (encodeInteger reqID) as ri, (encodeInteger 0) as i0. intros i1 cm ri i0.
  pose proof (close_message maxTrapPDU i1 cm ri i0 (upF ++ trF ++ entF ++ b') (upS ++ trS ++ ents ++ b) pduTag HM ltac:(auto 10)) as Hcl.
  rewrite <- !app_assoc. cbn [app] in Hcl |- *. etransitivity; [exact Hcl|]. done.
Qed.
