(* ===== verification/TrapCatalog.v ===== *)
(** * The trap catalog (trap_catalog.go)

    Loading an entry, rendering its templates, overlaying one catalog on
    another, disabling what no datagram can carry, and drawing an entry to fire.
    Catalogs hold pointers: a per-type catalog shares the entries of the
    universal one, and both [MergeOverlay] and the size check write through
    them, so the entries live in a heap and a catalog is a list of addresses.

    The theorems of this file show that an entry the loader accepts is one the
    encoders can emit, that on the fire path the two encoders agree on it, and
    that the draw is fair; those on overlays and on the size check are in
    [TrapOverlay]. *)

From stdpp Require Import gmap.
From S2P Require Import Prelude GoStrings Ber Oid TypedValue Request Response Trap TrapFast.

(** ** Strings *)

(** [strings.Index]: -1 when absent. *)
Fixpoint Index (s sub : bytes) : Z :=
  if HasPrefix s sub then 0 else
  match s with
  | [] => -1
  | _ :: s' => let i := Index s' sub in if i <? 0 then -1 else i + 1
  end.

(** The white space of [unicode.IsSpace], as UTF-8. *)
Definition white_space : list bytes :=
  [[9]; [10]; [11]; [12]; [13]; [32]; [0xC2; 0x85]; [0xC2; 0xA0]; [0xE1; 0x9A; 0x80]] ++
  map (fun b => [0xE2; 0x80; b]) [0x80; 0x81; 0x82; 0x83; 0x84; 0x85; 0x86; 0x87; 0x88; 0x89; 0x8A; 0xA8; 0xA9; 0xAF] ++
  [[0xE2; 0x81; 0x9F]; [0xE3; 0x80; 0x80]].

(** Remove the spaces of [ws] from the front, as long as there are any. *)
Fixpoint trim_left (fuel : nat) (ws : list bytes) (s : bytes) : bytes :=
  match fuel with
  | O => s
  | S fuel' =>
      match find (fun w => HasPrefix s w) ws with
      | Some w => trim_left fuel' ws (drop (length w) s)
      | None => s
      end
  end.
(** [strings.Trim] for a set of characters given by their encodings. *)
Definition trim_both (ws : list bytes) (s : bytes) : bytes :=
  let s := trim_left (length s) ws s in
  rev (trim_left (length s) (map (@rev Z) ws) (rev s)).
Definition TrimSpace (s : bytes) : bytes := trim_both white_space s.
(** The space the template lexer skips inside an action. *)
Definition template_space : list bytes := [[32]; [9]; [13]; [10]].

(** ** Templates *)

Definition allowedTemplateFields : list bytes :=
  [str "IfIndex"; str "IfName"; str "Uptime"; str "Now"; str "DeviceIP"; str "SysName"; str "Model"; str "Serial"; str "ChassisID"; str "NowLocal"; str "Detail"; str "IfAdminStatus"].
Definition allowed_field (f : bytes) : bool := existsb (beq f) allowedTemplateFields.

(** [true] is a [nil] error.  Every round consumes at least the four octets of
    the delimiters. *)
Fixpoint template_loop (fuel : nat) (rest : bytes) : res bool :=
  match fuel with
  | O => Diverge
  | S fuel' =>
      let open := Index rest (str "{{") in
      if open <? 0 then Ok true else
      let! tail := slice rest open (len rest) in
      let close := Index tail (str "}}") in
      if close <? 0 then Ok false else
      let! inner := slice rest (open + 2) (open + close) in
      let expr := TrimSpace inner in
      if negb (HasPrefix expr (str ".")) then Ok false else
      let field := TrimPrefix expr (str ".") in
      if existsb (fun c => Contains field [c]) (str " |(){}" ++ [9; 10]) then Ok false else
      if negb (allowed_field field) then Ok false else
      let! rest := slice rest (open + close + 2) (len rest) in
      template_loop fuel' rest
  end.
Definition validateTemplateFields (s : bytes) : res bool := template_loop (S (length s)) s.

Record TemplateCtx := {
  IfIndex : Z; IfName : bytes; Uptime : Z; Now : Z; DeviceIP : bytes; SysName : bytes; Model : bytes; Serial : bytes;
  ChassisID : bytes; NowLocal : bytes; Detail : bytes; IfAdminStatus : bytes
}.

(** [fmt.Fprint] of a field of the context. *)
Definition field_text (ctx : TemplateCtx) (f : bytes) : option bytes :=
  if beq f (str "IfIndex") then Some (Itoa (IfIndex ctx))
  else if beq f (str "IfName") then Some (IfName ctx)
  else if beq f (str "Uptime") then Some (FormatUint (Uptime ctx))
  else if beq f (str "Now") then Some (Itoa (Now ctx))
  else if beq f (str "DeviceIP") then Some (DeviceIP ctx)
  else if beq f (str "SysName") then Some (SysName ctx)
  else if beq f (str "Model") then Some (Model ctx)
  else if beq f (str "Serial") then Some (Serial ctx)
  else if beq f (str "ChassisID") then Some (ChassisID ctx)
  else if beq f (str "NowLocal") then Some (NowLocal ctx)
  else if beq f (str "Detail") then Some (Detail ctx)
  else if beq f (str "IfAdminStatus") then Some (IfAdminStatus ctx)
  else None.

(** What [text/template] does with the templates [validateTemplateFields] lets
    through: text is copied, [{{.Field}}] is replaced by the field.  A parse error
    is left only when the action holds space the template lexer does not skip. *)
Fixpoint template_segments (fuel : nat) (rest : bytes) : option (list (bytes * bytes) * bytes) :=
  match fuel with
  | O => None
  | S fuel' =>
      let open := Index rest (str "{{") in
      if open <? 0 then Some ([], rest) else
      let tail := drop (Z.to_nat open) rest in
      let close := Index tail (str "}}") in
      if close <? 2 then None else
      let expr := trim_both template_space (take (Z.to_nat (close - 2)) (drop 2 tail)) in
      if negb (HasPrefix expr (str ".") && allowed_field (TrimPrefix expr (str "."))) then None else
      match template_segments fuel' (drop (Z.to_nat (close + 2)) tail) with
      | None => None
      | Some (segs, last_) => Some ((take (Z.to_nat open) rest, TrimPrefix expr (str ".")) :: segs, last_)
      end
  end.
Definition template_parse (raw : bytes) : option (list (bytes * bytes) * bytes) := template_segments (S (length raw)) raw.

Fixpoint render_segments (ctx : TemplateCtx) (segs : list (bytes * bytes)) (last_ : bytes) : option bytes :=
  match segs with
  | [] => Some last_
  | (text, f) :: segs' =>
      match field_text ctx f, render_segments ctx segs' last_ with
      | Some v, Some rest => Some (text ++ v ++ rest)
      | _, _ => None
      end
  end.
(** [tmpl.Execute], the template given by its source. *)
Definition Execute (raw : bytes) (ctx : TemplateCtx) : option bytes :=
  match template_parse raw with None => None | Some (segs, last_) => render_segments ctx segs last_ end.

(** ** Loading an entry *)

Definition roleLinkDown : bytes := str "link-down".
Definition roleLinkUp : bytes := str "link-up".
Definition roleOpticalSDRaise : bytes := str "optical-sd-raise".
Definition roleOpticalSDClear : bytes := str "optical-sd-clear".
Definition roleOpticalSFRaise : bytes := str "optical-sf-raise".
Definition roleOpticalSFClear : bytes := str "optical-sf-clear".
Definition catalogRoles : list bytes :=
  [roleLinkDown; roleLinkUp; roleOpticalSDRaise; roleOpticalSDClear; roleOpticalSFRaise; roleOpticalSFClear].
Definition validRole (role : bytes) : bool := beq role [] || existsb (beq role) catalogRoles.

Inductive opticalCondition := opticalCondSD | opticalCondSF.
Definition opticalRoleFor (cond : opticalCondition) (raised : bool) : bytes :=
  match cond, raised with
  | opticalCondSD, true => roleOpticalSDRaise
  | opticalCondSD, false => roleOpticalSDClear
  | _, true => roleOpticalSFRaise
  | _, false => roleOpticalSFClear
  end.

Definition trapVarbindTypes : list bytes :=
  [TrapVTInteger; TrapVTOctetString; TrapVTOID; TrapVTCounter32; TrapVTGauge32; TrapVTTimeTicks; TrapVTCounter64; TrapVTIPAddress].
Definition validTrapVarbindType (t : bytes) : bool := existsb (fun v => beq v t) trapVarbindTypes.

Record trapVarbindJSON := { vj_OID : bytes; vj_Type : bytes; vj_Value : bytes }.
Record catalogEntryJSON := {
  ej_Name : bytes; ej_SnmpTrapOID : bytes; ej_SnmpTrapEnterprise : bytes; ej_Weight : Z; ej_Role : bytes; ej_Varbinds : list trapVarbindJSON
}.
Record trapCatalogJSON := { cj_Extends : option bool; cj_Traps : list catalogEntryJSON }.

Definition maxDottedOIDLen : Z := 256.

(** The validators: [true] is a [nil] error. *)
Definition validateDottedOID (oid : bytes) : bool :=
  if beq oid [] then false
  else if maxDottedOIDLen <? len oid then false
  else if HasPrefix (rev oid) (str ".") then false
  else
    let arcs := Split dot (TrimPrefix oid (str ".")) in
    if len arcs <? 2 then false
    else if negb (forallb (fun arc => negb (beq arc []) && forallb is_digit arc) arcs) then false
    else encodableAsOID oid.

Definition validateVarbindOID (raw : bytes) : bool :=
  if Contains raw (str "{{") then true else
  let norm := TrimPrefix raw (str ".") in
  if beq norm oidSysUpTime0 || beq norm oidSnmpTrapOID0 then false
  else if beq norm oidSnmpTrapEnterprise0 then false
  else validateDottedOID raw.

(** [None] is an error. *)
Fixpoint compileVarbinds (vbs : list trapVarbindJSON) : res (option (list VarbindTemplate)) :=
  match vbs with
  | [] => Ok (Some [])
  | vb :: vbs' =>
      if negb (validateVarbindOID (vj_OID vb)) then Ok None else
      if beq (vj_Type vb) [] then Ok None else
      if negb (validTrapVarbindType (vj_Type vb)) then Ok None else
      let! o := validateTemplateFields (vj_OID vb) in
      if negb o then Ok None else
      let! v := validateTemplateFields (vj_Value vb) in
      if negb v then Ok None else
      match template_parse (vj_OID vb), template_parse (vj_Value vb) with
      | Some _, Some _ =>
          let! r := compileVarbinds vbs' in
          match r with
          | None => Ok None
          | Some vts => Ok (Some ({| vt_Type := vj_Type vb; rawOID := vj_OID vb; rawValue := vj_Value vb |} :: vts))
          end
      | _, _ => Ok None
      end
  end.

(** [entry.pre = precomputeEntry(entry)]. *)
Definition with_pre (e : CatalogEntry) (p : preEncodedEntry) : CatalogEntry :=
  {| ce_Name := ce_Name e; SnmpTrapOID := SnmpTrapOID e; SnmpTrapEnterprise := SnmpTrapEnterprise e; Weight := Weight e; Role := Role e;
     Varbinds := Varbinds e; fromOverlay := fromOverlay e; oversized := oversized e; ce_pre := Some p |}.

Definition compileEntry (raw : catalogEntryJSON) : res (option CatalogEntry) :=
  if beq (ej_Name raw) [] then Ok None else
  if beq (ej_SnmpTrapOID raw) [] then Ok None else
  if negb (validateDottedOID (ej_SnmpTrapOID raw)) then Ok None else
  let weight := if ej_Weight raw =? 0 then 1 else ej_Weight raw in
  if weight <? 0 then Ok None else
  if negb (validRole (ej_Role raw)) then Ok None else
  let ent := if beq (ej_SnmpTrapEnterprise raw) [] then [] else TrimPrefix (ej_SnmpTrapEnterprise raw) (str ".") in
  if negb (beq (ej_SnmpTrapEnterprise raw) []) &&
     (negb (validateDottedOID ent) || beq ent oidSysUpTime0 || beq ent oidSnmpTrapOID0 || beq ent oidSnmpTrapEnterprise0) then Ok None else
  let! r := compileVarbinds (ej_Varbinds raw) in
  match r with
  | None => Ok None
  | Some vts =>
      let entry := {| ce_Name := ej_Name raw; SnmpTrapOID := TrimPrefix (ej_SnmpTrapOID raw) (str "."); SnmpTrapEnterprise := ent;
                      Weight := weight; Role := ej_Role raw; Varbinds := vts; fromOverlay := false; oversized := false; ce_pre := None |} in
      let! p := precomputeEntry entry in
      Ok (Some (with_pre entry p))
  end.

(** ** Rendering an entry *)

(** [fmt.Sscanf(s, "%d", &n)]: leading space but no newline, a sign, digits;
    what follows is ignored. *)
Fixpoint scan_skip_space (fuel : nat) (s : bytes) : option bytes :=
  match fuel with
  | O => Some s
  | S fuel' =>
      if HasPrefix s [10] || HasPrefix s [13; 10] then None else
      match find (fun w => HasPrefix s w) white_space with
      | Some w => scan_skip_space fuel' (drop (length w) s)
      | None => Some s
      end
  end.
Fixpoint take_digits (s : bytes) : bytes :=
  match s with [] => [] | c :: s' => if is_digit c then c :: take_digits s' else [] end.
Definition parseIntField (s : bytes) : option Z :=
  match scan_skip_space (length s) s with
  | None => None
  | Some s =>
      let '(sign, s') := match s with c :: s' => if (c =? plus) || (c =? minus) then ([c], s') else ([], s) | [] => ([], s) end in
      match take_digits s' with
      | [] => None
      | ds => match Atoi (sign ++ ds) with (n, true) => Some n | (_, false) => None end
      end
  end.

(** The context with the overrides of the request applied; [None] is an error. *)
Definition override_int (ov : gmap bytes bytes) (k : bytes) (cur : Z) (conv : Z -> Z) : option Z :=
  match ov !! k with None => Some cur | Some v => match parseIntField v with None => None | Some n => Some (conv n) end end.
Definition override_str (ov : gmap bytes bytes) (k cur : bytes) : bytes := default cur (ov !! k).
Definition applyOverrides (ctx : TemplateCtx) (ov : gmap bytes bytes) : option TemplateCtx :=
  match override_int ov (str "IfIndex") (IfIndex ctx) id with None => None | Some ifIndex =>
  match override_int ov (str "Uptime") (Uptime ctx) u32 with None => None | Some uptime =>
  match override_int ov (str "Now") (Now ctx) id with None => None | Some now =>
  if match ov !! str "IfAdminStatus" with Some v => negb (beq v (str "1")) && negb (beq v (str "2")) | None => false end then None else
  if negb (forallb (fun kv => allowed_field (fst kv)) (map_to_list ov)) then None else
  Some {| IfIndex := ifIndex; IfName := override_str ov (str "IfName") (IfName ctx); Uptime := uptime; Now := now;
          DeviceIP := override_str ov (str "DeviceIP") (DeviceIP ctx); SysName := override_str ov (str "SysName") (SysName ctx);
          Model := override_str ov (str "Model") (Model ctx); Serial := override_str ov (str "Serial") (Serial ctx);
          ChassisID := override_str ov (str "ChassisID") (ChassisID ctx); NowLocal := override_str ov (str "NowLocal") (NowLocal ctx);
          Detail := override_str ov (str "Detail") (Detail ctx); IfAdminStatus := override_str ov (str "IfAdminStatus") (IfAdminStatus ctx) |}
  end end end.

Fixpoint resolveVarbinds (ctx : TemplateCtx) (vts : list VarbindTemplate) : option (list Varbind) :=
  match vts with
  | [] => Some []
  | vt :: vts' =>
      match Execute (rawOID vt) ctx, Execute (rawValue vt) ctx with
      | Some oid, Some value =>
          match resolveVarbinds ctx vts' with
          | None => None
          | Some out => Some ({| vb_OID := oid; vb_Type := vt_Type vt; vb_Value := value |} :: out)
          end
      | _, _ => None
      end
  end.
Definition Resolve (e : CatalogEntry) (ctx : TemplateCtx) (overrides : gmap bytes bytes) : option (list Varbind) :=
  match applyOverrides ctx overrides with None => None | Some ctx => resolveVarbinds ctx (Varbinds e) end.

(** ** Catalogs *)

(** Entries by address. *)
Abbreviation heap := (list CatalogEntry).

Record Catalog := {
  Entries : list nat;
  ByName : gmap bytes nat;
  Extends : bool;
  cumulativeW : list Z;
  totalWeight : Z;
  schedEntries : list nat;
  schedCumulativeW : list Z;
  schedTotalWeight : Z
}.

Definition noEntry : CatalogEntry :=
  {| ce_Name := []; SnmpTrapOID := []; SnmpTrapEnterprise := []; Weight := 0; Role := []; Varbinds := []; fromOverlay := false; oversized := false; ce_pre := None |}.
(** [*p]: every address of a catalog is allocated. *)
Definition deref (h : heap) (p : nat) : CatalogEntry := nth p h noEntry.

Definition set_fromOverlay (e : CatalogEntry) : CatalogEntry :=
  {| ce_Name := ce_Name e; SnmpTrapOID := SnmpTrapOID e; SnmpTrapEnterprise := SnmpTrapEnterprise e; Weight := Weight e; Role := Role e;
     Varbinds := Varbinds e; fromOverlay := true; oversized := oversized e; ce_pre := ce_pre e |}.
Definition set_oversized (e : CatalogEntry) : CatalogEntry :=
  {| ce_Name := ce_Name e; SnmpTrapOID := SnmpTrapOID e; SnmpTrapEnterprise := SnmpTrapEnterprise e; Weight := Weight e; Role := Role e;
     Varbinds := Varbinds e; fromOverlay := fromOverlay e; oversized := true; ce_pre := ce_pre e |}.
(** [p.field = v]. *)
Definition store (h : heap) (p : nat) (f : CatalogEntry -> CatalogEntry) : heap := alter f p h.

(** The running sums of the weights of [es]. *)
Fixpoint running_weights (h : heap) (es : list nat) (running : Z) : list Z * Z :=
  match es with
  | [] => ([], running)
  | p :: es' =>
      let running := s64 (running + Weight (deref h p)) in
      let '(cum, total) := running_weights h es' running in (running :: cum, total)
  end.

(** What the scheduler may draw: untagged entries that fit. *)
Definition schedulable (h : heap) (p : nat) : bool := beq (Role (deref h p)) [] && negb (oversized (deref h p)).

(** The second result is whether the error is [nil]. *)
Definition recomputeWeights (h : heap) (c : Catalog) : Catalog * bool :=
  let '(cum, total) := running_weights h (Entries c) 0 in
  if total <=? 0 then
    ({| Entries := Entries c; ByName := ByName c; Extends := Extends c; cumulativeW := cum; totalWeight := total;
        schedEntries := schedEntries c; schedCumulativeW := schedCumulativeW c; schedTotalWeight := schedTotalWeight c |}, false)
  else
    let sched := List.filter (schedulable h) (Entries c) in
    let '(scum, stotal) := running_weights h sched 0 in
    ({| Entries := Entries c; ByName := ByName c; Extends := Extends c; cumulativeW := cum; totalWeight := total;
        schedEntries := sched; schedCumulativeW := scum; schedTotalWeight := stotal |}, true).

Definition newCatalog (entries : list nat) (byName : gmap bytes nat) (extends : bool) : Catalog :=
  {| Entries := entries; ByName := byName; Extends := extends; cumulativeW := []; totalWeight := 0; schedEntries := []; schedCumulativeW := []; schedTotalWeight := 0 |}.

(** The loop over the decoded entries: the new heap, the addresses and the
    names; [None] is an error. *)
Fixpoint parseEntries (raws : list catalogEntryJSON) (h : heap) (entries : list nat) (byName : gmap bytes nat) : res (option (heap * list nat * gmap bytes nat)) :=
  match raws with
  | [] => Ok (Some (h, entries, byName))
  | raw :: raws' =>
      let! r := compileEntry raw in
      match r with
      | None => Ok None
      | Some e =>
          match byName !! ce_Name e with
          | Some _ => Ok None
          | None => parseEntries raws' (h ++ [e]) (entries ++ [length h]) (<[ce_Name e := length h]> byName)
          end
      end
  end.

(** [parseCatalog], from the decoded document. *)
Definition parseCatalog (h : heap) (doc : trapCatalogJSON) : res (option (heap * Catalog)) :=
  match cj_Traps doc with
  | [] => Ok None
  | _ =>
      let! r := parseEntries (cj_Traps doc) h [] ∅ in
      match r with
      | None => Ok None
      | Some (h, entries, byName) =>
          let '(c, ok) := recomputeWeights h (newCatalog entries byName (default true (cj_Extends doc))) in
          if negb ok then Ok None else Ok (Some (h, c))
      end
  end.

(** Entries a state transition fires: those of the overlay, if there are any.  A
    [nil] catalog is [None]. *)
Definition EntriesByRole (h : heap) (c : option Catalog) (role : bytes) : list nat :=
  match c with
  | None => []
  | Some c =>
      if beq role [] then [] else
      let own := List.filter (fun p => beq (Role (deref h p)) role && negb (oversized (deref h p))) (Entries c) in
      let overlay := List.filter (fun p => fromOverlay (deref h p)) own in
      let base := List.filter (fun p => negb (fromOverlay (deref h p))) own in
      if 0 <? len overlay then overlay else base
  end.

(** The linear scan of [Pick]: the index of the first cumulative weight above
    the draw. *)
Fixpoint pick_scan (r : Z) (cums : list Z) (i : Z) : option Z :=
  match cums with
  | [] => None
  | cum :: cums' => if r <? cum then Some i else pick_scan r cums' (i + 1)
  end.
(** [r] is the result of [rnd.Intn(c.schedTotalWeight)]. *)
Definition Pick (c : option Catalog) (r : Z) : res (option nat) :=
  match c with
  | None => Ok None
  | Some c =>
      if schedTotalWeight c <=? 0 then Ok None else
      let i := match pick_scan r (schedCumulativeW c) 0 with Some i => i | None => len (schedEntries c) - 1 end in
      let! p := index (schedEntries c) i in Ok (Some p)
  end.

(** *** Overlays *)

Fixpoint merge_base (h : heap) (overlayNames : gmap bytes nat) (es : list nat) (entries : list nat) (byName : gmap bytes nat) : heap * list nat * gmap bytes nat :=
  match es with
  | [] => (h, entries, byName)
  | p :: es' =>
      match overlayNames !! ce_Name (deref h p) with
      | Some q =>
          let h := store h q set_fromOverlay in
          merge_base h overlayNames es' (entries ++ [q]) (<[ce_Name (deref h q) := q]> byName)
      | None => merge_base h overlayNames es' (entries ++ [p]) (<[ce_Name (deref h p) := p]> byName)
      end
  end.
Fixpoint merge_rest (h : heap) (es : list nat) (entries : list nat) (byName : gmap bytes nat) : heap * list nat * gmap bytes nat :=
  match es with
  | [] => (h, entries, byName)
  | p :: es' =>
      match byName !! ce_Name (deref h p) with
      | Some _ => merge_rest h es' entries byName
      | None =>
          let h := store h p set_fromOverlay in
          merge_rest h es' (entries ++ [p]) (<[ce_Name (deref h p) := p]> byName)
      end
  end.

(** A failure of [recomputeWeights] is logged and the catalog kept. *)
Definition MergeOverlay (h : heap) (c overlay : option Catalog) : heap * option Catalog :=
  match c with
  | None => (h, overlay)
  | Some c =>
      match overlay with
      | Some ov =>
          if len (Entries ov) =? 0 then
            (h, Some (fst (recomputeWeights h (newCatalog (Entries c) (fold_left (fun m p => <[ce_Name (deref h p) := p]> m) (Entries c) ∅) true))))
          else
            let '(h, entries, byName) := merge_base h (ByName ov) (Entries c) [] ∅ in
            let '(h, entries, byName) := merge_rest h (Entries ov) entries byName in
            (h, Some (fst (recomputeWeights h (newCatalog entries byName true))))
      | None => (h, Some (fst (recomputeWeights h (newCatalog (Entries c) (fold_left (fun m p => <[ce_Name (deref h p) := p]> m) (Entries c) ∅) true))))
      end
  end.

(** *** The datagram budget *)

Definition worstCaseDetail : bytes := str " (OSNR -999.99 dB)".
Definition dryRenderCommunity : bytes := str "public".
(** [now] is [time.Now().Unix()]. *)
Definition worstCaseCtx (now : Z) : TemplateCtx :=
  {| IfIndex := 2147483647; IfName := str "GigabitEthernet0/2147483647"; Uptime := 4294967295; Now := now; DeviceIP := str "255.255.255.255";
     SysName := str "device-with-a-fairly-long-system-name-0000"; Model := str "Ciena Waveserver 5"; Serial := str "SNffffffff";
     ChassisID := str "02:42:ff:ff:ff:ff"; NowLocal := str "2026-12-31 23:59:59"; Detail := worstCaseDetail; IfAdminStatus := str "2" |}.

(** A sizer: the encoded length of a rendered entry, [None] an encoder error. *)
Definition notificationSizer := CatalogEntry -> list Varbind -> Z -> option Z.

(** Through the encoder of the fire path, with its own guard. *)
Definition v2cDryRenderSizer (maxTrapPDU : Z) : notificationSizer := fun e vbs uptime =>
  match encodeV2cNotificationFast maxTrapPDU ASN1_TRAP_V2C dryRenderCommunity 4294967295 (ce_pre e) (SnmpTrapOID e) (SnmpTrapEnterprise e) uptime vbs with
  | Ok (Some pdu) => Some (len pdu)
  | _ => None
  end.

(** Whether the entry must be disabled; an entry whose templates do not render
    is left alone. *)
Definition exceeds (budget : Z) (now : Z) (size : notificationSizer) (e : CatalogEntry) : bool :=
  match Resolve e (worstCaseCtx now) ∅ with
  | None => false
  | Some vbs => match size e vbs (Uptime (worstCaseCtx now)) with Some n => negb (n <=? budget) | None => true end
  end.

(** The number of entries disabled is the length of the list of messages. *)
Fixpoint budget_loop (h : heap) (budget now : Z) (size : notificationSizer) (es : list nat) (disabled : Z) : heap * Z :=
  match es with
  | [] => (h, disabled)
  | p :: es' =>
      if exceeds budget now size (deref h p) then budget_loop (store h p set_oversized) budget now size es' (disabled + 1)
      else budget_loop h budget now size es' disabled
  end.
Definition ApplySizeBudgetWith (h : heap) (c : Catalog) (budget now : Z) (size : notificationSizer) : heap * Catalog * Z :=
  if budget <=? 0 then (h, c, 0) else
  let '(h, disabled) := budget_loop h budget now size (Entries c) 0 in
  (h, if 0 <? disabled then fst (recomputeWeights h c) else c, disabled).

(** The loop of [StartTrapSubsystem] over the catalogs, in the order a map
    iteration gives, each with the time of its call. *)
Fixpoint budgetCatalogs (h : heap) (cs : list (Catalog * Z)) (budget : Z) (size : notificationSizer) : heap * list Catalog :=
  match cs with
  | [] => (h, [])
  | (c, now) :: cs' =>
      let '(h, c, _) := ApplySizeBudgetWith h c budget now size in
      let '(h, cs) := budgetCatalogs h cs' budget size in (h, c :: cs)
  end.

(** ** Templates: a literal renders to itself, a loaded template always renders *)

Lemma Contains_Index s sub : Contains s sub = (0 <=? Index s sub).
Proof.
  induction s as [|c s IH]; cbn [Contains Index]; destruct (HasPrefix _ sub) eqn:E; cbn [orb]; try done.
  rewrite IH. destruct (Index s sub <? 0) eqn:E'; lia.
Qed.

Lemma Execute_literal raw ctx : isTemplated raw = false -> Execute raw ctx = Some raw.
Proof.
  unfold isTemplated, Execute, template_parse. rewrite Contains_Index. intros Ht. cbn [template_segments].
  by replace (Index raw (str "{{") <? 0) with true by lia.
Qed.

Lemma field_text_allowed ctx f : allowed_field f = true -> exists v, field_text ctx f = Some v.
Proof.
  unfold allowed_field, allowedTemplateFields, field_text. cbn [existsb]. intros H.
  repeat (apply orb_true_iff in H; destruct H as [H|H]; [rewrite H; repeat case_if; by eauto|]). done.
Qed.

Lemma template_segments_allowed fuel : forall rest segs last_, template_segments fuel rest = Some (segs, last_) ->
  Forall (fun '(_, f) => allowed_field f = true) segs.
Proof.
  induction fuel as [|fuel IH]; intros rest segs last_ H; cbn [template_segments] in H; [done|].
  destruct (Index rest _ <? 0); [by simplify_eq|]. destruct (_ <? 2); [done|]. destruct (negb _) eqn:E; [done|]. zbool.
  destruct (template_segments fuel _) as [[segs' last']|] eqn:E'; [|done]. simplify_eq. constructor; [done|]. by eapply IH.
Qed.

Lemma Execute_parsed raw ctx : template_parse raw <> None -> exists out, Execute raw ctx = Some out.
Proof.
  unfold Execute, template_parse. destruct (template_segments _ raw) as [[segs last_]|] eqn:E; [|done]. intros _.
  apply template_segments_allowed in E. induction E as [|[text f] segs Hf _ [out IH]]; cbn [render_segments]; [by eauto|].
  destruct (field_text_allowed ctx f Hf) as [v ->]. rewrite IH. by eauto.
Qed.

(** ** Loaded entries can be emitted *)

(** The loader's checks never panic and always finish. *)
Lemma Index_range s sub : -1 <= Index s sub /\ (0 <= Index s sub -> Index s sub + len sub <= len s).
Proof.
  induction s as [|c s IH]; cbn [Index]; destruct (HasPrefix _ sub) eqn:E.
  - apply HasPrefix_true in E as [r ->]. rewrite len_app. pose proof (len_nonneg r). lia.
  - lia.
  - apply HasPrefix_true in E as [r ->]. rewrite len_app. pose proof (len_nonneg r). lia.
  - rewrite len_cons. case_if; lia.
Qed.

(** A string that starts with the opening delimiter closes after it. *)
Lemma Index_after_open s : HasPrefix s (str "{{") = true -> Index s (str "}}") < 0 \/ 2 <= Index s (str "}}").
Proof.
  intros H. apply HasPrefix_true in H as [r ->]. pose proof (proj1 (Index_range r (str "}}"))) as Hr.
  change (str "{{" ++ r) with (123 :: 123 :: r). cbn [Index].
  assert (Hp : forall l, HasPrefix (123 :: l) (str "}}") = false) by (intros [|]; reflexivity). rewrite !Hp. cbn zeta. repeat case_if; lia.
Qed.

Lemma Index_drop s sub : 0 <= Index s sub -> HasPrefix (drop (Z.to_nat (Index s sub)) s) sub = true.
Proof.
  induction s as [|c s IH]; cbn [Index].
  { destruct (HasPrefix [] sub) eqn:E; [done|lia]. }
  destruct (HasPrefix (c :: s) sub) eqn:E; [done|]. cbn zeta. destruct (Index s sub <? 0) eqn:E'; [lia|]. zbool. intros _.
  replace (Z.to_nat (Index s sub + 1)) with (S (Z.to_nat (Index s sub))) by lia. cbn [drop]. by apply IH.
Qed.

Lemma template_loop_safe fuel : forall rest, (length rest < fuel)%nat -> safe (template_loop fuel rest).
Proof.
  induction fuel as [|fuel IH]; intros rest Hf; [lia|]. unfold safe. cbn [template_loop]. destruct (Index_range rest (str "{{")) as [Ho Ho'].
  wp_step; [done|]. wp_step. wp_step. rewrite firstn_all2 by (rewrite length_drop; unfold len; lia).
  pose proof (Index_drop rest (str "{{") ltac:(lia)) as Hd. pose proof (Index_after_open _ Hd) as Hc. set (tail := drop _ rest) in *.
  destruct (Index_range tail (str "}}")) as [_ Hc']. change (len (str "}}")) with 2 in *. change (len (str "{{")) with 2 in *.
  assert (Hlt : len tail = len rest - Index rest (str "{{")) by (unfold tail; rewrite len_drop; lia).
  wp_step; [done|]. wp_step. wp_step. wp_step; [done|]. wp_step; [done|]. wp_step; [done|]. wp_step. wp_step.
  apply IH. rewrite length_take, length_drop. unfold len in *. lia.
Qed.

(** What the loader establishes of an entry. *)
Definition varbind_wf (vt : VarbindTemplate) : Prop :=
  validTrapVarbindType (vt_Type vt) = true /\ (isTemplated (rawOID vt) = false -> encodableAsOID (rawOID vt) = true) /\
  template_parse (rawOID vt) <> None /\ template_parse (rawValue vt) <> None.
Definition entry_wf (e : CatalogEntry) : Prop :=
  ce_Name e <> [] /\ encodableAsOID (SnmpTrapOID e) = true /\ (SnmpTrapEnterprise e <> [] -> encodableAsOID (SnmpTrapEnterprise e) = true) /\
  1 <= Weight e /\ validRole (Role e) = true /\ Forall varbind_wf (Varbinds e) /\
  exists p, ce_pre e = Some p /\ precomputeEntry e = Ok p.

(** A leading dot is only a spelling: what is stored is as encodable as what
    was checked. *)
Lemma validated_trim oid : validateDottedOID oid = true ->
  encodableAsOID oid = true /\ TrimPrefix (TrimPrefix oid (str ".")) (str ".") = TrimPrefix oid (str ".").
Proof.
  unfold validateDottedOID. case_if; [done|]. case_if; [done|]. case_if; [done|]. case_if; [done|]. destruct (negb _) eqn:Ea; [done|]. zbool.
  intros He. split; [done|]. destruct (TrimPrefix oid (str ".")) as [|c s]; [done|]. cbn [Split] in *.
  unfold TrimPrefix at 1. destruct (HasPrefix (c :: s) (str ".")) eqn:Ep; [|done]. apply HasPrefix_true in Ep as [r Hr]. injection Hr as -> ->. done.
Qed.

Lemma encodable_trim oid : validateDottedOID oid = true -> encodableAsOID (TrimPrefix oid (str ".")) = true.
Proof. intros H. destruct (validated_trim oid H) as [He Ht]. unfold encodableAsOID, encodeOID in *. by rewrite Ht. Qed.

Lemma compileVarbinds_wp vbs : wp (compileVarbinds vbs) (fun r => match r with Some vts => Forall varbind_wf vts | None => True end).
Proof.
  induction vbs as [|vb vbs IH]; cbn [compileVarbinds]; [constructor|].
  wp_step; [done|]. wp_step; [done|]. wp_step; [done|].
  wp_step. eapply wp_mono; [apply template_loop_safe; lia|]. intros o _. wp_step; [done|].
  wp_step. eapply wp_mono; [apply template_loop_safe; lia|]. intros v _. wp_step; [done|].
  destruct (template_parse (vj_OID vb)) eqn:Eo; [|done]. destruct (template_parse (vj_Value vb)) eqn:Ev; [|done].
  wp_step. eapply wp_mono; [exact IH|]. intros [vts|] Hv; [|done]. constructor; [|done]. split_and!; cbn [vt_Type rawOID rawValue]; [done| |congruence|congruence].
  unfold isTemplated. intros Ht. match goal with H : validateVarbindOID _ = true |- _ => revert H end. unfold validateVarbindOID. rewrite Ht. cbn zeta.
  case_if; [done|]. case_if; [done|]. intros Hd. by apply validated_trim in Hd as [? _].
Qed.

Lemma compileEntry_wp raw : wp (compileEntry raw) (fun r => match r with Some e => entry_wf e | None => True end).
Proof.
  unfold compileEntry. wp_step; [done|]. wp_step; [done|]. wp_step; [done|]. cbv zeta. wp_step; [done|]. wp_step; [done|].
  set (ent := if beq (ej_SnmpTrapEnterprise raw) [] then [] else _). wp_step; [done|].
  wp_step. eapply wp_mono; [apply compileVarbinds_wp|]. intros [vts|] Hv; [|done]. wp_step.
  match goal with |- wp (precomputeEntry ?e) _ => destruct (precomputeEntry_spec e) as (p & Hp & _) end. rewrite Hp. cbn [wp].
  split_and!; cbn [with_pre ce_Name SnmpTrapOID SnmpTrapEnterprise Weight Role Varbinds ce_pre].
  - intros Hn. by rewrite Hn in E.
  - by apply encodable_trim.
  - unfold ent in *. destruct (beq (ej_SnmpTrapEnterprise raw) []); [done|]. cbn [negb andb] in E4. zbool. intros _. by apply validated_trim.
  - revert E2. case_if; lia.
  - done.
  - done.
  - exists p. split; [done|]. by rewrite <- Hp.
Qed.

(** ** Rendering a loaded entry *)

Lemma resolveVarbinds_total ctx vts : Forall varbind_wf vts -> exists vbs, resolveVarbinds ctx vts = Some vbs.
Proof.
  induction 1 as [|vt vts (_ & _ & Ho & Hv) _ [vbs IH]]; cbn [resolveVarbinds]; [by eauto|].
  destruct (Execute_parsed _ ctx Ho) as [o ->]. destruct (Execute_parsed _ ctx Hv) as [v ->]. rewrite IH. by eauto.
Qed.

Lemma resolveVarbinds_literals ctx vts : forall vbs, resolveVarbinds ctx vts = Some vbs -> literals_render vts vbs.
Proof.
  induction vts as [|vt vts IH]; intros vbs Hr; cbn [resolveVarbinds] in Hr; [by simplify_eq|].
  destruct (Execute (rawOID vt) ctx) as [o|] eqn:Eo; [|done]. destruct (Execute (rawValue vt) ctx); [|done].
  destruct (resolveVarbinds ctx vts) as [out|] eqn:Er; [|done]. simplify_eq. intros [|i] vt' vb Hvt Hvb Ht.
  - cbn in Hvt, Hvb. simplify_eq. cbn. rewrite Execute_literal in Eo by done. by simplify_eq.
  - by eapply (IH out).
Qed.

(** No override at all leaves the context alone. *)
Lemma Resolve_no_overrides e ctx : Resolve e ctx ∅ = resolveVarbinds ctx (Varbinds e).
Proof. unfold Resolve. destruct ctx. reflexivity. Qed.

Lemma Resolve_literals e ctx ov vbs : Resolve e ctx ov = Some vbs -> literals_render (Varbinds e) vbs.
Proof. unfold Resolve. destruct (applyOverrides ctx ov); [|done]. apply resolveVarbinds_literals. Qed.

Lemma entry_wf_pre_of e ctx ov vbs : entry_wf e -> Resolve e ctx ov = Some vbs -> pre_of (ce_pre e) (SnmpTrapOID e) (SnmpTrapEnterprise e) vbs.
Proof.
  intros (_ & _ & _ & _ & _ & _ & p & Hp & Hpre) Hr. rewrite Hp. exists e. split_and!; [done..|]. by eapply Resolve_literals.
Qed.

(** ** The draw *)

Definition weights (h : heap) (es : list nat) : list Z := map (fun p => Weight (deref h p)) es.
Definition sum_weights (h : heap) (es : list nat) : Z := fold_right Z.add 0 (weights h es).

(** The running sums of positive weights, when the total fits an [int]. *)
Fixpoint prefix_sums (b : Z) (ws : list Z) : list Z :=
  match ws with [] => [] | w :: ws' => (b + w) :: prefix_sums (b + w) ws' end.

Lemma running_weights_spec h es : forall b, 0 <= b -> Forall (fun w => 1 <= w) (weights h es) -> b + sum_weights h es <= MaxInt64 ->
  running_weights h es b = (prefix_sums b (weights h es), b + sum_weights h es).
Proof.
  unfold sum_weights. induction es as [|p es IH]; intros b Hb Hw Hs; cbn [running_weights weights map prefix_sums fold_right] in *; [by rewrite Z.add_0_r|].
  inversion_clear Hw as [|? ? Hp Hw']. fold (weights h es) in *.
  assert (Hn : 0 <= fold_right Z.add 0 (weights h es)) by (clear -Hw'; induction Hw'; cbn [fold_right]; lia).
  rewrite s64_small by (unfold int64_range, MinInt64, MaxInt64 in *; lia). rewrite IH by (done || lia). f_equal. lia.
Qed.

(** Which entry the scan ends at, on a suffix of the catalog whose weights start
    at [b]. *)
Fixpoint pick_entry (r b : Z) (es : list nat) (ws : list Z) : option nat :=
  match es, ws with
  | p :: es', w :: ws' => if r <? b + w then Some p else pick_entry r (b + w) es' ws'
  | _, _ => None
  end.

Lemma pick_scan_entry r es : forall ws b before, length es = length ws -> b <= r < b + fold_right Z.add 0 ws ->
  exists i p, pick_scan r (prefix_sums b ws) (len before) = Some i /\ index (before ++ es) i = Ok p /\ pick_entry r b es ws = Some p.
Proof.
  induction es as [|p es IH]; intros [|w ws] b before Hl Hr; try done; cbn [pick_entry prefix_sums pick_scan fold_right] in *; [lia|].
  case_if; [exists (len before), p; split_and!; [done|apply index_app_here|done]|].
  destruct (IH ws (b + w) (before ++ [p])) as (i & q & Hs & Hi & Hp); [by injection Hl|lia|].
  exists i, q. rewrite len_app in Hs. rewrite <- app_assoc in Hi. split_and!; done.
Qed.

Lemma filter_none {A} (f : A -> bool) l : (forall x, In x l -> f x = false) -> List.filter f l = [].
Proof. induction l as [|x l IH]; intros Hf; cbn [List.filter]; [done|]. rewrite Hf by (by left). apply IH. intros y Hy. apply Hf. by right. Qed.
Lemma filter_all {A} (f : A -> bool) l : (forall x, In x l -> f x = true) -> List.filter f l = l.
Proof. induction l as [|x l IH]; intros Hf; cbn [List.filter]; [done|]. rewrite Hf by (by left). f_equal. apply IH. intros y Hy. apply Hf. by right. Qed.

Definition drawn (b : Z) (es : list nat) (ws : list Z) (p : nat) (r : nat) : bool :=
  match pick_entry (Z.of_nat r) b es ws with Some q => Nat.eqb q p | None => false end.

Lemma pick_entry_in r es : forall b ws p, pick_entry r b es ws = Some p -> p ∈ es.
Proof.
  induction es as [|q es IH]; intros b [|w ws] p Hp; cbn [pick_entry] in Hp; try done. revert Hp. case_if; intros Hp; [simplify_eq; left|right; by eapply IH].
Qed.

(** An entry is drawn by as many values of the die as its weight. *)
Lemma drawn_count es : forall ws b i p w, NoDup es -> length es = length ws -> Forall (fun w => 1 <= w) ws -> 0 <= b ->
  es !! i = Some p -> ws !! i = Some w ->
  len (List.filter (drawn b es ws p) (seq (Z.to_nat b) (Z.to_nat (fold_right Z.add 0 ws)))) = w.
Proof.
  induction es as [|q es IH]; intros [|w0 ws] b i p w Hnd Hl Hw Hb Hp Hwi; try done. cbn [fold_right].
  inversion_clear Hw as [|? ? Hw0 Hw']. inversion_clear Hnd as [|? ? Hq Hnd'].
  assert (Hn : 0 <= fold_right Z.add 0 ws) by (clear -Hw'; induction Hw'; cbn [fold_right]; lia).
  rewrite Z2Nat.inj_add, seq_app, List.filter_app, len_app by lia. replace (Z.to_nat b + Z.to_nat w0)%nat with (Z.to_nat (b + w0)) by lia.
  assert (Hfst : forall r, In r (seq (Z.to_nat b) (Z.to_nat w0)) -> drawn b (q :: es) (w0 :: ws) p r = Nat.eqb q p).
  { intros r Hr. apply in_seq in Hr. unfold drawn. cbn [pick_entry]. case_if; [done|lia]. }
  assert (Hsnd : forall r, In r (seq (Z.to_nat (b + w0)) (Z.to_nat (fold_right Z.add 0 ws))) ->
    drawn b (q :: es) (w0 :: ws) p r = drawn (b + w0) es ws p r).
  { intros r Hr. apply in_seq in Hr. unfold drawn. cbn [pick_entry]. case_if; [lia|done]. }
  rewrite (List.filter_ext_in _ _ _ Hsnd). destruct i as [|i]; cbn in Hp, Hwi; simplify_eq.
  - rewrite filter_all by (intros r Hr; rewrite Hfst by done; apply Nat.eqb_refl). rewrite filter_none.
    + unfold len. rewrite length_seq. cbn [length]. lia.
    + intros r Hr. unfold drawn. destruct (pick_entry _ _ _ _) as [q|] eqn:E; [|done]. apply pick_entry_in in E.
      apply Nat.eqb_neq. intros ->. done.
  - rewrite (IH ws (b + w0) i p w) by (done || lia). rewrite filter_none; [done|]. intros r Hr. rewrite Hfst by done. apply Nat.eqb_neq. intros ->. by eapply Hq, list_elem_of_lookup_2.
Qed.

(** The values of the die that draw [p]. *)
Definition draws (c : Catalog) (p : nat) : Z :=
  len (List.filter (fun r => match Pick (Some c) (Z.of_nat r) with Ok (Some q) => Nat.eqb q p | _ => false end) (seq 0 (Z.to_nat (schedTotalWeight c)))).

Lemma weights_sub h f es : Forall (fun w => 1 <= w) (weights h es) ->
  Forall (fun w => 1 <= w) (weights h (List.filter f es)) /\ 0 <= sum_weights h (List.filter f es) <= sum_weights h es.
Proof.
  unfold sum_weights. induction es as [|p es IH]; intros Hw; cbn [weights map List.filter fold_right] in *; [done|]. inversion_clear Hw as [|? ? Hp Hw'].
  fold (weights h es) in *. destruct (IH Hw') as [IH1 IH2]. destruct (f p); cbn [weights map fold_right]; fold (weights h (List.filter f es)); [|split; [done|lia]].
  split; [by constructor|lia].
Qed.

(** C31: the draw is fair and safe.  After the weights of a catalog with distinct
    entries of positive weight are recomputed, the scheduler's list is the
    untagged entries that fit; every value the die can show picks one of them,
    without an index error; and each is picked by exactly as many values of the
    die as its weight, so its probability is its share of the total. *)
Theorem pick_fair h c0 c :
  recomputeWeights h c0 = (c, true) -> NoDup (Entries c0) -> Forall (fun w => 1 <= w) (weights h (Entries c0)) ->
  sum_weights h (Entries c0) <= MaxInt64 ->
  (forall r, 0 <= r < schedTotalWeight c -> exists p, Pick (Some c) r = Ok (Some p) /\ p ∈ Entries c0 /\ schedulable h p = true) /\
  (forall p, p ∈ Entries c0 -> schedulable h p = true -> draws c p = Weight (deref h p)).
Proof.
  intros Hrec Hnd Hw Hs. unfold recomputeWeights in Hrec. rewrite running_weights_spec in Hrec by (done || lia).
  destruct (_ <=? 0); [done|]. destruct (weights_sub h (schedulable h) (Entries c0) Hw) as [Hw' Hs'].
  rewrite running_weights_spec in Hrec by (done || lia). simplify_eq. set (es := List.filter (schedulable h) (Entries c0)) in *.
  assert (Hin : forall p, p ∈ es <-> p ∈ Entries c0 /\ schedulable h p = true) by (intros p; unfold es; rewrite !list_elem_of_In, List.filter_In; done).
  assert (Hpick : forall r, 0 <= r < sum_weights h es -> exists p, pick_entry r 0 es (weights h es) = Some p /\
    forall c, schedEntries c = es -> schedCumulativeW c = prefix_sums 0 (weights h es) -> schedTotalWeight c = sum_weights h es -> Pick (Some c) r = Ok (Some p)).
  { intros r Hr. destruct (pick_scan_entry r es (weights h es) 0 []) as (i & p & Hsc & Hi & Hp); [by unfold weights; rewrite List.length_map|done|].
    exists p. split; [done|]. intros c He Hcu Ht. unfold Pick. rewrite He, Hcu, Ht. change (len []) with 0 in Hsc. rewrite Hsc. cbn [app] in Hi. rewrite Hi. case_if; [lia|done]. }
  split.
  - intros r Hr. destruct (Hpick r Hr) as (p & Hp & Hc). exists p. split; [by apply Hc|]. apply Hin. by eapply pick_entry_in.
  - intros p Hp Hsch. assert (Hpe : p ∈ es) by (by apply Hin). apply list_elem_of_lookup in Hpe as [i Hi]. unfold draws.
    rewrite <- (drawn_count es (weights h es) 0 i p (Weight (deref h p))).
    + f_equal. apply List.filter_ext_in. intros r Hr. apply in_seq in Hr. fold (sum_weights h es) in Hr.
 destruct (Hpick (Z.of_nat r)) as (q & Hq & Hc); [lia|].
      rewrite Hc by done. unfold drawn. by rewrite Hq.
    + unfold es. rewrite base.NoDup_ListNoDup in *. by apply List.NoDup_filter.
    + unfold weights. by rewrite List.length_map.
    + done.
    + done.
    + done.
    + unfold weights. by rewrite lookup_map, Hi.
Qed.

(** ** Theorems *)

(** C32: an entry the loader accepts is one a device can send.  Loading never
    panics; the identity and the enterprise of an accepted entry, and every
    literal binding name, are identifiers the encoder can represent; its
    templates render in every context; and, rendered, it encodes to a
    notification unless one of its rendered bindings is refused. *)
Theorem catalog_entry_emittable raw e :
  compileEntry raw = Ok (Some e) ->
  entry_wf e /\
  (forall ctx, exists vbs, Resolve e ctx ∅ = Some vbs /\
     forall pduTag reqID uptime, encodeVarbinds vbs <> None ->
       encodeNotificationPDU pduTag reqID (SnmpTrapOID e) (SnmpTrapEnterprise e) uptime vbs <> None) /\
  (forall raw', safe (compileEntry raw')).
Proof.
  intros Hc. pose proof (compileEntry_wp raw) as Hwf. rewrite Hc in Hwf. cbn [wp] in Hwf. split_and!; [done| |intros raw'; eapply wp_safe, compileEntry_wp].
  intros ctx. destruct Hwf as (_ & Ht & Hent & _ & _ & Hv & _). rewrite Resolve_no_overrides. destruct (resolveVarbinds_total ctx _ Hv) as [vbs ->]. exists vbs. split; [done|].
  intros pduTag reqID uptime Hb. unfold encodeNotificationPDU. rewrite Ht. cbn [negb]. destruct (encodeVarbinds vbs); [|done].
  destruct (beq (SnmpTrapEnterprise e) []) eqn:Eb; cbn [negb andb]; [done|]. rewrite Hent; [done|]. intros Hn. by rewrite Hn in Eb.
Qed.

(** C19: on the fire path the two encoders of an SNMPv2c notification are the same
    function.  For every entry the loader accepts, however it is rendered, with
    or without its precomputed octets, the in-place encoder never panics, and
    returns exactly the octets the readable encoder writes into a buffer of the
    size of the budget, or fails exactly when that one does. *)
Theorem fire_encoders_agree raw e ctx overrides vbs maxTrapPDU pduTag community reqID uptime pre :
  compileEntry raw = Ok (Some e) -> Resolve e ctx overrides = Some vbs ->
  maxTrapPDU < 65536 -> 0 <= reqID < 2 ^ 32 -> go_string community -> Forall (fun vb => go_string (vb_Value vb)) vbs ->
  pre = None \/ pre = ce_pre e ->
  encodeV2cNotificationFast maxTrapPDU pduTag community reqID pre (SnmpTrapOID e) (SnmpTrapEnterprise e) uptime vbs =
  Ok (encodeV2cNotification pduTag community reqID (SnmpTrapOID e) (SnmpTrapEnterprise e) uptime vbs maxTrapPDU).
Proof.
  intros Hc Hr HM Hid Hcom Hg Hpre. pose proof (compileEntry_wp raw) as Hwf. rewrite Hc in Hwf. apply fast_encoder_spec; try done.
  destruct Hpre as [->| ->]; [done|]. by eapply entry_wf_pre_of.
Qed.

(** ** Sample catalogs *)

Definition vbj (oid type value : bytes) : trapVarbindJSON := {| vj_OID := oid; vj_Type := type; vj_Value := value |}.
Definition sampleLinkDown : catalogEntryJSON :=
  {| ej_Name := str "linkDown"; ej_SnmpTrapOID := str ".1.3.6.1.6.3.1.1.5.3"; ej_SnmpTrapEnterprise := str "1.3.6.1.4.1.9.1.1208"; ej_Weight := 0; ej_Role := roleLinkDown;
     ej_Varbinds := [vbj (str "1.3.6.1.2.1.2.2.1.1.{{.IfIndex}}") TrapVTInteger (str "{{ .IfIndex }}");
                     vbj (str "1.3.6.1.2.1.1.5.0") TrapVTOctetString (str "{{.SysName}} ({{.DeviceIP}})")] |}.
Definition plainEntry (name trapOID : bytes) (weight : Z) (value : bytes) : catalogEntryJSON :=
  {| ej_Name := name; ej_SnmpTrapOID := trapOID; ej_SnmpTrapEnterprise := []; ej_Weight := weight; ej_Role := [];
     ej_Varbinds := [vbj (str "1.3.6.1.2.1.1.5.0") TrapVTOctetString value] |}.
Definition universalDoc : trapCatalogJSON :=
  {| cj_Extends := None; cj_Traps := [sampleLinkDown; plainEntry (str "coldStart") (str "1.3.6.1.6.3.1.1.5.1") 3 (str "up"); plainEntry (str "authFailure") (str "1.3.6.1.6.3.1.1.5.5") 1 (str "no")] |}.
Definition sampleCtx : TemplateCtx :=
  {| IfIndex := 7; IfName := str "Gi0/7"; Uptime := 100; Now := 0; DeviceIP := str "10.0.0.1"; SysName := str "core-1"; Model := []; Serial := [];
     ChassisID := []; NowLocal := []; Detail := []; IfAdminStatus := str "1" |}.
Definition from_ok {A} (d : A) (r : res (option A)) : A := match r with Ok (Some a) => a | _ => d end.
Definition emptyCatalog : Catalog := newCatalog [] ∅ true.
Definition sampleEntry : CatalogEntry := from_ok noEntry (compileEntry sampleLinkDown).
Definition universal : heap * Catalog := from_ok ([], emptyCatalog) (parseCatalog [] universalDoc).
Lemma sampleEntry_compiles : compileEntry sampleLinkDown = Ok (Some sampleEntry).
Proof. vm_compute. reflexivity. Qed.
Lemma universal_parses : parseCatalog [] universalDoc = Ok (Some (fst universal, snd universal)).
Proof. vm_compute. reflexivity. Qed.
Lemma catalog_entry_emittable_witness :
  entry_wf sampleEntry /\ exists vbs, Resolve sampleEntry sampleCtx ∅ = Some vbs.
Proof.
  destruct (catalog_entry_emittable sampleLinkDown sampleEntry sampleEntry_compiles) as (Hwf & Hr & _). split; [exact Hwf|].
  destruct (Hr sampleCtx) as (vbs & Hv & _). exists vbs. exact Hv.
Defined.

Definition sampleRendered : list Varbind :=
  [{| vb_OID := str "1.3.6.1.2.1.2.2.1.1.70000"; vb_Type := TrapVTInteger; vb_Value := str "70000" |};
   {| vb_OID := str "1.3.6.1.2.1.1.5.0"; vb_Type := TrapVTOctetString; vb_Value := str "core-1 (10.0.0.1)" |}].

Lemma fire_encoders_agree_witness :
  option_map len (encodeV2cNotification ASN1_TRAP_V2C (str "public") 4000000000 (SnmpTrapOID sampleEntry) (SnmpTrapEnterprise sampleEntry) 123456 sampleRendered 1472) = Some 151 /\
  encodeV2cNotificationFast 1472 ASN1_TRAP_V2C (str "public") 4000000000 (ce_pre sampleEntry) (SnmpTrapOID sampleEntry) (SnmpTrapEnterprise sampleEntry) 123456 sampleRendered =
  Ok (encodeV2cNotification ASN1_TRAP_V2C (str "public") 4000000000 (SnmpTrapOID sampleEntry) (SnmpTrapEnterprise sampleEntry) 123456 sampleRendered 1472).
Proof.
  split; [vm_compute; reflexivity|].
  apply (fire_encoders_agree sampleLinkDown sampleEntry sampleCtx {[ str "IfIndex" := str " 70000" ]} sampleRendered 1472 ASN1_TRAP_V2C (str "public") 4000000000 123456 (ce_pre sampleEntry)).
  - exact sampleEntry_compiles.
  - vm_compute. reflexivity.
  - lia.
  - lia.
  - vm_compute. discriminate.
  - repeat constructor; vm_compute; discriminate.
  - right. reflexivity.
Defined.

Lemma universal_elems : 1%nat ∈ Entries (snd universal) /\ 2%nat ∈ Entries (snd universal).
Proof. assert (Entries (snd universal) = [0; 1; 2]%nat) as -> by (vm_compute; reflexivity). split; repeat constructor. Qed.

Lemma pick_fair_witness :
  draws (snd universal) 1 = 3 /\ draws (snd universal) 2 = 1 /\ schedTotalWeight (snd universal) = 4.
Proof.
  assert (Hr : recomputeWeights (fst universal) (snd universal) = (snd universal, true)) by (vm_compute; reflexivity).
  destruct (pick_fair (fst universal) (snd universal) (snd universal) Hr) as [_ Hd].
  - apply (bool_decide_unpack _). vm_compute. exact I.
  - apply (bool_decide_unpack _). vm_compute. exact I.
  - vm_compute. discriminate.
  - split_and!; [|  |vm_compute; reflexivity].
    + rewrite (Hd 1%nat); [vm_compute; reflexivity|exact (proj1 universal_elems)|vm_compute; reflexivity].
    + rewrite (Hd 2%nat); [vm_compute; reflexivity|exact (proj2 universal_elems)|vm_compute; reflexivity].
Defined.
