(* ===== verification/TrapOverlay.v ===== *)
(** * Overlays and the size check of the trap catalogs (trap_catalog.go)

    The properties of [TrapCatalog]'s operations on shared entries: the invariant
    of a catalog, kept by every step of the loader (a transition system), what
    [MergeOverlay] looks names up to, and that after the size check of every
    catalog, in any order, none of them fires an entry that exceeds the budget. *)

From stdpp Require Import gmap.
From S2P Require Import Prelude GoStrings Ber Oid TypedValue Request Response Trap TrapFast TrapCatalog.

(** ** What overlays and the size check leave unchanged *)

(** An entry up to its two flags. *)
Definition static (e : CatalogEntry) : CatalogEntry := set_fromOverlay (set_oversized e).
Definition key (h : heap) (p : nat) : bytes := ce_Name (deref h p).

(** The heap grew, and the entries it had changed in their flags only. *)
Definition extends (h h' : heap) : Prop :=
  (length h <= length h')%nat /\ forall p, (p < length h)%nat -> static (deref h' p) = static (deref h p).

Lemma extends_refl h : extends h h.
Proof. split; [done|]. done. Qed.
Lemma extends_trans h1 h2 h3 : extends h1 h2 -> extends h2 h3 -> extends h1 h3.
Proof. intros [Hl1 H1] [Hl2 H2]. split; [lia|]. intros p Hp. rewrite H2 by lia. by apply H1. Qed.
#[local] Hint Resolve extends_refl : core.

Lemma deref_store h q f p : deref (store h q f) p = if (p =? q)%nat && (p <? length h)%nat then f (deref h p) else deref h p.
Proof.
  unfold deref, store. rewrite !nth_lookup. destruct (Nat.eqb_spec p q) as [->|Hne]; cbn [andb].
  - rewrite list_lookup_alter_eq. destruct (Nat.ltb_spec q (length h)) as [Hl|Hl].
    + destruct (lookup_lt_is_Some_2 h q Hl) as [e ->]. done.
    + by rewrite lookup_ge_None_2 by lia.
  - by rewrite list_lookup_alter_ne by done.
Qed.

Lemma extends_store h q f : (forall e, static (f e) = static e) -> extends h (store h q f).
Proof. intros Hf. split; [unfold store; by rewrite length_alter|]. intros p _. rewrite deref_store. by destruct (_ && _). Qed.
Lemma extends_fromOverlay h q : extends h (store h q set_fromOverlay).
Proof. by apply extends_store. Qed.
Lemma extends_oversized h q : extends h (store h q set_oversized).
Proof. by apply extends_store. Qed.
Lemma extends_snoc h e : extends h (h ++ [e]).
Proof. split; [rewrite length_app; lia|]. intros p Hp. unfold deref. by rewrite app_nth1. Qed.
#[local] Hint Resolve extends_fromOverlay extends_oversized extends_snoc : core.

Lemma extends_key h h' p : extends h h' -> (p < length h)%nat -> key h' p = key h p.
Proof. intros [_ H] Hp. by apply H, (f_equal ce_Name) in Hp. Qed.
Lemma extends_weight h h' p : extends h h' -> (p < length h)%nat -> Weight (deref h' p) = Weight (deref h p).
Proof. intros [_ H] Hp. by apply H, (f_equal Weight) in Hp. Qed.

(** ** The invariant of a catalog *)

Definition pairs (h : heap) (es : list nat) : list (bytes * nat) := (fun p => (key h p, p)) <$> es.
Definition allocated (h : heap) (es : list nat) : Prop := Forall (fun p => (p < length h)%nat) es.

(** Entries have distinct names, the name index is theirs, weights are
    positive, and the scheduler draws from them; a catalog whose weights were
    refused has nothing to draw. *)
Record catalog_wf (h : heap) (c : Catalog) : Prop := {
  wf_alloc : allocated h (Entries c);
  wf_names : NoDup (key h <$> Entries c);
  wf_index : ByName c = list_to_map (pairs h (Entries c));
  wf_weights : Forall (fun w => 1 <= w) (weights h (Entries c));
  wf_sched : schedEntries c ⊆ Entries c;
  wf_total : snd (recomputeWeights h c) = true \/ schedEntries c = []
}.

Lemma pairs_fst h es : (pairs h es).*1 = key h <$> es.
Proof. unfold pairs. by rewrite <- list_fmap_compose. Qed.

(** The name index is a lookup among the entries. *)
Lemma ByName_spec h c n p : catalog_wf h c -> ByName c !! n = Some p <-> p ∈ Entries c /\ key h p = n.
Proof.
  intros Hwf. rewrite (wf_index h c Hwf), <- elem_of_list_to_map by (rewrite pairs_fst; apply Hwf).
  unfold pairs. rewrite list_elem_of_fmap. split; [intros (q & Hq & Hin); by simplify_eq|intros [Hin <-]; by exists p].
Qed.

Lemma index_snoc (h : heap) (es : list nat) (p : nat) (m : gmap bytes nat) : m = list_to_map (pairs h es) -> key h p ∉ key h <$> es ->
  <[key h p := p]> m = list_to_map (pairs h (es ++ [p])).
Proof.
  intros -> Hn. unfold pairs. rewrite fmap_app. symmetry. apply list_to_map_snoc. change ((fun p => (key h p, p)) <$> es) with (pairs h es).
  by rewrite pairs_fst.
Qed.

Lemma extends_pairs h h' es : extends h h' -> allocated h es -> pairs h' es = pairs h es /\ key h' <$> es = key h <$> es /\ weights h' es = weights h es.
Proof.
  intros He Ha. split_and!.
  - apply list_fmap_ext. intros i p Hp. f_equal. apply extends_key; [done|]. by eapply Forall_lookup_1 in Ha.
  - apply list_fmap_ext. intros i p Hp. apply extends_key; [done|]. by eapply Forall_lookup_1 in Ha.
  - apply map_ext_in. intros p Hp. apply extends_weight; [done|]. unfold allocated in Ha. rewrite List.Forall_forall in Ha. by apply Ha.
Qed.

Lemma running_weights_ext h h' es : weights h' es = weights h es -> forall b, running_weights h' es b = running_weights h es b.
Proof.
  induction es as [|p es IH]; intros Hw b; cbn [running_weights weights map] in *; [done|]. injection Hw as Hp Hw. by rewrite Hp, (IH Hw).
Qed.

Lemma recompute_ok_ext h h' c c' : Entries c' = Entries c -> weights h' (Entries c) = weights h (Entries c) ->
  snd (recomputeWeights h' c') = snd (recomputeWeights h c).
Proof.
  intros He Hw. unfold recomputeWeights. rewrite He, (running_weights_ext h h') by done. destruct (running_weights h (Entries c) 0) as [cum total].
  destruct (total <=? 0); [done|]. by repeat destruct (running_weights _ _ _).
Qed.

Lemma recompute_entries h c : Entries (fst (recomputeWeights h c)) = Entries c /\ ByName (fst (recomputeWeights h c)) = ByName c.
Proof. unfold recomputeWeights. destruct (running_weights _ _ _). destruct (_ <=? 0); [done|]. by destruct (running_weights _ _ _). Qed.

Lemma recompute_sched h c : schedEntries (fst (recomputeWeights h c)) =
  if snd (recomputeWeights h c) then List.filter (schedulable h) (Entries c) else schedEntries c.
Proof. unfold recomputeWeights. destruct (running_weights _ _ _). destruct (_ <=? 0); [done|]. by destruct (running_weights _ _ _). Qed.

Lemma recompute_wf h c : catalog_wf h c -> catalog_wf h (fst (recomputeWeights h c)).
Proof.
  intros [Ha Hn Hi Hw Hs Ht]. destruct (recompute_entries h c) as [He Hb]. split; rewrite ?He, ?Hb; try done.
  - rewrite recompute_sched. destruct (snd _); [|done]. intros p. rewrite !list_elem_of_In, List.filter_In. tauto.
  - rewrite (recompute_ok_ext h h c) by done. rewrite recompute_sched. destruct (snd _); [by left|]. right. by destruct Ht.
Qed.

Lemma allocated_extends h h' es : extends h h' -> allocated h es -> allocated h' es.
Proof. intros [Hl _] Ha. eapply list.Forall_impl; [exact Ha|]. cbv beta. intros p Hp. lia. Qed.

Lemma extends_wf h h' c : extends h h' -> catalog_wf h c -> catalog_wf h' c.
Proof.
  intros He [Ha Hn Hi Hw Hs Ht]. destruct (extends_pairs h h' (Entries c) He Ha) as (Hp & Hk & Hw'). split; rewrite ?Hp, ?Hk, ?Hw'; try done.
  - by eapply allocated_extends.
  - by rewrite (recompute_ok_ext h h' c c).
Qed.

(** A fresh catalog over well-named entries, its weights computed. *)
Lemma new_catalog_wf h es m ext : allocated h es -> NoDup (key h <$> es) -> m = list_to_map (pairs h es) -> Forall (fun w => 1 <= w) (weights h es) ->
  catalog_wf h (fst (recomputeWeights h (newCatalog es m ext))).
Proof. intros Ha Hn Hm Hw. apply recompute_wf. split; try done; [intros p Hp; by apply elem_of_nil in Hp|by right]. Qed.

(** ** Loading and overlaying keep the invariant *)

Lemma weights_app h es es' : weights h (es ++ es') = weights h es ++ weights h es'.
Proof. apply map_app. Qed.

Definition entries_ok (h : heap) (es : list nat) (m : gmap bytes nat) : Prop :=
  allocated h es /\ NoDup (key h <$> es) /\ m = list_to_map (pairs h es) /\ Forall (fun w => 1 <= w) (weights h es).

Lemma entries_ok_extends h h' es m : extends h h' -> entries_ok h es m -> entries_ok h' es m.
Proof.
  intros He (Ha & Hn & Hm & Hw). destruct (extends_pairs h h' es He Ha) as (Hp & Hk & Hw'). unfold entries_ok. rewrite Hp, Hk, Hw'.
  split_and!; try done. by eapply allocated_extends.
Qed.

Lemma entries_ok_snoc h es m p : entries_ok h es m -> (p < length h)%nat -> key h p ∉ key h <$> es -> 1 <= Weight (deref h p) ->
  entries_ok h (es ++ [p]) (<[key h p := p]> m).
Proof.
  intros (Ha & Hn & Hm & Hw) Hp Hk Hwp. split_and!.
  - apply Forall_app. split; [done|by constructor].
  - rewrite fmap_app. apply list.NoDup_app. split_and!; [done| |apply NoDup_singleton].
    intros x Hx Hx'. cbn in Hx'. apply list_elem_of_singleton in Hx' as ->. done.
  - by apply index_snoc.
  - rewrite weights_app. apply Forall_app. split; [done|by constructor].
Qed.

(** A name without an entry in the index is not one of the entries'. *)
Lemma index_fresh h es m n : entries_ok h es m -> m !! n = None <-> n ∉ key h <$> es.
Proof.
  intros (_ & Hn & -> & _). rewrite <- not_elem_of_list_to_map. by rewrite pairs_fst.
Qed.

Lemma parseEntries_ok raws : forall h es m, entries_ok h es m ->
  wp (parseEntries raws h es m) (fun r => match r with Some (h', es', m') => entries_ok h' es' m' /\ extends h h' | None => True end).
Proof.
  induction raws as [|raw raws IH]; intros h es m Hok; cbn [parseEntries]; [by split|].
  wp_step. eapply wp_mono; [apply compileEntry_wp|]. intros [e|] He; [|done]. destruct (m !! ce_Name e) eqn:Em; [done|].
  assert (Hd : deref (h ++ [e]) (length h) = e) by (unfold deref; by rewrite app_nth2, Nat.sub_diag by lia).
  assert (Hx : extends h (h ++ [e])) by auto. assert (Hk : key (h ++ [e]) (length h) = ce_Name e) by (unfold key; by rewrite Hd).
  rewrite <- Hk. eapply wp_mono; [apply IH; apply entries_ok_snoc|].
  - by apply (entries_ok_extends h).
  - rewrite length_app. simpl. lia.
  - rewrite <- index_fresh by (by apply (entries_ok_extends h)). by rewrite Hk.
  - rewrite Hd. apply He.
  - intros [[[h' es'] m']|] Hr; [|done]. destruct Hr as [Hr1 Hr2]. split; [done|]. by eapply extends_trans.
Qed.

(** The flag is only ever set. *)
Definition marks (h h' : heap) : Prop := forall p, fromOverlay (deref h p) = true -> fromOverlay (deref h' p) = true.
Lemma marks_refl h : marks h h.
Proof. by intros p. Qed.
Lemma marks_store h q : marks h (store h q set_fromOverlay).
Proof. intros p. rewrite deref_store. by destruct (_ && _). Qed.
Lemma marks_trans h1 h2 h3 : marks h1 h2 -> marks h2 h3 -> marks h1 h3.
Proof. intros H1 H2 p Hp. by apply H2, H1. Qed.
#[local] Hint Resolve marks_refl marks_store : core.

Lemma length_store h q f : length (store h q f) = length h.
Proof. apply length_alter. Qed.

(** The overlay's entry of that name, if it has one. *)
Definition overlaid (h : heap) (names : gmap bytes nat) (p : nat) : nat := default p (names !! key h p).
Definition names_ok (h : heap) (names : gmap bytes nat) : Prop :=
  forall n q, names !! n = Some q -> (q < length h)%nat /\ key h q = n /\ 1 <= Weight (deref h q).

Lemma names_ok_store h names q : names_ok h names -> names_ok (store h q set_fromOverlay) names.
Proof.
  intros Hn n p Hp. destruct (Hn n p Hp) as (Hl & Hk & Hw). rewrite length_store, (extends_key h), (extends_weight h) by auto. done.
Qed.

Lemma key_store h q p : key (store h q set_fromOverlay) p = key h p.
Proof. unfold key. rewrite deref_store. by destruct (_ && _). Qed.
Lemma keys_store h q (es : list nat) : key (store h q set_fromOverlay) <$> es = key h <$> es.
Proof. apply list_fmap_ext. intros. apply key_store. Qed.
Lemma weights_store h q es : weights (store h q set_fromOverlay) es = weights h es.
Proof. apply map_ext. intros p. rewrite deref_store. by destruct (_ && _). Qed.

Lemma merge_base_spec names es : forall h entries m h' entries' m',
  merge_base h names es entries m = (h', entries', m') ->
  entries_ok h entries m -> names_ok h names -> allocated h es -> NoDup (key h <$> entries ++ es) -> Forall (fun w => 1 <= w) (weights h es) ->
  entries_ok h' entries' m' /\ extends h h' /\ length h' = length h /\ marks h h' /\
  entries' = entries ++ map (overlaid h names) es /\ (forall p q, p ∈ es -> names !! key h p = Some q -> fromOverlay (deref h' q) = true).
Proof.
  induction es as [|p es IH]; intros h entries m h' entries' m' Hm Hok Hn Ha Hnd Hw; cbn [merge_base map] in *.
  { simplify_eq. rewrite app_nil_r. split_and!; auto. intros p q Hp. by apply elem_of_nil in Hp. }
  inversion_clear Ha as [|? ? Hp Ha']. inversion_clear Hw as [|? ? Hwp Hw']. change (ce_Name (deref h p)) with (key h p) in Hm.
  set (q := overlaid h names p). pose (h1 := if names !! key h p is Some _ then store h q set_fromOverlay else h).
  assert (Hq : (q < length h)%nat /\ key h q = key h p /\ 1 <= Weight (deref h q)).
  { unfold q, overlaid. destruct (names !! key h p) as [q'|] eqn:Eq; [|done]. by apply Hn. }
  assert (Hm1 : merge_base h1 names es (entries ++ [q]) (<[key h1 q := q]> m) = (h', entries', m')).
  { unfold h1, q, overlaid in *. destruct (names !! key h p) as [q'|]; exact Hm. }
  assert (Hx : extends h h1 /\ marks h h1 /\ length h1 = length h /\ names_ok h1 names /\
    (forall x, key h1 x = key h x) /\ (forall l, weights h1 l = weights h l) /\ (forall q', names !! key h p = Some q' -> fromOverlay (deref h1 q') = true)).
  { unfold h1. destruct (names !! key h p) as [q0|] eqn:Eq; split_and!; auto using length_store, names_ok_store, key_store, weights_store.
    - intros q' Hq'. simplify_eq. unfold q, overlaid. rewrite Eq. cbn [default]. rewrite deref_store, Nat.eqb_refl. unfold q, overlaid in Hq. rewrite Eq in Hq.
      cbn [default] in Hq. rewrite (proj2 (Nat.ltb_lt _ _)) by apply Hq. done.
    - done. }
  clearbody h1. destruct Hx as (Hx & Hmk & Hlen & Hn1 & Hkey & Hwt & Hfl). destruct Hq as (Hql & Hqk & Hqw).
  assert (Hkeys : forall l : list nat, key h1 <$> l = key h <$> l) by (intros l; by apply list_fmap_ext).
  rewrite fmap_app, fmap_cons in Hnd. destruct (IH _ _ _ _ _ _ Hm1) as (Hok' & Hx' & Hl' & Hmk' & He' & Hf').
  - apply entries_ok_snoc; [by eapply entries_ok_extends|by rewrite Hlen| |by rewrite (extends_weight h)].
    rewrite Hkey, Hkeys, Hqk. apply list.NoDup_app in Hnd as (_ & Hd & _). intros Hin. apply (Hd _ Hin). left.
  - done.
  - by eapply allocated_extends.
  - rewrite Hkeys, !fmap_app, <- app_assoc. cbn. by rewrite Hqk.
  - by rewrite Hwt.
  - split_and!; [done|by eapply extends_trans|lia|by eapply marks_trans| |].
    + rewrite He', <- app_assoc. cbn [app]. do 2 f_equal. apply map_ext. intros x. unfold overlaid. by rewrite Hkey.
    + intros x y Hin Hy. apply list.elem_of_cons in Hin as [->|Hin]; [by apply Hmk', Hfl|]. eapply Hf'; [done|]. by rewrite Hkey.
Qed.

Lemma merge_rest_spec es : forall h entries m h' entries' m',
  merge_rest h es entries m = (h', entries', m') ->
  entries_ok h entries m -> allocated h es -> NoDup (key h <$> es) -> Forall (fun w => 1 <= w) (weights h es) ->
  entries_ok h' entries' m' /\ extends h h' /\ marks h h' /\
  entries' = entries ++ List.filter (fun p => negb (bool_decide (key h p ∈ key h <$> entries))) es /\
  (forall p, p ∈ es -> key h p ∉ key h <$> entries -> fromOverlay (deref h' p) = true).
Proof.
  induction es as [|p es IH]; intros h entries m h' entries' m' Hm Hok Ha Hnd Hw; cbn [merge_rest List.filter] in *.
  { simplify_eq. rewrite app_nil_r. split_and!; auto. intros p Hp. by apply elem_of_nil in Hp. }
  inversion_clear Ha as [|? ? Hp Ha']. inversion_clear Hw as [|? ? Hwp Hw']. rewrite fmap_cons in Hnd. inversion_clear Hnd as [|? ? Hnp Hnd'].
  change (ce_Name (deref h p)) with (key h p) in Hm. pose proof (index_fresh h entries m (key h p) Hok) as Hfr.
  destruct (m !! key h p) as [q|] eqn:Eq.
  - assert (Hin : key h p ∈ key h <$> entries) by (destruct (decide (key h p ∈ key h <$> entries)) as [|Hn]; [done|by apply Hfr in Hn]).
    rewrite bool_decide_true by done. cbn [negb]. destruct (IH _ _ _ _ _ _ Hm Hok Ha' Hnd' Hw') as (H1 & H2 & H3 & H4 & H5).
    split_and!; [done..|]. intros x Hx Hnx. apply list.elem_of_cons in Hx as [->|Hx]; [done|by apply H5].
  - assert (Hnin : key h p ∉ key h <$> entries) by (by apply Hfr). rewrite bool_decide_false by done. cbn [negb].
    destruct (IH _ _ _ _ _ _ Hm) as (H1 & H2 & H3 & H4 & H5).
    + apply (entries_ok_snoc (store h p set_fromOverlay)); [by apply (entries_ok_extends h)|by rewrite length_store|by rewrite key_store, keys_store|].
      rewrite (extends_weight h) by auto. done.
    + by apply (allocated_extends h).
    + by rewrite keys_store.
    + by rewrite weights_store.
    + split_and!; [done|eapply extends_trans; [|exact H2]; auto|eapply marks_trans; [|exact H3]; auto| |].
      * rewrite H4, <- app_assoc. cbn [app]. do 2 f_equal. apply List.filter_ext_in. intros x Hx. rewrite key_store, keys_store, fmap_app.
        f_equal. apply bool_decide_ext. rewrite list.elem_of_app. split; [intros [?|Hx']; [done|]|by left].
        cbn in Hx'. apply list_elem_of_singleton in Hx'. exfalso. apply Hnp. rewrite <- Hx'. apply list_elem_of_fmap. exists x. split; [done|]. by apply list_elem_of_In.
      * intros x Hx Hnx. apply list.elem_of_cons in Hx as [->|Hx].
        { apply H3. rewrite deref_store, Nat.eqb_refl, (proj2 (Nat.ltb_lt _ _)) by done. done. }
        apply H5; [done|]. rewrite key_store, keys_store, fmap_app, list.elem_of_app. intros [?|Hx']; [done|].
        cbn in Hx'. apply list_elem_of_singleton in Hx'. apply Hnp. rewrite <- Hx'. apply list_elem_of_fmap. by exists x.
Qed.

Lemma index_of_entries h es : NoDup (key h <$> es) -> fold_left (fun m p => <[ce_Name (deref h p) := p]> m) es (∅ : gmap bytes nat) = list_to_map (pairs h es).
Proof.
  induction es as [|p es IH] using rev_ind; intros Hnd; [done|]. rewrite fmap_app in Hnd. apply list.NoDup_app in Hnd as (Hn & Hd & _).
  rewrite fold_left_app. cbn [fold_left]. rewrite IH by done. apply index_snoc; [done|]. intros Hin. apply (Hd _ Hin). cbn. left.
Qed.

Lemma wf_entries_ok h c : catalog_wf h c -> entries_ok h (Entries c) (ByName c).
Proof. intros [? ? ? ? ? ?]. by split_and!. Qed.

Lemma wf_names_ok h c : catalog_wf h c -> names_ok h (ByName c).
Proof.
  intros Hwf n q Hq. apply (ByName_spec h c n q Hwf) in Hq as [Hin Hk]. apply list_elem_of_In in Hin. split_and!; [|done|].
  - pose proof (wf_alloc h c Hwf) as Ha. unfold allocated in Ha. rewrite List.Forall_forall in Ha. by apply Ha.
  - pose proof (wf_weights h c Hwf) as Hw. rewrite List.Forall_forall in Hw. apply Hw. unfold weights. apply in_map_iff. by exists q.
Qed.

(** The overlaid entries keep the base's names and order. *)
Lemma overlaid_keys h names es : names_ok h names -> key h <$> map (overlaid h names) es = key h <$> es.
Proof.
  intros Hn. induction es as [|p es IH]; [done|]. cbn [map]. rewrite !fmap_cons, IH. f_equal. unfold overlaid.
  destruct (names !! key h p) as [q|] eqn:E; [|done]. by apply Hn.
Qed.

Lemma allocated_elem h es p : allocated h es -> p ∈ es -> (p < length h)%nat.
Proof. unfold allocated. intros Ha Hp. rewrite List.Forall_forall in Ha. by apply Ha, list_elem_of_In. Qed.

Lemma MergeOverlay_spec h c ov h' m : catalog_wf h c -> catalog_wf h ov -> MergeOverlay h (Some c) (Some ov) = (h', Some m) ->
  catalog_wf h' m /\ extends h h' /\ marks h h' /\
  (exists added, added ⊆ Entries ov /\ Entries m = map (overlaid h (ByName ov)) (Entries c) ++ added) /\
  forall p, p ∈ Entries ov -> p ∈ Entries m /\ fromOverlay (deref h' p) = true.
Proof.
  intros Hc Ho. unfold MergeOverlay. destruct (len (Entries ov) =? 0) eqn:E; zbool.
  - intros Hm. simplify_eq. apply len_0_nil in E. rewrite index_of_entries by apply Hc. destruct (recompute_entries h' (newCatalog (Entries c) (list_to_map (pairs h' (Entries c))) true)) as [He _].
    split_and!; [apply new_catalog_wf; try done; apply Hc|done|done| |].
    + exists []. split; [intros p Hp; by apply elem_of_nil in Hp|]. rewrite He, app_nil_r. cbn [newCatalog Entries]. rewrite <- (map_id (Entries c)) at 1. apply map_ext.
      intros p. unfold overlaid. rewrite (wf_index h' ov Ho), E. done.
    + intros p Hp. rewrite E in Hp. by apply elem_of_nil in Hp.
  - destruct (merge_base h (ByName ov) (Entries c) [] ∅) as [[h1 es1] m1] eqn:E1. destruct (merge_rest h1 (Entries ov) es1 m1) as [[h2 es2] m2] eqn:E2.
    intros Hm. simplify_eq. destruct (merge_base_spec _ _ _ _ _ _ _ _ E1) as (Hok1 & Hx1 & Hl1 & Hk1 & He1 & Hf1); [|by apply wf_names_ok|apply Hc|apply Hc|apply Hc|].
    { split_and!; try constructor. }
    cbn [app] in He1. destruct (extends_pairs h h1 (Entries ov) Hx1 (wf_alloc h ov Ho)) as (_ & Hkov & Hwov).
    destruct (merge_rest_spec _ _ _ _ _ _ _ E2) as (Hok2 & Hx2 & Hk2 & He2 & Hf2); [done|by apply (allocated_extends h), Ho|rewrite Hkov; apply Ho|rewrite Hwov; apply Ho|].
    destruct (recompute_entries h' (newCatalog es2 m2 true)) as [He _].
    assert (Hkey : forall p, p ∈ Entries ov -> key h1 p = key h p) by (intros p Hp; apply extends_key; [done|by eapply allocated_elem; [apply Ho|]]).
    assert (Hkeys1 : key h1 <$> es1 = key h <$> Entries c).
    { destruct (extends_pairs h h1 es1 Hx1) as (_ & -> & _); [unfold allocated; rewrite <- Hl1; apply Hok1|].
      rewrite He1. by apply overlaid_keys, wf_names_ok. }
    split_and!; [destruct Hok2 as (? & ? & ? & ?); by apply new_catalog_wf|by eapply extends_trans|by eapply marks_trans| |].
    + eexists. split; [|rewrite He; cbn [newCatalog Entries]; rewrite He2, He1; reflexivity]. intros p. rewrite !list_elem_of_In, List.filter_In. tauto.
    + intros p Hp. rewrite He. cbn [newCatalog Entries]. rewrite He2, list.elem_of_app. destruct (decide (key h1 p ∈ key h1 <$> es1)) as [Hin|Hnin].
      * rewrite Hkeys1, Hkey in Hin by done. apply list_elem_of_fmap in Hin as (x & Hkx & Hx).
        assert (Hq : ByName ov !! key h x = Some p) by (apply (ByName_spec h); [done|]; by split).
        split; [left; rewrite He1; apply list_elem_of_In, in_map_iff; exists x; split; [unfold overlaid; by rewrite Hq|by apply list_elem_of_In]|].
        apply Hk2. by eapply Hf1.
      * split; [right|by apply Hf2]. apply list_elem_of_In, List.filter_In. split; [by apply list_elem_of_In|]. by rewrite bool_decide_false.
Qed.

(** ** Loading, as a transition system

    The subsystem starts by parsing documents and overlaying per-type catalogs
    on the universal one; every catalog it builds stays in use. *)
Inductive loaded : heap -> list Catalog -> Prop :=
| loaded_none : loaded [] []
| loaded_parse h cs doc h' c : loaded h cs -> parseCatalog h doc = Ok (Some (h', c)) -> loaded h' (c :: cs)
| loaded_merge h cs base ov h' m :
    loaded h cs -> base ∈ cs -> ov ∈ cs -> MergeOverlay h (Some base) (Some ov) = (h', Some m) -> loaded h' (m :: cs).

Lemma parseCatalog_spec h doc h' c : parseCatalog h doc = Ok (Some (h', c)) -> catalog_wf h' c /\ extends h h'.
Proof.
  unfold parseCatalog. destruct (cj_Traps doc) as [|raw raws]; [done|]. intros Hp.
  assert (Hok : entries_ok h [] ∅) by (split_and!; constructor).
  pose proof (parseEntries_ok (raw :: raws) h [] ∅ Hok) as Hw. destruct (parseEntries _ h [] ∅) as [[[[h1 es] m]|]| |]; try done. cbn [wp res_bind] in *.
  destruct Hw as [(Ha & Hn & Hm & Hw) Hx]. destruct (recomputeWeights h1 _) as [c1 ok] eqn:E. destruct ok; [|done]. cbn in Hp. simplify_eq.
  split; [|done]. replace c with (fst (recomputeWeights h' (newCatalog es (list_to_map (pairs h' es)) (default true (cj_Extends doc))))) by (by rewrite E).
  by apply new_catalog_wf.
Qed.

Lemma loaded_wf h cs : loaded h cs -> Forall (catalog_wf h) cs.
Proof.
  induction 1 as [|h cs doc h' c _ IH Hp|h cs base ov h' m _ IH Hb Ho Hm]; [constructor| |].
  - apply parseCatalog_spec in Hp as [Hc Hx]. constructor; [done|]. eapply list.Forall_impl; [exact IH|]. intros c' Hc'. by eapply extends_wf.
  - rewrite List.Forall_forall in IH. destruct (MergeOverlay_spec h base ov h' m) as (Hw & Hx & _); [by apply IH, list_elem_of_In|by apply IH, list_elem_of_In|done|].
    constructor; [done|]. apply List.Forall_forall. intros c' Hc'. eapply extends_wf; [done|]. by apply IH.
Qed.

Lemma loaded_elem h cs c : loaded h cs -> c ∈ cs -> catalog_wf h c.
Proof. intros Hl Hc. apply loaded_wf in Hl. rewrite List.Forall_forall in Hl. by apply Hl, list_elem_of_In. Qed.

(** ** The size check *)

(** A sizer does not look at the flags it is used to set. *)
Definition flag_blind (size : notificationSizer) : Prop := forall e vbs up, size (set_oversized e) vbs up = size e vbs up.
(** The flag of an entry is only ever set. *)
Definition grows (h h' : heap) : Prop :=
  length h' = length h /\ forall p, deref h' p = deref h p \/ deref h' p = set_oversized (deref h p).

Lemma v2c_flag_blind maxTrapPDU : flag_blind (v2cDryRenderSizer maxTrapPDU).
Proof. done. Qed.

Lemma grows_refl h : grows h h.
Proof. split; [done|]. by left. Qed.
Lemma grows_store h p : grows h (store h p set_oversized).
Proof. split; [apply length_store|]. intros q. rewrite deref_store. destruct (_ && _); [by right|by left]. Qed.
Lemma grows_trans h1 h2 h3 : grows h1 h2 -> grows h2 h3 -> grows h1 h3.
Proof.
  intros [Hl1 H1] [Hl2 H2]. split; [congruence|]. intros p. destruct (H2 p) as [->| ->], (H1 p) as [->| ->]; auto.
Qed.
Lemma grows_extends h h' : grows h h' -> extends h h'.
Proof. intros [Hl H]. split; [lia|]. intros p _. by destruct (H p) as [->| ->]. Qed.
Lemma grows_oversized h h' p : grows h h' -> oversized (deref h p) = true -> oversized (deref h' p) = true.
Proof. intros [_ H] Ho. by destruct (H p) as [->| ->]. Qed.

Section size_check.
Context (budget : Z) (size : notificationSizer) (Hblind : flag_blind size).

Lemma exceeds_grows now h h' p : grows h h' -> exceeds budget now size (deref h' p) = exceeds budget now size (deref h p).
Proof.
  intros [_ H]. destruct (H p) as [->| ->]; [done|]. unfold exceeds. change (Resolve (set_oversized (deref h p))) with (Resolve (deref h p)).
  destruct (Resolve _ _ _); [|done]. by rewrite Hblind.
Qed.

Lemma budget_loop_spec now es : forall h d h' d', budget_loop h budget now size es d = (h', d') -> allocated h es ->
  grows h h' /\ d <= d' /\ (d' = d -> h' = h /\ forall p, p ∈ es -> exceeds budget now size (deref h p) = false) /\
  forall p, p ∈ es -> exceeds budget now size (deref h' p) = true -> oversized (deref h' p) = true.
Proof.
  induction es as [|p es IH]; intros h d h' d' Hl Ha; cbn [budget_loop] in Hl.
  { simplify_eq. split_and!; [apply grows_refl|lia|intros _; split; [done|]|]; intros p Hp; by apply elem_of_nil in Hp. }
  inversion_clear Ha as [|? ? Hp Ha']. destruct (exceeds budget now size (deref h p)) eqn:E.
  - destruct (IH _ _ _ _ Hl) as (Hg & Hd & _ & Hall); [by apply (allocated_extends h); [apply grows_extends, grows_store|]|].
    assert (Hg' : grows h h') by (eapply grows_trans; [apply grows_store|exact Hg]). split_and!; [done|lia|lia|].
    intros q Hq Hex. apply list.elem_of_cons in Hq as [->|Hq]; [|by apply Hall].
    eapply grows_oversized; [exact Hg|]. rewrite deref_store, Nat.eqb_refl, (proj2 (Nat.ltb_lt _ _)) by done. done.
  - destruct (IH _ _ _ _ Hl Ha') as (Hg & Hd & Hsame & Hall). split_and!; [done|lia| |].
    + intros ->. destruct (Hsame eq_refl) as [-> Hn]. split; [done|]. intros q Hq. apply list.elem_of_cons in Hq as [->|Hq]; [done|by apply Hn].
    + intros q Hq Hex. apply list.elem_of_cons in Hq as [->|Hq]; [|by apply Hall]. rewrite (exceeds_grows now h h' p Hg) in Hex. congruence.
Qed.

(** What a catalog fires fits: it draws and it selects by role only entries
    that do not exceed the budget. *)
Definition fits (h : heap) (now : Z) (c : Catalog) : Prop :=
  (forall p, p ∈ schedEntries c -> exceeds budget now size (deref h p) = false) /\
  (forall p, p ∈ Entries c -> exceeds budget now size (deref h p) = true -> oversized (deref h p) = true).

Lemma fits_grows h h' now c : grows h h' -> fits h now c -> fits h' now c.
Proof.
  intros Hg [Hs He]. split; intros p Hp; rewrite (exceeds_grows now h h' p Hg); [by apply Hs|]. intros Hex. eapply grows_oversized; [done|]. by apply He.
Qed.

Lemma ApplySizeBudgetWith_spec h c now h' c' d : 0 < budget -> catalog_wf h c -> ApplySizeBudgetWith h c budget now size = (h', c', d) ->
  grows h h' /\ catalog_wf h' c' /\ fits h' now c' /\ Entries c' = Entries c.
Proof.
  intros Hb Hwf. unfold ApplySizeBudgetWith. case_if; [lia|]. destruct (budget_loop h budget now size (Entries c) 0) as [h1 d1] eqn:El.
  intros Ha. simplify_eq. destruct (budget_loop_spec _ _ _ _ _ _ El (wf_alloc h c Hwf)) as (Hg & Hd & Hsame & Hall).
  assert (Hwf' : catalog_wf h' c) by (by apply (extends_wf h); [apply grows_extends|]). split; [done|]. destruct (0 <? d) eqn:Ed; zbool.
  - destruct (recompute_entries h' c) as [He _]. split_and!; [by apply recompute_wf| |done]. split; [|intros p; rewrite He; apply Hall].
    intros p. rewrite recompute_sched. destruct (snd (recomputeWeights h' c)) eqn:Eok.
    + rewrite list_elem_of_In, List.filter_In. intros [Hin Hs]. unfold schedulable in Hs. destruct (exceeds _ _ _ _) eqn:Ex; [|done].
      rewrite (Hall p) in Hs by (by try apply list_elem_of_In). by rewrite andb_false_r in Hs.
    + intros Hp. destruct (wf_total h' c Hwf') as [?|Hnil]; [congruence|]. rewrite Hnil in Hp. by apply elem_of_nil in Hp.
  - destruct (Hsame ltac:(lia)) as [-> Hn]. split_and!; [done| |done]. split; [|done]. intros p Hp. by apply Hn, (wf_sched h c Hwf).
Qed.

Lemma budgetCatalogs_spec order : forall h h' cs', 0 < budget -> Forall (fun '(c, _) => catalog_wf h c) order ->
  budgetCatalogs h order budget size = (h', cs') -> grows h h' /\ Forall2 (fun c' '(c, now) => fits h' now c' /\ Entries c' = Entries c /\ schedEntries c' ⊆ Entries c') cs' order.
Proof.
  induction order as [|[c now] order IH]; intros h h' cs' Hb Hwf Hr; cbn [budgetCatalogs] in Hr; [simplify_eq; split; [apply grows_refl|constructor]|].
  inversion_clear Hwf as [|? ? Hc Hwf']. destruct (ApplySizeBudgetWith h c budget now size) as [[h1 c1] d1] eqn:E1.
  destruct (budgetCatalogs h1 order budget size) as [h2 cs2] eqn:E2. simplify_eq.
  destruct (ApplySizeBudgetWith_spec _ _ _ _ _ _ Hb Hc E1) as (Hg1 & Hw1 & Hf1 & He1).
  destruct (IH h1 h' cs2) as [Hg2 Hall]; [done| |done|].
  { eapply list.Forall_impl; [exact Hwf'|]. intros [c' now'] Hc'. by apply (extends_wf h); [apply grows_extends|]. }
  split; [by eapply grows_trans|]. constructor; [|done]. split_and!; [by apply (fits_grows h1)|done|apply Hw1].
Qed.
End size_check.

(** ** Every entry of a loaded catalog passed the loader's checks *)

Definition all_wf (h : heap) (es : list nat) : Prop := forall p, p ∈ es -> (p < length h)%nat /\ entry_wf (deref h p).

Lemma entry_wf_static e e' : static e' = static e -> entry_wf e -> entry_wf e'.
Proof.
  destruct e, e'. unfold static, set_fromOverlay, set_oversized. cbn. injection 1 as -> -> -> -> -> -> ->. exact (fun Hw => Hw).
Qed.

Lemma all_wf_extends h h' es : extends h h' -> all_wf h es -> all_wf h' es.
Proof.
  intros [Hl Hx] Hw p Hp. destruct (Hw p Hp) as [Hlt He]. split; [lia|]. eapply entry_wf_static; [by apply Hx|done].
Qed.

Lemma parseEntries_all_wf raws : forall h es m, all_wf h es ->
  wp (parseEntries raws h es m) (fun r => match r with Some (h', es', _) => all_wf h' es' | None => True end).
Proof.
  induction raws as [|raw raws IH]; intros h es m Hok; cbn [parseEntries]; [done|].
  wp_step. eapply wp_mono; [apply compileEntry_wp|]. intros [e|] He; [|done]. destruct (m !! ce_Name e); [done|]. apply IH.
  intros p Hp. apply list.elem_of_app in Hp as [Hp|Hp]; [by eapply all_wf_extends|]. apply list_elem_of_singleton in Hp as ->.
  split; [rewrite length_app; simpl; lia|]. unfold deref. by rewrite app_nth2, Nat.sub_diag by lia.
Qed.

Lemma loaded_all_wf h cs c : loaded h cs -> c ∈ cs -> all_wf h (Entries c).
Proof.
  intros Hl. revert c. induction Hl as [|h cs doc h' c0 Hl IH Hp|h cs base ov h' m Hl IH Hb Ho Hm]; intros c Hc; [by apply elem_of_nil in Hc| |].
  - destruct (parseCatalog_spec _ _ _ _ Hp) as [_ Hx]. apply list.elem_of_cons in Hc as [->|Hc]; [|eapply all_wf_extends; [exact Hx|by apply IH]].
    unfold parseCatalog in Hp. destruct (cj_Traps doc) as [|raw raws]; [done|]. clear IH Hl.
    assert (Hnil : all_wf h []) by (intros p Hq; by apply elem_of_nil in Hq). pose proof (parseEntries_all_wf (raw :: raws) h [] ∅ Hnil) as Hw.
    destruct (parseEntries _ h [] ∅) as [[[[h1 es] mm]|]| |]; try done. cbn [wp res_bind] in *.
    pose proof (recompute_entries h1 (newCatalog es mm (default true (cj_Extends doc)))) as [He _].
    destruct (recomputeWeights h1 _) as [c1 ok]. destruct ok; [|done]. cbn in Hp, He. by simplify_eq.
  - destruct (MergeOverlay_spec h base ov h' m (loaded_elem _ _ _ Hl Hb) (loaded_elem _ _ _ Hl Ho) Hm) as (_ & Hx & _ & (added & Hadd & He) & _).
    apply list.elem_of_cons in Hc as [->|Hc]; [|eapply all_wf_extends; [exact Hx|by apply IH]]. eapply all_wf_extends; [exact Hx|]. rewrite He. intros p Hp.
    apply list.elem_of_app in Hp as [Hp|Hp]; [|by apply (IH ov Ho), Hadd]. apply list_elem_of_In, in_map_iff in Hp as (x & <- & Hin). apply list_elem_of_In in Hin.
    unfold overlaid. destruct (ByName ov !! key h x) as [q|] eqn:Eq; [|by apply (IH base Hb)]. cbn [default]. apply (IH ov Ho).
    by eapply (ByName_spec h ov _ q (loaded_elem _ _ _ Hl Ho)).
Qed.

(** What is drawn is in the scheduler's list; what a role selects is an entry of
    the catalog that was not disabled. *)
Lemma Pick_elem c r p : Pick (Some c) r = Ok (Some p) -> p ∈ schedEntries c.
Proof.
  unfold Pick. case_if; [done|]. unfold index. case_if; [done|]. destruct (schedEntries c !! _) as [q|] eqn:Eq; [|done]. cbn. intros ?. simplify_eq.
  by eapply list_elem_of_lookup_2.
Qed.
Lemma EntriesByRole_elem h c role p : p ∈ EntriesByRole h (Some c) role -> p ∈ Entries c /\ oversized (deref h p) = false.
Proof.
  unfold EntriesByRole. case_if; [intros Hp; by apply elem_of_nil in Hp|].
  assert (Hown : forall f, p ∈ List.filter f (List.filter (fun p => beq (Role (deref h p)) role && negb (oversized (deref h p))) (Entries c)) ->
    p ∈ Entries c /\ oversized (deref h p) = false).
  { intros f. rewrite !list_elem_of_In, !List.filter_In. intros [[? Ho] _]. zbool. done. }
  case_if; apply Hown.
Qed.

(** ** Theorems *)

(** C30: an overlay replaces and extends, and never hides.  In every reachable
    state of the loader, the catalog [MergeOverlay] builds resolves a name to the
    overlay's entry when it has one and to the base's otherwise, keeps the base's
    order, and holds every entry of the overlay, marked as such; names stay
    distinct, in it and in every other catalog. *)
Theorem overlay_lookup h cs base ov h' m :
  loaded h cs -> base ∈ cs -> ov ∈ cs -> MergeOverlay h (Some base) (Some ov) = (h', Some m) ->
  (forall n, ByName m !! n = match ByName ov !! n with Some q => Some q | None => ByName base !! n end) /\
  (exists added, Entries m = map (overlaid h (ByName ov)) (Entries base) ++ added) /\
  (forall p, p ∈ Entries ov -> p ∈ Entries m /\ fromOverlay (deref h' p) = true) /\
  Forall (catalog_wf h') (m :: cs).
Proof.
  intros Hl Hb Ho Hm. pose proof (loaded_elem _ _ _ Hl Hb) as Hwb. pose proof (loaded_elem _ _ _ Hl Ho) as Hwo.
  destruct (MergeOverlay_spec h base ov h' m Hwb Hwo Hm) as (Hwm & Hx & _ & (added & Hadd & He) & Hov).
  split_and!; [|by eexists|done|eapply loaded_wf, (loaded_merge h cs base ov); done].
  assert (Hkey : forall p c, catalog_wf h c -> p ∈ Entries c -> key h' p = key h p) by (intros p c Hc Hp; apply extends_key; [done|]; by eapply allocated_elem; [apply Hc|]).
  intros n. destruct (ByName ov !! n) as [q|] eqn:Eo.
  { apply (ByName_spec h ov) in Eo as [Hq Hk]; [|done]. apply (ByName_spec h' m); [done|]. split; [by apply Hov|]. by rewrite (Hkey q ov). }
  destruct (ByName base !! n) as [p|] eqn:Eb.
  - apply (ByName_spec h base) in Eb as [Hp Hk]; [|done]. apply (ByName_spec h' m); [done|]. split; [|by rewrite (Hkey p base)].
    rewrite He. apply list.elem_of_app. left. apply list_elem_of_In, in_map_iff. exists p. split; [unfold overlaid; by rewrite Hk, Eo|by apply list_elem_of_In].
  - destruct (ByName m !! n) as [p|] eqn:Em; [|done]. exfalso. apply (ByName_spec h' m) in Em as [Hp Hk]; [|done].
    assert (Hno : p ∉ Entries ov). { intros Hq. rewrite (Hkey p ov) in Hk by done. assert (ByName ov !! n = Some p) by (by apply (ByName_spec h ov)). congruence. }
    rewrite He in Hp. apply list.elem_of_app in Hp as [Hp|Hp]; [|by apply Hno, Hadd].
    apply list_elem_of_In, in_map_iff in Hp as (x & Hx' & Hin). apply list_elem_of_In in Hin. unfold overlaid in Hx'.
    destruct (ByName ov !! key h x) as [q|] eqn:Eq; cbn [default] in Hx'; subst p.
    + apply Hno. by eapply (ByName_spec h ov).
    + rewrite (Hkey x base) in Hk by done. assert (ByName base !! n = Some x) by (by apply (ByName_spec h base)). congruence.
Qed.


(** ** Sample catalogs *)

(** The vendor's [coldStart] replaces the universal one and is too large. *)
Definition vendorDoc : trapCatalogJSON :=
  {| cj_Extends := None; cj_Traps := [plainEntry (str "coldStart") (str "1.3.6.1.4.1.9.0.1") 2 (repeat 120 200); plainEntry (str "vendorAlarm") (str "1.3.6.1.4.1.9.0.7") 5 (str "alarm")] |}.

Definition vendor : heap * Catalog := from_ok ([], emptyCatalog) (parseCatalog (fst universal) vendorDoc).
Definition merged : heap * Catalog := let '(h, m) := MergeOverlay (fst vendor) (Some (snd universal)) (Some (snd vendor)) in (h, default emptyCatalog m).

Lemma vendor_parses : parseCatalog (fst universal) vendorDoc = Ok (Some (fst vendor, snd vendor)).
Proof. vm_compute. reflexivity. Qed.
Lemma merged_merges : MergeOverlay (fst vendor) (Some (snd universal)) (Some (snd vendor)) = (fst merged, Some (snd merged)).
Proof. vm_compute. reflexivity. Qed.
Lemma vendor_loaded : loaded (fst vendor) [snd vendor; snd universal].
Proof. eapply loaded_parse; [|exact vendor_parses]. eapply loaded_parse; [constructor|exact universal_parses]. Qed.
Lemma merged_loaded : loaded (fst merged) [snd merged; snd vendor; snd universal].
Proof. eapply loaded_merge; [exact vendor_loaded| | |exact merged_merges]; repeat constructor. Qed.

Lemma overlay_lookup_witness :
  ByName (snd merged) !! str "coldStart" = ByName (snd vendor) !! str "coldStart" /\
  ByName (snd merged) !! str "linkDown" = ByName (snd universal) !! str "linkDown" /\ Entries (snd merged) = [0; 3; 2; 4]%nat.
Proof.
  destruct (overlay_lookup (fst vendor) [snd vendor; snd universal] (snd universal) (snd vendor) (fst merged) (snd merged)) as (Hn & _).
  - exact vendor_loaded.
  - repeat constructor.
  - repeat constructor.
  - exact merged_merges.
  - split_and!; [rewrite Hn; vm_compute; reflexivity|rewrite Hn; vm_compute; reflexivity|vm_compute; reflexivity].
Defined.

(** Checked against a budget of 200 octets, in one order of the catalogs. *)
Definition checked : heap * list Catalog :=
  budgetCatalogs (fst merged) [(snd universal, 1); (snd merged, 2)] 200 (v2cDryRenderSizer 1472).


(** The overlay handed to [MergeOverlay] is not left as it was: its entries are
    marked in place. *)
Lemma merge_marks_the_overlay :
  fromOverlay (deref (fst vendor) 3) = false /\ fromOverlay (deref (fst merged) 3) = true /\ 3%nat ∈ Entries (snd vendor).
Proof. split_and!; [vm_compute; reflexivity|vm_compute; reflexivity|vm_compute; repeat constructor]. Qed.
