(* ===== verification/TrapV3.v ===== *)
(** * SNMPv3 notifications (trap_v3.go, snmpv3_usm.go)

    A device that sends SNMPv3 traps is an authoritative engine of its own: its
    engine ID is derived from its address, its keys are localized to it, and the
    notification PDU of [Trap] is carried in a scoped PDU and a USM envelope.  The
    theorem composes the three: with any configuration the validator accepts,
    every IPv4 device gets an encoder, and what it sends opens, verified and
    deciphered with the device's keys, to exactly that notification. *)

From stdpp Require Import gmap.
From S2P Require Import Prelude GoStrings Ber Oid TypedValue Request Response SetReq Server Octets V3Msg Usm V3Server V3Session Trap TrapFast TrapCatalog.

(** ** Engine identities *)

(** [hex.EncodeToString] and [hex.DecodeString]. *)
Definition hex_char (d : Z) : Z := if d <? 10 then 48 + d else 87 + d.
Definition hex_encode (b : bytes) : bytes := concat (map (fun x => [hex_char (x / 16); hex_char (x mod 16)]) b).
Fixpoint hex_decode (s : bytes) : option bytes :=
  match s with
  | [] => Some []
  | a :: b :: s' =>
      match hex_digit a, hex_digit b, hex_decode s' with
      | Some x, Some y, Some rest => Some (x * 16 + y :: rest)
      | _, _, _ => None
      end
  | _ => None
  end.

Definition defaultSNMPv3EngineID : bytes := str "800000090300AABBCCDD".

Definition parseEngineIDOctets (configured : bytes) : bytes :=
  let s := TrimSpace configured in
  let s := TrimPrefix (TrimPrefix s (str "0x")) (str "0X") in
  if beq s [] then [] else
  let s := if len s mod 2 =? 1 then 48 :: s else s in
  match hex_decode s with Some b => b | None => TrimSpace configured end.

(** The identity [usmState] settles on. *)
Definition usmEngineID (configured : bytes) : bytes :=
  let b := parseEngineIDOctets configured in
  if len b =? 0 then parseEngineIDOctets defaultSNMPv3EngineID else b.

Definition snmpv3TrapPEN : Z := 32473.
Definition snmpv3EngineIDFormatMAC : Z := 0x03.

(** The address is given by its [To4]: four octets, or [None]; [[]] is [nil]. *)
Definition snmpv3TrapEngineID (to4 : option bytes) : bytes :=
  match to4 with
  | None => []
  | Some v4 =>
      [Z.lor (u8 (Z.land (Z.shiftr snmpv3TrapPEN 24) 0xFF)) 0x80; u8 (Z.land (Z.shiftr snmpv3TrapPEN 16) 0xFF);
       u8 (Z.land (Z.shiftr snmpv3TrapPEN 8) 0xFF); u8 (Z.land snmpv3TrapPEN 0xFF); snmpv3EngineIDFormatMAC; 0x02; 0x42] ++ v4
  end.

(** ** Configuration *)

Record TrapV3Config := { tv3_UserName : bytes; tv3_AuthProtocol : Z; tv3_PrivProtocol : Z; tv3_Password : bytes; tv3_PrivPassword : bytes }.
Definition usmMaxUserNameOctets : Z := 32.
Definition snmpv3MsgIDMask : Z := 0x7FFFFFFF.

(** [SNMPv3Config] holds the octets of the engine ID [usmState] makes of the
    text. *)
Definition asV3Config (c : TrapV3Config) (engineIDHex : bytes) : SNMPv3Config :=
  {| Enabled := true; EngineID := usmEngineID engineIDHex; Username := tv3_UserName c; Password := tv3_Password c;
     AuthProtocol := tv3_AuthProtocol c; PrivProtocol := tv3_PrivProtocol c; PrivPassword := tv3_PrivPassword c |}.

(** [true] is a [nil] error. *)
Definition ValidateTrapV3 (c : TrapV3Config) : bool :=
  let name := TrimSpace (tv3_UserName c) in
  if beq name [] then false else
  if usmMaxUserNameOctets <? len name then false else
  if bool_decide (usmHashFor (tv3_AuthProtocol c) = None) && negb (tv3_AuthProtocol c =? SNMPV3_AUTH_NONE) then false else
  if negb ((tv3_PrivProtocol c =? SNMPV3_PRIV_NONE) || (tv3_PrivProtocol c =? SNMPV3_PRIV_DES) || (tv3_PrivProtocol c =? SNMPV3_PRIV_AES128)) then false else
  if negb (tv3_AuthProtocol c =? SNMPV3_AUTH_NONE) && beq (tv3_Password c) [] then false else
  bool_decide (Validate (Some (asV3Config c [])) = None).

(** ** The encoder *)

Record SNMPv3TrapEncoder := { te_engine : V3Server; te_engineID : bytes; te_userName : bytes; te_msgFlags : Z; te_nextMsgID : Z }.

Section TrapV3.
Context `{CryptoLaws}.
(** The engine has no device, no listener and no resources; what stands for them
    is never read. *)
Context (bare : Server).

(** [seed] is [rand.Int31()].  [None] is an error. *)
Definition NewSNMPv3TrapEncoder (cache : kuCache) (to4 : option bytes) (cfg : TrapV3Config) (seed : Z) : option SNMPv3TrapEncoder :=
  if negb (ValidateTrapV3 cfg) then None else
  let engineID_ := snmpv3TrapEngineID to4 in
  if len engineID_ =? 0 then None else
  let c := asV3Config cfg (hex_encode engineID_) in
  let flags := (if negb (tv3_AuthProtocol cfg =? SNMPV3_AUTH_NONE) then SNMPV3_MSG_FLAG_AUTH else 0) in
  let flags := (if negb (tv3_PrivProtocol cfg =? SNMPV3_PRIV_NONE) then Z.lor flags SNMPV3_MSG_FLAG_PRIV else flags) in
  let u := fst (usmState cache (Some c)) in
  if negb (beq (engineID u) engineID_) then None else
  if negb (tv3_AuthProtocol cfg =? SNMPV3_AUTH_NONE) && (len (authKey u) =? 0) then None else
  if negb (tv3_PrivProtocol cfg =? SNMPV3_PRIV_NONE) && (len (privKey u) <? 16) then None else
  Some {| te_engine := {| srv := bare; v3Config := Some c; usm := u |}; te_engineID := engineID_;
          te_userName := TrimSpace (tv3_UserName cfg); te_msgFlags := flags; te_nextMsgID := u32 seed |}.

(** [e.nextMsgID.Add(1) & snmpv3MsgIDMask]. *)
Definition drawMsgID (e : SNMPv3TrapEncoder) : SNMPv3TrapEncoder * Z :=
  let n := u32 (te_nextMsgID e + 1) in
  ({| te_engine := te_engine e; te_engineID := te_engineID e; te_userName := te_userName e; te_msgFlags := te_msgFlags e; te_nextMsgID := n |},
   Z.land n snmpv3MsgIDMask).

(** The identifier is drawn once the notification has been encoded; the
    community is ignored. *)
Definition EncodeTrapV3 (e : SNMPv3TrapEncoder) (r : reading) (reqID : Z) (trapOID enterpriseOID : bytes) (uptimeHundredths : Z) (varbinds : list Varbind)
    (buf : Z) : SNMPv3TrapEncoder * res (option bytes) :=
  match encodeNotificationPDU ASN1_TRAP_V2C reqID trapOID enterpriseOID uptimeHundredths varbinds with
  | None => (e, Ok None)
  | Some pdu =>
      let scoped := wrapInScopedPDU (te_engineID e) [] pdu in
      let '(e, id) := drawMsgID e in
      (e, let! msg := wrapScopedPDUInV3MessageWith (te_engine e) r scoped id (te_msgFlags e) (te_userName e) in
          match msg with
          | None => Ok None
          | Some msg => if buf <? len msg then Ok None else Ok (Some msg)
          end)
  end.

(** ** The derived identity survives its spelling *)

Lemma hex_digit_char d : 0 <= d < 16 -> hex_digit (hex_char d) = Some d /\ (48 <= hex_char d <= 57 \/ 97 <= hex_char d <= 102).
Proof.
  intros Hd. unfold hex_char, hex_digit, is_digit. destruct (d <? 10) eqn:E; zbool.
  - replace ((48 <=? 48 + d) && (48 + d <=? 57)) with true by lia. split; [f_equal; lia|lia].
  - replace ((48 <=? 87 + d) && (87 + d <=? 57)) with false by lia. replace ((97 <=? 87 + d) && (87 + d <=? 102)) with true by lia. split; [f_equal; lia|lia].
Qed.

Definition hex_text (s : bytes) : Prop := Forall (fun c => 48 <= c <= 57 \/ 97 <= c <= 102) s.

Lemma hex_roundtrip b : bytes_ok b -> hex_decode (hex_encode b) = Some b /\ hex_text (hex_encode b) /\ len (hex_encode b) = 2 * len b.
Proof.
  induction 1 as [|x b Hx _ (IH1 & IH2 & IH3)]; [split_and!; constructor|]. unfold is_byte in Hx. unfold hex_encode in *. cbn [map concat app hex_decode].
  destruct (hex_digit_char (x / 16)) as [-> H1]; [split; [apply Z.div_pos; lia|apply Z.div_lt_upper_bound; lia]|].
  destruct (hex_digit_char (x mod 16)) as [-> H2]; [apply Z.mod_pos_bound; lia|]. rewrite IH1. split_and!.
  - do 2 f_equal. pose proof (Z.div_mod x 16). lia.
  - constructor; [done|]. by constructor.
  - rewrite !len_cons, IH3. lia.
Qed.

(** No character of [ws] starts with a hexadecimal digit. *)
Lemma trim_left_hex ws : forallb (fun w => match w with c :: _ => negb ((48 <=? c) && (c <=? 57) || (97 <=? c) && (c <=? 102)) | [] => false end) ws = true ->
  forall fuel s, hex_text s -> trim_left fuel ws s = s.
Proof.
  intros Hws [|fuel] s Hs; cbn [trim_left]; [done|]. destruct (find (fun w => HasPrefix s w) ws) as [w|] eqn:E; [|done].
  apply find_some in E as [Hin Hp]. rewrite forallb_forall in Hws. apply Hws in Hin. destruct w as [|c w]; [done|].
  apply HasPrefix_true in Hp as [r ->]. cbn [app] in Hs. inversion_clear Hs as [|? ? Hc _]. lia.
Qed.

Lemma TrimSpace_hex s : hex_text s -> TrimSpace s = s.
Proof.
  intros Hs. unfold TrimSpace, trim_both. rewrite (trim_left_hex white_space) by (exact Hs || (vm_compute; reflexivity)). rewrite trim_left_hex; [by rewrite rev_involutive|vm_compute; reflexivity|].
  unfold hex_text. apply List.Forall_forall. intros c Hc. rewrite <- in_rev in Hc. unfold hex_text in Hs. rewrite List.Forall_forall in Hs. by apply Hs.
Qed.

(** What the originator configures is what its engine derives. *)
Lemma usmEngineID_hex b : bytes_ok b -> b <> [] -> usmEngineID (hex_encode b) = b.
Proof.
  intros Hb Hne. destruct (hex_roundtrip b Hb) as (Hd & Ht & Hl). pose proof (len_nonneg b).
  assert (Hlb : len b <> 0) by (intros Hz; by apply Hne, len_0_nil).
  assert (Hno : forall c, c = 120 \/ c = 88 -> TrimPrefix (hex_encode b) [48; c] = hex_encode b).
  { intros c Hc. unfold TrimPrefix. destruct (HasPrefix _ _) eqn:E; [|done]. apply HasPrefix_true in E as [r Hr]. rewrite Hr in Ht.
    cbn [app] in Ht. inversion_clear Ht as [|? ? _ Ht']. inversion_clear Ht' as [|? ? Hc' _]. lia. }
  unfold usmEngineID, parseEngineIDOctets. rewrite TrimSpace_hex by done. rewrite (Hno 120) by (by left). rewrite (Hno 88) by (by right).
  unfold beq. rewrite bool_decide_false by (intros Hz; rewrite Hz, len_nil in Hl; lia).
  replace (len (hex_encode b) mod 2 =? 1) with false by (rewrite Hl, Z.mul_comm, Z.mod_mul by lia; done). rewrite Hd. case_if; [lia|done].
Qed.

(** ** Every notification is octets *)

Lemma varbindValue_octets vb b : bytes_ok (vb_Value vb) -> varbindValue vb = Some b -> bytes_ok b.
Proof.
  unfold varbindValue, typedUnsigned32, encodeIPAddress. intros Hv Hb.
  assert (Hip : forall r, ParseIP_To4 (vb_Value vb) = Some r -> bytes_ok ([ASN1_IPADDRESS; 4] ++ r)).
  { intros r Hr. apply ParseIP_To4_octets in Hr. octets. }
  repeat (case_match; simplify_eq; try octets).
Qed.

Lemma encodeVarbinds_octets vbs : forall b, Forall (fun vb => bytes_ok (vb_Value vb)) vbs -> encodeVarbinds vbs = Some b -> bytes_ok b.
Proof.
  induction vbs as [|vb vbs IH]; intros b Hv Hb; cbn [encodeVarbinds] in Hb; [simplify_eq; octets|]. inversion_clear Hv as [|? ? Hvb Hv'].
  destruct (negb _); [done|]. unfold encodeVarbindTyped in Hb. destruct (varbindValue vb) as [v|] eqn:Ev; [|done]. destruct (encodeVarbinds vbs) as [rest|]; [|done].
  simplify_eq. apply varbindValue_octets in Ev; [|done]. apply octets_app; [octets|by apply IH].
Qed.

Lemma encodeNotificationPDU_octets tag reqID trapOID ent up vbs pdu : is_byte tag -> Forall (fun vb => bytes_ok (vb_Value vb)) vbs ->
  encodeNotificationPDU tag reqID trapOID ent up vbs = Some pdu -> bytes_ok pdu.
Proof.
  intros Ht Hv. unfold encodeNotificationPDU. case_if; [done|]. case_if; [done|]. destruct (encodeVarbinds vbs) as [b|] eqn:Eb; [|done].
  apply encodeVarbinds_octets in Eb; [|done].
  assert (Hu : bytes_ok (encodeVarbindTimeTicks oidSysUpTime0 up)) by (unfold encodeVarbindTimeTicks; octets).
  assert (Ho : forall o v, bytes_ok (encodeVarbindOID o v)) by (intros; unfold encodeVarbindOID; octets).
  revert Hu Ho. generalize (encodeVarbindTimeTicks oidSysUpTime0 up) encodeVarbindOID. intros x y Hu Ho Hp. simplify_eq.
  match goal with |- bytes_ok ([tag] ++ encodeLength (len ?c) ++ ?c) => apply (tlv_octets tag c Ht) end.
  assert (He : bytes_ok (if negb (beq ent []) then y oidSnmpTrapEnterprise0 ent else [])) by (case_if; octets).
  revert He. generalize (if negb (beq ent []) then y oidSnmpTrapEnterprise0 ent else []). octets.
Qed.

(** ** Building an encoder *)

Definition engineOctets (v4 : bytes) : bytes := snmpv3TrapEngineID (Some v4).
Lemma engineOctets_ok v4 : bytes_ok v4 -> bytes_ok (engineOctets v4) /\ engineOctets v4 <> [].
Proof. intros Hv. split; [|done]. unfold engineOctets, snmpv3TrapEngineID. apply octets_app; [|done]. by apply bytes_okb_ok. Qed.

(** The security level of a valid configuration, and the keys its engine
    derives for it. *)
Definition levelFlags (cfg : TrapV3Config) : Z :=
  if tv3_AuthProtocol cfg =? SNMPV3_AUTH_NONE then 0
  else if tv3_PrivProtocol cfg =? SNMPV3_PRIV_NONE then SNMPV3_MSG_FLAG_AUTH else Z.lor SNMPV3_MSG_FLAG_AUTH SNMPV3_MSG_FLAG_PRIV.

Lemma NewSNMPv3TrapEncoder_spec cache v4 cfg seed : cache_ok cache -> ValidateTrapV3 cfg = true -> bytes_ok v4 ->
  exists e c, NewSNMPv3TrapEncoder cache (Some v4) cfg seed = Some e /\ te_engineID e = engineOctets v4 /\ te_userName e = TrimSpace (tv3_UserName cfg) /\
    te_msgFlags e = levelFlags cfg /\ te_nextMsgID e = u32 seed /\ v3Config (te_engine e) = Some c /\ Enabled c = true /\
    engineID (usm (te_engine e)) = engineOctets v4 /\ engineBoots (usm (te_engine e)) = 1 /\ keyed (te_engine e) c (levelFlags cfg).
Proof.
  intros Hcache Hval Hv4. destruct (engineOctets_ok v4 Hv4) as [Heng Hne]. unfold NewSNMPv3TrapEncoder. rewrite Hval. cbn [negb].
  change (snmpv3TrapEngineID (Some v4)) with (engineOctets v4). set (c := asV3Config cfg (hex_encode (engineOctets v4))).
  destruct (usmState_spec cache c Hcache) as (He & Hb & Hh & _ & Hk). set (u := fst (usmState cache (Some c))) in *. clearbody u.
  assert (HE : EngineID c = engineOctets v4) by (by apply usmEngineID_hex). rewrite HE in He.
  unfold ValidateTrapV3 in Hval. cbv zeta in Hval. destruct (beq _ []); [done|]. destruct (_ <? len _); [done|].
  destruct (_ && negb (_ =? SNMPV3_AUTH_NONE)) eqn:Eauth; [done|]. destruct (negb (_ || _ || _)) eqn:Epriv; [done|]. destruct (negb _ && beq _ []) eqn:Epw; [done|].
  apply bool_decide_eq_true_1 in Hval. unfold Validate in Hval. cbn [asV3Config Enabled PrivProtocol AuthProtocol Password PrivPassword negb orb] in Hval.
  assert (Hl : len (engineOctets v4) <> 0) by (intros Hz; by apply Hne, len_0_nil). case_if; [lia|]. rewrite He. unfold beq at 1. rewrite bool_decide_true by done. cbn [negb].
  unfold levelFlags. cbn [c asV3Config AuthProtocol PrivProtocol Password PrivPassword] in Hh, Hk. destruct (tv3_AuthProtocol cfg =? SNMPV3_AUTH_NONE) eqn:Ea; cbn [negb andb] in *.
  - destruct (tv3_PrivProtocol cfg =? SNMPV3_PRIV_NONE) eqn:Ep; cbn [negb andb] in *; [|done].
    eexists _, c. split_and!; try done.
  - rewrite andb_true_r in Eauth. apply bool_decide_eq_false_1 in Eauth. destruct (usmHashFor (tv3_AuthProtocol cfg)) as [h|]; [|done]. destruct Hk as [Hka Hkp].
    assert (Hpw : tv3_Password cfg <> []) by (intros Hz; by rewrite Hz in Epw).
    assert (Hla : len (authKey u) = hashSize h) by (rewrite Hka; by apply localized_len). assert (Hsz : 16 <= hashSize h) by (by destruct h).
    assert (Hna : authKey u <> []) by (intros Hz; rewrite Hz, len_nil in Hla; lia). case_if; [lia|].
    destruct (tv3_PrivProtocol cfg =? SNMPV3_PRIV_NONE) eqn:Ep; cbn [negb andb orb] in *.
    + eexists _, c. split_and!; try done. split; [intros _; cbn; by rewrite Hh|done].
    + assert (Hlp : len (privKey u) = hashSize h).
      { rewrite Hkp. apply localized_len. destruct (beq (tv3_PrivPassword cfg) []) eqn:Eb; [done|]. intros Hz. by rewrite Hz in Eb. }
      case_if; [lia|]. eexists _, c. split_and!; try done. split; [intros _; cbn; by rewrite Hh|].
      intros _. split_and!; [done| |cbn; lia]. change (PrivProtocol c) with (tv3_PrivProtocol cfg). zbool. destruct (tv3_PrivProtocol cfg =? SNMPV3_PRIV_DES) eqn:Ed; zbool; [by left|right].
      cbn [orb] in Epriv. by zbool.
Qed.

Lemma ValidateTrapV3_user cfg : ValidateTrapV3 cfg = true -> len (TrimSpace (tv3_UserName cfg)) <= 32.
Proof. unfold ValidateTrapV3. cbv zeta. case_if; [done|]. unfold usmMaxUserNameOctets. case_if; [done|]. done. Qed.

(** The header of a trap. *)
Definition trapGlobal (cfg : TrapV3Config) (id : Z) : SNMPv3GlobalData :=
  {| MsgID := id; MsgMaxSize := v3MsgMaxSize; MsgFlags := levelFlags cfg; MsgSecurityModel := SNMPV3_SECURITY_MODEL_USM |}.
Lemma trapGlobal_ok cfg id : 0 <= id <= snmpv3MsgIDMask -> global_ok (trapGlobal cfg id).
Proof.
  unfold snmpv3MsgIDMask. intros Hid. unfold global_ok, trapGlobal, v3MsgMaxSize, SNMPV3_SECURITY_MODEL_USM, MaxInt64. cbn [MsgID MsgMaxSize MsgFlags MsgSecurityModel].
  split_and!; try lia; unfold levelFlags; repeat case_if; by vm_compute.
Qed.
Lemma trapGlobal_reply cfg id : replyGlobal (trapGlobal cfg id) = trapGlobal cfg id.
Proof. unfold replyGlobal, trapGlobal. cbn [MsgID MsgFlags]. f_equal. unfold levelFlags. by repeat case_if. Qed.

Lemma scopedContents_len eng pdu : len eng <= MaxInt32 -> len (scopedContents eng [] pdu) <= len eng + len pdu + 20.
Proof.
  intros He. unfold scopedContents. rewrite !encodeOctetString_tlv, !len_app. pose proof (len_tlv_le ASN1_OCTET_STRING eng He).
  pose proof (len_tlv_le ASN1_OCTET_STRING [] ltac:(done)) as Hn. rewrite len_nil in Hn. lia.
Qed.

(** Identifiers stay in the range of RFC 3412 for ever, across the wrap of the
    counter. *)
Lemma drawMsgID_range e : 0 <= snd (drawMsgID e) <= snmpv3MsgIDMask.
Proof.
  unfold drawMsgID, snmpv3MsgIDMask. cbn [snd]. change 0x7FFFFFFF with (Z.ones 31). rewrite Z.land_ones by lia.
  pose proof (Z.mod_pos_bound (u32 (te_nextMsgID e + 1)) (2 ^ 31)). change (Z.ones 31) with (2 ^ 31 - 1). lia.
Qed.

(** ** Theorems *)

(** C20: an SNMPv3 trap opens to its notification.  With any configuration the
    validator accepts, every device with an IPv4 address gets an encoder, under
    an engine ID no other address has.  Whatever notification it then encodes,
    the message, when it fits the buffer, is sent under an identifier in the range
    of RFC 3412 and the configured user, verifies under the device's localized
    key when the level asks for it, and opens, deciphered with what it carries, to
    exactly the notification PDU of the v2c encoder in the device's own
    context. *)
Theorem v3_trap_opens cache v4 cfg seed :
  cache_ok cache -> ValidateTrapV3 cfg = true -> bytes_ok v4 -> len v4 = 4 ->
  exists e, NewSNMPv3TrapEncoder cache (Some v4) cfg seed = Some e /\
  (forall v4', snmpv3TrapEngineID (Some v4') = engineID (usm (te_engine e)) -> v4' = v4) /\
  forall r salt reqID trapOID enterpriseOID uptime varbinds buf pdu,
    r_salt r = Some salt -> len salt = 8 -> 0 <= r_time r <= MaxInt64 -> Forall (fun vb => bytes_ok (vb_Value vb)) varbinds ->
    encodeNotificationPDU ASN1_TRAP_V2C reqID trapOID enterpriseOID uptime varbinds = Some pdu -> len pdu <= MaxInt32 - 600 ->
    exists e' msg m id,
      EncodeTrapV3 e r reqID trapOID enterpriseOID uptime varbinds buf = (e', Ok (if buf <? len msg then None else Some msg)) /\
      0 <= id <= snmpv3MsgIDMask /\
      opens (te_engine e) (trapGlobal cfg id) 1 (r_time r) (TrimSpace (tv3_UserName cfg)) (scopedContents (engineOctets v4) [] pdu) msg m.
Proof.
  intros Hcache Hval Hv4 Hl4. destruct (NewSNMPv3TrapEncoder_spec cache v4 cfg seed Hcache Hval Hv4) as (e & c & Hnew & Hid & Hu & Hf & _ & Hc & He & Heng & Hb & Hk).
  exists e. split_and!; [done|rewrite Heng; intros v4' Hv'; by apply app_inv_head in Hv'|].
  intros r salt reqID trapOID ent up vbs buf pdu Hs Hls Ht Hvo Hp Hl. unfold EncodeTrapV3. rewrite Hp. destruct (drawMsgID e) as [e1 id] eqn:Ed.
  pose proof (drawMsgID_range e) as Hr. rewrite Ed in Hr. cbn [snd] in Hr. unfold drawMsgID in Ed. simplify_eq. cbn [te_engine te_msgFlags te_userName].
  set (g := trapGlobal cfg (Z.land (u32 (te_nextMsgID e + 1)) snmpv3MsgIDMask)).
  pose proof (trapGlobal_reply cfg (Z.land (u32 (te_nextMsgID e + 1)) snmpv3MsgIDMask) : replyGlobal g = g) as Hg.
  pose proof (wrap_is_seal (te_engine e) c r salt (scopedContents (engineOctets v4) [] pdu) g (TrimSpace (tv3_UserName cfg)) Hc He Hk Hs) as Hw. rewrite Hg, Hb in Hw.
  destruct (seal_opens (te_engine e) c g 1 (r_time r) (TrimSpace (tv3_UserName cfg)) salt (scopedContents (engineOctets v4) [] pdu)) as (msg & m & Hseal & Hop); try done.
  - by apply trapGlobal_ok.
  - unfold scopedContents. apply encodeNotificationPDU_octets in Hp; [|by vm_compute|done]. destruct (engineOctets_ok v4 Hv4). octets.
  - rewrite Heng. pose proof (ValidateTrapV3_user cfg Hval). assert (Hle : len (engineOctets v4) = 7 + len v4) by (unfold engineOctets, snmpv3TrapEngineID; by rewrite len_app).
    pose proof (len_nonneg v4). pose proof (len_nonneg pdu). pose proof (scopedContents_len (engineOctets v4) pdu) as Hsc. rewrite Hle in Hsc |- *.
    revert Hl Hsc. unfold MaxInt32. intros Hl Hsc. specialize (Hsc ltac:(lia)). lia.
  - eexists _, msg, m, _. split_and!; [|exact (proj1 Hr)|exact (proj2 Hr)|exact Hop]. f_equal. rewrite Hid, Hf, Hu. unfold wrapInScopedPDU.
    change (MsgID g) with (Z.land (u32 (te_nextMsgID e + 1)) snmpv3MsgIDMask) in Hw. change (MsgFlags g) with (levelFlags cfg) in Hw.
    rewrite Hw, Hseal. cbn [res_bind]. by case_if.
Qed.

End TrapV3.

(** A user with authentication and privacy, and a link-down notification. *)
Definition sampleTrapUser : TrapV3Config :=
  {| tv3_UserName := str " ops "; tv3_AuthProtocol := SNMPV3_AUTH_SHA1; tv3_PrivProtocol := SNMPV3_PRIV_AES128; tv3_Password := str "secret123"; tv3_PrivPassword := [] |}.
Definition sampleTrapEnv : reading := {| r_salt := Some (repeat 0 8); r_time := 100 |}.

Lemma v3_trap_opens_witness :
  exists e e' msg m id, NewSNMPv3TrapEncoder sampleServer ∅ (Some [10; 42; 0; 1]) sampleTrapUser 5 = Some e /\
    (exists pdu, encodeNotificationPDU ASN1_TRAP_V2C 7 (str "1.3.6.1.6.3.1.1.5.3") [] 100 [] = Some pdu /\
      opens (te_engine e) (trapGlobal sampleTrapUser id) 1 100 (str "ops") (scopedContents (engineOctets [10; 42; 0; 1]) [] pdu) msg m) /\
    EncodeTrapV3 e sampleTrapEnv 7 (str "1.3.6.1.6.3.1.1.5.3") [] 100 [] 1500 = (e', Ok (if 1500 <? len msg then None else Some msg)).
Proof.
  destruct (v3_trap_opens sampleServer ∅ [10; 42; 0; 1] sampleTrapUser 5) as (e & Hnew & _ & Hall);
    [intros pw h ku Hk; by rewrite lookup_empty in Hk|vm_compute; reflexivity|repeat constructor; unfold is_byte; lia|reflexivity|].
  destruct (encodeNotificationPDU ASN1_TRAP_V2C 7 (str "1.3.6.1.6.3.1.1.5.3") [] 100 []) as [pdu|] eqn:Ep; [|vm_compute in Ep; discriminate].
  destruct (Hall sampleTrapEnv (repeat 0 8) 7 (str "1.3.6.1.6.3.1.1.5.3") [] 100 [] 1500 pdu) as (e' & msg & m & id & He & _ & Ho);
    [reflexivity|reflexivity|cbn; unfold MaxInt64; lia|constructor|exact Ep|vm_compute in Ep; injection Ep as <-; vm_compute; discriminate|].
  exists e, e', msg, m, id. split; [exact Hnew|]. split; [|exact He]. exists pdu. split; [reflexivity|exact Ho].
Defined.
