(* ===== verification/FlowWire.v ===== *)
(** * Flow records and the octets of a datagram (flow_cache.go, flow_exporter.go)

    The data every flow protocol exports, and how the encoders write: into a
    buffer the caller supplies, field by field at a moving position, with length
    fields filled in when they are known.  A write past the end is a panic, as it
    is in Go; the lemmas turn a run of writes into the octets it leaves behind. *)

From S2P Require Import Prelude GoStrings Ber.

(** ** Addresses and records *)

(** [ip.To4()]: of a [net.IP] of four octets, or of sixteen that embed one. *)
Definition To4 (ip : bytes) : option bytes :=
  if len ip =? 4 then Some ip
  else if (len ip =? 16) && beq (take 12 ip) (repeat 0 10 ++ [0xff; 0xff]) then Some (drop 12 ip)
  else None.

Record avcRef := { ref_App : Z; ref_Host : Z; ref_URI : Z }.

Record FlowRecord := {
  SrcIP : bytes;
  DstIP : bytes;
  NextHop : bytes;
  SrcPort : Z;
  DstPort : Z;
  Protocol : Z;
  TCPFlags : Z;
  ToS : Z;
  Bytes_ : Z;
  Packets : Z;
  StartMs : Z;
  EndMs : Z;
  InIface : Z;
  OutIface : Z;
  SrcAS : Z;
  DstAS : Z;
  SrcMask : Z;
  DstMask : Z;
  AVC : avcRef
}.

(** The fields are Go integers of their widths. *)
Definition record_ok (r : FlowRecord) : Prop :=
  bytes_ok (SrcIP r) /\ bytes_ok (DstIP r) /\ bytes_ok (NextHop r) /\
  0 <= SrcPort r < 2 ^ 16 /\ 0 <= DstPort r < 2 ^ 16 /\ 0 <= Protocol r < 2 ^ 8 /\ 0 <= TCPFlags r < 2 ^ 8 /\ 0 <= ToS r < 2 ^ 8 /\
  0 <= Bytes_ r < 2 ^ 64 /\ 0 <= Packets r < 2 ^ 32 /\ 0 <= StartMs r < 2 ^ 32 /\ 0 <= EndMs r < 2 ^ 32 /\
  0 <= InIface r < 2 ^ 16 /\ 0 <= OutIface r < 2 ^ 16 /\ 0 <= SrcAS r < 2 ^ 16 /\ 0 <= DstAS r < 2 ^ 16 /\
  0 <= SrcMask r < 2 ^ 8 /\ 0 <= DstMask r < 2 ^ 8.

(** An address on the wire: [0.0.0.0] when it is not IPv4. *)
Definition ip4_or_zero (ip : bytes) : bytes := match To4 ip with Some a => a | None => [0; 0; 0; 0] end.
(** [uint32(min(b, 0xFFFFFFFF))], as the encoders write it. *)
Definition clamp32 (b : Z) : Z := u32 (if 0xFFFFFFFF <? b then 0xFFFFFFFF else b).

(** ** Writing *)

Definition u16 (x : Z) : Z := x mod 2 ^ 16.

(** The octets [binary.BigEndian.PutUint16], [PutUint32] and [PutUint64] store. *)
Definition be16 (v : Z) : bytes := [u8 (Z.shiftr v 8); u8 v].
Definition be32 (v : Z) : bytes := [u8 (Z.shiftr v 24); u8 (Z.shiftr v 16); u8 (Z.shiftr v 8); u8 v].
Definition be64 (v : Z) : bytes :=
  [u8 (Z.shiftr v 56); u8 (Z.shiftr v 48); u8 (Z.shiftr v 40); u8 (Z.shiftr v 32);
   u8 (Z.shiftr v 24); u8 (Z.shiftr v 16); u8 (Z.shiftr v 8); u8 v].

(** [PutUintN(buf[pos:], v)] or [buf[pos] = v]: panics unless all of it fits. *)
Definition put (buf : bytes) (pos : Z) (v : bytes) : res bytes :=
  if (pos <? 0) || (len buf <? pos + len v) then Panic
  else Ok (take (Z.to_nat pos) buf ++ v ++ drop (Z.to_nat (pos + len v)) buf).
(** [copy(buf[pos:], v)]: as much of [v] as fits. *)
Definition copy_to (buf : bytes) (pos : Z) (v : bytes) : res bytes :=
  if (pos <? 0) || (len buf <? pos) then Panic else put buf pos (take (Z.to_nat (len buf - pos)) v).

(** One step of an encoder: store and advance by the width stored. *)
Inductive wr := Put (v : bytes) | Copy (v : bytes).
Definition wr_bytes (w : wr) : bytes := match w with Put v => v | Copy v => v end.
Fixpoint write (buf : bytes) (pos : Z) (ws : list wr) : res (bytes * Z) :=
  match ws with
  | [] => Ok (buf, pos)
  | w :: ws' =>
      let! buf := match w with Put v => put buf pos v | Copy v => copy_to buf pos v end in
      write buf (pos + len (wr_bytes w)) ws'
  end.
Definition written (ws : list wr) : bytes := concat (map wr_bytes ws).

(** [for i := 0; i < n; i++ { buf[pos] = 0; pos++ }]. *)
Definition zeros (n : Z) : list wr := repeat (Put [0]) (Z.to_nat n).

(** The octets to the next multiple of four. *)
Definition pad4 (n : Z) : Z := if n mod 4 =? 0 then 0 else 4 - n mod 4.

(** [for _, r := range rs { pos = enc(buf, pos, r) }]. *)
Fixpoint encode_all {A} (enc : bytes -> Z -> A -> res (bytes * Z)) (buf : bytes) (pos : Z) (rs : list A) : res (bytes * Z) :=
  match rs with
  | [] => Ok (buf, pos)
  | r :: rs' => let! (buf, pos) := enc buf pos r in encode_all enc buf pos rs'
  end.

(** A set of records whose length is filled in last: identifier, a gap of two
    octets, the records, zeros to a multiple of four. *)
Definition padded_set {A} (setID : Z) (enc : bytes -> Z -> A -> res (bytes * Z)) (buf : bytes) (pos : Z) (rs : list A) : res (bytes * Z) :=
  let start := pos in
  let! buf := put buf pos (be16 setID) in
  let lengthOffset := pos + 2 in
  let! (buf, pos) := encode_all enc buf (pos + 4) rs in
  let dataLen := pos - start in
  let padBytes := pad4 dataLen in
  let! (buf, pos) := write buf pos (zeros padBytes) in
  let! buf := put buf lengthOffset (be16 (u16 (dataLen + padBytes))) in
  Ok (buf, pos).

(** ** What a run of writes leaves *)

Lemma len_be16 v : len (be16 v) = 2.
Proof. done. Qed.
Lemma len_be32 v : len (be32 v) = 4.
Proof. done. Qed.
Lemma len_be64 v : len (be64 v) = 8.
Proof. done. Qed.
#[export] Hint Rewrite len_be16 len_be32 len_be64 : len.

Lemma take_len_app {A} (l k : list A) : take (Z.to_nat (len l)) (l ++ k) = l.
Proof. rewrite len_def, Nat2Z.id. apply take_app_length. Qed.
Lemma drop_len_app {A} (l k : list A) : drop (Z.to_nat (len l)) (l ++ k) = k.
Proof. rewrite len_def, Nat2Z.id. apply drop_app_length. Qed.
Lemma drop_len_app_more {A} (l k : list A) n : 0 <= n -> drop (Z.to_nat (len l + n)) (l ++ k) = drop (Z.to_nat n) k.
Proof.
  intros Hn. rewrite <- (drop_len_app l k) at 2. rewrite drop_drop. f_equal. pose proof (len_nonneg l). lia.
Qed.

Lemma put_fits pre rest v : len v <= len rest -> put (pre ++ rest) (len pre) v = Ok (pre ++ v ++ drop (Z.to_nat (len v)) rest).
Proof.
  intros Hl. unfold put. pose proof (len_nonneg pre). rewrite len_app. destruct ((len pre <? 0) || _) eqn:E; [lia|].
  rewrite take_len_app, drop_len_app_more by apply len_nonneg. done.
Qed.
(** Filling in a field written before. *)
Lemma put_over pre old post v : len v = len old -> put (pre ++ old ++ post) (len pre) v = Ok (pre ++ v ++ post).
Proof. intros Hl. pose proof (len_nonneg post). rewrite put_fits by (rewrite len_app; lia). by rewrite Hl, drop_len_app. Qed.

Lemma copy_fits pre rest v : len v <= len rest -> copy_to (pre ++ rest) (len pre) v = Ok (pre ++ v ++ drop (Z.to_nat (len v)) rest).
Proof.
  intros Hl. unfold copy_to. pose proof (len_nonneg pre). pose proof (len_nonneg rest). rewrite len_app. destruct ((len pre <? 0) || _) eqn:E; [lia|].
  rewrite take_ge; [by apply put_fits|]. unfold len in *. lia.
Qed.

Lemma write_fits ws : forall pre rest, len (written ws) <= len rest ->
  write (pre ++ rest) (len pre) ws = Ok (pre ++ written ws ++ drop (Z.to_nat (len (written ws))) rest, len pre + len (written ws)).
Proof.
  induction ws as [|w ws IH]; intros pre rest Hl.
  { cbn [write written map concat]. rewrite len_nil, Z.add_0_r. done. }
  unfold written in Hl. cbn [map concat] in Hl. fold (written ws) in Hl. rewrite len_app in Hl.
  pose proof (len_nonneg (written ws)). pose proof (len_nonneg (wr_bytes w)).
  assert (Hw : match w with Put v => put (pre ++ rest) (len pre) v | Copy v => copy_to (pre ++ rest) (len pre) v end =
    Ok (pre ++ wr_bytes w ++ drop (Z.to_nat (len (wr_bytes w))) rest)).
  { destruct w as [v|v]; cbn [wr_bytes] in *; [apply put_fits|apply copy_fits]; lia. }
  cbn [write]. rewrite Hw. cbn [res_bind]. rewrite app_assoc, <- len_app, IH by (rewrite len_drop; lia).
  unfold written. cbn [map concat]. fold (written ws). rewrite !len_app, <- !app_assoc, drop_drop. do 2 f_equal; [|lia].
  do 3 f_equal. f_equal. lia.
Qed.

Lemma written_app a b : written (a ++ b) = written a ++ written b.
Proof. unfold written. by rewrite map_app, concat_app. Qed.
Lemma write_app a : forall buf pos b, write buf pos (a ++ b) = let! (buf, pos) := write buf pos a in write buf pos b.
Proof.
  induction a as [|w a IH]; intros buf pos b; [done|]. cbn [write app].
  destruct w; cbn [wr_bytes]; [destruct (put buf pos v)|destruct (copy_to buf pos v)]; cbn [res_bind]; by try apply IH.
Qed.
Lemma written_zeros n : written (zeros n) = repeat 0 (Z.to_nat n).
Proof. unfold zeros, written. induction (Z.to_nat n) as [|k IH]; [done|]. cbn [repeat map concat]. by rewrite IH. Qed.

Lemma encode_all_write {A} (enc : bytes -> Z -> A -> res (bytes * Z)) (ws : A -> list wr) :
  (forall buf pos r, enc buf pos r = write buf pos (ws r)) ->
  forall rs buf pos, encode_all enc buf pos rs = write buf pos (concat (map ws rs)).
Proof.
  intros He. induction rs as [|r rs IH]; intros buf pos; [done|]. cbn [encode_all map concat]. rewrite write_app, <- He.
  destruct (enc buf pos r) as [[buf' pos']| |]; [apply IH|done|done].
Qed.

Lemma pad4_bound n : 0 <= pad4 n < 4.
Proof. unfold pad4. pose proof (Z.mod_pos_bound n 4). case_if; lia. Qed.
Lemma pad4_aligned n : (n + pad4 n) mod 4 = 0.
Proof.
  unfold pad4. case_if; [rewrite Z.add_0_r; lia|]. replace (n + (4 - n mod 4)) with ((n / 4 + 1) * 4) by (pose proof (Z.div_mod n 4); lia).
  by rewrite Z.mod_mul.
Qed.

(** ** Reading the octets back *)

Lemma u8_shiftr v k : 0 <= k -> u8 (Z.shiftr v k) = v / 2 ^ k mod 256.
Proof. intros Hk. unfold u8. by rewrite Z.shiftr_div_pow2. Qed.

Lemma be16_val v : be_val 0 (be16 v) = v mod 2 ^ 16.
Proof.
  unfold be16. rewrite !u8_shiftr by lia. unfold u8. cbn [be_val fold_left].
  change (2 ^ 16) with (256 * 256). change (2 ^ 8) with 256. rewrite Z.rem_mul_r by lia. lia.
Qed.
Lemma be32_val v : be_val 0 (be32 v) = v mod 2 ^ 32.
Proof.
  unfold be32. rewrite !u8_shiftr by lia. unfold u8. cbn [be_val fold_left].
  change (2 ^ 8) with 256. change (2 ^ 32) with (256 * (256 * (256 * 256))). rewrite !Z.rem_mul_r by lia. rewrite !Z.div_div by lia.
  repeat match goal with |- context [v / ?e] => let e' := eval vm_compute in e in progress change e with e' end.
  lia.
Qed.
Lemma be64_split v : be64 v = be32 (Z.shiftr v 32) ++ be32 v.
Proof. unfold be64, be32. rewrite !Z.shiftr_shiftr by lia. done. Qed.
Lemma be64_val v : be_val 0 (be64 v) = v mod 2 ^ 64.
Proof.
  rewrite be64_split, be_val_app, be_val_split, !be32_val. rewrite Z.shiftr_div_pow2 by lia.
  change (256 ^ len (be32 v)) with (2 ^ 32). change (2 ^ 64) with (2 ^ 32 * 2 ^ 32). rewrite Z.rem_mul_r by lia. lia.
Qed.

(** ** A padded set, as octets *)

Definition set_bytes (setID : Z) (body : bytes) : bytes :=
  be16 setID ++ be16 (4 + len body + pad4 (4 + len body)) ++ body ++ repeat 0 (Z.to_nat (pad4 (4 + len body))).

Lemma len_set_bytes setID body : len (set_bytes setID body) = 4 + len body + pad4 (4 + len body).
Proof.
  unfold set_bytes. rewrite !len_app, !len_be16. pose proof (pad4_bound (4 + len body)). unfold len at 2. rewrite repeat_length. lia.
Qed.

Lemma split_gap {A} (l : list A) n : 0 <= n <= len l -> exists a b, l = a ++ b /\ len a = n.
Proof. intros Hn. exists (take (Z.to_nat n) l), (drop (Z.to_nat n) l). rewrite take_drop, len_take. split; [done|lia]. Qed.

Lemma padded_set_spec {A} setID (enc : bytes -> Z -> A -> res (bytes * Z)) (ws : A -> list wr) (rs : list A) pre rest :
  (forall buf pos r, enc buf pos r = write buf pos (ws r)) ->
  let body := written (concat (map ws rs)) in
  len (set_bytes setID body) <= len rest -> len (set_bytes setID body) < 2 ^ 16 ->
  padded_set setID enc (pre ++ rest) (len pre) rs =
    Ok (pre ++ set_bytes setID body ++ drop (Z.to_nat (len (set_bytes setID body))) rest, len pre + len (set_bytes setID body)).
Proof.
  intros He body Hfit Hw. pose proof (pad4_bound (4 + len body)) as Hp. rewrite len_set_bytes in *. pose proof (len_nonneg body) as Hb.
  unfold padded_set. destruct (split_gap rest 4) as (gap & rest' & -> & Hgap); [lia|]. rewrite len_app in Hfit.
  destruct (split_gap gap 2) as (g1 & g2 & -> & Hg1); [lia|]. rewrite len_app in Hgap, Hfit. unfold set_bytes. rewrite <- !app_assoc, put_over by (rewrite len_be16; lia).
  cbn [res_bind]. rewrite (encode_all_write enc ws He).
  assert (Hpos : len pre + 4 = len (pre ++ be16 setID ++ g2)) by (rewrite !len_app, len_be16; lia). rewrite Hpos.
  replace (pre ++ be16 setID ++ g2 ++ rest') with ((pre ++ be16 setID ++ g2) ++ rest') by (by rewrite <- !app_assoc).
  rewrite write_fits by (fold body; lia). fold body. cbn [res_bind]. rewrite <- Hpos.
  replace (len pre + 4 + len body - len pre) with (4 + len body) by lia.
  replace (len pre + 4 + len body) with (len ((pre ++ be16 setID ++ g2) ++ body)) by (rewrite !len_app, len_be16; lia).
  rewrite app_assoc. assert (Hz : len (written (zeros (pad4 (4 + len body)))) = pad4 (4 + len body)).
  { rewrite written_zeros. unfold len at 1. rewrite repeat_length. lia. }
  rewrite write_fits by (rewrite Hz, len_drop; lia). cbn [res_bind]. rewrite Hz, written_zeros. unfold u16. rewrite Z.mod_small by lia.
  replace (len pre + 2) with (len (pre ++ be16 setID)) by (rewrite len_app, len_be16; lia).
  rewrite <- !app_assoc. rewrite (app_assoc pre (be16 setID)). rewrite put_over by (rewrite len_be16; lia). cbn [res_bind].
  rewrite <- !app_assoc, drop_drop. do 2 f_equal; [|rewrite !len_app, len_be16; lia]. do 5 f_equal.
  assert (Hg : length (g1 ++ g2) = 4%nat) by (rewrite length_app; unfold len in *; lia).
  rewrite (app_assoc g1 g2), drop_app_ge by lia. f_equal. lia.
Qed.
