(* ===== verification/FlowTemplates.v ===== *)
(** * NetFlow v9 and IPFIX (netflow9.go, ipfix.go, flow_exporter.go)

    The two template protocols: templates and option templates, the encoders of
    flow records and of the interface option table.  The reference is a collector
    that knows only the protocol: it learns templates from the datagrams and
    reads data by them. *)

From stdpp Require Import gmap.
From S2P Require Import Prelude GoStrings Ber FlowWire.

(** ** Shared by the two: fixed strings and option tables *)

Definition flowOptionStringLen : Z := 32.
Definition flowOptionShapeIfScoped : bytes := str "if-scoped".
Definition flowOptionShapeSystemScoped : bytes := str "system-scoped".

Record flowOptionIface := { ifIndex : Z; ifc_name : bytes }.

(** A field of [n] octets: the string cut at [n] and filled with zeros. *)
Definition fixed_string (s : bytes) (n : Z) : bytes := take (Z.to_nat n) s ++ repeat 0 (Z.to_nat (n - len s)).
Definition putFixedString (s : bytes) (n : Z) : wr := Put (fixed_string s n).
Definition putPaddedString (s : bytes) : wr := putFixedString s flowOptionStringLen.

Record flowOptionShapeDesc := {
  templ : bytes;
  recSize : Z;
  option_writes : Z -> flowOptionIface -> list wr
}.
Definition encodeOptionRecord (desc : flowOptionShapeDesc) (domainID : Z) (buf : bytes) (pos : Z) (ifc : flowOptionIface) : res (bytes * Z) :=
  write buf pos (option_writes desc domainID ifc).

Definition encodeOptionRecords (buf : bytes) (pos setID : Z) (desc : flowOptionShapeDesc) (domainID : Z) (ifaces : list flowOptionIface) : res (bytes * Z * Z) :=
  let maxFit := Z.quot (len buf - pos - 4) (recSize desc) in
  let consumed := if maxFit <? len ifaces then maxFit else len ifaces in
  if consumed <=? 0 then Ok (buf, pos, 0) else
  let! buf := put buf pos (be16 setID) in
  let! buf := put buf (pos + 2) (be16 (u16 (4 + consumed * recSize desc))) in
  let! (buf, pos) := encode_all (encodeOptionRecord desc domainID) buf (pos + 4) (take (Z.to_nat consumed) ifaces) in
  Ok (buf, pos, consumed).

(** A field list, as a template carries it. *)
Definition field_specs (fields : list (Z * Z)) : list wr := concat (map (fun '(t, l) => [Put (be16 t); Put (be16 l)]) fields).

(** ** NetFlow v9 *)

Definition nf9Version : Z := 9.
Definition nf9TemplateID : Z := 256.
Definition nf9HeaderSize : Z := 20.
Definition nf9DataFlowSetHdrSize : Z := 4.
Definition nf9RecordSize : Z := 46.
Definition nf9TemplFlowSetSize : Z := 84.
Definition nf9OptionsFlowSetID : Z := 1.
Definition nf9OptionsTemplateID : Z := 257.
Definition nf9ScopeSystem : Z := 1.
Definition nf9ScopeInterface : Z := 2.
Definition nf9InputSNMP : Z := 10.
Definition nf9IfName : Z := 82.
Definition nf9IfDesc : Z := 83.
Definition nf9OptionRecSizeIfScoped : Z := 4 + 2 * flowOptionStringLen.
Definition nf9OptionRecSizeSystemScoped : Z := 4 + 4 + flowOptionStringLen.

(** [(fieldType, fieldLength)]: IN_BYTES, IN_PKTS, PROTOCOL, SRC_TOS, TCP_FLAGS,
    L4_SRC_PORT, IPV4_SRC_ADDR, SRC_MASK, INPUT_SNMP, L4_DST_PORT, IPV4_DST_ADDR,
    DST_MASK, OUTPUT_SNMP, IPV4_NEXT_HOP, SRC_AS, DST_AS, LAST_SWITCHED,
    FIRST_SWITCHED, DIRECTION. *)
Definition nf9Fields : list (Z * Z) :=
  [(1, 4); (2, 4); (4, 1); (5, 1); (6, 1); (7, 2); (8, 4); (9, 1); (10, 2); (11, 2); (12, 4); (13, 1); (14, 2);
   (15, 4); (16, 2); (17, 2); (21, 4); (22, 4); (61, 1)].

(** [make([]byte, length)] filled by the writes; the two builders write no more
    than they allocate. *)
Definition built (length : Z) (ws : list wr) : bytes :=
  match write (repeat 0 (Z.to_nat length)) 0 ws with Ok (buf, _) => buf | _ => [] end.

Definition buildNF9Template : bytes :=
  let fieldCount := len nf9Fields in
  let length := 4 + 4 + fieldCount * 4 in
  built length ([Put (be16 0); Put (be16 (u16 length)); Put (be16 nf9TemplateID); Put (be16 (u16 fieldCount))] ++ field_specs nf9Fields).

Definition buildNF9OptionsTemplate (scope : Z * Z) (options : list (Z * Z)) : bytes :=
  let scopeLen := 4 in
  let optLen := len options * 4 in
  let length := 4 + 6 + scopeLen + optLen in
  let length := length + pad4 length in
  built length ([Put (be16 nf9OptionsFlowSetID); Put (be16 (u16 length)); Put (be16 nf9OptionsTemplateID); Put (be16 (u16 scopeLen)); Put (be16 (u16 optLen))]
    ++ field_specs (scope :: options)).

Definition nf9OptionShapes (shape : bytes) : option flowOptionShapeDesc :=
  if beq shape flowOptionShapeIfScoped then
    Some {| templ := buildNF9OptionsTemplate (nf9ScopeInterface, 4) [(nf9IfName, flowOptionStringLen); (nf9IfDesc, flowOptionStringLen)];
            recSize := nf9OptionRecSizeIfScoped;
            option_writes := fun _ ifc => [Put (be32 (ifIndex ifc)); putPaddedString (ifc_name ifc); putPaddedString (ifc_name ifc)] |}
  else if beq shape flowOptionShapeSystemScoped then
    Some {| templ := buildNF9OptionsTemplate (nf9ScopeSystem, 4) [(nf9InputSNMP, 4); (nf9IfDesc, flowOptionStringLen)];
            recSize := nf9OptionRecSizeSystemScoped;
            option_writes := fun _ ifc => [Put (be32 0); Put (be32 (ifIndex ifc)); putPaddedString (ifc_name ifc)] |}
  else None.

Definition nf9DataPadBytes (n : Z) : Z :=
  let rem := Z.rem (nf9DataFlowSetHdrSize + n * nf9RecordSize) 4 in
  if rem =? 0 then 0 else 4 - rem.

Definition nf9_record_writes (r : FlowRecord) : list wr :=
  [Put (be32 (clamp32 (Bytes_ r))); Put (be32 (Packets r)); Put [Protocol r]; Put [ToS r]; Put [TCPFlags r]; Put (be16 (SrcPort r));
   Copy (ip4_or_zero (SrcIP r)); Put [SrcMask r]; Put (be16 (InIface r)); Put (be16 (DstPort r)); Copy (ip4_or_zero (DstIP r)); Put [DstMask r];
   Put (be16 (OutIface r)); Copy (ip4_or_zero (NextHop r)); Put (be16 (SrcAS r)); Put (be16 (DstAS r)); Put (be32 (EndMs r));
   Put (be32 (StartMs r)); Put [0x00]].
Definition encodeNF9Record (buf : bytes) (pos : Z) (r : FlowRecord) : res (bytes * Z) := write buf pos (nf9_record_writes r).

(** The records that fit, the trailing pad included. *)
Definition nf9_maxRecords (size overhead : Z) : Z :=
  let maxRecords := Z.quot (size - overhead) nf9RecordSize in
  if (0 <? maxRecords) && (size <? overhead + maxRecords * nf9RecordSize + nf9DataPadBytes maxRecords) then maxRecords - 1 else maxRecords.

(** Seconds since the epoch of a clock reading in nanoseconds. *)
Definition unix (now : Z) : Z := now / 1000000000.

(** The buffer and the octets written; [None] is the error return. *)
Definition nf9_EncodePacket (now domainID seqNo uptimeMs : Z) (records : list FlowRecord) (includeTemplate : bool) (buf : bytes) : res (bytes * option Z) :=
  if (len records =? 0) && negb includeTemplate then Ok (buf, Some 0) else
  let overhead := nf9HeaderSize + 4 + (if includeTemplate then nf9TemplFlowSetSize else 0) in
  if len buf <? overhead then Ok (buf, None) else
  let minOne := overhead + nf9RecordSize + nf9DataPadBytes 1 in
  if (len buf <? minOne) && (0 <? len records) then Ok (buf, None) else
  let maxRecords := nf9_maxRecords (len buf) overhead in
  let! records := if maxRecords <? len records then slice records 0 maxRecords else Ok records in
  let count := len records + (if includeTemplate then 1 else 0) in
  let! (buf, pos) := write buf 0 [Put (be16 nf9Version); Put (be16 (u16 count)); Put (be32 uptimeMs); Put (be32 (u32 (unix now))); Put (be32 seqNo); Put (be32 domainID)] in
  let! (buf, pos) := if includeTemplate then write buf pos [Copy buildNF9Template] else Ok (buf, pos) in
  if len records =? 0 then Ok (buf, Some pos) else
  let! (buf, pos) := padded_set nf9TemplateID encodeNF9Record buf pos records in
  Ok (buf, Some pos).

Definition nf9_EncodeOptionsDatagram (now domainID seqNo uptimeMs : Z) (shape : bytes) (ifaces : list flowOptionIface) (buf : bytes) : res (bytes * option (Z * Z)) :=
  if len ifaces =? 0 then Ok (buf, Some (0, 0)) else
  match nf9OptionShapes shape with
  | None => Ok (buf, None)
  | Some desc =>
      let overhead := nf9HeaderSize + len (templ desc) + 4 in
      if len buf <? overhead + recSize desc then Ok (buf, None) else
      let! (buf, pos) := write buf 0 [Put (be16 nf9Version)] in
      let countOffset := pos in
      let! (buf, pos) := write buf (pos + 2) [Put (be32 uptimeMs); Put (be32 (u32 (unix now))); Put (be32 seqNo); Put (be32 domainID); Copy (templ desc)] in
      let! (buf, pos, consumed) := encodeOptionRecords buf pos nf9OptionsTemplateID desc domainID ifaces in
      if consumed =? 0 then Ok (buf, None) else
      let! buf := put buf countOffset (be16 (u16 (1 + consumed))) in
      Ok (buf, Some (pos, consumed))
  end.

(** ** IPFIX *)

Definition ipfixVersion : Z := 10.
Definition ipfixTemplateID : Z := 256.
Definition ipfixSetIDTemplate : Z := 2.
Definition ipfixHeaderSize : Z := 16.
Definition ipfixDataSetHdrSize : Z := 4.
Definition ipfixRecordSize : Z := 54.
Definition ipfixTemplSetSize : Z := 84.
Definition ipfixSetIDOptionsTemplate : Z := 3.
Definition ipfixOptionsTemplateID : Z := 257.
Definition ipfixIngressInterface : Z := 10.
Definition ipfixInterfaceName : Z := 82.
Definition ipfixInterfaceDescription : Z := 83.
Definition ipfixObservationDomainID : Z := 149.
Definition ipfixOptionRecSizeIfScoped : Z := 4 + 2 * flowOptionStringLen.
Definition ipfixOptionRecSizeSystemScoped : Z := 4 + 4 + flowOptionStringLen.

(** The information elements of [nf9Fields], with absolute times
    (flowStartMilliseconds 152, flowEndMilliseconds 153). *)
Definition ipfixFields : list (Z * Z) :=
  [(1, 4); (2, 4); (4, 1); (5, 1); (6, 1); (7, 2); (8, 4); (9, 1); (10, 2); (11, 2); (12, 4); (13, 1); (14, 2);
   (15, 4); (16, 2); (17, 2); (152, 8); (153, 8); (61, 1)].

Definition buildIPFIXTemplateSet : bytes :=
  let fieldCount := len ipfixFields in
  let length := 4 + 4 + fieldCount * 4 in
  built length ([Put (be16 ipfixSetIDTemplate); Put (be16 (u16 length)); Put (be16 ipfixTemplateID); Put (be16 (u16 fieldCount))] ++ field_specs ipfixFields).

Definition buildIPFIXOptionsTemplateSet (scope : Z * Z) (options : list (Z * Z)) : bytes :=
  let fieldCount := 1 + len options in
  let length := 4 + 6 + fieldCount * 4 in
  let length := length + pad4 length in
  built length ([Put (be16 ipfixSetIDOptionsTemplate); Put (be16 (u16 length)); Put (be16 ipfixOptionsTemplateID); Put (be16 (u16 fieldCount)); Put (be16 1)]
    ++ field_specs (scope :: options)).

Definition ipfixOptionShapes (shape : bytes) : option flowOptionShapeDesc :=
  if beq shape flowOptionShapeIfScoped then
    Some {| templ := buildIPFIXOptionsTemplateSet (ipfixIngressInterface, 4) [(ipfixInterfaceName, flowOptionStringLen); (ipfixInterfaceDescription, flowOptionStringLen)];
            recSize := ipfixOptionRecSizeIfScoped;
            option_writes := fun _ ifc => [Put (be32 (ifIndex ifc)); putPaddedString (ifc_name ifc); putPaddedString (ifc_name ifc)] |}
  else if beq shape flowOptionShapeSystemScoped then
    Some {| templ := buildIPFIXOptionsTemplateSet (ipfixObservationDomainID, 4) [(ipfixIngressInterface, 4); (ipfixInterfaceDescription, flowOptionStringLen)];
            recSize := ipfixOptionRecSizeSystemScoped;
            option_writes := fun domainID ifc => [Put (be32 domainID); Put (be32 (ifIndex ifc)); putPaddedString (ifc_name ifc)] |}
  else None.

Definition ipfixDataPadBytes (n : Z) : Z :=
  let rem := Z.rem (ipfixDataSetHdrSize + n * ipfixRecordSize) 4 in
  if rem =? 0 then 0 else 4 - rem.

Definition ipfix_record_writes (deviceStartMs : Z) (r : FlowRecord) : list wr :=
  [Put (be32 (clamp32 (Bytes_ r))); Put (be32 (Packets r)); Put [Protocol r]; Put [ToS r]; Put [TCPFlags r]; Put (be16 (SrcPort r));
   Copy (ip4_or_zero (SrcIP r)); Put [SrcMask r]; Put (be16 (InIface r)); Put (be16 (DstPort r)); Copy (ip4_or_zero (DstIP r)); Put [DstMask r];
   Put (be16 (OutIface r)); Copy (ip4_or_zero (NextHop r)); Put (be16 (SrcAS r)); Put (be16 (DstAS r)); Put (be64 (u64 (s64 (deviceStartMs + StartMs r))));
   Put (be64 (u64 (s64 (deviceStartMs + EndMs r)))); Put [0x00]].
Definition encodeIPFIXRecord (deviceStartMs : Z) (buf : bytes) (pos : Z) (r : FlowRecord) : res (bytes * Z) := write buf pos (ipfix_record_writes deviceStartMs r).

Definition ipfix_maxRecords (size overhead : Z) : Z :=
  let maxRecords := Z.quot (size - overhead) ipfixRecordSize in
  if (0 <? maxRecords) && (size <? overhead + maxRecords * ipfixRecordSize + ipfixDataPadBytes maxRecords) then maxRecords - 1 else maxRecords.

(** Milliseconds since the epoch, and the epoch of the device's uptime, not
    before it. *)
Definition unixMilli (now : Z) : Z := now / 1000000.
Definition deviceStart (nowMs uptimeMs : Z) : Z := let d := s64 (nowMs - uptimeMs) in if d <? 0 then 0 else d.

Definition ipfix_EncodePacket (now domainID seqNo uptimeMs : Z) (records : list FlowRecord) (includeTemplate : bool) (buf : bytes) : res (bytes * option Z) :=
  if (len records =? 0) && negb includeTemplate then Ok (buf, Some 0) else
  let nowMs := unixMilli now in
  let deviceStartMs := deviceStart nowMs uptimeMs in
  let overhead := ipfixHeaderSize + 4 + (if includeTemplate then ipfixTemplSetSize else 0) in
  if len buf <? overhead then Ok (buf, None) else
  let minOne := overhead + ipfixRecordSize + ipfixDataPadBytes 1 in
  if (len buf <? minOne) && (0 <? len records) then Ok (buf, None) else
  let maxRecords := ipfix_maxRecords (len buf) overhead in
  let! records := if maxRecords <? len records then slice records 0 maxRecords else Ok records in
  let! (buf, pos) := write buf 0 [Put (be16 ipfixVersion)] in
  let lengthOffset := pos in
  let! (buf, pos) := write buf (pos + 2) [Put (be32 (u32 (Z.quot nowMs 1000))); Put (be32 seqNo); Put (be32 domainID)] in
  let! (buf, pos) := if includeTemplate then write buf pos [Copy buildIPFIXTemplateSet] else Ok (buf, pos) in
  let! (buf, pos) := if len records =? 0 then Ok (buf, pos) else padded_set ipfixTemplateID (encodeIPFIXRecord deviceStartMs) buf pos records in
  let! buf := put buf lengthOffset (be16 (u16 pos)) in
  Ok (buf, Some pos).

Definition ipfix_EncodeOptionsDatagram (now domainID seqNo : Z) (shape : bytes) (ifaces : list flowOptionIface) (buf : bytes) : res (bytes * option (Z * Z)) :=
  if len ifaces =? 0 then Ok (buf, Some (0, 0)) else
  match ipfixOptionShapes shape with
  | None => Ok (buf, None)
  | Some desc =>
      let overhead := ipfixHeaderSize + len (templ desc) + 4 in
      if len buf <? overhead + recSize desc then Ok (buf, None) else
      let! (buf, pos) := write buf 0 [Put (be16 ipfixVersion)] in
      let lengthOffset := pos in
      let! (buf, pos) := write buf (pos + 2) [Put (be32 (u32 (unix now))); Put (be32 seqNo); Put (be32 domainID); Copy (templ desc)] in
      let! (buf, pos, consumed) := encodeOptionRecords buf pos ipfixOptionsTemplateID desc domainID ifaces in
      if consumed =? 0 then Ok (buf, None) else
      let! buf := put buf lengthOffset (be16 (u16 pos)) in
      Ok (buf, Some (pos, consumed))
  end.

(** ** A collector

    What a receiver of the protocols does, by their documents alone: a datagram is a
    header and a sequence of sets; a template set names the fields of the data
    sets that carry its identifier; a data set is a sequence of records, with less than
    a record of padding at its end. *)

Definition take_n (n : Z) (b : bytes) : option (bytes * bytes) :=
  if (n <? 0) || (len b <? n) then None else Some (take (Z.to_nat n) b, drop (Z.to_nat n) b).
Definition num_n (n : Z) (b : bytes) : option (Z * bytes) := '(v, b) ← take_n n b; Some (be_val 0 v, b).

(** The (type, octets) pairs of one record. *)
Fixpoint read_fields (fields : list (Z * Z)) (b : bytes) : option (list (Z * bytes) * bytes) :=
  match fields with
  | [] => Some ([], b)
  | (t, l) :: fields' => '(v, b) ← take_n l b; '(vs, b) ← read_fields fields' b; Some ((t, v) :: vs, b)
  end.
Definition record_len (fields : list (Z * Z)) : Z := fold_right (fun '(_, l) n => l + n) 0 fields.

Fixpoint read_records (fuel : nat) (fields : list (Z * Z)) (b : bytes) : option (list (list (Z * bytes))) :=
  if len b <? record_len fields then Some [] else
  match fuel with
  | O => None
  | S fuel' => '(r, b) ← read_fields fields b; rs ← read_records fuel' fields b; Some (r :: rs)
  end.

Fixpoint read_specs (n : nat) (b : bytes) : option (list (Z * Z) * bytes) :=
  match n with
  | O => Some ([], b)
  | S n' => '(t, b) ← num_n 2 b; '(l, b) ← num_n 2 b; '(fs, b) ← read_specs n' b; Some ((t, l) :: fs, b)
  end.

Abbreviation templates := (gmap Z (list (Z * Z))).
(** Which set identifiers are templates and option templates, and how an option
    template counts its fields. *)
Record dialect := { template_set : Z; options_set : Z; options_count : Z -> Z -> Z }.

Definition read_template (b : bytes) (ts : templates) : option templates :=
  '(id, b) ← num_n 2 b; '(n, b) ← num_n 2 b; '(fs, _) ← read_specs (Z.to_nat n) b; Some (<[id := fs]> ts).
Definition read_options_template (d : dialect) (b : bytes) (ts : templates) : option templates :=
  '(id, b) ← num_n 2 b; '(a, b) ← num_n 2 b; '(c, b) ← num_n 2 b; '(fs, _) ← read_specs (Z.to_nat (options_count d a c)) b; Some (<[id := fs]> ts).

(** The sets of a datagram: the templates known after it, and its records in
    order, each with the identifier of its template. *)
Fixpoint read_sets (fuel : nat) (d : dialect) (ts : templates) (b : bytes) : option (templates * list (Z * list (Z * bytes))) :=
  match b with
  | [] => Some (ts, [])
  | _ =>
      match fuel with
      | O => None
      | S fuel' =>
          '(id, b) ← num_n 2 b; '(n, b) ← num_n 2 b; '(body, b) ← take_n (n - 4) b;
          '(ts, rs) ← (if id =? template_set d then ts ← read_template body ts; Some (ts, [])
                       else if id =? options_set d then ts ← read_options_template d body ts; Some (ts, [])
                       else fs ← ts !! id; rs ← read_records (length body) fs body; Some (ts, map (pair id) rs));
          '(ts, rs') ← read_sets fuel' d ts b; Some (ts, rs ++ rs')
      end
  end.

Record reading9 := { r9_count : Z; r9_uptime : Z; r9_secs : Z; r9_seq : Z; r9_source : Z; r9_templates : templates; r9_records : list (Z * list (Z * bytes)) }.
Definition nf9_dialect : dialect := {| template_set := 0; options_set := 1; options_count := fun scopeLen optLen => (scopeLen + optLen) / 4 |}.
Definition collect9 (ts : templates) (b : bytes) : option reading9 :=
  '(v, b) ← num_n 2 b; (if v =? 9 then Some () else None);;
  '(count, b) ← num_n 2 b; '(up, b) ← num_n 4 b; '(secs, b) ← num_n 4 b; '(seq, b) ← num_n 4 b; '(src, b) ← num_n 4 b;
  '(ts, rs) ← read_sets (length b) nf9_dialect ts b;
  Some {| r9_count := count; r9_uptime := up; r9_secs := secs; r9_seq := seq; r9_source := src; r9_templates := ts; r9_records := rs |}.

Record reading10 := { r10_length : Z; r10_secs : Z; r10_seq : Z; r10_domain : Z; r10_templates : templates; r10_records : list (Z * list (Z * bytes)) }.
Definition ipfix_dialect : dialect := {| template_set := 2; options_set := 3; options_count := fun fieldCount _ => fieldCount |}.
Definition collect10 (ts : templates) (b : bytes) : option reading10 :=
  let total := len b in
  '(v, b) ← num_n 2 b; (if v =? 10 then Some () else None);;
  '(n, b) ← num_n 2 b; (if n =? total then Some () else None);;
  '(secs, b) ← num_n 4 b; '(seq, b) ← num_n 4 b; '(dom, b) ← num_n 4 b;
  '(ts, rs) ← read_sets (length b) ipfix_dialect ts b;
  Some {| r10_length := n; r10_secs := secs; r10_seq := seq; r10_domain := dom; r10_templates := ts; r10_records := rs |}.

(** The value the documents assign to an information element of a record. *)
Definition addr_val (ip : bytes) : Z := match To4 ip with Some a => be_val 0 a | None => 0 end.
Definition element (r : FlowRecord) (ie : Z) : Z :=
  match ie with
  | 1 => Z.min (Bytes_ r) (2 ^ 32 - 1)
  | 2 => Packets r
  | 4 => Protocol r
  | 5 => ToS r
  | 6 => TCPFlags r
  | 7 => SrcPort r
  | 8 => addr_val (SrcIP r)
  | 9 => SrcMask r
  | 10 => InIface r
  | 11 => DstPort r
  | 12 => addr_val (DstIP r)
  | 13 => DstMask r
  | 14 => OutIface r
  | 15 => addr_val (NextHop r)
  | 16 => SrcAS r
  | 17 => DstAS r
  | 21 => EndMs r
  | 22 => StartMs r
  | _ => 0
  end.
Definition element_abs (start : Z) (r : FlowRecord) (ie : Z) : Z :=
  if ie =? 152 then start + StartMs r else if ie =? 153 then start + EndMs r else element r ie.
Definition numbers (rec : list (Z * bytes)) : list (Z * Z) := map (fun '(t, v) => (t, be_val 0 v)) rec.

(** ** Capacity *)

Lemma data_pad_pad4 size n : 0 <= n -> 0 <= size ->
  (let rem := Z.rem (4 + n * size) 4 in if rem =? 0 then 0 else 4 - rem) = pad4 (4 + n * size).
Proof. intros Hn Hs. cbv zeta. unfold pad4. rewrite Z.rem_mod_nonneg by nia. done. Qed.
Lemma nf9DataPadBytes_pad4 n : 0 <= n -> nf9DataPadBytes n = pad4 (4 + n * nf9RecordSize).
Proof. intros Hn. by apply data_pad_pad4. Qed.
Lemma ipfixDataPadBytes_pad4 n : 0 <= n -> ipfixDataPadBytes n = pad4 (4 + n * ipfixRecordSize).
Proof. intros Hn. by apply data_pad_pad4. Qed.

(** What the arithmetic of the two encoders computes, for records of [R]
    octets. *)
Definition capacity (R size overhead : Z) : Z :=
  let k := Z.quot (size - overhead) R in
  if (0 <? k) && (size <? overhead + k * R + pad4 (4 + k * R)) then k - 1 else k.

Lemma capacity_fits R size overhead n : 3 <= R -> overhead <= size -> 0 <= n <= capacity R size overhead ->
  overhead + n * R + pad4 (4 + n * R) <= size \/ n = 0.
Proof.
  intros HR Ho Hn. destruct (Z.eq_dec n 0) as [|Hn0]; [by right|left]. unfold capacity in Hn.
  pose proof (pad4_bound (4 + n * R)). rewrite Z.quot_div_nonneg in Hn by lia.
  pose proof (Z.mul_div_le (size - overhead) R ltac:(lia)) as Hd. set (k := (size - overhead) / R) in *.
  destruct ((0 <? k) && _) eqn:E; [nia|]. destruct (Z.eq_dec n k) as [->|]; [|nia]. lia.
Qed.
Lemma capacity_nonneg R size overhead : 0 < R -> overhead <= size -> 0 <= capacity R size overhead.
Proof.
  intros HR Ho. unfold capacity. rewrite Z.quot_div_nonneg by lia. pose proof (Z.div_pos (size - overhead) R ltac:(lia) HR). case_if; lia.
Qed.
Lemma capacity_one R size overhead : 3 <= R -> overhead + R + pad4 (4 + 1 * R) <= size -> 1 <= capacity R size overhead.
Proof.
  intros HR Ho. unfold capacity. pose proof (pad4_bound (4 + 1 * R)). rewrite Z.quot_div_nonneg by lia.
  assert (Hk : 1 <= (size - overhead) / R) by (apply Z.div_le_lower_bound; lia). set (k := (size - overhead) / R) in *.
  destruct ((0 <? k) && _) eqn:E; [|lia]. destruct (Z.eq_dec k 1) as [->|]; [|lia]. lia.
Qed.
Lemma nf9_maxRecords_capacity size overhead : overhead <= size -> nf9_maxRecords size overhead = capacity nf9RecordSize size overhead.
Proof.
  intros Ho. unfold nf9_maxRecords, capacity. rewrite nf9DataPadBytes_pad4; [done|]. unfold nf9RecordSize. rewrite Z.quot_div_nonneg by lia. apply Z.div_pos; lia.
Qed.
Lemma ipfix_maxRecords_capacity size overhead : overhead <= size -> ipfix_maxRecords size overhead = capacity ipfixRecordSize size overhead.
Proof.
  intros Ho. unfold ipfix_maxRecords, capacity. rewrite ipfixDataPadBytes_pad4; [done|]. unfold ipfixRecordSize. rewrite Z.quot_div_nonneg by lia. apply Z.div_pos; lia.
Qed.

(** ** The octets of a packet *)

Lemma len_To4 ip a : To4 ip = Some a -> len a = 4.
Proof. unfold To4. case_if; [by intros [= <-]|]. destruct (_ && _) eqn:E'; [|done]. intros [= <-]. zbool. rewrite len_drop. lia. Qed.
Lemma len_ip4_or_zero ip : len (ip4_or_zero ip) = 4.
Proof. unfold ip4_or_zero. destruct (To4 ip) eqn:E; [by eapply len_To4|done]. Qed.
#[export] Hint Rewrite len_ip4_or_zero : len.

Definition nf9_record (r : FlowRecord) : bytes := written (nf9_record_writes r).
Definition ipfix_record (start : Z) (r : FlowRecord) : bytes := written (ipfix_record_writes start r).
Lemma len_nf9_record r : len (nf9_record r) = nf9RecordSize.
Proof. unfold nf9_record, written, nf9_record_writes. cbn [map wr_bytes concat]. rewrite !len_app, !len_ip4_or_zero. done. Qed.
Lemma len_ipfix_record start r : len (ipfix_record start r) = ipfixRecordSize.
Proof. unfold ipfix_record, written, ipfix_record_writes. cbn [map wr_bytes concat]. rewrite !len_app, !len_ip4_or_zero. done. Qed.

Lemma written_concat {A} (ws : A -> list wr) rs : written (concat (map ws rs)) = concat (map (fun r => written (ws r)) rs).
Proof. induction rs as [|r rs IH]; [done|]. cbn [map concat]. by rewrite written_app, IH. Qed.
Lemma len_concat_const {A} (f : A -> bytes) n rs : (forall r, len (f r) = n) -> len (concat (map f rs)) = len rs * n.
Proof. intros Hf. induction rs as [|r rs IH]; [done|]. cbn [map concat]. rewrite len_app, len_cons, Hf, IH. lia. Qed.

Definition data_set (id : Z) (recs : list bytes) : bytes := if len recs =? 0 then [] else set_bytes id (concat recs).

Definition nf9_packet (count uptime secs seq dom : Z) (tmpl : bool) (rs : list FlowRecord) : bytes :=
  be16 nf9Version ++ be16 count ++ be32 uptime ++ be32 secs ++ be32 seq ++ be32 dom ++
  (if tmpl then buildNF9Template else []) ++ data_set nf9TemplateID (map nf9_record rs).
Definition ipfix_body (secs seq dom start : Z) (tmpl : bool) (rs : list FlowRecord) : bytes :=
  be32 secs ++ be32 seq ++ be32 dom ++ (if tmpl then buildIPFIXTemplateSet else []) ++ data_set ipfixTemplateID (map (ipfix_record start) rs).
Definition ipfix_packet (secs seq dom start : Z) (tmpl : bool) (rs : list FlowRecord) : bytes :=
  let body := ipfix_body secs seq dom start tmpl rs in be16 ipfixVersion ++ be16 (4 + len body) ++ body.

Lemma len_data_set {A} id (f : A -> bytes) R rs : (forall r, len (f r) = R) -> rs <> [] ->
  len (data_set id (map f rs)) = 4 + len rs * R + pad4 (4 + len rs * R).
Proof.
  intros Hf Hne. unfold data_set. rewrite len_map. case_if; [by apply len_0_nil in E|].
  by rewrite len_set_bytes, (len_concat_const f R).
Qed.

(** A data set written into the space that is left. *)
Lemma padded_set_data {A} id (enc : bytes -> Z -> A -> res (bytes * Z)) ws rs pre rest :
  (forall buf pos r, enc buf pos r = write buf pos (ws r)) -> rs <> [] ->
  let d := data_set id (map (fun r => written (ws r)) rs) in
  len d <= len rest -> len d < 2 ^ 16 ->
  padded_set id enc (pre ++ rest) (len pre) rs = Ok (pre ++ d ++ drop (Z.to_nat (len d)) rest, len pre + len d).
Proof.
  intros He Hne d. assert (Hd : d = set_bytes id (written (concat (map ws rs)))).
  { subst d. unfold data_set. rewrite len_map. case_if; [by apply len_0_nil in E|]. by rewrite written_concat. }
  rewrite Hd. intros Hl Hw. by apply padded_set_spec.
Qed.

(** The slice the encoders cut the batch to. *)
Lemma cut_to_capacity {A} (rs : list A) k : 0 <= k -> (if k <? len rs then slice rs 0 k else Ok rs) = Ok (take (Z.to_nat k) rs).
Proof.
  intros Hk. case_if.
  - unfold slice. destruct (_ || _) eqn:E'; [lia|]. by rewrite Z.sub_0_r.
  - rewrite take_ge; [done|]. unfold len in E. lia.
Qed.
Lemma take_none {A} (rs : list A) k : 1 <= k -> rs <> [] -> take (Z.to_nat k) rs <> [].
Proof. intros Hk Hne. destruct rs; [done|]. destruct (Z.to_nat k) eqn:E; [lia|done]. Qed.
Lemma len_buildNF9Template : len buildNF9Template = nf9TemplFlowSetSize.
Proof. reflexivity. Qed.
Lemma len_buildIPFIXTemplateSet : len buildIPFIXTemplateSet = ipfixTemplSetSize.
Proof. reflexivity. Qed.

Definition nf9_overhead (tmpl : bool) : Z := nf9HeaderSize + 4 + (if tmpl then nf9TemplFlowSetSize else 0).
Definition ipfix_overhead (tmpl : bool) : Z := ipfixHeaderSize + 4 + (if tmpl then ipfixTemplSetSize else 0).
(** Room for the template and one record. *)
Definition roomy (R overhead size : Z) : Prop := overhead + R + pad4 (4 + 1 * R) <= size < 2 ^ 16.

Lemma data_set_room {A} id (f : A -> bytes) R size overhead rs :
  (forall r, len (f r) = R) -> 3 <= R -> roomy R overhead size -> 4 <= overhead ->
  let sent := take (Z.to_nat (capacity R size overhead)) rs in
  overhead - 4 + len (data_set id (map f sent)) <= size.
Proof.
  intros Hf HR [Hr Hw] Ho sent. pose proof (pad4_bound (4 + 1 * R)).
  assert (Hs : 0 <= len sent <= capacity R size overhead).
  { pose proof (capacity_nonneg R size overhead ltac:(lia) ltac:(lia)). unfold sent. rewrite len_take. pose proof (len_nonneg rs). lia. }
  destruct (decide (sent = [])) as [->|Hne]; [change (len (data_set id (map f []))) with 0; lia|]. rewrite (len_data_set id f R) by done.
  pose proof (capacity_fits R size overhead (len sent) HR ltac:(lia) Hs) as [|H0]; [lia|]. by apply len_0_nil in H0.
Qed.

(** Writing at the start of a buffer. *)
Lemma write_start ws buf : len (written ws) <= len buf -> write buf 0 ws = Ok (written ws ++ drop (Z.to_nat (len (written ws))) buf, len (written ws)).
Proof. intros Hl. exact (write_fits ws [] buf Hl). Qed.

Lemma write_template (tmpl : bool) T pre rest : len (if tmpl then T else []) <= len rest ->
  (if tmpl then write (pre ++ rest) (len pre) [Copy T] else Ok (pre ++ rest, len pre)) =
  Ok ((pre ++ (if tmpl then T else [])) ++ drop (Z.to_nat (len (if tmpl then T else []))) rest, len (pre ++ (if tmpl then T else []))).
Proof.
  intros Hl. destruct tmpl; cbn [len length Z.of_nat Z.to_nat drop].
  - rewrite write_fits by (cbn [written map wr_bytes concat]; by rewrite app_nil_r). cbn [written map wr_bytes concat]. by rewrite app_nil_r, len_app, <- app_assoc.
  - by rewrite app_nil_r.
Qed.

Lemma nf9_EncodePacket_spec now dom seq up rs (tmpl : bool) buf :
  rs <> [] \/ tmpl = true -> roomy nf9RecordSize (nf9_overhead tmpl) (len buf) ->
  let sent := take (Z.to_nat (capacity nf9RecordSize (len buf) (nf9_overhead tmpl))) rs in
  let P := nf9_packet (u16 (len sent + (if tmpl then 1 else 0))) up (u32 (unix now)) seq dom tmpl sent in
  nf9_EncodePacket now dom seq up rs tmpl buf = Ok (P ++ drop (Z.to_nat (len P)) buf, Some (len P)) /\ len P <= len buf.
Proof.
  intros Hne Hroom sent P. pose proof Hroom as [Hr Hw]. pose proof (pad4_bound (4 + 1 * nf9RecordSize)) as Hpad.
  pose proof (data_set_room nf9TemplateID nf9_record nf9RecordSize (len buf) (nf9_overhead tmpl) rs len_nf9_record) as Hd. fold sent in Hd.
  unfold nf9RecordSize, nf9_overhead, nf9HeaderSize, nf9TemplFlowSetSize in *. specialize (Hd ltac:(lia) Hroom ltac:(destruct tmpl; lia)).
  assert (HT : len (if tmpl then buildNF9Template else []) = if tmpl then 84 else 0) by (by destruct tmpl).
  unfold nf9_EncodePacket. destruct ((len rs =? 0) && negb tmpl) eqn:E0.
  { zbool. destruct Hne as [Hne|Hne]; [by apply len_0_nil in H|by rewrite Hne in *]. }
  change (nf9DataPadBytes 1) with (pad4 (4 + 1 * 46)). unfold nf9RecordSize, nf9HeaderSize, nf9TemplFlowSetSize.
  destruct (len buf <? _) eqn:E1; [lia|]. destruct (_ && (0 <? len rs)) eqn:E2; [lia|]. rewrite nf9_maxRecords_capacity by lia. unfold nf9RecordSize.
  rewrite cut_to_capacity by (apply capacity_nonneg; lia). fold sent. cbn [res_bind]. set (d := data_set nf9TemplateID (map nf9_record sent)) in *.
  pose proof (len_nonneg d) as Hd0. rewrite write_start by (change (len (written _)) with 20; destruct tmpl; lia). cbn [res_bind].
  set (H := written _). assert (HH : len H = 20) by done. rewrite write_template by (rewrite len_drop, HH, HT; destruct tmpl; lia). cbn [res_bind].
  assert (HP : P = (H ++ (if tmpl then buildNF9Template else [])) ++ d) by (unfold P, nf9_packet; by rewrite <- !app_assoc).
  set (A := H ++ _) in *. assert (HA : len A = 20 + if tmpl then 84 else 0) by (unfold A; rewrite len_app, HT, HH; done).
  rewrite drop_drop. replace (Z.to_nat (len H) + Z.to_nat _)%nat with (Z.to_nat (len A)) by (rewrite HA, HH, HT; destruct tmpl; lia).
  assert (HPl : len P = len A + len d) by (by rewrite HP, len_app). split; [|rewrite HPl, HA; destruct tmpl; lia].
  destruct (len sent =? 0) eqn:Es; zbool.
  { assert (Hd' : d = []) by (unfold d; apply len_0_nil in Es; by rewrite Es). by rewrite HPl, HP, Hd', app_nil_r, len_nil, Z.add_0_r. }
  assert (Hsn : sent <> []) by (intros Hz; by rewrite Hz in Es).
  rewrite (padded_set_data nf9TemplateID encodeNF9Record nf9_record_writes sent) by (done || (fold nf9_record d; rewrite ?len_drop; destruct tmpl; lia)).
  change (map (fun r => written (nf9_record_writes r)) sent) with (map nf9_record sent). fold d. cbn [res_bind].
  pose proof (len_nonneg A). rewrite HPl, drop_drop, HP, <- app_assoc. by rewrite Z2Nat.inj_add by lia.
Qed.

(** A header with a gap of two octets after its first field, filled in last. *)
Lemma write_header_gap V ws buf : len V = 2 -> 4 + len (written ws) <= len buf ->
  exists b g, write buf 0 [Put V] = Ok (b, 2) /\ len g = 2 /\
    write b 4 ws = Ok ((V ++ g ++ written ws) ++ drop (Z.to_nat (4 + len (written ws))) buf, len (V ++ g ++ written ws)).
Proof.
  intros HV Hl. destruct (split_gap buf 4) as (g & rest & -> & Hg); [pose proof (len_nonneg (written ws)); lia|].
  destruct (split_gap g 2) as (g1 & g2 & -> & Hg1); [lia|]. rewrite !len_app in *.
  exists (V ++ g2 ++ rest), g2. assert (HV1 : written [Put V] = V) by (unfold written; cbn; by rewrite app_nil_r). split_and!; [|lia|].
  - rewrite write_start by (rewrite HV1, !len_app; pose proof (len_nonneg rest); lia). rewrite HV1, HV. rewrite <- app_assoc, <- Hg1 at 1. by rewrite drop_len_app.
  - replace 4 with (len (V ++ g2)) by (rewrite len_app; lia). rewrite app_assoc, write_fits by lia. rewrite <- app_assoc, <- !len_app, <- !app_assoc. do 5 f_equal.
    rewrite (app_assoc g1 g2). replace (len (V ++ g2 ++ written ws)) with (len (g1 ++ g2) + len (written ws)) by (rewrite !len_app; lia).
    by rewrite drop_len_app_more by apply len_nonneg.
Qed.

Lemma ipfix_EncodePacket_spec now dom seq up rs (tmpl : bool) buf :
  rs <> [] \/ tmpl = true -> roomy ipfixRecordSize (ipfix_overhead tmpl) (len buf) ->
  let sent := take (Z.to_nat (capacity ipfixRecordSize (len buf) (ipfix_overhead tmpl))) rs in
  let P := ipfix_packet (u32 (Z.quot (unixMilli now) 1000)) seq dom (deviceStart (unixMilli now) up) tmpl sent in
  ipfix_EncodePacket now dom seq up rs tmpl buf = Ok (P ++ drop (Z.to_nat (len P)) buf, Some (len P)) /\ len P <= len buf.
Proof.
  intros Hne Hroom sent P. pose proof Hroom as [Hr Hw]. pose proof (pad4_bound (4 + 1 * ipfixRecordSize)) as Hpad. set (start := deviceStart (unixMilli now) up) in *.
  pose proof (data_set_room ipfixTemplateID (ipfix_record start) ipfixRecordSize (len buf) (ipfix_overhead tmpl) rs (len_ipfix_record start)) as Hd. fold sent in Hd.
  unfold ipfixRecordSize, ipfix_overhead, ipfixHeaderSize, ipfixTemplSetSize in *. specialize (Hd ltac:(lia) Hroom ltac:(destruct tmpl; lia)).
  assert (HT : len (if tmpl then buildIPFIXTemplateSet else []) = if tmpl then 84 else 0) by (by destruct tmpl).
  unfold ipfix_EncodePacket. destruct ((len rs =? 0) && negb tmpl) eqn:E0.
  { zbool. destruct Hne as [Hne|Hne]; [by apply len_0_nil in H|by rewrite Hne in *]. }
  change (ipfixDataPadBytes 1) with (pad4 (4 + 1 * 54)). unfold ipfixRecordSize, ipfixHeaderSize, ipfixTemplSetSize. cbv zeta. fold start.
  destruct (len buf <? _) eqn:E1; [lia|]. destruct (_ && (0 <? len rs)) eqn:E2; [lia|]. rewrite ipfix_maxRecords_capacity by lia. unfold ipfixRecordSize.
  rewrite cut_to_capacity by (apply capacity_nonneg; lia). fold sent. cbn [res_bind]. set (d := data_set ipfixTemplateID (map (ipfix_record start) sent)) in *.
  pose proof (len_nonneg d) as Hd0. set (V := be16 ipfixVersion). set (HW := [Put (be32 _); Put _; Put _]). assert (HH : len (written HW) = 12) by done.
  destruct (write_header_gap V HW buf) as (b & g & -> & Hg & Hh); [done|rewrite HH; destruct tmpl; lia|]. cbn [res_bind]. change (2 + 2) with 4. rewrite Hh. cbn [res_bind]. clear Hh b.
  remember (written HW) as H eqn:HHd. rewrite HH. change (4 + 12) with 16. rewrite write_template by (rewrite len_drop, HT; destruct tmpl; lia). cbn [res_bind].
  set (T := if tmpl then buildIPFIXTemplateSet else []) in *. set (A := (V ++ g ++ H) ++ T).
  assert (HA : len A = 16 + len T) by (unfold A; rewrite !len_app, HH; change (len V) with 2; lia).
  rewrite drop_drop. replace (Z.to_nat 16 + Z.to_nat (len T))%nat with (Z.to_nat (len A)) by (rewrite HA, HT; destruct tmpl; lia).
  assert (Hset : (if len sent =? 0 then Ok (A ++ drop (Z.to_nat (len A)) buf, len A)
    else padded_set ipfixTemplateID (encodeIPFIXRecord start) (A ++ drop (Z.to_nat (len A)) buf) (len A) sent) =
    Ok (A ++ d ++ drop (Z.to_nat (len A + len d)) buf, len A + len d)).
  { destruct (len sent =? 0) eqn:Es; zbool.
    { assert (Hd' : d = []) by (unfold d; apply len_0_nil in Es; by rewrite Es). by rewrite Hd', len_nil, Z.add_0_r. }
    assert (Hsn : sent <> []) by (intros Hz; by rewrite Hz in Es).
    rewrite (padded_set_data ipfixTemplateID (encodeIPFIXRecord start) (ipfix_record_writes start) sent); try done;
      change (map (fun r => written (ipfix_record_writes start r)) sent) with (map (ipfix_record start) sent); fold d; [|rewrite ?len_drop; destruct tmpl; lia..].
    rewrite drop_drop, Z2Nat.inj_add; [done|apply len_nonneg|done]. }
  rewrite Hset. cbn [res_bind]. clear Hset. assert (HB : ipfix_body (u32 (unixMilli now ÷ 1000)) seq dom start tmpl sent = H ++ T ++ d) by (unfold ipfix_body; rewrite HHd; by rewrite <- !app_assoc).
  assert (HPe : P = V ++ be16 (len A + len d) ++ H ++ T ++ d).
  { unfold P, ipfix_packet. rewrite HB. do 3 f_equal. rewrite HA, !len_app, HH. lia. }
  assert (HPl : len P = len A + len d) by (rewrite HPe, HA, !len_app, len_be16, HH; change (len V) with 2; lia). rewrite HPl. clearbody P.
  split; [|rewrite HA, HT; destruct tmpl; lia]. change 2 with (len V) at 1. unfold A at 1. rewrite <- !app_assoc. rewrite put_over by (by rewrite len_be16).
  cbn [res_bind]. unfold u16. rewrite Z.mod_small by (rewrite HA, HT; destruct tmpl; lia). by rewrite HPe, <- !app_assoc.
Qed.
