(* ===== verification/FlowCollect.v ===== *)
(** * What a collector reads (netflow9.go, ipfix.go)

    The datagrams of the two template protocols, read by the collector of
    [FlowTemplates]: it learns the templates the encoders send and reads by them
    the records the encoders wrote, with the values the protocols assign to each
    element. *)

From stdpp Require Import gmap.
From S2P Require Import Prelude GoStrings Ber FlowWire FlowTemplates.

(** ** Reading one field *)

Lemma take_n_app n v b : len v = n -> take_n n (v ++ b) = Some (v, b).
Proof.
  intros <-. unfold take_n. pose proof (len_nonneg v). pose proof (len_nonneg b). rewrite len_app. destruct (_ || _) eqn:E; [lia|].
  by rewrite take_len_app, drop_len_app.
Qed.
Lemma num_n_app n v b : len v = n -> num_n n (v ++ b) = Some (be_val 0 v, b).
Proof. intros Hl. unfold num_n. by rewrite take_n_app. Qed.
Lemma num_be16 v b : 0 <= v < 2 ^ 16 -> num_n 2 (be16 v ++ b) = Some (v, b).
Proof. intros Hv. rewrite num_n_app by done. by rewrite be16_val, Z.mod_small. Qed.
Lemma num_be32 v b : 0 <= v < 2 ^ 32 -> num_n 4 (be32 v ++ b) = Some (v, b).
Proof. intros Hv. rewrite num_n_app by done. by rewrite be32_val, Z.mod_small. Qed.

(** ** Records *)

(** The octets of a field of a template. *)
Definition shaped (f : Z * Z) (v : bytes) : Prop := len v = snd f.

Lemma read_fields_concat fields vals b :
  Forall2 shaped fields vals -> read_fields fields (concat vals ++ b) = Some (combine (map fst fields) vals, b).
Proof.
  induction 1 as [|[t l] v fields vals Hl _ IH]; [done|]. unfold shaped in Hl. cbn [concat read_fields map combine fst snd] in *.
  rewrite <- app_assoc, take_n_app by done. cbn. by rewrite IH.
Qed.

Lemma record_len_sum fields vals : Forall2 shaped fields vals -> len (concat vals) = record_len fields.
Proof. induction 1 as [|[t l] v fields vals Hl _ IH]; [done|]. unfold shaped in Hl. cbn [concat record_len fold_right snd] in *. rewrite len_app, Hl, IH. done. Qed.

Lemma read_records_concat fields (recs : list (list bytes)) pad fuel :
  Forall (Forall2 shaped fields) recs -> 0 <= len pad < record_len fields -> (length recs <= fuel)%nat ->
  read_records fuel fields (concat (map (@concat Z) recs) ++ pad) = Some (map (combine (map fst fields)) recs).
Proof.
  intros Hr Hp. revert fuel. induction Hr as [|vals recs Hv _ IH]; intros fuel Hf.
  - cbn [map concat app]. destruct fuel; cbn [read_records]; (destruct (len pad <? _) eqn:E; [done|lia]).
  - cbn [map concat length] in *. destruct fuel as [|fuel]; [lia|]. cbn [read_records]. rewrite <- app_assoc, len_app, (record_len_sum _ _ Hv).
    pose proof (len_nonneg (concat (map (@concat Z) recs) ++ pad)). destruct (_ <? _) eqn:E; [lia|]. rewrite read_fields_concat by done. cbn. rewrite IH by lia. done.
Qed.

(** ** Sets *)

Lemma read_sets_nil fuel d ts : read_sets fuel d ts [] = Some (ts, []).
Proof. by destruct fuel. Qed.

(** The records of a data set; [vals] are the octets of a record's fields. *)
Lemma read_data_set {A} fuel d ts id fields (f : A -> bytes) (vals : A -> list bytes) rs b :
  ts !! id = Some fields -> id <> template_set d -> id <> options_set d -> 0 <= id < 2 ^ 16 -> 4 <= record_len fields ->
  (forall r, r ∈ rs -> f r = concat (vals r) /\ Forall2 shaped fields (vals r)) ->
  len (data_set id (map f rs)) < 2 ^ 16 -> (length (data_set id (map f rs)) <= fuel)%nat ->
  read_sets fuel d ts (data_set id (map f rs) ++ b) =
    '(ts', rs') ← read_sets (if len rs =? 0 then fuel else pred fuel) d ts b; Some (ts', map (fun r => (id, combine (map fst fields) (vals r))) rs ++ rs').
Proof.
  intros Hts Hi1 Hi2 Hid Hrl Hf Hl Hfuel. destruct rs as [|r0 rs0] eqn:Ers.
  { change (data_set id (map f []) ++ b) with b. change (len [] =? 0) with true. by destruct (read_sets fuel d ts b) as [[ts' rs']|]. }
  rewrite <- Ers in *. assert (Hne : len rs <> 0) by (rewrite Ers, len_cons; pose proof (len_nonneg rs0); lia). clear Ers.
  revert Hl Hfuel. unfold data_set. rewrite len_map. destruct (len rs =? 0) eqn:E; [lia|]. intros Hl Hfuel.
  assert (Hrecs : concat (map f rs) = concat (map (@concat Z) (map vals rs))).
  { f_equal. rewrite map_map. apply map_ext_in. intros r Hr. apply Hf. by apply list_elem_of_In. }
  set (body := concat (map f rs)) in *. rewrite len_set_bytes in Hl. pose proof (pad4_bound (4 + len body)) as Hp. pose proof (len_nonneg body) as Hb0.
  assert (Hall : Forall (Forall2 shaped fields) (map vals rs)).
  { apply List.Forall_forall. intros vs Hvs. apply in_map_iff in Hvs as (r & <- & Hr). apply Hf. by apply list_elem_of_In. }
  destruct fuel as [|fuel]. { unfold set_bytes, be16 in Hfuel. cbn [length app] in Hfuel. lia. }
  unfold set_bytes. rewrite <- !app_assoc. set (n := 4 + len body + _) in *. set (pd := repeat 0 _).
  assert (Hpd : len pd = pad4 (4 + len body)) by (unfold pd, len; rewrite repeat_length; unfold len in *; lia). clearbody pd.
  unfold be16 at 1. cbn [app read_sets]. change (u8 (Z.shiftr id 8) :: u8 id :: be16 n ++ body ++ pd ++ b) with (be16 id ++ be16 n ++ body ++ pd ++ b).
  rewrite num_be16 by done. cbn. rewrite num_be16 by (unfold n; lia). cbn. rewrite app_assoc, take_n_app by (rewrite len_app; unfold n; lia).
  cbn. destruct (id =? template_set d) eqn:E1; [lia|]. destruct (id =? options_set d) eqn:E2; [lia|]. rewrite Hts. cbn. rewrite Hrecs.
  rewrite (read_records_concat fields (map vals rs)); [|done|lia|].
  - cbn. destruct (read_sets fuel d ts b) as [[ts' rs']|]; [|done]. cbn. rewrite !map_map. done.
  - rewrite length_app, <- Hrecs. enough (len (map vals rs) <= len body) by (unfold len in *; lia). rewrite len_map, Hrecs.
    clear -Hall Hrl. induction rs as [|r rs IH]; [done|]. cbn [map concat] in *. inversion_clear Hall as [|? ? Hv Hall']. rewrite len_app, len_cons, (record_len_sum _ _ Hv).
    specialize (IH Hall'). lia.
Qed.

(** A set that defines a template. *)
Lemma read_template_set fuel d ts ts1 id n body b :
  0 <= id < 2 ^ 16 -> 0 <= n < 2 ^ 16 -> len body = n - 4 ->
  (if id =? template_set d then read_template body ts else if id =? options_set d then read_options_template d body ts else None) = Some ts1 ->
  read_sets (S fuel) d ts ((be16 id ++ be16 n ++ body) ++ b) = read_sets fuel d ts1 b.
Proof.
  intros Hid Hn Hl Ht. rewrite <- !app_assoc. unfold be16 at 1. cbn [app read_sets].
  change (u8 (Z.shiftr id 8) :: u8 id :: be16 n ++ body ++ b) with (be16 id ++ be16 n ++ body ++ b).
  rewrite num_be16 by done. cbn. rewrite num_be16 by done. cbn. rewrite take_n_app by done. cbn.
  destruct (id =? template_set d); [|destruct (id =? options_set d); [|done]]; rewrite Ht; cbn; by destruct (read_sets fuel d ts1 b) as [[]|].
Qed.

Lemma read_nf9_template fuel ts b :
  read_sets (S fuel) nf9_dialect ts (buildNF9Template ++ b) = read_sets fuel nf9_dialect (<[nf9TemplateID := nf9Fields]> ts) b.
Proof.
  set (body := drop 4 buildNF9Template). change buildNF9Template with (be16 0 ++ be16 84 ++ body).
  apply read_template_set; [lia|lia|reflexivity|reflexivity].
Qed.
Lemma read_ipfix_template fuel ts b :
  read_sets (S fuel) ipfix_dialect ts (buildIPFIXTemplateSet ++ b) = read_sets fuel ipfix_dialect (<[ipfixTemplateID := ipfixFields]> ts) b.
Proof.
  set (body := drop 4 buildIPFIXTemplateSet). change buildIPFIXTemplateSet with (be16 2 ++ be16 84 ++ body).
  apply read_template_set; [lia|lia|reflexivity|reflexivity].
Qed.

(** ** Values *)

Lemma be_val_byte x : be_val 0 [x] = x.
Proof. done. Qed.
Lemma be_val_ip ip : be_val 0 (ip4_or_zero ip) = addr_val ip.
Proof. unfold ip4_or_zero, addr_val. by destruct (To4 ip). Qed.
Lemma be_val_clamp b : 0 <= b -> be_val 0 (be32 (clamp32 b)) = Z.min b (2 ^ 32 - 1).
Proof.
  intros Hb. rewrite be32_val. unfold clamp32, u32. rewrite Z.mod_mod by lia. case_if; [rewrite Z.min_r by lia; reflexivity|].
  rewrite Z.mod_small, Z.min_l by lia. done.
Qed.

Definition nf9_vals (r : FlowRecord) : list bytes := map wr_bytes (nf9_record_writes r).
Definition ipfix_vals (start : Z) (r : FlowRecord) : list bytes := map wr_bytes (ipfix_record_writes start r).
Lemma nf9_vals_shaped r : Forall2 shaped nf9Fields (nf9_vals r).
Proof. unfold nf9_vals, nf9Fields, nf9_record_writes. cbn [map wr_bytes]. repeat (constructor; [first [reflexivity|apply len_ip4_or_zero]|]). constructor. Qed.
Lemma ipfix_vals_shaped start r : Forall2 shaped ipfixFields (ipfix_vals start r).
Proof. unfold ipfix_vals, ipfixFields, ipfix_record_writes. cbn [map wr_bytes]. repeat (constructor; [first [reflexivity|apply len_ip4_or_zero]|]). constructor. Qed.

(** A record, as its elements. *)
Definition elements (fields : list (Z * Z)) (value : Z -> Z) : list (Z * Z) := map (fun '(ie, _) => (ie, value ie)) fields.

Lemma element_time start ms : 0 <= start < 2 ^ 62 -> 0 <= ms < 2 ^ 32 -> be_val 0 (be64 (u64 (s64 (start + ms)))) = start + ms.
Proof.
  intros Hs Hm. rewrite be64_val. unfold u64, s64. rewrite (Z.mod_small (start + ms + 2 ^ 63)) by lia.
  replace (start + ms + 2 ^ 63 - 2 ^ 63) with (start + ms) by lia. rewrite !Z.mod_small by (rewrite ?Z.mod_small; lia). done.
Qed.
Lemma cons_element (t a b : Z) l k : a = b -> l = k -> (t, a) :: l = (t, b) :: k.
Proof. by intros -> ->. Qed.
(** One field after the other: the octets read as the value. *)
Ltac read_value :=
  lazymatch goal with
  | |- be_val 0 [?x] = _ => exact (be_val_byte x)
  | |- be_val 0 (ip4_or_zero ?ip) = _ => exact (be_val_ip ip)
  | H : 0 <= Bytes_ _ < _ |- be_val 0 (be32 (clamp32 _)) = _ => exact (be_val_clamp _ (proj1 H))
  | H : 0 <= ?x < 2 ^ 16 |- be_val 0 (be16 ?x) = _ => exact (eq_trans (be16_val x) (Z.mod_small _ _ H))
  | H : 0 <= ?x < 2 ^ 32 |- be_val 0 (be32 ?x) = _ => exact (eq_trans (be32_val x) (Z.mod_small _ _ H))
  | |- be_val 0 (be64 _) = _ => apply element_time; assumption
  end.
Ltac read_values := repeat (apply cons_element; [read_value|]); reflexivity.

Lemma nf9_numbers r : record_ok r -> numbers (combine (map fst nf9Fields) (nf9_vals r)) = elements nf9Fields (element r).
Proof.
  intros (_ & _ & _ & ? & ? & ? & ? & ? & Hb & ? & ? & ? & ? & ? & ? & ? & ? & ?).
  unfold numbers, elements, nf9_vals, nf9Fields, nf9_record_writes. cbn [map combine fst wr_bytes]. unfold element. read_values.
Qed.

Lemma ipfix_numbers start r : 0 <= start < 2 ^ 62 -> record_ok r ->
  numbers (combine (map fst ipfixFields) (ipfix_vals start r)) = elements ipfixFields (element_abs start r).
Proof.
  intros Hs (_ & _ & _ & ? & ? & ? & ? & ? & Hb & ? & ? & ? & ? & ? & ? & ? & ? & ?).
  unfold numbers, elements, ipfix_vals, ipfixFields, ipfix_record_writes. cbn [map combine fst wr_bytes]. unfold element_abs, element. cbn [Z.eqb Pos.eqb]. read_values.
Qed.

(** ** Whole datagrams *)

Lemma nf9Template_nonempty : buildNF9Template <> [].
Proof. by vm_compute. Qed.
Lemma ipfixTemplate_nonempty : buildIPFIXTemplateSet <> [].
Proof. by vm_compute. Qed.
#[local] Opaque buildNF9Template buildIPFIXTemplateSet.

Lemma data_set_length {A} id (f : A -> bytes) rs : rs <> [] -> (1 <= length (data_set id (map f rs)))%nat.
Proof.
  intros Hne. unfold data_set. rewrite len_map. case_if; [by apply len_0_nil in E|]. pose proof (len_set_bytes id (concat (map f rs))). pose proof (pad4_bound (4 + len (concat (map f rs)))).
  pose proof (len_nonneg (concat (map f rs))). unfold len in *. lia.
Qed.

(** The sets of a packet of either dialect: an optional template set, then the
    records. *)
Lemma read_packet_sets {A} d ts (tmpl : bool) T id fields (f : A -> bytes) (vals : A -> list bytes) rs :
  (forall fuel ts b, read_sets (S fuel) d ts (T ++ b) = read_sets fuel d (<[id := fields]> ts) b) -> T <> [] ->
  tmpl = true \/ ts !! id = Some fields -> id <> template_set d -> id <> options_set d -> 0 <= id < 2 ^ 16 -> 4 <= record_len fields ->
  (forall r, r ∈ rs -> f r = concat (vals r) /\ Forall2 shaped fields (vals r)) -> len (data_set id (map f rs)) < 2 ^ 16 ->
  let b := (if tmpl then T else []) ++ data_set id (map f rs) in
  read_sets (length b) d ts b = Some (if tmpl then <[id := fields]> ts else ts, map (fun r => (id, combine (map fst fields) (vals r))) rs).
Proof.
  intros HT HTn Hk H1 H2 Hid Hrl Hf Hl b.
  assert (Hdata : forall fuel ts, ts !! id = Some fields -> (length (data_set id (map f rs)) <= fuel)%nat ->
    read_sets fuel d ts (data_set id (map f rs)) = Some (ts, map (fun r => (id, combine (map fst fields) (vals r))) rs)).
  { intros fuel ts' Hts Hfuel. pose proof (read_data_set fuel d ts' id fields f vals rs []) as Hr. rewrite !app_nil_r in Hr. rewrite Hr by done.
    rewrite read_sets_nil. cbn. by rewrite app_nil_r. }
  subst b. destruct tmpl; cbn [app].
  - destruct T as [|t T']; [done|]. rewrite length_app. cbn [length Nat.add]. rewrite HT, Hdata; [done|apply lookup_insert_eq|lia].
  - destruct Hk as [|Hk]; [done|]. rewrite Hdata; done.
Qed.

Lemma collect9_packet ts count up secs seq dom (tmpl : bool) rs :
  tmpl = true \/ ts !! nf9TemplateID = Some nf9Fields ->
  0 <= count < 2 ^ 16 -> 0 <= up < 2 ^ 32 -> 0 <= secs < 2 ^ 32 -> 0 <= seq < 2 ^ 32 -> 0 <= dom < 2 ^ 32 ->
  len (data_set nf9TemplateID (map nf9_record rs)) < 2 ^ 16 ->
  collect9 ts (nf9_packet count up secs seq dom tmpl rs) =
    Some {| r9_count := count; r9_uptime := up; r9_secs := secs; r9_seq := seq; r9_source := dom;
            r9_templates := if tmpl then <[nf9TemplateID := nf9Fields]> ts else ts;
            r9_records := map (fun r => (nf9TemplateID, combine (map fst nf9Fields) (nf9_vals r))) rs |}.
Proof.
  intros Hk Hc Hu Hs Hq Hd Hl. unfold collect9, nf9_packet. rewrite (num_be16 nf9Version) by done. cbn.
  rewrite num_be16 by done. cbn. rewrite num_be32 by done. cbn. rewrite num_be32 by done. cbn. rewrite num_be32 by done. cbn. rewrite num_be32 by done. cbn.
  rewrite (read_packet_sets nf9_dialect ts tmpl buildNF9Template nf9TemplateID nf9Fields nf9_record nf9_vals rs read_nf9_template nf9Template_nonempty Hk); [done|done|done|done|done| |done].
  intros r _. split; [reflexivity|apply nf9_vals_shaped].
Qed.

Lemma collect10_packet ts secs seq dom start (tmpl : bool) rs :
  tmpl = true \/ ts !! ipfixTemplateID = Some ipfixFields ->
  0 <= secs < 2 ^ 32 -> 0 <= seq < 2 ^ 32 -> 0 <= dom < 2 ^ 32 -> len (ipfix_packet secs seq dom start tmpl rs) < 2 ^ 16 ->
  collect10 ts (ipfix_packet secs seq dom start tmpl rs) =
    Some {| r10_length := len (ipfix_packet secs seq dom start tmpl rs); r10_secs := secs; r10_seq := seq; r10_domain := dom;
            r10_templates := if tmpl then <[ipfixTemplateID := ipfixFields]> ts else ts;
            r10_records := map (fun r => (ipfixTemplateID, combine (map fst ipfixFields) (ipfix_vals start r))) rs |}.
Proof.
  intros Hk Hs Hq Hd Hl. assert (HP : len (ipfix_packet secs seq dom start tmpl rs) = 4 + len (ipfix_body secs seq dom start tmpl rs)).
  { unfold ipfix_packet. rewrite !len_app, !len_be16. lia. }
  unfold collect10. rewrite HP in *. set (n := 4 + _) in *. unfold ipfix_packet. fold n. pose proof (len_nonneg (ipfix_body secs seq dom start tmpl rs)).
  rewrite (num_be16 ipfixVersion) by done. cbn. rewrite num_be16 by (unfold n; lia). cbn. rewrite Z.eqb_refl. cbn.
  unfold ipfix_body. rewrite num_be32 by done. cbn. rewrite num_be32 by done. cbn. rewrite num_be32 by done. cbn.
  rewrite (read_packet_sets ipfix_dialect ts tmpl buildIPFIXTemplateSet ipfixTemplateID ipfixFields (ipfix_record start) (ipfix_vals start) rs read_ipfix_template ipfixTemplate_nonempty Hk); [done|done|done|done|done| |].
  - intros r _. split; [reflexivity|apply ipfix_vals_shaped].
  - unfold n, ipfix_body in Hl. rewrite !len_app in Hl. pose proof (len_nonneg (if tmpl then buildIPFIXTemplateSet else [])). rewrite !len_be32 in Hl. lia.
Qed.

(** ** Option tables *)

Definition option_record (desc : flowOptionShapeDesc) (dom : Z) (ifc : flowOptionIface) : bytes := written (option_writes desc dom ifc).
(** How many interfaces the set takes. *)
Definition option_count (desc : flowOptionShapeDesc) (room : Z) (ifaces : list flowOptionIface) : Z := Z.min (len ifaces) ((room - 4) / recSize desc).

Definition desc_ok (desc : flowOptionShapeDesc) (dom : Z) : Prop :=
  (forall ifc, len (option_record desc dom ifc) = recSize desc) /\ 4 <= recSize desc /\ recSize desc mod 4 = 0.

Lemma option_set_aligned desc dom id ifs : desc_ok desc dom -> ifs <> [] ->
  data_set id (map (option_record desc dom) ifs) = be16 id ++ be16 (4 + len ifs * recSize desc) ++ concat (map (option_record desc dom) ifs) /\
  len (data_set id (map (option_record desc dom) ifs)) = 4 + len ifs * recSize desc.
Proof.
  intros (Hl & H4 & Hm) Hne. assert (Hpad : pad4 (4 + len ifs * recSize desc) = 0).
  { unfold pad4. replace (4 + len ifs * recSize desc) with (0 + (1 + len ifs * (recSize desc / 4)) * 4) by (pose proof (Z.div_mod (recSize desc) 4); lia).
    by rewrite Z_mod_plus_full. }
  rewrite (len_data_set id _ (recSize desc)) by done. split; [|lia]. unfold data_set. rewrite len_map. case_if; [by apply len_0_nil in E|].
  unfold set_bytes. rewrite (len_concat_const _ (recSize desc)), Hpad, Z.add_0_r by done. by rewrite app_nil_r.
Qed.

Lemma encodeOptionRecords_spec desc dom id ifs pre rest :
  desc_ok desc dom -> ifs <> [] -> 4 + recSize desc <= len rest < 2 ^ 16 ->
  let k := option_count desc (len rest) ifs in
  let d := data_set id (map (option_record desc dom) (take (Z.to_nat k) ifs)) in
  encodeOptionRecords (pre ++ rest) (len pre) id desc dom ifs = Ok (pre ++ d ++ drop (Z.to_nat (len d)) rest, len pre + len d, k) /\
  1 <= k <= len ifs /\ len d <= len rest.
Proof.
  intros Hok Hne Hroom k d. pose proof Hok as (Hlen & H4 & Hm). unfold encodeOptionRecords.
  replace (len (pre ++ rest) - len pre - 4) with (len rest - 4) by (rewrite len_app; lia). rewrite Z.quot_div_nonneg by lia.
  assert (Hk : (if (len rest - 4) / recSize desc <? len ifs then (len rest - 4) / recSize desc else len ifs) = k) by (unfold k, option_count; case_if; lia).
  rewrite Hk. assert (Hk1 : 1 <= k <= len ifs).
  { assert (1 <= (len rest - 4) / recSize desc) by (apply Z.div_le_lower_bound; lia). destruct ifs as [|i ifs]; [done|]. unfold k, option_count. rewrite len_cons in *. pose proof (len_nonneg ifs). lia. }
  assert (Hfit : 4 + k * recSize desc <= len rest).
  { pose proof (Z.mul_div_le (len rest - 4) (recSize desc) ltac:(lia)). unfold k, option_count in *. nia. }
  destruct (k <=? 0) eqn:E; [lia|]. set (sel := take (Z.to_nat k) ifs) in *.
  assert (Hsel : len sel = k) by (unfold sel; rewrite len_take; lia). assert (Hsn : sel <> []) by (intros Hz; rewrite Hz, len_nil in Hsel; lia).
  destruct (option_set_aligned desc dom id sel Hok Hsn) as [Hd Hld]. fold d in Hd, Hld. rewrite Hsel in *.
  destruct (split_gap rest 4) as (g & rest' & -> & Hg); [lia|]. destruct (split_gap g 2) as (g1 & g2 & -> & Hg1); [lia|]. rewrite !len_app in *.
  rewrite <- !app_assoc, put_over by (rewrite len_be16; lia). cbn [res_bind]. replace (len pre + 2) with (len (pre ++ be16 id)) by (rewrite len_app, len_be16; lia).
  rewrite (app_assoc pre), put_over by (rewrite len_be16; lia). cbn [res_bind]. unfold u16. rewrite Z.mod_small by lia.
  rewrite (encode_all_write _ (option_writes desc dom)) by done. set (L := be16 (4 + k * recSize desc)) in *.
  replace (len pre + 4) with (len ((pre ++ be16 id) ++ L)) by (unfold L; rewrite !len_app, !len_be16; lia).
  rewrite (app_assoc (pre ++ be16 id) L). set (body := concat (map (option_record desc dom) sel)). assert (Hb : written (concat (map (option_writes desc dom) sel)) = body) by (by rewrite written_concat).
  assert (Hlb : len body = k * recSize desc) by (unfold body; by rewrite (len_concat_const _ (recSize desc)), Hsel).
  rewrite write_fits, Hb by (rewrite Hb; lia). cbn [res_bind]. split_and!; [|lia|lia|lia].
  assert (Hpos : len ((pre ++ be16 id) ++ L) + len body = len pre + len d) by (unfold L; rewrite !len_app, !len_be16; lia).
  assert (Hbuf : ((pre ++ be16 id) ++ L) ++ body ++ drop (Z.to_nat (len body)) rest' = pre ++ d ++ drop (Z.to_nat (len d)) (g1 ++ g2 ++ rest')).
  { replace (len d) with (len (g1 ++ g2) + len body) by (rewrite len_app; lia). rewrite (app_assoc g1 g2), drop_len_app_more by lia.
    rewrite Hd. fold L body. by rewrite <- !app_assoc. }
  by rewrite Hpos, Hbuf.
Qed.

Lemma len_fixed_string s n : 0 <= n -> len (fixed_string s n) = n.
Proof. intros Hn. unfold fixed_string. rewrite len_app, len_take. unfold len. rewrite repeat_length. lia. Qed.

(** The fields of the option template of a shape, by protocol. *)
Definition nf9_shape_fields (shape : bytes) : list (Z * Z) :=
  if beq shape flowOptionShapeIfScoped then [(2, 4); (82, 32); (83, 32)] else [(1, 4); (10, 4); (83, 32)].
Definition ipfix_shape_fields (shape : bytes) : list (Z * Z) :=
  if beq shape flowOptionShapeIfScoped then [(10, 4); (82, 32); (83, 32)] else [(149, 4); (10, 4); (83, 32)].
(** What an interface is exported as: its index and name, under the scope of the
    shape. *)
Definition option_values (shape : bytes) (scope : Z) (ifc : flowOptionIface) : list bytes :=
  if beq shape flowOptionShapeIfScoped
  then [be32 (ifIndex ifc); fixed_string (ifc_name ifc) 32; fixed_string (ifc_name ifc) 32]
  else [be32 scope; be32 (ifIndex ifc); fixed_string (ifc_name ifc) 32].

Lemma option_values_shaped f1 f2 shape scope ifc :
  Forall2 shaped (if beq shape flowOptionShapeIfScoped then [(f1, 4); (82, 32); (83, 32)] else [(f2, 4); (10, 4); (83, 32)]) (option_values shape scope ifc).
Proof. unfold option_values. destruct (beq _ _); repeat constructor; unfold shaped; cbn [snd]; by first [apply len_be32|apply len_fixed_string]. Qed.

(** Either protocol's table entry: what its records are and what its template
    says. *)
Lemma nf9_shape shape desc dom : nf9OptionShapes shape = Some desc ->
  desc_ok desc dom /\ (forall ifc, option_record desc dom ifc = concat (option_values shape 0 ifc)) /\ len (templ desc) = 24 /\
  forall fuel ts b, read_sets (S fuel) nf9_dialect ts (templ desc ++ b) = read_sets fuel nf9_dialect (<[nf9OptionsTemplateID := nf9_shape_fields shape]> ts) b.
Proof.
  intros H. enough (Hrec : (forall ifc, option_record desc dom ifc = concat (option_values shape 0 ifc)) /\ recSize desc = record_len (nf9_shape_fields shape) /\ len (templ desc) = 24 /\
    forall fuel ts b, read_sets (S fuel) nf9_dialect ts (templ desc ++ b) = read_sets fuel nf9_dialect (<[nf9OptionsTemplateID := nf9_shape_fields shape]> ts) b).
  { destruct Hrec as (Hr & Hs & Ht & Hd). split_and!; try done. split_and!.
    - intros ifc. rewrite Hr, Hs. apply record_len_sum, option_values_shaped.
    - rewrite Hs. unfold nf9_shape_fields. by destruct (beq _ _).
    - rewrite Hs. unfold nf9_shape_fields. by destruct (beq _ _). }
  revert H. unfold nf9OptionShapes, option_values, nf9_shape_fields.
  destruct (beq shape flowOptionShapeIfScoped); [|destruct (beq shape flowOptionShapeSystemScoped); [|done]]; intros [= <-]; cbn [templ recSize option_writes].
  all: split_and!; [intros ifc; reflexivity|reflexivity|reflexivity|].
  all: intros fuel ts b; set (T := buildNF9OptionsTemplate _ _); change T with (be16 1 ++ be16 24 ++ drop 4 T); apply read_template_set; [lia|lia|reflexivity|reflexivity].
Qed.
Lemma ipfix_shape shape desc dom : ipfixOptionShapes shape = Some desc ->
  desc_ok desc dom /\ (forall ifc, option_record desc dom ifc = concat (option_values shape dom ifc)) /\ len (templ desc) = 24 /\
  forall fuel ts b, read_sets (S fuel) ipfix_dialect ts (templ desc ++ b) = read_sets fuel ipfix_dialect (<[ipfixOptionsTemplateID := ipfix_shape_fields shape]> ts) b.
Proof.
  intros H. enough (Hrec : (forall ifc, option_record desc dom ifc = concat (option_values shape dom ifc)) /\ recSize desc = record_len (ipfix_shape_fields shape) /\ len (templ desc) = 24 /\
    forall fuel ts b, read_sets (S fuel) ipfix_dialect ts (templ desc ++ b) = read_sets fuel ipfix_dialect (<[ipfixOptionsTemplateID := ipfix_shape_fields shape]> ts) b).
  { destruct Hrec as (Hr & Hs & Ht & Hd). split_and!; try done. split_and!.
    - intros ifc. rewrite Hr, Hs. apply record_len_sum, option_values_shaped.
    - rewrite Hs. unfold ipfix_shape_fields. by destruct (beq _ _).
    - rewrite Hs. unfold ipfix_shape_fields. by destruct (beq _ _). }
  revert H. unfold ipfixOptionShapes, option_values, ipfix_shape_fields.
  destruct (beq shape flowOptionShapeIfScoped); [|destruct (beq shape flowOptionShapeSystemScoped); [|done]]; intros [= <-]; cbn [templ recSize option_writes].
  all: split_and!; [intros ifc; reflexivity|reflexivity|reflexivity|].
  all: intros fuel ts b; set (T := buildIPFIXOptionsTemplateSet _ _); change T with (be16 3 ++ be16 24 ++ drop 4 T); apply read_template_set; [lia|lia|reflexivity|reflexivity].
Qed.

(** The octets both protocols' option datagrams end with. *)
Lemma options_tail V HW desc dom id ifs buf :
  len V = 2 -> desc_ok desc dom -> ifs <> [] -> 4 + len (written HW) + len (templ desc) + 4 + recSize desc <= len buf < 2 ^ 16 ->
  exists b g, write buf 0 [Put V] = Ok (b, 2) /\ len g = 2 /\
    let A := V ++ g ++ written HW ++ templ desc in
    let k := option_count desc (len buf - len A) ifs in
    let d := data_set id (map (option_record desc dom) (take (Z.to_nat k) ifs)) in
    (let! (b, pos) := write b 4 (HW ++ [Copy (templ desc)]) in encodeOptionRecords b pos id desc dom ifs) =
      Ok (A ++ d ++ drop (Z.to_nat (len A + len d)) buf, len A + len d, k) /\ 1 <= k <= len ifs /\ len A + len d <= len buf.
Proof.
  intros HV Hok Hne Hl. assert (Hws : written (HW ++ [Copy (templ desc)]) = written HW ++ templ desc) by (rewrite written_app; unfold written at 2; cbn; by rewrite app_nil_r).
  pose proof Hok as (_ & H4 & _). destruct (write_header_gap V (HW ++ [Copy (templ desc)]) buf HV) as (b & g & Hb & Hg & Hh); [rewrite Hws, len_app; lia|].
  exists b, g. split_and!; [done|done|]. intros A k d. rewrite Hh, Hws. cbn [res_bind]. fold A.
  assert (HA : len A = 4 + len (written HW) + len (templ desc)) by (unfold A; rewrite !len_app; lia).
  replace (4 + len (written HW ++ templ desc)) with (len A) by (rewrite len_app; lia).
  assert (Hrest : len (drop (Z.to_nat (len A)) buf) = len buf - len A) by (rewrite len_drop; pose proof (len_nonneg A); lia).
  destruct (encodeOptionRecords_spec desc dom id ifs A (drop (Z.to_nat (len A)) buf) Hok Hne) as (He & Hk & Hd); [rewrite Hrest; pose proof (len_nonneg A); lia|]. rewrite Hrest in *. fold k d in He, Hk, Hd.
  rewrite He. split_and!; [|lia|lia|lia]. rewrite drop_drop, Z2Nat.inj_add by apply len_nonneg. done.
Qed.

Definition nf9_options_packet (desc : flowOptionShapeDesc) (up secs seq dom : Z) (ifs : list flowOptionIface) : bytes :=
  be16 nf9Version ++ be16 (1 + len ifs) ++ be32 up ++ be32 secs ++ be32 seq ++ be32 dom ++ templ desc ++
  data_set nf9OptionsTemplateID (map (option_record desc dom) ifs).
Definition ipfix_options_body (desc : flowOptionShapeDesc) (secs seq dom : Z) (ifs : list flowOptionIface) : bytes :=
  be32 secs ++ be32 seq ++ be32 dom ++ templ desc ++ data_set ipfixOptionsTemplateID (map (option_record desc dom) ifs).
Definition ipfix_options_packet (desc : flowOptionShapeDesc) (secs seq dom : Z) (ifs : list flowOptionIface) : bytes :=
  let body := ipfix_options_body desc secs seq dom ifs in be16 ipfixVersion ++ be16 (4 + len body) ++ body.

Lemma nf9_options_spec now dom seq up shape desc ifs buf :
  nf9OptionShapes shape = Some desc -> ifs <> [] -> 20 + 24 + 4 + recSize desc <= len buf < 2 ^ 16 ->
  exists k, 1 <= k <= len ifs /\
  let P := nf9_options_packet desc up (u32 (unix now)) seq dom (take (Z.to_nat k) ifs) in
  nf9_EncodeOptionsDatagram now dom seq up shape ifs buf = Ok (P ++ drop (Z.to_nat (len P)) buf, Some (len P, k)) /\ len P <= len buf.
Proof.
  intros Hs Hne Hl. destruct (nf9_shape shape desc dom Hs) as (Hok & _ & Ht & _). set (HW := [Put (be32 up); Put (be32 (u32 (unix now))); Put (be32 seq); Put (be32 dom)]).
  destruct (options_tail (be16 nf9Version) HW desc dom nf9OptionsTemplateID ifs buf) as (b & g & Hb & Hg & Htail); try done; [change (len (written HW)) with 16; lia|].
  assert (HWl : len (written HW) = 16) by done. remember (written HW) as W eqn:HWd. cbv zeta in Htail. set (A := be16 nf9Version ++ g ++ W ++ templ desc) in *. set (k := option_count desc (len buf - len A) ifs) in *.
  set (d := data_set _ _) in *. destruct Htail as (Htail & Hk & Hfit). exists k. split; [done|]. intros P.
  assert (HA : len A = 44) by (unfold A; rewrite !len_app, Ht, Hg, HWl; done).
  assert (HP : P = be16 nf9Version ++ be16 (1 + k) ++ W ++ templ desc ++ d).
  { unfold P, nf9_options_packet. fold d. replace (len (take (Z.to_nat k) ifs)) with k by (rewrite len_take; lia). by rewrite HWd. }
  assert (HPl : len P = len A + len d) by (rewrite HP, HA, !len_app, Ht, HWl; rewrite !len_be16; lia). clearbody P.
  unfold nf9_EncodeOptionsDatagram. destruct (len ifs =? 0) eqn:E; [zbool; by apply len_0_nil in E|]. rewrite Hs. unfold nf9HeaderSize. rewrite Ht.
  destruct (len buf <? _) eqn:E1; [lia|]. rewrite Hb. cbn [res_bind]. change (2 + 2) with 4. change ([Put (be32 up); Put (be32 (u32 (unix now))); Put (be32 seq); Put (be32 dom); Copy (templ desc)]) with (HW ++ [Copy (templ desc)]).
  destruct (write b 4 (HW ++ [Copy (templ desc)])) as [[b2 pos2]| |]; cbn [res_bind] in *; [|done|done]. rewrite Htail. cbn [res_bind]. destruct (k =? 0) eqn:E2; [lia|].
  change 2 with (len (be16 nf9Version)) at 1. unfold A at 1. rewrite <- !app_assoc, put_over by (by rewrite len_be16). cbn [res_bind].
  assert (Hkw : 0 <= 1 + k < 2 ^ 16). { pose proof Hok as (_ & H4 & _). unfold k, option_count in Hk |- *.
    pose proof (Z.mul_div_le (len buf - len A - 4) (recSize desc) ltac:(lia)). rewrite HA in *. nia. }
  unfold u16. rewrite Z.mod_small by done. rewrite HPl, HP, <- !app_assoc. split; [done|lia].
Qed.

Lemma ipfix_options_spec now dom seq shape desc ifs buf :
  ipfixOptionShapes shape = Some desc -> ifs <> [] -> 16 + 24 + 4 + recSize desc <= len buf < 2 ^ 16 ->
  exists k, 1 <= k <= len ifs /\
  let P := ipfix_options_packet desc (u32 (unix now)) seq dom (take (Z.to_nat k) ifs) in
  ipfix_EncodeOptionsDatagram now dom seq shape ifs buf = Ok (P ++ drop (Z.to_nat (len P)) buf, Some (len P, k)) /\ len P <= len buf.
Proof.
  intros Hs Hne Hl. destruct (ipfix_shape shape desc dom Hs) as (Hok & _ & Ht & _). set (HW := [Put (be32 (u32 (unix now))); Put (be32 seq); Put (be32 dom)]).
  destruct (options_tail (be16 ipfixVersion) HW desc dom ipfixOptionsTemplateID ifs buf) as (b & g & Hb & Hg & Htail); try done; [change (len (written HW)) with 12; lia|].
  assert (HWl : len (written HW) = 12) by done. remember (written HW) as W eqn:HWd. cbv zeta in Htail. set (A := be16 ipfixVersion ++ g ++ W ++ templ desc) in *. set (k := option_count desc (len buf - len A) ifs) in *.
  set (d := data_set _ _) in *. destruct Htail as (Htail & Hk & Hfit). exists k. split; [done|]. intros P.
  assert (HA : len A = 40) by (unfold A; rewrite !len_app, Ht, Hg, HWl; done).
  assert (HP : P = be16 ipfixVersion ++ be16 (len A + len d) ++ W ++ templ desc ++ d).
  { unfold P, ipfix_options_packet. replace (ipfix_options_body desc (u32 (unix now)) seq dom (take (Z.to_nat k) ifs)) with (W ++ templ desc ++ d) by (by rewrite HWd).
    do 3 f_equal. rewrite HA, !len_app, Ht, HWl. lia. }
  assert (HPl : len P = len A + len d) by (rewrite HP, HA, !len_app, Ht, HWl; rewrite !len_be16; lia). clearbody P.
  unfold ipfix_EncodeOptionsDatagram. destruct (len ifs =? 0) eqn:E; [zbool; by apply len_0_nil in E|]. rewrite Hs. unfold ipfixHeaderSize. rewrite Ht.
  destruct (len buf <? _) eqn:E1; [lia|]. rewrite Hb. cbn [res_bind]. change (2 + 2) with 4. change ([Put (be32 (u32 (unix now))); Put (be32 seq); Put (be32 dom); Copy (templ desc)]) with (HW ++ [Copy (templ desc)]).
  destruct (write b 4 (HW ++ [Copy (templ desc)])) as [[b2 pos2]| |]; cbn [res_bind] in *; [|done|done]. rewrite Htail. cbn [res_bind]. destruct (k =? 0) eqn:E2; [lia|].
  change 2 with (len (be16 ipfixVersion)) at 1. unfold A at 1. rewrite <- !app_assoc, put_over by (by rewrite len_be16). cbn [res_bind].
  unfold u16. rewrite Z.mod_small by (pose proof (len_nonneg d); lia). rewrite HPl, HP, <- !app_assoc. split; [done|lia].
Qed.

Lemma take_packet (P buf : bytes) : take (Z.to_nat (len P)) (P ++ drop (Z.to_nat (len P)) buf) = P.
Proof. apply take_len_app. Qed.
Lemma u16_range x : 0 <= u16 x < 2 ^ 16.
Proof. unfold u16. pose proof (Z.mod_pos_bound x (2 ^ 16)). lia. Qed.
Lemma u32_bound x : 0 <= u32 x < 2 ^ 32.
Proof. unfold u32. pose proof (Z.mod_pos_bound x (2 ^ 32)). lia. Qed.
Lemma elements_of_records {A} (id : Z) fields (vals : A -> list bytes) (value : A -> Z -> Z) rs :
  (forall r, r ∈ rs -> numbers (combine (map fst fields) (vals r)) = elements fields (value r)) ->
  map (fun '((i, rec) : Z * list (Z * bytes)) => (i, numbers rec)) (map (fun r => (id, combine (map fst fields) (vals r))) rs) = map (fun r => (id, elements fields (value r))) rs.
Proof. intros Hv. rewrite map_map. apply map_ext_in. intros r Hr. f_equal. apply Hv. by apply list_elem_of_In. Qed.
Lemma deviceStart_range ms up : 0 <= ms < 2 ^ 62 -> 0 <= up < 2 ^ 32 -> 0 <= deviceStart ms up < 2 ^ 62.
Proof. intros Hm Hu. unfold deviceStart, s64. rewrite Z.mod_small by lia. case_if; lia. Qed.

(** ** Theorems *)

(** C13: a NetFlow v9 collector reads the exported flows back.  Into any buffer that
    has room for one record the encoder writes, without a panic, one datagram that
    fits it; a collector that knows the template, from this datagram or an earlier
    one, reads the header the exporter meant and, in order, the leading records of
    the batch, each element with the value of the flow it is about. *)
Theorem nf9_collector_reads ts now dom seq up rs (tmpl : bool) buf :
  rs <> [] \/ tmpl = true -> roomy nf9RecordSize (nf9_overhead tmpl) (len buf) -> tmpl = true \/ ts !! nf9TemplateID = Some nf9Fields ->
  Forall record_ok rs -> 0 <= up < 2 ^ 32 -> 0 <= seq < 2 ^ 32 -> 0 <= dom < 2 ^ 32 ->
  exists buf' n k rd, nf9_EncodePacket now dom seq up rs tmpl buf = Ok (buf', Some n) /\ n <= len buf /\ (rs <> [] -> (1 <= k)%nat) /\
    collect9 ts (take (Z.to_nat n) buf') = Some rd /\ r9_seq rd = seq /\ r9_source rd = dom /\ r9_uptime rd = up /\
    r9_count rd = len (take k rs) + (if tmpl then 1 else 0) /\ r9_templates rd !! nf9TemplateID = Some nf9Fields /\
    map (fun '(id, rec) => (id, numbers rec)) (r9_records rd) = map (fun r => (nf9TemplateID, elements nf9Fields (element r))) (take k rs).
Proof.
  intros Hne Hroom Hk Hrs Hu Hs Hd. destruct (nf9_EncodePacket_spec now dom seq up rs tmpl buf Hne Hroom) as [He Hl].
  set (k := Z.to_nat (capacity nf9RecordSize (len buf) (nf9_overhead tmpl))) in *. set (sent := take k rs) in *. set (P := nf9_packet _ _ _ _ _ _ _) in *.
  assert (Hdl : len (data_set nf9TemplateID (map nf9_record sent)) <= len P) by (unfold P, nf9_packet; rewrite !len_app, !len_be16, !len_be32; pose proof (len_nonneg (if tmpl then buildNF9Template else [])); lia).
  destruct Hroom as [Hr Hw]. assert (Hcount : 0 <= len sent + (if tmpl then 1 else 0) < 2 ^ 16).
  { destruct (decide (sent = [])) as [Hz|Hsn]; [rewrite Hz, len_nil; destruct tmpl; lia|]. rewrite (len_data_set _ nf9_record nf9RecordSize) in Hdl by (done || apply len_nf9_record).
    pose proof (len_nonneg sent). pose proof (pad4_bound (4 + len sent * nf9RecordSize)). unfold nf9RecordSize in *. destruct tmpl; lia. }
  unfold P in *. rewrite (Z.mod_small _ _ Hcount : u16 _ = _) in *. eexists _, _, k, _. split; [exact He|]. rewrite take_packet. split; [exact Hl|]. split.
  { intros _. unfold k. pose proof (capacity_one nf9RecordSize (len buf) (nf9_overhead tmpl) ltac:(unfold nf9RecordSize; lia) Hr). lia. }
  split; [apply collect9_packet; try done; [apply u32_bound|lia]|]. cbn [r9_seq r9_source r9_uptime r9_count r9_templates r9_records]. split_and!; try done.
  - destruct tmpl; [apply lookup_insert_eq|by destruct Hk].
  - apply elements_of_records. intros r Hin. apply nf9_numbers. eapply List.Forall_forall; [exact Hrs|]. apply list_elem_of_In. by eapply elem_of_take in Hin as (i & Hi & _); apply list_elem_of_lookup_2 in Hi.
Qed.

(** C14: an IPFIX collector reads the exported flows back, with the times of each
    flow made absolute from the device's start.  The message length the header
    carries is the length of the datagram. *)
Theorem ipfix_collector_reads ts now dom seq up rs (tmpl : bool) buf :
  rs <> [] \/ tmpl = true -> roomy ipfixRecordSize (ipfix_overhead tmpl) (len buf) -> tmpl = true \/ ts !! ipfixTemplateID = Some ipfixFields ->
  Forall record_ok rs -> 0 <= up < 2 ^ 32 -> 0 <= seq < 2 ^ 32 -> 0 <= dom < 2 ^ 32 -> 0 <= unixMilli now < 2 ^ 62 ->
  exists buf' n k rd, ipfix_EncodePacket now dom seq up rs tmpl buf = Ok (buf', Some n) /\ n <= len buf /\ (rs <> [] -> (1 <= k)%nat) /\
    collect10 ts (take (Z.to_nat n) buf') = Some rd /\ r10_length rd = n /\ r10_seq rd = seq /\ r10_domain rd = dom /\
    r10_templates rd !! ipfixTemplateID = Some ipfixFields /\
    map (fun '(id, rec) => (id, numbers rec)) (r10_records rd) =
      map (fun r => (ipfixTemplateID, elements ipfixFields (element_abs (deviceStart (unixMilli now) up) r))) (take k rs).
Proof.
  intros Hne Hroom Hk Hrs Hu Hs Hd Hnow. destruct (ipfix_EncodePacket_spec now dom seq up rs tmpl buf Hne Hroom) as [He Hl].
  set (k := Z.to_nat (capacity ipfixRecordSize (len buf) (ipfix_overhead tmpl))) in *. set (sent := take k rs) in *. set (P := ipfix_packet _ _ _ _ _ _) in *.
  destruct Hroom as [Hr Hw]. eexists _, _, k, _. split; [exact He|]. rewrite take_packet. split; [exact Hl|]. split.
  { intros _. unfold k. pose proof (capacity_one ipfixRecordSize (len buf) (ipfix_overhead tmpl) ltac:(unfold ipfixRecordSize; lia) Hr). lia. }
  split; [apply collect10_packet; try done; [apply u32_bound|fold P; lia]|]. cbn [r10_length r10_seq r10_domain r10_templates r10_records]. split_and!; try done.
  - destruct tmpl; [apply lookup_insert_eq|by destruct Hk].
  - apply elements_of_records. intros r Hin. apply ipfix_numbers; [by apply deviceStart_range|]. eapply List.Forall_forall; [exact Hrs|]. apply list_elem_of_In. by eapply elem_of_take in Hin as (i & Hi & _); apply list_elem_of_lookup_2 in Hi.
Qed.

(** The interface option table of either protocol reads back as the leading
    interfaces, at least one of them, with their indexes and names; a datagram
    carries its own template. *)
Theorem nf9_options_read ts now dom seq up shape desc ifs buf :
  nf9OptionShapes shape = Some desc -> ifs <> [] -> 20 + 24 + 4 + recSize desc <= len buf < 2 ^ 16 ->
  0 <= up < 2 ^ 32 -> 0 <= seq < 2 ^ 32 -> 0 <= dom < 2 ^ 32 ->
  exists buf' n k rd, nf9_EncodeOptionsDatagram now dom seq up shape ifs buf = Ok (buf', Some (n, k)) /\ 1 <= k <= len ifs /\ n <= len buf /\
    collect9 ts (take (Z.to_nat n) buf') = Some rd /\ r9_seq rd = seq /\ r9_count rd = 1 + k /\
    r9_records rd = map (fun ifc => (nf9OptionsTemplateID, combine (map fst (nf9_shape_fields shape)) (option_values shape 0 ifc))) (take (Z.to_nat k) ifs).
Proof.
  intros Hs Hne Hl Hu Hq Hd. destruct (nf9_options_spec now dom seq up shape desc ifs buf Hs Hne Hl) as (k & Hk & He & Hfit).
  destruct (nf9_shape shape desc dom Hs) as (Hok & Hrec & Ht & Hread). set (sel := take (Z.to_nat k) ifs) in *.
  assert (Hsel : len sel = k) by (unfold sel; rewrite len_take; lia). set (P := nf9_options_packet _ _ _ _ _ _) in *.
  eexists _, _, k, _. split; [exact He|]. rewrite take_packet. split_and!; [lia|lia|exact Hfit| | | |].
  { assert (HP : len P = 20 + len (templ desc) + len (data_set nf9OptionsTemplateID (map (option_record desc dom) sel))).
    { unfold P, nf9_options_packet. rewrite !len_app, !len_be16, !len_be32. lia. }
    assert (Hd1 : len sel * recSize desc <= len P).
    { pose proof (pad4_bound (4 + len sel * recSize desc)). rewrite HP, (len_data_set _ _ (recSize desc)); [lia|apply Hok|intros Hz; rewrite Hz, len_nil in Hsel; lia]. }
    pose proof Hok as (_ & H4 & _). unfold collect9, P, nf9_options_packet. rewrite Hsel in *. rewrite (num_be16 nf9Version) by done. cbn. rewrite num_be16 by nia. cbn.
    rewrite num_be32 by done. cbn. rewrite num_be32 by apply u32_bound. cbn. rewrite num_be32 by done. cbn. rewrite num_be32 by done. cbn.
    pose proof (read_packet_sets nf9_dialect ts true (templ desc) nf9OptionsTemplateID (nf9_shape_fields shape) (option_record desc dom) (option_values shape 0) sel Hread) as Hr. cbv zeta in Hr.
    rewrite Hr; [reflexivity|intros Hz; by rewrite Hz in Ht|by left|done|done|done| | |lia].
    - unfold nf9_shape_fields. by destruct (beq _ _).
    - intros ifc _. split; [apply Hrec|apply option_values_shaped]. }
  all: reflexivity.
Qed.

Theorem ipfix_options_read ts now dom seq shape desc ifs buf :
  ipfixOptionShapes shape = Some desc -> ifs <> [] -> 16 + 24 + 4 + recSize desc <= len buf < 2 ^ 16 ->
  0 <= seq < 2 ^ 32 -> 0 <= dom < 2 ^ 32 ->
  exists buf' n k rd, ipfix_EncodeOptionsDatagram now dom seq shape ifs buf = Ok (buf', Some (n, k)) /\ 1 <= k <= len ifs /\ n <= len buf /\
    collect10 ts (take (Z.to_nat n) buf') = Some rd /\ r10_seq rd = seq /\ r10_length rd = n /\
    r10_records rd = map (fun ifc => (ipfixOptionsTemplateID, combine (map fst (ipfix_shape_fields shape)) (option_values shape dom ifc))) (take (Z.to_nat k) ifs).
Proof.
  intros Hs Hne Hl Hq Hd. destruct (ipfix_options_spec now dom seq shape desc ifs buf Hs Hne Hl) as (k & Hk & He & Hfit).
  destruct (ipfix_shape shape desc dom Hs) as (Hok & Hrec & Ht & Hread). set (sel := take (Z.to_nat k) ifs) in *. set (P := ipfix_options_packet _ _ _ _ _) in *.
  assert (HP : len P = 4 + len (ipfix_options_body desc (u32 (unix now)) seq dom sel)) by (unfold P, ipfix_options_packet; rewrite !len_app, !len_be16; lia).
  eexists _, _, k, _. split; [exact He|]. rewrite take_packet. split_and!; [lia|lia|exact Hfit| | | |].
  { unfold collect10. rewrite HP in *. unfold P, ipfix_options_packet. pose proof (len_nonneg (ipfix_options_body desc (u32 (unix now)) seq dom sel)).
    set (n := 4 + len _) in *. rewrite (num_be16 ipfixVersion) by done. cbn. rewrite num_be16 by (unfold n; lia). cbn. rewrite Z.eqb_refl. cbn.
    unfold ipfix_options_body. rewrite num_be32 by apply u32_bound. cbn. rewrite num_be32 by done. cbn. rewrite num_be32 by done. cbn.
    pose proof (read_packet_sets ipfix_dialect ts true (templ desc) ipfixOptionsTemplateID (ipfix_shape_fields shape) (option_record desc dom) (option_values shape dom) sel Hread) as Hr. cbv zeta in Hr.
    rewrite Hr; [reflexivity|intros Hz; by rewrite Hz in Ht|by left|done|done|done| | |].
    - unfold ipfix_shape_fields. by destruct (beq _ _).
    - intros ifc _. split; [apply Hrec|apply option_values_shaped].
    - unfold n, ipfix_options_body in *. rewrite !len_app, !len_be32 in *. pose proof (len_nonneg (templ desc)). lia. }
  - reflexivity.
  - symmetry. exact HP.
  - reflexivity.
Qed.

(** ** Samples *)

Definition sampleFlow (port bytes : Z) : FlowRecord :=
  {| SrcIP := [10; 42; 0; 1]; DstIP := [10; 9; 8; 7]; NextHop := repeat 0 10 ++ [0xff; 0xff; 0; 0; 0; 0]; SrcPort := 51000; DstPort := port; Protocol := 6; TCPFlags := 0x18; ToS := 0;
     Bytes_ := bytes; Packets := 12; StartMs := 1000; EndMs := 61000; InIface := 1; OutIface := 2; SrcAS := 0; DstAS := 0; SrcMask := 24; DstMask := 24;
     AVC := {| ref_App := 0; ref_Host := 0; ref_URI := 0 |} |}.
Lemma sampleFlow_ok port b : 0 <= port < 2 ^ 16 -> 0 <= b < 2 ^ 64 -> record_ok (sampleFlow port b).
Proof. intros Hp Hb. unfold record_ok, sampleFlow. cbn. split_and!; try lia; by apply bytes_okb_ok. Qed.
Definition sampleBatch : list FlowRecord := [sampleFlow 443 5000; sampleFlow 80 (2 ^ 40); sampleFlow 22 7].
Lemma sampleBatch_ok : Forall record_ok sampleBatch.
Proof. repeat (constructor; [apply sampleFlow_ok; lia|]). constructor. Qed.

(** A buffer with room for two of the three records. *)
Lemma nf9_collector_reads_witness :
  exists buf' n k rd, nf9_EncodePacket (1700000000 * 1000000000) 170524673 9 62000 sampleBatch true (repeat 0 220) = Ok (buf', Some n) /\ (1 <= k)%nat /\
    collect9 ∅ (take (Z.to_nat n) buf') = Some rd /\ r9_seq rd = 9 /\ r9_count rd = len (take k sampleBatch) + 1 /\
    map (fun '(id, rec) => (id, numbers rec)) (r9_records rd) = map (fun r => (256, elements nf9Fields (element r))) (take k sampleBatch).
Proof.
  destruct (nf9_collector_reads ∅ (1700000000 * 1000000000) 170524673 9 62000 sampleBatch true (repeat 0 220)) as (buf' & n & k & rd & He & Hn & Hk & Hc & Hs & _ & _ & Hcount & _ & Hr);
    [by left|vm_compute; split; congruence|by left|exact sampleBatch_ok|lia|lia|lia|].
  exists buf', n, k, rd. split_and!; [exact He|by apply Hk|exact Hc|exact Hs|exact Hcount|exact Hr].
Defined.

Lemma ipfix_collector_reads_witness :
  exists buf' n k rd, ipfix_EncodePacket (1700000000 * 1000000000) 170524673 9 62000 sampleBatch false (repeat 0 1452) = Ok (buf', Some n) /\ (1 <= k)%nat /\
    collect10 {[ipfixTemplateID := ipfixFields]} (take (Z.to_nat n) buf') = Some rd /\ r10_length rd = n /\
    map (fun '(id, rec) => (id, numbers rec)) (r10_records rd) =
      map (fun r => (ipfixTemplateID, elements ipfixFields (element_abs (1700000000 * 1000 - 62000) r))) (take k sampleBatch).
Proof.
  destruct (ipfix_collector_reads {[ipfixTemplateID := ipfixFields]} (1700000000 * 1000000000) 170524673 9 62000 sampleBatch false (repeat 0 1452)) as (buf' & n & k & rd & He & _ & Hk & Hc & Hl & _ & _ & _ & Hr);
    [by left|vm_compute; split; congruence|right; apply lookup_singleton_eq|exact sampleBatch_ok|lia|lia|lia|vm_compute; split; congruence|].
  exists buf', n, k, rd. split_and!; [exact He|by apply Hk|exact Hc|exact Hl|exact Hr].
Defined.
