(* ===== verification/FlowV5.v ===== *)
(** * NetFlow v5 (netflow5.go)

    Fixed records of 48 octets, at most thirty to a datagram, IPv4 only.  The
    one-shot warnings of the encoder are left out. *)

From S2P Require Import Prelude GoStrings Ber FlowWire FlowTemplates FlowCollect.

Definition netFlow5Version : Z := 5.
Definition netFlow5MaxRecords : Z := 30.
Definition netFlow5HeaderLen : Z := 24.
Definition netFlow5RecordLen : Z := 48.
Definition netFlow5ASTrans : Z := 23456.

Definition clampASN (asn : Z) : Z := if 0xFFFF <? asn then netFlow5ASTrans else u16 asn.

Definition v5_record_writes (r : FlowRecord) : list wr :=
  [Copy (default [] (To4 (SrcIP r))); Copy (default [] (To4 (DstIP r))); Copy (ip4_or_zero (NextHop r)); Put (be16 (InIface r)); Put (be16 (OutIface r));
   Put (be32 (Packets r)); Put (be32 (clamp32 (Bytes_ r))); Put (be32 (StartMs r)); Put (be32 (EndMs r)); Put (be16 (SrcPort r)); Put (be16 (DstPort r));
   Put [0]; Put [TCPFlags r]; Put [Protocol r]; Put [ToS r]; Put (be16 (clampASN (SrcAS r))); Put (be16 (clampASN (DstAS r))); Put [SrcMask r]; Put [DstMask r]; Put (be16 0)].
(** The positions advance by four over an address; the filter of [EncodePacket]
    lets only IPv4 sources and destinations through. *)
Definition v5_encodeRecord (buf : bytes) (pos : Z) (r : FlowRecord) : res (bytes * Z) := write buf pos (v5_record_writes r).

Definition is_ipv4 (r : FlowRecord) : bool :=
  match To4 (SrcIP r), To4 (DstIP r) with Some _, Some _ => true | _, _ => false end.

Definition v5_EncodePacket (now seqNo uptimeMs : Z) (records : list FlowRecord) (buf : bytes) : res (bytes * option Z) :=
  let filtered := List.filter is_ipv4 records in
  if len filtered =? 0 then Ok (buf, Some 0) else
  let! filtered := if netFlow5MaxRecords <? len filtered then slice filtered 0 netFlow5MaxRecords else Ok filtered in
  let needed := netFlow5HeaderLen + len filtered * netFlow5RecordLen in
  if len buf <? needed then Ok (buf, None) else
  let! (buf, pos) := write buf 0 [Put (be16 netFlow5Version); Put (be16 (u16 (len filtered))); Put (be32 uptimeMs); Put (be32 (u32 (unix now)));
                                  Put (be32 (u32 (now mod 1000000000))); Put (be32 seqNo); Put [0]; Put [0]; Put (be16 0)] in
  let! (buf, pos) := encode_all v5_encodeRecord buf pos filtered in
  Ok (buf, Some pos).

(** ** A v5 collector: fixed layouts *)

(** The fields of a record in order, numbered from one, with their widths. *)
Definition v5_layout : list (Z * Z) :=
  [(1, 4); (2, 4); (3, 4); (4, 2); (5, 2); (6, 4); (7, 4); (8, 4); (9, 4); (10, 2); (11, 2); (12, 1); (13, 1); (14, 1); (15, 1); (16, 2); (17, 2); (18, 1); (19, 1); (20, 2)].
Definition v5_element (r : FlowRecord) (f : Z) : Z :=
  match f with
  | 1 => addr_val (SrcIP r) | 2 => addr_val (DstIP r) | 3 => addr_val (NextHop r) | 4 => InIface r | 5 => OutIface r
  | 6 => Packets r | 7 => Z.min (Bytes_ r) (2 ^ 32 - 1) | 8 => StartMs r | 9 => EndMs r | 10 => SrcPort r | 11 => DstPort r
  | 13 => TCPFlags r | 14 => Protocol r | 15 => ToS r | 16 => SrcAS r | 17 => DstAS r | 18 => SrcMask r | 19 => DstMask r
  | _ => 0
  end.

Fixpoint read_fixed (n : nat) (layout : list (Z * Z)) (b : bytes) : option (list (list (Z * bytes))) :=
  match n with
  | O => if len b =? 0 then Some [] else None
  | S n' => '(r, b) ← read_fields layout b; rs ← read_fixed n' layout b; Some (r :: rs)
  end.
Record reading5 := { r5_uptime : Z; r5_secs : Z; r5_nsecs : Z; r5_seq : Z; r5_records : list (list (Z * bytes)) }.
Definition collect5 (b : bytes) : option reading5 :=
  '(v, b) ← num_n 2 b; (if v =? 5 then Some () else None);;
  '(count, b) ← num_n 2 b; '(up, b) ← num_n 4 b; '(secs, b) ← num_n 4 b; '(nsecs, b) ← num_n 4 b; '(seq, b) ← num_n 4 b; '(_, b) ← num_n 4 b;
  rs ← read_fixed (Z.to_nat count) v5_layout b;
  Some {| r5_uptime := up; r5_secs := secs; r5_nsecs := nsecs; r5_seq := seq; r5_records := rs |}.

(** ** The octets of a packet *)

Definition v5_record (r : FlowRecord) : bytes := written (v5_record_writes r).
Definition v5_vals (r : FlowRecord) : list bytes := map wr_bytes (v5_record_writes r).
Lemma v5_vals_shaped r : is_ipv4 r = true -> Forall2 shaped v5_layout (v5_vals r).
Proof.
  unfold is_ipv4, v5_vals, v5_layout, v5_record_writes. destruct (To4 (SrcIP r)) eqn:E1, (To4 (DstIP r)) eqn:E2; [|done..]. intros _. cbn [map wr_bytes default].
  constructor; [by apply len_To4 in E1|]. constructor; [by apply len_To4 in E2|]. repeat (constructor; [first [reflexivity|apply len_ip4_or_zero]|]). constructor.
Qed.
Lemma len_v5_record r : is_ipv4 r = true -> len (v5_record r) = netFlow5RecordLen.
Proof. intros Hr. exact (record_len_sum _ _ (v5_vals_shaped r Hr)). Qed.

Definition v5_packet (up secs nsecs seq : Z) (rs : list FlowRecord) : bytes :=
  be16 netFlow5Version ++ be16 (len rs) ++ be32 up ++ be32 secs ++ be32 nsecs ++ be32 seq ++ [0; 0; 0; 0] ++ concat (map v5_record rs).

Lemma len_v5_records rs : Forall (fun r => is_ipv4 r = true) rs -> len (concat (map v5_record rs)) = len rs * netFlow5RecordLen.
Proof. induction 1 as [|r rs Hr _ IH]; [done|]. cbn [map concat]. rewrite len_app, len_cons, IH, len_v5_record by done. unfold netFlow5RecordLen. lia. Qed.

(** The batch the encoder takes: the IPv4 records, at most thirty. *)
Definition v5_sent (rs : list FlowRecord) : list FlowRecord := take 30 (List.filter is_ipv4 rs).

Lemma v5_sent_ipv4 rs : Forall (fun r => is_ipv4 r = true) (v5_sent rs).
Proof. apply Forall_take, List.Forall_forall. intros r Hr. by apply filter_In in Hr as [_ Hr]. Qed.

Lemma v5_EncodePacket_spec now seq up rs buf :
  v5_sent rs <> [] -> netFlow5HeaderLen + len (v5_sent rs) * netFlow5RecordLen <= len buf ->
  let P := v5_packet up (u32 (unix now)) (u32 (now mod 1000000000)) seq (v5_sent rs) in
  v5_EncodePacket now seq up rs buf = Ok (P ++ drop (Z.to_nat (len P)) buf, Some (len P)) /\ len P = netFlow5HeaderLen + len (v5_sent rs) * netFlow5RecordLen.
Proof.
  intros Hne Hl P. pose proof (v5_sent_ipv4 rs) as H4. pose proof (len_v5_records _ H4) as Hrec. set (sent := v5_sent rs) in *.
  assert (Hsl : 0 <= len sent <= 30) by (unfold sent, v5_sent; rewrite len_take; pose proof (len_nonneg (List.filter is_ipv4 rs)); lia).
  assert (HP : len P = netFlow5HeaderLen + len sent * netFlow5RecordLen) by (unfold P, v5_packet; rewrite !len_app, Hrec, !len_be16, !len_be32; change (len [0; 0; 0; 0]) with 4; unfold netFlow5HeaderLen; lia).
  split; [|done]. unfold v5_EncodePacket. destruct (len (List.filter is_ipv4 rs) =? 0) eqn:E.
  { zbool. apply len_0_nil in E. unfold sent, v5_sent in Hne. by rewrite E in Hne. }
  rewrite (cut_to_capacity (List.filter is_ipv4 rs) netFlow5MaxRecords) by (unfold netFlow5MaxRecords; lia). cbn [res_bind]. change (take (Z.to_nat netFlow5MaxRecords) (List.filter is_ipv4 rs)) with sent.
  destruct (len buf <? _) eqn:E1; [lia|]. set (HW := [Put _; Put (be16 (u16 _)); Put _; Put _; Put _; Put _; Put _; Put _; Put _]).
  unfold netFlow5HeaderLen, netFlow5RecordLen in *. rewrite write_start by (change (len (written HW)) with 24; lia). cbn [res_bind].
  rewrite (encode_all_write v5_encodeRecord v5_record_writes) by done.
  rewrite write_fits by (rewrite written_concat; fold v5_record; change (map (fun r => written (v5_record_writes r)) sent) with (map v5_record sent); rewrite Hrec, len_drop; change (len (written HW)) with 24; lia).
  cbn [res_bind]. rewrite written_concat. change (map (fun r => written (v5_record_writes r)) sent) with (map v5_record sent).
  assert (HPe : P = written HW ++ concat (map v5_record sent)).
  { unfold P, v5_packet, HW. unfold u16. rewrite (Z.mod_small (len sent)) by lia. reflexivity. }
  rewrite HP. change (len (written HW)) with 24. rewrite Hrec, drop_drop, HPe, <- app_assoc. rewrite <- Z2Nat.inj_add by lia. done.
Qed.

(** ** Reading *)

Lemma read_fixed_concat layout (recs : list (list bytes)) :
  Forall (Forall2 shaped layout) recs -> read_fixed (length recs) layout (concat (map (@concat Z) recs)) = Some (map (combine (map fst layout)) recs).
Proof.
  induction 1 as [|vals recs Hv _ IH]; [done|]. cbn [map concat length read_fixed]. rewrite read_fields_concat by done. cbn. by rewrite IH.
Qed.

Lemma clampASN_small a : 0 <= a < 2 ^ 16 -> clampASN a = a.
Proof. intros Ha. unfold clampASN. case_if; [lia|]. unfold u16. by apply Z.mod_small. Qed.

Lemma v5_numbers r : record_ok r -> is_ipv4 r = true -> numbers (combine (map fst v5_layout) (v5_vals r)) = elements v5_layout (v5_element r).
Proof.
  intros (_ & _ & _ & ? & ? & ? & ? & ? & Hb & ? & ? & ? & ? & ? & Has & Had & ? & ?) Hv4. unfold is_ipv4 in Hv4.
  destruct (To4 (SrcIP r)) as [s|] eqn:Es; [|done]. destruct (To4 (DstIP r)) as [d|] eqn:Ed; [|done].
  unfold numbers, elements, v5_vals, v5_layout, v5_record_writes. rewrite (clampASN_small _ Has), (clampASN_small _ Had). cbn [map combine fst wr_bytes]. unfold v5_element.
  rewrite Es, Ed. cbn [default]. apply cons_element; [unfold addr_val; by rewrite Es|]. apply cons_element; [unfold addr_val; by rewrite Ed|]. read_values.
Qed.

(** ** Theorems *)

(** A v5 collector reads the IPv4 flows of the batch back, the first thirty of
    them, whatever else the batch holds; a record of another family is left out
    and not counted. *)
Theorem v5_collector_reads now seq up rs buf :
  v5_sent rs <> [] -> netFlow5HeaderLen + len (v5_sent rs) * netFlow5RecordLen <= len buf ->
  Forall record_ok rs -> 0 <= up < 2 ^ 32 -> 0 <= seq < 2 ^ 32 ->
  exists buf' n rd, v5_EncodePacket now seq up rs buf = Ok (buf', Some n) /\ n <= len buf /\ collect5 (take (Z.to_nat n) buf') = Some rd /\
    r5_seq rd = seq /\ r5_uptime rd = up /\ map numbers (r5_records rd) = map (fun r => elements v5_layout (v5_element r)) (v5_sent rs).
Proof.
  intros Hne Hl Hrs Hu Hs. destruct (v5_EncodePacket_spec now seq up rs buf Hne Hl) as [He HP]. pose proof (v5_sent_ipv4 rs) as H4.
  assert (Hok : Forall record_ok (v5_sent rs)).
  { apply Forall_take, List.Forall_forall. intros r Hr. apply filter_In in Hr as [Hr _]. by eapply List.Forall_forall in Hrs. }
  set (sent := v5_sent rs) in *. set (P := v5_packet _ _ _ _ _) in *. eexists _, _, _. split; [exact He|]. rewrite take_packet. split; [lia|].
  assert (Hsl : 0 <= len sent <= 30) by (unfold sent, v5_sent; rewrite len_take; pose proof (len_nonneg (List.filter is_ipv4 rs)); lia).
  split_and!.
  - unfold collect5, P, v5_packet. rewrite num_be16 by done. cbn. rewrite num_be16 by lia. cbn. rewrite num_be32 by done. cbn. rewrite num_be32 by apply u32_bound. cbn.
    rewrite num_be32 by apply u32_bound. cbn. rewrite num_be32 by done. cbn. change (0 :: 0 :: 0 :: 0 :: concat (map v5_record sent)) with ([0; 0; 0; 0] ++ concat (map v5_record sent)).
    rewrite num_n_app by done. cbn. replace (concat (map v5_record sent)) with (concat (map (@concat Z) (map v5_vals sent))) by (by rewrite map_map).
    replace (Z.to_nat (len sent)) with (length (map v5_vals sent)) by (rewrite List.length_map; unfold len; lia).
    rewrite read_fixed_concat; [reflexivity|]. apply List.Forall_forall. intros vs Hvs. apply in_map_iff in Hvs as (r & <- & Hr). apply v5_vals_shaped. by eapply List.Forall_forall in H4.
  - done.
  - done.
  - cbn [r5_records]. rewrite !map_map. apply map_ext_in. intros r Hr. apply v5_numbers; [by eapply List.Forall_forall in Hok|by eapply List.Forall_forall in H4].
Qed.
