(* ===== verification/FlowSflow.v ===== *)
(** * sFlow v5 (sflow.go)

    A datagram of samples in XDR: flow samples, each with the header of a packet
    made up from the flow, and counter samples, grouped by their source.  Lengths
    are filled in after what they count.  [collectS] is the specification's side:
    a reader that knows the XDR layout and nothing of the encoder. *)

From stdpp Require Import gmap.
From S2P Require Import Prelude GoStrings Ber FlowWire FlowTemplates FlowCollect.

Definition sflowVersion : Z := 5.
Definition sflowAddrTypeIP4 : Z := 1.
Definition sflowSampleTypeFlow : Z := 1.
Definition sflowSampleTypeCounters : Z := 2.
Definition sflowFlowFmtSampledHeader : Z := 1.
Definition sflowHdrProtoIPv4 : Z := 11.
Definition sflowDatagramHeaderSize : Z := 28.
Definition sflowCountersSampleHeaderSize : Z := 20.
Definition sflowMaxFlowSampleSize : Z := 128.
Definition sflowMaxCountersSampleSize : Z := 256.
Definition SyntheticSamplingRateMultiplier : Z := 10.

Definition encodeDatagramHeader (buf : bytes) (agentIPv4 subAgentID seqNo uptimeMs numSamples : Z) : res (bytes * Z) :=
  write buf 0 [Put (be32 sflowVersion); Put (be32 sflowAddrTypeIP4); Put (be32 agentIPv4); Put (be32 subAgentID); Put (be32 seqNo);
               Put (be32 uptimeMs); Put (be32 numSamples)].

(** The transport header behind the IPv4 header. *)
Definition transport_writes (r : FlowRecord) : list wr :=
  if Protocol r =? 17 then [Put (be16 (SrcPort r)); Put (be16 (DstPort r)); Put (be16 8); Put (be16 0)]
  else if Protocol r =? 6 then
    [Put (be16 (SrcPort r)); Put (be16 (DstPort r)); Put (be32 0); Put (be32 0); Put [0x50]; Put [TCPFlags r]; Put (be16 0xFFFF); Put (be16 0); Put (be16 0)]
  else [].
(** What follows the total length. *)
Definition ip_rest_writes (r : FlowRecord) : list wr :=
  [Put (be16 0); Put (be16 0x4000); Put [64]; Put [Protocol r]; Put (be16 0); Copy (ip4_or_zero (SrcIP r)); Copy (ip4_or_zero (DstIP r))] ++ transport_writes r.

(** The octets written, not the position after them, are the second result. *)
Definition encodeIPv4Header (buf : bytes) (pos : Z) (r : FlowRecord) : res (bytes * Z) :=
  let start := pos in
  let! (buf, pos) := write buf pos [Put [0x45]; Put [ToS r]] in
  let totalLenOffset := pos in
  let! (buf, pos) := write buf (pos + 2) (ip_rest_writes r) in
  let total := pos - start in
  let! buf := put buf totalLenOffset (be16 (u16 total)) in
  Ok (buf, total).

(** The octets of the flow, and 28 when it has none. *)
Definition frameLen (r : FlowRecord) : Z :=
  let f := Bytes_ r in
  let f := if 0xFFFFFFFF <? f then 0xFFFFFFFF else f in
  if f =? 0 then 20 + 8 else f.

Definition encodeSampledHeader (buf : bytes) (pos : Z) (r : FlowRecord) : res (bytes * Z) :=
  let lenOffset := pos + 4 in
  let! (buf, bodyStart) := write buf pos [Put (be32 sflowFlowFmtSampledHeader); Put (be32 0)] in
  let! (buf, p) := write buf bodyStart [Put (be32 sflowHdrProtoIPv4); Put (be32 (u32 (frameLen r))); Put (be32 0)] in
  let headerStart := p + 4 in
  let! (buf, hdrLen) := encodeIPv4Header buf headerStart r in
  let! buf := put buf p (be32 (u32 hdrLen)) in
  let! (buf, p) := write buf (headerStart + hdrLen) (zeros (pad4 hdrLen)) in
  let! buf := put buf lenOffset (be32 (u32 (p - bodyStart))) in
  Ok (buf, p).

Definition encodeFlowSample (buf : bytes) (pos : Z) (r : FlowRecord) (samplePool samplingRate : Z) : res (bytes * Z) :=
  let sampleLenOffset := pos + 4 in
  let! (buf, bodyStart) := write buf pos [Put (be32 sflowSampleTypeFlow); Put (be32 0)] in
  let! (buf, p) := write buf bodyStart [Put (be32 0); Put (be32 (InIface r)); Put (be32 samplingRate); Put (be32 samplePool); Put (be32 0);
                                        Put (be32 (InIface r)); Put (be32 (OutIface r)); Put (be32 1)] in
  let! (buf, p) := encodeSampledHeader buf p r in
  let! buf := put buf sampleLenOffset (be32 (u32 (p - bodyStart))) in
  Ok (buf, p).

Fixpoint flow_samples (buf : bytes) (pos : Z) (samplePool samplingRate : Z) (rs : list FlowRecord) : res (bytes * Z) :=
  match rs with
  | [] => Ok (buf, pos)
  | r :: rs' =>
      let! (buf, pos) := encodeFlowSample buf pos r samplePool samplingRate in
      flow_samples buf pos (u32 (samplePool + Packets r)) samplingRate rs'
  end.

(** [None] is an error: the buffer is too small. *)
Definition EncodeFlowDatagram (domainID subAgentID seqNo uptimeMs : Z) (records : list FlowRecord) (samplingRate : Z) (buf : bytes)
    : res (bytes * option Z) :=
  if len records =? 0 then Ok (buf, Some 0) else
  if len buf <? sflowDatagramHeaderSize + sflowMaxFlowSampleSize then Ok (buf, None) else
  let maxRecs := (len buf - sflowDatagramHeaderSize) ÷ sflowMaxFlowSampleSize in
  if maxRecs <? 1 then Ok (buf, None) else
  let! records := if maxRecs <? len records then slice records 0 maxRecs else Ok records in
  let! (buf, pos) := encodeDatagramHeader buf domainID subAgentID seqNo uptimeMs (u32 (len records)) in
  let! (buf, pos) := flow_samples buf pos 0 samplingRate records in
  Ok (buf, Some pos).
Definition sflow_EncodePacket (domainID seqNo uptimeMs : Z) (records : list FlowRecord) (buf : bytes) : res (bytes * option Z) :=
  EncodeFlowDatagram domainID 0 seqNo uptimeMs records 1 buf.

(** ** Counters *)

Record CounterRecord := { Format : Z; SourceID : Z; Body : bytes }.

(** The records by source, and the sources in the order they first appear. *)
Definition group_step (st : list Z * gmap Z (list CounterRecord)) (rec : CounterRecord) : list Z * gmap Z (list CounterRecord) :=
  let '(groupOrder, groups) := st in
  (match groups !! SourceID rec with None => groupOrder ++ [SourceID rec] | Some _ => groupOrder end,
   <[SourceID rec := default [] (groups !! SourceID rec) ++ [rec]]> groups).
Definition group_records (records : list CounterRecord) : list Z * gmap Z (list CounterRecord) := fold_left group_step records ([], ∅).

Fixpoint counter_records (buf : bytes) (p emitted dropped : Z) (recs : list CounterRecord) : res (bytes * Z * Z * Z) :=
  match recs with
  | [] => Ok (buf, p, emitted, dropped)
  | rec :: recs' =>
      let padded := len (Body rec) + pad4 (len (Body rec)) in
      if len buf - p <? 8 + padded then counter_records buf p emitted (dropped + 1) recs'
      else
        let! (buf, p) := write buf p ([Put (be32 (Format rec)); Put (be32 (u32 (len (Body rec)))); Copy (Body rec)] ++ zeros (pad4 (len (Body rec)))) in
        counter_records buf p (u32 (emitted + 1)) dropped recs'
  end.

Fixpoint counter_samples (buf : bytes) (pos seqNo samplesEmitted dropped : Z) (groups : gmap Z (list CounterRecord)) (groupOrder : list Z)
    : res (bytes * Z * Z * Z) :=
  match groupOrder with
  | [] => Ok (buf, pos, samplesEmitted, dropped)
  | sourceID :: groupOrder' =>
      let recs := default [] (groups !! sourceID) in
      if len buf - pos <? sflowCountersSampleHeaderSize
      then counter_samples buf pos seqNo samplesEmitted (dropped + len recs) groups groupOrder'
      else
        let sampleLenOffset := pos + 4 in
        let! (buf, bodyStart) := write buf pos [Put (be32 sflowSampleTypeCounters); Put (be32 0)] in
        let! (buf, numRecsOffset) := write buf bodyStart [Put (be32 seqNo); Put (be32 sourceID)] in
        let! (buf, p) := write buf numRecsOffset [Put (be32 0)] in
        let! (buf, p, emitted, dropped) := counter_records buf p 0 dropped recs in
        if emitted =? 0 then counter_samples buf pos seqNo samplesEmitted dropped groups groupOrder'
        else
          let! buf := put buf sampleLenOffset (be32 (u32 (p - bodyStart))) in
          let! buf := put buf numRecsOffset (be32 emitted) in
          counter_samples buf p seqNo (u32 (samplesEmitted + 1)) dropped groups groupOrder'
  end.

(** The result, and the records dropped (the code logs their number). *)
Definition EncodeCounterDatagram (domainID subAgentID seqNo uptimeMs : Z) (records : list CounterRecord) (buf : bytes)
    : res (bytes * option Z * Z) :=
  if len records =? 0 then Ok (buf, Some 0, 0) else
  if len buf <? sflowDatagramHeaderSize + sflowMaxCountersSampleSize then Ok (buf, None, 0) else
  let '(groupOrder, groups) := group_records records in
  let! (buf, pos, samplesEmitted, dropped) := counter_samples buf sflowDatagramHeaderSize seqNo 0 0 groups groupOrder in
  if samplesEmitted =? 0 then Ok (buf, Some 0, dropped) else
  let! (buf, _) := encodeDatagramHeader buf domainID subAgentID seqNo uptimeMs samplesEmitted in
  Ok (buf, Some pos, dropped).

(** ** The octets of a sample *)

Definition ip_header (r : FlowRecord) : bytes :=
  let rest := written (ip_rest_writes r) in [0x45; ToS r] ++ be16 (4 + len rest) ++ rest.
Definition xdr_opaque (h : bytes) : bytes := be32 (len h) ++ h ++ repeat 0 (Z.to_nat (pad4 (len h))).
(** A type, a length, and what it counts. *)
Definition tagged (t : Z) (body : bytes) : bytes := be32 t ++ be32 (len body) ++ body.
Definition sampled_header (r : FlowRecord) : bytes :=
  tagged sflowFlowFmtSampledHeader (be32 sflowHdrProtoIPv4 ++ be32 (frameLen r) ++ be32 0 ++ xdr_opaque (ip_header r)).
Definition flow_sample (samplePool samplingRate : Z) (r : FlowRecord) : bytes :=
  tagged sflowSampleTypeFlow (be32 0 ++ be32 (InIface r) ++ be32 samplingRate ++ be32 samplePool ++ be32 0 ++ be32 (InIface r) ++ be32 (OutIface r) ++
    be32 1 ++ sampled_header r).

(** [enc] leaves [out] at its position, wherever that is, if there is room. *)
Definition emits (enc : bytes -> Z -> res (bytes * Z)) (out : bytes) : Prop :=
  forall pre rest, len out <= len rest -> enc (pre ++ rest) (len pre) = Ok (pre ++ out ++ drop (Z.to_nat (len out)) rest, len pre + len out).

Lemma emits_write ws : emits (fun buf pos => write buf pos ws) (written ws).
Proof. intros pre rest Hl. by apply write_fits. Qed.

Lemma emits_seq e1 e2 o1 o2 : emits e1 o1 -> emits e2 o2 -> emits (fun buf pos => let! (buf, pos) := e1 buf pos in e2 buf pos) (o1 ++ o2).
Proof.
  intros H1 H2 pre rest Hl. rewrite len_app in Hl. pose proof (len_nonneg o1). pose proof (len_nonneg o2).
  rewrite H1 by lia. cbn [res_bind]. rewrite app_assoc, <- len_app, H2 by (rewrite len_drop; lia).
  rewrite !len_app, <- !app_assoc, drop_drop. do 2 f_equal; [|lia]. do 4 f_equal. lia.
Qed.

(** A field of fixed width left open, what follows, then the field. *)
Lemma emits_backfill w v e out : len v = w -> emits e out ->
  emits (fun buf pos => let! (buf, p) := e buf (pos + w) in let! buf := put buf pos v in Ok (buf, p)) (v ++ out).
Proof.
  intros Hv He pre rest Hl. rewrite len_app in Hl. pose proof (len_nonneg out). pose proof (len_nonneg v).
  destruct (split_gap rest w) as (g & rest' & -> & Hg); [lia|]. rewrite len_app in Hl.
  rewrite app_assoc. replace (len pre + w) with (len (pre ++ g)) by (rewrite len_app; lia). rewrite He by lia. cbn [res_bind].
  rewrite <- app_assoc, put_over by lia. cbn [res_bind]. rewrite !len_app, <- !app_assoc. do 2 f_equal; [|lia]. do 3 f_equal.
  replace (len v + len out) with (len g + len out) by lia. by rewrite drop_len_app_more.
Qed.

Lemma written1 v : written [Put v] = v.
Proof. unfold written. cbn. by rewrite app_nil_r. Qed.

Lemma len_transport r : len (written (transport_writes r)) = if Protocol r =? 17 then 8 else if Protocol r =? 6 then 20 else 0.
Proof. unfold transport_writes. destruct (Protocol r =? 17); [done|]. by destruct (Protocol r =? 6). Qed.
Lemma len_ip_rest r : len (written (ip_rest_writes r)) = 16 + if Protocol r =? 17 then 8 else if Protocol r =? 6 then 20 else 0.
Proof.
  unfold ip_rest_writes. rewrite written_app, len_app, len_transport. f_equal. unfold written. cbn [map wr_bytes concat].
  rewrite !len_app, !len_ip4_or_zero. done.
Qed.
Lemma len_ip_header r : len (ip_header r) = 20 + if Protocol r =? 17 then 8 else if Protocol r =? 6 then 20 else 0.
Proof.
  pose proof (len_ip_rest r) as Hr. unfold ip_header. revert Hr. generalize (written (ip_rest_writes r)). intros rest Hr. cbv zeta.
  rewrite !len_app, len_be16. change (len [0x45; ToS r]) with 2. lia.
Qed.
Lemma ip_header_aligned r : pad4 (len (ip_header r)) = 0.
Proof. rewrite len_ip_header. destruct (Protocol r =? 17); [done|]. by destruct (Protocol r =? 6). Qed.

(** The IPv4 header, with the position after it as the result. *)
Lemma encodeIPv4Header_emits r pre rest : len (ip_header r) <= len rest ->
  encodeIPv4Header (pre ++ rest) (len pre) r = Ok (pre ++ ip_header r ++ drop (Z.to_nat (len (ip_header r))) rest, len (ip_header r)).
Proof.
  intros Hl. pose proof (len_ip_header r) as Hh. pose proof (len_ip_rest r) as Hr.
  assert (Hb : 0 <= (if Protocol r =? 17 then 8 else if Protocol r =? 6 then 20 else 0) <= 20) by (repeat case_if; lia).
  revert Hh Hr Hb. generalize (if Protocol r =? 17 then 8 else if Protocol r =? 6 then 20 else 0). intros t Hh Hr Hb.
  assert (Hf : u16 (4 + len (written (ip_rest_writes r))) = 4 + len (written (ip_rest_writes r))) by (unfold u16; rewrite Z.mod_small; lia).
  pose proof (emits_seq _ _ _ _ (emits_write [Put [0x45]; Put [ToS r]])
    (emits_backfill 2 (be16 (4 + len (written (ip_rest_writes r)))) _ _ eq_refl (emits_write (ip_rest_writes r)))) as He.
  change (written [Put [0x45]; Put [ToS r]]) with [0x45; ToS r] in He. fold (ip_header r) in He. specialize (He pre rest Hl). cbv beta in He.
  unfold encodeIPv4Header. rewrite write_fits in He |- * by (change (len (written [Put [0x45]; Put [ToS r]])) with 2; lia).
  cbn [res_bind] in He |- *. change (len (written [Put [69]; Put [ToS r]])) with 2 in *.
  destruct (write _ (len pre + 2 + 2) (ip_rest_writes r)) as [[b p]| |] eqn:E; cbn [res_bind] in He |- *; [|done|done].
  assert (p = len pre + len (ip_header r)) as ->.
  { destruct (put b _ _); cbn [res_bind] in He; [|done|done]. by injection He. }
  replace (len pre + len (ip_header r) - len pre) with (4 + len (written (ip_rest_writes r))) by (rewrite Hr, Hh; lia). rewrite Hf.
  destruct (put b _ _) as [b'| |] eqn:Ep; cbn [res_bind] in He |- *; [|done|done]. injection He as ->. do 2 f_equal. lia.
Qed.

Lemma emits_ext e e' out : (forall buf pos, e buf pos = e' buf pos) -> emits e' out -> emits e out.
Proof. intros Hx He pre rest Hl. rewrite Hx. by apply He. Qed.


(** A tagged body whose length is written after it. *)
Definition tagged_enc (t : Z) (e : bytes -> Z -> res (bytes * Z)) (buf : bytes) (pos : Z) : res (bytes * Z) :=
  let! (buf, bodyStart) := write buf pos [Put (be32 t); Put (be32 0)] in
  let! (buf, p) := e buf bodyStart in
  let! buf := put buf (pos + 4) (be32 (u32 (p - bodyStart))) in
  Ok (buf, p).

Lemma emits_tagged t e body : emits e body -> len body < 2 ^ 32 -> emits (tagged_enc t e) (tagged t body).
Proof.
  intros He Hb pre rest Hl. pose proof (len_nonneg body). unfold tagged in *. rewrite !len_app, !len_be32 in Hl. unfold tagged_enc.
  rewrite write_fits by (change (len (written [Put (be32 t); Put (be32 0)])) with 8; lia). cbn [res_bind].
  change (len (written [Put (be32 t); Put (be32 0)])) with 8. change (written [Put (be32 t); Put (be32 0)]) with (be32 t ++ be32 0).
  assert (Hp : len pre + 8 = len (pre ++ be32 t ++ be32 0)) by (rewrite !len_app, !len_be32; lia).
  replace (pre ++ (be32 t ++ be32 0) ++ drop (Z.to_nat 8) rest) with ((pre ++ be32 t ++ be32 0) ++ drop (Z.to_nat 8) rest) by (by rewrite <- !app_assoc).
  rewrite Hp, He by (rewrite len_drop; lia). cbn [res_bind]. rewrite <- Hp. replace (len pre + 8 + len body - (len pre + 8)) with (len body) by lia.
  rewrite u32_small by lia. replace (len pre + 4) with (len (pre ++ be32 t)) by (rewrite len_app, len_be32; lia).
  replace ((pre ++ be32 t ++ be32 0) ++ body ++ drop (Z.to_nat (len body)) (drop (Z.to_nat 8) rest))
    with ((pre ++ be32 t) ++ be32 0 ++ body ++ drop (Z.to_nat (len body)) (drop (Z.to_nat 8) rest)) by (by rewrite <- !app_assoc).
  rewrite put_over by done. cbn [res_bind]. rewrite !len_app, !len_be32, <- !app_assoc, drop_drop. do 2 f_equal; [|lia]. do 5 f_equal. lia.
Qed.

(** The opaque packet header, its length skipped and filled in. *)
Definition opaque_enc (r : FlowRecord) (buf : bytes) (p : Z) : res (bytes * Z) :=
  let! (buf, hdrLen) := encodeIPv4Header buf (p + 4) r in
  let! buf := put buf p (be32 (u32 hdrLen)) in
  write buf (p + 4 + hdrLen) (zeros (pad4 hdrLen)).

Lemma opaque_emits r : emits (opaque_enc r) (xdr_opaque (ip_header r)).
Proof.
  intros pre rest Hl. unfold xdr_opaque in *. rewrite ip_header_aligned in *. cbn [Z.to_nat repeat] in *. rewrite app_nil_r in *.
  rewrite len_app, len_be32 in Hl. assert (Hh : 0 <= len (ip_header r) <= 40) by (rewrite len_ip_header; repeat case_if; lia). unfold opaque_enc.
  destruct (split_gap rest 4) as (g & rest' & -> & Hg); [lia|]. rewrite len_app in Hl. rewrite app_assoc.
  replace (len pre + 4) with (len (pre ++ g)) by (rewrite len_app; lia). rewrite encodeIPv4Header_emits by lia. cbn [res_bind].
  rewrite <- app_assoc, put_over by done. cbn [res_bind]. rewrite ip_header_aligned. change (zeros 0) with (@nil wr). cbn [write].
  revert Hl Hh. generalize (ip_header r). intros h Hl Hh. rewrite u32_small by lia. rewrite !len_app, len_be32, <- !app_assoc. do 2 f_equal; [|lia]. do 3 f_equal.
  replace (4 + len h) with (len g + len h) by lia. by rewrite drop_len_app_more by lia.
Qed.

Lemma frameLen_range r : 0 <= Bytes_ r -> 0 <= frameLen r < 2 ^ 32.
Proof. intros Hb. unfold frameLen. repeat case_if; lia. Qed.

Lemma len_xdr_opaque r : len (xdr_opaque (ip_header r)) = 4 + len (ip_header r).
Proof.
  unfold xdr_opaque. rewrite ip_header_aligned. change (repeat 0 (Z.to_nat 0)) with (@nil Z). rewrite app_nil_r. generalize (ip_header r). intros h.
  by rewrite len_app, len_be32.
Qed.
Lemma len_tagged t body : len (tagged t body) = 8 + len body.
Proof. unfold tagged. rewrite !len_app, !len_be32. lia. Qed.
Lemma len_sampled_header r : len (sampled_header r) = 24 + len (ip_header r).
Proof.
  pose proof (len_xdr_opaque r) as Ho. unfold sampled_header. rewrite len_tagged. revert Ho. generalize (len (ip_header r)). intros n.
  generalize (xdr_opaque (ip_header r)). intros o Ho. rewrite !len_app, !len_be32. lia.
Qed.
Lemma len_flow_sample pool rate r : len (flow_sample pool rate r) = 64 + len (ip_header r).
Proof.
  pose proof (len_sampled_header r) as Ho. unfold flow_sample. rewrite len_tagged. revert Ho. generalize (len (ip_header r)). intros n.
  generalize (sampled_header r). intros o Ho. rewrite !len_app, !len_be32. lia.
Qed.
Lemma flow_sample_fits pool rate r : 84 <= len (flow_sample pool rate r) <= sflowMaxFlowSampleSize.
Proof. rewrite len_flow_sample, len_ip_header. unfold sflowMaxFlowSampleSize. repeat case_if; lia. Qed.

Lemma sampled_header_emits r : 0 <= Bytes_ r -> emits (fun buf pos => encodeSampledHeader buf pos r) (sampled_header r).
Proof.
  intros Hb. eapply emits_ext; [|apply (emits_tagged _ (fun buf pos => let! (buf, p) := write buf pos [Put (be32 sflowHdrProtoIPv4); Put (be32 (u32 (frameLen r))); Put (be32 0)] in opaque_enc r buf p))].
  - intros buf pos. unfold encodeSampledHeader, tagged_enc, opaque_enc.
    destruct (write buf pos _) as [[b1 p1]| |]; cbn [res_bind]; [|done|done]. destruct (write b1 p1 _) as [[b2 p2]| |]; cbn [res_bind]; [|done|done].
    destruct (encodeIPv4Header b2 _ r) as [[b3 h]| |]; cbn [res_bind]; [|done|done]. by destruct (put b3 p2 _).
  - rewrite u32_small by (by apply frameLen_range).
    exact (emits_seq _ _ _ _ (emits_write [Put (be32 sflowHdrProtoIPv4); Put (be32 (frameLen r)); Put (be32 0)]) (opaque_emits r)).
  - pose proof (len_xdr_opaque r) as Ho. rewrite len_ip_header in Ho. revert Ho. generalize (xdr_opaque (ip_header r)). intros o Ho.
    rewrite !len_app, !len_be32, Ho. repeat case_if; lia.
Qed.

Definition sample_fields (pool rate : Z) (r : FlowRecord) : list wr :=
  [Put (be32 0); Put (be32 (InIface r)); Put (be32 rate); Put (be32 pool); Put (be32 0); Put (be32 (InIface r)); Put (be32 (OutIface r)); Put (be32 1)].

Lemma flow_sample_emits pool rate r : 0 <= Bytes_ r -> emits (fun buf pos => encodeFlowSample buf pos r pool rate) (flow_sample pool rate r).
Proof.
  intros Hb. eapply emits_ext; [|apply (emits_tagged _ (fun buf pos => let! (buf, p) := write buf pos (sample_fields pool rate r) in encodeSampledHeader buf p r))].
  - intros buf pos. unfold encodeFlowSample, tagged_enc. destruct (write buf pos _) as [[b1 p1]| |]; cbn [res_bind]; [|done|done].
    change [Put (be32 0); Put (be32 (InIface r)); Put (be32 rate); Put (be32 pool); Put (be32 0); Put (be32 (InIface r)); Put (be32 (OutIface r)); Put (be32 1)]
      with (sample_fields pool rate r). by destruct (write b1 p1 _) as [[b2 p2]| |].
  - exact (emits_seq _ _ _ _ (emits_write (sample_fields pool rate r)) (sampled_header_emits r Hb)).
  - pose proof (flow_sample_fits pool rate r) as Hf. unfold flow_sample in Hf. rewrite len_tagged in Hf. unfold sflowMaxFlowSampleSize in Hf. lia.
Qed.

(** The samples of a batch, each with the packets of those before it as its pool. *)
Fixpoint samples_bytes (pool rate : Z) (rs : list FlowRecord) : bytes :=
  match rs with [] => [] | r :: rs' => flow_sample pool rate r ++ samples_bytes (u32 (pool + Packets r)) rate rs' end.

Lemma samples_fit rate rs : forall pool, 0 <= len (samples_bytes pool rate rs) <= len rs * sflowMaxFlowSampleSize.
Proof.
  induction rs as [|r rs IH]; intros pool; [done|]. cbn [samples_bytes]. pose proof (flow_sample_fits pool rate r) as Hf. specialize (IH (u32 (pool + Packets r))).
  revert Hf IH. generalize (flow_sample pool rate r) (samples_bytes (u32 (pool + Packets r)) rate rs). intros a b Hf IH.
  rewrite len_app, len_cons. unfold sflowMaxFlowSampleSize in *. lia.
Qed.

Lemma flow_samples_emits rate rs : Forall record_ok rs -> forall pool, emits (fun buf pos => flow_samples buf pos pool rate rs) (samples_bytes pool rate rs).
Proof.
  induction 1 as [|r rs Hr _ IH]; intros pool; cbn [flow_samples samples_bytes].
  - intros pre rest _. cbn [app]. rewrite len_nil, Z.add_0_r. done.
  - apply emits_seq; [|apply IH]. apply flow_sample_emits. unfold record_ok in Hr. tauto.
Qed.

Definition sflow_header (agent sub seq up n : Z) : bytes :=
  be32 sflowVersion ++ be32 sflowAddrTypeIP4 ++ be32 agent ++ be32 sub ++ be32 seq ++ be32 up ++ be32 n.

Lemma header_emits agent sub seq up n buf : sflowDatagramHeaderSize <= len buf ->
  encodeDatagramHeader buf agent sub seq up n = Ok (sflow_header agent sub seq up n ++ drop 28 buf, 28).
Proof. intros Hl. unfold encodeDatagramHeader. rewrite write_start by exact Hl. reflexivity. Qed.

Definition sflow_capacity (size : Z) : Z := (size - sflowDatagramHeaderSize) ÷ sflowMaxFlowSampleSize.

Lemma sflow_capacity_fits size n : sflowDatagramHeaderSize + sflowMaxFlowSampleSize <= size -> n <= sflow_capacity size ->
  sflowDatagramHeaderSize + n * sflowMaxFlowSampleSize <= size.
Proof.
  unfold sflow_capacity, sflowDatagramHeaderSize, sflowMaxFlowSampleSize. intros Hs. rewrite Z.quot_div_nonneg by lia.
  pose proof (Z.mul_div_le (size - 28) 128 ltac:(lia)). lia.
Qed.
Lemma sflow_capacity_pos size : sflowDatagramHeaderSize + sflowMaxFlowSampleSize <= size -> 1 <= sflow_capacity size.
Proof.
  unfold sflow_capacity, sflowDatagramHeaderSize, sflowMaxFlowSampleSize. intros Hs. rewrite Z.quot_div_nonneg by lia. apply Z.div_le_lower_bound; lia.
Qed.

Lemma EncodeFlowDatagram_spec agent sub seq up rs rate buf :
  rs <> [] -> sflowDatagramHeaderSize + sflowMaxFlowSampleSize <= len buf < 2 ^ 32 -> Forall record_ok rs ->
  let sent := take (Z.to_nat (sflow_capacity (len buf))) rs in
  let P := sflow_header agent sub seq up (len sent) ++ samples_bytes 0 rate sent in
  EncodeFlowDatagram agent sub seq up rs rate buf = Ok (P ++ drop (Z.to_nat (len P)) buf, Some (len P)) /\ len P <= len buf /\ 0 < len sent < 2 ^ 32.
Proof.
  intros Hne Hl Hok sent P. pose proof (sflow_capacity_pos (len buf) ltac:(lia)) as Hc.
  assert (Hs : 0 < len sent <= sflow_capacity (len buf)).
  { unfold sent. rewrite len_take. destruct rs; [done|]. rewrite len_cons. pose proof (len_nonneg rs). lia. }
  pose proof (sflow_capacity_fits (len buf) (len sent) ltac:(lia) ltac:(lia)) as Hf. unfold sflowDatagramHeaderSize, sflowMaxFlowSampleSize in *.
  pose proof (samples_fit rate sent 0) as Hsf. unfold sflowMaxFlowSampleSize in Hsf.
  assert (HP : len P = 28 + len (samples_bytes 0 rate sent)) by (unfold P; rewrite len_app; done).
  split; [|split; [lia|lia]]. unfold EncodeFlowDatagram. destruct (len rs =? 0) eqn:E0; [zbool; apply len_0_nil in E0; done|].
  unfold sflowDatagramHeaderSize, sflowMaxFlowSampleSize. destruct (len buf <? 28 + 128) eqn:E1; [lia|]. fold sflowDatagramHeaderSize sflowMaxFlowSampleSize.
  change ((len buf - sflowDatagramHeaderSize) ÷ sflowMaxFlowSampleSize) with (sflow_capacity (len buf)).
  destruct (sflow_capacity (len buf) <? 1) eqn:E2; [lia|]. rewrite cut_to_capacity by lia. cbn [res_bind]. fold sent. rewrite u32_small by lia.
  rewrite header_emits by (unfold sflowDatagramHeaderSize; lia). cbn [res_bind].
  change 28 with (len (sflow_header agent sub seq up (len sent))) at 1.
  rewrite (flow_samples_emits rate sent (Forall_take _ _ _ Hok) 0) by (rewrite len_drop; lia). cbn [res_bind].
  change (len (sflow_header agent sub seq up (len sent))) with 28. rewrite HP. unfold P. rewrite <- app_assoc, drop_drop. do 5 f_equal. lia.
Qed.

(** ** An sFlow collector *)

Record packet_header := { ip_tos : Z; ip_total : Z; ip_proto : Z; ip_src : Z; ip_dst : Z; ip_ports : option (Z * Z) }.
(** An IPv4 packet without options, and the ports of UDP and TCP. *)
Definition read_ip (h : bytes) : option packet_header :=
  '(vi, b) ← num_n 1 h; guard (vi = 0x45);; '(tos, b) ← num_n 1 b; '(total, b) ← num_n 2 b; '(_, b) ← num_n 4 b; '(_, b) ← num_n 1 b;
  '(proto, b) ← num_n 1 b; '(_, b) ← num_n 2 b; '(src, b) ← num_n 4 b; '(dst, b) ← num_n 4 b;
  ports ← (if (proto =? 6) || (proto =? 17) then '(sp, b) ← num_n 2 b; '(dp, b) ← num_n 2 b; Some (Some (sp, dp)) else Some None);
  Some {| ip_tos := tos; ip_total := total; ip_proto := proto; ip_src := src; ip_dst := dst; ip_ports := ports |}.

Definition read_tagged (b : bytes) : option (Z * bytes * bytes) :=
  '(t, b) ← num_n 4 b; '(l, b) ← num_n 4 b; '(body, b) ← take_n l b; Some (t, body, b).

Record flow_reading := { s_source : Z; s_rate : Z; s_pool : Z; s_in : Z; s_out : Z; s_frame : Z; s_length : Z; s_packet : packet_header }.
Definition read_flow (b : bytes) : option flow_reading :=
  '(_, b) ← num_n 4 b; '(source, b) ← num_n 4 b; '(rate, b) ← num_n 4 b; '(pool, b) ← num_n 4 b; '(_, b) ← num_n 4 b;
  '(input, b) ← num_n 4 b; '(output, b) ← num_n 4 b; '(n, b) ← num_n 4 b; guard (n = 1);;
  '(fmt, rb, rest) ← read_tagged b; guard (fmt = 1);; guard (rest = []);;
  '(proto, rb) ← num_n 4 rb; guard (proto = 11);; '(frame, rb) ← num_n 4 rb; '(_, rb) ← num_n 4 rb;
  '(hl, rb) ← num_n 4 rb; '(h, rb) ← take_n hl rb; guard (len rb = pad4 hl);; p ← read_ip h;
  Some {| s_source := source; s_rate := rate; s_pool := pool; s_in := input; s_out := output; s_frame := frame; s_length := hl; s_packet := p |}.

(** The records of a counters sample: format and octets, padding skipped. *)
Fixpoint read_counters (n : nat) (b : bytes) : option (list (Z * bytes)) :=
  match n with
  | O => guard (b = []);; Some []
  | S n' => '(fmt, body, b) ← read_tagged b; '(_, b) ← take_n (pad4 (len body)) b; rs ← read_counters n' b; Some ((fmt, body) :: rs)
  end.
Inductive sample_reading :=
| FlowReading (f : flow_reading)
| CounterReading (source : Z) (records : list (Z * bytes)).
Definition read_sample (t : Z) (body : bytes) : option sample_reading :=
  if t =? 1 then FlowReading <$> read_flow body
  else if t =? 2 then
    '(_, b) ← num_n 4 body; '(source, b) ← num_n 4 b; '(n, b) ← num_n 4 b; rs ← read_counters (Z.to_nat n) b; Some (CounterReading source rs)
  else None.
Fixpoint read_samples (n : nat) (b : bytes) : option (list sample_reading) :=
  match n with
  | O => guard (b = []);; Some []
  | S n' => '(t, body, b) ← read_tagged b; s ← read_sample t body; ss ← read_samples n' b; Some (s :: ss)
  end.
Record datagram_reading := { d_agent : Z; d_sub : Z; d_seq : Z; d_uptime : Z; d_samples : list sample_reading }.
Definition collectS (b : bytes) : option datagram_reading :=
  '(v, b) ← num_n 4 b; guard (v = 5);; '(at_, b) ← num_n 4 b; guard (at_ = 1);;
  '(agent, b) ← num_n 4 b; '(sub, b) ← num_n 4 b; '(seq, b) ← num_n 4 b; '(up, b) ← num_n 4 b; '(n, b) ← num_n 4 b;
  ss ← read_samples (Z.to_nat n) b;
  Some {| d_agent := agent; d_sub := sub; d_seq := seq; d_uptime := up; d_samples := ss |}.

(** What a collector should read of a flow. *)
Definition flow_packet (r : FlowRecord) : packet_header :=
  let ports := if (Protocol r =? 6) || (Protocol r =? 17) then Some (SrcPort r, DstPort r) else None in
  {| ip_tos := ToS r; ip_total := if Protocol r =? 17 then 28 else if Protocol r =? 6 then 40 else 20; ip_proto := Protocol r;
     ip_src := addr_val (SrcIP r); ip_dst := addr_val (DstIP r); ip_ports := ports |}.
Definition flow_seen (pool rate : Z) (r : FlowRecord) : flow_reading :=
  {| s_source := InIface r; s_rate := rate; s_pool := pool; s_in := InIface r; s_out := OutIface r; s_frame := frameLen r;
     s_length := ip_total (flow_packet r); s_packet := flow_packet r |}.
Fixpoint flows_seen (pool rate : Z) (rs : list FlowRecord) : list sample_reading :=
  match rs with [] => [] | r :: rs' => FlowReading (flow_seen pool rate r) :: flows_seen (u32 (pool + Packets r)) rate rs' end.

(** ** Reading the samples *)

Lemma num_byte x b : num_n 1 ([x] ++ b) = Some (x, b).
Proof. rewrite num_n_app by done. do 2 f_equal. Qed.

Lemma ip_rest_bytes r : written (ip_rest_writes r) =
  be16 0 ++ be16 0x4000 ++ [64] ++ [Protocol r] ++ be16 0 ++ ip4_or_zero (SrcIP r) ++ ip4_or_zero (DstIP r) ++ written (transport_writes r).
Proof. unfold ip_rest_writes. rewrite written_app. unfold written at 1. cbn [map wr_bytes concat]. rewrite app_nil_r, <- !app_assoc. done. Qed.

Lemma read_ip_header r : record_ok r -> read_ip (ip_header r) = Some (flow_packet r).
Proof.
  intros (_ & _ & _ & Hsp & Hdp & Hp & _). pose proof (len_ip_rest r) as Hlen. unfold ip_header. cbv zeta. rewrite Hlen, ip_rest_bytes. clear Hlen.
  set (t := if Protocol r =? 17 then 8 else if Protocol r =? 6 then 20 else 0). assert (Ht : 0 <= t <= 20) by (unfold t; repeat case_if; lia).
  assert (Hd : ip_total (flow_packet r) = 4 + (16 + t)) by (unfold t; cbn; by destruct (Protocol r =? 17), (Protocol r =? 6)).
  clearbody t. set (ports := written (transport_writes r)). change ([69; ToS r] ++ ?x) with ([69] ++ [ToS r] ++ x).
  unfold read_ip. rewrite num_byte. cbn [mbind option_bind]. rewrite option_guard_True by done. cbn [mbind option_bind].
  rewrite num_byte. cbn [mbind option_bind]. rewrite num_be16 by lia. cbn [mbind option_bind].
  rewrite (app_assoc (be16 0) (be16 0x4000)), (num_n_app 4 (be16 0 ++ be16 0x4000)) by done. cbn [mbind option_bind]. rewrite num_byte. cbn [mbind option_bind].
  rewrite num_byte. cbn [mbind option_bind]. rewrite num_be16 by lia. cbn [mbind option_bind].
  rewrite num_n_app by apply len_ip4_or_zero. cbn [mbind option_bind]. rewrite num_n_app by apply len_ip4_or_zero. cbn [mbind option_bind].
  rewrite !be_val_ip.
  assert (Hports : (if (Protocol r =? 6) || (Protocol r =? 17) then '(sp, b) ← num_n 2 ports; '(dp, b) ← num_n 2 b; Some (Some (sp, dp)) else Some None) =
    Some (ip_ports (flow_packet r))).
  { unfold ports, transport_writes. cbn [ip_ports flow_packet]. destruct (Protocol r =? 17) eqn:E17; destruct (Protocol r =? 6) eqn:E6; cbn [orb]; [lia| | |done].
    all: unfold written; cbn [map wr_bytes concat]; rewrite num_be16 by done; cbn [mbind option_bind]; rewrite num_be16 by done; done. }
  rewrite Hports. cbn [mbind option_bind]. rewrite <- Hd. done.
Qed.

Ltac num32 := rewrite num_be32 by (assumption || done || lia); cbn [mbind option_bind].
Ltac guard_ok := rewrite option_guard_True by done; cbn [mbind option_bind].

Lemma read_tagged_app t body b : 0 <= t < 2 ^ 32 -> len body < 2 ^ 32 -> read_tagged (tagged t body ++ b) = Some (t, body, b).
Proof.
  intros Ht Hb. pose proof (len_nonneg body). unfold read_tagged, tagged. rewrite <- !app_assoc. num32. num32. by rewrite take_n_app.
Qed.

Lemma sampled_body_small r : len (be32 sflowHdrProtoIPv4 ++ be32 (frameLen r) ++ be32 0 ++ xdr_opaque (ip_header r)) < 2 ^ 32.
Proof.
  pose proof (len_sampled_header r) as Hl. unfold sampled_header in Hl. rewrite len_tagged, len_ip_header in Hl. revert Hl.
  generalize (be32 sflowHdrProtoIPv4 ++ be32 (frameLen r) ++ be32 0 ++ xdr_opaque (ip_header r)). intros l Hl. revert Hl. repeat case_if; lia.
Qed.

(** The body of a flow sample, read back. *)
Lemma read_flow_sample pool rate r : record_ok r -> 0 <= pool < 2 ^ 32 -> 0 <= rate < 2 ^ 32 ->
  read_flow (be32 0 ++ be32 (InIface r) ++ be32 rate ++ be32 pool ++ be32 0 ++ be32 (InIface r) ++ be32 (OutIface r) ++ be32 1 ++ sampled_header r) =
    Some (flow_seen pool rate r).
Proof.
  intros Hok Hpool Hrate. pose proof (read_ip_header r Hok) as Hip. pose proof (ip_header_aligned r) as Hal. pose proof (len_ip_header r) as Hlen.
  pose proof (sampled_body_small r) as Hsm.
  assert (Hi : 0 <= InIface r < 2 ^ 32 /\ 0 <= OutIface r < 2 ^ 32 /\ 0 <= Bytes_ r) by (unfold record_ok in Hok; lia). destruct Hi as (Hi & Ho & Hb).
  pose proof (frameLen_range r Hb) as Hf. assert (Hh : 0 <= len (ip_header r) < 2 ^ 32) by (rewrite Hlen; repeat case_if; lia).
  assert (Htot : ip_total (flow_packet r) = len (ip_header r)) by (rewrite Hlen; cbn; by destruct (Protocol r =? 17), (Protocol r =? 6)). clear Hlen.
  unfold read_flow. do 8 num32. guard_ok. unfold sampled_header. rewrite <- (app_nil_r (tagged _ _)), read_tagged_app by done.
  cbn [mbind option_bind]. do 2 guard_ok. num32. guard_ok. num32. num32. unfold xdr_opaque. num32. rewrite take_n_app by done. cbn [mbind option_bind].
  rewrite Hal. change (repeat 0 (Z.to_nat 0)) with (@nil Z). guard_ok. rewrite Hip. cbn [mbind option_bind]. unfold flow_seen. by rewrite Htot.
Qed.

Lemma read_samples_flows rate rs : 0 <= rate < 2 ^ 32 -> Forall record_ok rs -> forall pool, 0 <= pool < 2 ^ 32 ->
  read_samples (length rs) (samples_bytes pool rate rs) = Some (flows_seen pool rate rs).
Proof.
  intros Hrate. induction 1 as [|r rs Hr _ IH]; intros pool Hp; [done|]. cbn [length read_samples samples_bytes flows_seen].
  pose proof (flow_sample_fits pool rate r) as Hf. unfold flow_sample in *. rewrite len_tagged in Hf. unfold sflowMaxFlowSampleSize in Hf.
  rewrite read_tagged_app by (done || lia). cbn [mbind option_bind]. unfold read_sample. change (sflowSampleTypeFlow =? 1) with true. cbn iota.
  rewrite read_flow_sample by done. cbn [fmap option_fmap option_map mbind option_bind]. rewrite IH by apply u32_bound. done.
Qed.

Lemma collect_header agent sub seq up n body ss :
  0 <= agent < 2 ^ 32 -> 0 <= sub < 2 ^ 32 -> 0 <= seq < 2 ^ 32 -> 0 <= up < 2 ^ 32 -> 0 <= n < 2 ^ 32 -> read_samples (Z.to_nat n) body = Some ss ->
  collectS (sflow_header agent sub seq up n ++ body) = Some {| d_agent := agent; d_sub := sub; d_seq := seq; d_uptime := up; d_samples := ss |}.
Proof.
  intros Ha Hb Hs Hu Hn Hr. unfold collectS, sflow_header. rewrite <- !app_assoc. change sflowVersion with 5. change sflowAddrTypeIP4 with 1.
  num32. guard_ok. num32. guard_ok. do 5 num32. rewrite Hr. done.
Qed.

(** C15: an sFlow collector reads a datagram back: the agent, the sequence and the
    uptime, and one sample for each of the leading flows there is room for, with
    its interfaces, the sampling rate, the packets of the flows before it as the
    pool, and a parseable IPv4 packet of the length it claims with the flow's
    addresses, protocol and, for TCP and UDP, ports. *)
Theorem sflow_collector_reads agent sub seq up rs rate buf :
  rs <> [] -> sflowDatagramHeaderSize + sflowMaxFlowSampleSize <= len buf < 2 ^ 32 -> Forall record_ok rs ->
  0 <= agent < 2 ^ 32 -> 0 <= sub < 2 ^ 32 -> 0 <= seq < 2 ^ 32 -> 0 <= up < 2 ^ 32 -> 0 <= rate < 2 ^ 32 ->
  exists buf' n, EncodeFlowDatagram agent sub seq up rs rate buf = Ok (buf', Some n) /\ n <= len buf /\
    collectS (take (Z.to_nat n) buf') = Some {| d_agent := agent; d_sub := sub; d_seq := seq; d_uptime := up;
      d_samples := flows_seen 0 rate (take (Z.to_nat (sflow_capacity (len buf))) rs) |}.
Proof.
  intros Hne Hl Hok Ha Hb Hs Hu Hr. destruct (EncodeFlowDatagram_spec agent sub seq up rs rate buf Hne Hl Hok) as (He & HP & Hn).
  set (sent := take _ rs) in *. set (P := sflow_header _ _ _ _ _ ++ _) in *. eexists _, _. split; [exact He|]. split; [done|]. rewrite take_packet. unfold P.
  apply collect_header; try done; [lia|]. rewrite len_def, Nat2Z.id. apply read_samples_flows; [done|by apply Forall_take|lia].
Qed.

(** ** Counter datagrams *)

(** The sources in the order they first appear, and the records of one. *)
Definition first_seen (records : list CounterRecord) : list Z :=
  fold_left (fun acc rec => if bool_decide (SourceID rec ∈ acc) then acc else acc ++ [SourceID rec]) records [].
Definition of_source (s : Z) (records : list CounterRecord) : list CounterRecord := List.filter (fun rec => SourceID rec =? s) records.

Lemma first_seen_snoc records rec :
  first_seen (records ++ [rec]) = if bool_decide (SourceID rec ∈ first_seen records) then first_seen records else first_seen records ++ [SourceID rec].
Proof. unfold first_seen. by rewrite fold_left_app. Qed.

Lemma group_records_spec records : exists groups, group_records records = (first_seen records, groups) /\
  forall s, groups !! s = if bool_decide (s ∈ first_seen records) then Some (of_source s records) else None.
Proof.
  induction records as [|rec records IH] using rev_ind; [by exists ∅|]. destruct IH as (groups & Hg & Hs).
  unfold group_records in *. rewrite fold_left_app, Hg. cbn [fold_left group_step]. eexists. split.
  - f_equal. rewrite first_seen_snoc, Hs. by case_bool_decide.
  - intros s. unfold of_source. rewrite List.filter_app. cbn [List.filter]. rewrite first_seen_snoc. destruct (decide (s = SourceID rec)) as [->|Hne].
    + rewrite lookup_insert_eq, Z.eqb_refl, Hs. case_bool_decide as Hin; [by rewrite !bool_decide_true by done|].
      cbn [default]. rewrite bool_decide_true by set_solver. f_equal. enough (of_source (SourceID rec) records = []) as E by (unfold of_source in E; by rewrite E).
      clear -Hin. revert Hin. induction records as [|r l IH] using rev_ind; [done|]. rewrite first_seen_snoc. unfold of_source in *. rewrite List.filter_app. cbn [List.filter].
      intros Hin. destruct (SourceID r =? SourceID rec) eqn:E; zbool; [exfalso; apply Hin; rewrite <- E; case_bool_decide; set_solver|].
      rewrite app_nil_r. apply IH. contradict Hin. case_bool_decide; set_solver.
    + rewrite lookup_insert_ne, Hs by done. destruct (SourceID rec =? s) eqn:E; zbool; [done|]. rewrite app_nil_r.
      erewrite (bool_decide_ext (s ∈ first_seen records)); [done|]. case_bool_decide; set_solver.
Qed.

Definition counter_bytes (rec : CounterRecord) : bytes := tagged (Format rec) (Body rec) ++ repeat 0 (Z.to_nat (pad4 (len (Body rec)))).
Definition counters_body (seq s : Z) (recs : list CounterRecord) : bytes :=
  be32 seq ++ be32 s ++ be32 (len recs) ++ concat (map counter_bytes recs).
Definition counters_bytes (seq : Z) (records : list CounterRecord) (order : list Z) : bytes :=
  concat (map (fun s => tagged sflowSampleTypeCounters (counters_body seq s (of_source s records))) order).

Lemma len_counter_bytes rec : len (counter_bytes rec) = 8 + (len (Body rec) + pad4 (len (Body rec))).
Proof.
  unfold counter_bytes. rewrite len_app, len_tagged. pose proof (pad4_bound (len (Body rec))). unfold len at 2. rewrite repeat_length. lia.
Qed.

Lemma counter_records_emits recs : forall pre rest em dr, Forall (fun rec => len (Body rec) < 2 ^ 32) recs -> 0 <= em -> em + len recs < 2 ^ 32 ->
  let out := concat (map counter_bytes recs) in
  len out <= len rest ->
  counter_records (pre ++ rest) (len pre) em dr recs = Ok (pre ++ out ++ drop (Z.to_nat (len out)) rest, len pre + len out, em + len recs, dr).
Proof.
  induction recs as [|rec recs IH]; intros pre rest em dr Hf Hem Hn out Hl; cbn [counter_records].
  { cbn. rewrite !Z.add_0_r. done. }
  apply list.Forall_cons in Hf as [Hb Hf]. rewrite len_cons in Hn. pose proof (len_nonneg recs). unfold out in *. clear out. cbn [map concat] in *.
  pose proof (len_counter_bytes rec) as Hc. pose proof (len_nonneg (Body rec)). pose proof (pad4_bound (len (Body rec))).
  pose proof (len_nonneg (concat (map counter_bytes recs))) as Hnn.
  assert (Hw : written ([Put (be32 (Format rec)); Put (be32 (u32 (len (Body rec)))); Copy (Body rec)] ++ zeros (pad4 (len (Body rec)))) = counter_bytes rec).
  { rewrite written_app, written_zeros. unfold written, counter_bytes, tagged. cbn [map wr_bytes concat]. rewrite u32_small by lia. by rewrite app_nil_r. }
  revert Hc Hl Hw Hnn IH. generalize (counter_bytes rec) (concat (map counter_bytes recs)). intros c cs Hc Hl Hw Hnn IH. rewrite len_app in Hl.
  destruct (_ <? _) eqn:E; [rewrite len_app in E; lia|]. rewrite write_fits by (rewrite Hw; lia). rewrite Hw. cbn [res_bind].
  rewrite u32_small by lia. rewrite app_assoc, <- len_app, IH by (done || lia || (rewrite len_drop; lia)).
  rewrite !len_app, len_cons, <- !app_assoc, drop_drop, <- Z2Nat.inj_add, !Z.add_assoc by lia. done.
Qed.

(** One counters sample. *)
Lemma counter_sample_step seq s recs order groups pre rest n dr :
  default [] (groups !! s) = recs -> recs <> [] -> len recs < 2 ^ 32 -> Forall (fun rec => len (Body rec) < 2 ^ 32) recs ->
  let out := tagged sflowSampleTypeCounters (counters_body seq s recs) in
  len (counters_body seq s recs) < 2 ^ 32 -> len out <= len rest -> 0 <= n -> n + 1 < 2 ^ 32 ->
  counter_samples (pre ++ rest) (len pre) seq n dr groups (s :: order) =
    counter_samples ((pre ++ out) ++ drop (Z.to_nat (len out)) rest) (len (pre ++ out)) seq (n + 1) dr groups order.
Proof.
  intros Hg Hne Hr Hb out Hw Hl Hn Hn1. cbn [counter_samples]. rewrite Hg. unfold out in *. clear out. rewrite len_tagged in Hl.
  assert (Hc : len (counters_body seq s recs) = 12 + len (concat (map counter_bytes recs))).
  { unfold counters_body. generalize (concat (map counter_bytes recs)). intros cs. rewrite !len_app, !len_be32. lia. }
  pose proof (len_nonneg (concat (map counter_bytes recs))) as Hnn. rewrite Hc in Hw, Hl.
  destruct (_ <? sflowCountersSampleHeaderSize) eqn:E; [rewrite len_app in E; unfold sflowCountersSampleHeaderSize in E; lia|]. clear E.
  destruct (split_gap rest 20) as (g & rest' & -> & Hg20); [lia|]. rewrite len_app in Hl.
  rewrite write_fits by (change (len (written [Put (be32 sflowSampleTypeCounters); Put (be32 0)])) with 8; rewrite len_app; pose proof (len_nonneg rest'); lia).
  change (written [Put (be32 sflowSampleTypeCounters); Put (be32 0)]) with (be32 sflowSampleTypeCounters ++ be32 0). change (len (be32 sflowSampleTypeCounters ++ be32 0)) with 8.
  cbn [res_bind]. set (A := be32 sflowSampleTypeCounters ++ be32 0). rewrite (app_assoc pre A). replace (len pre + 8) with (len (pre ++ A)) by (rewrite len_app; reflexivity).
  rewrite write_fits by (change (len (written [Put (be32 seq); Put (be32 s)])) with 8; rewrite len_drop, len_app; pose proof (len_nonneg rest'); lia).
  change (written [Put (be32 seq); Put (be32 s)]) with (be32 seq ++ be32 s). change (len (be32 seq ++ be32 s)) with 8. cbn [res_bind].
  set (B := be32 seq ++ be32 s). rewrite (app_assoc (pre ++ A) B). replace (len (pre ++ A) + 8) with (len ((pre ++ A) ++ B)) by (rewrite (len_app (pre ++ A) B); reflexivity).
  rewrite write_fits by (change (len (written [Put (be32 0)])) with 4; rewrite !len_drop, len_app; pose proof (len_nonneg rest'); lia).
  change (written [Put (be32 0)]) with (be32 0). change (len (be32 0)) with 4. cbn [res_bind]. rewrite !drop_drop.
  replace (drop (Z.to_nat 8 + Z.to_nat 8 + Z.to_nat 4) (g ++ rest')) with rest'
    by (change (Z.to_nat 8 + Z.to_nat 8 + Z.to_nat 4)%nat with (Z.to_nat 20); rewrite <- Hg20; by rewrite drop_len_app).
  rewrite (app_assoc ((pre ++ A) ++ B) (be32 0)). replace (len ((pre ++ A) ++ B) + 4) with (len (((pre ++ A) ++ B) ++ be32 0)) by (rewrite (len_app ((pre ++ A) ++ B)); reflexivity).
  rewrite counter_records_emits by (done || lia). rewrite Z.add_0_l. cbn [res_bind].
  destruct (len recs =? 0) eqn:E0; [zbool; by apply len_0_nil in E0|]. clear E0.
  assert (Hs : tagged sflowSampleTypeCounters (counters_body seq s recs) =
    be32 sflowSampleTypeCounters ++ be32 (12 + len (concat (map counter_bytes recs))) ++ B ++ be32 (len recs) ++ concat (map counter_bytes recs)).
  { unfold tagged. rewrite Hc. unfold counters_body, B. by rewrite <- !app_assoc. }
  rewrite Hs. clear Hs Hc Hb Hg Hne. revert Hnn Hl Hw. generalize (concat (map counter_bytes recs)). intros cs Hnn Hl Hw.
  replace (len (((pre ++ A) ++ B) ++ be32 0) + len cs - len (pre ++ A)) with (12 + len cs)
    by (rewrite (len_app ((pre ++ A) ++ B) (be32 0)), (len_app (pre ++ A) B); change (len (be32 0)) with 4; change (len B) with 8; lia).
  rewrite u32_small by lia. unfold A. replace (len pre + 4) with (len (pre ++ be32 sflowSampleTypeCounters)) by (rewrite len_app; reflexivity).
  set (T := be32 sflowSampleTypeCounters). set (tail := drop (Z.to_nat (len cs)) rest').
  replace ((((pre ++ T ++ be32 0) ++ B) ++ be32 0) ++ cs ++ tail) with ((pre ++ T) ++ be32 0 ++ (B ++ be32 0 ++ cs ++ tail)) by (by rewrite <- !app_assoc).
  rewrite put_over by done. cbn [res_bind]. set (L := be32 (12 + len cs)).
  replace ((pre ++ T) ++ L ++ B ++ be32 0 ++ cs ++ tail) with (((pre ++ T ++ L) ++ B) ++ be32 0 ++ cs ++ tail) by (by rewrite <- !app_assoc).
  replace (len ((pre ++ T ++ be32 0) ++ B)) with (len ((pre ++ T ++ L) ++ B)) by (by rewrite !len_app).
  rewrite put_over by done. cbn [res_bind]. rewrite u32_small by lia. f_equal.
  - rewrite <- !app_assoc. do 7 f_equal. unfold tail.
    rewrite (len_app T), (len_app L), (len_app (be32 seq)), (len_app (be32 s)), (len_app (be32 (len recs))). change (len T) with 4. change (len L) with 4. rewrite !len_be32.
    replace (4 + (4 + (4 + (4 + (4 + len cs))))) with (len g + len cs) by lia. by rewrite drop_len_app_more.
  - rewrite !len_app. change (len T) with 4. change (len L) with 4. change (len B) with 8. change (len (be32 (len recs))) with 4. change (len (be32 0)) with 4. lia.
Qed.

Lemma first_seen_NoDup records : NoDup (first_seen records).
Proof.
  induction records as [|rec records IH] using rev_ind; [constructor|]. rewrite first_seen_snoc. case_bool_decide as Hin; [done|].
  apply list.NoDup_app. split; [done|]. split; [set_solver|]. apply NoDup_singleton.
Qed.
Lemma first_seen_source records s : s ∈ first_seen records -> of_source s records <> [].
Proof.
  induction records as [|rec records IH] using rev_ind; [by intros ?%not_elem_of_nil|]. unfold of_source in *. rewrite first_seen_snoc, List.filter_app. cbn [List.filter].
  destruct (SourceID rec =? s) eqn:E; zbool; [intros _ Hnil; by apply app_nil in Hnil as [_ ?]|]. rewrite app_nil_r. case_bool_decide; [done|].
  intros [?|Hs%list_elem_of_singleton]%list.elem_of_app; [by apply IH|]. congruence.
Qed.

(** A record is in one group at most. *)
Lemma groups_total order : NoDup order -> forall records, fold_right (fun s n => len (of_source s records) + n) 0 order <= len records.
Proof.
  induction 1 as [|s order Hs _ IH]; intros records; cbn [fold_right]; [apply len_nonneg|].
  set (others := List.filter (fun rec => negb (SourceID rec =? s)) records).
  assert (Hp : len records = len (of_source s records) + len others).
  { unfold others, of_source. clear. induction records as [|r l IH]; [done|]. cbn [List.filter]. destruct (SourceID r =? s); cbn [negb]; rewrite !len_cons; lia. }
  specialize (IH others). assert (He : fold_right (fun s n => len (of_source s others) + n) 0 order = fold_right (fun s n => len (of_source s records) + n) 0 order); [|lia].
  clear IH Hp. revert Hs. induction order as [|x order IH]; [done|]. intros [Hx Ho]%not_elem_of_cons. cbn [fold_right]. rewrite IH by done. do 2 f_equal.
  unfold others, of_source. clear -Hx. induction records as [|r l IH]; [done|]. cbn [List.filter].
  destruct (SourceID r =? s) eqn:E; cbn [negb List.filter]; destruct (SourceID r =? x) eqn:E'; zbool; [congruence|done|by rewrite IH|done].
Qed.

(** The octets a source's records may take in all. *)
Definition body_max : Z := sflowMaxCountersSampleSize - sflowCountersSampleHeaderSize - 8.

Lemma counter_bytes_bound rec : len (Body rec) <= body_max -> 0 <= len (counter_bytes rec) <= 8 + body_max.
Proof.
  unfold body_max, sflowMaxCountersSampleSize, sflowCountersSampleHeaderSize. intros Hb. rewrite len_counter_bytes. pose proof (pad4_bound (len (Body rec))).
  pose proof (pad4_aligned (len (Body rec))). pose proof (len_nonneg (Body rec)). split; [lia|]. pose proof (Z.div_mod (len (Body rec) + pad4 (len (Body rec))) 4). lia.
Qed.
Lemma counters_sample_bound seq s recs : recs <> [] -> Forall (fun rec => len (Body rec) <= body_max) recs ->
  0 <= len (tagged sflowSampleTypeCounters (counters_body seq s recs)) <= len recs * sflowMaxCountersSampleSize.
Proof.
  intros Hne Hf. rewrite len_tagged. assert (Hc : len (counters_body seq s recs) = 12 + len (concat (map counter_bytes recs))).
  { unfold counters_body. generalize (concat (map counter_bytes recs)). intros cs. rewrite !len_app, !len_be32. lia. }
  assert (Hb : 0 <= len (concat (map counter_bytes recs)) <= len recs * (8 + body_max)).
  { clear Hne Hc. induction Hf as [|rec recs Hr _ IH]; [done|]. cbn [map concat]. pose proof (counter_bytes_bound rec Hr) as Hcb. revert IH Hcb.
    generalize (counter_bytes rec) (concat (map counter_bytes recs)). intros a b IH Hcb. rewrite len_app, len_cons. lia. }
  destruct recs; [done|]. rewrite len_cons in *. pose proof (len_nonneg recs). unfold body_max, sflowMaxCountersSampleSize, sflowCountersSampleHeaderSize in *. lia.
Qed.

Lemma counter_samples_emits seq groups records order :
  Forall (fun rec => len (Body rec) <= body_max) records -> len records < 2 ^ 20 ->
  (forall s, s ∈ order -> default [] (groups !! s) = of_source s records /\ of_source s records <> []) ->
  forall pre rest n dr, 0 <= n -> n + len order < 2 ^ 32 ->
  let out := counters_bytes seq records order in
  len out <= len rest ->
  counter_samples (pre ++ rest) (len pre) seq n dr groups order = Ok (pre ++ out ++ drop (Z.to_nat (len out)) rest, len pre + len out, n + len order, dr).
Proof.
  intros Hf Hlen. induction order as [|s order IH]; intros Hg pre rest n dr Hn Hn2 out Hl.
  { cbn. rewrite !Z.add_0_r. done. }
  destruct (Hg s) as [Hgs Hne]; [left|]. rewrite len_cons in Hn2. pose proof (len_nonneg order). unfold out in *. clear out. unfold counters_bytes in *. cbn [map concat] in *.
  assert (Hfs : Forall (fun rec => len (Body rec) <= body_max) (of_source s records)).
  { apply List.Forall_forall. intros r Hr. apply filter_In in Hr as [Hr _]. by eapply List.Forall_forall in Hf. }
  pose proof (counters_sample_bound seq s _ Hne Hfs) as Hsz. assert (Hls : len (of_source s records) <= len records).
  { unfold of_source. clear. induction records as [|r l IH]; [done|]. cbn [List.filter]. destruct (_ =? _); rewrite !len_cons; lia. }
  pose proof (len_tagged sflowSampleTypeCounters (counters_body seq s (of_source s records))) as Ht. unfold sflowMaxCountersSampleSize in Hsz.
  fold (counters_bytes seq records order) in *.
  assert (Hl' : len (tagged sflowSampleTypeCounters (counters_body seq s (of_source s records))) + len (counters_bytes seq records order) <= len rest).
  { revert Hl. generalize (tagged sflowSampleTypeCounters (counters_body seq s (of_source s records))) (counters_bytes seq records order). intros a b. by rewrite len_app. }
  pose proof (len_nonneg (counters_bytes seq records order)).
  rewrite (counter_sample_step seq s _ order groups pre rest n dr Hgs Hne) by (lia || (eapply List.Forall_impl; [|exact Hfs]; cbn; unfold body_max, sflowMaxCountersSampleSize, sflowCountersSampleHeaderSize; lia)).
  rewrite IH by (lia || (intros; apply Hg; by right) || (rewrite len_drop; lia)). clear -Hsz H0. revert Hsz H0.
  generalize (tagged sflowSampleTypeCounters (counters_body seq s (of_source s records))) (counters_bytes seq records order). intros a b Ha Hb.
  rewrite !len_app, len_cons, <- !app_assoc, drop_drop, <- Z2Nat.inj_add, !Z.add_assoc by lia. done.
Qed.

Lemma counters_bytes_bound seq records order :
  NoDup order -> (forall s, s ∈ order -> of_source s records <> []) -> Forall (fun rec => len (Body rec) <= body_max) records ->
  0 <= len (counters_bytes seq records order) <= len records * sflowMaxCountersSampleSize /\ len order <= len records.
Proof.
  intros Hnd Hne Hf. pose proof (groups_total order Hnd records) as Ht.
  assert (Hb : 0 <= len (counters_bytes seq records order) <= fold_right (fun s n => len (of_source s records) + n) 0 order * sflowMaxCountersSampleSize /\
    len order <= fold_right (fun s n => len (of_source s records) + n) 0 order); [|unfold sflowMaxCountersSampleSize in *; lia].
  clear Ht Hnd. unfold counters_bytes. induction order as [|s order IH]; [done|]. cbn [map concat fold_right].
  assert (Hs : of_source s records <> []) by (apply Hne; left). specialize (IH ltac:(intros; apply Hne; by right)).
  assert (Hfs : Forall (fun rec => len (Body rec) <= body_max) (of_source s records)).
  { apply List.Forall_forall. intros r Hr. apply filter_In in Hr as [Hr _]. by eapply List.Forall_forall in Hf. }
  pose proof (counters_sample_bound seq s _ Hs Hfs) as Hc. assert (1 <= len (of_source s records)).
  { destruct (of_source s records); [done|]. rewrite len_cons. pose proof (len_nonneg l). lia. }
  revert IH Hc. generalize (tagged sflowSampleTypeCounters (counters_body seq s (of_source s records))).
  generalize (concat (map (fun s => tagged sflowSampleTypeCounters (counters_body seq s (of_source s records))) order)). intros b a IH Hc.
  rewrite len_app, len_cons. unfold sflowMaxCountersSampleSize in *. lia.
Qed.

Lemma read_counters_concat recs : Forall (fun rec => 0 <= Format rec < 2 ^ 32 /\ len (Body rec) < 2 ^ 32) recs ->
  read_counters (length recs) (concat (map counter_bytes recs)) = Some (map (fun rec => (Format rec, Body rec)) recs).
Proof.
  induction 1 as [|rec recs [Hfm Hb] _ IH]; [done|]. cbn [length read_counters map concat]. unfold counter_bytes at 1.
  rewrite <- app_assoc, read_tagged_app by done. cbn [mbind option_bind]. pose proof (pad4_bound (len (Body rec))).
  rewrite take_n_app by (unfold len at 1; rewrite repeat_length; lia). cbn [mbind option_bind]. by rewrite IH.
Qed.

(** What a collector should read of a source. *)
Definition source_seen (records : list CounterRecord) (s : Z) : sample_reading :=
  CounterReading s (map (fun rec => (Format rec, Body rec)) (of_source s records)).

Lemma read_samples_counters seq records order : 0 <= seq < 2 ^ 32 -> len records < 2 ^ 20 ->
  Forall (fun rec => 0 <= Format rec < 2 ^ 32 /\ len (Body rec) <= body_max) records -> Forall (fun s => 0 <= s < 2 ^ 32 /\ of_source s records <> []) order ->
  read_samples (length order) (counters_bytes seq records order) = Some (map (source_seen records) order).
Proof.
  intros Hseq Hlen Hf. unfold counters_bytes. induction 1 as [|s order [Hs Hne] _ IH]; [done|]. cbn [length read_samples map concat].
  assert (Hfs : Forall (fun rec => 0 <= Format rec < 2 ^ 32 /\ len (Body rec) <= body_max) (of_source s records)).
  { apply List.Forall_forall. intros r Hr. apply filter_In in Hr as [Hr _]. by eapply List.Forall_forall in Hf. }
  assert (Hls : len (of_source s records) <= len records).
  { unfold of_source. clear. induction records as [|r l IH]; [done|]. cbn [List.filter]. destruct (_ =? _); rewrite !len_cons; lia. }
  pose proof (counters_sample_bound seq s _ Hne ltac:(eapply List.Forall_impl; [|exact Hfs]; cbn; tauto)) as Hb. rewrite len_tagged in Hb.
  rewrite read_tagged_app by (done || (unfold sflowMaxCountersSampleSize in *; lia)). cbn [mbind option_bind].
  unfold read_sample, counters_body. change (sflowSampleTypeCounters =? 1) with false. change (sflowSampleTypeCounters =? 2) with true. cbn iota.
  pose proof (len_nonneg (of_source s records)). do 3 num32. rewrite len_def, Nat2Z.id, read_counters_concat.
  - cbn [mbind option_bind]. rewrite IH. done.
  - eapply List.Forall_impl; [|exact Hfs]. unfold body_max, sflowMaxCountersSampleSize, sflowCountersSampleHeaderSize. cbn. lia.
Qed.

(** The records a counter datagram is asked to carry. *)
Definition counter_ok (rec : CounterRecord) : Prop := 0 <= SourceID rec < 2 ^ 32 /\ 0 <= Format rec < 2 ^ 32 /\ len (Body rec) <= body_max.
Definition counter_datagram (agent sub seq up : Z) (records : list CounterRecord) : bytes :=
  sflow_header agent sub seq up (len (first_seen records)) ++ counters_bytes seq records (first_seen records).

Lemma first_seen_some records : records <> [] -> 1 <= len (first_seen records).
Proof.
  intros Hne. destruct records as [|r l] using rev_ind; [done|]. rewrite first_seen_snoc. case_bool_decide as Hin; [|rewrite len_app; pose proof (len_nonneg (first_seen l)); change (len [SourceID r]) with 1; lia].
  destruct (first_seen l); [by apply not_elem_of_nil in Hin|]. rewrite len_cons. pose proof (len_nonneg l0). lia.
Qed.

Lemma EncodeCounterDatagram_spec agent sub seq up records buf :
  records <> [] -> sflowDatagramHeaderSize + len records * sflowMaxCountersSampleSize <= len buf -> len records < 2 ^ 20 -> Forall counter_ok records ->
  let P := counter_datagram agent sub seq up records in
  EncodeCounterDatagram agent sub seq up records buf = Ok (P ++ drop (Z.to_nat (len P)) buf, Some (len P), 0) /\ 0 < len P <= len buf /\ len (first_seen records) <= len records.
Proof.
  intros Hne Hl Hlen Hf P. destruct (group_records_spec records) as (groups & Hgr & Hg).
  assert (Hfb : Forall (fun rec => len (Body rec) <= body_max) records) by (eapply List.Forall_impl; [|exact Hf]; unfold counter_ok; cbn; tauto).
  destruct (counters_bytes_bound seq records (first_seen records) (first_seen_NoDup records) (first_seen_source records) Hfb) as [Hcb Hord].
  assert (Hpos : 1 <= len records) by (destruct records; [done|]; rewrite len_cons; pose proof (len_nonneg records); lia).
  pose proof (first_seen_some records Hne) as Hfs. unfold sflowDatagramHeaderSize, sflowMaxCountersSampleSize in *.
  destruct (split_gap buf 28) as (g & rest & -> & Hg28); [lia|]. rewrite len_app in Hl.
  assert (HP : len P = 28 + len (counters_bytes seq records (first_seen records))) by (unfold P, counter_datagram; rewrite len_app; done).
  split; [|split; [rewrite len_app; lia|done]]. unfold EncodeCounterDatagram. destruct (len records =? 0) eqn:E0; [lia|]. unfold sflowDatagramHeaderSize, sflowMaxCountersSampleSize. rewrite len_app.
  destruct (_ <? 28 + 256) eqn:E1; [lia|]. rewrite Hgr. rewrite <- Hg28 at 1.
  rewrite (counter_samples_emits seq groups records) by (done || lia || (intros s Hin; split; [rewrite Hg, bool_decide_true by done; done|by apply first_seen_source])).
  cbn [res_bind]. rewrite Z.add_0_l. destruct (len (first_seen records) =? 0) eqn:E2; [lia|].
  rewrite header_emits by (rewrite len_app; unfold sflowDatagramHeaderSize; pose proof (len_nonneg (counters_bytes seq records (first_seen records) ++ drop (Z.to_nat (len (counters_bytes seq records (first_seen records)))) rest)); lia).
  cbn [res_bind]. change (drop 28) with (@drop Z (Z.to_nat 28)). rewrite HP. rewrite <- Hg28, drop_len_app, drop_len_app_more by lia. unfold P, counter_datagram. by rewrite <- app_assoc.
Qed.

(** An sFlow collector reads a counter datagram back: one sample for each source
    in the order they first appear, each with every record of that source in
    order.  Nothing is dropped when the batch is what the exporter sends, at most
    one record to every 256 octets, and no record is larger than that leaves. *)
Theorem sflow_counters_read agent sub seq up records buf :
  records <> [] -> sflowDatagramHeaderSize + len records * sflowMaxCountersSampleSize <= len buf -> len records < 2 ^ 20 -> Forall counter_ok records ->
  0 <= agent < 2 ^ 32 -> 0 <= sub < 2 ^ 32 -> 0 <= seq < 2 ^ 32 -> 0 <= up < 2 ^ 32 ->
  exists buf' n, EncodeCounterDatagram agent sub seq up records buf = Ok (buf', Some n, 0) /\ n <= len buf /\
    collectS (take (Z.to_nat n) buf') = Some {| d_agent := agent; d_sub := sub; d_seq := seq; d_uptime := up;
      d_samples := map (source_seen records) (first_seen records) |}.
Proof.
  intros Hne Hl Hlen Hf Ha Hb Hs Hu. destruct (EncodeCounterDatagram_spec agent sub seq up records buf Hne Hl Hlen Hf) as (He & HP & Hord).
  eexists _, _. split; [exact He|]. split; [lia|]. rewrite take_packet. unfold counter_datagram. apply collect_header; try done; [pose proof (len_nonneg (first_seen records)); lia|].
  rewrite len_def, Nat2Z.id. apply read_samples_counters; try done.
  - eapply List.Forall_impl; [|exact Hf]. unfold counter_ok. cbn. tauto.
  - apply List.Forall_forall. intros s Hin. apply list_elem_of_In, first_seen_source in Hin. split; [|done]. destruct (of_source s records) as [|r l] eqn:E; [done|].
    assert (Hr : In r (of_source s records)) by (rewrite E; by left). apply filter_In in Hr as [Hr Hrs]. zbool. subst s.
    eapply List.Forall_forall in Hf; [|exact Hr]. unfold counter_ok in Hf. tauto.
Qed.

(** ** Instances *)

Definition sflowBatch : list FlowRecord := sampleBatch ++ sampleBatch.

Definition sflowBuffer : bytes := repeat 0xAA 300.

Lemma sflow_collector_reads_witness :
  sflow_capacity (len sflowBuffer) = 2 /\
  exists buf' n, EncodeFlowDatagram 0x0A000001 0 7 5000 sflowBatch 640 sflowBuffer = Ok (buf', Some n) /\ n <= len sflowBuffer /\
    collectS (take (Z.to_nat n) buf') = Some {| d_agent := 0x0A000001; d_sub := 0; d_seq := 7; d_uptime := 5000;
      d_samples := flows_seen 0 640 (take (Z.to_nat (sflow_capacity (len sflowBuffer))) sflowBatch) |}.
Proof.
  split; [vm_compute; reflexivity|].
  assert (Hl : len sflowBuffer = 300) by (vm_compute; reflexivity).
  apply (sflow_collector_reads 0x0A000001 0 7 5000 sflowBatch 640 sflowBuffer); [discriminate| |apply Forall_app; split; apply sampleBatch_ok|lia..].
  rewrite Hl. unfold sflowDatagramHeaderSize, sflowMaxFlowSampleSize. lia.
Defined.
