(* ===== verification/FlowAvc.v ===== *)
(** * IPFIX with application visibility (ipfix_avc.go)

    Template 258: the fields of the plain template, an application identifier and
    two variable-length fields.  The encoder measures: it writes the leading
    records that fit and says how many it took.  Template 259 carries the table of
    applications a record's identifier refers to.  A write the encoder gave up on
    may leave octets behind the datagram, which the caller never reads. *)

From S2P Require Import Prelude GoStrings Ber FlowWire FlowTemplates FlowCollect.

Definition ciscoPEN : Z := 9.
Definition ipfixApplicationID : Z := 95.
Definition ipfixApplicationName : Z := 96.
Definition ipfixApplicationDescription : Z := 94.
Definition ciscoHTTPHost : Z := 12235.
Definition ciscoHTTPURIStatistics : Z := 9357.
Definition ipfixApplicationNameLen : Z := 24.
Definition ipfixApplicationDescriptionLen : Z := 55.
Definition ipfixAVCTemplateID : Z := 258.
Definition ipfixAppTableTemplateID : Z := 259.
Definition ipfixEnterpriseBit : Z := 0x8000.
Definition ipfixVarLen : Z := 0xFFFF.
Definition avcHostPrefix : bytes := [0x03; 0x00; 0x00; 0x50; 0x34; 0x02].

Definition ipfixVarLenSize (n : Z) : Z := if n <? 255 then 1 + n else 3 + n.

Definition putIPFIXVarLenParts (buf : bytes) (pos : Z) (prefix body : bytes) : res (bytes * Z * bool) :=
  let n := len prefix + len body in
  if (0xFFFF <? n) || (len buf <? pos + ipfixVarLenSize n) then Ok (buf, pos, false) else
  let! (buf, pos) := (if n <? 255 then write buf pos [Put [u8 n]] else write buf pos [Put [255]; Put (be16 (u16 n))]) in
  let! (buf, pos) := write buf pos [Copy prefix; Copy body] in
  Ok (buf, pos, true).
Definition putIPFIXVarLen (buf : bytes) (pos : Z) (v : bytes) : res (bytes * Z * bool) := putIPFIXVarLenParts buf pos v [].

Record avcApplication := { app_ID : Z; app_Name : bytes; app_Description : bytes; app_Proto : Z; app_DstPort : Z; app_Hosts : list bytes; app_URIs : list bytes }.
(** A catalog, [None] for a nil one; the indices are from one. *)
Definition avcCatalog := option (list avcApplication).
Definition App (c : avcCatalog) (idx : Z) : option avcApplication :=
  match c with
  | None => None
  | Some apps => if (idx =? 0) || (len apps <? idx) then None else apps !! Z.to_nat (idx - 1)
  end.
Definition catalog_Len (c : avcCatalog) : Z := match c with None => 0 | Some apps => len apps end.
Definition avcApplicationID (engine selector : Z) : Z := Z.lor (u32 (Z.shiftl engine 24)) (Z.land selector 0xFFFFFF).

Record ipfixFieldSpec := { spec_id : Z; spec_length : Z; spec_pen : Z }.
Definition ipfixAVCFields : list ipfixFieldSpec :=
  map (fun '(id, l) => {| spec_id := id; spec_length := l; spec_pen := 0 |}) ipfixFields ++
  [{| spec_id := ipfixApplicationID; spec_length := 4; spec_pen := 0 |};
   {| spec_id := ciscoHTTPHost; spec_length := ipfixVarLen; spec_pen := ciscoPEN |};
   {| spec_id := ciscoHTTPURIStatistics; spec_length := ipfixVarLen; spec_pen := ciscoPEN |}].
Definition buildIPFIXAVCTemplateSet : bytes :=
  let length := fold_left (fun l f => l + if negb (spec_pen f =? 0) then 8 else 4) ipfixAVCFields (4 + 4) in
  be16 ipfixSetIDTemplate ++ be16 (u16 length) ++ be16 ipfixAVCTemplateID ++ be16 (u16 (len ipfixAVCFields)) ++
  concat (map (fun f => be16 (if negb (spec_pen f =? 0) then Z.lor (spec_id f) ipfixEnterpriseBit else spec_id f) ++ be16 (spec_length f) ++
                        if negb (spec_pen f =? 0) then be32 (spec_pen f) else []) ipfixAVCFields).

(** The longest of the strings, with what is added to each. *)
Definition longest (extra : Z) (l : list bytes) (m : Z) : Z := fold_left (fun m s => if m <? len s + extra then len s + extra else m) l m.
Definition avcWorstCaseRecordSize (c : avcCatalog) : Z :=
  let apps := match c with None => [] | Some apps => apps end in
  let maxHost := fold_left (fun m a => longest 0 (app_Hosts a) m) apps 0 in
  let maxURI := fold_left (fun m a => longest 3 (app_URIs a) m) apps 0 in
  ipfixRecordSize + 4 + ipfixVarLenSize (len avcHostPrefix + maxHost) + ipfixVarLenSize maxURI.

Definition uriStatsValue (uri : bytes) (count : Z) : bytes :=
  let count := if 0xFFFF <? count then 0xFFFF else count in uri ++ [0; u8 (Z.shiftr count 8); u8 count].

(** The identifier, host and URI statistics of a record. *)
Definition avc_values (cat : avcCatalog) (r : FlowRecord) : Z * bytes * bytes :=
  match App cat (ref_App (AVC r)) with
  | None => (0, [], [])
  | Some app =>
      let h := ref_Host (AVC r) in let u := ref_URI (AVC r) in
      (app_ID app,
       if (0 <? h) && (h <=? len (app_Hosts app)) then default [] (app_Hosts app !! Z.to_nat (h - 1)) else [],
       if (0 <? u) && (u <=? len (app_URIs app)) then uriStatsValue (default [] (app_URIs app !! Z.to_nat (u - 1))) 1 else [])
  end.

Definition avc_encodeRecord (cat : avcCatalog) (buf : bytes) (pos : Z) (r : FlowRecord) (deviceStartMs : Z) : res (bytes * Z * bool) :=
  if len buf <? pos + ipfixRecordSize + 4 then Ok (buf, pos, false) else
  let start := pos in
  let! (buf, pos) := encodeIPFIXRecord deviceStartMs buf pos r in
  let '(appID, host, uriStats) := avc_values cat r in
  let! (buf, pos) := write buf pos [Put (be32 appID)] in
  let! (buf, pos, ok) := putIPFIXVarLenParts buf pos avcHostPrefix host in
  if negb ok then Ok (buf, start, false) else
  let! (buf, pos, ok) := putIPFIXVarLen buf pos uriStats in
  if negb ok then Ok (buf, start, false) else Ok (buf, pos, true).

(** The record loop; the encoder sees [buf[:len(buf)-3]]. *)
Fixpoint measured_loop (cat : avcCatalog) (deviceStartMs : Z) (buf : bytes) (pos consumed : Z) (rs : list FlowRecord) : res (bytes * Z * Z) :=
  match rs with
  | [] => Ok (buf, pos, consumed)
  | r :: rs' =>
      let limit := len buf - 3 in
      if limit <? pos then Ok (buf, pos, consumed) else
      let! sub := slice buf 0 limit in
      let! (sub, next, ok) := avc_encodeRecord cat sub pos r deviceStartMs in
      let buf := sub ++ drop (Z.to_nat limit) buf in
      if negb ok then Ok (buf, pos, consumed) else measured_loop cat deviceStartMs buf next (consumed + 1) rs'
  end.

(** The length, the records taken and the records dropped; [None] is an error. *)
Definition EncodeMeasured (cat : avcCatalog) (now domainID seqNo uptimeMs : Z) (records : list FlowRecord) (includeTemplate : bool) (buf : bytes)
    : res (bytes * option (Z * Z * Z)) :=
  if (len records =? 0) && negb includeTemplate then Ok (buf, Some (0, 0, 0)) else
  let nowMs := unixMilli now in
  let deviceStartMs := deviceStart nowMs uptimeMs in
  let overhead := ipfixHeaderSize + (if includeTemplate then len buildIPFIXAVCTemplateSet else 0) in
  if len buf <? overhead then Ok (buf, None) else
  let! (buf, pos) := write buf 0 [Put (be16 ipfixVersion)] in
  let lengthOffset := pos in
  let! (buf, pos) := write buf (pos + 2) [Put (be32 (u32 (Z.quot nowMs 1000))); Put (be32 seqNo); Put (be32 domainID)] in
  let! (buf, pos) := if includeTemplate then write buf pos [Copy buildIPFIXAVCTemplateSet] else Ok (buf, pos) in
  if len records =? 0 then let! buf := put buf lengthOffset (be16 (u16 pos)) in Ok (buf, Some (pos, 0, 0)) else
  if len buf <? overhead + ipfixDataSetHdrSize then Ok (buf, None) else
  let setStart := pos in
  let! (buf, pos) := write buf pos [Put (be16 ipfixAVCTemplateID); Put (be16 0)] in
  let! (buf, pos, consumed) := measured_loop cat deviceStartMs buf pos 0 records in
  if consumed =? 0 then
    if negb includeTemplate then Ok (buf, Some (0, 1, 1))
    else let! buf := put buf lengthOffset (be16 (u16 setStart)) in Ok (buf, Some (setStart, 0, 0))
  else
    let! (buf, pos) := write buf pos (zeros (pad4 (pos - setStart))) in
    let! buf := put buf (setStart + 2) (be16 (u16 (pos - setStart))) in
    let! buf := put buf lengthOffset (be16 (u16 pos)) in
    Ok (buf, Some (pos, consumed, 0)).

(** ** The table of applications *)

Definition ipfixAppTableRecSize : Z := 4 + ipfixApplicationNameLen + ipfixApplicationDescriptionLen.
Definition app_table_fields : list (Z * Z) :=
  [(ipfixApplicationID, 4); (ipfixApplicationName, ipfixApplicationNameLen); (ipfixApplicationDescription, ipfixApplicationDescriptionLen)].
Definition buildIPFIXAppTableTemplateSet : bytes :=
  let length := 4 + 6 + 3 * 4 in
  let length := if negb (length mod 4 =? 0) then length + (4 - length mod 4) else length in
  let b := be16 ipfixSetIDOptionsTemplate ++ be16 (u16 length) ++ be16 ipfixAppTableTemplateID ++ be16 3 ++ be16 1 ++
           concat (map (fun '(id, l) => be16 id ++ be16 l) app_table_fields) in
  b ++ repeat 0 (Z.to_nat (length - len b)).

Definition app_writes (app : avcApplication) : list wr :=
  [Put (be32 (app_ID app)); putFixedString (app_Name app) ipfixApplicationNameLen; putFixedString (app_Description app) ipfixApplicationDescriptionLen].
Definition encode_app (buf : bytes) (pos : Z) (app : avcApplication) : res (bytes * Z) := write buf pos (app_writes app).

Definition EncodeAppTableDatagram (now domainID seqNo : Z) (apps : list avcApplication) (buf : bytes) : res (bytes * option (Z * Z)) :=
  if len apps =? 0 then Ok (buf, Some (0, 0)) else
  let overhead := ipfixHeaderSize + len buildIPFIXAppTableTemplateSet + ipfixDataSetHdrSize in
  if len buf <? overhead + ipfixAppTableRecSize + 3 then Ok (buf, None) else
  let! (buf, pos) := write buf 0 [Put (be16 ipfixVersion)] in
  let lengthOffset := pos in
  let! (buf, pos) := write buf (pos + 2) [Put (be32 (u32 (unix now))); Put (be32 seqNo); Put (be32 domainID); Copy buildIPFIXAppTableTemplateSet] in
  let maxFit := Z.quot (len buf - (pos + 4) - 3) ipfixAppTableRecSize in
  let consumed := if maxFit <? len apps then maxFit else len apps in
  let! batch := slice apps 0 consumed in
  let! (buf, pos) := padded_set ipfixAppTableTemplateID encode_app buf pos batch in
  let! buf := put buf lengthOffset (be16 (u16 pos)) in
  Ok (buf, Some (pos, consumed)).

Definition avc_EncodeOptionsDatagram (now domainID seqNo : Z) (shape : bytes) (ifaces : list flowOptionIface) (buf : bytes) : res (bytes * option (Z * Z)) :=
  ipfix_EncodeOptionsDatagram now domainID seqNo shape ifaces buf.

(** ** The octets of a record *)

Definition varlen (v : bytes) : bytes := (if len v <? 255 then [len v] else 255 :: be16 (len v)) ++ v.
Definition avc_record (cat : avcCatalog) (start : Z) (r : FlowRecord) : bytes :=
  let '(appID, host, uri) := avc_values cat r in ipfix_record start r ++ be32 appID ++ varlen (avcHostPrefix ++ host) ++ varlen uri.
(** No string is longer than a variable-length field can be. *)
Definition strings_fit (cat : avcCatalog) (r : FlowRecord) : Prop :=
  let '(_, host, uri) := avc_values cat r in len (avcHostPrefix ++ host) <= 0xFFFF /\ len uri <= 0xFFFF.
Definition strings_ok (cat : avcCatalog) : Prop := forall r, strings_fit cat r.

Lemma len_varlen v : len (varlen v) = ipfixVarLenSize (len v).
Proof. unfold varlen, ipfixVarLenSize. rewrite len_app. destruct (len v <? 255); [done|]. rewrite len_cons, len_be16. lia. Qed.

Lemma putIPFIXVarLenParts_fits pre rest prefix body : len (prefix ++ body) <= 0xFFFF -> len (varlen (prefix ++ body)) <= len rest ->
  putIPFIXVarLenParts (pre ++ rest) (len pre) prefix body =
    Ok (pre ++ varlen (prefix ++ body) ++ drop (Z.to_nat (len (varlen (prefix ++ body)))) rest, len pre + len (varlen (prefix ++ body)), true).
Proof.
  intros Hn Hl. pose proof (len_varlen (prefix ++ body)) as Hv. unfold putIPFIXVarLenParts. rewrite <- (len_app prefix body) in *. pose proof (len_nonneg (prefix ++ body)) as H0.
  rewrite (len_app pre rest). destruct ((0xFFFF <? len (prefix ++ body)) || _) eqn:E; [lia|]. clear E.
  assert (Hw : written [Copy prefix; Copy body] = prefix ++ body) by (unfold written; cbn; by rewrite app_nil_r).
  assert (Hfix : (if len (prefix ++ body) <? 255 then write (pre ++ rest) (len pre) [Put [u8 (len (prefix ++ body))]]
      else write (pre ++ rest) (len pre) [Put [255]; Put (be16 (u16 (len (prefix ++ body))))]) =
    write (pre ++ rest) (len pre) (if len (prefix ++ body) <? 255 then [Put [len (prefix ++ body)]] else [Put [255]; Put (be16 (len (prefix ++ body)))])).
  { destruct (len (prefix ++ body) <? 255) eqn:E; zbool; [unfold u8|unfold u16]; rewrite Z.mod_small by lia; done. }
  rewrite Hfix. clear Hfix. set (ws := if len (prefix ++ body) <? 255 then [Put [len (prefix ++ body)]] else [Put [255]; Put (be16 (len (prefix ++ body)))]).
  assert (Hws : varlen (prefix ++ body) = written ws ++ (prefix ++ body)) by (unfold varlen, ws; by destruct (len (prefix ++ body) <? 255)).
  clearbody ws. rewrite Hws in *. clear Hws Hv. revert Hl Hw H0. generalize (prefix ++ body). intros v Hl Hw H0. rewrite len_app in Hl. pose proof (len_nonneg (written ws)).
  rewrite write_fits by lia. cbn [res_bind]. rewrite app_assoc, <- len_app, write_fits by (rewrite Hw, len_drop; lia). cbn [res_bind]. rewrite Hw.
  rewrite !len_app, <- !app_assoc, drop_drop, <- Z2Nat.inj_add, !Z.add_assoc by lia. done.
Qed.

Lemma putIPFIXVarLenParts_full pre rest prefix body : len rest < len (varlen (prefix ++ body)) ->
  putIPFIXVarLenParts (pre ++ rest) (len pre) prefix body = Ok (pre ++ rest, len pre, false).
Proof.
  rewrite len_varlen. intros Hl. unfold putIPFIXVarLenParts. rewrite <- (len_app prefix body) in *. rewrite (len_app pre rest).
  destruct ((0xFFFF <? _) || _) eqn:E; [done|]. lia.
Qed.

Lemma avc_record_split cat start r : let '(appID, host, uri) := avc_values cat r in
  avc_record cat start r = (ipfix_record start r ++ be32 appID) ++ varlen (avcHostPrefix ++ host) ++ varlen uri.
Proof. unfold avc_record. destruct (avc_values cat r) as [[appID host] uri]. by rewrite <- app_assoc. Qed.

Lemma len_avc_prefix start r appID : len (ipfix_record start r ++ be32 appID) = ipfixRecordSize + 4.
Proof. pose proof (len_ipfix_record start r) as Hr. revert Hr. generalize (ipfix_record start r). intros l Hl. rewrite len_app, len_be32. lia. Qed.

(** The fixed part of a record, when there is room for it. *)
Lemma avc_prefix_fits cat start r pre rest : ipfixRecordSize + 4 <= len rest ->
  avc_encodeRecord cat (pre ++ rest) (len pre) r start =
    let '(appID, host, uriStats) := avc_values cat r in
    let A := ipfix_record start r ++ be32 appID in
    let! (buf, pos, ok) := putIPFIXVarLenParts ((pre ++ A) ++ drop (Z.to_nat (ipfixRecordSize + 4)) rest) (len (pre ++ A)) avcHostPrefix host in
    if negb ok then Ok (buf, len pre, false) else
    let! (buf, pos, ok) := putIPFIXVarLen buf pos uriStats in
    if negb ok then Ok (buf, len pre, false) else Ok (buf, pos, true).
Proof.
  intros Hl. assert (H54 : ipfixRecordSize = 54) by done. unfold avc_encodeRecord. rewrite len_app. destruct (_ <? _) eqn:E; [lia|]. clear E. unfold encodeIPFIXRecord.
  pose proof (len_ipfix_record start r) as Hr. unfold ipfix_record in *. revert Hr. generalize (ipfix_record_writes start r). intros ws Hr.
  rewrite write_fits by lia. cbn [res_bind]. destruct (avc_values cat r) as [[appID host] uri]. cbv zeta. rewrite app_assoc, <- len_app.
  assert (H1 : written [Put (be32 appID)] = be32 appID) by done.
  rewrite write_fits by (rewrite H1, len_be32, len_drop; lia). cbn [res_bind]. rewrite H1, Hr. rewrite <- !app_assoc, drop_drop.
  replace (len (pre ++ written ws) + len (be32 appID)) with (len (pre ++ written ws ++ be32 appID)) by (rewrite !len_app; lia).
  replace (Z.to_nat ipfixRecordSize + Z.to_nat (len (be32 appID)))%nat with (Z.to_nat (ipfixRecordSize + 4)) by (rewrite len_be32; unfold ipfixRecordSize; lia). done.
Qed.

Lemma avc_encodeRecord_fits cat start r pre rest : strings_fit cat r -> len (avc_record cat start r) <= len rest ->
  avc_encodeRecord cat (pre ++ rest) (len pre) r start =
    Ok (pre ++ avc_record cat start r ++ drop (Z.to_nat (len (avc_record cat start r))) rest, len pre + len (avc_record cat start r), true).
Proof.
  intros Hs Hl. unfold strings_fit in Hs. pose proof (avc_record_split cat start r) as Hr. revert Hs Hr Hl.
  pose proof (avc_prefix_fits cat start r pre rest) as Hp. revert Hp. destruct (avc_values cat r) as [[appID host] uri]. intros Hp [Hh Hu] Hr Hl. cbv zeta in Hp.
  rewrite Hr in *. clear Hr. pose proof (len_avc_prefix start r appID) as HA. revert HA Hp Hl. generalize (ipfix_record start r ++ be32 appID). intros A HA Hp Hl.
  unfold ipfixRecordSize in *. rewrite (len_app A), (len_app (varlen (avcHostPrefix ++ host))) in Hl. pose proof (len_nonneg (varlen (avcHostPrefix ++ host))). pose proof (len_nonneg (varlen uri)).
  rewrite Hp by lia. rewrite putIPFIXVarLenParts_fits by (done || rewrite len_drop; lia). cbn [res_bind negb]. unfold putIPFIXVarLen.
  rewrite <- (app_nil_r uri) in Hu. rewrite app_assoc, <- len_app.
  rewrite putIPFIXVarLenParts_fits by (done || (rewrite app_nil_r, !len_drop; lia)). cbn [res_bind negb]. rewrite app_nil_r. clear Hh Hu Hp.
  revert H H0 Hl. generalize (varlen (avcHostPrefix ++ host)) (varlen uri). intros v w Hv Hw Hl.
  rewrite !len_app, <- !app_assoc, !drop_drop, <- !Z2Nat.inj_add, HA, !Z.add_assoc by lia. done.
Qed.

Lemma avc_encodeRecord_full cat start r pre rest : strings_fit cat r -> len rest < len (avc_record cat start r) ->
  exists rest', avc_encodeRecord cat (pre ++ rest) (len pre) r start = Ok (pre ++ rest', len pre, false) /\ len rest' = len rest.
Proof.
  intros Hs Hl. unfold strings_fit in Hs. pose proof (avc_record_split cat start r) as Hr.
  destruct (Z.lt_ge_cases (len rest) (ipfixRecordSize + 4)) as [Hsm|Hbig].
  { exists rest. split; [|done]. unfold avc_encodeRecord. rewrite len_app. destruct (_ <? _) eqn:E; [done|lia]. }
  rewrite avc_prefix_fits by lia. destruct (avc_values cat r) as [[appID host] uri]. destruct Hs as [Hh Hu]. cbv zeta. rewrite Hr in Hl. clear Hr.
  pose proof (len_avc_prefix start r appID) as HA. revert HA Hl. generalize (ipfix_record start r ++ be32 appID). intros A HA Hl. unfold ipfixRecordSize in *.
  rewrite (len_app A), (len_app (varlen (avcHostPrefix ++ host))) in Hl. assert (Hd : len (drop (Z.to_nat (54 + 4)) rest) = len rest - 58) by (rewrite len_drop; lia).
  destruct (Z.lt_ge_cases (len rest - 58) (len (varlen (avcHostPrefix ++ host)))) as [H1|H1].
  { rewrite putIPFIXVarLenParts_full by lia. cbn [res_bind negb]. exists (A ++ drop (Z.to_nat (54 + 4)) rest). rewrite <- app_assoc, len_app. split; [done|lia]. }
  rewrite putIPFIXVarLenParts_fits by (done || lia). cbn [res_bind negb]. unfold putIPFIXVarLen. rewrite app_assoc, <- len_app.
  pose proof (len_nonneg (varlen (avcHostPrefix ++ host))). set (D := drop (Z.to_nat (len (varlen _))) _).
  assert (HD : len D = len rest - 58 - len (varlen (avcHostPrefix ++ host))) by (unfold D; rewrite len_drop, Hd; lia). clearbody D.
  rewrite putIPFIXVarLenParts_full by (rewrite app_nil_r; lia). cbn [res_bind negb]. exists (A ++ varlen (avcHostPrefix ++ host) ++ D).
  revert HD. generalize (varlen (avcHostPrefix ++ host)). intros v HD. rewrite <- !app_assoc. split; [done|]. rewrite !len_app. lia.
Qed.

(** A record that fits no datagram of [size] octets: headers and the reserve for
    the padding take 23. *)
Definition avc_unfit (cat : avcCatalog) (size : Z) (r : FlowRecord) : Prop := size < 23 + len (avc_record cat 0 r).
Lemma avc_record_len cat start start' r : len (avc_record cat start r) = len (avc_record cat start' r).
Proof.
  pose proof (avc_record_split cat start r) as H1. pose proof (avc_record_split cat start' r) as H2. destruct (avc_values cat r) as [[appID host] uri]. rewrite H1, H2. clear H1 H2.
  pose proof (len_avc_prefix start r appID) as H1. pose proof (len_avc_prefix start' r appID) as H2. revert H1 H2. generalize (ipfix_record start r ++ be32 appID) (ipfix_record start' r ++ be32 appID).
  intros A B H1 H2. rewrite (len_app A), (len_app B). lia.
Qed.

(** How many leading records fit in [room] octets. *)
Fixpoint avc_fit (cat : avcCatalog) (start room : Z) (rs : list FlowRecord) : nat :=
  match rs with
  | [] => O
  | r :: rs' => if len (avc_record cat start r) <=? room then S (avc_fit cat start (room - len (avc_record cat start r)) rs') else O
  end.

Lemma measured_loop_spec cat start rs : Forall (strings_fit cat) rs -> forall pre rest c,
  let k := avc_fit cat start (len rest - 3) rs in
  let out := concat (map (avc_record cat start) (take k rs)) in
  exists tail, measured_loop cat start (pre ++ rest) (len pre) c rs = Ok (pre ++ out ++ tail, len pre + len out, c + Z.of_nat k) /\
    len tail = len rest - len out /\ (k <> O -> 3 <= len tail).
Proof.
  induction 1 as [|r rs Hs _ IH]; intros pre rest c k out.
  { exists rest. unfold out, k. cbn [measured_loop avc_fit take map concat Z.of_nat app]. rewrite len_nil, !Z.add_0_r. split; [done|]. split; [lia|done]. }
  cbn [measured_loop]. rewrite len_app. unfold out, k. clear out k. cbn [avc_fit]. pose proof (len_nonneg pre). pose proof (len_nonneg (avc_record cat start r)) as Hr0.
  destruct (len pre + len rest - 3 <? len pre) eqn:E; zbool.
  { destruct (_ <=? _) eqn:E'; zbool; [lia|]. exists rest. cbn [take map concat Z.of_nat app]. rewrite len_nil, !Z.add_0_r. split; [done|]. split; [lia|done]. }
  unfold slice. rewrite len_app. destruct ((0 <? 0) || _ || _) eqn:Es; [lia|]. clear Es. cbn [res_bind]. rewrite Z.sub_0_r, drop_0.
  set (R := take (Z.to_nat (len rest - 3)) rest). set (T := drop (Z.to_nat (len rest - 3)) rest).
  assert (HR : len R = len rest - 3) by (unfold R; rewrite len_take; lia). assert (HT : len T = 3) by (unfold T; rewrite len_drop; lia).
  assert (HRT : rest = R ++ T) by (unfold R, T; by rewrite take_drop).
  replace (take (Z.to_nat (len pre + len rest - 3)) (pre ++ rest)) with (pre ++ R).
  2:{ rewrite HRT, app_assoc. replace (len pre + len (R ++ T) - 3) with (len (pre ++ R)) by (rewrite !len_app; lia). by rewrite take_len_app. }
  replace (drop (Z.to_nat (len pre + len rest - 3)) (pre ++ rest)) with T.
  2:{ rewrite HRT, app_assoc. replace (len pre + len (R ++ T) - 3) with (len (pre ++ R)) by (rewrite !len_app; lia). by rewrite drop_len_app. }
  clearbody R T. destruct (len (avc_record cat start r) <=? len rest - 3) eqn:Ef; zbool.
  - rewrite avc_encodeRecord_fits by (exact Hs || lia). cbn [res_bind negb]. cbn [take map concat].
    set (rec := avc_record cat start r) in *. set (D := drop (Z.to_nat (len rec)) R).
    assert (HD : len D = len R - len rec) by (unfold D; rewrite len_drop; lia). clearbody D.
    specialize (IH (pre ++ rec) (D ++ T) (c + 1)). cbv zeta in IH. replace (len (D ++ T) - 3) with (len rest - 3 - len rec) in IH by (rewrite len_app; lia).
    destruct IH as (tail & Htail & Hlt & H3). exists tail. rewrite <- !app_assoc, <- len_app. rewrite <- !app_assoc in Htail. rewrite Htail.
    set (out := concat _) in *. rewrite len_app in Hlt. rewrite !len_app. split; [|split; [lia|]].
    + do 2 f_equal; [f_equal; lia|lia].
    + intros _. destruct (avc_fit cat start (len rest - 3 - len rec) rs) eqn:Ek; [|by apply H3]. unfold out in Hlt. cbn [take map concat] in Hlt. rewrite len_nil in Hlt. lia.
  - destruct (avc_encodeRecord_full cat start r pre R Hs) as (R' & -> & HR'); [lia|]. cbn [res_bind negb take map concat].
    exists (R' ++ T). cbn [Z.of_nat app]. rewrite len_nil, !Z.add_0_r, <- app_assoc. split; [done|]. rewrite !len_app. split; [lia|done].
Qed.

(** ** A measured datagram *)

Definition avc_overhead (tmpl : bool) : Z := ipfixHeaderSize + (if tmpl then len buildIPFIXAVCTemplateSet else 0).
Definition avc_packet (cat : avcCatalog) (secs seq dom start : Z) (tmpl : bool) (rs : list FlowRecord) : bytes :=
  let body := be32 secs ++ be32 seq ++ be32 dom ++ (if tmpl then buildIPFIXAVCTemplateSet else []) ++ data_set ipfixAVCTemplateID (map (avc_record cat start) rs) in
  be16 ipfixVersion ++ be16 (4 + len body) ++ body.
(** The records a datagram of [size] octets takes. *)
Definition avc_taken (cat : avcCatalog) (start size : Z) (tmpl : bool) (rs : list FlowRecord) : nat := avc_fit cat start (size - (avc_overhead tmpl + 4) - 3) rs.

Lemma len_avc_template : len buildIPFIXAVCTemplateSet = 104.
Proof. done. Qed.

(** A message whose total length is filled in last. *)
Lemma message_length V g H B tail : len V = 2 -> len g = 2 -> 4 + len H + len B < 2 ^ 16 ->
  put ((V ++ g ++ H ++ B) ++ tail) 2 (be16 (u16 (4 + len H + len B))) = Ok ((V ++ be16 (4 + len (H ++ B)) ++ H ++ B) ++ tail).
Proof.
  intros HV Hg Hl. pose proof (len_nonneg H). pose proof (len_nonneg B). rewrite <- !app_assoc. change 2 with (2 + 0). rewrite <- HV, Z.add_0_r. rewrite put_over by (by rewrite len_be16).
  unfold u16. rewrite Z.mod_small, len_app by lia. by rewrite !Z.add_assoc.
Qed.

Lemma measured_set cat start rs A rest : Forall (strings_fit cat) rs -> len A + len rest < 2 ^ 16 -> 4 <= len rest ->
  let k := avc_fit cat start (len rest - 4 - 3) rs in
  let d := data_set ipfixAVCTemplateID (map (avc_record cat start) (take k rs)) in
  exists tail,
  (let! (buf, pos) := write (A ++ rest) (len A) [Put (be16 ipfixAVCTemplateID); Put (be16 0)] in
   let! (buf, pos, consumed) := measured_loop cat start buf pos 0 rs in
   if consumed =? 0 then Ok (buf, pos, consumed)
   else
     let! (buf, pos) := write buf pos (zeros (pad4 (pos - len A))) in
     let! buf := put buf (len A + 2) (be16 (u16 (pos - len A))) in
     Ok (buf, pos, consumed)) = Ok (A ++ d ++ tail, if (k =? 0)%nat then len A + 4 else len A + len d, Z.of_nat k) /\ len d + len tail = len rest.
Proof.
  intros Hs Hw Hl k d. set (I := be16 ipfixAVCTemplateID). assert (HW : written [Put I; Put (be16 0)] = I ++ be16 0) by done.
  rewrite write_fits by (rewrite HW; change (len (I ++ be16 0)) with 4; lia). rewrite HW. change (len (I ++ be16 0)) with 4. cbn [res_bind].
  rewrite app_assoc. replace (len A + 4) with (len (A ++ I ++ be16 0)) by (rewrite (len_app A); reflexivity).
  destruct (measured_loop_spec cat start rs Hs (A ++ I ++ be16 0) (drop (Z.to_nat 4) rest) 0) as (tail & Hm & Ht & H3).
  rewrite len_drop in Hm, Ht, H3. replace (Z.max 0 (len rest - Z.of_nat (Z.to_nat 4)) - 3) with (len rest - 4 - 3) in Hm, Ht, H3 by lia. fold k in Hm, Ht, H3.
  rewrite Hm. cbn [res_bind]. rewrite Z.add_0_l. destruct (Nat.eq_dec k O) as [Ek|Ek].
  { unfold d. clear H3. rewrite Ek in *. cbn [Z.of_nat Z.eqb Nat.eqb take map concat] in *. rewrite len_nil, Z.add_0_r, app_nil_l, <- !app_assoc in *. cbn [data_set len length Z.of_nat Z.eqb].
    exists (I ++ be16 0 ++ tail). split; [done|]. rewrite len_nil. change (I ++ be16 0 ++ tail) with ((I ++ be16 0) ++ tail). rewrite (len_app (I ++ be16 0)).
    change (len (I ++ be16 0)) with 4. lia. }
  destruct (Z.of_nat k =? 0) eqn:E0; [lia|]. destruct (k =? 0)%nat eqn:E1; [apply Nat.eqb_eq in E1; lia|].
  assert (Hk : take k rs <> []). { intros Hz. unfold k in Hz. destruct rs as [|r rs']; [done|]. fold k in Hz. by destruct k. }
  set (out := concat (map (avc_record cat start) (take k rs))) in *. pose proof (len_nonneg out) as Ho. specialize (H3 ltac:(lia)).
  assert (Hd : d = I ++ be16 (4 + len out + pad4 (4 + len out)) ++ out ++ repeat 0 (Z.to_nat (pad4 (4 + len out)))).
  { unfold d, data_set. fold out. destruct (len (map _ _) =? 0) eqn:E; [|reflexivity]. zbool. apply len_0_nil, map_eq_nil in E. done. }
  pose proof (pad4_bound (4 + len out)) as Hp.
  replace (len (A ++ I ++ be16 0) + len out - len A) with (4 + len out) by (rewrite (len_app A); change (len (I ++ be16 0)) with 4; lia).
  rewrite app_assoc, <- (len_app (A ++ I ++ be16 0) out). assert (Hz : len (written (zeros (pad4 (4 + len out)))) = pad4 (4 + len out)).
  { rewrite written_zeros. unfold len at 1. rewrite repeat_length. lia. }
  rewrite write_fits by (rewrite Hz; lia). cbn [res_bind]. rewrite Hz, written_zeros. clear Hm. clearbody d. clearbody out.
  replace (len ((A ++ I ++ be16 0) ++ out) + pad4 (4 + len out) - len A) with (4 + len out + pad4 (4 + len out)) by (rewrite (len_app (A ++ I ++ be16 0)), (len_app A); change (len (I ++ be16 0)) with 4; lia).
  pose proof (len_nonneg A). unfold u16. rewrite Z.mod_small by lia. replace (len A + 2) with (len (A ++ I)) by (rewrite len_app; reflexivity).
  set (Z0 := repeat 0 _) in *. set (tl := drop _ tail). assert (HZ0 : len Z0 = pad4 (4 + len out)) by (unfold Z0, len at 1; rewrite repeat_length; lia).
  assert (Htl : len tl = len tail - pad4 (4 + len out)) by (unfold tl; rewrite len_drop; lia).
  replace (((A ++ I ++ be16 0) ++ out) ++ Z0 ++ tl) with ((A ++ I) ++ be16 0 ++ out ++ Z0 ++ tl) by (by rewrite <- !app_assoc).
  rewrite put_over by done. cbn [res_bind]. exists tl. rewrite Hd. split.
  - rewrite <- !app_assoc. do 3 f_equal. rewrite !len_app, HZ0. change (len (be16 0)) with 2. change (len (be16 (4 + len out + pad4 (4 + len out)))) with 2. lia.
  - rewrite !len_app, HZ0, Htl. change (len I) with 2. change (len (be16 (4 + len out + pad4 (4 + len out)))) with 2. lia.
Qed.

Lemma EncodeMeasured_spec cat now dom seq up rs (tmpl : bool) buf :
  rs <> [] \/ tmpl = true -> Forall (strings_fit cat) rs -> avc_overhead tmpl + 4 <= len buf < 2 ^ 16 ->
  let start := deviceStart (unixMilli now) up in
  let k := avc_taken cat start (len buf) tmpl rs in
  let P := avc_packet cat (u32 (Z.quot (unixMilli now) 1000)) seq dom start tmpl (take k rs) in
  exists tail,
  EncodeMeasured cat now dom seq up rs tmpl buf =
    Ok (if (k =? 0)%nat && negb tmpl then (tail, Some (0, 1, 1)) else (P ++ tail, Some (len P, Z.of_nat k, 0))) /\
  (if (k =? 0)%nat && negb tmpl then len tail = len buf else len P + len tail = len buf).
Proof.
  intros Hne Hs Hl start k P. unfold EncodeMeasured. destruct ((len rs =? 0) && negb tmpl) eqn:E0.
  { zbool. destruct Hne as [Hne|Hne]; [by apply len_0_nil in H|by rewrite Hne in *]. }
  cbv zeta. fold start. fold (avc_overhead tmpl). pose proof (len_avc_template) as HTl. unfold avc_overhead, ipfixHeaderSize in Hl.
  destruct (len buf <? avc_overhead tmpl) eqn:E1; [unfold avc_overhead, ipfixHeaderSize in E1; lia|].
  set (V := be16 ipfixVersion). set (HW := [Put (be32 _); Put _; Put _]). assert (HH : len (written HW) = 12) by done.
  destruct (write_header_gap V HW buf) as (b & g & -> & Hg & Hh); [done|rewrite HH; destruct tmpl; lia|]. cbn [res_bind]. change (2 + 2) with 4. rewrite Hh. cbn [res_bind]. clear Hh b.
  assert (HT : len (if tmpl then buildIPFIXAVCTemplateSet else []) = if tmpl then 104 else 0) by (by destruct tmpl).
  remember (written HW) as H eqn:HHd. rewrite HH. change (4 + 12) with 16. rewrite write_template by (rewrite len_drop, HT; destruct tmpl; lia). cbn [res_bind].
  set (T := if tmpl then buildIPFIXAVCTemplateSet else []) in *. set (A := (V ++ g ++ H) ++ T).
  assert (HA : len A = 16 + len T) by (unfold A; rewrite !len_app, HH; change (len V) with 2; lia).
  assert (Hov : avc_overhead tmpl = len A) by (rewrite HA, HT; unfold avc_overhead, ipfixHeaderSize; destruct tmpl; lia).
  rewrite drop_drop. replace (Z.to_nat 16 + Z.to_nat (len T))%nat with (Z.to_nat (len A)) by (rewrite HA, HT; destruct tmpl; lia).
  set (rest := drop (Z.to_nat (len A)) buf). assert (Hr : len rest = len buf - len A) by (unfold rest; rewrite len_drop, HA, HT; destruct tmpl; lia).
  assert (HP : forall d, data_set ipfixAVCTemplateID (map (avc_record cat start) (take k rs)) = d -> P = V ++ be16 (4 + len (H ++ T ++ d)) ++ H ++ T ++ d).
  { intros d Hd. unfold P, avc_packet. rewrite Hd. fold T. rewrite HHd. by rewrite <- !app_assoc. }
  assert (HAe : forall d t, A ++ d ++ t = (V ++ g ++ H ++ (T ++ d)) ++ t) by (intros d t; unfold A; by rewrite <- !app_assoc).
  assert (HP2 : forall d, len (V ++ be16 (4 + len (H ++ T ++ d)) ++ H ++ T ++ d) = len A + len d).
  { intros d. rewrite (len_app V), (len_app (be16 _)), (len_app H), (len_app T), HA, HH, len_be16. change (len V) with 2. lia. }
  assert (Hput : forall d t, len A + len d < 2 ^ 16 ->
    put (A ++ d ++ t) 2 (be16 (u16 (len A + len d))) = Ok ((V ++ be16 (4 + len (H ++ T ++ d)) ++ H ++ T ++ d) ++ t)).
  { intros d t Hdt. rewrite HAe. replace (len A + len d) with (4 + len H + len (T ++ d)) by (rewrite len_app, HA, HH; lia).
    apply message_length; [done|done|]. rewrite len_app. lia. }
  destruct (len rs =? 0) eqn:Ers; zbool.
  { apply len_0_nil in Ers. subst rs. cbn [negb] in E0. assert (tmpl = true) as Et by (destruct Hne; done).
    specialize (Hput [] rest ltac:(rewrite len_nil; lia)). rewrite app_nil_l, len_nil, Z.add_0_r in Hput. rewrite Hput. cbn [res_bind].
    exists rest. rewrite Et. cbn [negb]. rewrite andb_false_r. assert (Hk0 : k = O) by done. specialize (HP [] ltac:(by rewrite Hk0)).
    rewrite <- HP. assert (HPl : len P = len A) by (rewrite HP, HP2, len_nil; lia). rewrite HPl, Hk0. split; [done|]. lia. }
  assert (HlA : len (A ++ rest) = len buf) by (rewrite len_app; lia). rewrite HlA. unfold ipfixDataSetHdrSize. rewrite Hov.
  destruct (len buf <? len A + 4) eqn:E2; [rewrite HA, HT in E2; destruct tmpl; lia|].
  destruct (measured_set cat start rs A rest Hs ltac:(lia) ltac:(rewrite Hr, HA, HT; destruct tmpl; lia)) as (tail & Hset & Hlen).
  replace (avc_fit cat start (len rest - 4 - 3) rs) with k in * by (unfold k, avc_taken; rewrite Hov; f_equal; lia). set (d := data_set _ _) in *.
  specialize (HP d eq_refl). pose proof (HP2 d) as HPl. rewrite <- HP in HPl.
  destruct (write (A ++ rest) (len A) _) as [[b1 p1]| |]; cbn [res_bind] in Hset |- *; [|done|done].
  destruct (measured_loop cat start b1 p1 0 rs) as [[[b2 p2] c]| |]; cbn [res_bind] in Hset |- *; [|done|done].
  destruct (c =? 0) eqn:Ec; zbool.
  - injection Hset as -> _ ->. assert (Hk0 : k = O) by lia. rewrite Hk0. cbn [Nat.eqb andb]. destruct tmpl; cbn [negb].
    + assert (Hd0 : d = []) by (unfold d; by rewrite Hk0). specialize (Hput [] tail ltac:(rewrite len_nil; lia)). rewrite Hd0 in *. rewrite app_nil_l, len_nil, Z.add_0_r in *.
      rewrite Hput. cbn [res_bind]. exists tail. rewrite <- HP, HPl. split; [done|]. lia.
    + exists (A ++ d ++ tail). split; [done|]. rewrite (len_app A), (len_app d). lia.
  - destruct (write b2 p2 _) as [[b3 p3]| |]; cbn [res_bind] in Hset |- *; [|done|done]. destruct (put b3 (len A + 2) _) as [b4| |]; cbn [res_bind] in Hset |- *; [|done|done].
    injection Hset as -> -> ->. destruct (k =? 0)%nat eqn:Ek; [apply Nat.eqb_eq in Ek; lia|]. cbn [andb]. rewrite Hput by (pose proof (len_nonneg tail); lia). cbn [res_bind].
    exists tail. rewrite <- HP, HPl. split; [done|]. lia.
Qed.

(** ** Reading it back *)

(** RFC 7011, section 7: one octet of length below 255, three from there. *)
Definition read_varlen (b : bytes) : option (bytes * bytes) :=
  '(l, b) ← num_n 1 b;
  if l =? 255 then '(n, b) ← num_n 2 b; take_n n b else take_n l b.

Lemma read_varlen_app v b : len v <= 0xFFFF -> read_varlen (varlen v ++ b) = Some (v, b).
Proof.
  intros Hv. pose proof (len_nonneg v). unfold read_varlen, varlen. destruct (len v <? 255) eqn:E; zbool.
  - rewrite <- app_assoc. rewrite num_n_app by done. cbn [mbind option_bind]. change (be_val 0 [len v]) with (0 * 256 + len v). rewrite Z.add_0_l.
    destruct (len v =? 255) eqn:E'; [lia|]. by rewrite take_n_app.
  - change ((255 :: be16 (len v)) ++ v) with ([255] ++ be16 (len v) ++ v). rewrite <- !app_assoc. rewrite num_n_app by done. cbn [mbind option_bind].
    change (be_val 0 [255] =? 255) with true. cbn iota. rewrite num_be16 by lia. cbn [mbind option_bind]. by rewrite take_n_app.
Qed.

Record avc_reading := { a_fields : list (Z * bytes); a_app : Z; a_host : bytes; a_uri : bytes }.
Definition read_avc (b : bytes) : option (avc_reading * bytes) :=
  '(fs, b) ← read_fields ipfixFields b; '(app, b) ← num_n 4 b; '(host, b) ← read_varlen b; '(uri, b) ← read_varlen b;
  Some ({| a_fields := fs; a_app := app; a_host := host; a_uri := uri |}, b).
(** Less than four octets are padding. *)
Fixpoint read_avc_records (fuel : nat) (b : bytes) : option (list avc_reading) :=
  if len b <? 4 then Some []
  else match fuel with
       | O => None
       | S fuel' => '(r, b) ← read_avc b; rs ← read_avc_records fuel' b; Some (r :: rs)
       end.

(** What a collector should read of a record. *)
Definition avc_seen (cat : avcCatalog) (start : Z) (r : FlowRecord) : avc_reading :=
  let '(appID, host, uri) := avc_values cat r in
  {| a_fields := combine (map fst ipfixFields) (ipfix_vals start r); a_app := appID; a_host := avcHostPrefix ++ host; a_uri := uri |}.
Definition ids_ok (cat : avcCatalog) : Prop := forall r, 0 <= fst (fst (avc_values cat r)) < 2 ^ 32.

Lemma read_avc_app cat start r b : strings_ok cat -> ids_ok cat -> read_avc (avc_record cat start r ++ b) = Some (avc_seen cat start r, b).
Proof.
  intros Hs Hi. unfold strings_ok, strings_fit in Hs. specialize (Hs r). specialize (Hi r). unfold read_avc, avc_record, avc_seen. destruct (avc_values cat r) as [[appID host] uri]. destruct Hs as [Hh Hu]. cbn [fst] in Hi.
  change (ipfix_record start r) with (concat (ipfix_vals start r)). pose proof (ipfix_vals_shaped start r) as Hv. revert Hv. generalize (ipfix_vals start r). intros vals Hv.
  rewrite <- (app_assoc (concat vals)), read_fields_concat by done. cbn [mbind option_bind]. rewrite <- (app_assoc (be32 appID)), num_be32 by done. cbn [mbind option_bind].
  rewrite <- (app_assoc (varlen (avcHostPrefix ++ host))), read_varlen_app by done. cbn [mbind option_bind]. by rewrite read_varlen_app.
Qed.

Lemma avc_record_long cat start r : 4 <= len (avc_record cat start r).
Proof.
  pose proof (avc_record_split cat start r) as Hr. destruct (avc_values cat r) as [[appID host] uri]. rewrite Hr. pose proof (len_avc_prefix start r appID) as Hp.
  revert Hp. generalize (ipfix_record start r ++ be32 appID) (varlen (avcHostPrefix ++ host) ++ varlen uri). intros a c Hp. rewrite len_app. pose proof (len_nonneg c).
  unfold ipfixRecordSize in Hp. lia.
Qed.

Lemma read_avc_concat cat start pad : strings_ok cat -> ids_ok cat -> len pad < 4 -> forall rs,
  read_avc_records (length rs) (concat (map (avc_record cat start) rs) ++ pad) = Some (map (avc_seen cat start) rs).
Proof.
  intros Hs Hi Hp. induction rs as [|r rs IH]; cbn [length map concat].
  - cbn [app read_avc_records]. destruct (len pad <? 4) eqn:E; [done|lia].
  - cbn [read_avc_records]. rewrite <- app_assoc. pose proof (avc_record_long cat start r) as Hl.
    destruct (len (avc_record cat start r ++ _) <? 4) eqn:E.
    { exfalso. zbool. revert E. generalize (concat (map (avc_record cat start) rs) ++ pad). intros c E. rewrite (len_app (avc_record cat start r)) in E. pose proof (len_nonneg c). lia. }
    clear E. rewrite read_avc_app by done. cbn [mbind option_bind]. by rewrite IH.
Qed.

(** The data set of a datagram, padding included, reads back as its records. *)
Theorem avc_set_reads cat start rs : strings_ok cat -> ids_ok cat -> rs <> [] ->
  let body := concat (map (avc_record cat start) rs) in 4 + len body + pad4 (4 + len body) < 2 ^ 16 ->
  exists l b, num_n 2 (data_set ipfixAVCTemplateID (map (avc_record cat start) rs)) = Some (ipfixAVCTemplateID, l) /\
    num_n 2 l = Some (len (data_set ipfixAVCTemplateID (map (avc_record cat start) rs)), b) /\
    read_avc_records (length rs) b = Some (map (avc_seen cat start) rs).
Proof.
  intros Hs Hi Hne body Hl. assert (Hd : data_set ipfixAVCTemplateID (map (avc_record cat start) rs) = set_bytes ipfixAVCTemplateID body).
  { unfold data_set. destruct (len (map _ rs) =? 0) eqn:E; [|done]. zbool. apply len_0_nil, map_eq_nil in E. done. }
  rewrite Hd, len_set_bytes. pose proof (pad4_bound (4 + len body)). pose proof (len_nonneg body). unfold set_bytes. eexists _, _.
  split; [by apply num_be16|]. split; [apply num_be16; lia|]. apply read_avc_concat; [done|done|]. unfold len at 1. rewrite repeat_length. lia.
Qed.

(** ** The application table *)

Definition app_record (app : avcApplication) : bytes := written (app_writes app).
Definition app_packet (secs seq dom : Z) (apps : list avcApplication) : bytes :=
  let body := be32 secs ++ be32 seq ++ be32 dom ++ buildIPFIXAppTableTemplateSet ++ data_set ipfixAppTableTemplateID (map app_record apps) in
  be16 ipfixVersion ++ be16 (4 + len body) ++ body.

Lemma len_app_record app : len (app_record app) = ipfixAppTableRecSize.
Proof.
  unfold app_record, app_writes, written, putFixedString. cbn [map wr_bytes concat].
  rewrite (len_app (be32 _)), (len_app (fixed_string (app_Name app) _)), (len_app (fixed_string (app_Description app) _)), !len_fixed_string by (unfold ipfixApplicationNameLen, ipfixApplicationDescriptionLen; lia).
  done.
Qed.

Lemma EncodeAppTableDatagram_spec now dom seq apps buf : apps <> [] -> 16 + 24 + 4 + ipfixAppTableRecSize + 3 <= len buf < 2 ^ 16 ->
  exists k, 1 <= k <= len apps /\
  let P := app_packet (u32 (unix now)) seq dom (take (Z.to_nat k) apps) in
  EncodeAppTableDatagram now dom seq apps buf = Ok (P ++ drop (Z.to_nat (len P)) buf, Some (len P, k)) /\ len P <= len buf.
Proof.
  intros Hne Hl. assert (HR : ipfixAppTableRecSize = 83) by done. rewrite HR in Hl. unfold EncodeAppTableDatagram.
  assert (Ha : 1 <= len apps) by (destruct apps; [done|]; rewrite len_cons; pose proof (len_nonneg apps); lia).
  destruct (len apps =? 0) eqn:E0; [lia|]. clear E0. assert (HT : len buildIPFIXAppTableTemplateSet = 24) by done. rewrite HT. unfold ipfixHeaderSize, ipfixDataSetHdrSize.
  destruct (len buf <? _) eqn:E1; [lia|]. clear E1. set (V := be16 ipfixVersion). set (HW := [Put (be32 _); Put _; Put _; Copy _]).
  assert (HWe : written HW = (be32 (u32 (unix now)) ++ be32 seq ++ be32 dom) ++ buildIPFIXAppTableTemplateSet) by (unfold HW, written; cbn [map wr_bytes concat]; by rewrite app_nil_r, <- !app_assoc).
  remember (be32 (u32 (unix now)) ++ be32 seq ++ be32 dom) as H eqn:HHd. assert (HH : len H = 12) by (by rewrite HHd). remember buildIPFIXAppTableTemplateSet as T eqn:HTd.
  assert (HWl : len (written HW) = 36) by (rewrite HWe, len_app; lia).
  destruct (write_header_gap V HW buf) as (b & g & -> & Hg & Hh); [done|lia|]. cbn [res_bind]. change (2 + 2) with 4. rewrite Hh. cbn [res_bind]. clear Hh b.
  rewrite HWl, HWe. set (A := V ++ g ++ H ++ T). assert (HA : len A = 40) by (unfold A; rewrite !len_app, HH, HT, Hg; reflexivity). fold A. rewrite HA.
  replace (len (A ++ drop (Z.to_nat (4 + 36)) buf)) with (len buf) by (rewrite len_app, len_drop; lia).
  set (maxFit := (len buf - (40 + 4) - 3) ÷ ipfixAppTableRecSize). assert (Hm : 1 <= maxFit /\ 47 + maxFit * 83 <= len buf).
  { unfold maxFit. rewrite HR, Z.quot_div_nonneg by lia. split; [apply Z.div_le_lower_bound; lia|]. pose proof (Z.mul_div_le (len buf - (40 + 4) - 3) 83). lia. }
  set (k := if maxFit <? len apps then maxFit else len apps). assert (Hk : 1 <= k <= len apps /\ k <= maxFit) by (unfold k; destruct (_ <? _) eqn:E; lia).
  clearbody k. exists k. split; [lia|]. cbv zeta. set (P := app_packet (u32 (unix now)) seq dom (take (Z.to_nat k) apps)). unfold slice. destruct ((0 <? 0) || _ || _) eqn:Es; [lia|]. clear Es. rewrite Z.sub_0_r, drop_0. cbn [res_bind].
  set (sel := take (Z.to_nat k) apps) in *. assert (Hsel : len sel = k) by (unfold sel; rewrite len_take; lia).
  assert (Hsn : sel <> []) by (intros Hz; rewrite Hz, len_nil in Hsel; lia). set (d := data_set ipfixAppTableTemplateID (map app_record sel)).
  assert (Hd : len d = 4 + k * 83 + pad4 (4 + k * 83)) by (unfold d; rewrite (len_data_set _ _ ipfixAppTableRecSize) by (done || apply len_app_record); by rewrite Hsel, HR).
  pose proof (pad4_bound (4 + k * 83)). rewrite <- HA. rewrite (padded_set_data ipfixAppTableTemplateID encode_app app_writes sel); try done; fold app_record;
    change (map (fun r => written (app_writes r)) sel) with (map app_record sel); fold d; [|rewrite ?len_drop; lia..]. cbn [res_bind].
  assert (HPe : P = V ++ be16 (4 + len (H ++ T ++ d)) ++ H ++ T ++ d) by (unfold P, app_packet; fold sel; fold d; rewrite <- HTd, HHd; by rewrite <- !app_assoc).
  assert (HPl : len P = len A + len d) by (rewrite HPe, HA, !len_app, len_be16, HH, HT; change (len V) with 2; lia). rewrite HPl.
  split; [|lia]. unfold A at 1. replace ((V ++ g ++ H ++ T) ++ d ++ drop (Z.to_nat (len d)) (drop (Z.to_nat (4 + 36)) buf))
    with ((V ++ g ++ H ++ (T ++ d)) ++ drop (Z.to_nat (len A + len d)) buf).
  2:{ rewrite drop_drop, <- !app_assoc. do 6 f_equal. lia. }
  replace (len A + len d) with (4 + len H + len (T ++ d)) at 2 by (rewrite (len_app T), HA, HH, HT; lia).
  rewrite message_length by (done || (rewrite (len_app T), HH, HT; lia)). cbn [res_bind]. by rewrite HPe.
Qed.
