(* ===== verification/FlowCache.v ===== *)
(** * The flow cache of a device (flow_cache.go, flow_profiles.go, nbar2_catalog.go)

    The flows a device has open, keyed by their 5-tuple; how they are drawn from
    the device's profile, aged out by the active and the inactive timeout, and
    handed over for export.  A Go map is ranged over in an order the runtime
    picks: the operations that range take that order as an argument, and the
    theorems hold for each.  The random source is a parameter: [Rand] has the
    methods of [math/rand] the code calls, [RandLaws] their documented ranges.
    A [float64] is a value of the Standard Library's [SpecFloat]. *)

From stdpp Require Import gmap.
From Stdlib Require Import SpecFloat.
From S2P Require Import Prelude GoStrings Ber OidOrder FlowWire.

(** ** Numbers, time and randomness *)

Definition float64 := spec_float.
Definition f_add : float64 -> float64 -> float64 := SFadd 53 1024.
Definition f_sub : float64 -> float64 -> float64 := SFsub 53 1024.
Definition f_mul : float64 -> float64 -> float64 := SFmul 53 1024.
(** [float64(z)] *)
Definition f_of (z : Z) : float64 := binary_normalize 53 1024 z 0 false.
(** [int64(f)], towards zero; what does not fit is the value amd64 gives. *)
Definition f_int64 (f : float64) : Z :=
  match f with
  | S754_zero _ => 0
  | S754_finite s m e =>
      let a := if e <? 0 then Z.pos m / 2 ^ (- e) else Z.pos m * 2 ^ e in
      let v := if s then - a else a in
      if (v <? MinInt64) || (MaxInt64 <? v) then MinInt64 else v
  | _ => MinInt64
  end.

(** An instant and a duration are nanoseconds.  [t.Sub(u)] saturates. *)
Definition Millisecond : Z := 1000000.
Definition time_Sub (t u : Z) : Z := Z.max MinInt64 (Z.min MaxInt64 (t - u)).

Class Rand (R : Type) := {
  rand_Int63 : R -> Z * R;
  rand_n : Z -> R -> Z * R;
  rand_Float64 : R -> float64 * R
}.
(** [rng.Intn(n)], [rng.Int31n(n)] and [rng.Int63n(n)] panic unless [n] is
    positive, and are below [n]. *)
Class RandLaws (R : Type) `{Rand R} := rand_range : forall n g, 0 < n -> 0 <= fst (rand_n n g) < n.
Definition Intn {R} `{Rand R} (n : Z) (g : R) : res (Z * R) := if n <=? 0 then Panic else Ok (rand_n n g).

(** ** Keys and records *)

Record FlowKey := { k_SrcIP : bytes; k_DstIP : bytes; k_SrcPort : Z; k_DstPort : Z; k_Protocol : Z }.
#[export] Instance FlowKey_eq : EqDecision FlowKey.
Proof. solve_decision. Defined.
#[export] Instance FlowKey_countable : Countable FlowKey.
Proof.
  refine (inj_countable' (fun k => (k_SrcIP k, k_DstIP k, k_SrcPort k, k_DstPort k, k_Protocol k))
    (fun '(s, d, sp, dp, p) => Build_FlowKey s d sp dp p) _). by intros [].
Defined.

Definition recordKey (r : FlowRecord) : FlowKey :=
  {| k_SrcIP := ip4_or_zero (SrcIP r); k_DstIP := ip4_or_zero (DstIP r);
     k_SrcPort := SrcPort r; k_DstPort := DstPort r; k_Protocol := Protocol r |}.

(** [bytes.Compare] is [lex], the comparison of the octets in order. *)
Definition flowRecordLess (a b : FlowRecord) : bool :=
  let ka := recordKey a in let kb := recordKey b in
  let c := lex (k_SrcIP ka) (k_SrcIP kb) in
  if negb (c =? 0) then c <? 0 else
  let c := lex (k_DstIP ka) (k_DstIP kb) in
  if negb (c =? 0) then c <? 0 else
  if negb (k_SrcPort ka =? k_SrcPort kb) then k_SrcPort ka <? k_SrcPort kb else
  if negb (k_DstPort ka =? k_DstPort kb) then k_DstPort ka <? k_DstPort kb else
  k_Protocol ka <? k_Protocol kb.

Definition recordDuration (r : FlowRecord) : Z :=
  if EndMs r <=? StartMs r then 0 else (EndMs r - StartMs r) * Millisecond.

(** ** The cache *)

Record flowEntry := { record : FlowRecord; lastSeenAt : Z; activeDeadline : Z }.

Record FlowCache := {
  flows : gmap FlowKey flowEntry;
  activeTimeout : Z;
  inactiveTimeout : Z;
  maxFlows : Z;
  expiredActive : Z;
  expiredInactive : Z;
  warmed : bool;
  activeJitterFraction : float64
}.

(** 0.25 *)
Definition flowActiveJitterFraction : float64 := S754_finite false 4503599627370496 (-54).

Definition NewFlowCache (active inactive max : Z) : FlowCache :=
  {| flows := ∅; activeTimeout := active; activeJitterFraction := flowActiveJitterFraction; inactiveTimeout := inactive;
     maxFlows := max; expiredActive := 0; expiredInactive := 0; warmed := false |}.

Definition with_flows (m : gmap FlowKey flowEntry) (fc : FlowCache) : FlowCache :=
  {| flows := m; activeTimeout := activeTimeout fc; activeJitterFraction := activeJitterFraction fc; inactiveTimeout := inactiveTimeout fc;
     maxFlows := maxFlows fc; expiredActive := expiredActive fc; expiredInactive := expiredInactive fc; warmed := warmed fc |}.
Definition with_reasons (a i : Z) (fc : FlowCache) : FlowCache :=
  {| flows := flows fc; activeTimeout := activeTimeout fc; activeJitterFraction := activeJitterFraction fc; inactiveTimeout := inactiveTimeout fc;
     maxFlows := maxFlows fc; expiredActive := a; expiredInactive := i; warmed := warmed fc |}.
Definition with_warmed (fc : FlowCache) : FlowCache :=
  {| flows := flows fc; activeTimeout := activeTimeout fc; activeJitterFraction := activeJitterFraction fc; inactiveTimeout := inactiveTimeout fc;
     maxFlows := maxFlows fc; expiredActive := expiredActive fc; expiredInactive := expiredInactive fc; warmed := true |}.

Definition Len (fc : FlowCache) : Z := Z.of_nat (size (flows fc)).

(** An entry takes the counters of another packet. *)
Definition accumulate (e : flowEntry) (r : FlowRecord) (now : Z) : flowEntry :=
  let q := record e in
  {| record := {| SrcIP := SrcIP q; DstIP := DstIP q; NextHop := NextHop q; SrcPort := SrcPort q; DstPort := DstPort q;
                  Protocol := Protocol q; TCPFlags := Z.lor (TCPFlags q) (TCPFlags r); ToS := ToS q;
                  Bytes_ := u64 (Bytes_ q + Bytes_ r); Packets := u32 (Packets q + Packets r);
                  StartMs := StartMs q; EndMs := EndMs r; InIface := InIface q; OutIface := OutIface q;
                  SrcAS := SrcAS q; DstAS := DstAS q; SrcMask := SrcMask q; DstMask := DstMask q; AVC := AVC q |};
     lastSeenAt := now; activeDeadline := activeDeadline e |}.

Definition Add (fc : FlowCache) (r : FlowRecord) (now : Z) : FlowCache :=
  let key := recordKey r in
  match flows fc !! key with
  | Some e => with_flows (<[key := accumulate e r now]> (flows fc)) fc
  | None =>
      if maxFlows fc <=? Len fc then fc
      else with_flows (<[key := {| record := r; lastSeenAt := now; activeDeadline := now + activeTimeout fc |}]> (flows fc)) fc
  end.

Definition byActive (now : Z) (e : flowEntry) : bool := negb (now <? activeDeadline e).
Definition byInactive (fc : FlowCache) (now : Z) (e : flowEntry) : bool := inactiveTimeout fc <=? time_Sub now (lastSeenAt e).

(** The loop of [Expire]; a key already gone from the map is not produced. *)
Fixpoint expire_loop (order : list FlowKey) (now : Z) (fc : FlowCache) (expired : list FlowRecord) : FlowCache * list FlowRecord :=
  match order with
  | [] => (fc, expired)
  | key :: order' =>
      match flows fc !! key with
      | None => expire_loop order' now fc expired
      | Some e =>
          if negb (byActive now e) && negb (byInactive fc now e) then expire_loop order' now fc expired
          else
            let fc := if byActive now e then with_reasons (u64 (expiredActive fc + 1)) (expiredInactive fc) fc
                      else with_reasons (expiredActive fc) (u64 (expiredInactive fc + 1)) fc in
            expire_loop order' now (with_flows (delete key (flows fc)) fc) (expired ++ [record e])
      end
  end.
(** [sort.Slice] with [flowRecordLess]. *)
Definition less_cmp (a b : FlowRecord) : Z := if flowRecordLess a b then -1 else 1.
Definition Expire (fc : FlowCache) (now : Z) (order : list FlowKey) : FlowCache * list FlowRecord :=
  let '(fc, expired) := expire_loop order now fc [] in (fc, sort_by less_cmp expired).

Definition ExpiryReasons (fc : FlowCache) : Z * Z := (expiredActive fc, expiredInactive fc).

Fixpoint trim_loop (order : list FlowKey) (target : Z) (m : gmap FlowKey flowEntry) (dropped : Z) : gmap FlowKey flowEntry * Z :=
  match order with
  | [] => (m, dropped)
  | key :: order' =>
      if Z.of_nat (size m) <=? target then (m, dropped)
      else match m !! key with
           | None => trim_loop order' target m dropped
           | Some _ => trim_loop order' target (delete key m) (dropped + 1)
           end
  end.
Definition TrimTo (fc : FlowCache) (target : Z) (order : list FlowKey) : FlowCache * Z :=
  let target := if target <? 0 then 0 else target in
  let '(m, dropped) := trim_loop order target (flows fc) 0 in (with_flows m fc, dropped).

(** ** Drawing flows *)

Record PortWeight := { Port : Z; Weight : float64 }.
Record FlowProfile := {
  TCPWeight : float64;
  UDPWeight : float64;
  ICMPWeight : float64;
  DstPorts : list PortWeight;
  SrcPortMin : Z;
  SrcPortMax : Z;
  BytesMin : Z;
  BytesMax : Z;
  PktsMin : Z;
  PktsMax : Z;
  DurationMinMs : Z;
  DurationMaxMs : Z;
  ConcurrentFlows : Z;
  MaxFlows : Z
}.

(** The part of a finalised NBAR2 catalog a draw reads: the usable entries'
    protocol and port, and the cumulative weights of entries, hosts and URIs. *)
Record nbar2Catalog := {
  usable : list (Z * Z);
  cumW : list Z;
  totalW : Z;
  hostCum : list (list Z);
  hostTot : list Z;
  uriCum : list (list Z);
  uriTot : list Z
}.

Section draws.
Context {R : Type} `{Rand R}.

Definition SampleProtocol (fp : FlowProfile) (g : R) : Z * R :=
  let (v, g) := rand_Float64 g in
  (if SFltb v (TCPWeight fp) then 6 else if SFltb v (f_add (TCPWeight fp) (UDPWeight fp)) then 17 else 1, g).

Fixpoint dst_port_loop (v cumulative : float64) (ports : list PortWeight) (last : Z) : Z :=
  match ports with
  | [] => last
  | pw :: ports' =>
      let cumulative := f_add cumulative (Weight pw) in
      if SFltb v cumulative then Port pw else dst_port_loop v cumulative ports' (Port pw)
  end.
Definition SampleDstPort (fp : FlowProfile) (g : R) : Z * R :=
  match DstPorts fp with
  | [] => (443, g)
  | ports => let (v, g) := rand_Float64 g in (dst_port_loop v (S754_zero false) ports 0, g)
  end.

(** [lo + rng.Int63n(hi - lo)] on integers whose conversion is [wrap], [lo] when
    the range is empty. *)
Definition sample_range (wrap : Z -> Z) (lo hi : Z) (g : R) : res (Z * R) :=
  if hi <=? lo then Ok (lo, g) else let! (v, g) := Intn (wrap (hi - lo)) g in Ok (wrap (lo + v), g).
Definition SampleBytes (fp : FlowProfile) : R -> res (Z * R) := sample_range s64 (BytesMin fp) (BytesMax fp).
Definition SamplePkts (fp : FlowProfile) : R -> res (Z * R) := sample_range s32 (PktsMin fp) (PktsMax fp).
Definition SampleDurationMs (fp : FlowProfile) : R -> res (Z * R) := sample_range s64 (DurationMinMs fp) (DurationMaxMs fp).

Definition syntheticFlowWith (profile : FlowProfile) (deviceIP : bytes) (startUptimeMs proto dstPort : Z) (g : R) : res (FlowRecord * R) :=
  let spread := SrcPortMax profile - SrcPortMin profile in
  let! (srcPort, g) := (if 0 <? spread then let! (v, g) := Intn spread g in Ok (u16 (SrcPortMin profile + u16 v), g)
                        else Ok (SrcPortMin profile, g)) in
  let '(srcPort, dstPort) := if proto =? 1 then (0, 0) else (srcPort, dstPort) in
  let! (v, g) := Intn 0x00FFFFFE g in
  let dstIP := be32 (Z.lor 0x0A000000 (u32 (v + 1))) in
  let! (d, g) := SampleDurationMs profile g in
  let durationMs := u32 d in
  let endMs := u32 (startUptimeMs + durationMs) in
  let endMs := if endMs <? startUptimeMs then startUptimeMs else endMs in
  let tcpFlags := if proto =? 6 then 0x18 else 0 in
  let! (bytes, g) := SampleBytes profile g in
  let bytes := if bytes <? 0 then 0 else bytes in
  let! (pkts, g) := SamplePkts profile g in
  let pkts := if pkts <? 0 then 0 else pkts in
  Ok ({| SrcIP := match To4 deviceIP with Some a => a | None => [] end;
         DstIP := dstIP; NextHop := [0; 0; 0; 0]; SrcPort := srcPort; DstPort := dstPort; Protocol := proto;
         TCPFlags := tcpFlags; ToS := 0; Bytes_ := u64 bytes; Packets := u32 pkts; StartMs := startUptimeMs; EndMs := endMs;
         InIface := 1; OutIface := 2; SrcAS := 0; DstAS := 0; SrcMask := 24; DstMask := 24;
         AVC := {| ref_App := 0; ref_Host := 0; ref_URI := 0 |} |}, g).

Definition syntheticFlow (profile : FlowProfile) (deviceIP : bytes) (startUptimeMs : Z) (g : R) : res (FlowRecord * R) :=
  let (proto, g) := SampleProtocol profile g in
  let (dstPort, g) := SampleDstPort profile g in
  syntheticFlowWith profile deviceIP startUptimeMs proto dstPort g.

Fixpoint weight_loop (v : Z) (i : Z) (cum : list Z) : Z :=
  match cum with
  | [] => i - 1
  | w :: cum' => if v <? w then i else weight_loop v (i + 1) cum'
  end.
Definition weightedIndex (cum : list Z) (total : Z) (g : R) : res (Z * R) :=
  if total <=? 0 then let (_, g) := rand_Int63 g in Ok (0, g)
  else let! (v, g) := Intn total g in Ok (weight_loop v 0 cum, g).

Definition draw (c : nbar2Catalog) (g : R) : res (avcRef * Z * Z * R) :=
  let! (i, g) := weightedIndex (cumW c) (totalW c) g in
  let! hc := index (hostCum c) i in let! ht := index (hostTot c) i in
  let! (h, g) := weightedIndex hc ht g in
  let! uc := index (uriCum c) i in let! ut := index (uriTot c) i in
  let! (u, g) := weightedIndex uc ut g in
  let! (proto, port) := index (usable c) i in
  Ok ({| ref_App := u16 (i + 1); ref_Host := if 0 <? ht then u16 (h + 1) else 0; ref_URI := if 0 <? ut then u16 (u + 1) else 0 |},
      proto, port, g).

Definition with_AVC (ref : avcRef) (r : FlowRecord) : FlowRecord :=
  {| SrcIP := SrcIP r; DstIP := DstIP r; NextHop := NextHop r; SrcPort := SrcPort r; DstPort := DstPort r; Protocol := Protocol r;
     TCPFlags := TCPFlags r; ToS := ToS r; Bytes_ := Bytes_ r; Packets := Packets r; StartMs := StartMs r; EndMs := EndMs r;
     InIface := InIface r; OutIface := OutIface r; SrcAS := SrcAS r; DstAS := DstAS r; SrcMask := SrcMask r; DstMask := DstMask r;
     AVC := ref |}.
Definition syntheticAVCFlow (profile : FlowProfile) (cat : nbar2Catalog) (deviceIP : bytes) (startUptimeMs : Z) (g : R) : res (FlowRecord * R) :=
  let! (ref, proto, dstPort, g) := draw cat g in
  let! (r, g) := syntheticFlowWith profile deviceIP startUptimeMs proto dstPort g in
  Ok (with_AVC ref r, g).

Definition activeTimeoutJitter (active : Z) (fraction : float64) (g : R) : Z * R :=
  if (active <=? 0) || SFleb fraction (S754_zero false) then (0, g)
  else
    let span := f_mul (f_of active) fraction in
    let (f, g) := rand_Float64 g in
    (f_int64 (f_mul (f_sub (f_mul f (f_of 2)) (f_of 1)) span), g).

Definition warmStartOffset (fc : FlowCache) (r : FlowRecord) (deadline : Z) (g : R) : res (Z * R) :=
  let lifetime := s64 (recordDuration r + inactiveTimeout fc) in
  let lifetime := if deadline <? lifetime then deadline else lifetime in
  if lifetime <=? 0 then Ok (0, g) else Intn lifetime g.

(** The records and the jitters drawn before the lock is taken again. *)
Fixpoint draw_batch (need : nat) (fc : FlowCache) (profile : FlowProfile) (deviceIP : bytes) (startUptimeMs : Z)
    (cat : option nbar2Catalog) (g : R) : res (list (FlowRecord * Z) * R) :=
  match need with
  | O => Ok ([], g)
  | S need' =>
      let! (r, g) := match cat with
                     | Some c => syntheticAVCFlow profile c deviceIP startUptimeMs g
                     | None => syntheticFlow profile deviceIP startUptimeMs g
                     end in
      let (j, g) := activeTimeoutJitter (activeTimeout fc) (activeJitterFraction fc) g in
      let! (batch, g) := draw_batch need' fc profile deviceIP startUptimeMs cat g in
      Ok ((r, j) :: batch, g)
  end.

Fixpoint insert_batch (batch : list (FlowRecord * Z)) (now : Z) (fc : FlowCache) (g : R) : res (FlowCache * R) :=
  match batch with
  | [] => Ok (fc, g)
  | (r, j) :: batch' =>
      if maxFlows fc <=? Len fc then Ok (fc, g)
      else
        let key := recordKey r in
        match flows fc !! key with
        | Some _ => insert_batch batch' now fc g
        | None =>
            let deadline := s64 (activeTimeout fc + j) in
            let! (off, g) := (if warmed fc then Ok (0, g) else warmStartOffset fc r deadline g) in
            let createdAt := now - off in
            let e := {| record := r; lastSeenAt := createdAt + recordDuration r; activeDeadline := createdAt + deadline |} in
            insert_batch batch' now (with_flows (<[key := e]> (flows fc)) fc) g
        end
  end.

Definition GenerateFlowsFrom (fc : FlowCache) (profile : FlowProfile) (target : Z) (deviceIP : bytes) (now startUptimeMs : Z)
    (cat : option nbar2Catalog) (g : R) : res (FlowCache * R) :=
  let need := target - Len fc in
  if need <=? 0 then Ok (fc, g)
  else
    let! (batch, g) := draw_batch (Z.to_nat need) fc profile deviceIP startUptimeMs cat g in
    let! (fc, g) := insert_batch batch now fc g in
    Ok (with_warmed fc, g).

Definition GenerateFlows (fc : FlowCache) (profile : FlowProfile) (target : Z) (deviceIP : bytes) (now startUptimeMs : Z) (g : R) : res (FlowCache * R) :=
  GenerateFlowsFrom fc profile target deviceIP now startUptimeMs None g.
End draws.

(** ** The order of records *)

(** Addresses, ports and protocol compared in turn. *)
Definition key_lt (a b : FlowKey) : Prop :=
  lex (k_SrcIP a) (k_SrcIP b) < 0 \/ k_SrcIP a = k_SrcIP b /\
  (lex (k_DstIP a) (k_DstIP b) < 0 \/ k_DstIP a = k_DstIP b /\
   (k_SrcPort a < k_SrcPort b \/ k_SrcPort a = k_SrcPort b /\
    (k_DstPort a < k_DstPort b \/ k_DstPort a = k_DstPort b /\ k_Protocol a < k_Protocol b))).
Definition rec_lt (a b : FlowRecord) : Prop := key_lt (recordKey a) (recordKey b).

Lemma flowRecordLess_lt a b : flowRecordLess a b = true <-> rec_lt a b.
Proof.
  unfold flowRecordLess, rec_lt, key_lt. generalize (recordKey a) (recordKey b). intros ka kb.
  pose proof (lex_eq (k_SrcIP ka) (k_SrcIP kb)) as Hs. pose proof (lex_eq (k_DstIP ka) (k_DstIP kb)) as Hd.
  repeat case_if; rewrite ?Z.ltb_lt; intuition (try congruence; try lia).
Qed.

Lemma key_lt_trans a b c : key_lt a b -> key_lt b c -> key_lt a c.
Proof.
  unfold key_lt. intros [H1|[-> H1]] [H2|[<- H2]]; [by left; eapply lex_trans|by left|by left|].
  right. split; [done|]. revert H1 H2. intros [H1|[-> H1]] [H2|[<- H2]]; [by left; eapply lex_trans|by left|by left|].
  right. split; [done|]. lia.
Qed.
Lemma key_lt_irrefl a : ~ key_lt a a.
Proof. unfold key_lt. rewrite !lex_refl. lia. Qed.
Lemma key_lt_total a b : a <> b -> key_lt a b \/ key_lt b a.
Proof.
  intros Hne. unfold key_lt. pose proof (lex_antisym (k_SrcIP a) (k_SrcIP b)). pose proof (lex_antisym (k_DstIP a) (k_DstIP b)).
  pose proof (lex_eq (k_SrcIP a) (k_SrcIP b)) as Hs. pose proof (lex_eq (k_DstIP a) (k_DstIP b)) as Hd.
  destruct (Z.eq_dec (lex (k_SrcIP a) (k_SrcIP b)) 0) as [E|]; [|lia]. apply Hs in E.
  destruct (Z.eq_dec (lex (k_DstIP a) (k_DstIP b)) 0) as [E'|]; [|destruct (Z.lt_ge_cases (lex (k_DstIP a) (k_DstIP b)) 0); [left|right]; right; split; try done; left; lia].
  apply Hd in E'. assert (k_SrcPort a <> k_SrcPort b \/ k_DstPort a <> k_DstPort b \/ k_Protocol a <> k_Protocol b).
  { destruct a, b; cbn in *. subst. destruct (Z.eq_dec k_SrcPort0 k_SrcPort1); [|by left]. destruct (Z.eq_dec k_DstPort0 k_DstPort1); [|by right; left].
    destruct (Z.eq_dec k_Protocol0 k_Protocol1); [|by right; right]. by subst. }
  destruct (Z.lt_total (k_SrcPort a) (k_SrcPort b)) as [?|[?|?]]; [left|destruct (Z.lt_total (k_DstPort a) (k_DstPort b)) as [?|[?|?]];
    [left|destruct (Z.lt_total (k_Protocol a) (k_Protocol b)) as [?|[?|?]]; [left|lia|right]|right]|right]; right; (split; [done|]); right; (split; [done|]); lia.
Qed.

(** Sorting records of distinct keys gives the one list in key order. *)
Lemma sorted_records l : NoDup (recordKey <$> l) -> StronglySorted rec_lt (sort_by less_cmp l).
Proof.
  intros Hnd. assert (Hcmp : forall a b, less_cmp a b < 0 <-> rec_lt a b).
  { intros a b. rewrite <- flowRecordLess_lt. unfold less_cmp. destruct (flowRecordLess a b); split; try done; lia. }
  assert (Hs : StronglySorted (fun a b => less_cmp a b < 0) (sort_by less_cmp l)).
  { apply sort_by_sorted.
    - intros a b c. rewrite !Hcmp. apply key_lt_trans.
    - by eapply NoDup_fmap_1.
    - intros a b Ha Hb Hne Hab. rewrite Hcmp in *. destruct (key_lt_total (recordKey a) (recordKey b)) as [?|?]; [|done|done].
      intros E. apply list_elem_of_lookup_1 in Ha as [i Hi]. apply list_elem_of_lookup_1 in Hb as [j Hj]. apply Hne.
      assert (i = j) as ->; [|by rewrite Hi in Hj; inversion Hj].
      eapply (NoDup_lookup _ _ _ _ Hnd); rewrite list_lookup_fmap; [rewrite Hi|rewrite Hj]; cbn; [done|by rewrite E]. }
  induction Hs as [|x s Hs IH Hx]; constructor; [done|]. eapply List.Forall_impl; [|exact Hx]. intros y. apply Hcmp.
Qed.

Lemma sorted_unique l k : StronglySorted rec_lt l -> StronglySorted rec_lt k -> l ≡ₚ k -> l = k.
Proof.
  revert k. induction l as [|x l IH]; intros k Hl Hk Hp; [by apply Permutation_nil in Hp|].
  destruct k as [|y k]; [by symmetry in Hp; apply Permutation_nil in Hp|].
  apply StronglySorted_inv in Hl as [Hl Hx], Hk as [Hk Hy]. rewrite List.Forall_forall in Hx, Hy.
  assert (x = y) as ->.
  { assert (Hxk : In x (y :: k)) by (eapply Permutation_in; [exact Hp|by left]).
    assert (Hyl : In y (x :: l)) by (eapply Permutation_in; [symmetry; exact Hp|by left]).
    destruct Hxk as [?|Hxk]; [done|]. destruct Hyl as [?|Hyl]; [done|].
    exfalso. eapply key_lt_irrefl, key_lt_trans; [apply (Hx y Hyl)|apply (Hy x Hxk)]. }
  f_equal. apply IH; [done|done|]. by eapply Permutation_cons_inv.
Qed.

(** ** Expiry *)

(** A flow is due when either timeout has run out. *)
Definition due (fc : FlowCache) (now : Z) (e : flowEntry) : bool := byActive now e || byInactive fc now e.

Record cache_ok (fc : FlowCache) : Prop := {
  ok_keys : map_Forall (fun k e => recordKey (record e) = k /\ record_ok (record e)) (flows fc);
  ok_cap : Len fc <= Z.max 0 (maxFlows fc);
  ok_active : 0 <= expiredActive fc < 2 ^ 64;
  ok_inactive : 0 <= expiredInactive fc < 2 ^ 64
}.

(** The runtime ranges over every key once. *)
Definition ranges (fc : FlowCache) (order : list FlowKey) : Prop := order ≡ₚ (map_to_list (flows fc)).*1.

Definition entries (fc : FlowCache) : list flowEntry := (map_to_list (flows fc)).*2.
Definition due_now (fc : FlowCache) (now : Z) : list flowEntry := filter (fun e => due fc now e = true) (entries fc).

(** What [Expire] leaves: the flows not due, the reasons counted. *)
Definition expired_state (fc : FlowCache) (now : Z) : FlowCache :=
  with_flows (filter (fun kv => due fc now kv.2 = false) (flows fc))
    (with_reasons (u64 (expiredActive fc + len (filter (fun e => byActive now e = true) (due_now fc now))))
                  (u64 (expiredInactive fc + len (filter (fun e => byActive now e = false) (due_now fc now)))) fc).

(** The entries under the keys of [order]. *)
Definition at_keys (fc : FlowCache) (order : list FlowKey) : list flowEntry := omap (fun k => flows fc !! k) order.

Lemma at_keys_all fc order : ranges fc order -> at_keys fc order ≡ₚ entries fc.
Proof.
  intros Hr. unfold at_keys. rewrite Hr. unfold entries. apply reflexive_eq.
  assert (Hl : Forall (fun kv => flows fc !! kv.1 = Some kv.2) (map_to_list (flows fc))).
  { apply List.Forall_forall. intros [k e] Hin. apply list_elem_of_In, elem_of_map_to_list in Hin. done. }
  induction Hl as [|[k e] l Hk Hl IH]; [done|]. cbn in *. rewrite Hk, IH. done.
Qed.

Lemma u64_succ_add x n : u64 (u64 (x + 1) + n) = u64 (x + (1 + n)).
Proof. unfold u64. rewrite Zplus_mod_idemp_l. f_equal. lia. Qed.

Lemma expire_loop_spec now order : NoDup order -> forall fc acc,
  0 <= expiredActive fc < 2 ^ 64 -> 0 <= expiredInactive fc < 2 ^ 64 ->
  let hit := filter (fun e => due fc now e = true) (at_keys fc order) in
  expire_loop order now fc acc =
    (with_flows (filter (fun kv => kv.1 ∉ order \/ due fc now kv.2 = false) (flows fc))
       (with_reasons (u64 (expiredActive fc + len (filter (fun e => byActive now e = true) hit)))
                     (u64 (expiredInactive fc + len (filter (fun e => byActive now e = false) hit))) fc),
     acc ++ (record <$> hit)).
Proof.
  induction 1 as [|key order Hkey Hnd IH]; intros fc acc Ha Hi; cbn zeta.
  { cbn. rewrite app_nil_r, !Z.add_0_r. unfold u64. rewrite !Z.mod_small by lia. f_equal.
    rewrite map_filter_id; [by destruct fc|]. intros k e _. left. by apply not_elem_of_nil. }
  cbn [expire_loop at_keys omap list_omap]. destruct (flows fc !! key) as [e|] eqn:E.
  - replace (negb (byActive now e) && negb (byInactive fc now e)) with (negb (due fc now e)) by (unfold due; by rewrite negb_orb).
    rewrite filter_cons. destruct (due fc now e) eqn:Ed; cbn [negb decide].
    + rewrite decide_True by done.
      set (fc1 := with_flows _ _). rewrite (IH fc1); [|subst fc1; destruct (byActive now e); cbn; unfold u64; try apply Z.mod_pos_bound; done..].
      assert (Hat : at_keys fc1 order = at_keys fc order).
      { subst fc1. unfold at_keys. apply list_omap_ext, Forall_Forall2_diag, Forall_forall.
        intros k Hk. destruct (byActive now e); cbn; rewrite lookup_delete_ne; [done| |done|]; intros <-; apply Hkey; by apply list_elem_of_In || exact Hk. }
      rewrite Hat. assert (Hdue : due fc1 now = due fc now) by (subst fc1; by destruct (byActive now e)). rewrite Hdue.
      fold (at_keys fc order). set (hit := filter _ (at_keys fc order)). rewrite fmap_cons, <- (assoc_L app).
      f_equal. rewrite !filter_cons. subst fc1.
      assert (Hf : filter (fun kv : FlowKey * flowEntry => kv.1 ∉ order \/ due fc now kv.2 = false) (delete key (flows fc)) =
                   filter (fun kv : FlowKey * flowEntry => kv.1 ∉ key :: order \/ due fc now kv.2 = false) (flows fc)).
      { apply map_eq. intros k. apply option_eq. intros v. rewrite !map_lookup_filter_Some, lookup_delete_Some, not_elem_of_cons. cbn.
        split; [naive_solver|]. intros [Hv [Hn|Hn]]; [naive_solver|]. destruct (decide (key = k)) as [<-|]; [|naive_solver]. congruence. }
      destruct (byActive now e) eqn:Eb; cbn [flows with_flows with_reasons expiredActive expiredInactive]; rewrite Hf; unfold with_flows, with_reasons;
        cbn -[u64]; repeat first [case_decide; [|done] | case_decide; [done|]]; rewrite ?len_cons, ?u64_succ_add; done.
    + rewrite decide_False by done. rewrite IH by done. fold (at_keys fc order). f_equal. f_equal.
      apply map_eq. intros k. apply option_eq. intros v. rewrite !map_lookup_filter_Some, not_elem_of_cons. cbn.
      destruct (decide (key = k)) as [<-|]; [rewrite E|]; naive_solver.
  - rewrite IH by done. fold (at_keys fc order). f_equal. f_equal.
    apply map_eq. intros k. apply option_eq. intros v. rewrite !map_lookup_filter_Some, not_elem_of_cons. cbn.
    destruct (decide (key = k)) as [<-|]; [rewrite E|]; naive_solver.
Qed.

Lemma order_NoDup fc order : ranges fc order -> NoDup order.
Proof. intros ->. apply NoDup_fst_map_to_list. Qed.

Lemma len_perm {A} (l k : list A) : l ≡ₚ k -> len l = len k.
Proof. intros Hp. unfold len. by rewrite Hp. Qed.

Lemma expire_loop_all fc now order : cache_ok fc -> ranges fc order ->
  exists out, expire_loop order now fc [] = (expired_state fc now, out) /\ out ≡ₚ (record <$> due_now fc now).
Proof.
  intros [_ _ Ha Hi] Hr. rewrite expire_loop_spec by (done || by eapply order_NoDup). cbn zeta. rewrite app_nil_l.
  assert (Hp : filter (fun e => due fc now e = true) (at_keys fc order) ≡ₚ due_now fc now) by (unfold due_now; by rewrite at_keys_all).
  rewrite (len_perm _ (filter (fun e => byActive now e = true) (due_now fc now)) (filter_Permutation _ _ _ Hp)).
  rewrite (len_perm _ (filter (fun e => byActive now e = false) (due_now fc now)) (filter_Permutation _ _ _ Hp)).
  eexists. split; [f_equal|by rewrite Hp]. unfold expired_state. f_equal.
    apply map_filter_ext. intros k e Hk. cbn. split; [|by right]. intros [Hn|?]; [|done]. exfalso. apply Hn. rewrite Hr.
    apply list_elem_of_fmap. exists (k, e). split; [done|]. by apply elem_of_map_to_list.
Qed.

Lemma entries_elem fc e : e ∈ entries fc <-> exists k, flows fc !! k = Some e.
Proof.
  unfold entries. rewrite list_elem_of_fmap. split.
  - intros ([k e'] & -> & Hin). exists k. by apply elem_of_map_to_list in Hin.
  - intros [k Hk]. exists (k, e). split; [done|]. by apply elem_of_map_to_list.
Qed.

Lemma records_distinct fc : cache_ok fc -> NoDup (recordKey ∘ record <$> entries fc).
Proof.
  intros [Hk _ _ _]. assert (E : recordKey ∘ record <$> entries fc = (map_to_list (flows fc)).*1); [|rewrite E; apply NoDup_fst_map_to_list].
  unfold entries. rewrite <- list_fmap_compose. apply list_fmap_ext. intros i [k e] Hin. cbn.
  apply list_elem_of_lookup_2, elem_of_map_to_list in Hin. by apply Hk in Hin as [? _].
Qed.

Lemma NoDup_fmap_filter {A B} (f : A -> B) (P : A -> Prop) `{forall x, Decision (P x)} l : NoDup (f <$> l) -> NoDup (f <$> filter P l).
Proof.
  induction l as [|x l IH]; [done|]. rewrite fmap_cons, filter_cons. intros [Hx Hl]%list.NoDup_cons. case_decide; [|by apply IH].
  rewrite fmap_cons. apply list.NoDup_cons. split; [|by apply IH]. contradict Hx. apply list_elem_of_fmap in Hx as (y & -> & Hy).
  apply list_elem_of_fmap. exists y. split; [done|]. by apply list_elem_of_filter in Hy as [_ ?].
Qed.

Lemma due_distinct fc now : cache_ok fc -> NoDup (recordKey <$> (record <$> due_now fc now)).
Proof. intros Hok. rewrite <- list_fmap_compose. by apply NoDup_fmap_filter, records_distinct. Qed.

Lemma Expire_spec fc now order : cache_ok fc -> ranges fc order ->
  exists out, Expire fc now order = (expired_state fc now, out) /\ out ≡ₚ (record <$> due_now fc now) /\ StronglySorted rec_lt out.
Proof.
  intros Hok Hr. unfold Expire. destruct (expire_loop_all fc now order Hok Hr) as (out & -> & Hp). eexists. split; [done|]. split.
  - by rewrite <- sort_by_perm.
  - apply sorted_records. rewrite Hp. by apply due_distinct.
Qed.

(** C17: [Expire] hands over exactly the flows that are due, each once and in the
    order of their keys, keeps exactly the others untouched, and counts every
    one under one of the two reasons; the order in which the runtime ranges over
    the map changes none of it. *)
Theorem expire_exact fc now order : cache_ok fc -> ranges fc order ->
  let '(fc', out) := Expire fc now order in
  flows fc' = filter (fun kv => due fc now kv.2 = false) (flows fc) /\
  (forall r, r ∈ out <-> exists k e, flows fc !! k = Some e /\ due fc now e = true /\ record e = r) /\
  StronglySorted rec_lt out /\
  u64 (expiredActive fc' + expiredInactive fc') = u64 (expiredActive fc + expiredInactive fc + len out) /\
  forall order', ranges fc order' -> Expire fc now order' = Expire fc now order.
Proof.
  intros Hok Hr. destruct (Expire_spec fc now order Hok Hr) as (out & Heq & Hp & Hs). rewrite Heq. repeat apply conj.
  - done.
  - intros r. rewrite Hp, list_elem_of_fmap. unfold due_now. setoid_rewrite list_elem_of_filter. setoid_rewrite entries_elem. naive_solver.
  - done.
  - rewrite (len_perm _ _ Hp). cbn [expired_state expiredActive expiredInactive with_flows with_reasons].
    assert (El : len (record <$> due_now fc now) = len (due_now fc now)) by (unfold len; by rewrite length_fmap).
    rewrite El. clear El. generalize (due_now fc now). intros l. unfold u64. rewrite <- Zplus_mod. f_equal.
    cut (len l = len (filter (fun e => byActive now e = true) l) + len (filter (fun e => byActive now e = false) l)); [lia|].
    induction l as [|e l IH]; [done|]. rewrite !filter_cons. destruct (byActive now e); cbn [decide]; repeat (case_decide; try done); rewrite !len_cons; lia.
  - intros order' Hr'. destruct (Expire_spec fc now order' Hok Hr') as (out' & -> & Hp' & Hs'). f_equal.
    apply sorted_unique; [done..|]. by rewrite Hp', Hp.
Qed.

(** ** Trimming *)

Lemma trim_loop_spec target order : 0 <= target -> forall m d, (forall k, is_Some (m !! k) -> k ∈ order) ->
  let '(m', d') := trim_loop order target m d in
  m' ⊆ m /\ Z.of_nat (size m') = Z.min (Z.of_nat (size m)) target /\ d' = d + (Z.of_nat (size m) - Z.of_nat (size m')).
Proof.
  intros Ht. induction order as [|key order IH]; intros m d Hall; cbn [trim_loop].
  - assert (m = ∅) as ->.
    { apply map_empty. intros k. destruct (m !! k) eqn:E; [|done]. exfalso. eapply not_elem_of_nil, (Hall k). by eexists. }
    rewrite map_size_empty. split; [done|lia].
  - destruct (Z.of_nat (size m) <=? target) eqn:E; zbool; [split; [done|lia]|]. destruct (m !! key) as [e|] eqn:Ek.
    + specialize (IH (delete key m) (d + 1)). destruct (trim_loop order target (delete key m) (d + 1)) as [m' d'].
      destruct IH as (Hsub & Hsz & ->).
      { intros k Hk. destruct (decide (k = key)) as [->|]; [rewrite lookup_delete_eq in Hk; by destruct Hk|].
        rewrite lookup_delete_ne in Hk by done. apply Hall, list.elem_of_cons in Hk as [?|?]; done. }
      assert (Hd : size m = S (size (delete key m))).
      { rewrite map_size_delete_Some by done. assert (size m <> 0)%nat; [|lia]. intros H0%map_size_empty_inv. by subst. }
      split; [etrans; [exact Hsub|apply delete_subseteq]|]. lia.
    + apply IH. intros k Hk. assert (k <> key) by (intros ->; rewrite Ek in Hk; by destruct Hk). apply Hall, list.elem_of_cons in Hk as [?|?]; done.
Qed.

Lemma range_covers fc order k : ranges fc order -> is_Some (flows fc !! k) -> k ∈ order.
Proof.
  intros -> [e Hk]. apply list_elem_of_fmap. exists (k, e). split; [done|]. by apply elem_of_map_to_list.
Qed.

(** [TrimTo] leaves a part of the cache, of the size asked for at most. *)
Lemma TrimTo_spec fc target order : ranges fc order ->
  let '(fc', dropped) := TrimTo fc target order in
  fc' = with_flows (flows fc') fc /\ flows fc' ⊆ flows fc /\ Len fc' = Z.min (Len fc) (Z.max 0 target) /\ dropped = Len fc - Len fc'.
Proof.
  intros Hr. unfold TrimTo. set (t := if target <? 0 then 0 else target).
  assert (Ht : t = Z.max 0 target) by (subst t; destruct (target <? 0) eqn:E; zbool; lia). clearbody t. subst t.
  pose proof (trim_loop_spec (Z.max 0 target) order ltac:(lia) (flows fc) 0 (fun k => range_covers fc order k Hr)) as Hs.
  destruct (trim_loop order (Z.max 0 target) (flows fc) 0) as [m d]. unfold Len. cbn. naive_solver lia.
Qed.

(** ** What a draw yields *)

Definition profile_ok (fp : FlowProfile) : Prop :=
  0 <= SrcPortMin fp < 2 ^ 16 /\ 0 <= SrcPortMax fp < 2 ^ 16 /\ Forall (fun pw => 0 <= Port pw < 2 ^ 16) (DstPorts fp) /\
  0 <= BytesMin fp < 2 ^ 62 /\ BytesMax fp < 2 ^ 62 /\ 0 <= PktsMin fp < 2 ^ 30 /\ PktsMax fp < 2 ^ 30 /\
  0 <= DurationMinMs fp < 2 ^ 62 /\ DurationMaxMs fp < 2 ^ 62.

(** The tables of a finalised catalog that has a usable entry are of one length. *)
Definition catalog_ok (c : nbar2Catalog) : Prop :=
  0 < len (usable c) /\ Forall (fun pp => 0 <= pp.1 < 2 ^ 8 /\ 0 <= pp.2 < 2 ^ 16) (usable c) /\
  len (cumW c) = len (usable c) /\ len (hostCum c) = len (usable c) /\ len (hostTot c) = len (usable c) /\
  len (uriCum c) = len (usable c) /\ len (uriTot c) = len (usable c).

(** A record drawn for the device at [ip]. *)
Definition drawn (ip : bytes) (r : FlowRecord) : Prop := record_ok r /\ SrcIP r = default [] (To4 ip) /\ len (DstIP r) = 4.
Definition option_Forall {A} (P : A -> Prop) (o : option A) : Prop := match o with Some a => P a | None => True end.

Section draw_lemmas.
Context {R : Type} `{Rand R} {laws : RandLaws R}.

Lemma wp_Intn n (g : R) P : 0 < n -> (forall v g', 0 <= v < n -> P (v, g')) -> wp (Intn n g) P.
Proof.
  intros Hn HP. unfold Intn. destruct (n <=? 0) eqn:E; [zbool; lia|]. cbn. pose proof (rand_range n g Hn) as Hr.
  destruct (rand_n n g). by apply HP.
Qed.

Lemma wp_sample_range wrap lo hi (g : R) P :
  (forall x, 0 <= x <= Z.max hi (lo + 1) -> wrap x = x) -> 0 <= lo -> (forall v g', lo <= v < Z.max hi (lo + 1) -> P (v, g')) ->
  wp (sample_range wrap lo hi g) P.
Proof.
  intros Hw Hlo HP. unfold sample_range. destruct (hi <=? lo) eqn:E; zbool; [cbn; apply HP; lia|].
  apply wp_bind. rewrite Hw by lia. apply wp_Intn; [lia|]. intros v g' Hv. cbn. rewrite Hw by lia. apply HP. lia.
Qed.

Lemma s64_id x : MinInt64 <= x <= MaxInt64 -> s64 x = x.
Proof. unfold s64, MinInt64, MaxInt64. intros Hx. rewrite Z.mod_small; lia. Qed.
Lemma s32_small x : 0 <= x < 2 ^ 31 -> s32 x = x.
Proof. unfold s32. intros Hx. rewrite Z.mod_small; lia. Qed.

Lemma bytes_ok_be32 v : bytes_ok (be32 v).
Proof. unfold be32, u8. repeat constructor; try apply Z.mod_pos_bound; lia. Qed.

Lemma To4_ok ip a : bytes_ok ip -> To4 ip = Some a -> bytes_ok a.
Proof. unfold To4. intros Hip. repeat case_if; intros [= <-]; [done|]. by apply Forall_drop. Qed.

Lemma syntheticFlowWith_ok profile ip up proto port (g : R) :
  profile_ok profile -> bytes_ok ip -> 0 <= up < 2 ^ 32 -> 0 <= proto < 2 ^ 8 -> 0 <= port < 2 ^ 16 ->
  wp (syntheticFlowWith profile ip up proto port g) (fun '(r, _) => drawn ip r).
Proof.
  intros (Hs1 & Hs2 & _ & Hb1 & Hb2 & Hp1 & Hp2 & Hd1 & Hd2) Hip Hup Hproto Hport. unfold syntheticFlowWith.
  apply wp_bind. eapply (wp_mono _ (fun '(sp, _) => 0 <= sp < 2 ^ 16)).
  { destruct (0 <? _) eqn:E; zbool; [|done]. apply wp_bind. apply wp_Intn; [lia|]. intros v g' _. cbn. apply Z.mod_pos_bound. lia. }
  intros [sp g1] Hsp. destruct (if proto =? 1 then (0, 0) else (sp, port)) as [sp' port'] eqn:Epp.
  assert (0 <= sp' < 2 ^ 16 /\ 0 <= port' < 2 ^ 16) by (destruct (proto =? 1); injection Epp as <- <-; lia). clear Epp.
  apply wp_bind, wp_Intn; [lia|]. intros v g2 _.
  apply wp_bind, wp_sample_range; [intros x Hx; apply s64_id; unfold MinInt64, MaxInt64; lia|lia|]. intros d g3 _.
  apply wp_bind, wp_sample_range; [intros x Hx; apply s64_id; unfold MinInt64, MaxInt64; lia|lia|]. intros b g4 Hb.
  apply wp_bind, wp_sample_range; [intros x Hx; apply s32_small; lia|lia|]. intros p g5 Hp. cbn [wp].
  split; [|split; [by destruct (To4 ip)|done]]. unfold record_ok. cbn [SrcIP DstIP NextHop SrcPort DstPort Protocol TCPFlags ToS Bytes_ Packets StartMs EndMs InIface OutIface SrcAS DstAS SrcMask DstMask].
  assert (forall x, 0 <= u32 x < 2 ^ 32) by (intros; apply Z.mod_pos_bound; lia).
  assert (forall x, 0 <= u64 x < 2 ^ 64) by (intros; apply Z.mod_pos_bound; lia).
  repeat apply conj; try done; try apply H2; try apply H1; try apply bytes_ok_be32; try lia; try (repeat constructor; lia); try (case_if; lia).
  - destruct (To4 ip) eqn:E; [by eapply To4_ok|constructor].
  - case_if; [lia|]. apply H1.
Qed.

Lemma SampleProtocol_ok profile (g : R) : 0 <= fst (SampleProtocol profile g) < 2 ^ 8.
Proof. unfold SampleProtocol. destruct (rand_Float64 g). cbn. repeat case_if; lia. Qed.

Lemma dst_port_loop_ok v ports : forall cum last, Forall (fun pw => 0 <= Port pw < 2 ^ 16) ports -> 0 <= last < 2 ^ 16 ->
  0 <= dst_port_loop v cum ports last < 2 ^ 16.
Proof.
  induction ports as [|pw ports IH]; intros cum last Hp Hl; [done|]. inversion_clear Hp. cbn [dst_port_loop]. case_if; [done|]. by apply IH.
Qed.

Lemma SampleDstPort_ok profile (g : R) : profile_ok profile -> 0 <= fst (SampleDstPort profile g) < 2 ^ 16.
Proof.
  intros (_ & _ & Hp & _). unfold SampleDstPort. destruct (DstPorts profile) as [|pw l]; [cbn; lia|]. destruct (rand_Float64 g). cbn [fst].
  by apply dst_port_loop_ok.
Qed.

Lemma weight_loop_range v cum : forall i, 0 < i \/ cum <> [] -> 0 <= i -> 0 <= weight_loop v i cum < i + Z.max 1 (len cum).
Proof.
  induction cum as [|w cum IH]; intros i Hne Hi; cbn [weight_loop]; [destruct Hne as [?|?]; [|done]; lia|].
  rewrite len_cons. pose proof (len_nonneg cum). case_if; [lia|]. specialize (IH (i + 1)). destruct cum; [cbn in *|]; [lia|].
  specialize (IH ltac:(by right) ltac:(lia)). rewrite len_cons in *. pose proof (len_nonneg cum). lia.
Qed.

Lemma wp_weightedIndex cum total (g : R) P :
  (forall i g', (0 < len cum -> 0 <= i < len cum) -> P (i, g')) -> wp (weightedIndex cum total g) P.
Proof.
  intros HP. unfold weightedIndex. destruct (total <=? 0) eqn:E; zbool; [destruct (rand_Int63 g); cbn; apply HP; lia|].
  apply wp_bind, wp_Intn; [done|]. intros v g' _. cbn. apply HP. intros Hc.
  pose proof (weight_loop_range v cum 0 ltac:(right; intros ->; done) ltac:(lia)). lia.
Qed.

(** A draw from a catalog with usable entries reads inside its tables. *)
Lemma draw_ok c (g : R) : catalog_ok c -> wp (draw c g) (fun '(_, proto, port, _) => 0 <= proto < 2 ^ 8 /\ 0 <= port < 2 ^ 16).
Proof.
  intros (Hn & Hu & H1 & H2 & H3 & H4 & H5). unfold draw. apply wp_bind, wp_weightedIndex. intros i g1 Hi. specialize (Hi ltac:(lia)).
  apply wp_bind, wp_index; [lia|]. intros hc _. apply wp_bind, wp_index; [lia|]. intros ht _. apply wp_bind, wp_weightedIndex. intros h g2 _.
  apply wp_bind, wp_index; [lia|]. intros uc _. apply wp_bind, wp_index; [lia|]. intros ut _. apply wp_bind, wp_weightedIndex. intros u g3 _.
  apply wp_bind, wp_index; [lia|]. intros [proto port] Hpp. cbn [wp]. eapply (Forall_lookup_1 _ _ _ _ Hu Hpp).
Qed.

Definition jitter_bounded (fc : FlowCache) : Prop :=
  forall g : R, let j := fst (activeTimeoutJitter (activeTimeout fc) (activeJitterFraction fc) g) in - activeTimeout fc < j <= activeTimeout fc.

Lemma draw_batch_ok fc profile ip up cat : profile_ok profile -> bytes_ok ip -> 0 <= up < 2 ^ 32 -> option_Forall catalog_ok cat -> jitter_bounded fc ->
  forall n (g : R), wp (draw_batch n fc profile ip up cat g) (fun '(batch, _) =>
    length batch = n /\ Forall (fun rj => drawn ip rj.1 /\ - activeTimeout fc < rj.2 <= activeTimeout fc) batch).
Proof.
  intros Hpr Hip Hup Hcat Hj n. induction n as [|n IH]; intros g; [done|]. cbn [draw_batch].
  apply wp_bind. eapply (wp_mono _ (fun '(r, _) => drawn ip r)).
  { destruct cat as [c|].
    - unfold syntheticAVCFlow. apply wp_bind. eapply wp_mono; [by apply draw_ok|]. intros [[[ref proto] port] g1] [Hp1 Hp2].
      apply wp_bind. eapply wp_mono; [by apply syntheticFlowWith_ok|]. intros [r g2] Hr. exact Hr.
    - unfold syntheticFlow. pose proof (SampleProtocol_ok profile g). destruct (SampleProtocol profile g) as [proto g1].
      pose proof (SampleDstPort_ok profile g1 Hpr). destruct (SampleDstPort profile g1) as [port g2]. by apply syntheticFlowWith_ok. }
  intros [r g1] Hr. pose proof (Hj g1) as Hjj. cbn zeta in Hjj. destruct (activeTimeoutJitter _ _ g1) as [j g2]. cbn in Hjj.
  apply wp_bind. eapply wp_mono; [apply IH|]. intros [batch g3] [Hl Hb]. cbn. split; [by rewrite Hl|]. by constructor.
Qed.
End draw_lemmas.
Arguments jitter_bounded R {_} fc.

(** ** Generation *)

Definition timeouts_ok (fc : FlowCache) : Prop := 0 < activeTimeout fc < 2 ^ 61 /\ 0 < inactiveTimeout fc < 2 ^ 61.

Lemma recordDuration_range r : record_ok r -> 0 <= recordDuration r < 2 ^ 32 * Millisecond.
Proof.
  intros (_ & _ & _ & _ & _ & _ & _ & _ & _ & _ & Hs & He & _). unfold recordDuration, Millisecond. case_if; lia.
Qed.

Section generation.
Context {R : Type} `{Rand R} {laws : RandLaws R}.

(** A warm start puts a flow inside its own lifetime. *)
Lemma wp_warmStartOffset fc r deadline (g : R) P :
  record_ok r -> timeouts_ok fc -> 0 < deadline ->
  (forall off g', 0 <= off < Z.min deadline (recordDuration r + inactiveTimeout fc) -> P (off, g')) ->
  wp (warmStartOffset fc r deadline g) P.
Proof.
  intros Hr [Ha Hi] Hd HP. pose proof (recordDuration_range r Hr) as Hdur. unfold Millisecond in Hdur. unfold warmStartOffset.
  rewrite s64_id by (unfold MinInt64, MaxInt64; lia).
  set (life := if deadline <? recordDuration r + inactiveTimeout fc then deadline else recordDuration r + inactiveTimeout fc). assert (Hl : life = Z.min deadline (recordDuration r + inactiveTimeout fc)) by (subst life; case_if; lia).
  clearbody life. rewrite <- Hl in HP. destruct (life <=? 0) eqn:E; zbool; [lia|]. apply wp_Intn; [done|]. intros v g' Hv. by apply HP.
Qed.

(** An entry whose creation lies inside its lifetime is not due. *)
Lemma born_alive fc r now off deadline :
  0 <= inactiveTimeout fc < 2 ^ 61 -> 0 <= off < Z.min deadline (recordDuration r + inactiveTimeout fc) ->
  due fc now {| record := r; lastSeenAt := now - off + recordDuration r; activeDeadline := now - off + deadline |} = false.
Proof.
  intros Hi Ho. unfold due, byActive, byInactive, time_Sub, MinInt64, MaxInt64. cbn.
  apply orb_false_iff. split; [apply negb_false_iff, Z.ltb_lt; lia|]. apply Z.leb_gt. lia.
Qed.

Lemma insert_batch_spec ip now batch : forall fc (g : R),
  timeouts_ok fc -> Forall (fun rj => drawn ip rj.1 /\ - activeTimeout fc < rj.2 <= activeTimeout fc) batch ->
  wp (insert_batch batch now fc g) (fun '(fc', _) =>
    fc' = with_flows (flows fc') fc /\ flows fc ⊆ flows fc' /\
    Len fc' <= Z.max (Len fc) (Z.min (maxFlows fc) (Len fc + len batch)) /\
    forall k e, flows fc' !! k = Some e -> flows fc !! k = None ->
      recordKey (record e) = k /\ drawn ip (record e) /\ record e ∈ batch.*1 /\ due fc now e = false).
Proof.
  induction batch as [|[r j] batch IH]; intros fc g Ht Hb; cbn [insert_batch].
  { cbn. split; [by destruct fc|]. split; [done|]. split; [lia|]. intros k e Hk Hn. congruence. }
  apply list.Forall_cons in Hb as [[Hdr Hj] Hb]. cbn in Hdr, Hj. pose proof Hdr as [Hr _]. rewrite len_cons. pose proof (len_nonneg batch).
  destruct (maxFlows fc <=? Len fc) eqn:E; zbool.
  { cbn. split; [by destruct fc|]. split; [done|]. split; [lia|]. intros k e Hk Hn. congruence. }
  destruct (flows fc !! recordKey r) as [e0|] eqn:Ek.
  { eapply wp_mono; [by apply IH|]. intros [fc' g'] (H1' & H2' & H3' & H4'). split; [done|]. split; [done|]. split; [lia|].
    intros k e Hk Hn. destruct (H4' k e Hk Hn) as (? & ? & ? & ?). (split; [done|]; split; [done|]; split; [by right|done]). }
  assert (Hs : s64 (activeTimeout fc + j) = activeTimeout fc + j) by (destruct Ht; apply s64_id; unfold MinInt64, MaxInt64; lia).
  rewrite Hs. apply wp_bind. eapply (wp_mono _ (fun '(off, _) => 0 <= off < Z.min (activeTimeout fc + j) (recordDuration r + inactiveTimeout fc))).
  { pose proof (recordDuration_range r Hr). destruct (warmed fc); [destruct Ht; cbn; lia|]. by apply wp_warmStartOffset; [..|lia|]. }
  intros [off g1] Hoff. set (e1 := Build_flowEntry _ _ _). eapply wp_mono; [by apply IH|]. intros [fc' g'] (H1' & H2' & H3' & H4').
  assert (Hlen : Len (with_flows (<[recordKey r:=e1]> (flows fc)) fc) = Len fc + 1) by (unfold Len; cbn; rewrite map_size_insert_None by done; lia).
  rewrite Hlen in H3'. cbn in H1', H2', H3', H4'. split; [done|]. split; [etrans; [by apply insert_subseteq|exact H2']|]. split; [lia|].
  intros k e Hk Hn. destruct (decide (k = recordKey r)) as [->|Hne].
  - assert (e = e1) as -> by (eapply lookup_weaken in H2'; [|apply lookup_insert_eq]; congruence).
    split; [done|]. split; [done|]. split; [by left|]. destruct Ht. apply born_alive; [lia|done].
  - destruct (H4' k e Hk) as (? & ? & ? & ?); [by rewrite lookup_insert_ne|]. (split; [done|]; split; [done|]; split; [by right|done]).
Qed.

Lemma GenerateFlowsFrom_spec fc profile target ip now up cat (g : R) :
  profile_ok profile -> bytes_ok ip -> 0 <= up < 2 ^ 32 -> option_Forall catalog_ok cat -> timeouts_ok fc -> jitter_bounded R fc ->
  wp (GenerateFlowsFrom fc profile target ip now up cat g) (fun '(fc', _) =>
    (fc' = fc \/ fc' = with_warmed (with_flows (flows fc') fc)) /\ flows fc ⊆ flows fc' /\
    Len fc' <= Z.max (Len fc) (Z.min (maxFlows fc) target) /\
    forall k e, flows fc' !! k = Some e -> flows fc !! k = None -> recordKey (record e) = k /\ drawn ip (record e) /\ due fc now e = false).
Proof.
  intros Hp Hip Hup Hcat Ht Hj. unfold GenerateFlowsFrom. destruct (target - Len fc <=? 0) eqn:E; zbool.
  { cbn. split; [by left|]. split; [done|]. split; [lia|]. intros k e Hk Hn. congruence. }
  apply wp_bind. eapply wp_mono; [by apply draw_batch_ok|]. intros [batch g1] [Hl Hb].
  apply wp_bind. eapply wp_mono; [by apply insert_batch_spec|]. intros [fc' g2] (H1' & H2' & H3' & H4'). cbn [wp].
  split; [right; rewrite H1'; done|]. split; [done|]. split; [unfold Len, len in *; cbn in *; rewrite Hl in H3'; lia|].
  intros k e Hk Hn. destruct (H4' k e Hk Hn) as (? & ? & _ & ?). done.
Qed.
End generation.


(** ** The invariant of a cache in use *)

Inductive cache_step {R} `{Rand R} (fc : FlowCache) : FlowCache -> Prop :=
| step_Add r now : record_ok r -> cache_step fc (Add fc r now)
| step_Expire now order fc' out : ranges fc order -> Expire fc now order = (fc', out) -> cache_step fc fc'
| step_TrimTo target order fc' dropped : ranges fc order -> TrimTo fc target order = (fc', dropped) -> cache_step fc fc'
| step_Generate profile target ip now up cat (g g' : R) fc' :
    profile_ok profile -> bytes_ok ip -> 0 <= up < 2 ^ 32 -> option_Forall catalog_ok cat ->
    GenerateFlowsFrom fc profile target ip now up cat g = Ok (fc', g') -> cache_step fc fc'.

Lemma accumulate_ok e r now k : recordKey (record e) = k /\ record_ok (record e) -> record_ok r ->
  recordKey (record (accumulate e r now)) = k /\ record_ok (record (accumulate e r now)).
Proof.
  intros [Hk He] Hr. split; [exact Hk|]. unfold record_ok in *. cbn.
  assert (0 <= Z.lor (TCPFlags (record e)) (TCPFlags r) < 2 ^ 8).
  { assert (Hb : forall x, 0 <= x < 2 ^ 8 -> Z.land x 255 = x) by (intros x Hx; rewrite (Z.land_ones x 8) by lia; apply Z.mod_small; lia).
    assert (E : Z.land (Z.lor (TCPFlags (record e)) (TCPFlags r)) 255 = Z.lor (TCPFlags (record e)) (TCPFlags r)).
    { rewrite Z.land_lor_distr_l, !Hb by tauto. done. }
    rewrite <- E, (Z.land_ones _ 8) by lia. apply Z.mod_pos_bound. lia. }
  assert (forall x, 0 <= u32 x < 2 ^ 32) by (intros; apply Z.mod_pos_bound; lia).
  assert (forall x, 0 <= u64 x < 2 ^ 64) by (intros; apply Z.mod_pos_bound; lia). intuition (first [apply H0 | apply H1 | lia]).
Qed.

Lemma Add_ok fc r now : record_ok r -> cache_ok fc -> cache_ok (Add fc r now).
Proof.
  intros Hr [Hk Hc Ha Hi]. unfold Add. destruct (flows fc !! recordKey r) as [e|] eqn:E.
  - constructor; cbn; [|unfold Len in *; cbn; rewrite map_size_insert_Some by (by eexists); done|done|done].
    apply map_Forall_insert_2; [|done]. apply accumulate_ok; [by apply Hk in E|done].
  - destruct (maxFlows fc <=? Len fc) eqn:E'; zbool; [done|].
    constructor; cbn; [|unfold Len in *; cbn; rewrite map_size_insert_None by done; lia|done|done].
    apply map_Forall_insert_2; [done|done].
Qed.

Lemma sub_ok fc m : m ⊆ flows fc -> cache_ok fc -> cache_ok (with_flows m fc).
Proof.
  intros Hm [Hk Hc Ha Hi]. constructor; cbn; [|unfold Len in *; cbn; apply map_subseteq_size in Hm; lia|done|done].
  intros k e He. apply Hk. by eapply lookup_weaken.
Qed.

(** What every operation keeps. *)
Definition cache_inv R `{Rand R} (fc : FlowCache) : Prop := cache_ok fc /\ timeouts_ok fc /\ jitter_bounded R fc.

Lemma cache_step_inv {R} `{RandLaws R} fc fc' : cache_step (R := R) fc fc' -> cache_inv R fc -> cache_inv R fc'.
Proof.
  intros Hst (Hok & Ht & Hj). destruct Hst as [r now Hr|now order fc' out Hr Heq|target order fc' dropped Hr Heq|profile target ip now up cat g g' fc' Hp Hip Hup Hcat Heq].
  - split; [by apply Add_ok|]. unfold Add. destruct (flows fc !! _); [done|]. by destruct (_ <=? _).
  - destruct (Expire_spec fc now order Hok Hr) as (out' & Heq' & _ & _). rewrite Heq' in Heq. injection Heq as <- <-.
    split; [|done]. destruct (sub_ok fc _ (map_filter_subseteq (fun kv => due fc now kv.2 = false) (flows fc)) Hok) as [Hk Hc _ _].
    constructor; [done|done|cbn; apply Z.mod_pos_bound; lia..].
  - pose proof (TrimTo_spec fc target order Hr) as Hs. rewrite Heq in Hs. destruct Hs as (-> & Hsub & _). cbn in Hsub. split; [by apply sub_ok|done].
  - pose proof (GenerateFlowsFrom_spec fc profile target ip now up cat g Hp Hip Hup Hcat Ht Hj) as Hs. rewrite Heq in Hs.
    destruct Hs as ([->| E] & Hsub & Hlen & Hnew); [done|]. rewrite E in *. split; [|done]. destruct Hok as [Hk Hc Ha Hi].
    constructor; [|unfold Len in *; cbn in *; lia|done|done]. cbn. intros k e He. cbn in *. destruct (flows fc !! k) as [e'|] eqn:E'.
    + assert (e' = e) as <- by (eapply lookup_weaken in E'; [|exact Hsub]; congruence). by apply Hk.
    + destruct (Hnew k e He E') as (? & [? _] & _). done.
Qed.

Lemma NewFlowCache_ok active inactive max : cache_ok (NewFlowCache active inactive max).
Proof. constructor; [by apply map_Forall_empty|unfold Len; cbn; rewrite map_size_empty; lia|cbn; lia..]. Qed.

(** Whatever is done to a new cache, in whatever order, each flow stays under
    its own key, the cap holds and the tallies are counters. *)
Theorem cache_reachable_ok {R} `{RandLaws R} active inactive max fc :
  let fc0 := NewFlowCache active inactive max in
  timeouts_ok fc0 -> jitter_bounded R fc0 -> rtc (cache_step (R := R)) fc0 fc -> cache_ok fc.
Proof.
  intros fc0 Ht Hj Hr. enough (Hi : cache_inv R fc) by apply Hi.
  assert (Hinit : cache_inv R fc0) by (split; [apply NewFlowCache_ok|done]). clear Ht Hj. clearbody fc0. revert Hinit.
  induction Hr as [|x y z Hxy _ IH]; [done|]. intros Hx. apply IH. by eapply cache_step_inv.
Qed.

(** ** Instances *)

(** A source that cycles, for the samples. *)
Definition cycle_rand : Rand Z := {|
  rand_Int63 g := (g, g + 1);
  rand_n n g := (g mod n, g * 5 + 3);
  rand_Float64 g := (if Z.even g then S754_finite false 4503599627370496 (-54) else S754_finite false 6755399441055744 (-53), g + 1)
|}.
#[local] Existing Instance cycle_rand.
#[local] Instance cycle_laws : RandLaws Z.
Proof. intros n g Hn. cbn. by apply Z.mod_pos_bound. Qed.

Definition sampleProfile : FlowProfile :=
  {| TCPWeight := S754_finite false 5854679515581645 (-53); UDPWeight := S754_finite false 5404319552844596 (-54); ICMPWeight := S754_zero false;
     DstPorts := [{| Port := 443; Weight := f_of 1 |}]; SrcPortMin := 49152; SrcPortMax := 65535; BytesMin := 64; BytesMax := 1000000;
     PktsMin := 1; PktsMax := 1000; DurationMinMs := 1000; DurationMaxMs := 60000; ConcurrentFlows := 3; MaxFlows := 4 |}.
Definition sampleCache : FlowCache := NewFlowCache (30 * 1000 * Millisecond) (15 * 1000 * Millisecond) 4.

Lemma sampleProfile_ok : profile_ok sampleProfile.
Proof. unfold profile_ok. cbn. repeat split; try lia. repeat constructor; cbn; lia. Qed.

Lemma cycle_jitter : jitter_bounded Z sampleCache.
Proof.
  intros g. unfold sampleCache, activeTimeoutJitter. cbn [activeTimeout activeJitterFraction NewFlowCache rand_Float64 cycle_rand].
  destruct (Z.even g); vm_compute; split; congruence.
Qed.


Definition sampleRecord (port : Z) : FlowRecord :=
  {| SrcIP := [10; 0; 0; 1]; DstIP := [10; 9; 8; 7]; NextHop := [0; 0; 0; 0]; SrcPort := 50000; DstPort := port; Protocol := 6; TCPFlags := 0x18;
     ToS := 0; Bytes_ := 1500; Packets := 3; StartMs := 0; EndMs := 5; InIface := 1; OutIface := 2; SrcAS := 0; DstAS := 0; SrcMask := 24; DstMask := 24;
     AVC := {| ref_App := 0; ref_Host := 0; ref_URI := 0 |} |}.
(** Two flows last seen at 0 and one 20 seconds later. *)
Definition agedCache : FlowCache := Add (Add (Add sampleCache (sampleRecord 443) 0) (sampleRecord 80) 0) (sampleRecord 22) (20000 * Millisecond).

Lemma agedCache_ok : cache_ok agedCache.
Proof.
  assert (Hr : forall port, 0 <= port < 2 ^ 16 -> record_ok (sampleRecord port)).
  { intros port Hp. unfold record_ok. cbn. repeat split; try lia; repeat constructor; lia. }
  unfold agedCache. repeat (apply Add_ok; [apply Hr; lia|]). apply NewFlowCache_ok.
Qed.

Definition agedNow : Z := 25000 * Millisecond.
Definition agedOrder : list FlowKey := (map_to_list (flows agedCache)).*1.

Lemma expire_exact_witness :
  (let '(fc', out) := Expire agedCache agedNow agedOrder in
   flows fc' = filter (fun kv => due agedCache agedNow kv.2 = false) (flows agedCache) /\
   (forall r, r ∈ out <-> exists k e, flows agedCache !! k = Some e /\ due agedCache agedNow e = true /\ record e = r) /\
   StronglySorted rec_lt out /\
   u64 (expiredActive fc' + expiredInactive fc') = u64 (expiredActive agedCache + expiredInactive agedCache + len out) /\
   forall order', ranges agedCache order' -> Expire agedCache agedNow order' = Expire agedCache agedNow agedOrder) /\
  map DstPort (snd (Expire agedCache agedNow agedOrder)) = [80; 443] /\ ExpiryReasons (fst (Expire agedCache agedNow agedOrder)) = (0, 2).
Proof.
  split; [|split; vm_compute; reflexivity].
  apply (expire_exact agedCache agedNow agedOrder); [apply agedCache_ok|unfold ranges; reflexivity].
Defined.
