(* ===== verification/Scenario.v ===== *)
(** * The gate and the ledger of a load-test scenario (scenario_gate.go, scenario_ledger.go, scenario_drain.go, fidelity.go)

    A scenario measures what a fleet sends in a window [T0, T1).  Each participant
    holds a handle: the gate decides whether a fire may go out, the drain barrier
    admits it, and the ledger counts its outcome.  The counters are atomics of 64
    bits; the handle is a value here, and an operation returns the handle it
    leaves. *)

From stdpp Require Import gmap.
From S2P Require Import Prelude GoStrings Ber FlowWire FlowCache FlowTemplates FlowCollect FlowAvc.

Inductive scenarioPhase := phaseSubmitted | phaseArmed | phaseRunning | phaseStopped | phaseCanceled | phaseAborted.
Inductive fireSource := sourceBackground | sourceScenario | sourceStateDriven | sourceOnDemand.
Inductive gateDecision := gateProceed | gateSuppressCounted | gateSuppressSilent.
#[export] Instance fireSource_eq : EqDecision fireSource.
Proof. solve_decision. Defined.

Record gateState := { gs_phase : scenarioPhase; gs_t0 : Z; gs_t1 : Z }.

Definition scenarioSubWindowCount : Z := 10.

(** Keyed by protocol, destination port and application. *)
Definition appKey : Type := Z * Z * Z.
Inductive l7Field := l7FieldHost | l7FieldURI.
#[export] Instance l7Field_eq : EqDecision l7Field.
Proof. solve_decision. Defined.
#[export] Instance l7Field_countable : Countable l7Field.
Proof.
  refine (inj_countable' (fun f => match f with l7FieldHost => true | l7FieldURI => false end) (fun b : bool => if b then l7FieldHost else l7FieldURI) _).
  by intros [].
Defined.
Definition l7Key : Type := Z * l7Field * bytes.
Record l7Counters := { l7_records : Z; l7_bytes : Z; l7_packets : Z; l7_inWindowBytes : Z }.
Record appCounters := { ap_records : Z; ap_bytes : Z; ap_packets : Z; ap_inWindowBytes : Z; ap_subWindowBytes : list Z }.

Record ledgerEntry := {
  emitted : Z;
  inWindow : Z;
  drained : Z;
  suppressedPreWindow : Z;
  sendFailures : Z;
  dropped : Z;
  backgroundSuppressed : Z;
  subWindows : list Z;
  apps : gmap appKey appCounters;
  l7 : gmap l7Key l7Counters
}.
Definition newLedger : ledgerEntry :=
  {| emitted := 0; inWindow := 0; drained := 0; suppressedPreWindow := 0; sendFailures := 0; dropped := 0; backgroundSuppressed := 0;
     subWindows := repeat 0 10; apps := ∅; l7 := ∅ |}.

(** [x.Add(n)] on one of the counters. *)
Inductive counter := c_emitted | c_inWindow | c_drain | c_suppressed | c_failures | c_dropped | c_background.
Definition add (c : counter) (n : Z) (l : ledgerEntry) : ledgerEntry :=
  let a k x := if match c, k with c_emitted, c_emitted | c_inWindow, c_inWindow | c_drain, c_drain | c_suppressed, c_suppressed
                               | c_failures, c_failures | c_dropped, c_dropped | c_background, c_background => true | _, _ => false end
               then u64 (x + n) else x in
  {| emitted := a c_emitted (emitted l); inWindow := a c_inWindow (inWindow l); drained := a c_drain (drained l);
     suppressedPreWindow := a c_suppressed (suppressedPreWindow l); sendFailures := a c_failures (sendFailures l); dropped := a c_dropped (dropped l);
     backgroundSuppressed := a c_background (backgroundSuppressed l); subWindows := subWindows l; apps := apps l; l7 := l7 l |}.
Definition with_subWindows (ws : list Z) (l : ledgerEntry) : ledgerEntry :=
  {| emitted := emitted l; inWindow := inWindow l; drained := drained l; suppressedPreWindow := suppressedPreWindow l; sendFailures := sendFailures l;
     dropped := dropped l; backgroundSuppressed := backgroundSuppressed l; subWindows := ws; apps := apps l; l7 := l7 l |}.
Definition with_apps (m : gmap appKey appCounters) (m7 : gmap l7Key l7Counters) (l : ledgerEntry) : ledgerEntry :=
  {| emitted := emitted l; inWindow := inWindow l; drained := drained l; suppressedPreWindow := suppressedPreWindow l; sendFailures := sendFailures l;
     dropped := dropped l; backgroundSuppressed := backgroundSuppressed l; subWindows := subWindows l; apps := m; l7 := m7 |}.

(** [ws[i].Add(n)]: an index outside the array panics. *)
Definition add_at (ws : list Z) (i n : Z) : res (list Z) :=
  let! x := index ws i in Ok (<[Z.to_nat i := u64 (x + n)]> ws).

Record drainGate := { closed : bool; inflight : Z }.

Record scenarioPart := {
  gate : option gateState;
  ledger : ledgerEntry;
  drain : drainGate;
  countApps : bool;
  part_nbar2 : avcCatalog;
  owner : bytes
}.
Definition with_ledger (l : ledgerEntry) (p : scenarioPart) : scenarioPart :=
  {| gate := gate p; ledger := l; drain := drain p; countApps := countApps p; part_nbar2 := part_nbar2 p; owner := owner p |}.
Definition with_drain (d : drainGate) (p : scenarioPart) : scenarioPart :=
  {| gate := gate p; ledger := ledger p; drain := d; countApps := countApps p; part_nbar2 := part_nbar2 p; owner := owner p |}.
Definition count (c : counter) (n : Z) (p : scenarioPart) : scenarioPart := with_ledger (add c n (ledger p)) p.

Definition admitFire (d : drainGate) : drainGate * bool :=
  if closed d then (d, false) else ({| closed := false; inflight := inflight d + 1 |}, true).
Definition leave (d : drainGate) : drainGate := {| closed := closed d; inflight := inflight d - 1 |}.

Definition subWindowIndex (gs : gateState) (t : Z) : Z :=
  let span := time_Sub (gs_t1 gs) (gs_t0 gs) in
  if span <=? 0 then -1 else
  let off := time_Sub t (gs_t0 gs) in
  let off := if off <? 0 then 0 else off in
  let idx := Z.quot (s64 (off * scenarioSubWindowCount)) span in
  if idx <? 0 then 0 else if scenarioSubWindowCount <=? idx then scenarioSubWindowCount - 1 else idx.

Definition classify (p : scenarioPart) (t : Z) : bool * Z :=
  match gate p with
  | None => (false, -1)
  | Some gs => if negb (t <? gs_t1 gs) then (false, -1) else (true, subWindowIndex gs t)
  end.

Definition decide_fire (p : scenarioPart) (src : fireSource) (t : Z) : scenarioPart * gateDecision :=
  match gate p with
  | None => (p, gateSuppressSilent)
  | Some gs =>
      if bool_decide (src = sourceBackground) then (count c_background 1 p, gateSuppressSilent)
      else match gs_phase gs with
           | phaseArmed => (p, if bool_decide (src = sourceScenario) then gateSuppressSilent else gateSuppressCounted)
           | phaseRunning => (p, if t <? gs_t1 gs then gateProceed else gateSuppressSilent)
           | _ => (p, gateSuppressSilent)
           end
  end.

(** [p.bucketFor(t).Add(1)]. *)
Definition bucket_one (p : scenarioPart) (t : Z) : res scenarioPart :=
  let '(inWin, subIdx) := classify p t in
  if inWin then
    let! ws := (if 0 <=? subIdx then add_at (subWindows (ledger p)) subIdx 1 else Ok (subWindows (ledger p))) in
    Ok (count c_inWindow 1 (with_ledger (with_subWindows ws (ledger p)) p))
  else Ok (count c_drain 1 p).

Definition zeroApp : appCounters := {| ap_records := 0; ap_bytes := 0; ap_packets := 0; ap_inWindowBytes := 0; ap_subWindowBytes := repeat 0 10 |}.
Definition zeroL7 : l7Counters := {| l7_records := 0; l7_bytes := 0; l7_packets := 0; l7_inWindowBytes := 0 |}.

Definition addL7 (m : gmap l7Key l7Counters) (k : l7Key) (r : FlowRecord) (inWin : bool) : gmap l7Key l7Counters :=
  let c := default zeroL7 (m !! k) in
  <[k := {| l7_records := u64 (l7_records c + 1); l7_bytes := u64 (l7_bytes c + Bytes_ r); l7_packets := u64 (l7_packets c + Packets r);
            l7_inWindowBytes := if inWin then u64 (l7_inWindowBytes c + Bytes_ r) else l7_inWindowBytes c |}]> m.

Definition app_key (cat : avcCatalog) (r : FlowRecord) : appKey :=
  (Protocol r, DstPort r, match App cat (ref_App (AVC r)) with Some app => app_ID app | None => 0 end).

(** One record of a batch, into the application tally and the layer-7 tally. *)
Definition addApp (cat : avcCatalog) (inWin : bool) (subIdx : Z) (st : gmap appKey appCounters * gmap l7Key l7Counters) (r : FlowRecord)
    : res (gmap appKey appCounters * gmap l7Key l7Counters) :=
  let '(m, m7) := st in
  let app := App cat (ref_App (AVC r)) in
  let k := app_key cat r in
  let c := default zeroApp (m !! k) in
  let! sub := (if 0 <=? subIdx then add_at (ap_subWindowBytes c) subIdx (Bytes_ r) else Ok (ap_subWindowBytes c)) in
  let m := <[k := {| ap_records := u64 (ap_records c + 1); ap_bytes := u64 (ap_bytes c + Bytes_ r); ap_packets := u64 (ap_packets c + Packets r);
                     ap_inWindowBytes := if inWin then u64 (ap_inWindowBytes c + Bytes_ r) else ap_inWindowBytes c; ap_subWindowBytes := sub |}]> m in
  match app with
  | None => Ok (m, m7)
  | Some app =>
      let h := ref_Host (AVC r) in
      let m7 := if (0 <? h) && (h <=? len (app_Hosts app)) then addL7 m7 (app_ID app, l7FieldHost, default [] (app_Hosts app !! Z.to_nat (h - 1))) r inWin else m7 in
      let u := ref_URI (AVC r) in
      let m7 := if (0 <? u) && (u <=? len (app_URIs app)) then addL7 m7 (app_ID app, l7FieldURI, default [] (app_URIs app !! Z.to_nat (u - 1))) r inWin else m7 in
      Ok (m, m7)
  end.
Fixpoint addAppBatch (cat : avcCatalog) (inWin : bool) (subIdx : Z) (st : gmap appKey appCounters * gmap l7Key l7Counters) (batch : list FlowRecord)
    : res (gmap appKey appCounters * gmap l7Key l7Counters) :=
  match batch with
  | [] => Ok st
  | r :: batch' => let! st := addApp cat inWin subIdx st r in addAppBatch cat inWin subIdx st batch'
  end.

Definition bucketFlowBatch (p : scenarioPart) (t : Z) (batch : list FlowRecord) : res scenarioPart :=
  let n := len batch in
  let '(inWin, subIdx) := classify p t in
  let! p := (if inWin then
               let! ws := (if 0 <=? subIdx then add_at (subWindows (ledger p)) subIdx n else Ok (subWindows (ledger p))) in
               Ok (count c_inWindow n (with_ledger (with_subWindows ws (ledger p)) p))
             else Ok (count c_drain n p)) in
  if countApps p then
    let! (m, m7) := addAppBatch (part_nbar2 p) inWin subIdx (apps (ledger p), l7 (ledger p)) batch in
    Ok (with_ledger (with_apps m m7 (ledger p)) p)
  else Ok p.

Definition identityHolds (l : ledgerEntry) : bool :=
  let sent := u64 (inWindow l + drained l) in
  emitted l =? u64 (sent + sendFailures l + dropped l + suppressedPreWindow l).

(** One compare-and-swap of a claim or a release that finds no race: the slot
    after it, and whether it took. *)
Definition claimScenPart (slot : option scenarioPart) (part : scenarioPart) : option scenarioPart * (bool * bytes) :=
  match slot with
  | None => (Some part, (true, []))
  | Some cur => if beq (owner cur) (owner part) then (Some part, (true, [])) else (slot, (false, owner cur))
  end.
Definition releaseScenPart (slot : option scenarioPart) (who : bytes) : option scenarioPart * bool :=
  match slot with
  | None => (slot, false)
  | Some cur => if negb (beq (owner cur) who) then (slot, false) else (None, true)
  end.

(** The fleet-wide flag, and whether a fire of this source is muted by it. *)
Definition fidelityMutesBackground (fidelitySilent : bool) (src : fireSource) : bool :=
  fidelitySilent && (bool_decide (src = sourceBackground) || bool_decide (src = sourceStateDriven)).

(** ** The ledger balances *)

(** Equal as counters of 64 bits. *)
Definition eqm (a b : Z) : Prop := exists q, a = b + q * 2 ^ 64.
Lemma u64_eqm x : exists q, u64 x = x + q * 2 ^ 64.
Proof. unfold u64. exists (- (x / 2 ^ 64)). pose proof (Z.div_mod x (2 ^ 64)). lia. Qed.

Definition sum (l : list Z) : Z := fold_right Z.add 0 l.
(** What was generated is sent, failed, dropped or suppressed. *)
Definition balanced (l : ledgerEntry) : Prop := eqm (emitted l) (inWindow l + drained l + sendFailures l + dropped l + suppressedPreWindow l).

Record ledger_ok (l : ledgerEntry) : Prop := {
  lk_windows : length (subWindows l) = 10%nat;
  lk_apps : map_Forall (fun _ c => length (ap_subWindowBytes c) = 10%nat) (apps l);
  lk_sum : eqm (sum (subWindows l)) (inWindow l);
  lk_balanced : balanced l
}.

Lemma identity_holds l : 0 <= emitted l < 2 ^ 64 -> balanced l -> identityHolds l = true.
Proof.
  intros He [q Hq]. unfold identityHolds. apply Z.eqb_eq. unfold u64.
  replace ((inWindow l + drained l) mod 2 ^ 64 + sendFailures l + dropped l + suppressedPreWindow l) with ((inWindow l + drained l) mod 2 ^ 64 + (sendFailures l + dropped l + suppressedPreWindow l)) by lia.
  rewrite Zplus_mod_idemp_l. rewrite <- (Z.mod_small (emitted l) (2 ^ 64)) by done. rewrite Hq, Z.mod_add by done. f_equal. lia.
Qed.

Lemma sum_insert i x n : forall ws, ws !! i = Some x -> sum (<[i := n]> ws) = sum ws - x + n.
Proof.
  induction i as [|i IH]; intros [|y ws] Hi; try done; cbn in *; [injection Hi as ->; lia|]. unfold sum in IH. rewrite IH by done. lia.
Qed.

Lemma wp_add_at ws i n (P : list Z -> Prop) : 0 <= i < len ws ->
  (forall ws', length ws' = length ws -> eqm (sum ws') (sum ws + n) -> P ws') -> wp (add_at ws i n) P.
Proof.
  intros Hi HP. unfold add_at. apply wp_bind, wp_index; [done|]. intros x Hx. cbn. apply HP; [apply length_insert|].
  rewrite (sum_insert _ x) by done. destruct (u64_eqm (x + n)) as [q ->]. exists q. lia.
Qed.

Lemma subWindowIndex_range gs t : gs_t0 gs < gs_t1 gs -> 0 <= subWindowIndex gs t < 10.
Proof.
  intros Hw. unfold subWindowIndex, scenarioSubWindowCount. cbv zeta. destruct (_ <=? 0) eqn:E; zbool; [unfold time_Sub, MinInt64, MaxInt64 in E; lia|].
  repeat case_if; lia.
Qed.
Lemma subWindowIndex_low gs t : subWindowIndex gs t < 10.
Proof. unfold subWindowIndex, scenarioSubWindowCount. cbv zeta. repeat case_if; lia. Qed.

(** The window is not empty. *)
Definition gate_ok (p : scenarioPart) : Prop := match gate p with Some gs => gs_t0 gs < gs_t1 gs | None => True end.

Lemma classify_ok p t : gate_ok p -> let '(inWin, subIdx) := classify p t in if inWin then 0 <= subIdx < 10 else subIdx = -1.
Proof.
  unfold gate_ok, classify. destruct (gate p) as [gs|]; [|done]. intros Hg. destruct (negb _); [done|]. by apply subWindowIndex_range.
Qed.

Lemma addAppBatch_ok cat inWin subIdx batch : subIdx < 10 -> forall m m7, map_Forall (fun _ c => length (ap_subWindowBytes c) = 10%nat) m ->
  wp (addAppBatch cat inWin subIdx (m, m7) batch) (fun '(m', _) => map_Forall (fun _ c => length (ap_subWindowBytes c) = 10%nat) m').
Proof.
  intros Hs. induction batch as [|r batch IH]; intros m m7 Hm; [done|]. cbn [addAppBatch]. apply wp_bind.
  eapply (wp_mono _ (fun '(m', _) => map_Forall (fun _ c => length (ap_subWindowBytes c) = 10%nat) m')); [|intros [m' m7'] Hm'; by apply IH].
  unfold addApp. apply wp_bind. set (c := default zeroApp (m !! app_key cat r)).
  assert (Hc : length (ap_subWindowBytes c) = 10%nat) by (unfold c; destruct (m !! app_key cat r) eqn:E; [by apply Hm in E|done]). clearbody c.
  eapply (wp_mono _ (fun ws => length ws = 10%nat)).
  { destruct (0 <=? subIdx) eqn:E; zbool; [|done]. apply wp_add_at; [unfold len; lia|]. intros ws' Hw _. lia. }
  intros sub Hsub. cbv zeta. destruct (App cat (ref_App (AVC r))) as [app|]; cbn [wp]; by apply map_Forall_insert_2.
Qed.

(** A batch that was written is counted once, in the window or in the drain. *)
Lemma bucketFlowBatch_shape p t batch :
  gate_ok p -> length (subWindows (ledger p)) = 10%nat -> map_Forall (fun _ c => length (ap_subWindowBytes c) = 10%nat) (apps (ledger p)) ->
  wp (bucketFlowBatch p t batch) (fun p' => exists ws m m7, p' = with_ledger (with_apps m m7 (with_subWindows ws (add (if (classify p t).1 then c_inWindow else c_drain) (len batch) (ledger p)))) p /\
    length ws = 10%nat /\ map_Forall (fun _ c => length (ap_subWindowBytes c) = 10%nat) m /\
    eqm (sum ws) (sum (subWindows (ledger p)) + if (classify p t).1 then len batch else 0)).
Proof.
  intros Hg Hw Ha. pose proof (classify_ok p t Hg) as Hc. unfold bucketFlowBatch. destruct (classify p t) as [inWin subIdx]. cbn [fst]. apply wp_bind.
  eapply (wp_mono _ (fun p' => exists ws, p' = with_ledger (with_subWindows ws (add (if inWin then c_inWindow else c_drain) (len batch) (ledger p))) p /\
    length ws = 10%nat /\ eqm (sum ws) (sum (subWindows (ledger p)) + if inWin then len batch else 0))).
  { destruct inWin.
    - apply wp_bind. destruct (0 <=? subIdx) eqn:E; zbool; [|lia]. apply wp_add_at; [unfold len; lia|]. intros ws Hl Hs. cbn [wp]. exists ws.
      split; [done|]. split; [lia|done].
    - cbn [wp]. exists (subWindows (ledger p)). split; [done|]. split; [done|]. exists 0. lia. }
  intros p1 (ws & -> & Hl & Hs). destruct (countApps _).
  - apply wp_bind. eapply wp_mono; [apply addAppBatch_ok; [|exact Ha]|].
    { destruct inWin; lia. }
    intros [m m7] Hm. cbn [wp]. exists ws, m, m7. done.
  - cbn [wp]. exists ws, (apps (ledger p)), (l7 (ledger p)). done.
Qed.

(** Generated and accounted for: the ledger stays balanced. *)
Lemma add_balanced l c n : balanced l -> match c with c_inWindow | c_drain | c_failures | c_dropped | c_suppressed => True | _ => False end ->
  balanced (add c n (add c_emitted n l)).
Proof.
  intros [q Hq] Hc. destruct (u64_eqm (emitted l + n)) as [q1 H1]. unfold balanced, eqm.
  destruct c; try done; cbn; rewrite H1, Hq; (match goal with |- context [u64 (?x + n)] => destruct (u64_eqm (x + n)) as [q2 H2] end); rewrite H2; exists (q + q1 - q2); lia.
Qed.

(** ** Claims on a device *)

(** No claim or release takes a device from another scenario. *)
Lemma claim_exclusive slot part : let '(slot', (ok, holder)) := claimScenPart slot part in
  if ok then slot' = Some part else slot' = slot /\ exists cur, slot = Some cur /\ owner cur = holder /\ owner cur <> owner part.
Proof.
  unfold claimScenPart. destruct slot as [cur|]; [|done]. unfold beq. case_bool_decide; [done|]. split; [done|]. by exists cur.
Qed.
Lemma release_own slot who : let '(slot', ok) := releaseScenPart slot who in
  if ok then slot' = None /\ exists cur, slot = Some cur /\ owner cur = who else slot' = slot.
Proof. unfold releaseScenPart. destruct slot as [cur|]; [|done]. unfold beq. case_bool_decide; cbn; [|done]. split; [done|]. by exists cur. Qed.
