(* ===== verification/FlowTick.v ===== *)
(** * The tick of a flow exporter (flow_exporter.go, flow_tick_phase.go)

    One tick trims, expires and refills the cache, asks the scenario gate, and
    paginates what is due into datagrams: flow records, sFlow counters, interface
    option tables and application tables.  [FlowEncoder] is the interface the five
    encoders satisfy, with the narrower interfaces a tick asserts for as options.
    The kernel's answer to a write and the wall clock are functions of the number
    of datagrams written so far; the log of the tick is what it handed to the
    kernel, with that answer. *)

From stdpp Require Import gmap.
From S2P Require Import Prelude GoStrings Ber Oid TypedValue Request Response.
From S2P Require Import FlowWire FlowTemplates FlowCollect FlowV5 FlowSflow FlowAvc FlowCache Scenario.

(** ** The interface *)

Record FlowEncoder := {
  (** [EncodePacket] at a wall clock: the buffer, and the length or an error. *)
  enc_EncodePacket : Z -> Z -> Z -> Z -> list FlowRecord -> bool -> bytes -> res (bytes * option Z);
  enc_PacketSizes : Z * Z * Z;
  enc_SeqIncrement : Z -> Z;
  enc_MaxRecordSize : Z;
  enc_TrailingPadBytes : Z -> Z;
  enc_MaxRecordsPerDatagram : Z;
  (** [encoder.(SFlowEncoder)] *)
  enc_sflow : bool;
  (** [encoder.(measuredFlowEncoder)]: length, consumed, dropped. *)
  enc_measured : option (Z -> Z -> Z -> Z -> list FlowRecord -> bool -> bytes -> res (bytes * option (Z * Z * Z)));
  (** [encoder.(flowOptionsEncoder)]: length, consumed. *)
  enc_options : option (Z -> Z -> Z -> Z -> bytes -> list flowOptionIface -> bytes -> res (bytes * option (Z * Z)));
  (** [encoder.(appTableEncoder)]: the applications, and the encoder. *)
  enc_appTable : option (list avcApplication * (Z -> Z -> Z -> list avcApplication -> bytes -> res (bytes * option (Z * Z))))
}.

Definition NetFlow5Encoder : FlowEncoder :=
  {| enc_EncodePacket wall dom seq up rs tmpl buf := v5_EncodePacket wall seq up rs buf;
     enc_PacketSizes := (netFlow5HeaderLen, 0, netFlow5RecordLen); enc_SeqIncrement n := n; enc_MaxRecordSize := 0; enc_TrailingPadBytes _ := 0;
     enc_MaxRecordsPerDatagram := netFlow5MaxRecords; enc_sflow := false; enc_measured := None; enc_options := None; enc_appTable := None |}.
Definition NetFlow9Encoder : FlowEncoder :=
  {| enc_EncodePacket wall dom seq up rs tmpl buf := nf9_EncodePacket wall dom seq up rs tmpl buf;
     enc_PacketSizes := (nf9HeaderSize + nf9DataFlowSetHdrSize, nf9TemplFlowSetSize, nf9RecordSize); enc_SeqIncrement _ := 1; enc_MaxRecordSize := 0; enc_TrailingPadBytes := nf9DataPadBytes;
     enc_MaxRecordsPerDatagram := 0; enc_sflow := false; enc_measured := None;
     enc_options := Some (fun wall dom seq up shape ifs buf => nf9_EncodeOptionsDatagram wall dom seq up shape ifs buf); enc_appTable := None |}.
Definition IPFIXEncoder : FlowEncoder :=
  {| enc_EncodePacket wall dom seq up rs tmpl buf := ipfix_EncodePacket wall dom seq up rs tmpl buf;
     enc_PacketSizes := (ipfixHeaderSize + ipfixDataSetHdrSize, ipfixTemplSetSize, ipfixRecordSize); enc_SeqIncrement n := n; enc_MaxRecordSize := 0; enc_TrailingPadBytes := ipfixDataPadBytes;
     enc_MaxRecordsPerDatagram := 0; enc_sflow := false; enc_measured := None;
     enc_options := Some (fun wall dom seq up shape ifs buf => ipfix_EncodeOptionsDatagram wall dom seq shape ifs buf); enc_appTable := None |}.
Definition SFlowEncoder : FlowEncoder :=
  {| enc_EncodePacket wall dom seq up rs tmpl buf := sflow_EncodePacket dom seq up rs buf;
     enc_PacketSizes := (sflowDatagramHeaderSize, 0, sflowMaxFlowSampleSize); enc_SeqIncrement _ := 1; enc_MaxRecordSize := sflowMaxFlowSampleSize; enc_TrailingPadBytes _ := 0;
     enc_MaxRecordsPerDatagram := 0; enc_sflow := true; enc_measured := None; enc_options := None; enc_appTable := None |}.
Definition IPFIXAVCEncoder (cat : avcCatalog) : FlowEncoder :=
  {| enc_EncodePacket wall dom seq up rs tmpl buf :=
       let! (buf, r) := EncodeMeasured cat wall dom seq up rs tmpl buf in Ok (buf, match r with Some (n, _, _) => Some n | None => None end);
     enc_PacketSizes := (ipfixHeaderSize + ipfixDataSetHdrSize, len buildIPFIXAVCTemplateSet, 0); enc_SeqIncrement n := n; enc_MaxRecordSize := avcWorstCaseRecordSize cat; enc_TrailingPadBytes _ := 0;
     enc_MaxRecordsPerDatagram := 0; enc_sflow := false;
     enc_measured := Some (fun wall dom seq up rs tmpl buf => EncodeMeasured cat wall dom seq up rs tmpl buf);
     enc_options := Some (fun wall dom seq up shape ifs buf => avc_EncodeOptionsDatagram wall dom seq shape ifs buf);
     enc_appTable := Some (match cat with Some apps => apps | None => [] end, fun wall dom seq apps buf => EncodeAppTableDatagram wall dom seq apps buf) |}.

(** The encoder of a protocol name already in lower case, and its canonical name. *)
Definition buildFlowEncoder (protocol : bytes) : option (FlowEncoder * bytes) :=
  if beq protocol (str "netflow9") || beq protocol (str "nf9") || beq protocol (str "") then Some (NetFlow9Encoder, str "netflow9")
  else if beq protocol (str "ipfix") || beq protocol (str "ipfix10") then Some (IPFIXEncoder, str "ipfix")
  else if beq protocol (str "netflow5") || beq protocol (str "nf5") then Some (NetFlow5Encoder, str "netflow5")
  else if beq protocol (str "sflow") || beq protocol (str "sflow5") then Some (SFlowEncoder, str "sflow")
  else None.

(** ** The exporter *)

Record FlowTickStats := { PacketsSent : Z; BytesSent : Z; RecordsSent : Z; SendFailures : Z; LastTemplateMs : Z }.
Definition noStats : FlowTickStats := {| PacketsSent := 0; BytesSent := 0; RecordsSent := 0; SendFailures := 0; LastTemplateMs := 0 |}.

Record FlowExporter (R : Type) := {
  fe_cache : FlowCache;
  fe_profile : FlowProfile;
  fe_override : Z;
  fe_rng : R;
  fe_seqNo : Z;
  fe_domainID : Z;
  fe_subAgentID : Z;
  fe_startTime : Z;
  fe_lastTempl : option Z;
  fe_templateInterval : Z;
  fe_collectorAddr : option bytes;
  fe_encoder : option FlowEncoder;
  fe_conn : bool;
  fe_counterSources : list (Z -> list CounterRecord);
  fe_optionShape : bytes;
  fe_optionIfaces : list flowOptionIface;
  fe_nbar2 : option nbar2Catalog;
  fe_scenPart : option scenarioPart
}.
Arguments fe_cache {R}. Arguments fe_profile {R}. Arguments fe_override {R}. Arguments fe_rng {R}. Arguments fe_seqNo {R}. Arguments fe_domainID {R}.
Arguments fe_subAgentID {R}. Arguments fe_startTime {R}. Arguments fe_lastTempl {R}. Arguments fe_templateInterval {R}. Arguments fe_collectorAddr {R}.
Arguments fe_encoder {R}. Arguments fe_conn {R}. Arguments fe_counterSources {R}. Arguments fe_optionShape {R}. Arguments fe_optionIfaces {R}.
Arguments fe_nbar2 {R}. Arguments fe_scenPart {R}.

Definition targetFlows {R} (fe : FlowExporter R) : Z := if 0 <? fe_override fe then fe_override fe else ConcurrentFlows (fe_profile fe).
(** [setConcurrentOverride]: the value stored. *)
Definition setConcurrentOverride (n : Z) : Z := if n <=? 0 then 0 else n.
Definition domainIDtoIP (id : Z) : bytes := be32 id.

(** The payload budget of a collector. *)
Definition flowPayloadBudget (b : budgets) (addr : option bytes) : Z :=
  match addr with
  | Some ip => match To4 ip with Some _ => maxFlowPayloadIPv4 b | None => maxFlowPayloadIPv6 b end
  | None => maxFlowPayloadIPv6 b
  end.

(** What a tick is run in: the instant, whether the shared pool has a socket, a
    pooled buffer, the budgets, the fidelity flag, the two orders in which the
    runtime ranges over the cache, the wall clock and the failed writes. *)
Record tick_env := {
  e_now : Z;
  e_shared : bool;
  e_pool : bytes;
  e_budgets : budgets;
  e_fidelity : bool;
  e_orderTrim : list FlowKey;
  e_orderExpire : list FlowKey;
  e_wall : nat -> Z;
  e_fails : nat -> bool
}.

(** ** The datagrams of a tick *)

Record tstate := {
  t_expired : list FlowRecord;
  t_tmpl : bool;
  t_buf : bytes;
  t_seq : Z;
  t_last : option Z;
  t_stats : FlowTickStats;
  t_part : option scenarioPart;
  t_log : list (bytes * bool)
}.
Definition with_queue (expired : list FlowRecord) (st : tstate) : tstate :=
  {| t_expired := expired; t_tmpl := t_tmpl st; t_buf := t_buf st; t_seq := t_seq st; t_last := t_last st; t_stats := t_stats st; t_part := t_part st; t_log := t_log st |}.
Definition with_buf (buf : bytes) (st : tstate) : tstate :=
  {| t_expired := t_expired st; t_tmpl := t_tmpl st; t_buf := buf; t_seq := t_seq st; t_last := t_last st; t_stats := t_stats st; t_part := t_part st; t_log := t_log st |}.
Definition with_part (p : option scenarioPart) (st : tstate) : tstate :=
  {| t_expired := t_expired st; t_tmpl := t_tmpl st; t_buf := t_buf st; t_seq := t_seq st; t_last := t_last st; t_stats := t_stats st; t_part := p; t_log := t_log st |}.

Definition add_failures (n : Z) (s : FlowTickStats) : FlowTickStats :=
  {| PacketsSent := PacketsSent s; BytesSent := BytesSent s; RecordsSent := RecordsSent s; SendFailures := u64 (SendFailures s + n); LastTemplateMs := LastTemplateMs s |}.
Definition add_sent (n records : Z) (s : FlowTickStats) : FlowTickStats :=
  {| PacketsSent := u64 (PacketsSent s + 1); BytesSent := u64 (BytesSent s + n); RecordsSent := u64 (RecordsSent s + records);
     SendFailures := SendFailures s; LastTemplateMs := LastTemplateMs s |}.
Definition set_template_ms (ms : Z) (s : FlowTickStats) : FlowTickStats :=
  {| PacketsSent := PacketsSent s; BytesSent := BytesSent s; RecordsSent := RecordsSent s; SendFailures := SendFailures s; LastTemplateMs := ms |}.
Definition with_failures (n : Z) (st : tstate) : tstate :=
  {| t_expired := t_expired st; t_tmpl := t_tmpl st; t_buf := t_buf st; t_seq := t_seq st; t_last := t_last st; t_stats := add_failures n (t_stats st); t_part := t_part st; t_log := t_log st |}.

Section tick.
Context {R : Type} `{Rand R} (fe : FlowExporter R) (E : FlowEncoder) (env : tick_env) (uptimeMs : Z) (scenActive : bool).

(** [part.ledger.x.Add(n)] on the participant of the tick. *)
Definition on_part (f : scenarioPart -> scenarioPart) (st : tstate) : tstate := with_part (f <$> t_part st) st.

(** The encoder call of the flow loop. *)
Definition tick_encode (wall seq : Z) (batch : list FlowRecord) (tmpl : bool) (buf : bytes) : res (bytes * option Z) :=
  if enc_sflow E then
    let rate := u32 (s64 (ConcurrentFlows (fe_profile fe) * SyntheticSamplingRateMultiplier)) in
    let rate := if rate =? 0 then 1 else rate in
    EncodeFlowDatagram (fe_domainID fe) (fe_subAgentID fe) seq uptimeMs batch rate buf
  else enc_EncodePacket E wall (fe_domainID fe) seq uptimeMs batch tmpl buf.

(** The records a datagram of this size takes, by the tick's own arithmetic. *)
Definition tick_capacity (tmpl : bool) (size : Z) : option Z :=
  let '(baseOverhead, templSize, recSize) := enc_PacketSizes E in
  let overhead := if tmpl then baseOverhead + templSize else baseOverhead in
  let perRec := if 0 <? enc_MaxRecordSize E then enc_MaxRecordSize E else recSize in
  if overhead + perRec <=? size then
    let cap := Z.quot (size - overhead) perRec in
    let cap := if (0 <? cap) && (size <? overhead + cap * perRec + enc_TrailingPadBytes E cap) then cap - 1 else cap in
    let m := enc_MaxRecordsPerDatagram E in
    Some (if (0 <? m) && (m <? cap) then m else cap)
  else None.

(** A datagram of [n] octets goes out with the records of [batch]. *)
Definition send_flows (n : Z) (batch : list FlowRecord) (st : tstate) : res tstate :=
  let! pdu := slice (t_buf st) 0 n in
  let failed := e_fails env (length (t_log st)) in
  let! part := (if scenActive && (0 <? len batch) then
                  match t_part st with
                  | None => Panic
                  | Some p =>
                      let p := count c_emitted (len batch) p in
                      if failed then Ok (Some (count c_failures (len batch) p))
                      else let! p := bucketFlowBatch p (e_now env) batch in Ok (Some p)
                  end
                else Ok (t_part st)) in
  let stats := if failed then add_failures 1 (t_stats st) else add_sent n (len batch) (t_stats st) in
  Ok {| t_expired := t_expired st; t_tmpl := false; t_buf := t_buf st;
        t_seq := u32 (t_seq st + u32 (enc_SeqIncrement E (len batch)));
        t_last := if t_tmpl st then Some (e_now env) else t_last st;
        t_stats := if t_tmpl st then set_template_ms (unixMilli (e_now env)) stats else stats;
        t_part := part; t_log := t_log st ++ [(pdu, failed)] |}.

(** What one round of the flow loop settles on: to stop, to give up on records
    that fit no datagram, or to send [n] octets with the records of [batch]. *)
Inductive picked := Stop | GiveUp (dropped : Z) | Emit (n : Z) (batch : list FlowRecord).

Definition flow_pick (st : tstate) : res (tstate * picked) :=
  match enc_measured E with
  | Some EncodeMeasured =>
      let! (buf, r) := EncodeMeasured (e_wall env (length (t_log st))) (fe_domainID fe) (t_seq st) uptimeMs (t_expired st) (t_tmpl st) (t_buf st) in
      let st := with_buf buf st in
      match r with
      | None => Ok (st, Stop)
      | Some (n, consumed, dropped) =>
          let! rest := slice (t_expired st) consumed (len (t_expired st)) in
          if 0 <? dropped then Ok (with_queue rest st, GiveUp dropped)
          else
            let! batch := slice (t_expired st) 0 consumed in
            Ok (with_queue rest st, if n =? 0 then Stop else Emit n batch)
      end
  | None =>
      let! (batch, rest) := match tick_capacity (t_tmpl st) (len (t_buf st)) with
                            | None => Ok ([], t_expired st)
                            | Some cap =>
                                if len (t_expired st) <=? cap then Ok (t_expired st, [])
                                else let! batch := slice (t_expired st) 0 cap in
                                     let! rest := slice (t_expired st) cap (len (t_expired st)) in
                                     Ok (batch, rest)
                            end in
      let st := with_queue rest st in
      if (len batch =? 0) && negb (t_tmpl st) then Ok (st, Stop) else
      let! (buf, r) := tick_encode (e_wall env (length (t_log st))) (t_seq st) batch (t_tmpl st) (t_buf st) in
      let st := with_buf buf st in
      Ok (st, match r with None => Stop | Some n => if n =? 0 then Stop else Emit n batch end)
  end.

Fixpoint flow_loop (fuel : nat) (st : tstate) : res tstate :=
  match fuel with
  | O => Diverge
  | S fuel' =>
      let! (st, p) := flow_pick st in
      match p with
      | Stop => Ok st
      | GiveUp dropped =>
          let st := with_failures dropped st in
          let st := if scenActive then on_part (fun p => count c_failures dropped (count c_emitted dropped p)) st else st in
          if (len (t_expired st) =? 0) && negb (t_tmpl st) then Ok st else flow_loop fuel' st
      | Emit n batch =>
          let! st := send_flows n batch st in
          if len (t_expired st) =? 0 then Ok st else flow_loop fuel' st
      end
  end.

(** The datagrams that carry no flow records advance the sequence by [inc]; the
    counters loop counts a refused one as sent. *)
Definition send_other (n inc : Z) (countRefused : bool) (st : tstate) : res tstate :=
  let! pdu := slice (t_buf st) 0 n in
  let failed := e_fails env (length (t_log st)) in
  let stats := if failed && negb countRefused then add_failures 1 (t_stats st) else add_sent n 0 (t_stats st) in
  Ok {| t_expired := t_expired st; t_tmpl := t_tmpl st; t_buf := t_buf st; t_seq := u32 (t_seq st + inc); t_last := t_last st; t_stats := stats;
        t_part := t_part st; t_log := t_log st ++ [(pdu, failed)] |}.

Fixpoint counters_loop (fuel : nat) (records : list CounterRecord) (st : tstate) : res tstate :=
  if len records =? 0 then Ok st
  else match fuel with
       | O => Diverge
       | S fuel' =>
           let maxBatch := Z.quot (len (t_buf st) - sflowDatagramHeaderSize - sflowCountersSampleHeaderSize) sflowMaxCountersSampleSize in
           if maxBatch <? 1 then Ok st else
           let! (batch, rest) := (if maxBatch <? len records then
                                    let! batch := slice records 0 maxBatch in
                                    let! rest := slice records maxBatch (len records) in Ok (batch, rest)
                                  else Ok (records, [])) in
           let! (buf, r, _) := EncodeCounterDatagram (fe_domainID fe) (fe_subAgentID fe) (t_seq st) uptimeMs batch (t_buf st) in
           let st := with_buf buf st in
           match r with
           | None => Ok st
           | Some n => if n =? 0 then Ok st else let! st := send_other n 1 true st in counters_loop fuel' rest st
           end
       end.

Fixpoint table_loop {A} (fuel : nat) (encode : Z -> Z -> list A -> bytes -> res (bytes * option (Z * Z))) (remaining : list A) (st : tstate) : res tstate :=
  if len remaining =? 0 then Ok st
  else match fuel with
       | O => Diverge
       | S fuel' =>
           let! (buf, r) := encode (e_wall env (length (t_log st))) (t_seq st) remaining (t_buf st) in
           let st := with_buf buf st in
           match r with
           | None => Ok st
           | Some (n, consumed) =>
               if (n =? 0) || (consumed =? 0) then Ok st else
               let! st := send_other n (u32 (enc_SeqIncrement E consumed)) false st in
               let! rest := slice remaining consumed (len remaining) in
               table_loop fuel' encode rest st
           end
       end.

(** What follows the gate: the flow loop and the three other kinds of datagram. *)
Definition tick_send (st : tstate) : res tstate :=
  let cadence := t_tmpl st in
  let emitOptions := cadence && negb (beq (fe_optionShape fe) []) && (0 <? len (fe_optionIfaces fe)) in
  let! st := flow_loop (length (t_expired st) + 2) st in
  let! st := (if enc_sflow E && (0 <? len (fe_counterSources fe)) then
                let allRecords := concat (map (fun src => src (e_now env)) (fe_counterSources fe)) in
                counters_loop (length allRecords) allRecords st
              else Ok st) in
  let! st := (if emitOptions then
                match enc_options E with
                | None => Ok st
                | Some enc => table_loop (length (fe_optionIfaces fe)) (fun wall seq ifs buf => enc wall (fe_domainID fe) seq uptimeMs (fe_optionShape fe) ifs buf) (fe_optionIfaces fe) st
                end
              else Ok st) in
  match enc_appTable E with
  | Some (applications, enc) =>
      if cadence then table_loop (length applications) (fun wall seq apps buf => enc wall (fe_domainID fe) seq apps buf) applications st else Ok st
  | None => Ok st
  end.
End tick.

Definition with_tick {R} (fe : FlowExporter R) (c : FlowCache) (g : R) (seq : Z) (last : option Z) (p : option scenarioPart) : FlowExporter R :=
  {| fe_cache := c; fe_profile := fe_profile fe; fe_override := fe_override fe; fe_rng := g; fe_seqNo := seq; fe_domainID := fe_domainID fe; fe_subAgentID := fe_subAgentID fe;
     fe_startTime := fe_startTime fe; fe_lastTempl := last; fe_templateInterval := fe_templateInterval fe; fe_collectorAddr := fe_collectorAddr fe; fe_encoder := fe_encoder fe;
     fe_conn := fe_conn fe; fe_counterSources := fe_counterSources fe; fe_optionShape := fe_optionShape fe; fe_optionIfaces := fe_optionIfaces fe; fe_nbar2 := fe_nbar2 fe; fe_scenPart := p |}.

Definition tick_uptime {R} (fe : FlowExporter R) (now : Z) : Z := u32 (Z.quot (time_Sub now (fe_startTime fe)) Millisecond).

(** The gate: what is left to send and whether the tick is admitted to the drain
    barrier; [None] when nothing is left and the tick ends. *)
Definition tick_gate (now : Z) (expired : list FlowRecord) (sendTemplate hasCounters : bool) (part : option scenarioPart)
    : option scenarioPart * option (list FlowRecord * bool) :=
  let bare p := (Some p, if negb sendTemplate && negb hasCounters then None else Some ([], false)) in
  match part with
  | None => (None, Some (expired, false))
  | Some p =>
      let '(p, d) := decide_fire p sourceScenario now in
      match d with
      | gateProceed =>
          let '(dg, admitted) := admitFire (drain p) in
          let p := with_drain dg p in
          if admitted then (Some p, Some (expired, true))
          else bare (if 0 <? len expired then count c_dropped (len expired) (count c_emitted (len expired) p) else p)
      | _ => bare (if 0 <? len expired then count c_background (len expired) p else p)
      end
  end.

Definition Tick {R} `{Rand R} (fe : FlowExporter R) (env : tick_env) : res (FlowExporter R * FlowTickStats * list (bytes * bool)) :=
  let now := e_now env in
  let uptimeMs := tick_uptime fe now in
  let deviceIP := domainIDtoIP (fe_domainID fe) in
  match fe_encoder fe, fe_collectorAddr fe with
  | Some E, Some addr =>
      if negb (fe_conn fe) && negb (e_shared env) then Ok (fe, noStats, []) else
      let target := targetFlows fe in
      let c := if 0 <? fe_override fe then fst (TrimTo (fe_cache fe) target (e_orderTrim env)) else fe_cache fe in
      let '(c, expired) := Expire c now (e_orderExpire env) in
      let! (c, g) := GenerateFlowsFrom c (fe_profile fe) target deviceIP now uptimeMs (fe_nbar2 fe) (fe_rng fe) in
      let filled := with_tick fe c g (fe_seqNo fe) (fe_lastTempl fe) in
      let sendTemplate := match fe_lastTempl fe with None => true | Some l => fe_templateInterval fe <=? time_Sub now l end in
      if (len expired =? 0) && negb sendTemplate then Ok (filled (fe_scenPart fe), noStats, []) else
      if match fe_scenPart fe with None => true | Some _ => false end && fidelityMutesBackground (e_fidelity env) sourceBackground then Ok (filled (fe_scenPart fe), noStats, []) else
      let '(part, go) := tick_gate now expired sendTemplate (0 <? len (fe_counterSources fe)) (fe_scenPart fe) in
      match go with
      | None => Ok (filled part, noStats, [])
      | Some (expired, scenActive) =>
          let budget := flowPayloadBudget (e_budgets env) (Some addr) in
          let! buf := (if budget <? len (e_pool env) then slice (e_pool env) 0 budget else Ok (e_pool env)) in
          let! st := tick_send fe E env uptimeMs scenActive
                       {| t_expired := expired; t_tmpl := sendTemplate; t_buf := buf; t_seq := fe_seqNo fe; t_last := fe_lastTempl fe;
                          t_stats := noStats; t_part := part; t_log := [] |} in
          let part := if scenActive then (fun p => with_drain (leave (drain p)) p) <$> t_part st else t_part st in
          Ok (with_tick fe c g (t_seq st) (t_last st) part, t_stats st, t_log st)
      end
  | _, _ => Ok (fe, noStats, [])
  end.

(** ** The phase of a device in the tick period *)

Definition flowTickPhaseSlots : Z := 50.
Definition flowTickSubPeriodFloor : Z := 50 * Millisecond.
Definition flowTickSlots (period : Z) (sync : bool) : Z :=
  if sync || (period <=? 0) then 1 else
  let slots := flowTickPhaseSlots in
  let slots := if Z.quot period slots <? flowTickSubPeriodFloor then Z.quot period flowTickSubPeriodFloor else slots in
  if slots <? 1 then 1 else slots.
Definition flowTickPhase (domainID : Z) : Z := u32 (domainID * 0x9E3779B1).
Definition flowTickSlotOf (phase slots : Z) : Z := Z.shiftr (u64 (phase * slots)) 32.
Definition inTickSlot (phase slot slots : Z) : bool := (slots <=? 1) || (flowTickSlotOf phase slots =? slot).
