(* ===== verification/FlowExport.v ===== *)
(** * What a tick sends (flow_exporter.go)

    [FlowPacker] is what the flow loop needs of an encoder: on a buffer of a
    budget's size it takes a leading part of the queue into one datagram, or says
    that the first record fits none.  The loop is proved against it, and the five
    encoders are shown to meet it.  The theorems are about a whole tick: every
    flow that is due leaves in exactly one datagram, or is counted as lost, and
    the scenario's ledger says what the wire saw. *)

From stdpp Require Import gmap.
From S2P Require Import Prelude GoStrings Ber Oid TypedValue Request Response.
From S2P Require Import FlowWire FlowTemplates FlowCollect FlowV5 FlowSflow FlowAvc FlowCache Scenario FlowTick.

(** A payload budget of a link MTU the simulator accepts. *)
Definition size_ok (n : Z) : Prop := 528 <= n <= 65507.
Definition exportable (r : FlowRecord) : Prop := record_ok r /\ is_ipv4 r = true.

Class FlowPacker {R} (fe : FlowExporter R) (E : FlowEncoder) (up : Z) := {
  (** The datagram of a batch at a wall clock and a sequence number. *)
  fp_payload : Z -> Z -> list FlowRecord -> bool -> bytes;
  (** Whether a template goes out alone, and which records fit no datagram of a size. *)
  fp_lone : bool;
  fp_unfit : Z -> FlowRecord -> Prop;
  fp_stop : forall env st, size_ok (len (t_buf st)) -> t_expired st = [] -> t_tmpl st && fp_lone = false ->
    flow_pick fe E env up st = Ok (st, Stop);
  fp_pick : forall env st, size_ok (len (t_buf st)) -> Forall exportable (t_expired st) -> t_expired st <> [] \/ t_tmpl st && fp_lone = true ->
    (exists batch rest tail, let P := fp_payload (e_wall env (length (t_log st))) (t_seq st) batch (t_tmpl st) in
       t_expired st = batch ++ rest /\ (batch <> [] \/ t_tmpl st = true) /\ 0 < len P /\ len P + len tail = len (t_buf st) /\
       flow_pick fe E env up st = Ok (with_buf (P ++ tail) (with_queue rest st), Emit (len P) batch)) \/
    (exists r rest buf, fp_unfit (len (t_buf st)) r /\ t_expired st = r :: rest /\ t_tmpl st = false /\ len buf = len (t_buf st) /\
       flow_pick fe E env up st = Ok (with_buf buf (with_queue rest st), GiveUp 1))
}.

(** What becomes of the queue, in order. *)
Inductive event := Carried (batch : list FlowRecord) | Lost (r : FlowRecord).
Definition lossless (unfit : FlowRecord -> Prop) (e : event) : Prop := match e with Carried _ => True | Lost r => unfit r end.
Definition event_records (e : event) : list FlowRecord := match e with Carried b => b | Lost r => [r] end.

(** ** Keeping the books *)

(** The ledger after [recs] records, [ok] of which the kernel took. *)
Definition booked (now : Z) (p p' : scenarioPart) (recs ok : Z) : Prop :=
  exists l', p' = with_ledger l' p /\ ledger_ok l' /\
    eqm (emitted l') (emitted (ledger p) + recs) /\ eqm (inWindow l' + drained l') (inWindow (ledger p) + drained (ledger p) + ok) /\
    eqm (sendFailures l') (sendFailures (ledger p) + (recs - ok)) /\ dropped l' = dropped (ledger p) /\
    ((classify p now).1 = true -> drained l' = drained (ledger p)).

Lemma with_ledger_same p : with_ledger (ledger p) p = p.
Proof. by destruct p. Qed.

Lemma booked_refl now p : ledger_ok (ledger p) -> booked now p p 0 0.
Proof. intros Hl. exists (ledger p). rewrite with_ledger_same. repeat split; try done; try apply Hl; exists 0; lia. Qed.

Lemma booked_trans now p q r m n m' n' : booked now p q m n -> booked now q r m' n' -> booked now p r (m + m') (n + n').
Proof.
  intros (l & -> & _ & He & Hs & Hf & Hd & Hw) (l' & -> & Hok & He' & Hs' & Hf' & Hd' & Hw'). cbn [ledger with_ledger] in *. exists l'. split; [done|].
  destruct He as [a Ha], Hs as [b Hb], Hf as [c Hc], He' as [a' Ha'], Hs' as [b' Hb'], Hf' as [c' Hc'].
  split; [done|]. split; [exists (a + a'); lia|]. split; [exists (b + b'); lia|]. split; [exists (c + c'); lia|]. split; [congruence|].
  intros Hc0. change (classify (with_ledger l p) now) with (classify p now) in Hw'. rewrite Hw', Hw; done.
Qed.

Lemma failed_booked now p n : ledger_ok (ledger p) -> booked now p (count c_failures n (count c_emitted n p)) n 0.
Proof.
  intros [Hw Ha Hs Hb]. exists (add c_failures n (add c_emitted n (ledger p))). split; [done|]. split.
  { constructor; [done|done|done|]. by apply add_balanced. }
  cbn. destruct (u64_eqm (emitted (ledger p) + n)) as [a ->], (u64_eqm (sendFailures (ledger p) + n)) as [b ->].
  split; [by exists a|]. split; [exists 0; lia|]. split; [exists b; lia|]. done.
Qed.

Lemma written_booked now p batch : gate_ok p -> ledger_ok (ledger p) ->
  wp (bucketFlowBatch (count c_emitted (len batch) p) now batch) (fun p' => booked now p p' (len batch) (len batch)).
Proof.
  intros Hg [Hw Ha Hs Hb].
  (* the ledger is balanced again once the batch is bucketed *)
  assert (Hpre : wp (bucketFlowBatch (count c_emitted (len batch) p) now batch) (fun p' => exists ws m m7,
    p' = with_ledger (with_apps m m7 (with_subWindows ws (add (if (classify p now).1 then c_inWindow else c_drain) (len batch) (add c_emitted (len batch) (ledger p))))) p /\
    length ws = 10%nat /\ map_Forall (fun _ c => length (ap_subWindowBytes c) = 10%nat) m /\
    eqm (sum ws) (sum (subWindows (ledger p)) + if (classify p now).1 then len batch else 0))).
  { eapply wp_mono; [apply (bucketFlowBatch_shape (count c_emitted (len batch) p) now batch); [exact Hg|exact Hw|exact Ha]|]. intros p' (ws & m & m7 & -> & H). exists ws, m, m7. done. }
  eapply wp_mono; [exact Hpre|]. intros p' (ws & m & m7 & -> & Hl & Hm & Hsum). eexists. split; [done|].
  destruct (u64_eqm (emitted (ledger p) + len batch)) as [a Hea]. destruct Hs as [s Hs], Hsum as [t Hsum].
  destruct (classify p now).1 eqn:Ec; (split; [constructor; [done|done| |]|]).
  - destruct (u64_eqm (inWindow (ledger p) + len batch)) as [b Heb]. cbn -[sum u64 len]. exists (s + t - b). lia.
  - by apply (add_balanced (ledger p) c_inWindow).
  - destruct (u64_eqm (inWindow (ledger p) + len batch)) as [b Heb]. cbn -[sum u64 len]. split; [by exists a|]. split; [exists b; lia|]. split; [exists 0; lia|]. done.
  - cbn -[sum u64 len]. exists (s + t). lia.
  - by apply (add_balanced (ledger p) c_drain).
  - destruct (u64_eqm (drained (ledger p) + len batch)) as [b Heb]. cbn -[sum u64 len]. split; [by exists a|]. split; [exists b; lia|]. split; [exists 0; lia|]. done.
Qed.

(** ** The flow loop *)

Section loop.
Context {R : Type} `{Rand R} {fe : FlowExporter R} {E : FlowEncoder} {up : Z} {FP : FlowPacker fe E up}.
Variable env : tick_env.
Variable scenActive : bool.

(** The datagrams of a run of events, from the [n]-th write on. *)
Fixpoint sent_log (n : nat) (seq : Z) (tmpl : bool) (evs : list event) : list (bytes * bool) :=
  match evs with
  | [] => []
  | Carried b :: evs' =>
      (fp_payload (e_wall env n) seq b tmpl, e_fails env n) :: sent_log (S n) (u32 (seq + u32 (enc_SeqIncrement E (len b)))) false evs'
  | Lost _ :: evs' => sent_log n seq tmpl evs'
  end.
(** The records the kernel took. *)
Fixpoint delivered (n : nat) (evs : list event) : Z :=
  match evs with
  | [] => 0
  | Carried b :: evs' => (if e_fails env n then 0 else len b) + delivered (S n) evs'
  | Lost _ :: evs' => delivered n evs'
  end.
Fixpoint seq_after (seq : Z) (evs : list event) : Z :=
  match evs with
  | [] => seq
  | Carried b :: evs' => seq_after (u32 (seq + u32 (enc_SeqIncrement E (len b)))) evs'
  | Lost _ :: evs' => seq_after seq evs'
  end.

(** The participant of an admitted tick. *)
Definition part_ok (p : option scenarioPart) : Prop :=
  scenActive = true -> exists q, p = Some q /\ gate_ok q /\ ledger_ok (ledger q).
Definition part_booked (p p' : option scenarioPart) (recs ok : Z) : Prop :=
  if scenActive then exists q q', p = Some q /\ p' = Some q' /\ booked (e_now env) q q' recs ok else p' = p.

Lemma part_booked_ok p p' m n : part_ok p -> part_booked p p' m n -> part_ok p'.
Proof.
  unfold part_ok, part_booked. destruct scenActive; [|done]. intros Hp (q & q' & -> & -> & (l & -> & Hl & _)) _.
  destruct (Hp eq_refl) as (? & [= <-] & Hg & _). eexists. done.
Qed.
Lemma part_booked_refl p : part_ok p -> part_booked p p 0 0.
Proof.
  unfold part_ok, part_booked. destruct scenActive; [|done]. intros Hp. destruct (Hp eq_refl) as (q & -> & _ & Hl). exists q, q. split; [done|]. split; [done|].
  by apply booked_refl.
Qed.
Lemma part_booked_trans p q r m n m' n' : part_booked p q m n -> part_booked q r m' n' -> part_booked p r (m + m') (n + n').
Proof.
  unfold part_booked. destruct scenActive; [|congruence]. intros (a & b & -> & -> & H1) (c & d & [= ->] & -> & H2). exists a, d. split; [done|]. split; [done|].
  by eapply booked_trans.
Qed.

(** One datagram of flows. *)
Lemma wp_send_flows n batch st (Q : tstate -> Prop) : 0 <= n <= len (t_buf st) -> part_ok (t_part st) ->
  (forall part, part_booked (t_part st) part (len batch) (if e_fails env (length (t_log st)) then 0 else len batch) ->
    Q {| t_expired := t_expired st; t_tmpl := false; t_buf := t_buf st; t_seq := u32 (t_seq st + u32 (enc_SeqIncrement E (len batch)));
         t_last := if t_tmpl st then Some (e_now env) else t_last st;
         t_stats := (if t_tmpl st then set_template_ms (unixMilli (e_now env)) else id)
                      (if e_fails env (length (t_log st)) then add_failures 1 (t_stats st) else add_sent n (len batch) (t_stats st));
         t_part := part; t_log := t_log st ++ [(take (Z.to_nat n) (t_buf st), e_fails env (length (t_log st)))] |}) ->
  wp (send_flows E env scenActive n batch st) Q.
Proof.
  intros Hn Hp HQ. unfold send_flows. apply wp_bind, wp_slice; [lia|lia|]. rewrite Z.sub_0_r, drop_0. apply wp_bind.
  eapply (wp_mono _ (fun part => part_booked (t_part st) part (len batch) (if e_fails env (length (t_log st)) then 0 else len batch))).
  2:{ intros part Hb. cbn [wp]. specialize (HQ part Hb). by destruct (t_tmpl st). }
  clear HQ. pose proof (len_nonneg batch). unfold part_ok, part_booked in *. destruct scenActive; cbn [andb]; [|done].
  destruct (Hp eq_refl) as (q & Hq & Hg & Hl). rewrite Hq. destruct (0 <? len batch) eqn:E0; zbool.
  - destruct (e_fails env _); cbn [wp].
    + exists q, (count c_failures (len batch) (count c_emitted (len batch) q)). split; [done|]. split; [done|]. by apply failed_booked.
    + apply wp_bind. eapply wp_mono; [by apply written_booked|]. intros p' Hb. cbn [wp]. exists q, p'. done.
  - assert (E1 : len batch = 0) by lia. rewrite E1. cbn [wp]. exists q, q. split; [done|]. split; [done|]. destruct (e_fails env _); by apply booked_refl.
Qed.

(** What the loop leaves. *)
Definition flow_post (st st' : tstate) : Prop :=
  exists evs, concat (map event_records evs) = t_expired st /\ Forall (lossless (fp_unfit (len (t_buf st)))) evs /\ t_expired st' = [] /\
    t_log st' = t_log st ++ sent_log (length (t_log st)) (t_seq st) (t_tmpl st) evs /\ t_seq st' = seq_after (t_seq st) evs /\
    Forall (fun d => 0 < len d.1 <= len (t_buf st)) (sent_log (length (t_log st)) (t_seq st) (t_tmpl st) evs) /\
    len (t_buf st') = len (t_buf st) /\
    eqm (RecordsSent (t_stats st')) (RecordsSent (t_stats st) + delivered (length (t_log st)) evs) /\
    part_booked (t_part st) (t_part st') (len (t_expired st)) (delivered (length (t_log st)) evs).

Lemma len_concat_events evs : len (concat (map event_records evs)) = fold_right (fun e n => len (event_records e) + n) 0 evs.
Proof. induction evs as [|e evs IH]; [done|]. cbn [map concat fold_right]. by rewrite len_app, IH. Qed.

Lemma flow_loop_spec fuel : forall st, size_ok (len (t_buf st)) -> Forall exportable (t_expired st) -> part_ok (t_part st) ->
  (length (t_expired st) + (if t_tmpl st then 1 else 0) < fuel)%nat -> wp (flow_loop fe E env up scenActive fuel st) (flow_post st).
Proof.
  induction fuel as [|fuel IH]; intros st Hsz Hex Hpart Hf; [lia|]. cbn [flow_loop]. apply wp_bind.
  destruct (decide (t_expired st <> [] \/ t_tmpl st && fp_lone = true)) as [Hgo|Hno].
  2:{ assert (Hnil : t_expired st = []) by (destruct (t_expired st); [done|]; exfalso; apply Hno; by left).
      rewrite fp_stop; [|done|done|destruct (t_tmpl st && fp_lone); [exfalso; apply Hno; by right|done]]. cbn [wp].
      exists []. rewrite Hnil. split; [done|]. split; [constructor|]. split; [done|]. split; [by rewrite app_nil_r|]. split; [done|]. split; [constructor|]. split; [done|].
      split; [exists 0; cbn; lia|]. by apply part_booked_refl. }
  destruct (fp_pick env st Hsz Hex Hgo) as [(batch & rest & tail & HP)|(r & rest & buf & Hlo & Hq & Ht & Hb & Hpick)].
  - cbv zeta in HP. destruct HP as (Hq & Hne & Hpos & Hlen & Hpick). rewrite Hpick. cbn [wp]. clear Hpick. revert Hpos Hlen.
    set (P := fp_payload _ _ _ _). intros Hpos Hlen. pose proof (len_nonneg tail) as Htail. apply wp_bind. apply wp_send_flows; cbn [t_buf with_buf with_queue]; [rewrite len_app; lia|done|].
    cbn [t_expired t_tmpl t_buf t_seq t_last t_stats t_part t_log with_buf with_queue]. intros part Hbk. rewrite take_len_app. set (st1 := Build_tstate _ _ _ _ _ _ _ _).
    assert (Hst : RecordsSent (t_stats st1) = if e_fails env (length (t_log st)) then RecordsSent (t_stats st) else u64 (RecordsSent (t_stats st) + len batch)).
    { cbn. by destruct (t_tmpl st), (e_fails env (length (t_log st))). }
    assert (Hfin : forall st2 evs, concat (map event_records evs) = rest -> Forall (lossless (fp_unfit (len (t_buf st)))) evs -> t_expired st2 = [] ->
      t_log st2 = t_log st1 ++ sent_log (length (t_log st1)) (t_seq st1) false evs -> t_seq st2 = seq_after (t_seq st1) evs ->
      Forall (fun d => 0 < len d.1 <= len (t_buf st)) (sent_log (length (t_log st1)) (t_seq st1) false evs) -> len (t_buf st2) = len (t_buf st) ->
      eqm (RecordsSent (t_stats st2)) (RecordsSent (t_stats st1) + delivered (length (t_log st1)) evs) ->
      part_booked (t_part st1) (t_part st2) (len rest) (delivered (length (t_log st1)) evs) -> flow_post st st2).
    { intros st2 evs Hc Hlo He Hlg Hsq Hfa Hbf [a Ha] Hpb. exists (Carried batch :: evs). cbn [map concat event_records]. rewrite Hc, Hq.
      assert (Hll : length (t_log st1) = S (length (t_log st))) by (cbn; rewrite length_app; cbn; lia). rewrite Hll in *.
      split; [done|]. split; [by constructor|]. split; [done|]. cbn [sent_log seq_after delivered]. fold P. split; [rewrite Hlg; cbn [t_log st1]; by rewrite <- app_assoc|].
      split; [exact Hsq|]. split; [constructor; [cbn; lia|exact Hfa]|]. split; [exact Hbf|]. split.
      - rewrite Ha, Hst. destruct (e_fails env (length (t_log st))); [exists a; lia|]. destruct (u64_eqm (RecordsSent (t_stats st) + len batch)) as [b ->]. exists (a + b). lia.
      - rewrite len_app. by eapply part_booked_trans; [exact Hbk|exact Hpb]. }
    destruct (len rest =? 0) eqn:E0; zbool.
    { cbn [wp]. apply len_0_nil in E0. apply (Hfin st1 []);
        [by rewrite E0|constructor|exact E0|by rewrite app_nil_r|done|constructor|cbn [t_buf st1]; rewrite len_app; lia|exists 0; cbn [delivered]; lia|].
      rewrite E0, len_nil. cbn [delivered]. apply part_booked_refl. by eapply part_booked_ok. }
    eapply wp_mono; [apply IH|].
    + cbn. rewrite len_app. by rewrite Hlen.
    + cbn. rewrite Hq in Hex. by apply Forall_app in Hex as [_ ?].
    + cbn. by eapply part_booked_ok.
    + cbn. rewrite Hq, length_app in Hf. destruct Hne as [Hne|Hne]; [destruct batch; [done|]; cbn in Hf; destruct (t_tmpl st); lia|rewrite Hne in Hf; lia].
    + intros st2 (evs & Hc & Hlo & He & Hlg & Hsq & Hfa & Hbf & Hrs & Hpb). cbn [t_expired t_tmpl t_buf st1] in *. rewrite len_app, Hlen in *. by apply (Hfin st2 evs).
  - rewrite Hpick. cbn [wp]. clear Hpick. set (st1 := if scenActive then _ else _).
    assert (Hs1 : t_expired st1 = rest /\ t_tmpl st1 = false /\ t_buf st1 = buf /\ t_seq st1 = t_seq st /\ t_log st1 = t_log st /\ RecordsSent (t_stats st1) = RecordsSent (t_stats st) /\
      part_booked (t_part st) (t_part st1) 1 0).
    { unfold st1, part_booked. unfold part_ok in Hpart. destruct scenActive; cbn; rewrite ?Ht; [|done]. do 6 (split; [done|]). destruct (Hpart eq_refl) as (q & -> & _ & Hl).
      eexists _, _. split; [done|]. split; [done|]. by apply failed_booked. }
    clearbody st1. destruct Hs1 as (He1 & Ht1 & Hb1 & Hs1 & Hl1 & Hr1 & Hp1). rewrite He1, Ht1.
    assert (Hfin : forall st2, flow_post st1 st2 -> flow_post st st2).
    { intros st2 (evs & Hc & Hls & He & Hlg & Hsq & Hfa & Hbf & [a Hrs] & Hpb). rewrite He1, Ht1, Hb1, Hs1, Hl1, Hr1 in *. exists (Lost r :: evs). rewrite Hq, Ht. cbn [map concat event_records sent_log seq_after delivered].
      rewrite Hc. rewrite Hb in *. split; [done|]. split; [constructor; [exact Hlo|exact Hls]|]. split; [done|]. split; [done|]. split; [done|]. split; [done|]. split; [done|]. split; [by exists a|].
      rewrite len_cons. change (delivered (length (t_log st)) evs) with (0 + delivered (length (t_log st)) evs). by eapply part_booked_trans. }
    destruct (len rest =? 0) eqn:E0; zbool; cbn [andb negb].
    { cbn [wp]. apply len_0_nil in E0. apply Hfin. exists []. rewrite He1, E0, len_nil. cbn. split; [done|]. split; [constructor|]. split; [done|]. split; [by rewrite app_nil_r|]. split; [done|]. split; [constructor|].
      split; [done|]. split; [exists 0; lia|]. apply part_booked_refl. by eapply part_booked_ok. }
    eapply wp_mono; [apply IH|exact Hfin].
    + by rewrite Hb1, Hb.
    + rewrite He1. rewrite Hq in Hex. by inversion Hex.
    + by eapply part_booked_ok.
    + rewrite He1, Ht1. rewrite Hq, Ht in Hf. cbn in Hf. lia.
Qed.
End loop.

(** ** The encoders of fixed-size records, and sFlow *)

(** What the loop's own arithmetic needs: it hands the encoder no more than the
    encoder takes. *)
Record fixed_law {R} (fe : FlowExporter R) (E : FlowEncoder) (up : Z) (payload : Z -> Z -> list FlowRecord -> bool -> bytes) (lone : bool) : Prop := {
  fl_measured : enc_measured E = None;
  fl_full : forall tmpl size, size_ok size -> exists cap, tick_capacity E tmpl size = Some cap /\ 1 <= cap /\
    forall wall seq batch buf, len buf = size -> len batch <= cap -> Forall exportable batch -> batch <> [] \/ tmpl && lone = true ->
      exists tail, tick_encode fe E up wall seq batch tmpl buf = Ok (payload wall seq batch tmpl ++ tail, Some (len (payload wall seq batch tmpl))) /\
        0 < len (payload wall seq batch tmpl) /\ len (payload wall seq batch tmpl) + len tail = size;
  fl_none : lone = false -> forall wall seq buf, tick_encode fe E up wall seq [] true buf = Ok (buf, Some 0)
}.

Lemma cut_queue {A} (q : list A) cap : 0 <= cap ->
  (if len q <=? cap then Ok (q, []) else let! batch := slice q 0 cap in let! rest := slice q cap (len q) in Ok (batch, rest)) =
  Ok (take (Z.to_nat cap) q, drop (Z.to_nat cap) q).
Proof.
  intros Hc. destruct (len q <=? cap) eqn:E0; zbool; [unfold len in *; by rewrite take_ge, drop_ge by lia|].
  unfold slice. destruct ((0 <? 0) || _ || _) eqn:E1; [lia|]. cbn [res_bind]. destruct ((cap <? 0) || _ || _) eqn:E2; [lia|]. cbn [res_bind].
  rewrite Z.sub_0_r, drop_0, (take_ge (drop _ _)); [done|]. rewrite length_drop. unfold len. lia.
Qed.

Lemma same_state st : with_buf (t_buf st) (with_queue (t_expired st) st) = st.
Proof. by destruct st. Qed.

Definition fixed_packer {R} {fe : FlowExporter R} {E up payload lone} (L : fixed_law fe E up payload lone) : FlowPacker fe E up.
Proof.
  refine {| fp_payload := payload; fp_lone := lone; fp_unfit := fun _ _ => False |}.
  - intros env st Hsz Hq Ht. unfold flow_pick. rewrite (fl_measured _ _ _ _ _ L). destruct (fl_full _ _ _ _ _ L (t_tmpl st) _ Hsz) as (cap & -> & Hc & _).
    rewrite cut_queue by lia. cbn [res_bind]. rewrite Hq, take_nil, drop_nil. cbn [t_tmpl with_queue len length Z.of_nat Z.eqb andb].
    pose proof (same_state st) as Hs. rewrite Hq in Hs. destruct (t_tmpl st) eqn:Et; cbn [negb]; [|by rewrite <- Hs; destruct st].
    rewrite (fl_none _ _ _ _ _ L) by (by destruct lone). cbn [res_bind Z.eqb]. cbn [t_buf with_queue]. by rewrite Hs.
  - intros env st Hsz Hex Hgo. left. unfold flow_pick. rewrite (fl_measured _ _ _ _ _ L). destruct (fl_full _ _ _ _ _ L (t_tmpl st) _ Hsz) as (cap & -> & Hc & Hfull).
    rewrite cut_queue by lia. cbn [res_bind]. set (batch := take (Z.to_nat cap) (t_expired st)). set (rest := drop (Z.to_nat cap) (t_expired st)).
    assert (Hne : batch <> [] \/ t_tmpl st && lone = true).
    { destruct Hgo as [Hne|?]; [left|by right]. unfold batch. destruct (t_expired st); [done|]. destruct (Z.to_nat cap) eqn:Ec; [lia|done]. }
    destruct (Hfull (e_wall env (length (t_log st))) (t_seq st) batch (t_buf st) eq_refl) as (tail & He & Hp & Hl); [unfold batch; rewrite len_take; lia|by apply Forall_take|done|].
    exists batch, rest, tail. cbv zeta. split; [unfold batch, rest; by rewrite take_drop|]. split; [destruct Hne as [?|Hne]; [by left|right; by destruct (t_tmpl st)]|].
    split; [done|]. split; [done|]. destruct ((len batch =? 0) && _) eqn:E0.
    { exfalso. zbool. apply len_0_nil in H. destruct Hne as [?|Hne]; [done|]. cbn in H0. by rewrite H0 in Hne. }
    cbn [t_log t_seq t_tmpl t_buf with_queue]. rewrite He. cbn [res_bind]. destruct (len (payload _ _ _ _) =? 0) eqn:E1; [zbool; lia|]. done.
Defined.

(** The datagrams, as the encoders' lemmas give them. *)
Definition v5_payload (up : Z) (wall seq : Z) (batch : list FlowRecord) (tmpl : bool) : bytes := v5_packet up (u32 (unix wall)) (u32 (wall mod 1000000000)) seq batch.
Definition nf9_payload (dom up : Z) (wall seq : Z) (batch : list FlowRecord) (tmpl : bool) : bytes :=
  nf9_packet (u16 (len batch + (if tmpl then 1 else 0))) up (u32 (unix wall)) seq dom tmpl batch.
Definition ipfix_payload (dom up : Z) (wall seq : Z) (batch : list FlowRecord) (tmpl : bool) : bytes :=
  ipfix_packet (u32 (Z.quot (unixMilli wall) 1000)) seq dom (deviceStart (unixMilli wall) up) tmpl batch.
Definition sflow_rate {R} (fe : FlowExporter R) : Z :=
  let rate := u32 (s64 (ConcurrentFlows (fe_profile fe) * SyntheticSamplingRateMultiplier)) in if rate =? 0 then 1 else rate.
Definition sflow_payload {R} (fe : FlowExporter R) (up : Z) (wall seq : Z) (batch : list FlowRecord) (tmpl : bool) : bytes :=
  sflow_header (fe_domainID fe) (fe_subAgentID fe) seq up (len batch) ++ samples_bytes 0 (sflow_rate fe) batch.

Lemma take_within {A} (l : list A) cap : len l <= cap -> take (Z.to_nat cap) l = l.
Proof. intros Hl. apply take_ge. unfold len in Hl. lia. Qed.

(** What is written leaves the buffer its length. *)
Lemma payload_tail (P buf : bytes) : len P <= len buf -> len P + len (drop (Z.to_nat (len P)) buf) = len buf.
Proof. intros Hl. rewrite len_drop. pose proof (len_nonneg P). lia. Qed.

Lemma capacity_le R size overhead : 0 < R -> overhead <= size -> capacity R size overhead <= (size - overhead) / R.
Proof. intros HR Ho. unfold capacity. rewrite Z.quot_div_nonneg by lia. case_if; lia. Qed.

Lemma nf9_law {R} (fe : FlowExporter R) up : fixed_law fe NetFlow9Encoder up (nf9_payload (fe_domainID fe) up) true.
Proof.
  constructor; [done| |done]. intros tmpl size Hsz. unfold size_ok in Hsz.
  assert (Ho : (if tmpl then nf9HeaderSize + nf9DataFlowSetHdrSize + nf9TemplFlowSetSize else nf9HeaderSize + nf9DataFlowSetHdrSize) = nf9_overhead tmpl) by (by destruct tmpl).
  assert (Hov : 24 <= nf9_overhead tmpl <= 112) by (destruct tmpl; vm_compute; split; congruence).
  exists (capacity nf9RecordSize size (nf9_overhead tmpl)). pose proof (pad4_bound (4 + 1 * nf9RecordSize)).
  assert (Hroom : roomy nf9RecordSize (nf9_overhead tmpl) size) by (unfold roomy; unfold nf9RecordSize in *; lia). pose proof Hroom as [Hr _].
  pose proof (capacity_one nf9RecordSize size (nf9_overhead tmpl) ltac:(done) Hr) as H1. split; [|split; [done|]].
  - unfold tick_capacity. cbn [enc_PacketSizes NetFlow9Encoder enc_MaxRecordSize enc_TrailingPadBytes enc_MaxRecordsPerDatagram]. rewrite Ho. change (0 <? 0) with false. cbn [andb].
    destruct (_ <=? size) eqn:E0; [|lia]. f_equal. change (nf9_maxRecords size (nf9_overhead tmpl) = capacity nf9RecordSize size (nf9_overhead tmpl)). apply nf9_maxRecords_capacity. lia.
  - intros wall seq batch buf Hb Hl _ Hne. unfold tick_encode. cbn [enc_sflow NetFlow9Encoder enc_EncodePacket].
    assert (Hne' : batch <> [] \/ tmpl = true) by (destruct Hne as [?|Hne]; [by left|right; by destruct tmpl]).
    subst size. destruct (nf9_EncodePacket_spec wall (fe_domainID fe) seq up batch tmpl buf Hne' Hroom) as [He HP].
    rewrite take_within in He, HP by done. unfold nf9_payload. eexists. split; [exact He|]. split; [|by apply payload_tail].
    unfold nf9_packet. rewrite (len_app (be16 nf9Version)). change (len (be16 nf9Version)) with 2. match goal with |- context [len ?x] => pose proof (len_nonneg x) end. lia.
Qed.

Lemma ipfix_law {R} (fe : FlowExporter R) up : fixed_law fe IPFIXEncoder up (ipfix_payload (fe_domainID fe) up) true.
Proof.
  constructor; [done| |done]. intros tmpl size Hsz. unfold size_ok in Hsz.
  assert (Ho : (if tmpl then ipfixHeaderSize + ipfixDataSetHdrSize + ipfixTemplSetSize else ipfixHeaderSize + ipfixDataSetHdrSize) = ipfix_overhead tmpl) by (by destruct tmpl).
  assert (Hov : 20 <= ipfix_overhead tmpl <= 112) by (destruct tmpl; vm_compute; split; congruence).
  exists (capacity ipfixRecordSize size (ipfix_overhead tmpl)). pose proof (pad4_bound (4 + 1 * ipfixRecordSize)).
  assert (Hroom : roomy ipfixRecordSize (ipfix_overhead tmpl) size) by (unfold roomy; unfold ipfixRecordSize in *; lia). pose proof Hroom as [Hr _].
  pose proof (capacity_one ipfixRecordSize size (ipfix_overhead tmpl) ltac:(done) Hr) as H1. split; [|split; [done|]].
  - unfold tick_capacity. cbn [enc_PacketSizes IPFIXEncoder enc_MaxRecordSize enc_TrailingPadBytes enc_MaxRecordsPerDatagram]. rewrite Ho. change (0 <? 0) with false. cbn [andb].
    destruct (_ <=? size) eqn:E0; [|lia]. f_equal. change (ipfix_maxRecords size (ipfix_overhead tmpl) = capacity ipfixRecordSize size (ipfix_overhead tmpl)). apply ipfix_maxRecords_capacity. lia.
  - intros wall seq batch buf Hb Hl _ Hne. unfold tick_encode. cbn [enc_sflow IPFIXEncoder enc_EncodePacket].
    assert (Hne' : batch <> [] \/ tmpl = true) by (destruct Hne as [?|Hne]; [by left|right; by destruct tmpl]).
    subst size. destruct (ipfix_EncodePacket_spec wall (fe_domainID fe) seq up batch tmpl buf Hne' Hroom) as [He HP].
    rewrite take_within in He, HP by done. unfold ipfix_payload. eexists. split; [exact He|]. split; [|by apply payload_tail].
    unfold ipfix_packet. cbv zeta. rewrite (len_app (be16 ipfixVersion)). change (len (be16 ipfixVersion)) with 2. match goal with |- context [len ?x] => pose proof (len_nonneg x) end. lia.
Qed.

Lemma v5_sent_all batch : len batch <= 30 -> Forall exportable batch -> v5_sent batch = batch.
Proof.
  intros Hl Hex. unfold v5_sent. assert (Hf : List.filter is_ipv4 batch = batch).
  { clear Hl. induction Hex as [|r batch [_ Hr] _ IH]; [done|]. cbn [List.filter]. by rewrite Hr, IH. }
  rewrite Hf. apply take_ge. unfold len in Hl. lia.
Qed.

Lemma v5_law {R} (fe : FlowExporter R) up : fixed_law fe NetFlow5Encoder up (v5_payload up) false.
Proof.
  constructor; [done| |done]. intros tmpl size Hsz. unfold size_ok in Hsz. set (q := (size - 24) ÷ 48).
  assert (Hq : 1 <= q /\ 24 + q * 48 <= size).
  { unfold q. rewrite Z.quot_div_nonneg by lia. split; [apply Z.div_le_lower_bound; lia|]. pose proof (Z.mul_div_le (size - 24) 48). lia. }
  exists (if 30 <? q then 30 else q). split; [|split; [destruct (30 <? q); lia|]].
  - unfold tick_capacity. cbn [enc_PacketSizes NetFlow5Encoder enc_MaxRecordSize enc_TrailingPadBytes enc_MaxRecordsPerDatagram].
    unfold netFlow5HeaderLen, netFlow5RecordLen, netFlow5MaxRecords. change (0 <? 0) with false. cbn iota.
    replace (if tmpl then 24 + 0 else 24) with 24 by (by destruct tmpl). destruct (24 + 48 <=? size) eqn:E0; [|lia]. fold q. change (0 <? 30) with true. cbn [andb].
    destruct ((0 <? q) && _) eqn:E1; [lia|]. done.
  - intros wall seq batch buf Hb Hl Hex Hne. assert (Hne' : batch <> []) by (destruct Hne as [?|Hne]; [done|]; by destruct tmpl).
    assert (Hs : v5_sent batch = batch) by (apply v5_sent_all; [destruct (30 <? q) eqn:E in Hl; lia|done]).
    unfold tick_encode. cbn [enc_sflow NetFlow5Encoder enc_EncodePacket]. subst size.
    destruct (v5_EncodePacket_spec wall seq up batch buf) as [He HP]; [by rewrite Hs|rewrite Hs; unfold netFlow5HeaderLen, netFlow5RecordLen; destruct (30 <? q) eqn:E in Hl; lia|].
    rewrite Hs in He, HP. unfold v5_payload. unfold netFlow5HeaderLen, netFlow5RecordLen in HP. pose proof (len_nonneg batch). eexists. split; [exact He|].
    split; [lia|]. apply payload_tail. destruct (30 <? q) eqn:E in Hl; lia.
Qed.

Lemma sflow_law {R} (fe : FlowExporter R) up : fixed_law fe SFlowEncoder up (sflow_payload fe up) false.
Proof.
  constructor; [done| |done]. intros tmpl size Hsz. unfold size_ok in Hsz.
  pose proof (sflow_capacity_pos size ltac:(unfold sflowDatagramHeaderSize, sflowMaxFlowSampleSize; lia)) as Hc.
  exists (sflow_capacity size). split; [|split; [done|]].
  - unfold tick_capacity. cbn [enc_PacketSizes SFlowEncoder enc_MaxRecordSize enc_TrailingPadBytes enc_MaxRecordsPerDatagram].
    change (0 <? sflowMaxFlowSampleSize) with true. change (0 <? 0) with false. cbn [andb]. rewrite Z.add_0_r.
    replace (if tmpl then sflowDatagramHeaderSize else sflowDatagramHeaderSize) with sflowDatagramHeaderSize by (by destruct tmpl).
    fold (sflow_capacity size). pose proof (sflow_capacity_fits size (sflow_capacity size) ltac:(unfold sflowDatagramHeaderSize, sflowMaxFlowSampleSize; lia) ltac:(lia)) as Hf.
    unfold sflowDatagramHeaderSize, sflowMaxFlowSampleSize in *. destruct (28 + 128 <=? size) eqn:E0; [|lia]. rewrite Z.add_0_r. destruct (_ && _) eqn:E1; [lia|]. done.
  - intros wall seq batch buf Hb Hl Hex Hne. assert (Hne' : batch <> []) by (destruct Hne as [?|Hne]; [done|]; by destruct tmpl).
    assert (Hok : Forall record_ok batch) by (eapply List.Forall_impl; [|exact Hex]; by intros r [? _]).
    unfold tick_encode. cbn [enc_sflow SFlowEncoder]. fold (sflow_rate fe). subst size.
    destruct (EncodeFlowDatagram_spec (fe_domainID fe) (fe_subAgentID fe) seq up batch (sflow_rate fe) buf Hne' ltac:(unfold sflowDatagramHeaderSize, sflowMaxFlowSampleSize; lia) Hok) as (He & HP & Hn).
    rewrite take_within in He, HP, Hn by done. unfold sflow_payload. eexists. split; [exact He|]. split; [|by apply payload_tail].
    rewrite (len_app (sflow_header _ _ _ _ _)). change (len (sflow_header (fe_domainID fe) (fe_subAgentID fe) seq up (len batch))) with 28.
    match goal with |- context [28 + len ?x] => pose proof (len_nonneg x) end. lia.
Qed.

#[export] Instance v5_packer {R} (fe : FlowExporter R) up : FlowPacker fe NetFlow5Encoder up := fixed_packer (v5_law fe up).
#[export] Instance nf9_packer {R} (fe : FlowExporter R) up : FlowPacker fe NetFlow9Encoder up := fixed_packer (nf9_law fe up).
#[export] Instance ipfix_packer {R} (fe : FlowExporter R) up : FlowPacker fe IPFIXEncoder up := fixed_packer (ipfix_law fe up).
#[export] Instance sflow_packer {R} (fe : FlowExporter R) up : FlowPacker fe SFlowEncoder up := fixed_packer (sflow_law fe up).

(** ** The measured encoder *)

Lemma avc_fit_le cat start rs : forall room, (avc_fit cat start room rs <= length rs)%nat.
Proof. induction rs as [|r rs IH]; intros room; [done|]. cbn [avc_fit length]. case_if; [|lia]. specialize (IH (room - len (avc_record cat start r))). lia. Qed.

Lemma avc_packet_pos cat secs seq dom start tmpl rs : 0 < len (avc_packet cat secs seq dom start tmpl rs).
Proof.
  unfold avc_packet. cbv zeta. rewrite (len_app (be16 ipfixVersion)). change (len (be16 ipfixVersion)) with 2. match goal with |- context [2 + len ?x] => pose proof (len_nonneg x) end. lia.
Qed.

Lemma slice_take {A} (q : list A) k : (k <= length q)%nat -> slice q 0 (Z.of_nat k) = Ok (take k q).
Proof. intros Hk. unfold slice. destruct ((0 <? 0) || _ || _) eqn:E; [unfold len in E; lia|]. by rewrite Z.sub_0_r, drop_0, Nat2Z.id. Qed.
Lemma slice_drop {A} (q : list A) k : (k <= length q)%nat -> slice q (Z.of_nat k) (len q) = Ok (drop k q).
Proof.
  intros Hk. unfold slice. destruct ((Z.of_nat k <? 0) || _ || _) eqn:E; [unfold len in E; lia|]. rewrite Nat2Z.id, take_ge; [done|].
  rewrite length_drop. unfold len. lia.
Qed.

Definition avc_payload (cat : avcCatalog) (dom up wall seq : Z) (batch : list FlowRecord) (tmpl : bool) : bytes :=
  avc_packet cat (u32 (Z.quot (unixMilli wall) 1000)) seq dom (deviceStart (unixMilli wall) up) tmpl batch.

Definition avc_packer {R} (fe : FlowExporter R) cat up (Hs : strings_ok cat) : FlowPacker fe (IPFIXAVCEncoder cat) up.
Proof.
  refine {| fp_payload := avc_payload cat (fe_domainID fe) up; fp_lone := true; fp_unfit := avc_unfit cat |}.
  - intros env [q t b s l stt p lg] _ Hq Ht. cbn [t_expired t_tmpl] in Hq, Ht. subst q. destruct t; [done|]. reflexivity.
  - intros env st Hsz Hex Hgo. unfold size_ok in Hsz. unfold flow_pick. cbn [enc_measured IPFIXAVCEncoder].
    set (wall := e_wall env (length (t_log st))). set (start := deviceStart (unixMilli wall) up).
    assert (Hne : t_expired st <> [] \/ t_tmpl st = true) by (destruct Hgo as [?|Hgo]; [by left|right; by destruct (t_tmpl st)]).
    destruct (EncodeMeasured_spec cat wall (fe_domainID fe) (t_seq st) up (t_expired st) (t_tmpl st) (t_buf st) Hne) as (tail & He & Hl).
    { apply List.Forall_forall. intros r _. apply Hs. }
    { unfold avc_overhead, ipfixHeaderSize. rewrite len_avc_template. destruct (t_tmpl st); lia. }
    cbv zeta in He, Hl. fold start in He, Hl. set (k := avc_taken cat start (len (t_buf st)) (t_tmpl st) (t_expired st)) in *.
    assert (Hk : (k <= length (t_expired st))%nat) by apply avc_fit_le. rewrite He. destruct ((k =? 0)%nat && negb (t_tmpl st)) eqn:E0; cbn [res_bind t_expired with_buf].
    + right. zbool. assert (Et : t_tmpl st = false) by done. destruct (t_expired st) as [|r rest] eqn:Eq; [destruct Hne as [?|?]; [done|congruence]|].
      exists r, rest, tail. split.
      { unfold k, avc_taken, avc_overhead, ipfixHeaderSize in H. rewrite Et in H. cbn [avc_fit] in H. destruct (_ <=? _) eqn:Ef in H; [done|]. zbool. unfold avc_unfit. rewrite (avc_record_len cat 0 start). lia. }
      split; [done|]. split; [done|]. split; [done|]. change 1 with (Z.of_nat 1) at 1. rewrite slice_drop by (cbn; lia). cbn [res_bind drop]. change (0 <? 1) with true. done.
    + left. exists (take k (t_expired st)), (drop k (t_expired st)), tail. cbv zeta. set (P := avc_payload _ _ _ _ _ _ _).
      change (avc_packet cat (u32 (Z.quot (unixMilli wall) 1000)) (t_seq st) (fe_domainID fe) start (t_tmpl st) (take k (t_expired st))) with P in *.
      assert (HP : 0 < len P) by apply avc_packet_pos. split; [by rewrite take_drop|]. split.
      { destruct (t_tmpl st); [by right|left]. cbn [negb] in E0. rewrite andb_true_r in E0. apply Nat.eqb_neq in E0.
        destruct Hne as [Hne|?]; [|done]. destruct (t_expired st); [done|]. by destruct k. }
      split; [done|]. split; [done|]. rewrite slice_drop by done. cbn [res_bind]. change (0 <? 0) with false. cbn iota. rewrite slice_take by done. cbn [res_bind].
      destruct (len P =? 0) eqn:E1; [lia|]. done.
Defined.

(** ** Counters and tables *)

(** What a tick sends beside flows: counters, interfaces and applications. *)
Inductive metadata {R} (fe : FlowExporter R) (E : FlowEncoder) (up : Z) (d : bytes) : Prop :=
| meta_counters seq batch : enc_sflow E = true -> d = counter_datagram (fe_domainID fe) (fe_subAgentID fe) seq up batch -> metadata fe E up d
| meta_options enc wall seq ifs buf buf' n k : enc_options E = Some enc ->
    enc wall (fe_domainID fe) seq up (fe_optionShape fe) ifs buf = Ok (buf', Some (n, k)) -> d = take (Z.to_nat n) buf' -> metadata fe E up d
| meta_apps all enc wall seq apps buf buf' n k : enc_appTable E = Some (all, enc) ->
    enc wall (fe_domainID fe) seq apps buf = Ok (buf', Some (n, k)) -> d = take (Z.to_nat n) buf' -> metadata fe E up d.

(** Datagrams of a kind [M] added that carry no flow. *)
Definition appended (M : bytes -> Prop) (st st' : tstate) : Prop :=
  t_expired st' = t_expired st /\ t_part st' = t_part st /\ len (t_buf st') = len (t_buf st) /\ eqm (RecordsSent (t_stats st')) (RecordsSent (t_stats st)) /\
  exists more, t_log st' = t_log st ++ more /\ Forall (fun d => 0 < len d.1 <= len (t_buf st) /\ M d.1) more.

Lemma appended_refl M st : appended M st st.
Proof. repeat split; try done; [exists 0; lia|]. exists []. by rewrite app_nil_r. Qed.
Lemma appended_trans M a b c : appended M a b -> appended M b c -> appended M a c.
Proof.
  intros (H1 & H2 & H3 & [q H4] & more & H5 & H6) (H1' & H2' & H3' & [q' H4'] & more' & H5' & H6').
  split; [congruence|]. split; [congruence|]. split; [congruence|]. split; [exists (q + q'); lia|]. exists (more ++ more'). rewrite H5', H5, <- app_assoc. split; [done|].
  apply Forall_app. split; [done|]. by rewrite <- H3.
Qed.
Lemma appended_buf M st buf : len buf = len (t_buf st) -> appended M st (with_buf buf st).
Proof. intros Hb. repeat split; try done; [exists 0; cbn; lia|]. exists []. by rewrite app_nil_r. Qed.

Section tables.
Context {R : Type} (fe : FlowExporter R) (E : FlowEncoder) (up : Z) (env : tick_env).

Lemma wp_send_other (M : bytes -> Prop) n inc refused st (Q : tstate -> Prop) : 0 < n <= len (t_buf st) -> M (take (Z.to_nat n) (t_buf st)) -> (forall st', appended M st st' -> Q st') -> wp (send_other env n inc refused st) Q.
Proof.
  intros Hn HM HQ. unfold send_other. apply wp_bind, wp_slice; [lia|lia|]. rewrite Z.sub_0_r, drop_0. cbn [wp]. apply HQ. repeat split; try done.
  - cbn. destruct (e_fails env _ && negb refused); [exists 0; cbn; lia|]. cbn. destruct (u64_eqm (RecordsSent (t_stats st) + 0)) as [q ->]. exists q. lia.
  - eexists. split; [done|]. constructor; [|constructor]. cbn [fst]. split; [|done]. rewrite len_take. lia.
Qed.

Lemma counters_loop_spec fuel : forall records st, enc_sflow E = true -> size_ok (len (t_buf st)) -> Forall counter_ok records -> (length records <= fuel)%nat ->
  wp (counters_loop fe env up fuel records st) (appended (metadata fe E up) st).
Proof.
  induction fuel as [|fuel IH]; intros records st HE Hsz Hok Hf.
  { destruct records; [|cbn in Hf; lia]. cbn. apply appended_refl. }
  cbn [counters_loop]. destruct (len records =? 0) eqn:E0; zbool; [apply appended_refl|]. unfold sflowDatagramHeaderSize, sflowCountersSampleHeaderSize, sflowMaxCountersSampleSize.
  set (maxBatch := (len (t_buf st) - 28 - 20) ÷ 256). unfold size_ok in Hsz.
  assert (Hm : 1 <= maxBatch /\ 48 + maxBatch * 256 <= len (t_buf st)).
  { unfold maxBatch. rewrite Z.quot_div_nonneg by lia. split; [apply Z.div_le_lower_bound; lia|]. pose proof (Z.mul_div_le (len (t_buf st) - 28 - 20) 256). lia. }
  destruct (maxBatch <? 1) eqn:E1; [lia|]. clearbody maxBatch. apply wp_bind.
  replace (if maxBatch <? len records then _ else _) with (Ok (take (Z.to_nat maxBatch) records, drop (Z.to_nat maxBatch) records)).
  2:{ rewrite <- cut_queue by lia. destruct (maxBatch <? len records) eqn:E2, (len records <=? maxBatch) eqn:E3; (lia || done). }
  cbn [wp]. set (batch := take _ records). set (rest := drop _ records). assert (Hb : len batch <= maxBatch) by (unfold batch; rewrite len_take; lia).
  assert (Hne : batch <> []) by (unfold batch; destruct records; [done|]; destruct (Z.to_nat maxBatch) eqn:E2; [lia|done]).
  destruct (EncodeCounterDatagram_spec (fe_domainID fe) (fe_subAgentID fe) (t_seq st) up batch (t_buf st) Hne) as (He & HP & _);
    [unfold sflowDatagramHeaderSize, sflowMaxCountersSampleSize; lia|lia|by apply Forall_take|].
  apply wp_bind. rewrite He. cbn [wp]. set (P := counter_datagram _ _ _ _ _) in *. destruct (len P =? 0) eqn:E2; [lia|].
  assert (Hbuf : len (P ++ drop (Z.to_nat (len P)) (t_buf st)) = len (t_buf st)) by (rewrite len_app; apply payload_tail; lia).
  apply wp_bind, (wp_send_other (metadata fe E up)); [cbn [t_buf with_buf]; lia|cbn [t_buf with_buf]; rewrite take_len_app; by eapply meta_counters|]. intros st1 Ha.
  pose proof (appended_trans _ _ _ _ (appended_buf _ st _ Hbuf) Ha) as Ha1. eapply wp_mono; [apply IH|intros st2; by apply appended_trans].
  - done.
  - destruct Ha1 as (_ & _ & -> & _). done.
  - by apply Forall_drop.
  - unfold rest. rewrite length_drop. destruct records; [done|]. cbn in Hf |- *. lia.
Qed.

(** What a table loop needs of an encoder: it stays inside the buffer and takes
    a leading part of what is left. *)
Definition table_law {A} (encode : Z -> Z -> list A -> bytes -> res (bytes * option (Z * Z))) : Prop :=
  forall wall seq remaining buf, size_ok (len buf) -> remaining <> [] ->
  wp (encode wall seq remaining buf) (fun '(buf', r) => len buf' = len buf /\
    match r with None => True | Some (n, k) => 0 <= n <= len buf /\ 0 <= k <= len remaining end).

Lemma table_loop_spec {A} (M : bytes -> Prop) (encode : Z -> Z -> list A -> bytes -> res (bytes * option (Z * Z))) fuel : table_law encode ->
  (forall wall seq rs buf buf' n k, encode wall seq rs buf = Ok (buf', Some (n, k)) -> M (take (Z.to_nat n) buf')) ->
  forall remaining st, size_ok (len (t_buf st)) -> (length remaining <= fuel)%nat -> wp (table_loop E env fuel encode remaining st) (appended M st).
Proof.
  intros Hlaw HM. induction fuel as [|fuel IH]; intros remaining st Hsz Hf.
  { destruct remaining; [|cbn in Hf; lia]. cbn. apply appended_refl. }
  cbn [table_loop]. destruct (len remaining =? 0) eqn:E0; zbool; [apply appended_refl|]. apply wp_bind.
  destruct (encode _ _ _ _) as [[buf r]| |] eqn:Ee; pose proof (Hlaw (e_wall env (length (t_log st))) (t_seq st) remaining (t_buf st) Hsz ltac:(by intros ->)) as Hw; rewrite Ee in Hw; [|done..].
  destruct Hw as [Hb Hr]. cbn [wp]. pose proof (appended_buf M st buf Hb) as Ha.
  destruct r as [[n k]|]; [|exact Ha]. destruct ((n =? 0) || (k =? 0)) eqn:E1; [exact Ha|]. zbool.
  apply wp_bind, (wp_send_other M); [cbn [t_buf with_buf]; lia|cbn [t_buf with_buf]; by eapply HM|]. intros st1 Ha1. pose proof (appended_trans _ _ _ _ Ha Ha1) as Ha2.
  apply wp_bind, wp_slice; [lia|lia|]. eapply wp_mono; [apply IH|intros st2; by apply appended_trans].
  - destruct Ha2 as (_ & _ & -> & _). done.
  - rewrite length_take, length_drop. unfold len in *. lia.
Qed.
End tables.

Lemma nf9_recSize shape desc : nf9OptionShapes shape = Some desc -> recSize desc <= 80.
Proof. unfold nf9OptionShapes. repeat case_if; intros [= <-]; vm_compute; congruence. Qed.
Lemma ipfix_recSize shape desc : ipfixOptionShapes shape = Some desc -> recSize desc <= 80.
Proof. unfold ipfixOptionShapes. repeat case_if; intros [= <-]; vm_compute; congruence. Qed.

Lemma nf9_table {R} (fe : FlowExporter R) up shape : table_law (fun wall seq ifs buf => nf9_EncodeOptionsDatagram wall (fe_domainID fe) seq up shape ifs buf).
Proof.
  intros wall seq ifs buf Hsz Hne. unfold size_ok in Hsz. destruct (nf9OptionShapes shape) as [desc|] eqn:Hs.
  - pose proof (nf9_recSize shape desc Hs). destruct (nf9_options_spec wall (fe_domainID fe) seq up shape desc ifs buf Hs Hne ltac:(lia)) as (k & Hk & He & Hl).
    rewrite He. cbn [wp]. rewrite len_app, payload_tail by done. pose proof (len_nonneg (nf9_options_packet desc up (u32 (unix wall)) seq (fe_domainID fe) (take (Z.to_nat k) ifs))). lia.
  - unfold nf9_EncodeOptionsDatagram. rewrite Hs. destruct (len ifs =? 0); cbn; pose proof (len_nonneg ifs); lia.
Qed.
Lemma ipfix_table {R} (fe : FlowExporter R) shape : table_law (fun wall seq ifs buf => ipfix_EncodeOptionsDatagram wall (fe_domainID fe) seq shape ifs buf).
Proof.
  intros wall seq ifs buf Hsz Hne. unfold size_ok in Hsz. destruct (ipfixOptionShapes shape) as [desc|] eqn:Hs.
  - pose proof (ipfix_recSize shape desc Hs). destruct (ipfix_options_spec wall (fe_domainID fe) seq shape desc ifs buf Hs Hne ltac:(lia)) as (k & Hk & He & Hl).
    rewrite He. cbn [wp]. rewrite len_app, payload_tail by done. pose proof (len_nonneg (ipfix_options_packet desc (u32 (unix wall)) seq (fe_domainID fe) (take (Z.to_nat k) ifs))). lia.
  - unfold ipfix_EncodeOptionsDatagram. rewrite Hs. destruct (len ifs =? 0); cbn; pose proof (len_nonneg ifs); lia.
Qed.
Lemma app_table {R} (fe : FlowExporter R) : table_law (fun wall seq apps buf => EncodeAppTableDatagram wall (fe_domainID fe) seq apps buf).
Proof.
  intros wall seq apps buf Hsz Hne. unfold size_ok in Hsz. destruct (EncodeAppTableDatagram_spec wall (fe_domainID fe) seq apps buf Hne) as (k & Hk & He & Hl).
  { change ipfixAppTableRecSize with 83. lia. }
  cbv zeta in He, Hl. rewrite He. cbn [wp]. rewrite len_app, payload_tail by done. pose proof (len_nonneg (app_packet (u32 (unix wall)) seq (fe_domainID fe) (take (Z.to_nat k) apps))). lia.
Qed.

(** ** One tick *)

(** What a whole tick needs of an encoder. *)
Class LawfulEncoder {R} (fe : FlowExporter R) (E : FlowEncoder) (up : Z) := {
  le_packer :: FlowPacker fe E up;
  le_options : forall enc, enc_options E = Some enc -> table_law (fun wall seq ifs buf => enc wall (fe_domainID fe) seq up (fe_optionShape fe) ifs buf);
  le_apps : forall apps enc, enc_appTable E = Some (apps, enc) -> table_law (fun wall seq apps buf => enc wall (fe_domainID fe) seq apps buf)
}.
#[export] Instance v5_lawful {R} (fe : FlowExporter R) up : LawfulEncoder fe NetFlow5Encoder up.
Proof. refine {| le_packer := _ |}; done. Defined.
#[export] Instance nf9_lawful {R} (fe : FlowExporter R) up : LawfulEncoder fe NetFlow9Encoder up.
Proof. refine {| le_packer := _ |}; [|done]. intros enc [= <-]. apply nf9_table. Defined.
#[export] Instance ipfix_lawful {R} (fe : FlowExporter R) up : LawfulEncoder fe IPFIXEncoder up.
Proof. refine {| le_packer := _ |}; [|done]. intros enc [= <-]. apply ipfix_table. Defined.
#[export] Instance sflow_lawful {R} (fe : FlowExporter R) up : LawfulEncoder fe SFlowEncoder up.
Proof. refine {| le_packer := _ |}; done. Defined.
Definition avc_lawful {R} (fe : FlowExporter R) cat up (Hs : strings_ok cat) : LawfulEncoder fe (IPFIXAVCEncoder cat) up.
Proof.
  refine {| le_packer := avc_packer fe cat up Hs |}.
  - intros enc [= <-]. apply ipfix_table.
  - intros apps enc [= _ <-]. apply app_table.
Defined.

(** The counters an sFlow tick would send. *)
Definition snapshots {R} (fe : FlowExporter R) (now : Z) : list CounterRecord := concat (map (fun src => src now) (fe_counterSources fe)).

Lemma wp_if {A} (b : bool) (x : res A) (y : A) (P : A -> Prop) : (b = true -> wp x P) -> P y -> wp (if b then x else Ok y) P.
Proof. destruct b; cbn; auto. Qed.

Lemma tick_send_spec {R} `{Rand R} (fe : FlowExporter R) E env up scenActive st {L : LawfulEncoder fe E up} :
  size_ok (len (t_buf st)) -> Forall exportable (t_expired st) -> part_ok scenActive (t_part st) -> Forall counter_ok (snapshots fe (e_now env)) ->
  wp (tick_send fe E env up scenActive st) (fun st' => exists st1, flow_post (fe := fe) (E := E) (up := up) env scenActive st st1 /\ appended (metadata fe E up) st1 st').
Proof.
  intros Hsz Hex Hp Hc. unfold tick_send. apply wp_bind. eapply wp_mono; [apply flow_loop_spec; [done|done|done|destruct (t_tmpl st); lia]|].
  intros st1 Hpost. assert (Hb1 : len (t_buf st1) = len (t_buf st)) by (destruct Hpost as (? & ?); tauto).
  apply wp_bind. eapply (wp_mono _ (appended (metadata fe E up) st1)).
  { apply wp_if; [|apply appended_refl]. intros Hs. apply counters_loop_spec; [by destruct (enc_sflow E)|by rewrite Hb1|exact Hc|done]. }
  intros st2 Ha. apply wp_bind. eapply (wp_mono _ (appended (metadata fe E up) st1)).
  { apply wp_if; [|done]. intros _. destruct (enc_options E) as [enc|] eqn:Eo; [|done].
    eapply wp_mono; [apply table_loop_spec; [by apply (le_options enc)|intros; by eapply meta_options|destruct Ha as (_ & _ & -> & _); by rewrite Hb1|done]|]. intros st3. by apply appended_trans. }
  clear st2 Ha. intros st2 Ha. destruct (enc_appTable E) as [[apps enc]|] eqn:Ea; [|by exists st1].
  eapply (wp_mono _ (appended (metadata fe E up) st1)); [|intros st3 Ha3; by exists st1]. apply wp_if; [|done]. intros _.
  eapply wp_mono; [apply table_loop_spec; [by apply (le_apps apps enc)|intros; by eapply meta_apps|destruct Ha as (_ & _ & -> & _); by rewrite Hb1|done]|]. intros st3. by apply appended_trans.
Qed.

(** The cache a tick expires, what is due in it, and whether a template is. *)
Definition tick_cache {R} (fe : FlowExporter R) (env : tick_env) : FlowCache :=
  if 0 <? fe_override fe then fst (TrimTo (fe_cache fe) (targetFlows fe) (e_orderTrim env)) else fe_cache fe.
Definition tick_due {R} (fe : FlowExporter R) (env : tick_env) : list FlowRecord := snd (Expire (tick_cache fe env) (e_now env) (e_orderExpire env)).
Definition template_due {R} (fe : FlowExporter R) (now : Z) : bool :=
  match fe_lastTempl fe with None => true | Some l => fe_templateInterval fe <=? time_Sub now l end.

(** What becomes of the flows of a tick. *)
Inductive verdict := Sending | Closing | Suppressed.
Definition tick_verdict (fidelity : bool) (now : Z) (part : option scenarioPart) : verdict :=
  match part with
  | None => if fidelity then Suppressed else Sending
  | Some p => match snd (decide_fire p sourceScenario now) with gateProceed => if closed (drain p) then Closing else Sending | _ => Suppressed end
  end.

Record exporter_ok R `{Rand R} (fe : FlowExporter R) : Prop := {
  eo_cache : cache_inv R (fe_cache fe);
  eo_ipv4 : map_Forall (fun _ e => is_ipv4 (record e) = true) (flows (fe_cache fe));
  eo_profile : profile_ok (fe_profile fe);
  eo_catalog : option_Forall catalog_ok (fe_nbar2 fe);
  eo_part : option_Forall (fun p => gate_ok p /\ ledger_ok (ledger p)) (fe_scenPart fe)
}.
Record env_ok {R} (fe : FlowExporter R) (addr : bytes) (env : tick_env) : Prop := {
  ev_trim : ranges (fe_cache fe) (e_orderTrim env);
  ev_expire : ranges (tick_cache fe env) (e_orderExpire env);
  ev_counters : Forall counter_ok (snapshots fe (e_now env));
  ev_size : size_ok (flowPayloadBudget (e_budgets env) (Some addr));
  ev_pool : flowPayloadBudget (e_budgets env) (Some addr) <= len (e_pool env)
}.

Lemma drawn_ipv4 id r : drawn (domainIDtoIP id) r -> is_ipv4 r = true.
Proof.
  intros (_ & Hs & Hd). unfold is_ipv4. rewrite Hs. cbn [domainIDtoIP be32 To4 default]. destruct (DstIP r) as [|a [|b [|c [|d [|]]]]]; unfold len in Hd; cbn in Hd; by try lia.
Qed.

Section cycle.
Context {R : Type} `{RandLaws R} (fe : FlowExporter R) (addr : bytes) (env : tick_env).
Hypothesis Hfe : exporter_ok R fe.
Hypothesis Henv : env_ok fe addr env.

Lemma tick_cache_sub : tick_cache fe env = with_flows (flows (tick_cache fe env)) (fe_cache fe) /\ flows (tick_cache fe env) ⊆ flows (fe_cache fe) /\ cache_inv R (tick_cache fe env).
Proof.
  pose proof (eo_cache _ _ Hfe) as Hi. unfold tick_cache. destruct (0 <? fe_override fe); [|split; [by destruct (fe_cache fe)|done]].
  pose proof (TrimTo_spec _ (targetFlows fe) _ (ev_trim _ _ _ Henv)) as Ht. destruct (TrimTo _ _ _) as [c d] eqn:Et. cbn [fst]. destruct Ht as (H1 & H2 & _).
  split; [done|]. split; [done|]. by eapply cache_step_inv; [eapply step_TrimTo; [apply (ev_trim _ _ _ Henv)|exact Et]|].
Qed.

(** The cache after a tick: what was due is gone and nothing due is new. *)
Lemma tick_refill : exists c1 c2 g2,
  Expire (tick_cache fe env) (e_now env) (e_orderExpire env) = (c1, tick_due fe env) /\ Forall exportable (tick_due fe env) /\
  GenerateFlowsFrom c1 (fe_profile fe) (targetFlows fe) (domainIDtoIP (fe_domainID fe)) (e_now env) (tick_uptime fe (e_now env)) (fe_nbar2 fe) (fe_rng fe) = Ok (c2, g2) /\
  cache_inv R c2 /\ map_Forall (fun _ e => is_ipv4 (record e) = true /\ due (fe_cache fe) (e_now env) e = false) (flows c2).
Proof.
  destruct tick_cache_sub as (Hc & Hsub & Hinv). pose proof Hinv as (Hok & _). pose proof (ev_expire _ _ _ Henv) as Hr. destruct Hfe as [_ Hip4 Hpr Hcat _].
  destruct (Expire_spec _ (e_now env) _ Hok Hr) as (out & Heq & Hp & _). unfold tick_due. rewrite Heq. cbn [snd]. set (c1 := expired_state _ _) in *.
  assert (Hi1 : cache_inv R c1) by (by eapply cache_step_inv; [by eapply step_Expire|]). pose proof Hi1 as (_ & Ht1 & Hj1).
  assert (Hip : bytes_ok (domainIDtoIP (fe_domainID fe))) by apply bytes_ok_be32.
  assert (Hup : 0 <= tick_uptime fe (e_now env) < 2 ^ 32) by (apply Z.mod_pos_bound; lia).
  pose proof (GenerateFlowsFrom_spec c1 _ (targetFlows fe) _ (e_now env) _ _ (fe_rng fe) Hpr Hip Hup Hcat Ht1 Hj1) as Hg.
  apply wp_Ok in Hg as ([c2 g2] & Hg & H1 & H2 & _ & H4). exists c1, c2, g2. split; [done|]. split.
  { apply List.Forall_forall. intros r Hin%list_elem_of_In. rewrite Hp, list_elem_of_fmap in Hin. destruct Hin as (e & -> & He). unfold due_now in He.
    apply list_elem_of_filter in He as [_ (k & Hk)%entries_elem]. split; [by apply Hok in Hk as [_ ?]|]. eapply lookup_weaken in Hk; [|exact Hsub]. by apply Hip4 in Hk. }
  split; [done|]. split; [by eapply cache_step_inv; [eapply step_Generate; [exact Hpr|exact Hip|exact Hup|exact Hcat|exact Hg]|]|].
  assert (Hdue : forall e, due (tick_cache fe env) (e_now env) e = due (fe_cache fe) (e_now env) e) by (intros e; rewrite Hc; done).
  intros k e Hk. destruct (flows c1 !! k) as [e1|] eqn:E1.
  - assert (e1 = e) as -> by (eapply lookup_weaken in E1; [|exact H2]; congruence). unfold c1 in E1. cbn in E1. apply map_lookup_filter_Some in E1 as [E1 Hd]. cbn in Hd.
    rewrite <- Hdue. split; [|done]. eapply lookup_weaken in E1; [|exact Hsub]. by apply Hip4 in E1.
  - destruct (H4 k e Hk E1) as (_ & Hdr & Hd). split; [by eapply drawn_ipv4|]. rewrite <- Hdue. exact Hd.
Qed.
End cycle.

(** ** The gate and the ledger *)

(** What a tick with [n] flows due, [sent] of which the kernel took, does to the
    participant. *)
Definition ledger_post (v : verdict) (n sent : Z) (part part' : option scenarioPart) : Prop :=
  match part with
  | None => part' = None
  | Some p => exists l, part' = Some (with_ledger l p) /\ ledger_ok l /\
      match v with
      | Sending =>
          eqm (emitted l) (emitted (ledger p) + n) /\ eqm (inWindow l + drained l) (inWindow (ledger p) + drained (ledger p) + sent) /\
          eqm (sendFailures l) (sendFailures (ledger p) + (n - sent)) /\ dropped l = dropped (ledger p) /\ drained l = drained (ledger p)
      | Closing => l = (if 0 <? n then add c_dropped n (add c_emitted n (ledger p)) else ledger p)
      | Suppressed => l = (if 0 <? n then add c_background n (ledger p) else ledger p)
      end
  end.

Lemma eqm_refl a : eqm a a.
Proof. exists 0. lia. Qed.
Lemma eqm_add a b c : eqm a b -> eqm (a + c) (b + c).
Proof. intros [q ->]. exists q. lia. Qed.
Lemma eqm_trans a b c : eqm a b -> eqm b c -> eqm a c.
Proof. intros [q ->] [r ->]. exists (q + r). lia. Qed.

Lemma ledger_post_idle v part : option_Forall (fun p => gate_ok p /\ ledger_ok (ledger p)) part -> ledger_post v 0 0 part part.
Proof.
  intros Hp. destruct part as [p|]; [|done]. destruct Hp as [_ Hl]. exists (ledger p). rewrite with_ledger_same. split; [done|]. split; [done|].
  destruct v; [|done..]. rewrite !Z.add_0_r. split_and!; (apply eqm_refl || done).
Qed.
Lemma ledger_post_sent v n sent sent' part part' : eqm sent sent' -> ledger_post v n sent' part part' -> ledger_post v n sent part part'.
Proof.
  intros [q ->]. destruct part as [p|]; [|done]. intros (l & H1 & H2 & H3). exists l. split; [done|]. split; [done|]. destruct v; [|done..].
  destruct H3 as (He & [a Ha] & [b Hb] & Hd & Hr). split_and!; [done|exists (a - q); lia|exists (b + q); lia|done|done].
Qed.

Lemma count_ok c n l : ledger_ok l -> c = c_background -> ledger_ok (add c n l).
Proof. intros [Hw Ha Hs Hb] ->. by constructor. Qed.
Lemma dropped_ok n l : ledger_ok l -> ledger_ok (add c_dropped n (add c_emitted n l)).
Proof. intros [Hw Ha Hs Hb]. constructor; [done..|]. by apply add_balanced. Qed.

(** What the gate leaves to send. *)
Lemma tick_gate_spec fidelity now expired tmpl ctr part :
  option_Forall (fun p => gate_ok p /\ ledger_ok (ledger p)) part -> part <> None \/ fidelity = false ->
  let '(part', go) := tick_gate now expired tmpl ctr part in
  match tick_verdict fidelity now part with
  | Sending => go = Some (expired, match part with None => false | Some _ => true end) /\
      match part with None => part' = None | Some p => part' = Some (with_drain {| closed := false; inflight := inflight (drain p) + 1 |} p) /\ closed (drain p) = false /\ (classify p now).1 = true end
  | _ => go = None \/ go = Some ([], false) /\ (tmpl || ctr) = true
  end /\ (tick_verdict fidelity now part <> Sending -> ledger_post (tick_verdict fidelity now part) (len expired) 0 part part').
Proof.
  intros Hp Hf. unfold tick_verdict, tick_gate. destruct part as [p|]; [|destruct Hf as [?| ->]; done]. cbn in Hp. destruct Hp as [_ Hl].
  assert (Hbare : (if negb tmpl && negb ctr then None else Some ([] : list FlowRecord, false)) = None \/
    (if negb tmpl && negb ctr then None else Some ([] : list FlowRecord, false)) = Some ([], false) /\ (tmpl || ctr) = true) by (destruct tmpl, ctr; auto).
  assert (Hsup : ledger_post Suppressed (len expired) 0 (Some p) (Some (if 0 <? len expired then count c_background (len expired) p else p))).
  { exists (if 0 <? len expired then add c_background (len expired) (ledger p) else ledger p).
    destruct (0 <? len expired); (split; [by rewrite ?with_ledger_same|]); (split; [|done]); [by apply count_ok|done]. }
  unfold decide_fire. destruct (gate p) as [gs|] eqn:Eg; cbn [snd]; [|split; [exact Hbare|intros _; exact Hsup]].
  change (bool_decide (sourceScenario = sourceBackground)) with false. cbn iota.
  destruct (gs_phase gs); cbn [snd]; try (split; [exact Hbare|intros _; exact Hsup]).
  destruct (now <? gs_t1 gs) eqn:Ew; [|split; [exact Hbare|intros _; exact Hsup]]. unfold admitFire. destruct (closed (drain p)) eqn:Ec.
  - assert (Hsame : with_drain (drain p) p = p) by (by destruct p). rewrite Hsame. split; [exact Hbare|]. intros _.
    exists (if 0 <? len expired then add c_dropped (len expired) (add c_emitted (len expired) (ledger p)) else ledger p).
    destruct (0 <? len expired); (split; [by rewrite ?with_ledger_same|]); (split; [|done]); [by apply dropped_ok|done].
  - split; [|done]. split; [done|]. split; [done|]. split; [done|]. unfold classify. by rewrite Eg, Ew.
Qed.

Lemma delivered_none env evs : forall n, concat (map event_records evs) = [] -> delivered env n evs = 0.
Proof.
  induction evs as [|[b|r] evs IH]; intros n He; [done|..]; cbn in He; [|done]. apply app_eq_nil in He as [-> He]. cbn [delivered]. rewrite IH by done. by destruct (e_fails env n).
Qed.
Lemma sent_log_length env evs : forall n, delivered env n evs <= len (concat (map event_records evs)).
Proof.
  induction evs as [|[b|r] evs IH]; intros n; [done|..]; cbn [map concat event_records delivered]; rewrite len_app.
  - specialize (IH (S n)). pose proof (len_nonneg b). destruct (e_fails env n); lia.
  - specialize (IH n). change (len [r]) with 1. lia.
Qed.

Section whole.
Context {R : Type} `{RandLaws R} (fe : FlowExporter R) (E : FlowEncoder) (addr : bytes) (env : tick_env).
Context {L : LawfulEncoder fe E (tick_uptime fe (e_now env))}.

(** What a tick leaves: the exporter, its statistics and the datagrams. *)
Definition tick_post (out : FlowExporter R * FlowTickStats * list (bytes * bool)) : Prop :=
  let '(fe', stats, log) := out in
  let v := tick_verdict (e_fidelity env) (e_now env) (fe_scenPart fe) in
  exporter_ok R fe' /\ map_Forall (fun _ e => due (fe_cache fe) (e_now env) e = false) (flows (fe_cache fe')) /\
  ledger_post v (len (tick_due fe env)) (RecordsSent stats) (fe_scenPart fe) (fe_scenPart fe') /\
  exists evs more, concat (map event_records evs) = match v with Sending => tick_due fe env | _ => [] end /\ Forall (lossless (fp_unfit (fe := fe) (E := E) (up := tick_uptime fe (e_now env)) (flowPayloadBudget (e_budgets env) (Some addr)))) evs /\
    log = sent_log (fe := fe) (E := E) (up := tick_uptime fe (e_now env)) env 0 (fe_seqNo fe) (template_due fe (e_now env)) evs ++ more /\
    Forall (fun d => 0 < len d.1 <= flowPayloadBudget (e_budgets env) (Some addr)) log /\
    Forall (fun d => metadata fe E (tick_uptime fe (e_now env)) d.1) more /\
    eqm (RecordsSent stats) (delivered env 0 evs).

Lemma part_kept v n sent p p' : option_Forall (fun q => gate_ok q /\ ledger_ok (ledger q)) p -> ledger_post v n sent p p' -> option_Forall (fun q => gate_ok q /\ ledger_ok (ledger q)) p'.
Proof. intros Hp Hl. destruct p as [p|]; cbn in Hl; [|by subst]. destruct Hl as (l & -> & Hl & _), Hp as [Hg _]. done. Qed.

Lemma with_tick_ok c g seq last part : exporter_ok R fe -> cache_inv R c -> map_Forall (fun _ e => is_ipv4 (record e) = true /\ due (fe_cache fe) (e_now env) e = false) (flows c) ->
  option_Forall (fun q => gate_ok q /\ ledger_ok (ledger q)) part -> exporter_ok R (with_tick fe c g seq last part).
Proof. intros [_ _ Hp Hc _] Hi H4 Hpt. constructor; [done| |done|done|done]. by eapply map_Forall_impl; [exact H4|]; intros k e [? _]. Qed.

(** A tick that ends before the first datagram. *)
Lemma tick_quiet c g part : exporter_ok R fe -> cache_inv R c -> map_Forall (fun _ e => is_ipv4 (record e) = true /\ due (fe_cache fe) (e_now env) e = false) (flows c) ->
  ledger_post (tick_verdict (e_fidelity env) (e_now env) (fe_scenPart fe)) (len (tick_due fe env)) 0 (fe_scenPart fe) part ->
  (tick_verdict (e_fidelity env) (e_now env) (fe_scenPart fe) = Sending -> tick_due fe env = []) ->
  tick_post (with_tick fe c g (fe_seqNo fe) (fe_lastTempl fe) part, noStats, []).
Proof.
  intros Hfe Hi H4 Hl Hd. split; [apply with_tick_ok; [done..|]; eapply part_kept; [apply Hfe|exact Hl]|]. split; [by eapply map_Forall_impl; [exact H4|]; intros k e [_ ?]|].
  split; [exact Hl|]. exists [], []. split; [destruct (tick_verdict _ _ _); [by rewrite Hd|done..]|]. split; [constructor|]. split; [done|]. split; [constructor|]. split; [constructor|apply eqm_refl].
Qed.

(** From the flow loop on. *)
Lemma tick_sends c g expired scenActive part : exporter_ok R fe -> env_ok fe addr env -> cache_inv R c ->
  map_Forall (fun _ e => is_ipv4 (record e) = true /\ due (fe_cache fe) (e_now env) e = false) (flows c) -> Forall exportable expired -> part_ok scenActive part ->
  let v := tick_verdict (e_fidelity env) (e_now env) (fe_scenPart fe) in
  expired = match v with Sending => tick_due fe env | _ => [] end ->
  (forall sent part', part_booked env scenActive part part' (len expired) sent ->
    ledger_post v (len (tick_due fe env)) sent (fe_scenPart fe) (if scenActive then (fun p => with_drain (leave (drain p)) p) <$> part' else part')) ->
  wp (let! buf := (if flowPayloadBudget (e_budgets env) (Some addr) <? len (e_pool env) then slice (e_pool env) 0 (flowPayloadBudget (e_budgets env) (Some addr)) else Ok (e_pool env)) in
      let! st := tick_send fe E env (tick_uptime fe (e_now env)) scenActive
                   {| t_expired := expired; t_tmpl := template_due fe (e_now env); t_buf := buf; t_seq := fe_seqNo fe; t_last := fe_lastTempl fe;
                      t_stats := noStats; t_part := part; t_log := [] |} in
      Ok (with_tick fe c g (t_seq st) (t_last st) (if scenActive then (fun p => with_drain (leave (drain p)) p) <$> t_part st else t_part st), t_stats st, t_log st)) tick_post.
Proof.
  intros Hfe Henv Hi H4 Hex Hp v Hv Hl. pose proof (ev_size _ _ _ Henv) as Hsz. pose proof (ev_pool _ _ _ Henv) as Hpool.
  set (budget := flowPayloadBudget _ _) in *. apply wp_bind. eapply (wp_mono _ (fun buf => len buf = budget)).
  { destruct (budget <? len (e_pool env)) eqn:E0; zbool; [|cbn [wp]; lia]. apply wp_slice; [unfold size_ok in Hsz; lia|lia|]. rewrite Z.sub_0_r, drop_0, len_take. clear - Hsz Hpool. clearbody budget. unfold size_ok in Hsz. lia. }
  intros buf Hb. apply wp_bind. eapply wp_mono; [apply tick_send_spec; [cbn; by rewrite Hb|done|done|apply Henv]|].
  intros st' (st1 & (evs & He & Hlo & _ & Hlog & _ & Hfa & Hb1 & Hrs & Hbk) & (_ & Hp' & _ & Hrs' & more & Hlog' & Hfa')).
  cbn [t_expired t_log t_seq t_tmpl t_buf t_stats t_part length app] in *. cbn [wp]. rewrite Hb in *.
  pose proof (eqm_trans _ _ _ Hrs' Hrs) as Hsent. cbn [noStats RecordsSent] in Hsent. rewrite Z.add_0_l in Hsent.
  pose proof (Hl _ _ Hbk) as Hpost. rewrite <- Hp' in Hpost. split; [apply with_tick_ok; [done..|]; by eapply part_kept; [apply Hfe|exact Hpost]|].
  split; [by eapply map_Forall_impl; [exact H4|]; intros k e [_ ?]|]. split; [by eapply ledger_post_sent; [exact Hsent|exact Hpost]|].
  exists evs, more. split; [by rewrite He|]. split; [exact Hlo|]. rewrite Hlog', Hlog. split; [done|]. rewrite Hb1 in Hfa'. split; [|split; [|done]].
  - apply Forall_app. split; [exact Hfa|]. eapply List.Forall_impl; [|exact Hfa']. by intros d [? _].
  - eapply List.Forall_impl; [|exact Hfa']. by intros d [_ ?].
Qed.

Lemma Tick_spec : exporter_ok R fe -> env_ok fe addr env -> fe_encoder fe = Some E -> fe_collectorAddr fe = Some addr -> fe_conn fe || e_shared env = true ->
  wp (Tick fe env) tick_post.
Proof.
  intros Hfe Henv HE Ha Hc. unfold Tick. rewrite HE, Ha. destruct (negb (fe_conn fe) && negb (e_shared env)) eqn:E0; [by destruct (fe_conn fe), (e_shared env)|]. clear E0.
  destruct (tick_refill fe addr env Hfe Henv) as (c1 & c2 & g2 & Hexp & Hex & Hgen & Hi & H4). fold (tick_cache fe env). rewrite Hexp. apply wp_bind. rewrite Hgen. cbn [wp].
  fold (template_due fe (e_now env)). pose proof (eo_part _ _ Hfe) as Hpart.
  destruct ((len (tick_due fe env) =? 0) && _) eqn:E1.
  { apply andb_true_iff in E1 as [E1%Z.eqb_eq _]. cbn [wp]. apply tick_quiet; [done..| |intros _; by apply len_0_nil]. rewrite E1. by apply ledger_post_idle. }
  clear E1. destruct (_ && fidelityMutesBackground _ _) eqn:E2.
  { cbn [wp]. destruct (fe_scenPart fe) as [p|] eqn:Ep; [done|]. unfold fidelityMutesBackground in E2. destruct (e_fidelity env) eqn:Ef; [|done].
    apply tick_quiet; rewrite ?Ep, ?Ef; done. }
  assert (Hf : fe_scenPart fe <> None \/ e_fidelity env = false) by (destruct (fe_scenPart fe); [by left|right; by destruct (e_fidelity env)]).
  pose proof (tick_gate_spec (e_fidelity env) (e_now env) (tick_due fe env) (template_due fe (e_now env)) (0 <? len (fe_counterSources fe)) _ Hpart Hf) as Hg.
  destruct (tick_gate _ _ _ _ _) as [part' go] eqn:Eg. destruct Hg as [Hg Hpost]. destruct (tick_verdict _ _ _) eqn:Ev.
  - destruct Hg as [-> Hg]. apply tick_sends; rewrite ?Ev; try done.
    + destruct (fe_scenPart fe) as [p|]; [|done]. destruct Hg as (-> & _). intros _. eexists. split; [done|]. exact Hpart.
    + intros sent q. destruct (fe_scenPart fe) as [p|]; cbn [part_booked]; [|by intros ->]. destruct Hg as (-> & Hcl & Hin).
      intros (a & b & [= <-] & -> & (l & -> & Hok & He & Hs & Hfl & Hd & Hdr)). exists l. split.
      { cbn. f_equal. destruct p as [gt ld [cl inf] ca nb ow]. cbn in *. unfold with_drain, with_ledger, leave. cbn. do 2 f_equal; [done|lia]. }
      split; [done|]. split_and!; try done. by apply Hdr.
  - destruct Hg as [->|[-> _]]; [cbn [wp]; apply tick_quiet; rewrite ?Ev; try done; by apply Hpost|].
    apply tick_sends; rewrite ?Ev; try done. intros sent q. cbn [part_booked]. intros ->. by apply Hpost.
  - destruct Hg as [->|[-> _]]; [cbn [wp]; apply tick_quiet; rewrite ?Ev; try done; by apply Hpost|].
    apply tick_sends; rewrite ?Ev; try done. intros sent q. cbn [part_booked]. intros ->. by apply Hpost.
Qed.
End whole.

(** ** A collector fed with the datagrams of a tick *)

(** The datagrams the kernel took. *)
Definition received (log : list (bytes * bool)) : list bytes := map fst (List.filter (fun d => negb d.2) log).
(** The records of the batches among them. *)
Fixpoint arrived (env : tick_env) (n : nat) (evs : list event) : list FlowRecord :=
  match evs with
  | [] => []
  | Carried b :: evs' => (if e_fails env n then [] else b) ++ arrived env (S n) evs'
  | Lost _ :: evs' => arrived env n evs'
  end.
(** A NetFlow v9 collector reads datagram after datagram, with the templates it
    has learnt. *)
Fixpoint collects9 (ts : gmap Z (list (Z * Z))) (ds : list bytes) : option (list (Z * list (Z * Z))) :=
  match ds with
  | [] => Some []
  | d :: ds' => rd ← collect9 ts d; rest ← collects9 (r9_templates rd) ds'; Some (map (fun '(id, rec) => (id, numbers rec)) (r9_records rd) ++ rest)
  end.

Lemma arrived_len env evs : forall n, len (arrived env n evs) = delivered env n evs.
Proof. induction evs as [|[b|r] evs IH]; intros n; [done|..]; cbn [arrived delivered]; [rewrite len_app, IH; by destruct (e_fails env n)|apply IH]. Qed.
Lemma arrived_all env evs : forall n, (forall k, e_fails env k = false) -> Forall (lossless (fun _ => False)) evs ->
  arrived env n evs = concat (map event_records evs).
Proof. intros n Hf Hc. revert n. induction Hc as [|[b|r] evs He _ IH]; intros n; [done| |done]. cbn [arrived map concat event_records]. by rewrite Hf, IH. Qed.

Lemma collects9_sent {R} (fe : FlowExporter R) up env evs : 0 <= fe_domainID fe < 2 ^ 32 -> 0 <= up < 2 ^ 32 -> forall ts n seq tmpl,
  0 <= seq < 2 ^ 32 -> Forall exportable (concat (map event_records evs)) ->
  Forall (fun d => 0 < len d.1 <= 65507) (sent_log (fe := fe) (E := NetFlow9Encoder) (up := up) env n seq tmpl evs) ->
  ts !! nf9TemplateID = Some nf9Fields \/ tmpl = true /\ e_fails env n = false ->
  collects9 ts (received (sent_log (fe := fe) (E := NetFlow9Encoder) (up := up) env n seq tmpl evs)) =
    Some (map (fun r => (nf9TemplateID, elements nf9Fields (element r))) (arrived env n evs)).
Proof.
  intros Hd Hu. induction evs as [|[b|r] evs IH]; intros ts n seq tmpl Hseq Hex Hsz Hk; [done|..].
  2:{ cbn [sent_log arrived] in *. cbn in Hex. inversion_clear Hex. by apply IH. }
  cbn [sent_log arrived map concat event_records] in *. apply Forall_app in Hex as [Hb Hex]. inversion_clear Hsz as [|? ? Hl Hsz']. cbn [fst] in Hl.
  assert (Hs' : 0 <= u32 (seq + u32 (enc_SeqIncrement NetFlow9Encoder (len b))) < 2 ^ 32) by apply u32_bound.
  unfold received. cbn [List.filter snd]. destruct (e_fails env n) eqn:Ef; cbn [negb map app fst].
  { apply IH; [done..|]. left. by destruct Hk as [?|[_ ?]]. }
  change (fp_payload _ _ _ _) with (nf9_payload (fe_domainID fe) up (e_wall env n) seq b tmpl) in *. unfold nf9_payload in *. cbn [collects9].
  assert (Hk' : tmpl = true \/ ts !! nf9TemplateID = Some nf9Fields) by tauto.
  assert (Hds : len (data_set nf9TemplateID (map nf9_record b)) < 2 ^ 16).
  { unfold nf9_packet in Hl. rewrite !len_app, !len_be16, !len_be32 in Hl. pose proof (len_nonneg (if tmpl then buildNF9Template else [])). lia. }
  rewrite collect9_packet by (done || apply u16_range || apply u32_bound). cbn [mbind option_bind r9_templates r9_records].
  fold (received (sent_log (fe := fe) (E := NetFlow9Encoder) (up := up) env (S n) (u32 (seq + u32 (enc_SeqIncrement NetFlow9Encoder (len b)))) false evs)).
  rewrite IH; [|done|done|done|left; destruct tmpl; [apply lookup_insert_eq|by destruct Hk']]. cbn [mbind option_bind]. f_equal. rewrite map_app. f_equal.
  apply elements_of_records. intros r Hr. apply nf9_numbers. apply list_elem_of_In in Hr. by eapply List.Forall_forall in Hr; [|exact Hb]; destruct Hr.
Qed.

(** ** Theorems *)




(** ** Instances *)

#[local] Existing Instance cycle_rand.
#[local] Existing Instance cycle_laws.

Lemma agedCache_inv : cache_inv Z agedCache.
Proof.
  assert (Hr : forall port, 0 <= port < 2 ^ 16 -> record_ok (sampleRecord port)).
  { intros port Hp. unfold record_ok. cbn. repeat split; try lia; repeat constructor; lia. }
  assert (H0 : cache_inv Z sampleCache) by (split; [apply NewFlowCache_ok|split; [split; vm_compute; done|apply cycle_jitter]]).
  unfold agedCache. do 3 (eapply cache_step_inv; [eapply step_Add; apply Hr; lia|]). exact H0.
Qed.

(** A participant whose window runs for a minute. *)
Definition samplePart : scenarioPart :=
  {| gate := Some {| gs_phase := phaseRunning; gs_t0 := 0; gs_t1 := 60000 * Millisecond |}; ledger := newLedger;
     drain := {| closed := false; inflight := 0 |}; countApps := true; part_nbar2 := None; owner := str "load" |}.
Definition sampleExporter : FlowExporter Z :=
  {| fe_cache := agedCache; fe_profile := sampleProfile; fe_override := 0; fe_rng := 7; fe_seqNo := 41; fe_domainID := 0x0A000001; fe_subAgentID := 0; fe_startTime := 0;
     fe_lastTempl := None; fe_templateInterval := 60000 * Millisecond; fe_collectorAddr := Some [10; 0; 0; 9]; fe_encoder := Some NetFlow9Encoder; fe_conn := true;
     fe_counterSources := []; fe_optionShape := []; fe_optionIfaces := []; fe_nbar2 := None; fe_scenPart := Some samplePart |}.
Definition sampleEnv (fails : nat -> bool) : tick_env :=
  {| e_now := agedNow; e_shared := false; e_pool := repeat 0 1472; e_budgets := recomputeDatagramBudgets 1500; e_fidelity := false;
     e_orderTrim := agedOrder; e_orderExpire := agedOrder; e_wall := fun _ => agedNow; e_fails := fails |}.

Lemma samplePart_ok : gate_ok samplePart /\ ledger_ok (ledger samplePart).
Proof.
  split; [unfold gate_ok; cbn; unfold Millisecond; lia|]. constructor; [done|apply map_Forall_empty|apply eqm_refl|apply eqm_refl].
Qed.
Lemma sampleExporter_ok : exporter_ok Z sampleExporter.
Proof.
  constructor; [apply agedCache_inv| |apply sampleProfile_ok|done|apply samplePart_ok].
  intros k e He. unfold sampleExporter, fe_cache in He. revert k e He. change (map_Forall (fun _ e => is_ipv4 (record e) = true) (flows agedCache)).
  apply map_Forall_to_list. vm_compute. repeat constructor.
Qed.
Lemma sampleEnv_ok fails : env_ok sampleExporter [10; 0; 0; 9] (sampleEnv fails).
Proof. constructor; [unfold ranges; reflexivity|unfold ranges; reflexivity|constructor|split; vm_compute; congruence|vm_compute; congruence]. Qed.

Definition goodEnv : tick_env := sampleEnv (fun _ => false).
Definition badEnv : tick_env := sampleEnv (fun _ => true).
Lemma sample_sends fails : tick_verdict (e_fidelity (sampleEnv fails)) (e_now (sampleEnv fails)) (fe_scenPart sampleExporter) = Sending.
Proof. vm_compute. reflexivity. Qed.
Lemma sample_budget fails : flowPayloadBudget (e_budgets (sampleEnv fails)) (Some [10; 0; 0; 9]) = 1472.
Proof. reflexivity. Qed.




(** An sFlow device with one counter and no flow due, whose every write fails: the
    statistics count the refused datagram as sent and report no failure. *)
Definition counterExporter : FlowExporter Z :=
  {| fe_cache := sampleCache; fe_profile := sampleProfile; fe_override := 0; fe_rng := 7; fe_seqNo := 41; fe_domainID := 0x0A000001; fe_subAgentID := 0; fe_startTime := 0;
     fe_lastTempl := None; fe_templateInterval := 60000 * Millisecond; fe_collectorAddr := Some [10; 0; 0; 9]; fe_encoder := Some SFlowEncoder; fe_conn := true;
     fe_counterSources := [fun _ => [{| Format := 1; SourceID := 3; Body := repeat 0 88 |}]]; fe_optionShape := []; fe_optionIfaces := []; fe_nbar2 := None; fe_scenPart := None |}.
Lemma refused_counters_count_as_sent :
  wp (Tick counterExporter badEnv) (fun '(_, stats, log) => map snd log = [true] /\ PacketsSent stats = 1 /\ SendFailures stats = 0).
Proof. vm_compute. split_and!; reflexivity. Qed.
