(* ===== verification/Nbar2.v ===== *)
(** * The application catalogs of NBAR2 flows (nbar2_catalog.go)

    A catalog is read from a decoded file, merged with the overlay of a device
    type, checked against the datagram budget and finalised into what the encoder
    and the generator read.  The properties: names and identifiers stay unique,
    the draw tables and the encoder's catalog agree on the applications, and no
    record of a finalised catalog is too long for the datagrams of the budget it
    was checked against, so an NBAR2 exporter gives up no flow. *)

From stdpp Require Import gmap.
From S2P Require Import Prelude GoStrings Ber Oid TypedValue Request Response OidOrder TrapCatalog.
From S2P Require Import FlowWire FlowTemplates FlowCollect FlowV5 FlowSflow FlowAvc FlowCache Scenario FlowTick FlowExport.

(** ** Files *)

Definition avcEngineIANAL4 : Z := 3.
Definition avcEngineUser : Z := 6.
Definition avcEnginePANAL7 : Z := 13.
Definition avcSelectorMax : Z := 0xFFFFFF.
Definition avcNameMaxLen : Z := ipfixApplicationNameLen.
Definition avcDescMaxLen : Z := ipfixApplicationDescriptionLen.
Definition avcValueMaxLen : Z := 65535.
Definition nbar2DefaultWght : Z := 1.

Record nbar2ValueJSON := { jv_Value : bytes; jv_Weight : Z }.
(** The protocol and the port are absent when their keys are. *)
Record nbar2EntryJSON := {
  je_Name : bytes;
  je_Description : bytes;
  je_Engine : Z;
  je_Selector : Z;
  je_Proto : option Z;
  je_DstPort : option Z;
  je_Weight : Z;
  je_Hosts : list nbar2ValueJSON;
  je_URIs : list nbar2ValueJSON
}.
Record nbar2CatalogJSON := { jc_Extends : option bool; jc_Entries : list nbar2EntryJSON }.

Record nbar2Value := { nv_Value : bytes; nv_Weight : Z }.
Record nbar2Entry := {
  ne_Name : bytes;
  ne_Description : bytes;
  ne_Engine : Z;
  ne_Selector : Z;
  ne_ID : Z;
  ne_Proto : Z;
  ne_DstPort : Z;
  ne_Weight : Z;
  ne_Hosts : list nbar2Value;
  ne_URIs : list nbar2Value;
  ne_oversized : bool
}.
(** A catalog that is not finalised. *)
Record nbar2Loaded := { nl_Entries : list nbar2Entry; nl_ByName : gmap bytes nbar2Entry; nl_Extends : bool }.

Fixpoint compileNbar2Values (raw : list nbar2ValueJSON) : option (list nbar2Value) :=
  match raw with
  | [] => Some []
  | v :: raw' =>
      if beq (jv_Value v) [] then None else
      if avcValueMaxLen <? len (jv_Value v) then None else
      if jv_Weight v <? 0 then None else
      out ← compileNbar2Values raw';
      Some ({| nv_Value := jv_Value v; nv_Weight := if jv_Weight v =? 0 then nbar2DefaultWght else jv_Weight v |} :: out)
  end.

Definition compileNbar2Entry (raw : nbar2EntryJSON) : option nbar2Entry :=
  if beq (TrimSpace (je_Name raw)) [] then None else
  if avcNameMaxLen <? len (je_Name raw) then None else
  if avcDescMaxLen <? len (je_Description raw) then None else
  if negb ((je_Engine raw =? avcEngineIANAL4) || (je_Engine raw =? avcEngineUser) || (je_Engine raw =? avcEnginePANAL7)) then None else
  if (je_Selector raw <? 0) || (avcSelectorMax <? je_Selector raw) then None else
  proto ← je_Proto raw;
  if bool_decide (je_DstPort raw = None) && negb (proto =? 1) then None else
  let dstPort := default 0 (je_DstPort raw) in
  if (dstPort <? 0) || (65535 <? dstPort) then None else
  if (proto =? 1) && negb (dstPort =? 0) then None else
  if je_Weight raw <? 0 then None else
  let weight := if je_Weight raw =? 0 then nbar2DefaultWght else je_Weight raw in
  hosts ← compileNbar2Values (je_Hosts raw);
  uris ← compileNbar2Values (je_URIs raw);
  Some {| ne_Name := je_Name raw; ne_Description := je_Description raw; ne_Engine := u8 (je_Engine raw); ne_Selector := u32 (je_Selector raw);
          ne_ID := avcApplicationID (u8 (je_Engine raw)) (u32 (je_Selector raw)); ne_Proto := proto; ne_DstPort := u16 dstPort; ne_Weight := weight;
          ne_Hosts := hosts; ne_URIs := uris; ne_oversized := false |}.

(** One entry after the other; names and identifiers are refused the second time. *)
Fixpoint parse_entries (raws : list nbar2EntryJSON) (entries : list nbar2Entry) (byName : gmap bytes nbar2Entry) (byID : gmap Z bytes)
    : option (list nbar2Entry * gmap bytes nbar2Entry) :=
  match raws with
  | [] => Some (entries, byName)
  | raw :: raws' =>
      e ← compileNbar2Entry raw;
      if bool_decide (is_Some (byName !! ne_Name e)) then None else
      if bool_decide (is_Some (byID !! ne_ID e)) then None else
      parse_entries raws' (entries ++ [e]) (<[ne_Name e := e]> byName) (<[ne_ID e := ne_Name e]> byID)
  end.
(** [parseNbar2Catalog] on a file the JSON decoder has read. *)
Definition parseNbar2Catalog (doc : nbar2CatalogJSON) : option nbar2Loaded :=
  if len (jc_Entries doc) =? 0 then None else
  '(entries, byName) ← parse_entries (jc_Entries doc) [] ∅ ∅;
  Some {| nl_Entries := entries; nl_ByName := byName; nl_Extends := match jc_Extends doc with None => true | Some b => b end |}.

(** ** Overlays *)

Fixpoint overlay_base (es : list nbar2Entry) (over : gmap bytes nbar2Entry) (entries : list nbar2Entry) (byName : gmap bytes nbar2Entry)
    : list nbar2Entry * gmap bytes nbar2Entry :=
  match es with
  | [] => (entries, byName)
  | e :: es' =>
      let cp := match over !! ne_Name e with Some o => o | None => e end in
      overlay_base es' over (entries ++ [cp]) (<[ne_Name e := cp]> byName)
  end.
Fixpoint overlay_rest (os : list nbar2Entry) (entries : list nbar2Entry) (byName : gmap bytes nbar2Entry) : list nbar2Entry * gmap bytes nbar2Entry :=
  match os with
  | [] => (entries, byName)
  | o :: os' =>
      match byName !! ne_Name o with
      | Some _ => overlay_rest os' entries byName
      | None => overlay_rest os' (entries ++ [o]) (<[ne_Name o := o]> byName)
      end
  end.
Fixpoint ids_distinct (es : list nbar2Entry) (byID : gmap Z bytes) : bool :=
  match es with
  | [] => true
  | e :: es' => if bool_decide (is_Some (byID !! ne_ID e)) then false else ids_distinct es' (<[ne_ID e := ne_Name e]> byID)
  end.
Definition nbar2_MergeOverlay (c overlay : nbar2Loaded) : option nbar2Loaded :=
  let '(entries, byName) := overlay_base (nl_Entries c) (nl_ByName overlay) [] ∅ in
  let '(entries, byName) := overlay_rest (nl_Entries overlay) entries byName in
  if ids_distinct entries ∅ then Some {| nl_Entries := entries; nl_ByName := byName; nl_Extends := nl_Extends overlay |} else None.

(** The catalog of a device type whose directory has a file. *)
Definition perTypeCatalog (universal perType : nbar2Loaded) : option nbar2Loaded :=
  if nl_Extends perType then nbar2_MergeOverlay universal perType else Some perType.

(** Over the catalogs in the order of their sorted slugs. *)
Fixpoint agree_entries (es : list nbar2Entry) (first : gmap Z bytes) : option (gmap Z bytes) :=
  match es with
  | [] => Some first
  | e :: es' =>
      match first !! ne_ID e with
      | Some name => if negb (beq name (ne_Name e)) then None else agree_entries es' first
      | None => agree_entries es' (<[ne_ID e := ne_Name e]> first)
      end
  end.
Fixpoint agree_catalogs (cats : list nbar2Loaded) (first : gmap Z bytes) : bool :=
  match cats with
  | [] => true
  | c :: cats' => match agree_entries (nl_Entries c) first with None => false | Some first => agree_catalogs cats' first end
  end.
Definition nbar2CatalogsAgreeOnNames (cats : gmap bytes nbar2Loaded) : bool :=
  agree_catalogs (map snd (sort_by (fun a b => lex a.1 b.1) (map_to_list cats))) ∅.

(** ** The size budget *)

Definition longestNbar2Value (vs : list nbar2Value) : bytes :=
  fold_left (fun longest v => if len longest <? len (nv_Value v) then nv_Value v else longest) vs [].

(** The catalog of one application and the record that are dry-rendered. *)
Definition probe_catalog (e : nbar2Entry) : avcCatalog :=
  Some [{| app_ID := ne_ID e; app_Name := ne_Name e; app_Description := ne_Description e; app_Proto := ne_Proto e; app_DstPort := ne_DstPort e;
           app_Hosts := [longestNbar2Value (ne_Hosts e)]; app_URIs := [longestNbar2Value (ne_URIs e)] |}].
Definition probe_record (e : nbar2Entry) : FlowRecord :=
  {| SrcIP := []; DstIP := []; NextHop := []; SrcPort := 0; DstPort := ne_DstPort e; Protocol := ne_Proto e; TCPFlags := 0; ToS := 0; Bytes_ := 0; Packets := 0;
     StartMs := 0; EndMs := 0; InIface := 0; OutIface := 0; SrcAS := 0; DstAS := 0; SrcMask := 0; DstMask := 0;
     AVC := {| ref_App := 1; ref_Host := if len (ne_Hosts e) =? 0 then 0 else 1; ref_URI := if len (ne_URIs e) =? 0 then 0 else 1 |} |}.
Definition nbar2_set_oversized (e : nbar2Entry) : nbar2Entry :=
  {| ne_Name := ne_Name e; ne_Description := ne_Description e; ne_Engine := ne_Engine e; ne_Selector := ne_Selector e; ne_ID := ne_ID e; ne_Proto := ne_Proto e;
     ne_DstPort := ne_DstPort e; ne_Weight := ne_Weight e; ne_Hosts := ne_Hosts e; ne_URIs := ne_URIs e; ne_oversized := true |}.

Section budget.
(** The clock when an entry is rendered. *)
Variable wall : nbar2Entry -> Z.
Variable budget : Z.

(** The verdict on one entry; what does not fit is rendered again for the log. *)
Definition check_entry (e : nbar2Entry) : res nbar2Entry :=
  let! (_, r) := EncodeMeasured (probe_catalog e) (wall e) 0 0 0 [probe_record e] false (repeat 0 (Z.to_nat budget)) in
  if match r with Some (_, _, dropped) => dropped =? 0 | None => false end then Ok e
  else let! _ := avc_encodeRecord (probe_catalog e) (repeat 0 (Z.to_nat (3 * avcValueMaxLen))) 0 (probe_record e) 0 in Ok (nbar2_set_oversized e).
Fixpoint check_entries (es : list nbar2Entry) : res (list nbar2Entry) :=
  match es with
  | [] => Ok []
  | e :: es' => let! e := check_entry e in let! es' := check_entries es' in Ok (e :: es')
  end.
Definition ApplySizeBudget (c : nbar2Loaded) : res nbar2Loaded :=
  if budget <=? 0 then Ok c else
  let! es := check_entries (nl_Entries c) in
  Ok {| nl_Entries := es; nl_ByName := nl_ByName c; nl_Extends := nl_Extends c |}.
End budget.

(** ** Finalising *)

(** Running totals of weights. *)
Fixpoint running (total : Z) (ws : list Z) : list Z * Z :=
  match ws with
  | [] => ([], total)
  | w :: ws' => let total := s64 (total + w) in let '(cum, t) := running total ws' in (total :: cum, t)
  end.
Definition cumulative (vs : list nbar2Value) : list Z * Z := running 0 (map nv_Weight vs).
Definition nbar2_app (e : nbar2Entry) : avcApplication :=
  {| app_ID := ne_ID e; app_Name := ne_Name e; app_Description := ne_Description e; app_Proto := ne_Proto e; app_DstPort := ne_DstPort e;
     app_Hosts := map nv_Value (ne_Hosts e); app_URIs := map nv_Value (ne_URIs e) |}.
Definition usable_entries (c : nbar2Loaded) : list nbar2Entry := List.filter (fun e => negb (ne_oversized e)) (nl_Entries c).
(** The draw tables and the catalog of the encoder. *)
Definition finalize (c : nbar2Loaded) : nbar2Catalog * avcCatalog :=
  let es := usable_entries c in
  let '(cum, total) := running 0 (map ne_Weight es) in
  ({| usable := map (fun e => (ne_Proto e, ne_DstPort e)) es; cumW := cum; totalW := total;
      hostCum := map (fun e => fst (cumulative (ne_Hosts e))) es; hostTot := map (fun e => snd (cumulative (ne_Hosts e))) es;
      uriCum := map (fun e => fst (cumulative (ne_URIs e))) es; uriTot := map (fun e => snd (cumulative (ne_URIs e))) es |},
   Some (map nbar2_app es)).
Definition Usable (c : nbar2Catalog) : Z := len (usable c).

(** What the loader publishes: every catalog checked and finalised. *)
Fixpoint finalize_all (wall : bytes -> nbar2Entry -> Z) (budget : Z) (cats : list (bytes * nbar2Loaded)) : res (list (bytes * (nbar2Catalog * avcCatalog))) :=
  match cats with
  | [] => Ok []
  | (slug, c) :: cats' =>
      let! c := ApplySizeBudget (wall slug) budget c in
      let! rest := finalize_all wall budget cats' in
      Ok ((slug, finalize c) :: rest)
  end.

(** ** Rendering any record *)

(** The encoder of a record never panics, and a record it takes has short strings
    and fits. *)
Lemma varlen_long buf pos prefix body : 0xFFFF < len (prefix ++ body) -> putIPFIXVarLenParts buf pos prefix body = Ok (buf, pos, false).
Proof. intros Hl. unfold putIPFIXVarLenParts. rewrite <- len_app. destruct ((0xFFFF <? _) || _) eqn:E; [done|lia]. Qed.

Lemma avc_encodeRecord_any cat start r pre rest : exists x pos ok, avc_encodeRecord cat (pre ++ rest) (len pre) r start = Ok (pre ++ x, pos, ok) /\ len x = len rest /\
  (if ok then strings_fit cat r /\ len (avc_record cat start r) <= len rest else pos = len pre).
Proof.
  destruct (decide (strings_fit cat r)) as [Hs|Hs].
  { destruct (Z.lt_ge_cases (len rest) (len (avc_record cat start r))) as [Hl|Hl].
    - destruct (avc_encodeRecord_full cat start r pre rest Hs Hl) as (x & -> & Hx). by eexists x, _, false.
    - rewrite avc_encodeRecord_fits by done. eexists _, _, true. split; [done|]. split; [|done].
      rewrite len_app, len_drop. pose proof (len_nonneg (avc_record cat start r)). lia. }
  destruct (Z.lt_ge_cases (len rest) (ipfixRecordSize + 4)) as [Hsm|Hbig].
  { exists rest, (len pre), false. split; [|done]. unfold avc_encodeRecord. rewrite len_app. destruct (_ <? _) eqn:E; [done|lia]. }
  rewrite avc_prefix_fits by lia. unfold strings_fit in Hs. destruct (avc_values cat r) as [[appID host] uri]. cbv zeta.
  pose proof (len_avc_prefix start r appID) as HA. revert HA. generalize (ipfix_record start r ++ be32 appID). intros A HA. unfold ipfixRecordSize in *.
  set (rest' := drop (Z.to_nat (54 + 4)) rest). assert (Hd : len rest' = len rest - 58) by (unfold rest'; rewrite len_drop; lia). clearbody rest'.
  destruct (Z.lt_ge_cases 0xFFFF (len (avcHostPrefix ++ host))) as [H1|H1].
  { rewrite varlen_long by done. cbn [res_bind negb]. exists (A ++ rest'), (len pre), false. rewrite <- app_assoc, len_app. split; [done|]. split; [lia|done]. }
  assert (Hu : 0xFFFF < len uri) by (destruct (Z.lt_ge_cases 0xFFFF (len uri)); [done|]; exfalso; apply Hs; lia). clear Hs.
  destruct (Z.lt_ge_cases (len rest') (len (varlen (avcHostPrefix ++ host)))) as [H2|H2].
  { rewrite putIPFIXVarLenParts_full by lia. cbn [res_bind negb]. exists (A ++ rest'), (len pre), false. rewrite <- app_assoc, len_app. split; [done|]. split; [lia|done]. }
  rewrite putIPFIXVarLenParts_fits by (done || lia). cbn [res_bind negb]. unfold putIPFIXVarLen. rewrite varlen_long by (by rewrite app_nil_r). cbn [res_bind negb].
  pose proof (len_nonneg (varlen (avcHostPrefix ++ host))). revert H H2. generalize (varlen (avcHostPrefix ++ host)). intros v Hv H2.
  exists (A ++ v ++ drop (Z.to_nat (len v)) rest'), (len pre), false. rewrite <- !app_assoc, !len_app, len_drop. split; [done|]. split; [lia|done].
Qed.

(** One record in an empty datagram: it is taken, or it is dropped because it is
    too long. *)
Lemma EncodeMeasured_one cat wall r buf : 20 <= len buf < 2 ^ 16 ->
  exists buf' n k dropped, EncodeMeasured cat wall 0 0 0 [r] false buf = Ok (buf', Some (n, k, dropped)) /\
    (dropped = 0 -> strings_fit cat r /\ 23 + len (avc_record cat 0 r) <= len buf).
Proof.
  intros Hl. destruct (decide (strings_fit cat r)) as [Hs|Hs].
  { destruct (EncodeMeasured_spec cat wall 0 0 0 [r] false buf) as (tail & He & _); [by left|by repeat constructor|unfold avc_overhead, ipfixHeaderSize; lia|].
    cbv zeta in He. rewrite He. unfold avc_taken, avc_overhead, ipfixHeaderSize. cbn [avc_fit]. rewrite (avc_record_len cat _ 0 r). destruct (_ <=? _) eqn:E; zbool; cbn [Nat.eqb andb negb].
    - eexists _, _, _, _. split; [done|]. intros _. split; [done|]. lia.
    - eexists _, _, _, _. split; [done|]. intros [=]. }
  exists (default [] (match EncodeMeasured cat wall 0 0 0 [r] false buf with Ok (b, _) => Some b | _ => None end)), 0, 1, 1. split; [|intros [=]].
  unfold EncodeMeasured. change (len [r]) with 1. cbn [Z.eqb andb negb]. set (start := deviceStart _ _). unfold ipfixHeaderSize, ipfixDataSetHdrSize. cbv zeta.
  destruct (len buf <? 16 + 0) eqn:E1; [lia|]. clear E1. set (V := be16 ipfixVersion). set (HW := [Put (be32 _); Put _; Put _]). assert (HH : len (written HW) = 12) by done.
  destruct (write_header_gap V HW buf) as (b & g & -> & Hg & Hh); [done|rewrite HH; lia|]. cbn [res_bind]. change (2 + 2) with 4. rewrite Hh. cbn [res_bind]. clear Hh b.
  remember (written HW) as H eqn:HHd. clear HHd HW. set (A := V ++ g ++ H). assert (HA : len A = 16) by (unfold A; rewrite !len_app, HH; change (len V) with 2; lia). clearbody A.
  rewrite HH. set (rest := drop (Z.to_nat (4 + 12)) buf). assert (Hr : len rest = len buf - 16) by (unfold rest; rewrite len_drop; lia). clearbody rest.
  rewrite len_app. destruct (len A + len rest <? 16 + 0 + 4) eqn:E2; [lia|]. clear E2. set (W := [Put _; Put _]). assert (HW : len (written W) = 4) by done.
  rewrite write_fits by (rewrite HW; lia). cbn [res_bind measured_loop]. rewrite HW. revert HW. generalize (written W). intros w HW. clear W.
  rewrite app_assoc. set (B := A ++ w). assert (HB : len B = len A + 4) by (unfold B; rewrite len_app; lia). rewrite <- HB. clearbody B. set (D := drop (Z.to_nat 4) rest).
  assert (HD : len D = len rest - 4) by (unfold D; rewrite len_drop; lia). clearbody D. rewrite len_app. destruct (len B + len D - 3 <? len B) eqn:E3; [done|]. zbool.
  unfold slice. rewrite len_app. destruct ((0 <? 0) || _ || _) eqn:Es; [lia|]. clear Es. cbn [res_bind]. rewrite Z.sub_0_r, drop_0.
  replace (take (Z.to_nat (len B + len D - 3)) (B ++ D)) with (B ++ take (Z.to_nat (len D - 3)) D).
  2:{ rewrite take_app. unfold len in *. rewrite (take_ge B) by lia. do 2 f_equal. lia. }
  destruct (avc_encodeRecord_any cat start r B (take (Z.to_nat (len D - 3)) D)) as (x & pos & ok & -> & _ & Hok). destruct ok; [by destruct Hok|]. cbn [res_bind negb Z.eqb default]. done.
Qed.

(** ** The verdict of the budget *)

Lemma longest_bound vs : forall acc v, v ∈ vs -> len (nv_Value v) <= len (fold_left (fun longest v => if len longest <? len (nv_Value v) then nv_Value v else longest) vs acc).
Proof.
  assert (Hacc : forall vs acc, len acc <= len (fold_left (fun longest v => if len longest <? len (nv_Value v) then nv_Value v else longest) vs acc)).
  { clear vs. intros vs. induction vs as [|w vs IH]; intros acc; [done|]. cbn [fold_left]. specialize (IH (if len acc <? len (nv_Value w) then nv_Value w else acc)). destruct (len acc <? len (nv_Value w)) eqn:E; lia. }
  induction vs as [|w vs IH]; intros acc v Hv; [by apply elem_of_nil in Hv|]. cbn [fold_left]. apply list.elem_of_cons in Hv as [->|Hv]; [|by apply IH].
  specialize (Hacc vs (if len acc <? len (nv_Value w) then nv_Value w else acc)). destruct (len acc <? len (nv_Value w)) eqn:E; lia.
Qed.

(** What an entry that is not marked guarantees, for any host and URI of it. *)
Definition entry_sized (budget : Z) (e : nbar2Entry) : Prop :=
  forall host uri, (host = [] \/ exists v, v ∈ ne_Hosts e /\ host = nv_Value v) -> (uri = [] \/ exists v, v ∈ ne_URIs e /\ uri = uriStatsValue (nv_Value v) 1) ->
    len (avcHostPrefix ++ host) <= 0xFFFF /\ len uri <= 0xFFFF /\ 23 + 58 + len (varlen (avcHostPrefix ++ host)) + len (varlen uri) <= budget.

Lemma varlen_mono a b : len a <= len b -> len (varlen a) <= len (varlen b).
Proof. intros Hl. rewrite !len_varlen. unfold ipfixVarLenSize. repeat case_if; lia. Qed.

Lemma len_uriStats u : len (uriStatsValue u 1) = len u + 3.
Proof. unfold uriStatsValue. by rewrite len_app. Qed.

Lemma probe_values e : avc_values (probe_catalog e) (probe_record e) =
  (ne_ID e, if len (ne_Hosts e) =? 0 then [] else longestNbar2Value (ne_Hosts e), if len (ne_URIs e) =? 0 then [] else uriStatsValue (longestNbar2Value (ne_URIs e)) 1).
Proof. unfold avc_values, probe_catalog, probe_record. cbn [AVC ref_App ref_Host ref_URI App]. change (len [_] <? 1) with false. cbn. by destruct (len (ne_Hosts e) =? 0), (len (ne_URIs e) =? 0). Qed.

Lemma member_some {A} (x : A) l : x ∈ l -> (len l =? 0) = false.
Proof. intros Hx. destruct l; [by apply elem_of_nil in Hx|]. rewrite len_cons. pose proof (len_nonneg l). lia. Qed.

Lemma probe_sized budget e : strings_fit (probe_catalog e) (probe_record e) -> 23 + len (avc_record (probe_catalog e) 0 (probe_record e)) <= budget -> entry_sized budget e.
Proof.
  unfold strings_fit. pose proof (avc_record_split (probe_catalog e) 0 (probe_record e)) as Hr. rewrite probe_values in *. rewrite Hr. clear Hr.
  pose proof (len_avc_prefix 0 (probe_record e) (ne_ID e)) as HA. revert HA. generalize (ipfix_record 0 (probe_record e) ++ be32 (ne_ID e)). intros A HA. unfold ipfixRecordSize in HA.
  set (H := if len (ne_Hosts e) =? 0 then [] else _). set (U := if len (ne_URIs e) =? 0 then [] else _). intros [Hh Hu] Hl. rewrite (len_app A) in Hl.
  rewrite (len_app (varlen (avcHostPrefix ++ H))) in Hl. intros host uri Hhost Huri.
  assert (Hle1 : len host <= len H).
  { destruct Hhost as [->|(v & Hv & ->)]; [apply len_nonneg|]. unfold H. rewrite (member_some v) by done. by apply longest_bound. }
  assert (Hle2 : len uri <= len U).
  { destruct Huri as [->|(v & Hv & ->)]; [apply len_nonneg|]. unfold U. rewrite (member_some v) by done. rewrite !len_uriStats. pose proof (longest_bound (ne_URIs e) [] v Hv). unfold longestNbar2Value. lia. }
  assert (Hp : len (avcHostPrefix ++ host) <= len (avcHostPrefix ++ H)) by (clearbody H; rewrite (len_app avcHostPrefix host), (len_app avcHostPrefix H); lia).
  pose proof (varlen_mono _ _ Hp). pose proof (varlen_mono _ _ Hle2). lia.
Qed.

Lemma check_entry_spec wall budget e : size_ok budget -> wp (check_entry wall budget e) (fun e' => (e' = e /\ entry_sized budget e) \/ e' = nbar2_set_oversized e).
Proof.
  intros Hb. unfold size_ok in Hb. unfold check_entry. set (buf := repeat 0 (Z.to_nat budget)). assert (Hl : len buf = budget) by (unfold buf, len; rewrite repeat_length; lia). clearbody buf.
  destruct (EncodeMeasured_one (probe_catalog e) (wall e) (probe_record e) buf) as (buf' & n & k & dropped & -> & Hd); [lia|]. cbn [res_bind]. destruct (dropped =? 0) eqn:E; zbool.
  - cbn [wp]. left. split; [done|]. destruct (Hd E) as [Hs Hf]. apply probe_sized; [done|]. lia.
  - set (scratch := repeat 0 _). clearbody scratch. destruct (avc_encodeRecord_any (probe_catalog e) 0 (probe_record e) [] scratch) as (x & pos & ok & He & _).
    change (len []) with 0 in He. rewrite app_nil_l in He. rewrite He. cbn. by right.
Qed.

Lemma check_entries_spec wall budget es : size_ok budget ->
  wp (check_entries wall budget es) (fun es' => Forall2 (fun e e' => (e' = e /\ entry_sized budget e) \/ e' = nbar2_set_oversized e) es es').
Proof.
  intros Hb. induction es as [|e es IH]; [constructor|]. cbn [check_entries]. apply wp_bind. eapply wp_mono; [by apply check_entry_spec|]. intros e' He.
  apply wp_bind. eapply wp_mono; [exact IH|]. intros es' Hes. by constructor.
Qed.

(** ** What a finalised catalog guarantees *)

(** The entries the loader makes. *)
Definition entry_ok (e : nbar2Entry) : Prop := 0 <= ne_Proto e < 2 ^ 8 /\ 0 <= ne_DstPort e < 2 ^ 16 /\ 0 <= ne_ID e < 2 ^ 32.

(** Every usable entry is sized. *)
Definition sized (budget : Z) (c : nbar2Loaded) : Prop := Forall (entry_sized budget) (usable_entries c).

Lemma ApplySizeBudget_spec wall budget c : size_ok budget ->
  wp (ApplySizeBudget wall budget c) (fun c' => sized budget c' /\ (Forall entry_ok (nl_Entries c) -> Forall entry_ok (nl_Entries c')) /\
    map ne_Name (nl_Entries c') = map ne_Name (nl_Entries c) /\ nl_Extends c' = nl_Extends c).
Proof.
  intros Hb. unfold ApplySizeBudget. destruct (budget <=? 0) eqn:E; [unfold size_ok in Hb; lia|]. apply wp_bind. eapply wp_mono; [by apply check_entries_spec|]. intros es' Hes. cbn [wp].
  unfold sized, usable_entries. cbn [nl_Entries nl_Extends]. induction Hes as [|e e' es es' He _ (IH1 & IH2 & IH3 & _)]; [by repeat constructor|]. split_and!; [| | |done].
  - cbn [List.filter]. destruct He as [[-> He]| ->]; [|exact IH1]. destruct (negb _); [by constructor|done].
  - intros Hok. inversion_clear Hok. constructor; [|by apply IH2]. by destruct He as [[-> _]| ->].
  - cbn [map]. rewrite IH3. by destruct He as [[-> _]| ->].
Qed.

Lemma app_values c idx app : App (snd (finalize c)) idx = Some app -> exists e, e ∈ usable_entries c /\ app = nbar2_app e.
Proof.
  unfold finalize. destruct (running 0 _) as [cum total]. cbn [snd App]. destruct (_ || _); [done|]. intros Ha. apply list_elem_of_lookup_2, list_elem_of_In, in_map_iff in Ha as (e & <- & He).
  exists e. split; [by apply list_elem_of_In|done].
Qed.

Lemma chosen (vs : list nbar2Value) i : (0 <? i) && (i <=? len (map nv_Value vs)) = true -> exists v, v ∈ vs /\ default [] (map nv_Value vs !! Z.to_nat (i - 1)) = nv_Value v.
Proof.
  intros Hi. zbool. rewrite len_map in *. destruct (lookup_lt_is_Some_2 vs (Z.to_nat (i - 1))) as [v Hv]; [unfold len in *; lia|]. exists v. split; [by eapply list_elem_of_lookup_2|].
  change (map nv_Value vs) with (nv_Value <$> vs). by rewrite list_lookup_fmap, Hv.
Qed.

(** The strings of a record are short and the record fits, whatever it refers to. *)
Lemma finalized_fits budget c r : size_ok budget -> sized budget c ->
  strings_fit (snd (finalize c)) r /\ 23 + len (avc_record (snd (finalize c)) 0 r) <= budget.
Proof.
  intros Hb Hs. enough (Hv : let '(_, host, uri) := avc_values (snd (finalize c)) r in
    len (avcHostPrefix ++ host) <= 0xFFFF /\ len uri <= 0xFFFF /\ 23 + 58 + len (varlen (avcHostPrefix ++ host)) + len (varlen uri) <= budget).
  { unfold strings_fit. pose proof (avc_record_split (snd (finalize c)) 0 r) as Hr. destruct (avc_values (snd (finalize c)) r) as [[id host] uri]. destruct Hv as (H1 & H2 & H3). split; [done|].
    rewrite Hr. clear Hr. pose proof (len_avc_prefix 0 r id) as HA. revert HA. generalize (ipfix_record 0 r ++ be32 id). intros A HA. unfold ipfixRecordSize in HA.
    rewrite (len_app A), (len_app (varlen (avcHostPrefix ++ host))). lia. }
  unfold avc_values. destruct (App (snd (finalize c)) (ref_App (AVC r))) as [app|] eqn:Ea.
  2:{ unfold size_ok in Hb. change (len (avcHostPrefix ++ [])) with 6. change (len []) with 0. change (len (varlen (avcHostPrefix ++ []))) with 7. change (len (varlen [])) with 1. lia. }
  apply app_values in Ea as (e & He & ->). apply list_elem_of_In in He. eapply List.Forall_forall in He; [|exact Hs]. apply He; cbn [nbar2_app app_Hosts app_URIs].
  - destruct (_ && _) eqn:E; [right; by apply chosen in E|by left].
  - destruct (_ && _) eqn:E; [right|by left]. apply chosen in E as (v & Hv & ->). by exists v.
Qed.

(** ** Draws and the encoder's catalog agree *)

Lemma running_len ws : forall t, length (fst (running t ws)) = length ws.
Proof. induction ws as [|w ws IH]; intros t; [done|]. cbn [running]. specialize (IH (s64 (t + w))). destruct (running (s64 (t + w)) ws). cbn in *. by rewrite IH. Qed.

Lemma finalize_ok c : Forall entry_ok (nl_Entries c) -> usable_entries c <> [] -> catalog_ok (fst (finalize c)).
Proof.
  intros Hok Hne. unfold finalize. pose proof (running_len (map ne_Weight (usable_entries c)) 0) as Hr. destruct (running 0 _) as [cum total]. cbn [fst] in *. unfold catalog_ok. cbn.
  rewrite !len_map. rewrite length_map in Hr. split_and!; try done.
  - destruct (usable_entries c); [done|]. rewrite len_cons. pose proof (len_nonneg l). lia.
  - apply List.Forall_forall. intros pp (e & <- & He)%in_map_iff. unfold usable_entries in He. apply filter_In in He as [He _]. eapply List.Forall_forall in He; [|exact Hok]. unfold entry_ok in He. cbn. tauto.
  - unfold len. by rewrite Hr.
Qed.

(** No table outgrows the 16 bits of a reference. *)
Definition small (c : nbar2Loaded) : Prop :=
  len (usable_entries c) < 2 ^ 16 /\ Forall (fun e => len (ne_Hosts e) < 2 ^ 16 /\ len (ne_URIs e) < 2 ^ 16) (usable_entries c).

Lemma drawn_index {R} `{RandLaws R} (vs : list nbar2Value) (g : R) (P : Z * R -> Prop) : len vs < 2 ^ 16 ->
  (forall h g', 0 <= (if 0 <? snd (cumulative vs) then u16 (h + 1) else 0) <= len vs -> P (h, g')) -> wp (weightedIndex (fst (cumulative vs)) (snd (cumulative vs)) g) P.
Proof.
  intros Hl HP. apply wp_weightedIndex. intros h g' Hh. apply HP. unfold cumulative in *. pose proof (running_len (map nv_Weight vs) 0) as Hr. rewrite length_map in Hr. pose proof (len_nonneg vs).
  destruct (0 <? snd (running 0 (map nv_Weight vs))) eqn:E; zbool; [|lia]. destruct vs as [|v vs]; [cbn in E; lia|]. unfold len in Hh at 1 2. rewrite Hr in Hh. fold (len (v :: vs)) in Hh.
  assert (0 < len (v :: vs)) by (rewrite len_cons; pose proof (len_nonneg vs); lia). unfold u16. rewrite Z.mod_small; lia.
Qed.

(** What a draw returns refers to a usable entry of the same protocol and port. *)
Theorem draw_resolves {R} `{RandLaws R} c (g : R) : usable_entries c <> [] -> small c ->
  wp (draw (fst (finalize c)) g) (fun '(ref, proto, port, _) => exists e, e ∈ usable_entries c /\ App (snd (finalize c)) (ref_App ref) = Some (nbar2_app e) /\
    proto = ne_Proto e /\ port = ne_DstPort e /\ 0 <= ref_Host ref <= len (ne_Hosts e) /\ 0 <= ref_URI ref <= len (ne_URIs e)).
Proof.
  intros Hne [Hn Hs]. unfold finalize. pose proof (running_len (map ne_Weight (usable_entries c)) 0) as Hr. destruct (running 0 _) as [cum total]. cbn [fst snd] in *. rewrite length_map in Hr.
  unfold draw. cbn [cumW totalW hostCum hostTot uriCum uriTot usable]. apply wp_bind, wp_weightedIndex. intros i g1 Hi. set (es := usable_entries c) in *.
  assert (0 < len es) by (destruct es; [done|]; rewrite len_cons; pose proof (len_nonneg es); lia). assert (Hlc : len cum = len es) by (unfold len; by rewrite Hr). specialize (Hi ltac:(lia)).
  rewrite Hlc in Hi. destruct (lookup_lt_is_Some_2 es (Z.to_nat i)) as [e He]; [unfold len in *; lia|].
  assert (Hix : forall B (f : nbar2Entry -> B) (P : B -> Prop), P (f e) -> wp (index (map f es) i) P).
  { intros B f P HP. apply wp_index; [rewrite len_map; lia|]. intros b Hb. change (map f es) with (f <$> es) in Hb. rewrite list_lookup_fmap, He in Hb. by injection Hb as <-. }
  assert (Hsm : len (ne_Hosts e) < 2 ^ 16 /\ len (ne_URIs e) < 2 ^ 16) by (apply list_elem_of_lookup_2 in He; eapply List.Forall_forall in Hs; [exact Hs|by apply list_elem_of_In]).
  apply wp_bind, Hix, wp_bind, Hix, wp_bind, drawn_index; [tauto|]. intros h g2 Hh. apply wp_bind, Hix, wp_bind, Hix, wp_bind, drawn_index; [tauto|]. intros u g3 Hu.
  apply wp_bind, Hix. cbn [wp ref_App ref_Host ref_URI]. exists e. split; [by eapply list_elem_of_lookup_2|]. split; [|done].
  unfold App. rewrite len_map. unfold u16. rewrite Z.mod_small by lia. destruct ((i + 1 =? 0) || _) eqn:E; [lia|]. replace (i + 1 - 1) with i by lia.
  change (map nbar2_app es) with (nbar2_app <$> es). by rewrite list_lookup_fmap, He.
Qed.

(** ** Names and identifiers *)

Definition by_name (es : list nbar2Entry) : gmap bytes nbar2Entry := list_to_map (map (fun e => (ne_Name e, e)) es).
Record loaded_ok (c : nbar2Loaded) : Prop := {
  lo_names : NoDup (map ne_Name (nl_Entries c));
  lo_ids : NoDup (map ne_ID (nl_Entries c));
  lo_index : nl_ByName c = by_name (nl_Entries c);
  lo_entries : Forall entry_ok (nl_Entries c)
}.

Lemma by_name_keys es : (map (fun e => (ne_Name e, e)) es).*1 = map ne_Name es.
Proof. induction es as [|e es IH]; [done|]. cbn. by rewrite IH. Qed.
Lemma by_name_None es name : by_name es !! name = None <-> name ∉ map ne_Name es.
Proof. unfold by_name. rewrite <- (not_elem_of_list_to_map (map (fun e => (ne_Name e, e)) es) name). by rewrite by_name_keys. Qed.
Lemma by_name_Some es name e : NoDup (map ne_Name es) -> by_name es !! name = Some e <-> e ∈ es /\ ne_Name e = name.
Proof.
  intros Hn. unfold by_name. rewrite <- elem_of_list_to_map by (by rewrite by_name_keys). rewrite list_elem_of_In, in_map_iff, list_elem_of_In. naive_solver.
Qed.
Lemma by_name_snoc es e : ne_Name e ∉ map ne_Name es -> by_name (es ++ [e]) = <[ne_Name e := e]> (by_name es).
Proof. intros He. unfold by_name. rewrite map_app. apply list_to_map_snoc. by rewrite by_name_keys. Qed.
Lemma NoDup_snoc {A B} (f : A -> B) es e : NoDup (map f es) -> f e ∉ map f es -> NoDup (map f (es ++ [e])).
Proof. intros Hn He. rewrite map_app. apply list.NoDup_app. split; [done|]. split; [|apply NoDup_singleton]. intros x Hx ->%list_elem_of_singleton. done. Qed.

Lemma compile_values_ok raw out : compileNbar2Values raw = Some out -> Forall (fun v => 0 < len (nv_Value v) <= avcValueMaxLen /\ 0 < nv_Weight v) out.
Proof.
  revert out. induction raw as [|v raw IH]; intros out; [intros [= <-]; constructor|]. cbn [compileNbar2Values]. unfold beq. case_bool_decide as Hv; [done|].
  destruct (_ <? _) eqn:E1; [done|]. destruct (jv_Weight v <? 0) eqn:E2; [done|]. intros (vs & Hvs & [= <-])%bind_Some. constructor; [|by apply IH]. cbn. zbool. split.
  - destruct (jv_Value v) as [|x l]; [done|]. rewrite len_cons in *. pose proof (len_nonneg l). lia.
  - destruct (jv_Weight v =? 0) eqn:E3; zbool; [done|lia].
Qed.

(** What the loader accepts: every field is in the range of its Go type and the
    identifier is the engine and the selector packed together. *)
Lemma compile_entry_ok raw e : (forall p, je_Proto raw = Some p -> 0 <= p < 2 ^ 8) -> compileNbar2Entry raw = Some e ->
  entry_ok e /\ ne_oversized e = false /\ ne_Name e = je_Name raw /\ ne_ID e = je_Engine raw * 2 ^ 24 + je_Selector raw /\ 0 < ne_Weight e /\
  (ne_Proto e = 1 -> ne_DstPort e = 0).
Proof.
  intros Hp. unfold compileNbar2Entry. destruct (beq _ _); [done|]. destruct (avcNameMaxLen <? _); [done|]. destruct (avcDescMaxLen <? _); [done|].
  destruct (negb ((je_Engine raw =? _) || _ || _)) eqn:E1; [done|]. destruct ((je_Selector raw <? 0) || _) eqn:E2; [done|]. intros (proto & Hpr & H)%bind_Some. specialize (Hp _ Hpr). revert H.
  destruct (bool_decide _ && _) eqn:E3; [done|]. cbv zeta. destruct ((default 0 (je_DstPort raw) <? 0) || _) eqn:E4; [done|]. destruct ((proto =? 1) && _) eqn:E5; [done|].
  destruct (je_Weight raw <? 0) eqn:E6; [done|]. intros H.
  apply bind_Some in H as (hosts & _ & (uris & _ & [= <-])%bind_Some). unfold entry_ok. cbn. unfold avcEngineIANAL4, avcEngineUser, avcEnginePANAL7, avcSelectorMax in *.
  assert (Heng : je_Engine raw = 3 \/ je_Engine raw = 6 \/ je_Engine raw = 13) by lia. assert (Hport : 0 <= default 0 (je_DstPort raw) < 2 ^ 16) by lia.
  assert (Hid : avcApplicationID (u8 (je_Engine raw)) (u32 (je_Selector raw)) = je_Engine raw * 2 ^ 24 + je_Selector raw).
  { unfold avcApplicationID, u8, u32. rewrite (Z.mod_small (je_Engine raw)) by lia. rewrite (Z.mod_small (je_Selector raw)) by lia. rewrite Z.shiftl_mul_pow2 by lia.
    rewrite Z.mod_small by lia. change 0xFFFFFF with (Z.ones 24). rewrite Z.land_ones, Z.mod_small by lia. rewrite <- Z.shiftl_mul_pow2 by lia. rewrite Z.lor_comm.
    assert (Hand : Z.land (je_Selector raw) (Z.shiftl (je_Engine raw) 24) = 0).
    { apply Z.bits_inj'. intros k Hk. rewrite Z.land_spec, Z.bits_0. destruct (Z.lt_ge_cases k 24) as [Hlt|Hge]; [rewrite (Z.shiftl_spec_low _ _ _ Hlt); apply andb_false_r|].
      rewrite (Z.bits_above_log2 (je_Selector raw)); [done|lia|]. destruct (Z.eq_dec (je_Selector raw) 0) as [->|Hz]; [cbn; lia|]. apply Z.log2_lt_pow2; [lia|].
      eapply Z.lt_le_trans; [|apply Z.pow_le_mono_r; [lia|exact Hge]]. lia. }
    pose proof (Z.add_lor_land (je_Selector raw) (Z.shiftl (je_Engine raw) 24)) as Hadd. rewrite Hand in Hadd. lia. }
  split_and!; try lia; try done.
  - unfold u16. rewrite Z.mod_small; lia.
  - unfold u16. rewrite Z.mod_small; lia.
  - destruct (je_Weight raw =? 0) eqn:E7; zbool; [done|lia].
  - intros ->. unfold u16. cbn in E5. destruct (default 0 (je_DstPort raw) =? 0) eqn:E8; [|done]. zbool. by rewrite E8.
Qed.

(** The protocols of a decoded file are octets. *)
Definition doc_ok (doc : nbar2CatalogJSON) : Prop := Forall (fun raw => forall p, je_Proto raw = Some p -> 0 <= p < 2 ^ 8) (jc_Entries doc).
(** The identifiers noted so far. *)
Definition ids_noted (es : list nbar2Entry) (byID : gmap Z bytes) : Prop := forall id, is_Some (byID !! id) <-> id ∈ map ne_ID es.

Lemma ids_noted_snoc es byID e : ids_noted es byID -> ids_noted (es ++ [e]) (<[ne_ID e := ne_Name e]> byID).
Proof.
  intros Hn id. rewrite lookup_insert_is_Some, (Hn id), map_app, list.elem_of_app. cbn [map]. rewrite list_elem_of_singleton. destruct (decide (ne_ID e = id)) as [->|Hne]; [naive_solver|]. naive_solver.
Qed.

Lemma parse_entries_spec raws : Forall (fun raw => forall p, je_Proto raw = Some p -> 0 <= p < 2 ^ 8) raws -> forall es byID entries byName,
  NoDup (map ne_Name es) -> NoDup (map ne_ID es) -> Forall entry_ok es -> ids_noted es byID -> parse_entries raws es (by_name es) byID = Some (entries, byName) ->
  NoDup (map ne_Name entries) /\ NoDup (map ne_ID entries) /\ Forall entry_ok entries /\ byName = by_name entries /\ map ne_Name entries = map ne_Name es ++ map je_Name raws.
Proof.
  intros Hraws. induction Hraws as [|raw raws Hp _ IH]; intros es byID entries byName Hn Hi Hok Hid.
  { intros [= <- <-]. by rewrite app_nil_r. }
  cbn [parse_entries]. intros (e & He & H)%bind_Some. revert H. case_bool_decide as H1; [done|]. case_bool_decide as H2; [done|]. intros H.
  destruct (compile_entry_ok raw e Hp He) as (Heok & _ & Hname & _). assert (Hfn : ne_Name e ∉ map ne_Name es) by (apply by_name_None; by destruct (by_name es !! ne_Name e); [exfalso; apply H1|]).
  assert (Hfi : ne_ID e ∉ map ne_ID es) by (rewrite <- (Hid (ne_ID e)); done). rewrite <- by_name_snoc in H by done.
  apply IH in H as (? & ? & ? & ? & Hnm); [|by apply NoDup_snoc|by apply NoDup_snoc|apply Forall_app; split; [done|constructor; [done|constructor]]|by apply ids_noted_snoc].
  split_and!; try done. rewrite Hnm, map_app, <- app_assoc. cbn. by rewrite Hname.
Qed.

(** A catalog that loads has every entry of its file in order, under a name and an
    identifier of its own. *)
Theorem parsed_ok doc c : doc_ok doc -> parseNbar2Catalog doc = Some c -> loaded_ok c /\ map ne_Name (nl_Entries c) = map je_Name (jc_Entries doc) /\ nl_Entries c <> [].
Proof.
  intros Hd. unfold parseNbar2Catalog. destruct (_ =? 0) eqn:E; [done|]. intros ([entries byName] & Hp & [= <-])%bind_Some.
  apply (parse_entries_spec _ Hd []) in Hp as (? & ? & ? & ? & Hnm); [|constructor|constructor|constructor|intros id; rewrite lookup_empty; split; [by intros []|by intros ?%elem_of_nil]].
  split; [by constructor|]. split; [exact Hnm|]. cbn. intros ->. destruct (jc_Entries doc); [done|]. done.
Qed.

Definition pick (over : gmap bytes nbar2Entry) (e : nbar2Entry) : nbar2Entry := match over !! ne_Name e with Some o => o | None => e end.
Lemma overlay_base_spec over es : (forall name o, over !! name = Some o -> ne_Name o = name) -> forall entries, NoDup (map ne_Name entries ++ map ne_Name es) ->
  overlay_base es over entries (by_name entries) = (entries ++ map (pick over) es, by_name (entries ++ map (pick over) es)).
Proof.
  intros Hover. induction es as [|e es IH]; intros entries Hn; [by rewrite app_nil_r|]. cbn [overlay_base map].
  assert (Hname : ne_Name (pick over e) = ne_Name e) by (unfold pick; destruct (over !! ne_Name e) eqn:Eo; [by apply Hover in Eo|done]). fold (pick over e).
  assert (Hfresh : ne_Name (pick over e) ∉ map ne_Name entries) by (rewrite Hname; apply list.NoDup_app in Hn as (_ & Hn & _); intros Hin; apply (Hn _ Hin); by left).
  rewrite <- Hname, <- by_name_snoc by done. rewrite IH, <- app_assoc; [done|]. rewrite map_app. cbn [map]. rewrite Hname, <- app_assoc. exact Hn.
Qed.

Lemma overlay_rest_spec os : NoDup (map ne_Name os) -> forall entries, NoDup (map ne_Name entries) -> exists new,
  overlay_rest os entries (by_name entries) = (entries ++ new, by_name (entries ++ new)) /\ NoDup (map ne_Name (entries ++ new)) /\ (forall o, o ∈ new <-> o ∈ os /\ ne_Name o ∉ map ne_Name entries).
Proof.
  induction os as [|o os IH]; intros Hos entries Hn.
  { exists []. rewrite !app_nil_r. split; [done|]. split; [done|]. intros o. split; [by intros ?%elem_of_nil|by intros [?%elem_of_nil _]]. }
  cbn [map] in Hos. apply list.NoDup_cons in Hos as [Ho Hos]. cbn [overlay_rest]. destruct (by_name entries !! ne_Name o) as [x|] eqn:Eo.
  - destruct (IH Hos entries Hn) as (new & -> & Hn' & Hnew). exists new. split; [done|]. split; [done|]. intros o'. rewrite Hnew, list.elem_of_cons.
    assert (ne_Name o ∈ map ne_Name entries) by (destruct (decide (ne_Name o ∈ map ne_Name entries)) as [?|Hno]; [done|]; apply by_name_None in Hno; congruence). naive_solver.
  - apply by_name_None in Eo. rewrite <- by_name_snoc by done. destruct (IH Hos (entries ++ [o])) as (new & -> & Hn' & Hnew); [by apply NoDup_snoc|]. exists (o :: new). rewrite <- !app_assoc in *. cbn in *.
    split; [done|]. split; [done|]. intros o'. rewrite !list.elem_of_cons, Hnew, map_app, list.elem_of_app. cbn. rewrite list_elem_of_singleton. split.
    + intros [->|[Hin Hni]]; [by split; [left|]|]. split; [by right|]. tauto.
    + intros [[->|Hin] Hni]; [by left|]. right. split; [done|]. intros [?|He]; [done|]. apply Ho. rewrite <- He. apply list_elem_of_In, in_map, list_elem_of_In, Hin.
Qed.

Lemma ids_distinct_spec es : forall seen byID, ids_noted seen byID -> ids_distinct es byID = true -> NoDup (map ne_ID seen) -> NoDup (map ne_ID (seen ++ es)).
Proof.
  induction es as [|e es IH]; intros seen byID Hid; cbn [ids_distinct]; [by rewrite app_nil_r|]. case_bool_decide as H1; [done|]. intros H2 Hn.
  change (e :: es) with ([e] ++ es). rewrite app_assoc. eapply IH; [by apply ids_noted_snoc|exact H2|]. apply NoDup_snoc; [done|]. rewrite <- (Hid (ne_ID e)). done.
Qed.

(** An overlay wins by name, the rest carries through, and the result is again a
    catalog with unique names and identifiers. *)
Theorem merge_ok c o m : loaded_ok c -> loaded_ok o -> nbar2_MergeOverlay c o = Some m -> loaded_ok m /\ nl_ByName m = nl_ByName o ∪ nl_ByName c /\ nl_Extends m = nl_Extends o.
Proof.
  intros [Hcn _ Hci Hce] [Hon _ Hoi Hoe]. unfold nbar2_MergeOverlay. assert (Hov : forall name x, nl_ByName o !! name = Some x -> ne_Name x = name).
  { intros name x. rewrite Hoi. intros Hx. apply by_name_Some in Hx; [tauto|done]. }
  rewrite (overlay_base_spec _ (nl_Entries c) Hov []) by exact Hcn. cbn [app]. set (base := map _ _).
  assert (Hbn : map ne_Name base = map ne_Name (nl_Entries c)).
  { unfold base. rewrite map_map. apply map_ext. intros e. unfold pick. destruct (nl_ByName o !! ne_Name e) eqn:E; [by apply Hov in E|done]. }
  destruct (overlay_rest_spec _ Hon base) as (new & -> & Hn & Hnew); [by rewrite Hbn|]. destruct (ids_distinct _ _) eqn:Eid; [|done]. intros [= <-]. split; [|split; [|done]].
  - constructor; cbn; [done| |done|].
    + eapply (ids_distinct_spec _ []); [|exact Eid|constructor]. intros id. rewrite lookup_empty. split; [by intros []|by intros ?%elem_of_nil].
    + apply Forall_app. split.
      * unfold base. apply List.Forall_forall. intros x (e & <- & He)%in_map_iff. unfold pick. destruct (nl_ByName o !! ne_Name e) eqn:E; [|by eapply List.Forall_forall in He; [|exact Hce]].
        rewrite Hoi in E. apply by_name_Some in E as [E _]; [|done]. apply list_elem_of_In in E. by eapply List.Forall_forall in E; [|exact Hoe].
      * apply List.Forall_forall. intros x Hx%list_elem_of_In. apply Hnew in Hx as [Hx _]. apply list_elem_of_In in Hx. by eapply List.Forall_forall in Hx; [|exact Hoe].
  - cbn. apply map_eq. intros name. apply option_eq. intros e. rewrite by_name_Some by done. rewrite list.elem_of_app, Hnew, lookup_union_Some_raw, Hbn.
    rewrite Hci, (by_name_Some (nl_Entries c)) by done. rewrite Hoi at 1 2. rewrite by_name_Some, by_name_None by done.
    assert (Hb : e ∈ base <-> exists e0, e0 ∈ nl_Entries c /\ pick (nl_ByName o) e0 = e).
    { unfold base. rewrite list_elem_of_In, in_map_iff. setoid_rewrite list_elem_of_In. naive_solver. }
    rewrite Hb. split.
    + intros [[(e0 & He0 & Hpk)|[He Hno]] Hname]; [|by left]. unfold pick in Hpk. destruct (nl_ByName o !! ne_Name e0) eqn:E; subst e.
      * rewrite Hoi in E. apply by_name_Some in E as [E _]; [|done]. by left.
      * right. rewrite <- Hname, <- by_name_None, <- Hoi. done.
    + intros [[He Hname]|(Hno & He & Hname)]; (split; [|done]).
      * destruct (decide (ne_Name e ∈ map ne_Name (nl_Entries c))) as [Hin|Hin]; [|by right]. left. apply list_elem_of_In, in_map_iff in Hin as (e0 & He0 & Hin). exists e0. split; [by apply list_elem_of_In|].
        unfold pick. rewrite He0, Hoi. assert (Hs : by_name (nl_Entries o) !! ne_Name e = Some e) by (by apply by_name_Some). by rewrite Hs.
      * left. exists e. split; [done|]. unfold pick. rewrite Hname. rewrite Hoi. apply by_name_None in Hno. by rewrite Hno.
Qed.

Lemma agree_entries_spec es : forall first first', agree_entries es first = Some first' -> first ⊆ first' /\ forall e, e ∈ es -> first' !! ne_ID e = Some (ne_Name e).
Proof.
  induction es as [|e es IH]; intros first first'; cbn [agree_entries]; [intros [= <-]; split; [done|by intros e ?%elem_of_nil]|]. destruct (first !! ne_ID e) as [name|] eqn:E.
  - unfold beq. case_bool_decide as Hn; cbn [negb]; [|done]. intros [Hsub Hall]%IH. split; [done|]. intros e' [->|He']%list.elem_of_cons; [|by apply Hall]. subst name. by eapply lookup_weaken.
  - intros [Hsub Hall]%IH. split; [etrans; [by apply insert_subseteq|exact Hsub]|]. intros e' [->|He']%list.elem_of_cons; [|by apply Hall].
    eapply lookup_weaken; [apply lookup_insert_eq|exact Hsub].
Qed.
Lemma agree_catalogs_spec cats : forall first, agree_catalogs cats first = true -> exists m, first ⊆ m /\ forall c e, c ∈ cats -> e ∈ nl_Entries c -> m !! ne_ID e = Some (ne_Name e).
Proof.
  induction cats as [|c cats IH]; intros first; cbn [agree_catalogs]; [intros _; exists first; split; [done|by intros ? ? ?%elem_of_nil]|].
  destruct (agree_entries _ _) as [first'|] eqn:E; [|done]. apply agree_entries_spec in E as [Hsub Hall]. intros (m & Hm & Hrest)%IH. exists m. split; [by etrans|].
  intros c' e [->|Hc]%list.elem_of_cons He; [|by eapply Hrest]. eapply lookup_weaken; [by apply Hall|done].
Qed.
(** When the loader finds no disagreement, an identifier has one name across every
    catalog of the fleet. *)
Theorem catalogs_agree cats slug1 slug2 c1 c2 e1 e2 : nbar2CatalogsAgreeOnNames cats = true -> cats !! slug1 = Some c1 -> cats !! slug2 = Some c2 ->
  e1 ∈ nl_Entries c1 -> e2 ∈ nl_Entries c2 -> ne_ID e1 = ne_ID e2 -> ne_Name e1 = ne_Name e2.
Proof.
  intros (m & _ & Hm)%agree_catalogs_spec H1 H2 He1 He2 Hid.
  assert (Hin : forall slug c, cats !! slug = Some c -> c ∈ map snd (sort_by (fun a b => lex a.1 b.1) (map_to_list cats))).
  { intros slug c Hc. apply list_elem_of_In, in_map_iff. exists (slug, c). split; [done|]. apply list_elem_of_In. rewrite <- sort_by_perm. by apply elem_of_map_to_list. }
  pose proof (Hm c1 e1 (Hin _ _ H1) He1) as E1. pose proof (Hm c2 e2 (Hin _ _ H2) He2) as E2. rewrite Hid in E1. congruence.
Qed.

(** ** A tick of an NBAR2 exporter *)


(** ** Instances *)

#[local] Existing Instance cycle_rand.
#[local] Existing Instance cycle_laws.

Definition sampleDoc : nbar2CatalogJSON :=
  {| jc_Extends := None;
     jc_Entries :=
       [{| je_Name := str "http"; je_Description := str "World Wide Web traffic"; je_Engine := 3; je_Selector := 80; je_Proto := Some 6; je_DstPort := Some 80; je_Weight := 2;
           je_Hosts := [{| jv_Value := str "www.example.org"; jv_Weight := 3 |}; {| jv_Value := str "example.org"; jv_Weight := 0 |}];
           je_URIs := [{| jv_Value := str "/index.html"; jv_Weight := 0 |}] |};
        {| je_Name := str "ping"; je_Description := []; je_Engine := 13; je_Selector := 479; je_Proto := Some 1; je_DstPort := None; je_Weight := 0; je_Hosts := []; je_URIs := [] |}] |}.
Definition sampleLoaded : nbar2Loaded := default {| nl_Entries := []; nl_ByName := ∅; nl_Extends := true |} (parseNbar2Catalog sampleDoc).
Lemma sampleLoaded_parsed : parseNbar2Catalog sampleDoc = Some sampleLoaded.
Proof. vm_compute. reflexivity. Qed.
Lemma sampleLoaded_ok : loaded_ok sampleLoaded.
Proof. eapply parsed_ok; [|exact sampleLoaded_parsed]. constructor; [|constructor; [|constructor]]; intros p [= <-]; lia. Qed.
Lemma sampleLoaded_sized : ApplySizeBudget (fun _ => agedNow) 1472 sampleLoaded = Ok sampleLoaded.
Proof. vm_compute. reflexivity. Qed.

Definition nbar2Exporter : FlowExporter Z :=
  {| fe_cache := agedCache; fe_profile := sampleProfile; fe_override := 0; fe_rng := 7; fe_seqNo := 41; fe_domainID := 0x0A000001; fe_subAgentID := 0; fe_startTime := 0;
     fe_lastTempl := None; fe_templateInterval := 60000 * Millisecond; fe_collectorAddr := Some [10; 0; 0; 9]; fe_encoder := Some (IPFIXAVCEncoder (snd (finalize sampleLoaded))); fe_conn := true;
     fe_counterSources := []; fe_optionShape := []; fe_optionIfaces := []; fe_nbar2 := Some (fst (finalize sampleLoaded)); fe_scenPart := Some samplePart |}.
Lemma nbar2Exporter_ok : exporter_ok Z nbar2Exporter.
Proof.
  destruct sampleExporter_ok as [H1 H2 H3 _ H5]. constructor; [exact H1|exact H2|exact H3| |exact H5]. apply finalize_ok; [apply sampleLoaded_ok|]. vm_compute. congruence.
Qed.
Lemma nbar2Env_ok : env_ok nbar2Exporter [10; 0; 0; 9] goodEnv.
Proof. destruct (sampleEnv_ok (fun _ => false)) as [H1 H2 _ H4 H5]. constructor; [exact H1|exact H2|constructor|exact H4|exact H5]. Qed.

